(* ===== verification/_CoqProject ===== *)
-Q . S2P
Prelude.v
OrderedMap.v
FsPath.v
FsStatistics.v
FsTree.v
FsTreeFacts.v
FsTreeSpec.v
FsTreeLinks.v
RcptMessage.v
DownloadChannels.v
DownloadChannelsSpec.v
DownloadApproval.v
DownloadApprovalSpec.v
ModifyOpinion.v
ModifyOpinionSpec.v
ModifyApproval.v
ModifyApprovalSpec.v
ActionList.v
ModifyDrive.v
ModifyDriveSpec.v
Verification.v
VerificationSpec.v
RestartData.v
RestartDataSpec.v
FlatDrive.v
DriveTasks.v
FlatDriveSpec.v
FlatDriveRefinement.v
DriveTasksSpec.v
FolderIterator.v
FolderIteratorSpec.v
ManualModifications.v
ManualProtocol.v
ManualModificationsSpec.v
RcptSync.v
RcptSyncSpec.v
Replicator.v
ReplicatorSpec.v
ReplicatorVerification.v
ReplicatorMessages.v
Playlist.v
Streaming.v
StreamingSpec.v
StreamingProgress.v
StreamSessions.v
StreamSessionsSpec.v
ClientSession.v
ClientSessionSpec.v
ClientActionsSpec.v
StatusQueries.v
Endpoints.v
EndpointsSpec.v
TorrentSession.v
TorrentSessionSpec.v
DriveFiles.v
DriveFilesSpec.v
DriveCalls.v
DriveCallsSpec.v
LimiterRestart.v
LimiterRestartSpec.v
Messenger.v
MessengerSpec.v
SupercontractServer.v
SupercontractServerSpec.v
