(* ===== verification/Prelude.v ===== *)
(** * A verification development of the storage SDK

    A replicator stores drives for clients.  A drive is a tree of files named after
    their hashes; clients change it by modifications, streams or a supercontract's
    manual modifications, and download it through paid channels.  The replicators of
    a drive agree on what was changed, downloaded and stored by exchanging opinions,
    and send the result to the blockchain as approval transactions.  This library
    models the logic of one replicator and proves what makes it correct.

    ** How to read the model

    The code is event driven: everything below runs on one thread, the session
    thread, except for jobs of background threads, whose results come back as
    events.  A component is a record of its state, one function per handler, and a
    relation or a function that says which events may come when.  A handler takes the
    state and returns the new state with what it sends, in order, in the monad
    [Outcome]: [Stop f] is a failed assertion, an exception that leaves the handler,
    undefined behaviour, or an unbounded recursion.  An error that is logged
    ([_LOG_ERR], here [log_err]) is a failed assertion too, since [gBreakOnError] is
    set unless a program clears it.  So "the handler returns" is a theorem, never an
    assumption.

    - 64-bit counters are [Z]; where the code can wrap ([u64_add], [u64_sub], the sizes
      of the statistics, the conversions of the downloads) the wrap-around is written out.
    - A [std::map] with the order of its keys is a [gmap] whose entries are visited in
      order ([sorted_entries]) or, in the file tree, an ordered list ([OrderedMap]).
    - A pointer into the file tree is a position; a [shared_ptr] of a statistics node is
      a key of the store of nodes, which counts its owners.
    - A timer is absent, pending or expired ([TimerState]); an expiry is an event
      that a pending timer permits.
    - Signatures, archives (cereal), the 128-bit division (Boost.Multiprecision) and the
      random source are parameters, with what is used of them as hypotheses.

    ** The files and the code

    The file tree of a drive:
    - [OrderedMap], [FsPath]: [std::map<std::string,V>] and [std::filesystem::path];
    - [FsStatistics]: the counts of blocks that every file and folder keeps
      (include/drive/FsEntryStatistics.h);
    - [FsTree], with [FsTreeFacts], [FsTreeSpec], [FsTreeLinks]: the tree and its
      operations (include/drive/FsTree.h, src/drive/FsTree.cpp).  The abstract view of
      a tree is the map from positions to what stands there; an operation is specified
      by its change of that map.  [FsTreeLinks.linked] ties the tree to its nodes.
    - [FolderIterator], [FolderIteratorSpec] (src/drive/FolderIterator.cpp).

    Downloads:
    - [RcptMessage]: the bytes of a receipt (include/drive/RcptMessage.h);
    - [DownloadChannels], [DownloadChannelsSpec]: the accounting of a channel
      (include/drive/Replicator.h, src/drive/DownloadLimiter.h);
      [LimiterRestart], [LimiterRestartSpec]: the channels over the restarts of a
      replicator (src/drive/Replicator.cpp);
    - [DownloadApproval], [DownloadApprovalSpec]: the opinions about it and their
      transaction (src/drive/Replicator.cpp).

    Changes of a drive:
    - [ActionList], [ModifyDrive], [ModifyDriveSpec]: what a client asks for, the
      download of its files and the changes to the tree (include/drive/ActionList.h,
      src/drive/ModifyDriveTask.cpp);
    - [ModifyOpinion], [ModifyOpinionSpec]: who uploaded how much
      (src/drive/ModifyOpinionController.h);
    - [ModifyApproval], [ModifyApprovalSpec]: the opinions about the new tree and their
      transaction, for modifications and streams (src/drive/ModifyApprovalTaskBase.h,
      ModifyDriveTask.cpp, StreamTask.cpp);
    - [ManualModifications], [ManualProtocol], [ManualModificationsSpec]: the sandbox of
      a supercontract (src/drive/ManualModificationsTask.cpp).

    Live streams:
    - [Playlist]: the text of a playlist, written and read (src/drive/StreamTask.cpp,
      ViewerSession.cpp);
    - [Streaming], [StreamingSpec], [StreamingProgress]: the chunks of a stream on a
      replicator, from the first announcement to the tree that is put to the vote
      (src/drive/StreamTask.cpp, include/drive/Streaming.h);
    - [StreamSessions], [StreamSessionsSpec]: the streamer and the viewers
      (include/drive/StreamerSession.h, src/drive/ViewerSession.cpp), and the three
      together.

    The client:
    - [ClientSession], [ClientSessionSpec]: its channels, the traffic it counts and the
      receipts it signs (include/drive/ClientSession.h), against the accounting of a
      replicator; [ClientActionsSpec]: the action lists it makes, against
      the modification that a replicator performs;
    - [StatusQueries]: its questions about channels and modifications, and the answers.

    The drive and its surroundings:
    - [Verification], [VerificationSpec]: the proofs of storage
      (src/drive/VerificationDriveTask.cpp);
    - [RestartData], [RestartDataSpec]: what survives a restart (src/drive/DriveParams.h);
    - [FlatDrive], [FlatDriveSpec], [FlatDriveRefinement]: the queue of requests of a
      drive and its current task (src/drive/FlatDrive.cpp);
    - [DriveTasks], [DriveTasksSpec]: the other tasks -- initializing, cancelling,
      closing, synchronizing, catching up -- and all tasks as one type
      (src/drive/*Task.cpp, SynchronizationTaskBase.h);
    - [DriveFiles], [DriveFilesSpec]: what the tasks do to the folders of a drive, one
      operation of the file system after the other, with a process that can die between
      any two, and the start (InitializeDriveTask.cpp and the ends of the other tasks);
    - [RcptSync], [RcptSyncSpec]: receipts that a new replicator fetches from the others
      (src/drive/RcptSyncronizer.h, and the query ["get_dn_rcpts"] in Replicator.cpp);
    - [Replicator]: the drives by their keys, the channels and the messages
      (src/drive/Replicator.cpp); [ReplicatorSpec]: the replicator as the product of
      its drives; [ReplicatorVerification]: verification from the wire to the
      transaction; [ReplicatorMessages]: what others cannot break;
    - [DriveCalls], [DriveCallsSpec]: the calls of supercontracts, the questions about a
      drive and the messages about streams, from the replicator over the drive to its
      task (src/drive/Replicator.cpp, FlatDrive.cpp, DriveTaskBase.h);
    - [SupercontractServer], [SupercontractServerSpec]: the calls of supercontracts over
      gRPC (supercontract-server/src);
    - [Messenger], [MessengerSpec]: the streams of the programs that exchange messages
      through a replicator, and their subscriptions (messenger-server/src,
      src/drive/Replicator.cpp);
    - [Endpoints], [EndpointsSpec]: the addresses of the others and the own one
      (include/drive/EndpointsManager.h, src/drive/Replicator.cpp);
    - [TorrentSession], [TorrentSessionSpec]: the session with libtorrent, its torrents,
      downloads, removals and alerts (src/drive/Session.cpp).

    ** The interfaces

    The queue of a drive is written against the class [FlatDrive.DriveTask], the
    virtual functions of [DriveTaskBase] and the factories of the tasks;
    [FlatDrive.DriveTaskLaws] says that a factory makes a task of its type.
    [DriveTasks.AnyTask] is the sum of the tasks of the code, and an instance of both,
    so that the theorems about the queue and about the replicator, which are proved
    against the class, hold of the real tasks.
    [FlatDriveRefinement] says that the queue is an abstract priority queue, request by
    request and start by start, and
    [ReplicatorSpec.replicator_refines_drives] the replicator to one machine per drive:
    what is proved of one drive holds of every drive of a replicator.
    The approval of a modification is a module of handlers over the fields that the
    two classes share or declare twice.
    [StatusQueries.Archived] is the interface to cereal, and [Endpoints.EndpointLayout]
    to the addresses of Boost.

    ** What the theorems show

    - Safety of the approvals: every transaction carries opinions of enough different
      replicators that agree with it, and is sent at most once between failures, that of
      a channel within an hour of the first opinion about it ([approval_quorum_modify],
      [approval_sent_once], [approval_at_most_once], [verification_quorum]).
    - The whole replicator: a drive acts only on what is addressed to it and checked
      ([replicator_refines_drives]); a verification transaction has signed opinions only
      ([replicator_verification]); no message of another replicator, no piece and no
      timer stops the program, and a transaction or opinion about a drive or a channel
      does exactly when it is logged as an error ([outside_never_stops]).
    - The messenger is a publisher with topics for clients that name their receivers by
      whole keys ([messenger_publishes]), but keeps every
      broken stream ([broken_streams_stay]).
    - Addresses: a peer uses only addresses that someone entitled gave it
      ([endpoints_authentic]), and a new address gets to the others ([endpoint_exchange]).
    - Payment: what a client receives stays within its receipts, over restarts too,
      accepted receipts within the prepaid size of a replicator, downloads of a
      modification within the paid size, and the reported uploads add up to what was paid
      ([sent_within_limit_restarts], [paid_size_respected], [cumulative_accounting]); a
      client never signs for more than it asked for ([client_never_overpays]) and loses nothing
      by reconnecting ([client_resumes]); an exchange of receipts leaves the larger of
      every pair ([sync_merges_receipts]).
    - The file tree: the operations change exactly what they should, keep the tree
      well formed and its block counts balanced, and return, but for moves over an
      ancestor or into the moved folder ([performAction_correct], [moveFlat_correct]);
      performing a list of actions stops the program only by a move over an ancestor or an
      upload of a file whose name is not a hash ([action_list_safe]); the list
      that a client makes is one that a replicator accepts and downloads
      ([client_list_accepted], [client_list_served]).
    - The session: a removal of torrents is reported once, after the torrents are deleted
      ([removal_reported_once]), a download at most once ([download_told_once]).
    - Progress: an idle drive has nothing waiting, and no modification or stream is
      started twice ([drive_events]); the queue loses and reorders nothing beyond its
      rules ([drive_refines_queue]); every request of a supercontract that respects the
      protocol is answered once ([manual_answers]), its modelled calls over gRPC
      are finished once, whatever tasks the drives have ([rpc_calls_finished]), an interrupted task gives
      the drive back ([manual_ends]), downloads end ([downloads_complete]).
    - Streams: from the streamer over the replicators to the viewers of the finished
      stream nothing is lost or invented ([stream_end_to_end]); what a replicator
      announces and a viewer downloads is the streamer's, in order
      ([stream_serves_signed_chunks], [viewer_in_order], [viewer_catches_up]); the
      folder of the stream holds what the finish file says
      ([stream_completion_correct]); the work on an undisturbed stream stops only where
      the iterator of the downloads is used after the deque has grown
      ([orderly_stream_returns]).
    - Restart: a crash at any moment of an approval leaves the state before it, after
      it or, of a file that was not there before, a cut archive ([approve_crash_safe]);
      the files of a drive that starts, is modified and cancels modifications survive a
      crash at any moment ([drive_survives]), an update is all
      or nothing ([update_all_or_nothing]), and a synchronization can leave a drive
      that does not start ([synchronization_interrupted]).
    - Where the code does not do what it means to, an example runs it on the input that
      shows this; the examples stand at the ends of the [Spec] files.

    ** Fuel

    - [FsStatistics.update] walks the parents of a node; its fuel is the number of nodes
      plus one, which is used up only on a cycle, where the code recurses without end.
    - [FolderIterator.iterateAll] takes its fuel as an argument; the number of entries
      below the folder is enough.
    - [ModifyDrive.Session.downloadAll] takes as much fuel as there are missing files.
    - [ManualModificationsSpec.manual_ends] bounds the turns of the two threads by the
      pending ones.

    ** What is not modelled

    - libtorrent, sockets, gRPC and the RPC of a replicator: they move bytes and call the
      handlers above.  Their answers are events and parameters.  The torrents of
      [TorrentSession] and the handles that the other components keep are not tied
      together.
    - The contents of files on the disk, except where a handler reads them (the sandbox
      of a supercontract, the restart files); the serialization of cereal.
    - The tasks of the drive's queue ([DriveTasks]) have the approval of a stream, not
      its chunks; the two parts of [StreamTask] meet where the root hash is known.  A
      download of a stream that fails, where the code only asserts, is left out.
    - Kademlia (src/drive/Kademlia.cpp), an unfinished search for addresses that nothing
      calls.
    - Logs, timers as such, the cryptographic primitives, the examples and the tests.
    - The scheduling of threads: handlers of the session thread are atomic here, as
      they are there. *)

From stdpp Require Export base tactics list gmap strings fin_maps sorting.
From Stdlib Require Export ZArith Lia Ascii.
#[global] Open Scope Z_scope.

(** ** Faulting computations *)

(** How a C++ operation can stop without returning. *)
Inductive Fault :=
  | AssertFailure        (* the program aborts: SIRIUS_ASSERT, _LOG_ERR, std::terminate *)
  | ThrownException      (* an exception that leaves the operation *)
  | UndefinedBehaviour   (* a use of freed memory or an invalid iterator *)
  | NonTermination.      (* an unbounded recursion *)

(** The result of an operation: a value, or a fault. *)
Inductive Outcome (A : Type) :=
  | Ret (a : A)
  | Stop (f : Fault).
Arguments Ret {A} a.
Arguments Stop {A} f.

#[export] Instance outcome_ret : MRet Outcome := fun A a => Ret a.
#[export] Instance outcome_bind : MBind Outcome :=
  fun A B k m => match m with Ret a => k a | Stop f => Stop f end.

#[export] Instance fault_eq_dec : EqDecision Fault.
Proof. solve_decision. Defined.

(** [_LOG_ERR] (include/drive/log.h) writes to the log and then, when [gBreakOnError]
    is set, as it is by default, fails an assertion. *)
Definition gBreakOnError : bool := true.
Definition log_err {A} (k : Outcome A) : Outcome A := if gBreakOnError then Stop AssertFailure else k.

Lemma log_err_inv {A} (k : Outcome A) a : log_err k <> Ret a.
Proof. discriminate. Qed.

(** [guard_assert b k] is [SIRIUS_ASSERT(b); k]. *)
Definition guard_assert {A} (b : bool) (k : Outcome A) : Outcome A :=
  if b then k else Stop AssertFailure.

Lemma bind_ret_inv {A B} (m : Outcome A) (k : A -> Outcome B) b :
  (m ≫= k) = Ret b -> exists a, m = Ret a /\ k a = Ret b.
Proof. destruct m as [a|f]; cbn; [eauto | discriminate]. Qed.

Lemma guard_assert_inv {A} b (k : Outcome A) a :
  guard_assert b k = Ret a -> b = true /\ k = Ret a.
Proof. destruct b; cbn; [auto | discriminate]. Qed.

(** What holds of the value, when there is one. *)
Definition ensures {A} (P : A -> Prop) (m : Outcome A) : Prop :=
  match m with Ret a => P a | Stop _ => True end.

Lemma ensures_ret {A} (P : A -> Prop) m a : ensures P m -> m = Ret a -> P a.
Proof. intros H ->. exact H. Qed.

Lemma ensures_bind {A B} (Q : A -> Prop) (P : B -> Prop) (m : Outcome A) (k : A -> Outcome B) :
  ensures Q m -> (forall a, Q a -> ensures P (k a)) -> ensures P (m ≫= k).
Proof. destruct m as [a|f]; cbn; auto. Qed.

Lemma ensures_any {A B} (P : B -> Prop) (m : Outcome A) (k : A -> Outcome B) :
  (forall a, ensures P (k a)) -> ensures P (m ≫= k).
Proof. destruct m as [a|f]; cbn; auto. Qed.

Lemma ensures_assert {A} (P : A -> Prop) b k : (b = true -> ensures P k) -> ensures P (guard_assert b k).
Proof. destruct b; cbn; auto. Qed.

Lemma ensures_mono {A} (P Q : A -> Prop) m : (forall a, P a -> Q a) -> ensures P m -> ensures Q m.
Proof. destruct m; cbn; auto. Qed.

(** A boolean test that reflects a decidable proposition. *)
Lemma if_iff {A} (b : bool) (P : Prop) `{Decision P} (x y : A) :
  (b = true <-> P) -> (if b then x else y) = (if decide P then x else y).
Proof. intros [H1 H2]. destruct b; case_decide as HP; auto; [by destruct HP; auto | by discriminate H2]. Qed.

(** ** Timers *)

(** A [Timer] object: absent (or cancelled), armed, or expired.  Its
    [operator bool] stays true after the expiry. *)
Inductive TimerState := NoTimer | Pending | Fired.

#[export] Instance timer_state_eq_dec : EqDecision TimerState.
Proof. solve_decision. Defined.

Definition timer_bool (t : TimerState) : bool := match t with NoTimer => false | _ => true end.

(** ** Machine integers *)

Definition two64 : Z := 18446744073709551616.
Definition u64 (z : Z) : Z := z mod two64.
Definition u64_add (a b : Z) : Z := u64 (a + b).
Definition u64_sub (a b : Z) : Z := u64 (a - b).
Definition is_u64 (z : Z) : Prop := 0 <= z < two64.

#[export] Instance is_u64_dec z : Decision (is_u64 z).
Proof. unfold is_u64. apply _. Defined.

Lemma u64_range z : is_u64 (u64 z).
Proof. unfold is_u64, u64. apply Z.mod_pos_bound. reflexivity. Qed.

Lemma u64_small z : is_u64 z -> u64 z = z.
Proof. intros H. apply Z.mod_small, H. Qed.

Lemma u64_add_small a b : is_u64 (a + b) -> u64_add a b = a + b.
Proof. apply u64_small. Qed.

Lemma u64_sub_small a b : is_u64 (a - b) -> u64_sub a b = a - b.
Proof. apply u64_small. Qed.

Lemma u64_idemp z : u64 (u64 z) = u64 z.
Proof. apply u64_small, u64_range. Qed.

Lemma u64_add_l a b : u64 (u64 a + b) = u64 (a + b).
Proof. unfold u64. apply Zplus_mod_idemp_l. Qed.

Lemma u64_add_r a b : u64 (a + u64 b) = u64 (a + b).
Proof. unfold u64. apply Zplus_mod_idemp_r. Qed.

Lemma u64_sub_l a b : u64 (u64 a - b) = u64 (a - b).
Proof. unfold u64. apply Zminus_mod_idemp_l. Qed.

Lemma u64_sub_r a b : u64 (a - u64 b) = u64 (a - b).
Proof. unfold u64. apply Zminus_mod_idemp_r. Qed.

(** Congruence modulo [2^64], the equality of unsigned arithmetic. *)
Definition eq64 (a b : Z) : Prop := u64 a = u64 b.
Infix "≡₆₄" := eq64 (at level 70) : Z_scope.

#[export] Instance eq64_dec a b : Decision (a ≡₆₄ b).
Proof. unfold eq64. apply _. Defined.

#[export] Instance eq64_equiv : Equivalence eq64.
Proof. unfold eq64. split; [intros ? | intros ? ? | intros ? ? ?]; congruence. Qed.

#[export] Instance eq64_add_proper : Proper (eq64 ==> eq64 ==> eq64) Z.add.
Proof.
  intros a a' Ha b b' Hb. unfold eq64 in *.
  rewrite <- u64_add_l, <- u64_add_r, Ha, Hb, u64_add_l, u64_add_r. done.
Qed.

#[export] Instance eq64_sub_proper : Proper (eq64 ==> eq64 ==> eq64) Z.sub.
Proof.
  intros a a' Ha b b' Hb. unfold eq64 in *.
  rewrite <- u64_sub_l, <- u64_sub_r, Ha, Hb, u64_sub_l, u64_sub_r. done.
Qed.

Lemma u64_eq64 z : u64 z ≡₆₄ z.
Proof. unfold eq64. apply u64_idemp. Qed.

Lemma eq_eq64 a b : a = b -> a ≡₆₄ b.
Proof. by intros ->. Qed.

Lemma eq64_small a b : is_u64 a -> is_u64 b -> a ≡₆₄ b -> a = b.
Proof. unfold eq64. intros Ha Hb. rewrite !u64_small; auto. Qed.

Create HintDb u64.
Create Rewrite HintDb u64.
#[export] Hint Resolve u64_range u64_small : u64.
#[export] Hint Rewrite u64_idemp u64_add_l u64_add_r u64_sub_l u64_sub_r : u64.

(** Turns the machine operations of the goal into the integer ones; the
    range obligations go to [lia]. *)
Ltac unfold64 := unfold u64_add, u64_sub, is_u64, u64, two64 in *.
Ltac lia64 := unfold64; rewrite ?Z.mod_small in * by lia; lia.

(** Decides congruences modulo [2^64] between linear expressions. *)
Ltac eq64_lia :=
  unfold eq64, u64_add, u64_sub, is_u64, u64, two64 in *;
  Z.to_euclidean_division_equations; lia.

(** ** Sums over a finite map *)

Section MapSum.
  Context {K : Type} `{Countable K} {A : Type}.
  Implicit Types (m : gmap K A) (f : A -> Z).

Definition map_sum (f : A -> Z) (m : gmap K A) : Z :=
  map_fold (fun _ a acc => acc + f a) 0 m.

Lemma map_sum_empty f : map_sum f ∅ = 0.
Proof. apply map_fold_empty. Qed.

Lemma map_sum_insert f m k a :
  m !! k = None -> map_sum f (<[k := a]> m) = map_sum f m + f a.
Proof.
  intros Hk. unfold map_sum.
  rewrite (map_fold_insert_L (fun _ a acc => acc + f a)); [done | | done].
  intros; lia.
Qed.

Lemma map_sum_delete f m k a :
  m !! k = Some a -> map_sum f m = map_sum f (delete k m) + f a.
Proof.
  intros Hk. rewrite <- (insert_delete_id m k a) at 1 by done.
  rewrite map_sum_insert; [done | apply lookup_delete_eq].
Qed.

Lemma map_sum_update f m k a b :
  m !! k = Some a -> map_sum f (<[k := b]> m) = map_sum f m - f a + f b.
Proof.
  intros Hk. rewrite (map_sum_delete f m k a) by done.
  rewrite <- (insert_delete_eq m k b), map_sum_insert; [lia | apply lookup_delete_eq].
Qed.

Lemma map_sum_ext f g m :
  (forall k a, m !! k = Some a -> f a = g a) -> map_sum f m = map_sum g m.
Proof.
  induction m as [|k a m Hk IH] using map_ind; intros Hfg; [done|].
  rewrite !map_sum_insert by done. rewrite IH, (Hfg k a); [done | by simplify_map_eq |].
  intros j b Hj. apply (Hfg j). by rewrite lookup_insert_ne by congruence.
Qed.

Lemma map_sum_nonneg f m :
  (forall k a, m !! k = Some a -> 0 <= f a) -> 0 <= map_sum f m.
Proof.
  induction m as [|k a m Hk IH] using map_ind; intros Hf; [done|].
  rewrite map_sum_insert by done.
  assert (0 <= f a) by (apply (Hf k); by simplify_map_eq).
  enough (0 <= map_sum f m) by lia.
  apply IH. intros j b Hj. apply (Hf j). by rewrite lookup_insert_ne by congruence.
Qed.

Lemma map_sum_le f g m :
  (forall k a, m !! k = Some a -> f a <= g a) -> map_sum f m <= map_sum g m.
Proof.
  induction m as [|k a m Hk IH] using map_ind; intros Hf; [done|].
  rewrite !map_sum_insert by done.
  assert (f a <= g a) by (apply (Hf k); by simplify_map_eq).
  enough (map_sum f m <= map_sum g m) by lia.
  apply IH. intros j b Hj. apply (Hf j). by rewrite lookup_insert_ne by congruence.
Qed.

Lemma map_sum_lookup_le f m k a :
  (forall j b, m !! j = Some b -> 0 <= f b) -> m !! k = Some a -> f a <= map_sum f m.
Proof.
  intros Hf Hk. rewrite (map_sum_delete f m k a) by done.
  enough (0 <= map_sum f (delete k m)) by lia.
  apply map_sum_nonneg. intros j b Hj%lookup_delete_Some. naive_solver.
Qed.

End MapSum.

Lemma map_sum_fmap {K} `{Countable K} {A B} (f : B -> Z) (g : A -> B) (m : gmap K A) :
  map_sum f (g <$> m) = map_sum (fun a => f (g a)) m.
Proof.
  induction m as [|k a m Hk IH] using map_ind; [by rewrite fmap_empty|].
  rewrite fmap_insert, !map_sum_insert, IH; [done | done |].
  by rewrite lookup_fmap, Hk.
Qed.

(** ** Iteration in key order *)

(** The entries of a [std::map] with integer keys in the order of its iterators. *)
Definition key_le {A} (p q : Z * A) : Prop := p.1 <= q.1.
#[export] Instance key_le_dec {A} (p q : Z * A) : Decision (key_le p q).
Proof. unfold key_le. apply _. Defined.

Definition sorted_entries {A} (m : gmap Z A) : list (Z * A) := merge_sort key_le (map_to_list m).
Definition sorted_keys {A} (m : gmap Z A) : list Z := map fst (sorted_entries m).
Definition sorted_values {A} (m : gmap Z A) : list A := map snd (sorted_entries m).

Lemma sorted_entries_perm {A} (m : gmap Z A) : sorted_entries m ≡ₚ map_to_list m.
Proof. apply merge_sort_Permutation. Qed.

Lemma elem_of_sorted_entries {A} (m : gmap Z A) k a : (k, a) ∈ sorted_entries m <-> m !! k = Some a.
Proof. rewrite sorted_entries_perm. apply elem_of_map_to_list. Qed.

Lemma elem_of_sorted_values {A} (m : gmap Z A) a : a ∈ sorted_values m <-> exists k, m !! k = Some a.
Proof.
  unfold sorted_values. rewrite list_elem_of_fmap. split.
  - intros ([k b] & -> & H%elem_of_sorted_entries). eauto.
  - intros [k H]. exists (k, a). by rewrite elem_of_sorted_entries.
Qed.

Lemma length_sorted_values {A} (m : gmap Z A) : length (sorted_values m) = size m.
Proof.
  unfold sorted_values. rewrite length_map. rewrite (sorted_entries_perm m). apply length_map_to_list.
Qed.

Lemma NoDup_sorted_keys {A} (m : gmap Z A) : NoDup (sorted_keys m).
Proof.
  unfold sorted_keys. change (map fst (sorted_entries m)) with ((sorted_entries m).*1).
  rewrite (sorted_entries_perm m). apply NoDup_fst_map_to_list.
Qed.

Lemma elem_of_sorted_keys {A} (m : gmap Z A) k : k ∈ sorted_keys m <-> is_Some (m !! k).
Proof.
  unfold sorted_keys. rewrite list_elem_of_fmap. split.
  - intros ([k' b] & -> & H%elem_of_sorted_entries). by exists b.
  - intros [a H]. exists (k, a). by rewrite elem_of_sorted_entries.
Qed.

Lemma StronglySorted_sorted_keys {A} (m : gmap Z A) : StronglySorted Z.le (sorted_keys m).
Proof.
  unfold sorted_keys, sorted_entries.
  assert (StronglySorted key_le (merge_sort key_le (map_to_list m))) as H.
  { apply Sorted_StronglySorted; [|apply Sorted_merge_sort]; unfold key_le; [intros ???; cbn; lia|].
    intros x y. cbn. lia. }
  induction H as [|p l _ IH Hp]; cbn; constructor; [done|]. by apply Forall_map.
Qed.

Lemma forall2_in_r {A B} (R : A -> B -> Prop) l k y :
  Forall2 R l k -> y ∈ k -> exists x, x ∈ l /\ R x y.
Proof.
  induction 1 as [|a b l k Hab _ IH]; [by intros ?%not_elem_of_nil|].
  intros [->|Hin]%elem_of_cons; [exists a; split; [by left|done]|].
  destruct (IH Hin) as (x & Hx & HR). exists x. split; [by right|done].
Qed.

Lemma foldr_add_perm (l l' : list Z) : l ≡ₚ l' -> foldr Z.add 0 l = foldr Z.add 0 l'.
Proof. induction 1; cbn; lia. Qed.

(** A sum in key order. *)
Lemma map_sum_sorted {A} (f : A -> Z) (m : gmap Z A) :
  foldr Z.add 0 (map f (map snd (sorted_entries m))) = map_sum f m.
Proof.
  rewrite map_map. rewrite (foldr_add_perm _ _ (Permutation_map _ (sorted_entries_perm m))).
  induction m as [|k a m Hk IH] using map_ind; [done|].
  rewrite (foldr_add_perm _ _ (Permutation_map _ (map_to_list_insert m k a Hk))).
  rewrite map_sum_insert by done. cbn. rewrite IH. lia.
Qed.

(** ** Tactics *)

(** Splits the conditionals and matches of the goal and hypotheses. *)
Ltac split_cases :=
  repeat (case_match || case_decide || case_bool_decide); simplify_eq/=.

(** Walks through a computation whatever its intermediate values are. *)
Ltac ensures_step :=
  match goal with
  | |- ensures _ (Stop _) => exact I
  | |- ensures _ (_ ≫= _) => apply ensures_any; intros ?
  | |- ensures _ (guard_assert _ _) => apply ensures_assert; intros ?
  | |- ensures _ (log_err _) => exact I
  | |- ensures _ (match ?x with _ => _ end) => destruct x eqn:?
  | |- ensures _ (let _ := _ in _) => cbv zeta
  end.
Ltac ensures_walk := repeat ensures_step.

(** Inverts a successful monadic computation in a hypothesis. *)
Ltac inv_ret :=
  repeat match goal with
  | H : (_ ≫= _) = Ret _ |- _ => apply bind_ret_inv in H as (? & ? & ?)
  | H : guard_assert _ _ = Ret _ |- _ => apply guard_assert_inv in H as [? ?]
  | H : Ret _ = Ret _ |- _ => injection H as H; subst
  | H : Stop _ = Ret _ |- _ => discriminate H
  | H : log_err _ = Ret _ |- _ => discriminate H
  end.
