(* ===== verification/OrderedMap.v ===== *)
(** * [std::map<std::string, V>]

    The container of [Folder::m_childs]: an association list kept in the order of
    the keys, so that iterating it is the in-order walk of the C++ map.  The
    operations are those the sources use ([find], [operator\[\]] / [emplace] on a
    fresh key, [erase]); the laws are stated for any list and the order is an
    invariant the operations keep ([omap_sorted]). *)

From S2P Require Import Prelude.

(** The order of [std::string::compare] on bytes. *)
Definition string_lt (a b : string) : Prop := String.compare a b = Lt.

#[export] Instance string_lt_dec a b : Decision (string_lt a b).
Proof. unfold string_lt. apply _. Defined.

Lemma ascii_compare_lt_trans a b c :
  Ascii.compare a b = Lt -> Ascii.compare b c = Lt -> Ascii.compare a c = Lt.
Proof. unfold Ascii.compare. rewrite !N.compare_lt_iff. apply N.lt_trans. Qed.

Lemma string_lt_trans a b c : string_lt a b -> string_lt b c -> string_lt a c.
Proof.
  unfold string_lt. revert b c.
  induction a as [|x a IH]; intros [|y b] [|z c]; cbn; try discriminate; auto.
  destruct (Ascii.compare x y) eqn:Hxy; [| |discriminate];
    destruct (Ascii.compare y z) eqn:Hyz; try discriminate;
    repeat match goal with
    | H : Ascii.compare _ _ = Eq |- _ => apply Ascii.compare_eq_iff in H; subst
    end;
    rewrite ?Hxy, ?Hyz, ?(ascii_compare_lt_trans _ _ _ Hxy Hyz); eauto.
  intros. destruct (Ascii.compare z z) eqn:Hz; eauto.
  - unfold Ascii.compare in Hz. by rewrite N.compare_refl in Hz.
Qed.

Lemma string_compare_refl a : String.compare a a = Eq.
Proof.
  induction a as [|x a IH]; [done|]. cbn. unfold Ascii.compare.
  by rewrite N.compare_refl.
Qed.

Lemma string_lt_irrefl a : ~ string_lt a a.
Proof. unfold string_lt. by rewrite string_compare_refl. Qed.

Section OMap.
  Context {V : Type}.
  Implicit Types (m : list (string * V)) (k : string) (v : V).

(** [m.find(k)]; [None] is [m.end()]. *)
Fixpoint omap_find k m : option V :=
  match m with
  | [] => None
  | (k', v) :: m' => if decide (k = k') then Some v else omap_find k m'
  end.

(** The map after [m.erase(k)]. *)
Fixpoint omap_erase k m : list (string * V) :=
  match m with
  | [] => []
  | (k', v) :: m' => if decide (k = k') then omap_erase k m' else (k', v) :: omap_erase k m'
  end.

(** The map after [m[k] = v] (which is also [m.emplace(k, v)] when [k] is new). *)
Fixpoint omap_set k v m : list (string * V) :=
  match m with
  | [] => [(k, v)]
  | (k', v') :: m' =>
      match String.compare k k' with
      | Eq => (k, v) :: m'
      | Lt => (k, v) :: (k', v') :: m'
      | Gt => (k', v') :: omap_set k v m'
      end
  end.

(** [m.emplace(k, v)]: an existing entry is kept. *)
Definition omap_emplace k v m : list (string * V) :=
  match omap_find k m with Some _ => m | None => omap_set k v m end.

(** Keys strictly increasing, hence without repetition. *)
Definition omap_sorted m : Prop := StronglySorted string_lt (map fst m).

Lemma omap_find_set_eq k v m : omap_find k (omap_set k v m) = Some v.
Proof.
  induction m as [|[k' v'] m IH]; cbn; [by rewrite decide_True by done|].
  destruct (String.compare k k') eqn:E; cbn; rewrite ?decide_True by done; auto.
  rewrite decide_False; [done|]. intros ->. by rewrite string_compare_refl in E.
Qed.

Lemma omap_find_set_ne j k v m : j <> k -> omap_find j (omap_set k v m) = omap_find j m.
Proof.
  intros Hjk. induction m as [|[k' v'] m IH]; cbn; [by rewrite decide_False by done|].
  destruct (String.compare k k') eqn:E; cbn.
  - apply String.compare_eq_iff in E as <-. by rewrite !decide_False by done.
  - by rewrite (decide_False _ _ Hjk).
  - case_decide; auto.
Qed.

Lemma omap_find_erase_eq k m : omap_find k (omap_erase k m) = None.
Proof.
  induction m as [|[k' v'] m IH]; cbn; [done|].
  case_decide; cbn; [done|]. by rewrite decide_False by done.
Qed.

Lemma omap_find_erase_ne j k m : j <> k -> omap_find j (omap_erase k m) = omap_find j m.
Proof.
  intros Hjk. induction m as [|[k' v'] m IH]; cbn; [done|].
  case_decide; cbn; [subst; by rewrite decide_False by done | by case_decide].
Qed.

Lemma omap_find_emplace_new k v m :
  omap_find k m = None -> omap_emplace k v m = omap_set k v m.
Proof. unfold omap_emplace. by intros ->. Qed.

Lemma omap_find_In k v m : omap_find k m = Some v -> (k, v) ∈ m.
Proof.
  induction m as [|[k' v'] m IH]; cbn; [done|].
  case_decide; intros; simplify_eq; [left | right; auto].
Qed.

Lemma omap_erase_subset k m kv : kv ∈ omap_erase k m -> kv ∈ m.
Proof.
  induction m as [|[k' v'] m IH]; cbn; [done|].
  case_decide; [right; auto|]. intros [->|?]%elem_of_cons; [left | right; auto].
Qed.

Lemma omap_set_subset k v m kv : kv ∈ omap_set k v m -> kv = (k, v) \/ kv ∈ m.
Proof.
  induction m as [|[k' v'] m IH]; cbn.
  - intros ->%list_elem_of_singleton. auto.
  - destruct (String.compare k k'); rewrite !elem_of_cons; tauto.
Qed.

(** An invariant of the entries is kept by the updates. *)
Lemma omap_Forall_erase (P : string * V -> Prop) k m : Forall P m -> Forall P (omap_erase k m).
Proof. rewrite !Forall_forall. eauto using omap_erase_subset. Qed.

Lemma omap_Forall_set (P : string * V -> Prop) k v m :
  P (k, v) -> Forall P m -> Forall P (omap_set k v m).
Proof.
  rewrite !Forall_forall. intros Hkv Hm kv [->|?]%omap_set_subset; auto.
Qed.

Lemma omap_sorted_erase k m : omap_sorted m -> omap_sorted (omap_erase k m).
Proof.
  unfold omap_sorted. induction m as [|[k' v'] m IH]; cbn; [done|].
  intros [? Hall]%StronglySorted_inv. case_decide; [auto|]. constructor; [auto|].
  rewrite Forall_forall in Hall |- *. intros x (p & -> & Hp)%list_elem_of_fmap.
  apply Hall, list_elem_of_fmap. eauto using omap_erase_subset.
Qed.

Lemma omap_sorted_set k v m : omap_sorted m -> omap_sorted (omap_set k v m).
Proof.
  unfold omap_sorted. induction m as [|[k' v'] m IH]; cbn; [by repeat constructor|].
  intros [Hs Hall]%StronglySorted_inv.
  destruct (String.compare k k') eqn:E; cbn.
  - apply String.compare_eq_iff in E as ->. by constructor.
  - constructor; [by constructor|]. constructor; [done|].
    eapply Forall_impl; [exact Hall|]. intros x. by apply string_lt_trans.
  - constructor; [auto|]. rewrite Forall_forall in Hall |- *.
    intros x (p & -> & [->|Hp]%omap_set_subset)%list_elem_of_fmap; cbn.
    + unfold string_lt. by rewrite String.compare_antisym, E.
    + apply Hall, list_elem_of_fmap. eauto.
Qed.

Lemma omap_sorted_emplace k v m : omap_sorted m -> omap_sorted (omap_emplace k v m).
Proof. unfold omap_emplace. destruct (omap_find k m); auto using omap_sorted_set. Qed.

(** On a sorted list a membership is a successful search. *)
Lemma omap_sorted_find k v m : omap_sorted m -> (k, v) ∈ m -> omap_find k m = Some v.
Proof.
  unfold omap_sorted. induction m as [|[k' v'] m IH]; cbn; [by intros ? ?%elem_of_nil|].
  intros [Hs Hall]%StronglySorted_inv [?|Hin]%elem_of_cons; simplify_eq.
  - by rewrite decide_True.
  - rewrite decide_False; [auto|]. intros ->.
    rewrite Forall_forall in Hall.
    apply (string_lt_irrefl k'), Hall, list_elem_of_fmap. by exists (k', v).
Qed.

(** Writing back the value found is the identity. *)
Lemma omap_set_id k v m : omap_sorted m -> omap_find k m = Some v -> omap_set k v m = m.
Proof.
  unfold omap_sorted. induction m as [|[k' v'] m IH]; cbn; [done|].
  intros [Hs Hall]%StronglySorted_inv. case_decide as Hk; intros Hf.
  - simplify_eq. by rewrite string_compare_refl.
  - apply omap_find_In in Hf as Hin. rewrite Forall_forall in Hall.
    assert (string_lt k' k) as Hlt by (apply Hall, list_elem_of_fmap; by exists (k, v)).
    unfold string_lt in Hlt. rewrite String.compare_antisym, Hlt. cbn.
    by rewrite IH.
Qed.

Lemma omap_find_replace_eq k v m : omap_find k (omap_emplace k v (omap_erase k m)) = Some v.
Proof. rewrite omap_find_emplace_new by apply omap_find_erase_eq. apply omap_find_set_eq. Qed.

Lemma omap_find_replace_ne j k v m :
  j <> k -> omap_find j (omap_emplace k v (omap_erase k m)) = omap_find j m.
Proof.
  intros. rewrite omap_find_emplace_new by apply omap_find_erase_eq.
  by rewrite omap_find_set_ne, omap_find_erase_ne.
Qed.

End OMap.

Create HintDb omap.
Create Rewrite HintDb omap.
#[export] Hint Resolve omap_sorted_erase omap_sorted_set omap_sorted_emplace
  omap_Forall_erase omap_Forall_set : omap.
#[export] Hint Rewrite @omap_find_set_eq @omap_find_erase_eq : omap.
#[export] Hint Rewrite @omap_find_set_ne @omap_find_erase_ne using congruence : omap.
