(* ===== verification/FsPath.v ===== *)
(** * [std::filesystem::path] on POSIX

    A path is the list of the components its iterator yields: the root
    directory ["/"] first when the path is absolute, then the file names, then
    an empty name when the path ends with a separator.  [parent_path] and
    [filename] are the standard's operations on that list.  The code always
    goes through [path.parent_path().string()] and parses the text again;
    [path_of_string_render] shows that this second parse gives back the same
    components, so the model passes the components. *)

From S2P Require Import Prelude.

Definition path := list string.

Definition slash : Ascii.ascii := "/"%char.

(** The pieces between separators; never empty. *)
Fixpoint split_slash (s : string) : list string :=
  match s with
  | EmptyString => [""]
  | String c s' =>
      if decide (c = slash) then "" :: split_slash s'
      else match split_slash s' with
           | [] => [String c ""]
           | p :: ps => String c p :: ps
           end
  end.

(** Runs of separators count once; a final separator leaves an empty name. *)
Definition path_clean (pieces : list string) : path :=
  match filter (fun p => p <> "") pieces with
  | [] => []
  | names => if decide (last pieces = Some "") then names ++ [""] else names
  end.

(** [fs::path path(s)] and its iteration. *)
Definition path_of_string (s : string) : path :=
  match split_slash s with
  | [p] => if decide (p = "") then [] else [p]
  | p :: rest => if decide (p = "") then "/" :: path_clean rest else path_clean (p :: rest)
  | [] => []
  end.

(** [!has_relative_path()]. *)
Definition path_is_rootlike (p : path) : bool := bool_decide (p = [] \/ p = ["/"]).

Definition parent_path (p : path) : path :=
  if path_is_rootlike p then p else removelast p.

Definition filename (p : path) : string :=
  if path_is_rootlike p then "" else default "" (last p).

(** The text of a path. *)
Fixpoint join_slash (ps : list string) : string :=
  match ps with
  | [] => ""
  | [p] => p
  | p :: ps' => p +:+ "/" +:+ join_slash ps'
  end.

Definition path_string (p : path) : string :=
  match p with
  | q :: rel => if decide (q = "/") then "/" +:+ join_slash rel else join_slash p
  | [] => ""
  end.

(** ** Round trip *)

Fixpoint no_slash (s : string) : Prop :=
  match s with EmptyString => True | String c s' => c <> slash /\ no_slash s' end.

(** A relative part: proper names, then possibly the empty name. *)
Definition names_wf (ps : list string) : Prop := Forall (fun p => no_slash p /\ p <> "") ps.
Definition rel_wf (ps : list string) : Prop :=
  names_wf ps \/ exists ns, ps = ns ++ [""] /\ ns <> [] /\ names_wf ns.
Definition path_wf (p : path) : Prop := rel_wf p \/ exists rel, p = "/" :: rel /\ rel_wf rel.

Lemma split_slash_app x s : no_slash x -> split_slash (x +:+ "/" +:+ s) = x :: split_slash s.
Proof.
  induction x as [|c x IH]; [done|]. intros [Hc Hx].
  change (String c x +:+ "/" +:+ s) with (String c (x +:+ "/" +:+ s)).
  cbn [split_slash]. by rewrite decide_False, IH.
Qed.

Lemma split_slash_no_slash x : no_slash x -> split_slash x = [x].
Proof.
  induction x as [|c x IH]; [done|]. intros [Hc Hx].
  cbn [split_slash]. by rewrite decide_False, IH.
Qed.

Lemma split_slash_pieces s : Forall no_slash (split_slash s).
Proof.
  induction s as [|c s IH]; cbn; [by repeat constructor|].
  case_decide; [by constructor|].
  destruct (split_slash s) as [|p ps]; [by repeat constructor|].
  inversion IH; subst. by repeat constructor.
Qed.

Lemma split_join ps : ps <> [] -> Forall no_slash ps -> split_slash (join_slash ps) = ps.
Proof.
  induction ps as [|p [|q ps] IH]; [done| |]; intros _ Hps; inversion Hps; subst.
  - by apply split_slash_no_slash.
  - change (join_slash (p :: q :: ps)) with (p +:+ "/" +:+ join_slash (q :: ps)).
    rewrite split_slash_app by done. by rewrite IH.
Qed.

Lemma names_wf_no_slash ps : names_wf ps -> Forall no_slash ps.
Proof. intros H. eapply Forall_impl; [exact H|]. naive_solver. Qed.

Lemma rel_wf_no_slash ps : rel_wf ps -> Forall no_slash ps.
Proof.
  intros [H|(ns & -> & _ & H)]; [by apply names_wf_no_slash|].
  apply Forall_app. split; [by apply names_wf_no_slash|]. by repeat constructor.
Qed.

Lemma names_wf_filter ps : names_wf ps -> filter (fun p => p <> "") ps = ps.
Proof.
  induction 1 as [|p ps [? ?] _ IH]; [done|]. by rewrite filter_cons_True, IH.
Qed.

Lemma path_clean_rel ps : rel_wf ps -> path_clean ps = ps.
Proof.
  unfold path_clean. intros [H|(ns & -> & Hne & H)].
  - rewrite names_wf_filter by done. destruct ps as [|p ps]; [done|].
    rewrite decide_False; [done|].
    intros Hl%last_Some. destruct Hl as [l' Hl']. rewrite Hl' in H.
    apply Forall_app in H as [_ H]. inversion H; naive_solver.
  - rewrite filter_app, names_wf_filter by done. cbn.
    rewrite app_nil_r. rewrite last_snoc. destruct ns; [done|].
    by rewrite decide_True.
Qed.

Lemma path_clean_wf ps : Forall no_slash ps -> rel_wf (path_clean ps).
Proof.
  intros Hps. unfold path_clean.
  assert (names_wf (filter (fun p => p <> "") ps)) as Hf.
  { apply Forall_forall. intros x [? ?]%list_elem_of_filter.
    rewrite Forall_forall in Hps. auto. }
  destruct (filter _ ps) as [|n ns]; [by left|].
  case_decide; [right; by exists (n :: ns) | by left].
Qed.

(** Every parsed path is well formed. *)
Lemma path_of_string_wf s : path_wf (path_of_string s).
Proof.
  unfold path_of_string. pose proof (split_slash_pieces s) as Hs.
  destruct (split_slash s) as [|p [|q rest]]; [left; left; constructor | |].
  - case_decide; left; left; [constructor|]. inversion Hs; subst. by repeat constructor.
  - case_decide; [|by left; apply path_clean_wf].
    right. eexists. split; [done|]. inversion Hs. by apply path_clean_wf.
Qed.

Lemma rel_wf_removelast ps : rel_wf ps -> rel_wf (removelast ps).
Proof.
  intros [H|(ns & -> & _ & H)]; left.
  - destruct ps as [|p ps] using rev_ind; [done|]. rewrite removelast_last.
    by apply Forall_app in H as [? _].
  - by rewrite removelast_last.
Qed.

Lemma parent_path_wf p : path_wf p -> path_wf (parent_path p).
Proof.
  unfold parent_path. destruct (path_is_rootlike p) eqn:E; [done|].
  intros [H|(rel & -> & H)]; [left; by apply rel_wf_removelast|].
  right. destruct rel as [|r rel].
  - unfold path_is_rootlike in E. rewrite bool_decide_eq_false in E. naive_solver.
  - exists (removelast (r :: rel)). split; [done|]. by apply rel_wf_removelast.
Qed.

(** Rendering and parsing again gives the same path. *)
Lemma path_of_string_render p : path_wf p -> path_of_string (path_string p) = p.
Proof.
  assert (forall rel, rel_wf rel -> rel <> [] -> path_of_string (join_slash rel) = rel) as Hrel.
  { intros rel H Hne. unfold path_of_string.
    rewrite split_join by auto using rel_wf_no_slash.
    destruct rel as [|p1 [|p2 rel]]; [done | |];
      destruct H as [H|([|n [|n' ns]] & E & Hns & H)]; simplify_eq/=;
      inversion H; subst; rewrite decide_False by naive_solver; try done.
    - apply path_clean_rel. by left.
    - apply path_clean_rel. right. by exists [n].
    - apply path_clean_rel. right. by exists (n :: n' :: ns). }
  assert (forall rel, rel_wf rel -> path_of_string ("/" +:+ join_slash rel) = "/" :: rel) as Habs.
  { intros rel H. unfold path_of_string.
    destruct rel as [|r rel]; [done|].
    pose proof (split_slash_app "" (join_slash (r :: rel)) I) as Hs. cbn in Hs.
    change ("/" +:+ join_slash (r :: rel)) with (String "/" (join_slash (r :: rel))).
    cbn [split_slash]. rewrite decide_True by done.
    rewrite split_join by auto using rel_wf_no_slash.
    cbn [decide]. rewrite decide_True by done. by rewrite path_clean_rel. }
  intros [H|(rel & -> & H)]; [|unfold path_string; rewrite decide_True by done; by apply Habs].
  destruct p as [|q p]; [done|]. unfold path_string.
  rewrite decide_False; [by apply Hrel|]. intros ->.
  apply rel_wf_no_slash in H. apply Forall_inv in H. cbn in H. by destruct H.
Qed.
