(* ===== verification/FsStatistics.v ===== *)
(** * Block accounting of the file tree ([include/drive/FsEntryStatistics.h])

    Every file and folder of an [FsTree] owns a statistics node; a node knows
    its parent by a [weak_ptr].  The model keeps the nodes in a store keyed by
    an identity, so that sharing and the parent chain are explicit;
    [weak_ptr::lock] is a lookup in the store.  [update] walks the parent
    chain: it is a recursion with fuel, and running out of fuel is the
    unbounded recursion of the code.  [update_total] shows that the fuel
    is enough exactly when the chain ends.

    Main result: every operation keeps, at every folder node, the equation
    "children blocks = sum of the totals of the nodes whose parent it is". *)

From S2P Require Import Prelude.

(** ** Data *)

Record FolderStatistics := mkFolderStatistics { m_blocks : Z; m_childrenBlocks : Z }.
Record FileStatistics := mkFileStatistics { file_m_blocks : Z }.

Definition zeroFolderStatistics : FolderStatistics := mkFolderStatistics 0 0.
Definition zeroFileStatistics : FileStatistics := mkFileStatistics 0.

(** [FolderStatistics::totalBlocks], [FileStatistics::totalBlocks]. *)
Definition totalBlocks (s : FolderStatistics) : Z := u64_add (m_blocks s) (m_childrenBlocks s).
Definition file_totalBlocks (s : FileStatistics) : Z := file_m_blocks s.

(** [operator-=] and [operator+=]; the argument is the other entry's total. *)
Definition stat_sub (s : FolderStatistics) (total : Z) : FolderStatistics :=
  mkFolderStatistics (m_blocks s) (u64_sub (m_childrenBlocks s) total).
Definition stat_add (s : FolderStatistics) (total : Z) : FolderStatistics :=
  mkFolderStatistics (m_blocks s) (u64_add (m_childrenBlocks s) total).

Record FolderStatisticsNode := mkFolderNode {
  fdn_parent : option nat; fdn_statistics : FolderStatistics }.
Record FileStatisticsNode := mkFileNode {
  fln_parent : option nat; fln_statistics : FileStatistics }.

(** [st_owners] has a node once for each [shared_ptr] to it after the first. *)
Record StatStore := mkStatStore {
  st_folders : gmap nat FolderStatisticsNode;
  st_files : gmap nat FileStatisticsNode;
  st_next : nat;
  st_owners : list nat }.

Definition empty_store : StatStore := mkStatStore ∅ ∅ 0%nat [].

(** ** Operations *)

Definition set_folder (id : nat) (n : FolderStatisticsNode) (st : StatStore) : StatStore :=
  mkStatStore (<[id := n]> (st_folders st)) (st_files st) (st_next st) (st_owners st).
Definition set_file (id : nat) (n : FileStatisticsNode) (st : StatStore) : StatStore :=
  mkStatStore (st_folders st) (<[id := n]> (st_files st)) (st_next st) (st_owners st).

(** [std::make_shared<FolderStatisticsNode>()] and the file variant. *)
Definition new_folder_node (st : StatStore) : nat * StatStore :=
  (st_next st,
   mkStatStore (<[st_next st := mkFolderNode None zeroFolderStatistics]> (st_folders st))
     (st_files st) (S (st_next st)) (st_owners st)).
Definition new_file_node (st : StatStore) : nat * StatStore :=
  (st_next st,
   mkStatStore (st_folders st)
     (<[st_next st := mkFileNode None zeroFileStatistics]> (st_files st)) (S (st_next st)) (st_owners st)).

(** Another [shared_ptr] to a node, and one less when there is another. *)
Definition own (id : nat) (st : StatStore) : StatStore :=
  mkStatStore (st_folders st) (st_files st) (st_next st) (id :: st_owners st).
Fixpoint remove_one (id : nat) (l : list nat) : list nat :=
  match l with
  | [] => []
  | x :: l' => if decide (x = id) then l' else x :: remove_one id l'
  end.
Definition disown (id : nat) (st : StatStore) : StatStore :=
  mkStatStore (st_folders st) (st_files st) (st_next st) (remove_one id (st_owners st)).

(** The end of a [shared_ptr]: with the last one the node goes, and its
    [weak_ptr]s stop locking. *)
Definition drop_folder_node (id : nat) (st : StatStore) : StatStore :=
  if decide (id ∈ st_owners st) then disown id st
  else mkStatStore (delete id (st_folders st)) (st_files st) (st_next st) (st_owners st).
Definition drop_file_node (id : nat) (st : StatStore) : StatStore :=
  if decide (id ∈ st_owners st) then disown id st
  else mkStatStore (st_folders st) (delete id (st_files st)) (st_next st) (st_owners st).

(** [weak_ptr::lock]. *)
Definition lock (st : StatStore) (w : option nat) : option nat :=
  match w with
  | Some p => if decide (is_Some (st_folders st !! p)) then Some p else None
  | None => None
  end.

(** [FolderStatisticsNode::update]; [old] and [new] are the totals of the two
    statistics arguments, the only thing the code reads of them. *)
Fixpoint update_fuel (fuel : nat) (id : nat) (old new : Z) (st : StatStore) : Outcome StatStore :=
  match fuel with
  | O => Stop NonTermination
  | S fuel' =>
      match st_folders st !! id with
      | None => Stop UndefinedBehaviour
      | Some n =>
          let oldStatistics := fdn_statistics n in
          let newStatistics := stat_add (stat_sub oldStatistics old) new in
          let st' := set_folder id (mkFolderNode (fdn_parent n) newStatistics) st in
          match lock st' (fdn_parent n) with
          | None => Ret st'
          | Some p => update_fuel fuel' p (totalBlocks oldStatistics) (totalBlocks newStatistics) st'
          end
      end
  end.

Definition update (id : nat) (old new : Z) (st : StatStore) : Outcome StatStore :=
  update_fuel (size (st_folders st)) id old new st.

(** [parent.lock()] followed by [update] when it succeeds. *)
Definition update_locked (w : option nat) (old new : Z) (st : StatStore) : Outcome StatStore :=
  match lock st w with
  | None => Ret st
  | Some p => update p old new st
  end.

(** [FolderStatisticsNode::setParent]. *)
Definition folder_setParent (id : nat) (parent : option nat) (st : StatStore) : Outcome StatStore :=
  match st_folders st !! id with
  | None => Stop UndefinedBehaviour
  | Some n =>
      st1 ← update_locked (fdn_parent n) (totalBlocks (fdn_statistics n))
              (totalBlocks zeroFolderStatistics) st;
      match st_folders st1 !! id with
      | None => Stop UndefinedBehaviour
      | Some n1 =>
          let st2 := set_folder id (mkFolderNode parent (fdn_statistics n1)) st1 in
          update_locked parent (totalBlocks zeroFolderStatistics)
            (totalBlocks (fdn_statistics n1)) st2
      end
  end.

(** [FileStatisticsNode::setParent]. *)
Definition file_setParent (id : nat) (parent : option nat) (st : StatStore) : Outcome StatStore :=
  match st_files st !! id with
  | None => Stop UndefinedBehaviour
  | Some n =>
      st1 ← update_locked (fln_parent n) (file_totalBlocks (fln_statistics n))
              (file_totalBlocks zeroFileStatistics) st;
      let st2 := set_file id (mkFileNode parent (fln_statistics n)) st1 in
      update_locked parent (file_totalBlocks zeroFileStatistics)
        (file_totalBlocks (fln_statistics n)) st2
  end.

(** [FolderStatisticsNode::addBlock] ([d = 1]) and [removeBlock] ([d = -1]). *)
Definition folder_changeBlocks (d : Z) (id : nat) (st : StatStore) : Outcome StatStore :=
  match st_folders st !! id with
  | None => Stop UndefinedBehaviour
  | Some n =>
      let s := fdn_statistics n in
      let s' := mkFolderStatistics (u64_add (m_blocks s) d) (m_childrenBlocks s) in
      update_locked (fdn_parent n) (totalBlocks s) (totalBlocks s')
        (set_folder id (mkFolderNode (fdn_parent n) s') st)
  end.
Definition folder_addBlock : nat -> StatStore -> Outcome StatStore := folder_changeBlocks 1.
Definition folder_removeBlock : nat -> StatStore -> Outcome StatStore := folder_changeBlocks (-1).

(** [FileStatisticsNode::addBlock] and [removeBlock]. *)
Definition file_changeBlocks (d : Z) (id : nat) (st : StatStore) : Outcome StatStore :=
  match st_files st !! id with
  | None => Stop UndefinedBehaviour
  | Some n =>
      let s := fln_statistics n in
      let s' := mkFileStatistics (u64_add (file_m_blocks s) d) in
      update_locked (fln_parent n) (file_totalBlocks s) (file_totalBlocks s')
        (set_file id (mkFileNode (fln_parent n) s') st)
  end.
Definition file_addBlock : nat -> StatStore -> Outcome StatStore := file_changeBlocks 1.
Definition file_removeBlock : nat -> StatStore -> Outcome StatStore := file_changeBlocks (-1).

(** ** The accounting equation *)

Definition folder_contrib (n : nat) (nd : FolderStatisticsNode) : Z :=
  if decide (fdn_parent nd = Some n) then totalBlocks (fdn_statistics nd) else 0.
Definition file_contrib (n : nat) (nd : FileStatisticsNode) : Z :=
  if decide (fln_parent nd = Some n) then file_totalBlocks (fln_statistics nd) else 0.

(** The sum of the totals of the children of [n]. *)
Definition expected (st : StatStore) (n : nat) : Z :=
  map_sum (folder_contrib n) (st_folders st) + map_sum (file_contrib n) (st_files st).

(** The accounting equation up to a correction [d n] that a running operation
    still owes to the node [n]. *)
Definition balanced_upto (d : nat -> Z) (st : StatStore) : Prop :=
  forall n nd, st_folders st !! n = Some nd ->
    m_childrenBlocks (fdn_statistics nd) + d n ≡₆₄ expected st n.

Definition balanced (st : StatStore) : Prop := balanced_upto (fun _ => 0) st.

(** The correction owed to one locked parent. *)
Definition owe (w : option nat) (z : Z) (n : nat) : Z := if decide (w = Some n) then z else 0.

Lemma balanced_upto_ext d d' st :
  (forall n, is_Some (st_folders st !! n) -> d n ≡₆₄ d' n) ->
  balanced_upto d st -> balanced_upto d' st.
Proof.
  intros Hd H n nd Hn. rewrite <- (H n nd Hn).
  assert (d n ≡₆₄ d' n) as Hdn by eauto. by rewrite Hdn.
Qed.

Lemma expected_set_folder st id n0 n1 x :
  st_folders st !! id = Some n0 ->
  expected (set_folder id n1 st) x =
  expected st x - folder_contrib x n0 + folder_contrib x n1.
Proof. intros H. unfold expected; cbn. rewrite (map_sum_update _ _ _ _ _ H). lia. Qed.

Lemma expected_set_file st id n0 n1 x :
  st_files st !! id = Some n0 ->
  expected (set_file id n1 st) x =
  expected st x - file_contrib x n0 + file_contrib x n1.
Proof. intros H. unfold expected; cbn. rewrite (map_sum_update _ _ _ _ _ H). lia. Qed.

Lemma lock_owe st w z n :
  is_Some (st_folders st !! n) -> owe (lock st w) z n = owe w z n.
Proof.
  intros Hn. unfold owe, lock. destruct w as [p|]; [|done].
  repeat case_decide; naive_solver.
Qed.

Lemma set_folder_dom st id n n0 x :
  st_folders st !! id = Some n0 ->
  is_Some (st_folders (set_folder id n st) !! x) <-> is_Some (st_folders st !! x).
Proof.
  intros H. cbn. rewrite lookup_insert. case_decide; [subst; rewrite H|done].
  split; eauto.
Qed.

(** One step of [update] moves the correction from the node to its parent. *)
Lemma update_step_balanced d st id n old new :
  st_folders st !! id = Some n ->
  balanced_upto (fun x => d x + owe (Some id) (new - old) x) st ->
  let s' := stat_add (stat_sub (fdn_statistics n) old) new in
  balanced_upto
    (fun x => d x + owe (fdn_parent n) (totalBlocks s' - totalBlocks (fdn_statistics n)) x)
    (set_folder id (mkFolderNode (fdn_parent n) s') st).
Proof.
  intros Hn Hb s' x nd Hx. rewrite (expected_set_folder _ _ _ _ _ Hn).
  assert (folder_contrib x (mkFolderNode (fdn_parent n) s') - folder_contrib x n =
          owe (fdn_parent n) (totalBlocks s' - totalBlocks (fdn_statistics n)) x) as Hc.
  { unfold folder_contrib, owe; cbn. case_decide; lia. }
  cbn in Hx. rewrite lookup_insert in Hx. case_decide as Hid.
  - subst x. simplify_eq/=. specialize (Hb id n Hn). cbn in Hb.
    unfold owe in Hb at 1. rewrite decide_True in Hb by done.
    revert Hb Hc. generalize (owe (fdn_parent n) (totalBlocks s' - totalBlocks (fdn_statistics n)) id).
    generalize (folder_contrib id (mkFolderNode (fdn_parent n) s')) (folder_contrib id n).
    intros. eq64_lia.
  - specialize (Hb x nd Hx). cbn in Hb. unfold owe in Hb at 1.
    rewrite decide_False in Hb by naive_solver.
    revert Hb Hc. generalize (owe (fdn_parent n) (totalBlocks s' - totalBlocks (fdn_statistics n)) x).
    generalize (folder_contrib x (mkFolderNode (fdn_parent n) s')) (folder_contrib x n).
    intros. eq64_lia.
Qed.

Lemma update_fuel_balanced fuel : forall d st st' id old new,
  update_fuel fuel id old new st = Ret st' ->
  balanced_upto (fun x => d x + owe (Some id) (new - old) x) st ->
  balanced_upto d st'.
Proof.
  induction fuel as [|fuel IH]; cbn; intros d st st' id old new Hu Hb; [done|].
  destruct (st_folders st !! id) as [n|] eqn:Hn; [|done].
  pose proof (update_step_balanced d st id n old new Hn Hb) as Hstep. cbn zeta in Hstep.
  set (s' := stat_add _ _) in *. set (st1 := set_folder _ _ _) in *.
  destruct (lock st1 (fdn_parent n)) as [p|] eqn:Hl.
  - eapply IH; [exact Hu|]. revert Hstep. apply balanced_upto_ext. intros x Hx.
    by rewrite <- (lock_owe _ _ _ _ Hx), Hl.
  - simplify_eq. revert Hstep. apply balanced_upto_ext. intros x Hx.
    rewrite <- (lock_owe _ _ _ _ Hx), Hl. unfold owe. rewrite decide_False by done.
    by rewrite Z.add_0_r.
Qed.

Lemma update_locked_balanced d st st' w old new :
  update_locked w old new st = Ret st' ->
  balanced_upto (fun x => d x + owe w (new - old) x) st ->
  balanced_upto d st'.
Proof.
  unfold update_locked. intros Hu Hb.
  assert (balanced_upto (fun x => d x + owe (lock st w) (new - old) x) st) as Hb'.
  { revert Hb. apply balanced_upto_ext. intros x Hx. by rewrite lock_owe. }
  destruct (lock st w) as [p|]; [by eapply update_fuel_balanced|]. simplify_eq.
  revert Hb'. apply balanced_upto_ext. intros x _. unfold owe.
  rewrite decide_False by done. by rewrite Z.add_0_r.
Qed.

(** ** The parent chain and termination *)

(** The walk from [id] through locked parents ends after [k] more nodes. *)
Inductive chain (st : StatStore) : nat -> nat -> Prop :=
  | chain_end id n :
      st_folders st !! id = Some n -> lock st (fdn_parent n) = None -> chain st id 0
  | chain_step id n p k :
      st_folders st !! id = Some n -> lock st (fdn_parent n) = Some p ->
      chain st p k -> chain st id (S k).

Lemma chain_det st id k k' : chain st id k -> chain st id k' -> k = k'.
Proof.
  intros H. revert k'. induction H as [id n Hn Hl|id n p k Hn Hl _ IH]; intros k' H';
    inversion H'; simplify_eq; [done|]. f_equal. naive_solver.
Qed.

(** Two stores with the same links. *)
Definition same_links (st st' : StatStore) : Prop :=
  forall x, fdn_parent <$> (st_folders st !! x) = fdn_parent <$> (st_folders st' !! x).

#[export] Instance same_links_equiv : Equivalence same_links.
Proof. unfold same_links. split; [intros ? | intros ? ? | intros ? ? ?]; congruence. Qed.

Lemma same_links_dom st st' x :
  same_links st st' -> is_Some (st_folders st !! x) <-> is_Some (st_folders st' !! x).
Proof. intros H. rewrite <- !(fmap_is_Some fdn_parent). by rewrite H. Qed.

Lemma same_links_lock st st' w : same_links st st' -> lock st w = lock st' w.
Proof.
  intros H. destruct w as [p|]; cbn; [|done].
  pose proof (same_links_dom st st' p H). repeat case_decide; tauto.
Qed.

Lemma same_links_lookup st st' x n :
  same_links st st' -> st_folders st !! x = Some n ->
  exists n', st_folders st' !! x = Some n' /\ fdn_parent n' = fdn_parent n.
Proof.
  intros H Hx. specialize (H x). rewrite Hx in H. cbn in H.
  destruct (st_folders st' !! x) as [n'|]; naive_solver.
Qed.

Lemma same_links_chain st st' id k : same_links st st' -> chain st id k -> chain st' id k.
Proof.
  intros H. induction 1 as [id n Hn Hl|id n p k Hn Hl _ IH];
    destruct (same_links_lookup _ _ _ _ H Hn) as (n' & Hn' & Hp);
    rewrite (same_links_lock _ _ _ H), <- Hp in Hl; [by econstructor|].
  by eapply chain_step.
Qed.

Lemma set_folder_same_links st id n s :
  st_folders st !! id = Some n ->
  same_links st (set_folder id (mkFolderNode (fdn_parent n) s) st).
Proof.
  intros Hn x. cbn. rewrite lookup_insert. case_decide; [subst; by rewrite Hn|done].
Qed.

(** [update] keeps the links, the files, and every node that is not on the
    walk; in particular those whose own walk is longer. *)
Lemma update_fuel_frame fuel : forall id old new st st',
  update_fuel fuel id old new st = Ret st' ->
  same_links st st' /\ st_files st' = st_files st /\ st_next st' = st_next st /\
  exists k, (k < fuel)%nat /\ chain st id k /\
    forall x j, chain st x j -> (k < j)%nat -> st_folders st' !! x = st_folders st !! x.
Proof.
  induction fuel as [|fuel IH]; cbn; intros id old new st st' Hu; [done|].
  destruct (st_folders st !! id) as [n|] eqn:Hn; [|done].
  set (s' := stat_add _ _) in *.
  pose proof (set_folder_same_links st id n s' Hn) as Hsl.
  set (st1 := set_folder _ _ _) in *.
  assert (forall x, x <> id -> st_folders st1 !! x = st_folders st !! x) as Hother.
  { intros x Hx. cbn. by rewrite lookup_insert_ne. }
  destruct (lock st1 (fdn_parent n)) as [p|] eqn:Hl.
  - apply IH in Hu as (Hsl' & Hf & Hnx & k & Hk & Hch & Hfr).
    split; [by etransitivity|]. do 2 (split; [done|]).
    rewrite <- (same_links_lock _ _ _ Hsl) in Hl.
    assert (chain st p k) as Hch' by (by eapply same_links_chain; [symmetry|]).
    exists (S k). split; [lia|]. split; [by eapply chain_step|].
    intros x j Hx Hj. rewrite (Hfr x j); [|by eapply same_links_chain|lia].
    apply Hother. intros ->. pose proof (chain_det _ _ _ _ Hx (chain_step _ _ _ _ _ Hn Hl Hch')). lia.
  - simplify_eq. do 3 (split; [done|]). rewrite <- (same_links_lock _ _ _ Hsl) in Hl.
    exists 0%nat. split; [lia|]. split; [by econstructor|].
    intros x j Hx Hj. apply Hother. intros ->.
    pose proof (chain_det _ _ _ _ Hx (chain_end _ _ _ Hn Hl)). lia.
Qed.

(** A chain is no longer than the store: the fuel of [update] is enough. *)
Lemma chain_nodes st id k :
  chain st id k ->
  exists X : gset nat, size X = S k /\ X ⊆ dom (st_folders st) /\
    forall x, x ∈ X -> exists j, (j <= k)%nat /\ chain st x j.
Proof.
  induction 1 as [id n Hn Hl|id n p k Hn Hl Hp (X & Hs & Hd & Hj)].
  - exists {[id]}. rewrite size_singleton. split; [done|]. split.
    + intros x ->%elem_of_singleton. by apply elem_of_dom_2 in Hn.
    + intros x ->%elem_of_singleton. exists 0%nat. split; [lia|]. by econstructor.
  - exists ({[id]} ∪ X). pose proof (chain_step _ _ _ _ _ Hn Hl Hp) as Hid. split_and!.
    + rewrite size_union, size_singleton, Hs; [lia|].
      intros x ->%elem_of_singleton (j & Hle & Hc)%Hj.
      pose proof (chain_det _ _ _ _ Hid Hc). lia.
    + apply union_subseteq. split; [|done].
      intros x ->%elem_of_singleton. by apply elem_of_dom_2 in Hn.
    + intros x [->%elem_of_singleton|(j & Hle & Hc)%Hj]%elem_of_union; eauto.
Qed.

Lemma chain_bound st id k : chain st id k -> (k < size (st_folders st))%nat.
Proof.
  intros (X & Hs & Hd & _)%chain_nodes. rewrite <- size_dom.
  apply subseteq_size in Hd. lia.
Qed.

Lemma update_fuel_terminates fuel : forall k id old new st,
  chain st id k -> (k < fuel)%nat -> exists st', update_fuel fuel id old new st = Ret st'.
Proof.
  induction fuel as [|fuel IH]; intros k id old new st Hc Hk; [lia|]. cbn.
  inversion Hc as [? n Hn Hl|? n p j Hn Hl Hp]; subst; rewrite Hn;
    set (s' := stat_add _ _);
    pose proof (set_folder_same_links st id n s' Hn) as Hsl;
    rewrite (same_links_lock _ _ _ Hsl) in Hl; rewrite Hl; [eauto|].
  apply (IH j); [|lia]. by eapply same_links_chain.
Qed.

Lemma update_locked_frame w old new st st' :
  update_locked w old new st = Ret st' ->
  same_links st st' /\ st_files st' = st_files st /\ st_next st' = st_next st.
Proof.
  unfold update_locked. destruct (lock st w) as [p|]; intros H; [|by simplify_eq].
  apply update_fuel_frame in H. tauto.
Qed.

(** A node whose locked parent was updated is itself unchanged. *)
Lemma update_locked_child id n old new st st' :
  st_folders st !! id = Some n ->
  update_locked (fdn_parent n) old new st = Ret st' ->
  st_folders st' !! id = Some n.
Proof.
  unfold update_locked. intros Hn Hu. destruct (lock st (fdn_parent n)) as [p|] eqn:Hl;
    [|by simplify_eq].
  apply update_fuel_frame in Hu as (_ & _ & _ & k & _ & Hc & Hfr).
  rewrite <- Hn. apply (Hfr id (S k)); [|lia]. by eapply chain_step.
Qed.

Lemma folder_contrib_owe x n :
  folder_contrib x n = owe (fdn_parent n) (totalBlocks (fdn_statistics n)) x.
Proof. done. Qed.

Lemma file_contrib_owe x n :
  file_contrib x n = owe (fln_parent n) (file_totalBlocks (fln_statistics n)) x.
Proof. done. Qed.

Lemma owe_add w a b x : owe w a x + owe w b x = owe w (a + b) x.
Proof. unfold owe. case_decide; lia. Qed.

Lemma owe_zero w x : owe w 0 x = 0.
Proof. unfold owe. by case_decide. Qed.

(** Giving back the total of a node to its locked parent leaves the parent
    short of exactly that total. *)
Lemma detach_balanced st st1 w T :
  balanced st -> update_locked w T 0 st = Ret st1 ->
  balanced_upto (owe w T) st1.
Proof.
  intros Hb Hu. eapply update_locked_balanced; [exact Hu|].
  revert Hb. apply balanced_upto_ext. intros x _.
  rewrite owe_add. replace (T + (0 - T)) with 0 by lia. by rewrite owe_zero.
Qed.

(** ** Properties of the operations *)

(** The walk of [update] returns exactly when the parent chain ends. *)
Theorem update_total st id old new :
  (exists st', update id old new st = Ret st') <-> (exists k, chain st id k).
Proof.
  split.
  - intros (st' & Hu). apply update_fuel_frame in Hu as (_ & _ & _ & k & _ & Hc & _). eauto.
  - intros (k & Hc). eapply update_fuel_terminates; [exact Hc|]. by eapply chain_bound.
Qed.

Lemma folder_setParent_inv id w st st' :
  folder_setParent id w st = Ret st' ->
  exists n st1, st_folders st !! id = Some n /\
    update_locked (fdn_parent n) (totalBlocks (fdn_statistics n)) 0 st = Ret st1 /\
    st_folders st1 !! id = Some n /\
    update_locked w 0 (totalBlocks (fdn_statistics n))
      (set_folder id (mkFolderNode w (fdn_statistics n)) st1) = Ret st'.
Proof.
  unfold folder_setParent. intros H.
  destruct (st_folders st !! id) as [n|] eqn:Hn; [|done].
  apply bind_ret_inv in H as (st1 & Hu & H).
  pose proof (update_locked_child _ _ _ _ _ _ Hn Hu) as Hn1. rewrite Hn1 in H.
  exists n, st1. done.
Qed.

(** [FolderStatisticsNode::setParent] keeps the accounting: the old parents
    give the node's total back, the new ones receive it; the node's link is the
    given one and no other link changes. *)
Lemma folder_setParent_balanced id w st st' :
  balanced st -> folder_setParent id w st = Ret st' ->
  balanced st' /\
  (exists n, st_folders st' !! id = Some n /\ fdn_parent n = w) /\
  (forall x, x <> id -> fdn_parent <$> (st_folders st' !! x) = fdn_parent <$> (st_folders st !! x)) /\
  st_files st' = st_files st.
Proof.
  intros Hb (n & st1 & Hn & Hu & Hn1 & Hu2)%folder_setParent_inv.
  pose proof (detach_balanced _ _ _ _ Hb Hu) as Hb1.
  destruct (update_locked_frame _ _ _ _ _ Hu) as (Hsl & Hf & _).
  destruct (update_locked_frame _ _ _ _ _ Hu2) as (Hsl2 & Hf2 & _).
  split_and!.
  - eapply update_locked_balanced; [exact Hu2|]. intros x nd Hx.
    rewrite (expected_set_folder _ _ _ _ _ Hn1), !folder_contrib_owe, Z.sub_0_r. cbn in *.
    enough (m_childrenBlocks (fdn_statistics nd) +
            owe (fdn_parent n) (totalBlocks (fdn_statistics n)) x ≡₆₄ expected st1 x) by eq64_lia.
    rewrite lookup_insert in Hx. case_decide; simplify_eq/=; by eapply Hb1.
  - destruct (same_links_lookup _ _ id (mkFolderNode w (fdn_statistics n)) Hsl2)
      as (n' & ? & ?); [apply lookup_insert_eq | by exists n'].
  - intros x Hx. rewrite <- (Hsl2 x), (Hsl x). cbn. by rewrite lookup_insert_ne.
  - by rewrite Hf2.
Qed.

(** The same for [FileStatisticsNode::setParent]. *)
Theorem file_setParent_balanced id w st st' :
  balanced st -> file_setParent id w st = Ret st' ->
  balanced st' /\
  (exists n, st_files st !! id = Some n /\
     st_files st' = <[id := mkFileNode w (fln_statistics n)]> (st_files st)) /\
  same_links st st'.
Proof.
  unfold file_setParent. intros Hb H.
  destruct (st_files st !! id) as [n|] eqn:Hn; [|done].
  apply bind_ret_inv in H as (st1 & Hu & Hu2).
  pose proof (detach_balanced _ _ _ _ Hb Hu) as Hb1.
  destruct (update_locked_frame _ _ _ _ _ Hu) as (Hsl & Hf & _).
  destruct (update_locked_frame _ _ _ _ _ Hu2) as (Hsl2 & Hf2 & _).
  assert (st_files st1 !! id = Some n) as Hn1 by (by rewrite Hf).
  split_and!.
  - eapply update_locked_balanced; [exact Hu2|]. intros x nd Hx.
    rewrite (expected_set_file _ _ _ _ _ Hn1), !file_contrib_owe. cbn in *.
    rewrite Z.sub_0_r. specialize (Hb1 x nd Hx). eq64_lia.
  - exists n. split; [done|]. rewrite Hf2. cbn. by rewrite Hf.
  - etransitivity; [exact Hsl|]. etransitivity; [|exact Hsl2]. by intros x.
Qed.

(** Adding or removing a block at a folder or at a file. *)
Lemma folder_changeBlocks_keeps d id st st' :
  balanced st -> folder_changeBlocks d id st = Ret st' -> balanced st'.
Proof.
  unfold folder_changeBlocks. intros Hb H.
  destruct (st_folders st !! id) as [n|] eqn:Hn; [|done].
  eapply update_locked_balanced; [exact H|]. intros x nd Hx.
  rewrite (expected_set_folder _ _ _ _ _ Hn), !folder_contrib_owe.
  cbn [fdn_parent fdn_statistics].
  enough (m_childrenBlocks (fdn_statistics nd) ≡₆₄ expected st x) as Hx'.
  { revert Hx'. unfold owe. case_decide; eq64_lia. }
  cbn in Hx. rewrite lookup_insert in Hx. case_decide; simplify_eq/=.
  - specialize (Hb _ _ Hn). by rewrite Z.add_0_r in Hb.
  - specialize (Hb _ _ Hx). by rewrite Z.add_0_r in Hb.
Qed.

Lemma file_changeBlocks_keeps d id st st' :
  balanced st -> file_changeBlocks d id st = Ret st' -> balanced st'.
Proof.
  unfold file_changeBlocks. intros Hb H.
  destruct (st_files st !! id) as [n|] eqn:Hn; [|done].
  eapply update_locked_balanced; [exact H|]. intros x nd Hx.
  rewrite (expected_set_file _ _ _ _ _ Hn), !file_contrib_owe.
  cbn [fln_parent fln_statistics] in *. specialize (Hb _ _ Hx).
  revert Hb. unfold owe. case_decide; eq64_lia.
Qed.

(** [addBlock] and [removeBlock], at a file or a folder, keep the
    accounting of every folder above. *)
Lemma blocks_balanced id st st' :
  balanced st ->
  file_addBlock id st = Ret st' \/ file_removeBlock id st = Ret st' \/
  folder_addBlock id st = Ret st' \/ folder_removeBlock id st = Ret st' ->
  balanced st'.
Proof.
  intros Hb [H|[H|[H|H]]];
    eauto using file_changeBlocks_keeps, folder_changeBlocks_keeps.
Qed.

(** ** Witnesses *)

#[export] Instance balanced_dec st : Decision (balanced st).
Proof.
  refine (cast_if (decide (map_Forall
    (fun n nd => m_childrenBlocks (fdn_statistics nd) + 0 ≡₆₄ expected st n) (st_folders st))));
    abstract (unfold balanced, balanced_upto, map_Forall in *; naive_solver).
Defined.

(** Two folders, [1] inside [0], and a file [2] inside [1] with three blocks. *)
Definition sampleStore : StatStore :=
  mkStatStore
    (<[0%nat := mkFolderNode None (mkFolderStatistics 1 5)]>
      {[1%nat := mkFolderNode (Some 0%nat) (mkFolderStatistics 2 3)]})
    {[2%nat := mkFileNode (Some 1%nat) (mkFileStatistics 3)]} 3%nat [].

Lemma update_total_witness :
  (exists st', update 1 3 4 sampleStore = Ret st') /\ (exists k, chain sampleStore 1 k).
Proof.
  assert (exists k, chain sampleStore 1 k) as H.
  { exists 1%nat. eapply chain_step; [vm_compute; reflexivity | vm_compute; reflexivity |].
    eapply chain_end; [vm_compute; reflexivity | vm_compute; reflexivity]. }
  split; [apply (proj2 (update_total sampleStore 1 3 4)); exact H | exact H].
Defined.

Lemma folder_setParent_balanced_witness :
  exists st', folder_setParent 1 None sampleStore = Ret st' /\ balanced st'.
Proof.
  eexists. split; [vm_compute; reflexivity|].
  refine (proj1 (folder_setParent_balanced 1 None sampleStore _ _ ltac:(vm_compute; reflexivity))).
  apply (bool_decide_unpack (balanced sampleStore)). vm_compute. exact I.
Defined.

Lemma file_setParent_balanced_witness :
  exists st', file_setParent 2 (Some 0%nat) sampleStore = Ret st' /\ balanced st'.
Proof.
  eexists. split; [vm_compute; reflexivity|].
  refine (proj1 (file_setParent_balanced 2 (Some 0%nat) sampleStore _ _ ltac:(vm_compute; reflexivity))).
  apply (bool_decide_unpack (balanced sampleStore)). vm_compute. exact I.
Defined.

Lemma blocks_balanced_witness :
  exists st', file_addBlock 2 sampleStore = Ret st' /\ balanced st'.
Proof.
  eexists. split; [vm_compute; reflexivity|].
  apply (blocks_balanced 2 sampleStore); [|left; vm_compute; reflexivity].
  apply (bool_decide_unpack (balanced sampleStore)). vm_compute. exact I.
Defined.
