(* ===== verification/FsTree.v ===== *)
(** * The drive file tree ([include/drive/FsTree.h], [src/drive/FsTree.cpp])

    A [Folder] holds an ordered map of children, each a [Folder] or a [File]
    (the [std::variant]).  A [Folder*] of the code is the position of the
    folder in the tree, a list of names; a mutation through such a pointer is
    [update_at].  Operations thread the tree and the store of statistics nodes
    and stop with a [Fault] where the code would abort, throw, or use freed
    memory. *)

From S2P Require Import Prelude OrderedMap FsPath FsStatistics.

(** ** Data *)

Record File := mkFile {
  file_name : string;
  file_hash : Z;
  file_size : Z;
  file_modificationIndex : Z;
  file_isModifiable : bool;
  file_node : option nat }.

(** [Folder]; [None] for the node is the null pointer of a moved-from folder. *)
Inductive Folder :=
  | MkFolder (m_name : string) (m_childs : list (string * (Folder + File)))
      (m_isaStream : bool) (m_streamId : Z) (m_modificationIndex : Z)
      (m_statisticsNode : option nat).

(** [using Child = std::variant<Folder, File>]. *)
Definition Child : Type := (Folder + File)%type.

Definition folder_name (fd : Folder) : string :=
  match fd with MkFolder n _ _ _ _ _ => n end.
Definition childs (fd : Folder) : list (string * Child) :=
  match fd with MkFolder _ cs _ _ _ _ => cs end.
Definition isaStream (fd : Folder) : bool :=
  match fd with MkFolder _ _ b _ _ _ => b end.
Definition streamId (fd : Folder) : Z :=
  match fd with MkFolder _ _ _ i _ _ => i end.
Definition folder_node (fd : Folder) : option nat :=
  match fd with MkFolder _ _ _ _ _ s => s end.

Definition set_childs (cs : list (string * Child)) (fd : Folder) : Folder :=
  match fd with MkFolder n _ b i m s => MkFolder n cs b i m s end.
Definition set_folder_name (n : string) (fd : Folder) : Folder :=
  match fd with MkFolder _ cs b i m s => MkFolder n cs b i m s end.
Definition set_folder_node (s : option nat) (fd : Folder) : Folder :=
  match fd with MkFolder n cs b i m _ => MkFolder n cs b i m s end.
Definition set_file_name (n : string) (f : File) : File :=
  mkFile n (file_hash f) (file_size f) (file_modificationIndex f) (file_isModifiable f) (file_node f).
Definition set_file_node (s : option nat) (f : File) : File :=
  mkFile (file_name f) (file_hash f) (file_size f) (file_modificationIndex f) (file_isModifiable f) s.

(** [Folder{name}] and the [File] constructors; the node is freshly made. *)
Definition newFolder (name : string) (node : nat) : Folder :=
  MkFolder name [] false 0 (-1) (Some node).
Definition newFile (name : string) (hash size : Z) (modifiable : bool) (node : nat) : File :=
  mkFile name hash size (-1) modifiable (Some node).

Definition isFolder (c : Child) : bool := match c with inl _ => true | inr _ => false end.
Definition isFile (c : Child) : bool := match c with inl _ => false | inr _ => true end.
Definition child_name (c : Child) : string :=
  match c with inl fd => folder_name fd | inr f => file_name f end.
Definition set_child_name (n : string) (c : Child) : Child :=
  match c with inl fd => inl (set_folder_name n fd) | inr f => inr (set_file_name n f) end.

(** [operator<( const Child&, const Child& )]: folders first, then by name. *)
Definition child_lt (a b : Child) : bool :=
  match a with
  | inl fa => if negb (isFolder b) then true
              else bool_decide (string_lt (folder_name fa) (child_name b))
  | inr fa => if isFolder b then false
              else bool_decide (string_lt (file_name fa) (child_name b))
  end.

(** ** Traversals *)

(** [Folder::iterate]: the callback may stop the walk by returning [true]. *)
Fixpoint iterate {S : Type} (func : File -> S -> bool * S) (fd : Folder) (s : S) : bool * S :=
  match fd with
  | MkFolder _ cs _ _ _ _ =>
      (fix go (cs : list (string * Child)) (s : S) : bool * S :=
         match cs with
         | [] => (false, s)
         | (_, c) :: cs' =>
             let '(stop, s') :=
               match c with inl sub => iterate func sub s | inr f => func f s end in
             if stop then (true, s') else go cs' s'
         end) cs s
  end.

(** [Folder::mapFiles]: the callback may change each file in place. *)
Fixpoint mapFiles {S : Type} (func : File -> S -> File * S) (fd : Folder) (s : S) : Folder * S :=
  match fd with
  | MkFolder n cs b i m st =>
      let '(cs', s') :=
        (fix go (cs : list (string * Child)) (s : S) : list (string * Child) * S :=
           match cs with
           | [] => ([], s)
           | (k, c) :: cs' =>
               let '(c', s1) :=
                 match c with
                 | inl sub => let '(sub', s1) := mapFiles func sub s in (inl sub', s1)
                 | inr f => let '(f', s1) := func f s in (inr f', s1)
                 end in
               let '(cs'', s2) := go cs' s1 in ((k, c') :: cs'', s2)
           end) cs s in
      (MkFolder n cs' b i m st, s')
  end.

(** [Folder::iterateAllFolders]. *)
Fixpoint iterateAllFolders {S : Type} (func : Folder -> S -> S) (fd : Folder) (s : S) : S :=
  match fd with
  | MkFolder _ cs _ _ _ _ =>
      (fix go (cs : list (string * Child)) (s : S) : S :=
         match cs with
         | [] => s
         | (_, inl sub) :: cs' => go cs' (iterateAllFolders func sub (func sub s))
         | (_, inr _) :: cs' => go cs' s
         end) cs s
  end.

(** [Folder::findStreamFolder]: the recursive call's result is not used. *)
Definition findStreamFolder (id : Z) (fd : Folder) : option Folder :=
  (fix go (cs : list (string * Child)) : option Folder :=
     match cs with
     | [] => None
     | (_, inl sub) :: cs' => if isaStream sub && (streamId sub =? id) then Some sub else go cs'
     | (_, inr _) :: cs' => go cs'
     end) (childs fd).

(** [Folder::getUniqueFiles]. *)
Fixpoint getUniqueFiles (fd : Folder) (files : gset Z) : gset Z :=
  match fd with
  | MkFolder _ cs _ _ _ _ =>
      (fix go (cs : list (string * Child)) (files : gset Z) : gset Z :=
         match cs with
         | [] => files
         | (_, inl sub) :: cs' => go cs' (getUniqueFiles sub files)
         | (_, inr f) :: cs' => go cs' ({[file_hash f]} ∪ files)
         end) cs files
  end.

(** The sizes on disk: [None] when [fs::file_size] throws. *)
Section Sizes.
  Context (driveFileSize torrentFileSize : Z -> option Z).

Definition size_of (size : Z -> option Z) (hash : Z) : Outcome Z :=
  match size hash with Some n => Ret n | None => Stop ThrownException end.

(** [Folder::getSizes]: accumulates (meta files size, files size). *)
Fixpoint getSizes (fd : Folder) (acc : Z * Z) : Outcome (Z * Z) :=
  match fd with
  | MkFolder _ cs _ _ _ _ =>
      (fix go (cs : list (string * Child)) (acc : Z * Z) : Outcome (Z * Z) :=
         match cs with
         | [] => Ret acc
         | (_, c) :: cs' =>
             acc' ← match c with
                    | inl sub => getSizes sub acc
                    | inr f =>
                        guard_assert (negb (file_isModifiable f))
                          (t ← size_of torrentFileSize (file_hash f);
                           d ← size_of driveFileSize (file_hash f);
                           Ret (u64_add acc.1 t, u64_add acc.2 d))
                    end;
             go cs' acc'
         end) cs acc
  end.

(** [Folder::evaluateSizes]. *)
Fixpoint evaluateSizes (fd : Folder) : Outcome Z :=
  match fd with
  | MkFolder _ cs _ _ _ _ =>
      (fix go (cs : list (string * Child)) (size : Z) : Outcome Z :=
         match cs with
         | [] => Ret size
         | (_, c) :: cs' =>
             size' ← match c with
                     | inl sub => n ← evaluateSizes sub; Ret (u64_add size n)
                     | inr f =>
                         d ← size_of driveFileSize (file_hash f);
                         let size1 := u64_add size d in
                         if negb (file_isModifiable f) then
                           t ← size_of torrentFileSize (file_hash f);
                           Ret (u64_add size1 t)
                         else Ret (u64_add size1 (Z.max (u64_add size1 19 / 20) 1024))
                     end;
             go cs' size'
         end) cs 0
  end.

End Sizes.

(** ** Positions in the tree *)

(** The folder a [Folder*] designates. *)
Fixpoint folder_at (p : path) (fd : Folder) : option Folder :=
  match p with
  | [] => Some fd
  | n :: p' =>
      match omap_find n (childs fd) with
      | Some (inl sub) => folder_at p' sub
      | _ => None
      end
  end.

(** A mutation through a [Folder*]. *)
Fixpoint update_at (p : path) (g : Folder -> Folder) (fd : Folder) : Folder :=
  match p with
  | [] => g fd
  | n :: p' =>
      match omap_find n (childs fd) with
      | Some (inl sub) => set_childs (omap_set n (inl (update_at p' g sub)) (childs fd)) fd
      | _ => fd
      end
  end.

(** ** Statistics nodes of the tree *)

(** The destruction of a child: its own node and those below it. *)
Fixpoint drop_folder (fd : Folder) (st : StatStore) : StatStore :=
  match fd with
  | MkFolder _ cs _ _ _ node =>
      let st1 :=
        (fix go (cs : list (string * Child)) (st : StatStore) : StatStore :=
           match cs with
           | [] => st
           | (_, inl sub) :: cs' => go cs' (drop_folder sub st)
           | (_, inr f) :: cs' =>
               go cs' (match file_node f with Some i => drop_file_node i st | None => st end)
           end) cs st in
      match node with Some i => drop_folder_node i st1 | None => st1 end
  end.

Definition drop_child (c : Child) (st : StatStore) : StatStore :=
  match c with
  | inl fd => drop_folder fd st
  | inr f => match file_node f with Some i => drop_file_node i st | None => st end
  end.

(** [child.statisticsNode()->setParent(parent)]. *)
Definition child_setParent (c : Child) (parent : option nat) (st : StatStore) : Outcome StatStore :=
  match c with
  | inl fd => match folder_node fd with
              | Some i => folder_setParent i parent st
              | None => Stop UndefinedBehaviour
              end
  | inr f => match file_node f with
             | Some i => file_setParent i parent st
             | None => Stop UndefinedBehaviour
             end
  end.

(** [Folder::resetStatistics]: every node below is replaced by a fresh one. *)
Fixpoint resetStatistics (fd : Folder) (st : StatStore) : Folder * StatStore :=
  match fd with
  | MkFolder n cs b i m node =>
      let '(cs', st') :=
        (fix go (cs : list (string * Child)) (st : StatStore) : list (string * Child) * StatStore :=
           match cs with
           | [] => ([], st)
           | (k, inr f) :: cs' =>
               let '(j, st1) := new_file_node st in
               let st2 := match file_node f with Some o => drop_file_node o st1 | None => st1 end in
               let '(cs'', st3) := go cs' st2 in
               ((k, inr (set_file_node (Some j) f)) :: cs'', st3)
           | (k, inl sub) :: cs' =>
               let '(j, st1) := new_folder_node st in
               let st2 := match folder_node sub with Some o => drop_folder_node o st1 | None => st1 end in
               let '(sub', st3) := resetStatistics sub st2 in
               let '(cs'', st4) := go cs' st3 in
               ((k, inl (set_folder_node (Some j) sub')) :: cs'', st4)
           end) cs st in
      (MkFolder n cs' b i m node, st')
  end.

(** The nodes of a tree. *)
Fixpoint nodes_of (fd : Folder) : list nat :=
  match fd with
  | MkFolder _ cs _ _ _ node =>
      option_list node ++
      flat_map (fun kc => match kc.2 with inl sub => nodes_of sub | inr f => option_list (file_node f) end) cs
  end.

(** The copy constructor: the copy is the same tree, with the same nodes, which
    have one owner more. *)
Definition copyTree (fd : Folder) (st : StatStore) : Folder * StatStore :=
  (fd, foldr own st (nodes_of fd)).

(** [Folder::initializeStatistics]: links every node to its folder's node. *)
Fixpoint initializeStatistics (fd : Folder) (st : StatStore) : Outcome StatStore :=
  match fd with
  | MkFolder _ cs _ _ _ node =>
      (fix go (cs : list (string * Child)) (st : StatStore) : Outcome StatStore :=
         match cs with
         | [] => Ret st
         | (_, inr f) :: cs' => st1 ← child_setParent (inr f) node st; go cs' st1
         | (_, inl sub) :: cs' =>
             st1 ← initializeStatistics sub st;
             st2 ← child_setParent (inl sub) node st1;
             go cs' st2
         end) cs st
  end.

(** ** Folder operations *)

(** [Folder::findChild] and [findChildIt]. *)
Definition findChild (name : string) (fd : Folder) : option Child := omap_find name (childs fd).
Definition findChildIt : string -> Folder -> option Child := findChild.

(** [Folder::getSubfolderOrCreate]; the result is the new folder and the name
    of the subfolder the returned reference designates. *)
Definition getSubfolderOrCreate (name : string) (fd : Folder) (st : StatStore)
    : Outcome (Folder * StatStore) :=
  match omap_find name (childs fd) with
  | None =>
      let '(i, st1) := new_folder_node st in
      Ret (set_childs (omap_set name (inl (newFolder name i)) (childs fd)) fd, st1)
  | Some (inr _) => Stop ThrownException
  | Some (inl _) => Ret (fd, st)
  end.

(** What a directory iterator lists; [DDir _ None] cannot be opened. *)
Inductive DiskEntry :=
  | DDir (name : string) (listing : option (list DiskEntry))
  | DFile (name : string)
  | DOther (name : string).

(** The loop of [Folder::initWithFolder] over one directory; [false] also for
    a caught exception.  The folder keeps what was added before the failure. *)
Fixpoint initWithEntry (e : DiskEntry) (fd : Folder) (st : StatStore) : bool * Folder * StatStore :=
  match e with
  | DDir name listing =>
      let '(i, st1) := new_folder_node st in
      match listing with
      | None => (false, fd, drop_folder_node i st1)
      | Some es =>
          let '(ok, sub, st2) :=
            (fix go (es : list DiskEntry) (sub : Folder) (st : StatStore) : bool * Folder * StatStore :=
               match es with
               | [] => (true, sub, st)
               | e :: es' =>
                   let '(ok, sub', st') := initWithEntry e sub st in
                   if ok then go es' sub' st' else (false, sub', st')
               end) es (newFolder name i) st1 in
          if ok then (true, set_childs (omap_set name (inl sub) (childs fd)) fd, st2)
          else (false, fd, drop_folder sub st2)
      end
  | DFile name =>
      if decide (name <> ".DS_Store") then
        let '(i, st1) := new_file_node st in
        (true, set_childs (omap_set name (inr (newFile name 0 0 false i)) (childs fd)) fd, st1)
      else (true, fd, st)
  | DOther _ => (true, fd, st)
  end.

(** [Folder::initWithFolder]. *)
Definition initWithFolder (pathToFolder : string) (listing : option (list DiskEntry))
    (fd : Folder) (st : StatStore) : bool * Folder * StatStore :=
  let st0 := foldl (fun s kc => drop_child kc.2 s) st (childs fd) in
  let fd0 := set_folder_name (filename (path_of_string pathToFolder)) (set_childs [] fd) in
  match listing with
  | None => (false, fd0, st0)
  | Some es =>
      (fix go (es : list DiskEntry) (fd : Folder) (st : StatStore) : bool * Folder * StatStore :=
         match es with
         | [] => (true, fd, st)
         | e :: es' =>
             let '(ok, fd', st') := initWithEntry e fd st in
             if ok then go es' fd' st' else (false, fd', st')
         end) es fd0 st0
  end.

(** ** FsTree operations *)

(** The walk of [FsTree::getFolderPtr]; the flag tells whether it reached the
    last component (otherwise the code returns [nullptr]). *)
Fixpoint walkFolder (p : path) (createIfNotExist : bool) (fd : Folder) (st : StatStore)
    : bool * Folder * StatStore :=
  match p with
  | [] => (true, fd, st)
  | n :: p' =>
      match omap_find n (childs fd) with
      | None =>
          if createIfNotExist then
            let '(i, st1) := new_folder_node st in
            let '(ok, sub, st2) := walkFolder p' createIfNotExist (newFolder n i) st1 in
            (ok, set_childs (omap_emplace n (inl sub) (childs fd)) fd, st2)
          else (false, fd, st)
      | Some (inl sub) =>
          let '(ok, sub', st') := walkFolder p' createIfNotExist sub st in
          (ok, set_childs (omap_set n (inl sub') (childs fd)) fd, st')
      | Some (inr _) => (false, fd, st)
      end
  end.

(** [FsTree::getFolderPtr]: the pointer is the position reached. *)
Definition getFolderPtr (p : path) (createIfNotExist : bool) (t : Folder) (st : StatStore)
    : option path * Folder * StatStore :=
  let '(ok, t', st') := walkFolder p createIfNotExist t st in
  (if ok then Some p else None, t', st').

(** The folder behind a pointer the code has just obtained. *)
Definition deref (p : path) (t : Folder) : Outcome Folder :=
  match folder_at p t with Some fd => Ret fd | None => Stop UndefinedBehaviour end.

(** [FsTree::addFile]. *)
Definition addFile (destPath fname : string) (fileHash size : Z) (t : Folder) (st : StatStore)
    : Outcome (bool * Folder * StatStore) :=
  let '(ptr, t1, st1) := getFolderPtr (path_of_string destPath) true t st in
  match ptr with
  | None => Ret (false, t1, st1)
  | Some dp =>
      destFolder ← deref dp t1;
      let st2 := match findChildIt fname destFolder with
                 | Some old => drop_child old st1
                 | None => st1
                 end in
      let '(i, st3) := new_file_node st2 in
      let put fd := set_childs (omap_emplace fname (inr (newFile fname fileHash size false i))
                                  (omap_erase fname (childs fd))) fd in
      Ret (true, update_at dp put t1, st3)
  end.

(** [FsTree::addModifiableFile]; [temporaryHash] is [randomByteArray()]. *)
Definition addModifiableFile (temporaryHash : Z) (destPath fname : string) (t : Folder)
    (st : StatStore) : Outcome (option Z * Folder * StatStore) :=
  let '(ptr, t1, st1) := getFolderPtr (path_of_string destPath) true t st in
  match ptr with
  | None => Ret (None, t1, st1)
  | Some dp =>
      destFolder ← deref dp t1;
      let st2 := match findChildIt fname destFolder with
                 | Some old => drop_child old st1
                 | None => st1
                 end in
      let '(i, st3) := new_file_node st2 in
      st4 ← file_setParent i (folder_node destFolder) st3;
      let put fd := set_childs (omap_emplace fname (inr (newFile fname temporaryHash 0 true i))
                                  (omap_erase fname (childs fd))) fd in
      Ret (Some temporaryHash, update_at dp put t1, st4)
  end.

(** [FsTree::addFolder], on the parsed path. *)
Definition addFolder_path (folderPath : path) (t : Folder) (st : StatStore)
    : Outcome (bool * Folder * StatStore) :=
  let '(ptr, t1, st1) := getFolderPtr folderPath true t st in
  match ptr with
  | None => Ret (false, t1, st1)
  | Some fp =>
      let '(pptr, t2, st2) := getFolderPtr (parent_path folderPath) false t1 st1 in
      if decide (pptr = Some fp) then Ret (true, t2, st2)
      else
        folder ← deref fp t2;
        match pptr with
        | None => Stop UndefinedBehaviour
        | Some pp =>
            parent ← deref pp t2;
            st3 ← child_setParent (inl folder) (folder_node parent) st2;
            Ret (true, t2, st3)
        end
  end.

Definition addFolder (folderPath : string) : Folder -> StatStore -> Outcome (bool * Folder * StatStore) :=
  addFolder_path (path_of_string folderPath).

(** The info hashes handed to [addInfoHashToFileMapFunc], in call order. *)
Definition reported (c : Child) : list Z :=
  match c with inr f => [file_hash f] | inl _ => [] end.

Record FlatResult := mkFlatResult {
  fr_ok : bool; fr_hashes : list Z; fr_tree : Folder; fr_store : StatStore }.

(** [FsTree::removeFlat]. *)
Definition removeFlat (fullPath : string) (t : Folder) (st : StatStore) : Outcome FlatResult :=
  let p := path_of_string fullPath in
  let fname := filename p in
  let '(ptr, t1, st1) := getFolderPtr (parent_path p) false t st in
  match ptr with
  | None => Ret (mkFlatResult false [] t1 st1)
  | Some pp =>
      parentFolder ← deref pp t1;
      match findChildIt fname parentFolder with
      | None => Ret (mkFlatResult false [] t1 st1)
      | Some c =>
          st2 ← child_setParent c None st1;
          let t2 := update_at pp (fun fd => set_childs (omap_erase fname (childs fd)) fd) t1 in
          Ret (mkFlatResult true (reported c) t2 (drop_child c st2))
      end
  end.

(** The tail of [FsTree::moveFlat]: [sp]/[sname] is the position of [srcIt],
    [dp] the destination folder.  The three cases are the three ways the
    pointers of the code can be related:
    - the destination folder is the source itself or lies inside it: the
      source's children have been moved out into the local [destChild]; the
      subtree ends in a detached cycle, or is erased with its shell;
    - the destination entry is an ancestor of the source: erasing it frees the
      folder [srcParentFolder] points to, which is then used;
    - otherwise the two positions are independent. *)
Definition moveInto (sp : path) (sname : string) (dp : path) (dname : string)
    (hashes : list Z) (t : Folder) (st : StatStore) : Outcome FlatResult :=
  srcParent ← deref sp t;
  destParent ← deref dp t;
  match omap_find sname (childs srcParent) with
  | None => Stop UndefinedBehaviour
  | Some destChild =>
      let eraseSrc := update_at sp (fun fd => set_childs (omap_erase sname (childs fd)) fd) in
      if decide ((sp ++ [sname]) = dp) then
        st1 ← child_setParent destChild None st;
        Ret (mkFlatResult true hashes (eraseSrc t) (drop_child destChild st1))
      else if decide ((sp ++ [sname]) `prefix_of` dp) then
        let old := findChildIt dname destParent in
        let st0 := match old with Some o => drop_child o st | None => st end in
        st1 ← child_setParent destChild (folder_node destParent) st0;
        Ret (mkFlatResult true (hashes ++ from_option reported [] old) (eraseSrc t) st1)
      else if decide ((dp ++ [dname]) `prefix_of` sp) then
        Stop UndefinedBehaviour
      else
        let old := findChildIt dname destParent in
        let st0 := match old with Some o => drop_child o st | None => st end in
        st1 ← child_setParent destChild (folder_node destParent) st0;
        let put fd := set_childs (omap_emplace dname (set_child_name dname destChild)
                                    (omap_erase dname (childs fd))) fd in
        Ret (mkFlatResult true (hashes ++ from_option reported [] old)
               (eraseSrc (update_at dp put t)) st1)
  end.

(** [FsTree::moveFlat]. *)
Definition moveFlat (srcPathAndName destPathAndName : string) (t : Folder) (st : StatStore)
    : Outcome FlatResult :=
  let srcPath := path_of_string srcPathAndName in
  let destPath := path_of_string destPathAndName in
  let '(sptr, t0, st0) := getFolderPtr (parent_path srcPath) false t st in
  match sptr with
  | None => Ret (mkFlatResult false [] t0 st0)
  | Some sp =>
      srcParent ← deref sp t0;
      match findChildIt (filename srcPath) srcParent with
      | None => Ret (mkFlatResult false [] t0 st0)
      | Some c =>
          let hashes := reported c in
          if decide (destPath = srcPath) then Ret (mkFlatResult true hashes t0 st0)
          else
            let '(dptr, t1, st1) := getFolderPtr (parent_path destPath) false t0 st0 in
            match dptr with
            | Some dp => moveInto sp (filename srcPath) dp (filename destPath) hashes t1 st1
            | None =>
                '(ok, t2, st2) ← addFolder_path (parent_path destPath) t1 st1;
                if negb ok then Ret (mkFlatResult false hashes t2 st2)
                else
                  let '(dptr', t3, st3) := getFolderPtr (parent_path destPath) true t2 st2 in
                  match dptr' with
                  | Some dp => moveInto sp (filename srcPath) dp (filename destPath) hashes t3 st3
                  | None => Stop UndefinedBehaviour
                  end
            end
      end
  end.

(** [FsTree::getEntryPtr]. *)
Definition getEntryPtr (pathStr : string) (t : Folder) (st : StatStore)
    : Outcome (option Child * Folder * StatStore) :=
  let p := path_of_string pathStr in
  let '(ptr, t1, st1) :=
    if decide (parent_path p <> []) then getFolderPtr (parent_path p) false t st
    else (Some [], t, st) in
  match ptr with
  | None => Ret (None, t1, st1)
  | Some pp => parentFolder ← deref pp t1; Ret (findChild (filename p) parentFolder, t1, st1)
  end.

(** What [FsTree::iterateBranch] calls: the intermediate calls in order, then
    at most one last call, and the result. *)
Record BranchVisit := mkBranchVisit {
  bv_intermediate : list Folder; bv_last : option Child; bv_result : bool }.

(** The loop over the parent path; it stops at a missing or non-folder part. *)
Fixpoint branchWalk (p : path) (fd : Folder) : list Folder * option Folder :=
  match p with
  | [] => ([], Some fd)
  | n :: p' =>
      match omap_find n (childs fd) with
      | Some (inl sub) => let '(vs, r) := branchWalk p' sub in (sub :: vs, r)
      | _ => ([], None)
      end
  end.

(** [FsTree::iterateBranch]. *)
Definition iterateBranch (fullPath : string) (t : Folder) : BranchVisit :=
  let p := path_of_string fullPath in
  if decide (p = []) then mkBranchVisit [] (Some (inl t)) true
  else
    let '(vs, r) := branchWalk (parent_path p) t in
    match r with
    | None => mkBranchVisit (t :: vs) None false
    | Some parent =>
        match omap_find (filename p) (childs parent) with
        | None => mkBranchVisit (t :: vs) None false
        | Some c => mkBranchVisit (t :: vs) (Some c) true
        end
    end.
