(* ===== verification/FsTreeFacts.v ===== *)
(** * Facts about the file tree

    The abstract view of a tree is the partial map from positions to heads
    (what is at the position: a file with its attributes, or a folder with its
    own attributes).  The properties of the operations of [FsTree] are stated
    as the exact change of that map. *)

From S2P Require Import Prelude OrderedMap FsPath FsStatistics FsTree.

(** ** The view *)

Inductive Head :=
  | HFile (f : File)
  | HFolder (name : string) (isStream : bool) (stream modIndex : Z) (node : option nat).

Definition head (c : Child) : Head :=
  match c with
  | inr f => HFile f
  | inl (MkFolder n _ b i m s) => HFolder n b i m s
  end.

(** The child at a position below [c]. *)
Fixpoint child_at (p : path) (c : Child) : option Child :=
  match p with
  | [] => Some c
  | n :: p' =>
      match c with
      | inl fd => omap_find n (childs fd) ≫= child_at p'
      | inr _ => None
      end
  end.

#[global] Arguments head : simpl nomatch.
#[global] Arguments childs : simpl nomatch.
#[global] Arguments set_childs : simpl nomatch.

Definition view (t : Folder) (p : path) : option Head := head <$> child_at p (inl t).

(** The head of a folder just created. *)
Definition fresh_head (n : string) (i : nat) : Head := HFolder n false 0 (-1) (Some i).

(** ** Well-formedness: ordered children, each filed under its own name. *)
Inductive wf_folder : Folder -> Prop :=
  | wf_folder_intro fd :
      omap_sorted (childs fd) ->
      (forall k c, omap_find k (childs fd) = Some c -> child_name c = k) ->
      (forall k sub, omap_find k (childs fd) = Some (inl sub) -> wf_folder sub) ->
      wf_folder fd.

(** An executable check of well-formedness. *)
Fixpoint keys_sortedb (ks : list string) : bool :=
  match ks with
  | [] => true
  | k :: ks' => forallb (fun k' => bool_decide (string_lt k k')) ks' && keys_sortedb ks'
  end.

Fixpoint wf_folderb (fd : Folder) : bool :=
  match fd with
  | MkFolder _ cs _ _ _ _ =>
      keys_sortedb (map fst cs) &&
      forallb (fun kc => bool_decide (child_name kc.2 = kc.1) &&
                 match kc.2 with inl sub => wf_folderb sub | inr _ => true end) cs
  end.

Lemma keys_sortedb_sound ks : keys_sortedb ks = true -> StronglySorted string_lt ks.
Proof.
  induction ks as [|k ks IH]; cbn; [constructor|]. intros [Hk Hs]%andb_prop.
  constructor; [auto|]. rewrite forallb_forall in Hk. apply Forall_forall.
  intros x Hx%list_elem_of_In. apply Hk in Hx. by apply bool_decide_eq_true in Hx.
Qed.

Lemma wf_folderb_sound fd : wf_folderb fd = true -> wf_folder fd.
Proof.
  revert fd. fix rec 1. intros [n cs b i m s]. cbn [wf_folderb].
  intros [Hs Hc]%andb_prop. constructor; cbn [childs].
  - by apply keys_sortedb_sound.
  - clear Hs. induction cs as [|[k' c'] cs IH]; intros k c; cbn; [discriminate|].
    cbn in Hc. apply andb_prop in Hc as [[Hk _]%andb_prop Hc].
    destruct (decide (k = k')); intros Hf; [|by apply IH].
    injection Hf as <-. subst. by apply bool_decide_eq_true in Hk.
  - clear Hs. induction cs as [|[k' c'] cs IH]; intros k sub; cbn; [discriminate|].
    cbn in Hc. apply andb_prop in Hc as [[_ Hk]%andb_prop Hc].
    destruct (decide (k = k')); intros Hf; [|by eapply IH]. destruct c' as [sub'|]; [|discriminate Hf].
    injection Hf as <-. by apply rec.
Qed.

Lemma childs_set_childs cs fd : childs (set_childs cs fd) = cs.
Proof. by destruct fd. Qed.

Lemma head_set_childs cs fd : head (inl (set_childs cs fd)) = head (inl fd).
Proof. by destruct fd. Qed.

Lemma folder_name_set_childs cs fd : folder_name (set_childs cs fd) = folder_name fd.
Proof. by destruct fd. Qed.

Create HintDb fstree.
#[export] Hint Rewrite childs_set_childs head_set_childs folder_name_set_childs : fstree.

Lemma set_childs_id fd : set_childs (childs fd) fd = fd.
Proof. by destruct fd. Qed.

Lemma child_at_app p q c : child_at (p ++ q) c = child_at p c ≫= child_at q.
Proof.
  revert c. induction p as [|n p IH]; intros c; [done|]. cbn.
  destruct c as [fd|f]; [|done]. by destruct (omap_find n (childs fd)) as [c|]; cbn.
Qed.

Lemma folder_at_child p fd f : folder_at p fd = Some f <-> child_at p (inl fd) = Some (inl f).
Proof.
  revert fd. induction p as [|n p IH]; intros fd; cbn; [naive_solver|].
  destruct (omap_find n (childs fd)) as [[sub|g]|]; cbn; [apply IH | | done].
  destruct p; naive_solver.
Qed.

Lemma view_app t p q f : folder_at p t = Some f -> view t (p ++ q) = view f q.
Proof. unfold view. rewrite folder_at_child, child_at_app. by intros ->. Qed.

(** ** Mutation at a position *)

Lemma folder_at_update p g fd f :
  folder_at p fd = Some f -> folder_at p (update_at p g fd) = Some (g f).
Proof.
  revert fd. induction p as [|n p IH]; intros fd; cbn; [naive_solver|].
  destruct (omap_find n (childs fd)) as [[sub|?]|]; try done. intros H. cbn.
  autorewrite with fstree omap. by apply IH.
Qed.

Lemma view_update_out p g fd q :
  ~ p `prefix_of` q -> view (update_at p g fd) q = view fd q.
Proof.
  unfold view. revert fd q. induction p as [|n p IH]; intros fd q Hq; cbn.
  { destruct Hq. apply prefix_nil. }
  destruct (omap_find n (childs fd)) as [[sub|?]|] eqn:Hn; try done.
  destruct q as [|m q]; cbn; autorewrite with fstree; [done|].
  destruct (decide (m = n)) as [->|Hmn].
  - rewrite omap_find_set_eq, Hn. cbn. apply IH. intros Hp. by apply Hq, prefix_cons.
  - by rewrite omap_find_set_ne.
Qed.

Lemma view_update_in p g fd f q :
  folder_at p fd = Some f -> view (update_at p g fd) (p ++ q) = view (g f) q.
Proof. intros H. by apply view_app, folder_at_update. Qed.

(** An edit of the entry [k] of the folder at [p] changes the view at and
    below [p ++ [k]] only. *)
Lemma view_edit p k F t f :
  folder_at p t = Some f ->
  (forall j, j <> k -> omap_find j (F (childs f)) = omap_find j (childs f)) ->
  let t' := update_at p (fun fd => set_childs (F (childs fd)) fd) t in
  (forall r, view t' (p ++ k :: r) =
             omap_find k (F (childs f)) ≫= fun c => head <$> child_at r c) /\
  (forall q, ~ (p ++ [k]) `prefix_of` q -> view t' q = view t q).
Proof.
  intros Hp HF t'. split.
  - intros r. unfold t'. rewrite (view_update_in _ _ _ _ _ Hp).
    unfold view; cbn. autorewrite with fstree. by destruct (omap_find k (F (childs f))).
  - intros q Hq. destruct (decide (p `prefix_of` q)) as [[r ->]|Hn];
      [|by apply view_update_out].
    unfold t'. rewrite (view_update_in _ _ _ _ _ Hp), (view_app _ _ _ _ Hp).
    unfold view. destruct r as [|j r]; cbn; autorewrite with fstree; [done|].
    rewrite HF; [done|]. intros ->. apply Hq. exists r. by rewrite <- app_assoc.
Qed.

Lemma wf_update p g fd f :
  wf_folder fd -> folder_at p fd = Some f ->
  (wf_folder f -> wf_folder (g f)) -> folder_name (g f) = folder_name f ->
  wf_folder (update_at p g fd) /\ folder_name (update_at p g fd) = folder_name fd.
Proof.
  intros Hwf Hp Hg Hname. revert fd Hwf Hp. induction p as [|n p IH]; intros fd Hwf Hp.
  { cbn in *. injection Hp as <-. auto. }
  cbn in *. destruct (omap_find n (childs fd)) as [[sub|?]|] eqn:Hn; try discriminate Hp.
  inversion Hwf as [? Hs Hnames Hsub]; subst.
  destruct (IH sub (Hsub _ _ Hn) Hp) as [Hwf' Hname'].
  split; [|by autorewrite with fstree]. constructor; autorewrite with fstree.
  - by apply omap_sorted_set.
  - intros k c. destruct (decide (k = n)) as [->|].
    + rewrite omap_find_set_eq. intros [= <-]. cbn. rewrite Hname'. exact (Hnames n (inl sub) Hn).
    + rewrite omap_find_set_ne by done. apply Hnames.
  - intros k s. destruct (decide (k = n)) as [->|].
    + rewrite omap_find_set_eq. by intros [= <-].
    + rewrite omap_find_set_ne by done. apply Hsub.
Qed.

Lemma wf_folder_at p fd f : wf_folder fd -> folder_at p fd = Some f -> wf_folder f.
Proof.
  revert fd. induction p as [|n p IH]; intros fd Hwf; cbn; [by intros [= <-]|].
  destruct (omap_find n (childs fd)) as [[sub|?]|] eqn:Hn; try discriminate.
  apply IH. inversion Hwf; eauto.
Qed.

Lemma wf_erase k fd : wf_folder fd -> wf_folder (set_childs (omap_erase k (childs fd)) fd).
Proof.
  inversion 1 as [? Hs Hn Hsub]; subst. constructor; autorewrite with fstree.
  - by apply omap_sorted_erase.
  - intros j c. destruct (decide (j = k)) as [->|].
    + by rewrite omap_find_erase_eq.
    + rewrite omap_find_erase_ne by done. apply Hn.
  - intros j s. destruct (decide (j = k)) as [->|].
    + by rewrite omap_find_erase_eq.
    + rewrite omap_find_erase_ne by done. apply Hsub.
Qed.

Lemma wf_replace k c fd :
  wf_folder fd -> child_name c = k -> (forall sub, c = inl sub -> wf_folder sub) ->
  wf_folder (set_childs (omap_emplace k c (omap_erase k (childs fd))) fd).
Proof.
  inversion 1 as [? Hs Hn Hsub]; subst. intros Hc Hcs. constructor; autorewrite with fstree.
  - auto with omap.
  - intros j c'. destruct (decide (j = k)) as [->|].
    + rewrite omap_find_replace_eq. by intros [= <-].
    + rewrite omap_find_replace_ne by done. apply Hn.
  - intros j s. destruct (decide (j = k)) as [->|].
    + rewrite omap_find_replace_eq. intros [= ->]. by apply Hcs.
    + rewrite omap_find_replace_ne by done. apply Hsub.
Qed.

Lemma wf_newFolder n i : wf_folder (newFolder n i).
Proof. constructor; cbn; [constructor | done | done]. Qed.

#[export] Hint Resolve wf_erase wf_replace wf_newFolder wf_folder_at : fstree.

(** ** [getFolderPtr] *)

(** Without creation the walk is a lookup and changes nothing. *)
Lemma walkFolder_find p : forall fd st,
  wf_folder fd -> walkFolder p false fd st = (bool_decide (is_Some (folder_at p fd)), fd, st).
Proof.
  induction p as [|n p IH]; intros fd st Hwf; cbn [walkFolder folder_at].
  { by rewrite bool_decide_true. }
  inversion Hwf as [? Hs Hn Hsub]; subst.
  destruct (omap_find n (childs fd)) as [[sub|?]|] eqn:Hf;
    [| by rewrite bool_decide_false by (by intros [? ?]) ..].
  rewrite (IH sub) by eauto. by rewrite omap_set_id, set_childs_id.
Qed.

(** What creating the missing folders of [p] does to the view. *)
Definition created_along (p : path) (t t' : Folder) : Prop :=
  forall q,
    match view t q with
    | Some h => view t' q = Some h
    | None =>
        if decide (q `prefix_of` p)
        then exists n i, last q = Some n /\ view t' q = Some (fresh_head n i)
        else view t' q = None
    end.

Lemma view_cons_find n q fd c :
  omap_find n (childs fd) = Some c -> view fd (n :: q) = head <$> child_at q c.
Proof. unfold view. cbn. by intros ->. Qed.

Lemma view_cons_none n q fd : omap_find n (childs fd) = None -> view fd (n :: q) = None.
Proof. unfold view. cbn. by intros ->. Qed.

(** Storing under [n] a folder grown from [sub] grows the parent. *)
Lemma created_along_cons n p fd sub sub' :
  omap_find n (childs fd) = Some (inl sub) -> created_along p sub sub' ->
  created_along (n :: p) fd (set_childs (omap_set n (inl sub') (childs fd)) fd).
Proof.
  intros Hn Hc [|m q].
  { unfold view; cbn. by rewrite head_set_childs. }
  destruct (decide (m = n)) as [->|Hm].
  - specialize (Hc q). unfold view in *. cbn [child_at]. rewrite childs_set_childs.
    rewrite omap_find_set_eq, Hn. cbn.
    destruct (head <$> child_at q (inl sub)) as [h|] eqn:Hv; [done|].
    destruct q as [|x q]; [done|].
    repeat case_decide; try done; exfalso; eauto using prefix_cons, prefix_cons_inv_2.
  - unfold view. cbn [child_at]. rewrite childs_set_childs, omap_find_set_ne by done.
    destruct (omap_find m (childs fd)) as [c|]; cbn.
    + destruct (child_at q c) eqn:Hv; cbn; [done|].
      case_decide as Hp; [|done]. by apply prefix_cons_inv_1 in Hp.
    + case_decide as Hp; [|done]. by apply prefix_cons_inv_1 in Hp.
Qed.

Lemma created_along_new n i p fd sub' :
  omap_find n (childs fd) = None -> created_along p (newFolder n i) sub' ->
  created_along (n :: p) fd (set_childs (omap_set n (inl sub') (childs fd)) fd).
Proof.
  intros Hn Hc [|m q].
  { unfold view; cbn. by rewrite head_set_childs. }
  unfold view. cbn [child_at]. rewrite childs_set_childs.
  destruct (decide (m = n)) as [->|Hm].
  - rewrite omap_find_set_eq, Hn. cbn. specialize (Hc q). unfold view in Hc.
    destruct q as [|x q]; cbn in Hc |- *.
    + rewrite decide_True by (apply prefix_cons, prefix_nil). by exists n, i.
    + repeat case_decide; try done; exfalso; eauto using prefix_cons, prefix_cons_inv_2.
  - rewrite omap_find_set_ne by done.
    destruct (omap_find m (childs fd)) as [c|]; cbn.
    + destruct (child_at q c) eqn:Hv; cbn; [done|].
      case_decide as Hp; [|done]. by apply prefix_cons_inv_1 in Hp.
    + case_decide as Hp; [|done]. by apply prefix_cons_inv_1 in Hp.
Qed.

Lemma created_along_refl t : created_along [] t t.
Proof.
  intros q. destruct (view t q) eqn:Hv; [done|]. case_decide as Hp; [|done].
  destruct q; [done|]. by apply prefix_nil_inv in Hp.
Qed.

(** A file in the way: some prefix of [p] is a file. *)
Definition blocked (p : path) (t : Folder) : Prop :=
  exists q f, q `prefix_of` p /\ view t q = Some (HFile f).

Lemma blocked_cons n p fd sub :
  omap_find n (childs fd) = Some (inl sub) -> blocked p sub -> blocked (n :: p) fd.
Proof.
  intros Hn (q & f & Hq & Hv). exists (n :: q), f. split; [by apply prefix_cons|].
  by rewrite (view_cons_find _ _ _ _ Hn).
Qed.

Lemma wf_set_folder n sub fd :
  wf_folder fd -> wf_folder sub -> folder_name sub = n ->
  wf_folder (set_childs (omap_set n (inl sub) (childs fd)) fd).
Proof.
  intros Hwf Hsub Hname. inversion Hwf as [? Hs Hn Hss]; subst.
  constructor; autorewrite with fstree.
  - by apply omap_sorted_set.
  - intros k c. destruct (decide (k = folder_name sub)) as [->|].
    + rewrite omap_find_set_eq. by intros [= <-].
    + rewrite omap_find_set_ne by congruence. apply Hn.
  - intros k s. destruct (decide (k = folder_name sub)) as [->|].
    + rewrite omap_find_set_eq. by intros [= <-].
    + rewrite omap_find_set_ne by congruence. apply Hss.
Qed.

(** In an empty folder nothing can block the creation. *)
Lemma walkFolder_empty p : forall fd st,
  childs fd = [] -> (walkFolder p true fd st).1.1 = true.
Proof.
  induction p as [|n p IH]; intros fd st Hc; [done|]. cbn. rewrite Hc. cbn.
  specialize (IH (newFolder n (st_next st)) (new_folder_node st).2 eq_refl).
  cbn in IH. by destruct (walkFolder p true _ _) as [[? ?] ?].
Qed.

(** With creation: on success the folder exists and exactly the missing
    prefixes of the path were added; on failure nothing changed. *)
Lemma walkFolder_create p : forall fd st ok fd' st',
  wf_folder fd -> walkFolder p true fd st = (ok, fd', st') ->
  wf_folder fd' /\ folder_name fd' = folder_name fd /\
  if ok then is_Some (folder_at p fd') /\ created_along p fd fd'
  else fd' = fd /\ st' = st /\ blocked p fd.
Proof.
  induction p as [|n p IH]; intros fd st ok fd' st' Hwf; cbn [walkFolder folder_at].
  { intros [= <- <- <-]. split_and!; eauto using created_along_refl. }
  inversion Hwf as [? Hs Hn Hsub]; subst.
  destruct (omap_find n (childs fd)) as [[sub|f]|] eqn:Hf.
  - destruct (walkFolder p true sub st) as [[ok1 sub'] st1] eqn:Hw. intros [= <- <- <-].
    apply IH in Hw as (Hwf' & Hname & Hok); [|by eapply Hsub].
    assert (folder_name sub' = n) as Hn' by (rewrite Hname; exact (Hn _ _ Hf)).
    split; [by apply wf_set_folder|]. split; [by autorewrite with fstree|].
    autorewrite with fstree. rewrite omap_find_set_eq. destruct ok1.
    + destruct Hok. eauto using created_along_cons.
    + destruct Hok as (-> & -> & ?). rewrite omap_set_id, set_childs_id by done.
      eauto using blocked_cons.
  - intros [= <- <- <-]. split_and!; try done. exists [n], f.
    split; [apply prefix_cons, prefix_nil|]. by rewrite (view_cons_find _ _ _ _ Hf).
  - destruct (walkFolder p true (newFolder n (st_next st)) (new_folder_node st).2)
      as [[ok1 sub'] st1] eqn:Hw. cbn in Hw |- *. rewrite Hw. intros [= <- <- <-].
    pose proof (f_equal (fun r => r.1.1) Hw) as Hw'.
    apply IH in Hw as (Hwf' & Hname & Hok); [|apply wf_newFolder].
    rewrite omap_find_emplace_new by done.
    split; [by apply wf_set_folder|]. split; [by autorewrite with fstree|].
    autorewrite with fstree. rewrite omap_find_set_eq. destruct ok1.
    + destruct Hok. eauto using created_along_new.
    + by rewrite (walkFolder_empty p (newFolder n (st_next st)) _ eq_refl) in Hw'.
Qed.

Lemma blocked_no_folder p t f : folder_at p t = Some f -> ~ blocked p t.
Proof.
  intros Hf%folder_at_child (q & g & [r ->] & Hv). unfold view in Hv.
  rewrite child_at_app in Hf. destruct (child_at q (inl t)) as [[[]|h]|]; [discriminate| |discriminate].
  by destruct r.
Qed.

Lemma created_along_blocked p t t' f :
  created_along p t t' -> folder_at p t' = Some f -> ~ blocked p t.
Proof.
  intros Hc Hf (q & g & Hq & Hv). apply (blocked_no_folder _ _ _ Hf).
  exists q, g. split; [done|]. specialize (Hc q). by rewrite Hv in Hc.
Qed.

Lemma getFolderPtr_find p t st :
  wf_folder t ->
  getFolderPtr p false t st =
  (if decide (is_Some (folder_at p t)) then Some p else None, t, st).
Proof.
  intros Hwf. unfold getFolderPtr. rewrite walkFolder_find by done.
  case_bool_decide; case_decide; done.
Qed.

Lemma getFolderPtr_create p t st ptr t' st' :
  wf_folder t -> getFolderPtr p true t st = (ptr, t', st') ->
  wf_folder t' /\
  match ptr with
  | Some q => q = p /\ (exists f, folder_at p t' = Some f) /\ created_along p t t' /\ ~ blocked p t
  | None => t' = t /\ st' = st /\ blocked p t
  end.
Proof.
  unfold getFolderPtr. intros Hwf.
  destruct (walkFolder p true t st) as [[ok t1] st1] eqn:Hw. intros [= <- <- <-].
  apply walkFolder_create in Hw as (Hwf' & _ & Hok); [|done]. split; [done|].
  destruct ok; [|done]. destruct Hok as [[f Hf] Hc].
  split_and!; eauto using created_along_blocked.
Qed.

(** Creating along an existing path changes nothing. *)
Lemma walkFolder_existing p : forall t st f,
  wf_folder t -> folder_at p t = Some f -> walkFolder p true t st = (true, t, st).
Proof.
  induction p as [|n p IH]; intros t st f Hwf; cbn; [done|].
  inversion Hwf as [? Hs Hn Hsub]; subst.
  destruct (omap_find n (childs t)) as [[sub|?]|] eqn:Hf; intros H; try discriminate.
  rewrite (IH sub st f) by eauto. by rewrite omap_set_id, set_childs_id.
Qed.

Lemma getFolderPtr_existing p t st f :
  wf_folder t -> folder_at p t = Some f -> getFolderPtr p true t st = (Some p, t, st).
Proof. intros Hwf Hf. unfold getFolderPtr. by rewrite (walkFolder_existing _ _ _ _ Hwf Hf). Qed.

Lemma folder_at_view p t f :
  folder_at p t = Some f -> view t p = Some (head (inl f)).
Proof. intros H. unfold view. apply folder_at_child in H. by rewrite H. Qed.

(** The position of the entry a path names. *)
Definition entry_path (p : path) : path := parent_path p ++ [filename p].

Lemma entry_path_inj s1 s2 :
  entry_path (path_of_string s1) = entry_path (path_of_string s2) ->
  path_of_string s1 = path_of_string s2.
Proof.
  assert (forall p, path_wf p -> path_is_rootlike p = false -> entry_path p = p) as Hp.
  { intros p _ Hr. unfold entry_path, parent_path, filename. rewrite Hr.
    destruct p as [|x p] using rev_ind; [done|].
    by rewrite removelast_last, last_snoc. }
  assert (forall q, path_wf q -> q <> [""] /\ q <> ["/"; ""]) as Hno.
  { assert (~ rel_wf [""]) as H1.
    { intros [H|(ns & E & Hns & H)]; [apply Forall_inv in H; naive_solver|].
      destruct ns as [|? [|? ?]]; simplify_eq/=. }
    assert (~ rel_wf ["/"; ""]) as H2.
    { intros H%rel_wf_no_slash%Forall_inv. cbn in H. by destruct H. }
    intros q [H|(rel & -> & H)]; split; intros E; simplify_eq; auto. }
  pose proof (path_of_string_wf s1) as H1. pose proof (path_of_string_wf s2) as H2.
  revert H1 H2. generalize (path_of_string s1) (path_of_string s2). intros p q H1 H2.
  destruct (path_is_rootlike p) eqn:E1, (path_is_rootlike q) eqn:E2.
  - unfold path_is_rootlike in *. rewrite bool_decide_eq_true in *.
    destruct E1 as [->| ->], E2 as [->| ->]; vm_compute; congruence.
  - rewrite (Hp q) by done. unfold path_is_rootlike in E1. rewrite bool_decide_eq_true in E1.
    destruct (Hno q H2). destruct E1 as [->| ->]; vm_compute; congruence.
  - rewrite (Hp p) by done. unfold path_is_rootlike in E2. rewrite bool_decide_eq_true in E2.
    destruct (Hno p H1). destruct E2 as [->| ->]; vm_compute; congruence.
  - by rewrite !Hp.
Qed.
