(* ===== verification/FsTreeSpec.v ===== *)
(** * Properties of the file tree

    Each operation is characterised by the exact change it makes to the view
    of the tree (positions to heads), on every branch, together with the
    preservation of well-formedness. *)

From S2P Require Import Prelude OrderedMap FsPath FsStatistics FsTree FsTreeFacts.

Lemma deref_some p t f : folder_at p t = Some f -> deref p t = Ret f.
Proof. unfold deref. by intros ->. Qed.

Lemma deref_inv p t f : deref p t = Ret f -> folder_at p t = Some f.
Proof. unfold deref. destruct (folder_at p t); [by intros [= ->] | done]. Qed.

(** Putting a child under a name at an existing folder. *)
Lemma view_put p k c t f :
  folder_at p t = Some f ->
  let t' := update_at p
    (fun fd => set_childs (omap_emplace k c (omap_erase k (childs fd))) fd) t in
  (forall r, view t' (p ++ k :: r) = head <$> child_at r c) /\
  (forall q, ~ (p ++ [k]) `prefix_of` q -> view t' q = view t q).
Proof.
  intros Hf t'.
  destruct (view_edit p k (fun cs => omap_emplace k c (omap_erase k cs)) t f Hf) as [Hin Hout].
  { intros j Hj. by apply omap_find_replace_ne. }
  split; [|exact Hout]. intros r. unfold t'. rewrite Hin. by rewrite omap_find_replace_eq.
Qed.

(** Erasing a name at an existing folder. *)
Lemma view_del p k t f :
  folder_at p t = Some f ->
  let t' := update_at p (fun fd => set_childs (omap_erase k (childs fd)) fd) t in
  (forall r, view t' (p ++ k :: r) = None) /\
  (forall q, ~ (p ++ [k]) `prefix_of` q -> view t' q = view t q).
Proof.
  intros Hf t'.
  destruct (view_edit p k (omap_erase k) t f Hf) as [Hin Hout].
  { intros j Hj. by apply omap_find_erase_ne. }
  split; [|exact Hout]. intros r. unfold t'. rewrite Hin. by rewrite omap_find_erase_eq.
Qed.

Lemma wf_put p k c t f :
  wf_folder t -> folder_at p t = Some f -> child_name c = k ->
  (forall sub, c = inl sub -> wf_folder sub) ->
  wf_folder (update_at p (fun fd => set_childs (omap_emplace k c (omap_erase k (childs fd))) fd) t).
Proof.
  intros Hwf Hf Hc Hsub. eapply wf_update; [exact Hwf | exact Hf | |].
  - intros. by apply wf_replace.
  - apply folder_name_set_childs.
Qed.

Lemma wf_del p k t f :
  wf_folder t -> folder_at p t = Some f ->
  wf_folder (update_at p (fun fd => set_childs (omap_erase k (childs fd)) fd) t).
Proof.
  intros Hwf Hf. eapply wf_update; [exact Hwf | exact Hf | apply wf_erase |].
  apply folder_name_set_childs.
Qed.

(** [addFile] never faults on a well-formed tree.  It fails, changing
    nothing, exactly when a file stands in the way of the destination folder;
    otherwise it creates exactly the missing folders of the destination, puts
    the new file in place of whatever was at its position, and changes no
    other position. *)
Lemma addFile_spec dest fname hash size t st :
  wf_folder t ->
  exists ok t' st', addFile dest fname hash size t st = Ret (ok, t', st') /\ wf_folder t' /\
  let D := path_of_string dest in
  if ok then
    ~ blocked D t /\
    exists t1 i, created_along D t t1 /\
      view t' (D ++ [fname]) = Some (HFile (newFile fname hash size false i)) /\
      (forall n r, view t' (D ++ fname :: n :: r) = None) /\
      (forall q, ~ (D ++ [fname]) `prefix_of` q -> view t' q = view t1 q)
  else blocked D t /\ t' = t /\ st' = st.
Proof.
  intros Hwf. unfold addFile.
  destruct (getFolderPtr (path_of_string dest) true t st) as [[ptr t1] st1] eqn:Hp.
  apply getFolderPtr_create in Hp as [Hwf1 Hp]; [|done].
  destruct ptr as [dp|].
  - destruct Hp as (-> & [f Hf] & Hc & Hnb). rewrite (deref_some _ _ _ Hf). cbn.
    set (st2 := match findChildIt fname f with Some _ => _ | None => _ end).
    exists true. do 2 eexists. split; [done|]. split.
    + by eapply wf_put.
    + split; [done|]. exists t1, (st_next st2). split; [done|].
      destruct (view_put (path_of_string dest) fname
        (inr (newFile fname hash size false (st_next st2))) t1 f Hf) as [Hin Hout].
      split; [exact (Hin [])|]. split; [|exact Hout]. intros n r. exact (Hin (n :: r)).
  - destruct Hp as (-> & -> & Hb). exists false, t, st. by split_and!.
Qed.

(** [removeFlat] on a well-formed tree: it fails exactly when the entry
    does not exist, leaving the tree alone; otherwise it reports the hash of
    the entry when it is a file, removes the entry with everything below it,
    and leaves every other position as it was. *)
Lemma removeFlat_spec fullPath t st r :
  wf_folder t -> removeFlat fullPath t st = Ret r ->
  let E := entry_path (path_of_string fullPath) in
  wf_folder (fr_tree r) /\
  if fr_ok r then
    (exists c, child_at E (inl t) = Some c /\ fr_hashes r = reported c) /\
    (forall q, view (fr_tree r) (E ++ q) = None) /\
    (forall q, ~ E `prefix_of` q -> view (fr_tree r) q = view t q)
  else child_at E (inl t) = None /\ fr_tree r = t /\ fr_store r = st /\ fr_hashes r = [].
Proof.
  unfold removeFlat, entry_path. intros Hwf H. set (p := path_of_string fullPath) in *.
  rewrite getFolderPtr_find in H by done. case_decide as Hp.
  - destruct Hp as [f Hf]. rewrite (deref_some _ _ _ Hf) in H. cbn in H.
    pose proof Hf as Hfc. apply folder_at_child in Hfc.
    unfold findChildIt, findChild in H.
    rewrite child_at_app, Hfc. cbn.
    destruct (omap_find (filename p) (childs f)) as [c|] eqn:Hc; cbn.
    + apply bind_ret_inv in H as (st2 & _ & [= <-]). cbn.
      destruct (view_del _ (filename p) _ _ Hf) as [Hin Hout].
      split; [by eapply wf_del|]. split; [by exists c|]. split; [|exact Hout].
      intros q. rewrite <- app_assoc. apply Hin.
    + injection H as <-. cbn. by split_and!.
  - injection H as <-. cbn. split; [done|]. split_and!; try done.
    rewrite child_at_app. destruct (child_at (parent_path p) (inl t)) as [[f|g]|] eqn:Hc; [|done..].
    destruct Hp. exists f. by apply folder_at_child.
Qed.

(** ** [moveFlat] *)

Lemma prefix_snoc_cases (l p : path) x :
  l `prefix_of` p ++ [x] -> l = p ++ [x] \/ l `prefix_of` p.
Proof.
  intros [k Hk]. destruct k as [|y k _] using rev_ind.
  - left. by rewrite app_nil_r in Hk.
  - right. rewrite app_assoc in Hk. apply app_inj_tail in Hk as [-> _]. by exists k.
Qed.

Lemma view_folder t p n b i m s :
  view t p = Some (HFolder n b i m s) -> exists f, folder_at p t = Some f.
Proof.
  unfold view. destruct (child_at p (inl t)) as [[f|g]|] eqn:Hc; [|done..].
  intros _. exists f. by apply folder_at_child.
Qed.

Lemma folder_at_same_view t t' p f :
  folder_at p t = Some f -> view t' p = view t p -> exists f', folder_at p t' = Some f'.
Proof.
  intros Hf Hv. rewrite (folder_at_view _ _ _ Hf) in Hv. destruct f. by apply view_folder in Hv.
Qed.

Lemma wf_child fd k c sub : wf_folder fd -> omap_find k (childs fd) = Some c -> c = inl sub -> wf_folder sub.
Proof. intros Hwf Hf ->. inversion Hwf; eauto. Qed.

Lemma wf_set_name n fd : wf_folder fd -> wf_folder (set_folder_name n fd).
Proof. destruct fd. inversion 1; subst. by constructor. Qed.

Lemma child_name_set n c : child_name (set_child_name n c) = n.
Proof. by destruct c as [[]|]. Qed.

(** The view of an entry after its renaming: only the head at its root changes. *)
Lemma rename_below n c q x :
  head <$> child_at (x :: q) (set_child_name n c) = head <$> child_at (x :: q) c.
Proof. by destruct c as [[]|]. Qed.

Definition eraseSrc (sp : path) (sname : string) : Folder -> Folder :=
  update_at sp (fun fd => set_childs (omap_erase sname (childs fd)) fd).

Lemma moveInto_spec sp sname dp dname hashes t st r fs fd c :
  wf_folder t -> folder_at sp t = Some fs -> folder_at dp t = Some fd ->
  omap_find sname (childs fs) = Some c -> sp ++ [sname] <> dp ++ [dname] ->
  moveInto sp sname dp dname hashes t st = Ret r ->
  let S := sp ++ [sname] in let T := dp ++ [dname] in
  wf_folder (fr_tree r) /\ fr_ok r = true /\ ~ T `prefix_of` sp /\
  (forall q, view (fr_tree r) (S ++ q) = None) /\
  if decide (S `prefix_of` dp) then
    forall q, ~ S `prefix_of` q -> view (fr_tree r) q = view t q
  else
    (forall q, view (fr_tree r) (T ++ q) = head <$> child_at q (set_child_name dname c)) /\
    (forall q, ~ S `prefix_of` q -> ~ T `prefix_of` q -> view (fr_tree r) q = view t q).
Proof.
  intros Hwf Hs Hd Hc HST H. cbn zeta.
  unfold moveInto in H. rewrite (deref_some _ _ _ Hs), (deref_some _ _ _ Hd) in H.
  cbn in H. rewrite Hc in H.
  destruct (view_del sp sname t fs Hs) as [Hin Hout].
  assert (forall q, view (eraseSrc sp sname t) ((sp ++ [sname]) ++ q) = None) as HS.
  { intros q. rewrite <- app_assoc. apply Hin. }
  assert ((sp ++ [sname]) `prefix_of` dp -> ~ (dp ++ [dname]) `prefix_of` sp) as Hno.
  { intros [k ->] [k' E]. apply (f_equal length) in E. rewrite !length_app in E. cbn in E. lia. }
  case_decide as E1; [|case_decide as E2; [|case_decide as E3; [done|]]].
  - apply bind_ret_inv in H as (st1 & _ & [= <-]). cbn.
    assert ((sp ++ [sname]) `prefix_of` dp) as HP by (by rewrite E1).
    split; [by eapply wf_del|]. split; [done|]. split; [auto|]. split; [exact HS|].
    rewrite decide_True by done. exact Hout.
  - apply bind_ret_inv in H as (st1 & _ & [= <-]). cbn.
    split; [by eapply wf_del|]. split; [done|]. split; [auto|]. split; [exact HS|]. exact Hout.
  - apply bind_ret_inv in H as (st1 & _ & [= <-]). cbn.
    destruct (view_put dp dname (set_child_name dname c) t fd Hd) as [Pin Pout].
    set (t1 := update_at dp _ t) in *.
    destruct (folder_at_same_view t t1 sp fs Hs) as [fs' Hs']; [by apply Pout|].
    destruct (view_del sp sname t1 fs' Hs') as [Din Dout]. fold (eraseSrc sp sname t1) in *.
    assert (forall q, ~ (sp ++ [sname]) `prefix_of` (dp ++ [dname]) ++ q) as Hinc.
    { intros q Hq. destruct (prefix_weak_total _ _ _ Hq (ex_intro _ q eq_refl)) as [HP|HP];
        apply prefix_snoc_cases in HP as [HP|HP]; congruence. }
    split; [|split; [done|split; [done|split]]].
    + eapply wf_del; [|exact Hs']. eapply wf_put; [done | exact Hd | apply child_name_set|].
      intros sub Hsub. destruct c as [f0|]; [|done]. injection Hsub as <-.
      apply wf_set_name. eapply wf_child; [|exact Hc|done]. by eapply wf_folder_at.
    + intros q. rewrite <- app_assoc. apply Din.
    + split.
      * intros q. rewrite Dout by auto. rewrite <- app_assoc. apply Pin.
      * intros q HS' HT'. rewrite Dout by done. by apply Pout.
Qed.

Definition rename_head (n : string) (h : Head) : Head :=
  match h with
  | HFile f => HFile (set_file_name n f)
  | HFolder _ b i m s => HFolder n b i m s
  end.

Lemma head_set_child_name n c : head (set_child_name n c) = rename_head n (head c).
Proof. by destruct c as [[]|]. Qed.

Lemma addFolder_path_inv p t st ok t' st' :
  wf_folder t -> addFolder_path p t st = Ret (ok, t', st') ->
  wf_folder t' /\
  if ok then (exists f, folder_at p t' = Some f) /\ created_along p t t' /\ ~ blocked p t
  else t' = t /\ st' = st /\ blocked p t.
Proof.
  unfold addFolder_path. intros Hwf H.
  destruct (getFolderPtr p true t st) as [[ptr t1] st1] eqn:Hp.
  apply getFolderPtr_create in Hp as [Hwf1 Hp]; [|done].
  destruct ptr as [q|]; [|by simplify_eq].
  destruct Hp as (-> & Hf & Hc & Hnb). rewrite getFolderPtr_find in H by done.
  case_decide; [by simplify_eq|]. apply bind_ret_inv in H as (f & _ & H).
  case_match; [|done]. apply bind_ret_inv in H as (parent & _ & H).
  apply bind_ret_inv in H as (st3 & _ & H). by simplify_eq.
Qed.

Lemma created_along_refl_at p t f : folder_at p t = Some f -> created_along p t t.
Proof.
  intros Hf q. destruct (view t q) eqn:Hv; [done|]. case_decide as Hq; [|done]. exfalso.
  destruct Hq as [r ->]. apply folder_at_child in Hf. unfold view in Hv.
  rewrite child_at_app in Hf. by destruct (child_at q (inl t)).
Qed.

Lemma child_at_snoc sp sname t fs c :
  folder_at sp t = Some fs ->
  child_at (sp ++ [sname]) (inl t) = Some c <-> omap_find sname (childs fs) = Some c.
Proof.
  intros Hs%folder_at_child. rewrite child_at_app, Hs. cbn.
  destruct (omap_find sname (childs fs)); naive_solver.
Qed.

(** The source survives, with the same head, the creation of other folders. *)
Lemma created_along_child p t t1 S c :
  created_along p t t1 -> child_at S (inl t) = Some c ->
  exists c1, child_at S (inl t1) = Some c1 /\ head c1 = head c.
Proof.
  intros Hc HS. specialize (Hc S). unfold view in Hc. rewrite HS in Hc. cbn in Hc.
  destruct (child_at S (inl t1)) as [c1|]; [|done]. exists c1. by injection Hc.
Qed.

Lemma created_along_outside p t t1 q :
  created_along p t t1 -> ~ q `prefix_of` p -> view t1 q = view t q.
Proof.
  intros Hc Hq. specialize (Hc q). destruct (view t q); [done|]. by rewrite decide_False in Hc.
Qed.

(** The effect of a completed move on the view, given the folders [t1] that
    hold after the destination folder was made to exist. *)
Definition moved (S T DP : path) (dname : string) (t t1 t' : Folder) : Prop :=
  created_along DP t t1 /\
  (forall q, view t' (S ++ q) = None) /\
  if decide (S `prefix_of` DP) then forall q, ~ S `prefix_of` q -> view t' q = view t1 q
  else view t' T = rename_head dname <$> view t S /\
       (forall x q, view t' (T ++ x :: q) = view t (S ++ x :: q)) /\
       (forall q, ~ S `prefix_of` q -> ~ T `prefix_of` q -> view t' q = view t1 q).

Lemma moveInto_moved src dst t t1 st1 r c hashes fd :
  let sp := parent_path src in let DP := parent_path dst in
  entry_path src <> entry_path dst ->
  wf_folder t1 -> created_along DP t t1 -> folder_at DP t1 = Some fd ->
  child_at (entry_path src) (inl t) = Some c ->
  moveInto sp (filename src) DP (filename dst) hashes t1 st1 = Ret r ->
  wf_folder (fr_tree r) /\ fr_ok r = true /\
  moved (entry_path src) (entry_path dst) DP (filename dst) t t1 (fr_tree r).
Proof.
  intros sp DP Hne Hwf1 Hca Hd HS H.
  destruct (created_along_child _ _ _ _ _ Hca HS) as (c1 & HS1 & Hh).
  assert (exists fs, folder_at sp t1 = Some fs) as [fs Hs].
  { unfold entry_path in HS1. rewrite child_at_app in HS1. fold sp in HS1.
    destruct (child_at sp (inl t1)) as [[fs|]|] eqn:E; [|done..].
    exists fs. by apply folder_at_child. }
  assert (omap_find (filename src) (childs fs) = Some c1) as Hc1.
  { by apply (child_at_snoc sp _ t1). }
  destruct (moveInto_spec _ _ _ _ _ _ _ _ _ _ _ Hwf1 Hs Hd Hc1 Hne H) as (? & ? & _ & HSn & Hrest).
  split; [done|]. split; [done|]. split; [done|]. split; [exact HSn|].
  change (sp ++ [filename src]) with (entry_path src) in Hrest.
  change (DP ++ [filename dst]) with (entry_path dst) in Hrest.
  destruct (decide (entry_path src `prefix_of` DP)) as [HP|HP]; [exact Hrest|]. destruct Hrest as [HT Hout].
  split; [|split; [|done]].
  - specialize (HT []). rewrite app_nil_r in HT. rewrite HT. cbn.
    rewrite head_set_child_name, Hh. unfold view. by rewrite HS.
  - intros x q. rewrite HT, rename_below.
    rewrite <- (created_along_outside _ _ _ (entry_path src ++ x :: q) Hca).
    + unfold view. by rewrite child_at_app, HS1.
    + intros Hq. apply HP. etransitivity; [|exact Hq]. by exists (x :: q).
Qed.

(** [moveFlat] on a well-formed tree.  It fails, leaving the tree alone,
    only when the source does not exist or the destination folder cannot be
    created.  Moving a path to itself changes nothing.  Otherwise the missing
    folders of the destination are created and the source position becomes
    empty; when the destination is not inside the source, the whole subtree
    reappears, renamed, at the destination (replacing what was there), and no
    other position changes.  When the destination lies inside the source the
    call still succeeds and the subtree is in the tree no more. *)
Lemma moveFlat_spec src dst t st r :
  wf_folder t -> moveFlat src dst t st = Ret r ->
  let sp := path_of_string src in let dp := path_of_string dst in
  let S := entry_path sp in let T := entry_path dp in
  wf_folder (fr_tree r) /\
  if fr_ok r then
    (exists c, child_at S (inl t) = Some c) /\
    ((dp = sp /\ fr_tree r = t) \/
     (exists t1, moved S T (parent_path dp) (filename dp) t t1 (fr_tree r)))
  else fr_tree r = t /\ (child_at S (inl t) = None \/ blocked (parent_path dp) t).
Proof.
  intros Hwf H sp dp S T. unfold moveFlat in H. fold sp dp in H.
  rewrite getFolderPtr_find in H by done. case_decide as Hp.
  - destruct Hp as [fs Hs]. rewrite (deref_some _ _ _ Hs) in H. cbn in H.
    unfold findChildIt, findChild in H.
    destruct (omap_find (filename sp) (childs fs)) as [c|] eqn:Hc.
    + assert (child_at S (inl t) = Some c) as HS.
      { unfold S, entry_path. by apply (child_at_snoc _ _ _ fs c). }
      case_decide as Heq.
      { injection H as <-. cbn. split; [done|]. split; [by exists c|]. by left. }
      assert (S <> T) as Hne. { intros E. by apply Heq, symmetry, entry_path_inj. }
      rewrite getFolderPtr_find in H by done. case_decide as Hd.
      * destruct Hd as [fd Hd].
        destruct (moveInto_moved sp dp t t st r c (reported c) fd) as (? & -> & Hm);
          [done | done | by eapply created_along_refl_at | done | done | done |].
        split; [done|]. split; [by exists c|]. right. by exists t.
      * apply bind_ret_inv in H as ([[ok t2] st2] & Ha & H). cbn in H.
        apply addFolder_path_inv in Ha as [Hwf2 Ha]; [|done]. destruct ok; cbn in H.
        -- destruct Ha as ([fd Hfd] & Hca & _).
           rewrite (getFolderPtr_existing _ _ _ _ Hwf2 Hfd) in H.
           destruct (moveInto_moved sp dp t t2 st2 r c (reported c) fd) as (? & -> & Hm);
             [done..|].
           split; [done|]. split; [by exists c|]. right. by exists t2.
        -- destruct Ha as (-> & _ & Hb). injection H as <-. cbn.
           split; [done|]. split; [done|]. by right.
    + injection H as <-. cbn. split; [done|]. split; [done|]. left.
      unfold S, entry_path. rewrite child_at_app.
      apply folder_at_child in Hs. rewrite Hs. cbn. by rewrite Hc.
  - injection H as <-. cbn. split; [done|]. split; [done|]. left.
    unfold S, entry_path. rewrite child_at_app.
    destruct (child_at (parent_path sp) (inl t)) as [[f|g]|] eqn:Hc; [|done..].
    destruct Hp. exists f. by apply folder_at_child.
Qed.

(** ** Traversals *)

(** The files of a tree in the order the traversals meet them. *)
Fixpoint files_of (fd : Folder) : list File :=
  match fd with
  | MkFolder _ cs _ _ _ _ =>
      flat_map (fun kc => match kc.2 with inl sub => files_of sub | inr f => [f] end) cs
  end.

Lemma Folder_nested_ind (P : Folder -> Prop) :
  (forall n cs b i m s,
     Forall (fun kc => match kc.2 with inl sub => P sub | inr _ => True end) cs ->
     P (MkFolder n cs b i m s)) ->
  forall fd, P fd.
Proof.
  intros IH. fix rec 1. intros [n cs b i m s]. apply IH.
  induction cs as [|[k [sub|f]] cs IHcs]; constructor; cbn; auto.
Qed.

(** Runs the callback over a list of files until it asks to stop. *)
Fixpoint run_until {S} (func : File -> S -> bool * S) (fs : list File) (s : S) : bool * S :=
  match fs with
  | [] => (false, s)
  | f :: fs' => let '(stop, s') := func f s in if stop then (true, s') else run_until func fs' s'
  end.

Lemma run_until_app {S} (func : File -> S -> bool * S) fs gs s :
  run_until func (fs ++ gs) s =
  let '(stop, s') := run_until func fs s in if stop then (true, s') else run_until func gs s'.
Proof.
  revert s. induction fs as [|f fs IH]; intros s; cbn; [done|].
  destruct (func f s) as [[] s']; [done | apply IH].
Qed.

(** [iterate] calls the callback on the files of the tree in order, each
    once, and stops at the first that returns [true]. *)
Theorem iterate_spec {S} (func : File -> S -> bool * S) fd s :
  iterate func fd s = run_until func (files_of fd) s.
Proof.
  revert s. induction fd as [n cs b i m st Hcs] using Folder_nested_ind. cbn.
  induction Hcs as [|[k c] cs Hc _ IH]; intros s; [done|]. cbn [flat_map].
  rewrite run_until_app. destruct c as [sub|f]; cbn in Hc |- *.
  - rewrite Hc. destruct (run_until func (files_of sub) s) as [[] s']; [done | apply IH].
  - destruct (func f s) as [[] s']; [done | apply IH].
Qed.

(** [getUniqueFiles] adds exactly the hashes of the files of the tree. *)
Lemma getUniqueFiles_spec fd acc :
  getUniqueFiles fd acc = list_to_set (file_hash <$> files_of fd) ∪ acc.
Proof.
  revert acc. induction fd as [n cs b i m st Hcs] using Folder_nested_ind. cbn.
  induction Hcs as [|[k c] cs Hc _ IH]; intros acc; [set_solver|].
  cbn [flat_map]. rewrite fmap_app, list_to_set_app_L.
  destruct c as [sub|f]; cbn in Hc |- *; rewrite IH, ?Hc; set_solver.
Qed.

(** Sums of sizes over a list of files; [None] when one cannot be read. *)
Fixpoint sum_sizes (size : Z -> option Z) (fs : list File) : option Z :=
  match fs with
  | [] => Some 0
  | f :: fs' => match size (file_hash f), sum_sizes size fs' with
                | Some a, Some b => Some (a + b)
                | _, _ => None
                end
  end.

Lemma sum_sizes_app size fs gs :
  sum_sizes size (fs ++ gs) =
  match sum_sizes size fs, sum_sizes size gs with
  | Some a, Some b => Some (a + b)
  | _, _ => None
  end.
Proof.
  induction fs as [|f fs IH]; cbn; [by destruct (sum_sizes size gs)|].
  rewrite IH. destruct (size (file_hash f)), (sum_sizes size fs), (sum_sizes size gs); try done.
  f_equal. lia.
Qed.

Section SizesSpec.
  Context (dsz tsz : Z -> option Z).

Definition plain (fd : Folder) : Prop := Forall (fun f => file_isModifiable f = false) (files_of fd).

Lemma plain_cons n k c cs b i m s :
  plain (MkFolder n ((k, c) :: cs) b i m s) <->
  match c with inl sub => plain sub | inr f => file_isModifiable f = false end /\
  plain (MkFolder n cs b i m s).
Proof.
  unfold plain. cbn. rewrite Forall_app. destruct c as [sub|f]; [done|].
  rewrite Forall_singleton. done.
Qed.

Lemma getSizes_sum fd a b D T :
  plain fd -> sum_sizes tsz (files_of fd) = Some T -> sum_sizes dsz (files_of fd) = Some D ->
  is_u64 a -> is_u64 b ->
  getSizes dsz tsz fd (a, b) = Ret (u64 (a + T), u64 (b + D)).
Proof.
  revert a b D T. induction fd as [n cs s0 i m st Hcs] using Folder_nested_ind.
  cbn [getSizes]. induction Hcs as [|[k c] cs Hc _ IH]; intros a b D T Hp HT HD Ha Hb.
  { cbn in *. simplify_eq. by rewrite !Z.add_0_r, !u64_small. }
  apply plain_cons in Hp as [Hp1 Hp2]. cbn in HT, HD. rewrite sum_sizes_app in HT, HD.
  destruct c as [sub|f]; cbn in *.
  - destruct (sum_sizes tsz (files_of sub)) as [T1|], (sum_sizes dsz (files_of sub)) as [D1|],
      (sum_sizes tsz (flat_map _ cs)) as [T2|] eqn:HT2,
      (sum_sizes dsz (flat_map _ cs)) as [D2|] eqn:HD2; simplify_eq.
    rewrite (Hc a b D1 T1) by done. cbn.
    rewrite (IH _ _ D2 T2); auto using u64_range. autorewrite with u64.
    by rewrite !Z.add_assoc.
  - rewrite Hp1. cbn. unfold size_of.
    destruct (tsz (file_hash f)) as [T1|], (dsz (file_hash f)) as [D1|],
      (sum_sizes tsz (flat_map _ cs)) as [T2|] eqn:HT2,
      (sum_sizes dsz (flat_map _ cs)) as [D2|] eqn:HD2; simplify_eq. cbn.
    unfold u64_add. rewrite (IH _ _ D2 T2); auto using u64_range. autorewrite with u64.
    rewrite !Z.add_0_r, !Z.add_assoc. done.
Qed.

Lemma evaluateSizes_sum fd D T :
  plain fd -> sum_sizes tsz (files_of fd) = Some T -> sum_sizes dsz (files_of fd) = Some D ->
  evaluateSizes dsz tsz fd = Ret (u64 (D + T)).
Proof.
  revert D T. induction fd as [n cs s0 i m st Hcs] using Folder_nested_ind.
  cbn [evaluateSizes]. intros D T. rewrite <- (Z.add_0_l (D + T)).
  assert (is_u64 0) as H0 by (by compute). revert D T H0. generalize 0.
  induction Hcs as [|[k c] cs Hc _ IH]; intros a D T Ha Hp HT HD.
  { cbn in *. simplify_eq. by rewrite !Z.add_0_r, !u64_small. }
  apply plain_cons in Hp as [Hp1 Hp2]. cbn in HT, HD. rewrite sum_sizes_app in HT, HD.
  destruct c as [sub|f]; cbn in *.
  - destruct (sum_sizes tsz (files_of sub)) as [T1|], (sum_sizes dsz (files_of sub)) as [D1|],
      (sum_sizes tsz (flat_map _ cs)) as [T2|] eqn:HT2,
      (sum_sizes dsz (flat_map _ cs)) as [D2|] eqn:HD2; simplify_eq.
    rewrite (Hc D1 T1) by done. cbn. unfold u64_add.
    rewrite (IH _ D2 T2); auto using u64_range. autorewrite with u64.
    do 2 f_equal. lia.
  - unfold size_of.
    destruct (tsz (file_hash f)) as [T1|], (dsz (file_hash f)) as [D1|],
      (sum_sizes tsz (flat_map _ cs)) as [T2|] eqn:HT2,
      (sum_sizes dsz (flat_map _ cs)) as [D2|] eqn:HD2; simplify_eq. cbn.
    rewrite Hp1. cbn. unfold u64_add. rewrite (IH _ D2 T2); auto using u64_range.
    f_equal. change (u64_add (u64_add a D1) T1 + (D2 + T2) ≡₆₄ a + (D1 + 0 + D2 + (T1 + 0 + T2))). eq64_lia.
Qed.

End SizesSpec.

(** On a tree without modifiable files whose sizes can all be read,
    [getSizes] returns the two sums and [evaluateSizes] their total, modulo
    [2^64]. *)
Lemma sizes_agree dsz tsz fd D T :
  plain fd -> sum_sizes tsz (files_of fd) = Some T -> sum_sizes dsz (files_of fd) = Some D ->
  getSizes dsz tsz fd (0, 0) = Ret (u64 T, u64 D) /\
  evaluateSizes dsz tsz fd = Ret (u64 (T + D)).
Proof.
  intros Hp HT HD. split.
  - by rewrite (getSizes_sum dsz tsz fd 0 0 D T) by done.
  - rewrite (evaluateSizes_sum dsz tsz fd D T) by done. by rewrite Z.add_comm.
Qed.

(** [findStreamFolder] returns the first direct child that is the stream
    folder, and [nullptr] when no direct child is: deeper folders are searched
    but the answer of that search is dropped. *)
Theorem findStreamFolder_spec id fd :
  match findStreamFolder id fd with
  | Some sub => exists k, (k, inl sub) ∈ childs fd /\ isaStream sub = true /\ streamId sub = id
  | None => forall k sub, (k, inl sub) ∈ childs fd -> isaStream sub = true -> streamId sub <> id
  end.
Proof.
  unfold findStreamFolder. induction (childs fd) as [|[k [sub|f]] cs IH].
  - by intros k sub ?%elem_of_nil.
  - destruct (isaStream sub && (streamId sub =? id)) eqn:E.
    + apply andb_prop in E as [? ?%Z.eqb_eq]. exists k. split_and!; [left | done | done].
    + destruct (_ cs) as [r|].
      * destruct IH as (k' & ? & ?). exists k'. split; [by right|done].
      * intros k' sub' [?|?]%elem_of_cons; [simplify_eq|by eauto].
        intros Hs Hid. by rewrite Hs, (proj2 (Z.eqb_eq _ _) Hid) in E.
  - destruct (_ cs) as [r|].
    + destruct IH as (k' & ? & ?). exists k'. split; [by right|done].
    + intros k' sub' [?|?]%elem_of_cons; [done|by eauto].
Qed.

(** ** Concrete trees *)

Definition root0 : Folder := newFolder "" 0%nat.
Definition store0 : StatStore := (new_folder_node empty_store).2.

Definition after_addFolder (p : string) (ts : Folder * StatStore) : Folder * StatStore :=
  match addFolder p ts.1 ts.2 with Ret (_, t, st) => (t, st) | Stop _ => ts end.
Definition after_addFile (d f : string) (h : Z) (ts : Folder * StatStore) : Folder * StatStore :=
  match addFile d f h 10 ts.1 ts.2 with Ret (_, t, st) => (t, st) | Stop _ => ts end.

(** [/docs/img/x.png], [/docs/readme], [/src]. *)
Definition sample : Folder * StatStore :=
  after_addFolder "src" (after_addFile "docs" "readme" 7
    (after_addFile "docs/img" "x.png" 5 (root0, store0))).

Lemma wf_sample : wf_folder sample.1.
Proof. apply wf_folderb_sound. vm_compute. reflexivity. Qed.

(** Moving a folder into itself succeeds and loses it. *)
Example moveFlat_into_itself :
  exists r, moveFlat "docs" "docs/img" sample.1 sample.2 = Ret r /\ fr_ok r = true /\
    (is_Some (view sample.1 ["docs"; "img"; "x.png"])) /\
    Forall (fun q => view (fr_tree r) q = None)
      [["docs"]; ["docs"; "img"]; ["docs"; "readme"]; ["docs"; "img"; "x.png"]].
Proof.
  eexists. split; [vm_compute; reflexivity|]. split; [reflexivity|].
  split; [vm_compute; eexists; reflexivity|]. repeat constructor.
Qed.

(** Moving an entry over one of its ancestors uses a freed folder. *)
Example moveFlat_over_ancestor :
  moveFlat "docs/img/x.png" "docs" sample.1 sample.2 = Stop UndefinedBehaviour.
Proof. vm_compute. reflexivity. Qed.

(** A nested stream folder is not found. *)
Example findStreamFolder_nested :
  let stream := MkFolder "s" [] true 9 (-1) None in
  let outer := MkFolder "o" [("s", inl stream)] false 0 (-1) None in
  findStreamFolder 9 (MkFolder "" [("o", inl outer)] false 0 (-1) None) = None /\
  findStreamFolder 9 outer = Some stream.
Proof. split; reflexivity. Qed.

(** The meta size of an empty modifiable file depends on the files before it. *)
Example evaluateSizes_modifiable :
  let big := mkFile "a" 1 100000 (-1) false None in
  let empty n := mkFile n 2 0 (-1) true None in
  let dsz h := Some (if h =? 1 then 100000 else 0) in
  let tsz _ := Some 100 in
  let dir cs := MkFolder "" cs false 0 (-1) None in
  evaluateSizes dsz tsz (dir [("a", inr big); ("b", inr (empty "b"))]) = Ret 105105 /\
  evaluateSizes dsz tsz (dir [("0", inr (empty "0")); ("a", inr big)]) = Ret 101124.
Proof. split; vm_compute; reflexivity. Qed.

(** ** Witnesses *)

Lemma sizes_agree_witness :
  let sz h := Some (10 * h) in
  getSizes sz sz sample.1 (0, 0) = Ret (u64 120, u64 120) /\
  evaluateSizes sz sz sample.1 = Ret (u64 240).
Proof.
  intros sz. apply (sizes_agree sz sz sample.1 120 120).
  - vm_compute. repeat constructor.
  - vm_compute. reflexivity.
  - vm_compute. reflexivity.
Defined.
