(* ===== verification/FsTreeLinks.v ===== *)
(** * The statistics nodes of a file tree

    Every entry of a tree owns a node of the store, and a node that has a parent
    has the node of the folder above it.  While that holds ([linked]) the walks of
    the statistics end, so the operations of [FsTree] return: the results of
    [FsTreeSpec] hold without the proviso that they do. *)

From S2P Require Import Prelude OrderedMap FsPath FsStatistics FsTree FsTreeFacts FsTreeSpec.

(** ** Nodes and links *)

(** The node of an entry. *)
Definition hnode (h : Head) : option nat :=
  match h with HFile f => file_node f | HFolder _ _ _ _ i => i end.

(** The parent that a node remembers. *)
Definition flink (st : StatStore) (i : nat) : option (option nat) := fdn_parent <$> st_folders st !! i.
Definition llink (st : StatStore) (i : nat) : option (option nat) := fln_parent <$> st_files st !! i.

Definition hlink (st : StatStore) (h : Head) : option (option nat) :=
  match h with
  | HFile _ => hnode h ≫= llink st
  | HFolder _ _ _ _ _ => hnode h ≫= flink st
  end.

Definition bounded (st : StatStore) : Prop :=
  forall i, is_Some (st_folders st !! i) \/ is_Some (st_files st !! i) -> (i < st_next st)%nat.

(** The parent of the node at [p]: none, or the node of the folder above. *)
Definition parent_ok (t : Folder) (p : path) (w : option nat) : Prop :=
  w = None \/ exists q x g, p = q ++ [x] /\ view t q = Some g /\ w = hnode g.

Record linked (t : Folder) (st : StatStore) : Prop := {
  lk_bound : bounded st;
  lk_link p h : view t p = Some h -> exists w, hlink st h = Some w /\ parent_ok t p w;
  lk_inj p q h g : view t p = Some h -> view t q = Some g -> hnode h = hnode g -> p = q }.

Lemma view_prefix t p q h : view t (p ++ q) = Some h -> q <> [] -> exists f, folder_at p t = Some f.
Proof.
  unfold view. rewrite child_at_app. destruct (child_at p (inl t)) as [[f|g]|] eqn:Hc; [| |done].
  - intros _ _. exists f. by apply folder_at_child.
  - by destruct q.
Qed.

Lemma child_view t p c : child_at p (inl t) = Some c -> view t p = Some (head c).
Proof. unfold view. by intros ->. Qed.

Lemma view_above t p q h : view t (p ++ q) = Some h -> exists g, view t p = Some g.
Proof. unfold view. rewrite child_at_app. destruct (child_at p (inl t)); cbn; eauto. Qed.

Lemma hlink_node st h w : hlink st h = Some w -> exists i, hnode h = Some i.
Proof. destruct h as [f|? ? ? ? [i|]]; cbn; [|eauto|done]. destruct (file_node f); eauto; done. Qed.

Lemma lock_present st i : is_Some (flink st i) -> lock st (Some i) = Some i.
Proof. intros H%fmap_is_Some. cbn. by rewrite decide_True. Qed.

(** The walk from the node of a folder goes up the tree; it ends even in a store
    where other nodes have other parents. *)
Lemma chain_at t st st' p f :
  linked t st -> folder_at p t = Some f ->
  (forall q g i, q `prefix_of` p -> view t q = Some g -> hnode g = Some i -> flink st' i = flink st i) ->
  exists i k, folder_node f = Some i /\ chain st' i k.
Proof.
  intros Hl. revert f. induction p as [|x p IH] using rev_ind; intros f Hf Hsame.
  - destruct (lk_link _ _ Hl [] (head (inl f))) as (w & Hw & Hok); [by apply folder_at_view|].
    destruct Hok as [->|(q & y & g & E & _)]; [|by destruct q].
    destruct (hlink_node _ _ _ Hw) as [i Hi]. destruct f as [n cs b s m j]. cbn in Hi, Hw |- *. subst j.
    exists i, 0%nat. split; [done|].
    assert (flink st' i = Some None) as H0.
    { rewrite (Hsame [] (head (inl (MkFolder n cs b s m (Some i)))) i);
        [exact Hw | done | by apply folder_at_view | done]. }
    unfold flink in H0. destruct (st_folders st' !! i) as [nd|] eqn:E; [|done].
    eapply chain_end; [exact E|]. cbn in H0. by injection H0 as ->.
  - destruct (lk_link _ _ Hl _ _ (folder_at_view _ _ _ Hf)) as (w & Hw & Hok).
    destruct (hlink_node _ _ _ Hw) as [i Hi].
    assert (hlink st (head (inl f)) = flink st i) as Hfl.
    { destruct f as [n cs b s m j]. cbn in *. by subst j. }
    assert (folder_node f = Some i) as Hfi by (by destruct f).
    assert (flink st' i = Some w) as H0.
    { rewrite (Hsame _ _ i (reflexivity _) (folder_at_view _ _ _ Hf) Hi). by rewrite <- Hfl. }
    unfold flink in H0. destruct (st_folders st' !! i) as [nd|] eqn:E; [|done]. injection H0 as Hnd.
    exists i. rewrite Hfi. destruct Hok as [->|(q & y & g & Eq & Hg & ->)].
    + exists 0%nat. split; [done|]. eapply chain_end; [exact E|]. by rewrite Hnd.
    + apply app_inj_tail in Eq as [<- _].
      destruct (view_prefix t p [x] (head (inl f))) as [fp Hfp]; [by apply folder_at_view|done|].
      rewrite (folder_at_view _ _ _ Hfp) in Hg. injection Hg as <-.
      destruct (IH fp Hfp) as (j & k & Hj & Hc).
      { intros q g0 i0 Hq. apply Hsame. etransitivity; [exact Hq|]. by exists [x]. }
      exists (S k). split; [done|]. eapply chain_step; [exact E| |exact Hc].
      rewrite Hnd. assert (hnode (head (inl fp)) = Some j) as -> by (by destruct fp).
      inversion Hc as [? ? Hs|? ? ? ? Hs]; subst; apply lock_present; unfold flink; by rewrite Hs.
Qed.

(** ** [setParent] *)

Definition child_node (c : Child) : option nat := hnode (head c).

Lemma folder_node_head f : hnode (head (inl f)) = folder_node f.
Proof. by destruct f. Qed.

Lemma hlink_folder st f i : folder_node f = Some i -> hlink st (head (inl f)) = flink st i.
Proof. destruct f; cbn. by intros ->. Qed.

Lemma hlink_file st f i : file_node f = Some i -> hlink st (head (inr f)) = llink st i.
Proof. cbn. by intros ->. Qed.

Lemma update_locked_total w old new st :
  (forall x, w = Some x -> is_Some (flink st x) -> exists k, chain st x k) ->
  exists st', update_locked w old new st = Ret st'.
Proof.
  unfold update_locked, lock. intros H. destruct w as [x|]; [|eauto].
  case_decide as Hx; [|eauto]. destruct (H x eq_refl) as [k Hk]; [by apply fmap_is_Some|].
  unfold update. eapply update_fuel_terminates; [exact Hk|]. by eapply chain_bound.
Qed.

(** The node of [c] has the parent [w]; the other links are as before. *)
Record relinked (c : Child) (w : option nat) (st st' : StatStore) : Prop := {
  rl_next : st_next st' = st_next st;
  rl_here : hlink st' (head c) = Some w;
  rl_other i : child_node c <> Some i -> flink st' i = flink st i /\ llink st' i = llink st i;
  rl_old i : is_Some (flink st' i) \/ is_Some (llink st' i) -> is_Some (flink st i) \/ is_Some (llink st i) }.

Lemma flink_same_links st st' : same_links st st' <-> forall x, flink st x = flink st' x.
Proof. done. Qed.

Lemma folder_setParent_total i n w st :
  st_folders st !! i = Some n ->
  (forall x, fdn_parent n = Some x -> is_Some (flink st x) -> exists k, chain st x k) ->
  (forall x st', w = Some x -> (forall j, j <> i -> flink st' j = flink st j) -> exists k, chain st' x k) ->
  exists st', folder_setParent i w st = Ret st' /\ st_next st' = st_next st /\ st_files st' = st_files st /\
    flink st' i = Some w /\ (forall j, j <> i -> flink st' j = flink st j).
Proof.
  intros Hn Hold Hnew.
  destruct (update_locked_total (fdn_parent n) (totalBlocks (fdn_statistics n))
              (totalBlocks zeroFolderStatistics) st Hold) as [st1 H1].
  pose proof (update_locked_child _ _ _ _ _ _ Hn H1) as Hn1.
  destruct (update_locked_frame _ _ _ _ _ H1) as (L1 & F1 & N1).
  set (st2 := set_folder i (mkFolderNode w (fdn_statistics n)) st1).
  assert (forall j, j <> i -> flink st2 j = flink st j) as L2.
  { intros j Hj. unfold flink at 1. cbn. rewrite lookup_insert_ne by done. symmetry. apply L1. }
  destruct (update_locked_total w (totalBlocks zeroFolderStatistics)
              (totalBlocks (fdn_statistics n)) st2) as [st3 H3].
  { intros x Hx _. by apply (Hnew x st2). }
  destruct (update_locked_frame _ _ _ _ _ H3) as (L3 & F3 & N3).
  exists st3. unfold folder_setParent. rewrite Hn, H1. cbn. rewrite Hn1. fold st2. rewrite H3.
  split; [done|]. split; [by rewrite N3|]. split; [by rewrite F3|]. split.
  - unfold flink. rewrite <- (L3 i). cbn. by rewrite lookup_insert_eq.
  - intros j Hj. rewrite <- (L2 j Hj). symmetry. apply L3.
Qed.

Lemma file_setParent_total i n w st :
  st_files st !! i = Some n ->
  (forall x, fln_parent n = Some x -> is_Some (flink st x) -> exists k, chain st x k) ->
  (forall x st', w = Some x -> (forall j, flink st' j = flink st j) -> exists k, chain st' x k) ->
  exists st', file_setParent i w st = Ret st' /\ st_next st' = st_next st /\
    st_files st' = <[i := mkFileNode w (fln_statistics n)]> (st_files st) /\
    (forall j, flink st' j = flink st j).
Proof.
  intros Hn Hold Hnew.
  destruct (update_locked_total (fln_parent n) (file_totalBlocks (fln_statistics n))
              (file_totalBlocks zeroFileStatistics) st Hold) as [st1 H1].
  destruct (update_locked_frame _ _ _ _ _ H1) as (L1 & F1 & N1).
  set (st2 := set_file i (mkFileNode w (fln_statistics n)) st1).
  assert (forall j, flink st2 j = flink st j) as L2 by (intros j; symmetry; apply L1).
  destruct (update_locked_total w (file_totalBlocks zeroFileStatistics)
              (file_totalBlocks (fln_statistics n)) st2) as [st3 H3].
  { intros x Hx _. by apply (Hnew x st2). }
  destruct (update_locked_frame _ _ _ _ _ H3) as (L3 & F3 & N3).
  exists st3. unfold file_setParent. rewrite Hn, H1. cbn [mbind outcome_bind]. fold st2. rewrite H3.
  split; [done|]. split; [by rewrite N3|]. split; [by rewrite F3; cbn; rewrite F1|].
  intros j. rewrite <- (L2 j). symmetry. apply L3.
Qed.

Lemma child_node_file g : child_node (inr g) = file_node g.
Proof. done. Qed.

(** A parent for the entry at [S]: none, or a folder that is not below it. *)
Lemma child_setParent_total t st S c dp w :
  linked t st -> view t S = Some (head c) ->
  (w = None \/ exists f, folder_at dp t = Some f /\ w = folder_node f /\ ~ S `prefix_of` dp) ->
  exists st', child_setParent c w st = Ret st' /\ relinked c w st st'.
Proof.
  intros Hl Hv Hw.
  destruct (lk_link _ _ Hl _ _ Hv) as (w0 & Hw0 & Hok).
  destruct (hlink_node _ _ _ Hw0) as [i Hi].
  assert (forall x, w0 = Some x -> exists k, chain st x k) as Hchain0.
  { intros x ->. destruct Hok as [|(q & y & g & -> & Hg & Ex)]; [done|].
    destruct (view_prefix _ _ _ _ Hv) as [fq Hq]; [done|].
    rewrite (folder_at_view _ _ _ Hq) in Hg. injection Hg as <-.
    destruct (chain_at t st st q fq Hl Hq) as (j & k & Hj & Hch); [done|].
    rewrite folder_node_head, Hj in Ex. injection Ex as ->. eauto. }
  assert (forall x st', w = Some x -> (forall j, j <> i -> flink st' j = flink st j) -> exists k, chain st' x k)
    as Hchain1.
  { intros x st' -> Hsame. destruct Hw as [|(f & Hf & Ex & Hnp)]; [done|].
    destruct (chain_at t st st' dp f Hl Hf) as (j & k & Hj & Hch).
    - intros q g j Hq Hg Hj. apply Hsame. intros ->. apply Hnp.
      by rewrite (lk_inj _ _ Hl _ _ _ _ Hv Hg) by congruence.
    - rewrite Hj in Ex. injection Ex as ->. eauto. }
  destruct c as [f|g]; cbn [child_setParent].
  - rewrite folder_node_head in Hi. rewrite Hi. rewrite (hlink_folder _ _ _ Hi) in Hw0.
    unfold flink in Hw0. destruct (st_folders st !! i) as [n|] eqn:Hn; [|done].
    cbn in Hw0. injection Hw0 as Hw0.
    destruct (folder_setParent_total i n w st Hn) as (st' & E & N & F & Hhere & Hother); [|done|].
    { intros x Hx _. apply Hchain0. congruence. }
    exists st'. split; [done|]. split; [done| | |].
    + by rewrite (hlink_folder _ _ _ Hi).
    + intros j Hj. unfold child_node in Hj. rewrite folder_node_head, Hi in Hj.
      split; [apply Hother; congruence|]. unfold llink. by rewrite F.
    + intros j. unfold llink. rewrite F. destruct (decide (j = i)) as [->|Hj]; [|by rewrite Hother].
      unfold flink at 2. rewrite Hn. eauto.
  - cbn in Hi. rewrite Hi. rewrite (hlink_file _ _ _ Hi) in Hw0.
    unfold llink in Hw0. destruct (st_files st !! i) as [n|] eqn:Hn; [|done].
    cbn in Hw0. injection Hw0 as Hw0.
    destruct (file_setParent_total i n w st Hn) as (st' & E & N & F & Hother).
    { intros x Hx _. apply Hchain0. congruence. }
    { intros x st' Hx Hs. by apply (Hchain1 x st'). }
    exists st'. split; [done|]. split; [done| | |].
    + rewrite (hlink_file _ _ _ Hi). unfold llink. by rewrite F, lookup_insert_eq.
    + intros j Hj. unfold child_node in Hj. cbn in Hj. rewrite Hi in Hj. split; [apply Hother|].
      unfold llink. rewrite F, lookup_insert_ne by congruence. done.
    + intros j. rewrite Hother. unfold llink. rewrite F.
      destruct (decide (j = i)) as [->|Hj]; [rewrite Hn; eauto|by rewrite lookup_insert_ne].
Qed.

(** ** Destruction *)

Definition child_nodes (c : Child) : list nat :=
  match c with inl fd => nodes_of fd | inr f => option_list (file_node f) end.

(** Only nodes of [X] are gone. *)
Record dropped (X : list nat) (st st' : StatStore) : Prop := {
  dr_next : st_next st' = st_next st;
  dr_other i : i ∉ X -> flink st' i = flink st i /\ llink st' i = llink st i;
  dr_old i : is_Some (flink st' i) \/ is_Some (llink st' i) -> is_Some (flink st i) \/ is_Some (llink st i) }.

Lemma dropped_refl X st : dropped X st st.
Proof. by split. Qed.

Lemma dropped_trans X Y Z st st1 st2 :
  dropped X st st1 -> dropped Y st1 st2 -> (forall i, i ∈ X \/ i ∈ Y -> i ∈ Z) -> dropped Z st st2.
Proof.
  intros [N1 O1 D1] [N2 O2 D2] HZ. split; [congruence| |eauto].
  intros i Hi. destruct (O2 i) as [-> ->]; [by auto|]. by apply O1; auto.
Qed.

Lemma dropped_folder_node i st : dropped [i] st (drop_folder_node i st).
Proof.
  unfold drop_folder_node. case_decide; [by split|]. split; [done| |].
  - intros j Hj%not_elem_of_cons. unfold flink, llink. cbn. rewrite lookup_delete_ne by naive_solver. done.
  - intros j. unfold flink, llink. cbn. rewrite lookup_delete. case_decide; [|done].
    intros [[? Hx]|]; [done|]. by right.
Qed.

Lemma dropped_file_node i st : dropped [i] st (drop_file_node i st).
Proof.
  unfold drop_file_node. case_decide; [by split|]. split; [done| |].
  - intros j Hj%not_elem_of_cons. unfold flink, llink. cbn. rewrite lookup_delete_ne by naive_solver. done.
  - intros j. unfold flink, llink. cbn. rewrite lookup_delete. case_decide; [|done].
    intros [|[? Hx]]; [|done]. by left.
Qed.

Lemma dropped_file f st :
  dropped (option_list (file_node f)) st
    (match file_node f with Some i => drop_file_node i st | None => st end).
Proof. destruct (file_node f) as [i|]; [apply dropped_file_node | apply dropped_refl]. Qed.

Lemma dropped_folder fd st : dropped (nodes_of fd) st (drop_folder fd st).
Proof.
  revert st. induction fd as [n cs b i m node Hcs] using Folder_nested_ind. intros st. cbn [nodes_of drop_folder].
  set (st1 := (fix go (cs : list (string * Child)) (st : StatStore) := _) cs st).
  set (X := flat_map _ cs).
  assert (dropped X st st1) as H1.
  { subst st1 X. revert st. induction Hcs as [|[k [sub|f]] cs Hc _ IH]; intros st; [apply dropped_refl| |];
      cbn [flat_map snd].
    - eapply dropped_trans; [apply Hc|apply IH|intros j; by rewrite elem_of_app].
    - eapply dropped_trans; [apply dropped_file|apply IH|intros j; by rewrite elem_of_app]. }
  destruct node as [j|]; cbn [option_list app]; [|done].
  eapply dropped_trans; [exact H1|apply dropped_folder_node|].
  intros x [Hx| ->%list_elem_of_singleton]; [by right|by left].
Qed.

Lemma dropped_child c st : dropped (child_nodes c) st (drop_child c st).
Proof. destruct c; [apply dropped_folder | apply dropped_file]. Qed.

(** The nodes of an entry are those of the positions below it. *)
Lemma child_nodes_at c i :
  (forall fd, c = inl fd -> wf_folder fd) -> i ∈ child_nodes c ->
  exists r d, child_at r c = Some d /\ child_node d = Some i.
Proof.
  intros Hwf Hi. destruct c as [fd|f].
  - specialize (Hwf fd eq_refl). cbn in Hi.
    revert Hwf Hi. induction fd as [n cs b x m node Hcs] using Folder_nested_ind. intros Hwf.
    cbn [nodes_of]. rewrite elem_of_app. intros [Hn|Hn].
    + exists [], (inl (MkFolder n cs b x m node)). split; [done|]. cbn.
      destruct node; cbn in Hn; [|by apply not_elem_of_nil in Hn].
      by apply list_elem_of_singleton in Hn as ->.
    + inversion Hwf as [? Hs _ Hsub]; subst. cbn [childs] in *.
      rewrite list_elem_of_In in Hn. apply in_flat_map in Hn as ([k c] & Hk & Hn).
      rewrite <- !list_elem_of_In in *. rewrite Forall_forall in Hcs.
      pose proof (omap_sorted_find _ _ _ Hs Hk) as Hf. specialize (Hcs _ Hk). cbn in Hcs, Hn.
      destruct c as [sub|f].
      * destruct (Hcs (Hsub _ _ Hf) Hn) as (r & d & Hr & Hd). exists (k :: r), d.
        split; [|done]. cbn. by rewrite Hf.
      * exists [k], (inr f). split; [cbn; by rewrite Hf|]. unfold child_node. cbn.
        destruct (file_node f); cbn in Hn; [|by apply not_elem_of_nil in Hn].
        by apply list_elem_of_singleton in Hn as ->.
  - exists [], (inr f). split; [done|]. unfold child_node. cbn in *.
    destruct (file_node f); cbn in Hi; [|by apply not_elem_of_nil in Hi].
    by apply list_elem_of_singleton in Hi as ->.
Qed.

(** Removing entries with their nodes. *)
Lemma bounded_links st : bounded st <-> forall i, is_Some (flink st i) \/ is_Some (llink st i) -> (i < st_next st)%nat.
Proof. unfold bounded, flink, llink. split; intros H i; specialize (H i); rewrite !fmap_is_Some in *; done. Qed.

Lemma bounded_le st st' :
  bounded st -> (st_next st <= st_next st')%nat ->
  (forall i, is_Some (flink st' i) \/ is_Some (llink st' i) -> is_Some (flink st i) \/ is_Some (llink st i)) ->
  bounded st'.
Proof. rewrite !bounded_links. intros H Hn Ho i Hi%Ho%H. lia. Qed.

Lemma hlink_same st st' h i :
  hnode h = Some i -> flink st' i = flink st i /\ llink st' i = llink st i -> hlink st' h = hlink st h.
Proof. intros Hi [Hf Hl]. destruct h; cbn in *; rewrite Hi; done. Qed.

Lemma linked_shrink t st t' st' X :
  linked t st -> dropped X st st' ->
  (forall q h, view t' q = Some h -> view t q = Some h) ->
  (forall q h i, view t' q = Some h -> hnode h = Some i -> i ∉ X) ->
  linked t' st'.
Proof.
  intros [Hb Hl Hi] [N O D] Hv HX. split.
  - eapply bounded_le; [exact Hb|lia|exact D].
  - intros p h Hp. destruct (Hl p h (Hv _ _ Hp)) as (w & Hw & Hok).
    exists w. destruct (hlink_node _ _ _ Hw) as [i Hhi]. split.
    + erewrite hlink_same; [exact Hw|exact Hhi|]. apply O. by eapply HX.
    + destruct Hok as [->|(q & x & g & -> & Hg & ->)]; [by left|]. right. exists q, x, g.
      split; [done|]. split; [|done].
      destruct (view_above _ _ _ _ Hp) as [g' Hg']. pose proof (Hv _ _ Hg') as E. congruence.
  - intros p q h g Hp Hq. apply (Hi p q h g); by apply Hv.
Qed.

Lemma linked_relink t st st' S c w :
  linked t st -> view t S = Some (head c) -> relinked c w st st' -> parent_ok t S w -> linked t st'.
Proof.
  intros [Hb Hl Hi] Hc [N H O D] Hw. split.
  - eapply bounded_le; [exact Hb|lia|exact D].
  - intros p h Hp. destruct (Hl p h Hp) as (w' & Hw' & Hok).
    destruct (hlink_node _ _ _ Hw') as [i Hhi]. destruct (decide (p = S)) as [->|Hne].
    + rewrite Hc in Hp. injection Hp as <-. eauto.
    + exists w'. split; [|done]. erewrite hlink_same; [exact Hw'|exact Hhi|]. apply O. intros E.
      apply Hne. apply (Hi p S h (head c) Hp Hc). unfold child_node in E. congruence.
  - done.
Qed.

(** The nodes below a position are at no other position. *)
Lemma nodes_below t st S c q h i :
  wf_folder t -> linked t st -> child_at S (inl t) = Some c ->
  view t q = Some h -> hnode h = Some i -> i ∈ child_nodes c -> S `prefix_of` q.
Proof.
  intros Hwf Hl Hc Hq Hi Hin.
  destruct (child_nodes_at c i) as (r & d & Hr & Hd); [|done|].
  { intros fd ->. apply folder_at_child in Hc. by eapply wf_folder_at. }
  exists r. symmetry. apply (lk_inj _ _ Hl (S ++ r) q (head d) h); [|done|unfold child_node in Hd; congruence].
  unfold view. rewrite child_at_app, Hc. cbn. by rewrite Hr.
Qed.

(** ** Creation *)

(** The entries of [t'] are those of [t], and new folders without a parent. *)
Record grown (t : Folder) (st : StatStore) (t' : Folder) (st' : StatStore) : Prop := {
  gr_next : (st_next st <= st_next st')%nat;
  gr_old i : (i < st_next st)%nat -> flink st' i = flink st i /\ llink st' i = llink st i;
  gr_bound : bounded st -> bounded st';
  gr_keep q h : view t q = Some h -> view t' q = Some h;
  gr_new q h : view t q = None -> view t' q = Some h ->
    exists n b s m i, h = HFolder n b s m (Some i) /\
      (st_next st <= i < st_next st')%nat /\ flink st' i = Some None;
  gr_inj p q h g : view t p = None -> view t q = None -> view t' p = Some h -> view t' q = Some g ->
    hnode h = hnode g -> p = q }.

Lemma grown_refl t st : grown t st t st.
Proof. split; try done; naive_solver. Qed.

Lemma view_set_child n sub fd q :
  view (set_childs (omap_set n (inl sub) (childs fd)) fd) q =
  match q with
  | m :: r => if decide (m = n) then view sub r else view fd q
  | [] => view fd []
  end.
Proof.
  unfold view. destruct q as [|m r]; cbn; [by rewrite head_set_childs|].
  rewrite childs_set_childs. case_decide as Hm; [subst; by rewrite omap_find_set_eq|].
  by rewrite omap_find_set_ne.
Qed.

Lemma grown_cons n fd st sub sub' st' :
  omap_find n (childs fd) = Some (inl sub) -> grown sub st sub' st' ->
  grown fd st (set_childs (omap_set n (inl sub') (childs fd)) fd) st'.
Proof.
  intros Hn [Nx Old Bd Keep New Inj].
  assert (forall r, view fd (n :: r) = view sub r) as Hv by (intros r; by apply view_cons_find).
  split; [done|done|done| | |].
  - intros [|m r] h; rewrite view_set_child; [done|]. case_decide; [subst; rewrite Hv; apply Keep|done].
  - intros [|m r] h; rewrite view_set_child; [congruence|].
    case_decide; [subst; rewrite Hv; apply New|congruence].
  - intros [|m p] [|m' q] h g; rewrite !view_set_child; try congruence.
    repeat case_decide; subst; try congruence. rewrite !Hv. intros. f_equal. by eapply Inj.
Qed.

Lemma grown_new n fd st sub' st' :
  omap_find n (childs fd) = None ->
  grown (newFolder n (st_next st)) (new_folder_node st).2 sub' st' ->
  grown fd st (set_childs (omap_set n (inl sub') (childs fd)) fd) st'.
Proof.
  intros Hn [Nx Old Bd Keep New Inj]. cbn in Nx.
  assert (forall r, view fd (n :: r) = None) as Hv by (intros r; by apply view_cons_none).
  assert (view sub' [] = Some (fresh_head n (st_next st))) as Hroot by (by apply Keep).
  assert (forall x r, view (newFolder n (st_next st)) (x :: r) = None) as Hempty by done.
  assert (flink st' (st_next st) = Some None) as Hfresh.
  { destruct (Old (st_next st)) as [-> _]; [cbn; lia|]. unfold flink. cbn. by rewrite lookup_insert_eq. }
  split; [lia| | | | |].
  - intros i Hi. destruct (Old i) as [-> ->]; [cbn; lia|]. unfold flink, llink. cbn.
    by rewrite lookup_insert_ne by lia.
  - intros Hb. apply Bd. rewrite bounded_links in Hb |- *. intros i. unfold flink, llink. cbn.
    rewrite lookup_insert. case_decide; [lia|]. intros Hi%Hb. lia.
  - intros [|m r] h; rewrite view_set_child; [done|]. case_decide; [subst; by rewrite Hv|done].
  - intros [|m r] h; rewrite view_set_child; [congruence|].
    case_decide; [subst|congruence]. intros _ Hh. destruct r as [|x r].
    + rewrite Hroot in Hh. injection Hh as <-. exists n, false, 0, (-1), (st_next st).
      split; [done|]. split; [lia|done].
    + destruct (New _ _ (Hempty x r) Hh) as (n' & b & s & m & i & -> & Hi & Hfl). cbn in Hi.
      exists n', b, s, m, i. split; [done|]. split; [lia|done].
  - intros [|m p] [|m' q] h g; rewrite !view_set_child; try congruence.
    repeat case_decide; subst; try congruence. intros _ _ Hp Hq E. f_equal.
    assert (forall r k, view sub' r = Some k -> hnode k = Some (st_next st) -> r = []) as Hone.
    { intros [|x r] k Hk Hkn; [done|]. destruct (New _ _ (Hempty x r) Hk) as (? & ? & ? & ? & i & -> & Hi & _).
      cbn in Hi, Hkn. injection Hkn as ->. lia. }
    destruct p as [|x p], q as [|y q]; try done.
    + rewrite Hroot in Hp. injection Hp as <-. symmetry. by apply (Hone _ _ Hq).
    + rewrite Hroot in Hq. injection Hq as <-. by apply (Hone _ _ Hp).
    + by eapply Inj.
Qed.

Lemma walkFolder_grown p : forall fd st ok fd' st',
  walkFolder p true fd st = (ok, fd', st') -> grown fd st fd' st'.
Proof.
  induction p as [|n p IH]; intros fd st ok fd' st'; cbn [walkFolder].
  { intros [= <- <- <-]. apply grown_refl. }
  destruct (omap_find n (childs fd)) as [[sub|f]|] eqn:Hf.
  - destruct (walkFolder p true sub st) as [[ok1 sub'] st1] eqn:Hw. intros [= <- <- <-].
    by eapply grown_cons, IH.
  - intros [= <- <- <-]. apply grown_refl.
  - destruct (walkFolder p true (newFolder n (st_next st)) (new_folder_node st).2)
      as [[ok1 sub'] st1] eqn:Hw. cbn in Hw |- *. rewrite Hw. intros [= <- <- <-].
    rewrite omap_find_emplace_new by done. by eapply grown_new, IH.
Qed.

Lemma getFolderPtr_grown p t st ptr t' st' :
  getFolderPtr p true t st = (ptr, t', st') -> grown t st t' st'.
Proof.
  unfold getFolderPtr. destruct (walkFolder p true t st) as [[ok t1] st1] eqn:Hw.
  intros [= <- <- <-]. by eapply walkFolder_grown.
Qed.

Lemma linked_lt t st q h i : linked t st -> view t q = Some h -> hnode h = Some i -> (i < st_next st)%nat.
Proof.
  intros [Hb Hl _] Hq Hi. destruct (Hl _ _ Hq) as (w & Hw & _). rewrite bounded_links in Hb. apply Hb.
  destruct h; cbn in Hi, Hw; rewrite Hi in Hw; cbn in Hw; rewrite Hw; eauto.
Qed.

Lemma parent_ok_mono t t' p w :
  (forall q h, view t q = Some h -> view t' q = Some h) -> parent_ok t p w -> parent_ok t' p w.
Proof. intros Hv [->|(q & x & g & -> & Hg & ->)]; [by left|]. right. exists q, x, g. eauto. Qed.

Lemma linked_grown t st t' st' : linked t st -> grown t st t' st' -> linked t' st'.
Proof.
  intros Hl [Nx Old Bd Keep New Inj]. pose proof Hl as [Hb Hlk Hinj]. split; [by apply Bd| |].
  - intros p h Hp. destruct (view t p) as [h0|] eqn:Hp0.
    + pose proof (Keep _ _ Hp0) as E. rewrite Hp in E. injection E as <-.
      destruct (Hlk _ _ Hp0) as (w & Hw & Hok). exists w. split; [|by eapply parent_ok_mono].
      destruct (hlink_node _ _ _ Hw) as [i Hi]. erewrite hlink_same; [exact Hw|exact Hi|].
      apply Old. by eapply linked_lt.
    + destruct (New _ _ Hp0 Hp) as (n & b & s & m & i & -> & _ & Hfl). exists None. split; [done|by left].
  - intros p q h g Hp Hq E. destruct (view t p) as [h0|] eqn:Hp0, (view t q) as [g0|] eqn:Hq0.
    + pose proof (Keep _ _ Hp0) as E1. pose proof (Keep _ _ Hq0) as E2.
      apply (Hinj p q h0 g0); congruence.
    + exfalso. destruct (New _ _ Hq0 Hq) as (? & ? & ? & ? & i & -> & Hi & _). cbn in E.
      pose proof (Keep _ _ Hp0) as E1. rewrite Hp in E1. injection E1 as <-.
      pose proof (linked_lt _ _ _ _ _ Hl Hp0 E). lia.
    + exfalso. destruct (New _ _ Hp0 Hp) as (? & ? & ? & ? & i & -> & Hi & _). cbn in E.
      pose proof (Keep _ _ Hq0) as E1. rewrite Hq in E1. injection E1 as <-. symmetry in E.
      pose proof (linked_lt _ _ _ _ _ Hl Hq0 E). lia.
    + by eapply Inj.
Qed.

(** ** The operations *)

(** The entry at [E] is gone, with its nodes. *)
Lemma linked_del t st p k f t' st' :
  wf_folder t -> linked t st -> folder_at p t = Some f ->
  t' = update_at p (fun fd => set_childs (omap_erase k (childs fd)) fd) t ->
  st' = match omap_find k (childs f) with Some old => drop_child old st | None => st end ->
  linked t' st'.
Proof.
  intros Hwf Hl Hf -> ->. destruct (view_del p k t f Hf) as [Hin Hout].
  assert (forall q, view (update_at p (fun fd => set_childs (omap_erase k (childs fd)) fd) t) q <> None ->
            ~ (p ++ [k]) `prefix_of` q) as Hnp.
  { intros q Hq [r ->]. apply Hq. rewrite <- app_assoc. apply Hin. }
  destruct (omap_find k (childs f)) as [old|] eqn:Hk.
  - pose proof (proj2 (child_at_snoc p k t f old Hf) Hk) as Hc.
    eapply linked_shrink; [exact Hl|apply dropped_child| |].
    + intros q h Hq. rewrite <- Hout; [done|]. apply Hnp. by rewrite Hq.
    + intros q h i Hq Hi Hin'. apply (Hnp q); [by rewrite Hq|].
      eapply nodes_below; [exact Hwf|exact Hl|exact Hc| |exact Hi|exact Hin'].
      rewrite <- Hout; [done|]. apply Hnp. by rewrite Hq.
  - eapply linked_shrink; [exact Hl|apply (dropped_refl [])| |by intros ? ? ? ? ? ?%not_elem_of_nil].
    intros q h Hq. rewrite <- Hout; [done|]. apply Hnp. by rewrite Hq.
Qed.

(** A new entry with a new node and no parent. *)
Lemma linked_add t st t' st' E h :
  linked t st -> view t E = None -> hnode h = Some (st_next st) -> hlink st' h = Some None ->
  st_next st' = S (st_next st) ->
  (forall i, i <> st_next st -> flink st' i = flink st i /\ llink st' i = llink st i) ->
  (forall q, view t' q = if decide (q = E) then Some h else view t q) ->
  linked t' st'.
Proof.
  intros Hl HE Hh Hlink Hn Hold Hv. pose proof Hl as [Hb Hlk Hinj].
  assert (forall q g, view t q = Some g -> view t' q = Some g) as Hkeep.
  { intros q g Hg. rewrite Hv. rewrite decide_False; [done|]. congruence. }
  split.
  - rewrite bounded_links in Hb |- *. intros i Hi. rewrite Hn.
    destruct (decide (i = st_next st)) as [->|Hne]; [lia|].
    destruct (Hold i Hne) as [Ef El]. rewrite Ef, El in Hi. specialize (Hb i Hi). lia.
  - intros p g. rewrite Hv. case_decide as Hp; [intros [= <-]; exists None; split; [done|by left]|].
    intros Hg. destruct (Hlk _ _ Hg) as (w & Hw & Hok). exists w. split; [|by eapply parent_ok_mono].
    destruct (hlink_node _ _ _ Hw) as [i Hi]. erewrite hlink_same; [exact Hw|exact Hi|].
    apply Hold. pose proof (linked_lt _ _ _ _ _ Hl Hg Hi). lia.
  - intros p q g g'. rewrite !Hv. repeat case_decide; subst; try done.
    + intros [= <-] Hq E0. rewrite Hh in E0. symmetry in E0. pose proof (linked_lt _ _ _ _ _ Hl Hq E0). lia.
    + intros Hp [= <-] E0. rewrite Hh in E0. pose proof (linked_lt _ _ _ _ _ Hl Hp E0). lia.
    + apply Hinj.
Qed.

Lemma addFile_linked dest fname hash size t st ok t' st' :
  wf_folder t -> linked t st -> addFile dest fname hash size t st = Ret (ok, t', st') -> linked t' st'.
Proof.
  intros Hwf Hl. unfold addFile.
  destruct (getFolderPtr (path_of_string dest) true t st) as [[ptr t1] st1] eqn:Hp.
  pose proof (linked_grown _ _ _ _ Hl (getFolderPtr_grown _ _ _ _ _ _ Hp)) as Hl1.
  apply getFolderPtr_create in Hp as [Hwf1 Hp]; [|done].
  destruct ptr as [dp|]; [|by intros [= <- <- <-]].
  destruct Hp as (-> & [f Hf] & _ & _). set (D := path_of_string dest) in *.
  rewrite (deref_some _ _ _ Hf). cbn [mbind outcome_bind]. unfold findChildIt, findChild.
  set (st2 := match omap_find fname (childs f) with Some _ => _ | None => _ end). cbn [new_file_node].
  intros [= <- <- <-].
  set (h := newFile fname hash size false (st_next st2)).
  set (t2 := update_at D (fun fd => set_childs (omap_erase fname (childs fd)) fd) t1).
  assert (linked t2 st2) as Hl2 by (by eapply linked_del).
  destruct (view_del D fname t1 f Hf) as [Hin Hout]. fold t2 in Hin, Hout.
  destruct (view_put D fname (inr h) t1 f Hf) as [Pin Pout].
  eapply (linked_add t2 st2 _ _ (D ++ [fname]) (HFile h)); [done|apply (Hin [])|done| |done| |].
  - cbn. unfold llink. cbn. by rewrite lookup_insert_eq.
  - intros i Hi. unfold flink, llink. cbn. by rewrite lookup_insert_ne.
  - intros q. destruct (decide ((D ++ [fname]) `prefix_of` q)) as [[r ->]|Hq].
    + rewrite <- app_assoc. cbn [app]. rewrite Hin. destruct r as [|x r].
      * rewrite decide_True by done. exact (Pin []).
      * rewrite decide_False; [exact (Pin (x :: r))|]. intros E. apply (f_equal length) in E.
        rewrite !length_app in E. cbn in E. lia.
    + rewrite decide_False by (intros ->; by apply Hq). rewrite Hout by done. by apply Pout.
Qed.

Lemma parent_snoc p f t :
  folder_at p t = Some f -> parent_path p <> p -> exists x, p = parent_path p ++ [x].
Proof.
  unfold parent_path. destruct (path_is_rootlike p) eqn:E; [done|]. intros _ _.
  destruct p as [|x p _] using rev_ind; [done|]. exists x. by rewrite removelast_last.
Qed.

Lemma folder_above p x t f : folder_at (p ++ [x]) t = Some f -> exists g, folder_at p t = Some g.
Proof. intros H%folder_at_view. by eapply view_prefix. Qed.

Lemma addFolder_total p t st :
  wf_folder t -> linked t st ->
  exists ok t' st', addFolder_path p t st = Ret (ok, t', st') /\ linked t' st'.
Proof.
  intros Hwf Hl. unfold addFolder_path.
  destruct (getFolderPtr p true t st) as [[ptr t1] st1] eqn:Hp.
  pose proof (linked_grown _ _ _ _ Hl (getFolderPtr_grown _ _ _ _ _ _ Hp)) as Hl1.
  apply getFolderPtr_create in Hp as [Hwf1 Hp]; [|done].
  destruct ptr as [q|]; [|by do 3 eexists].
  destruct Hp as (-> & [f Hf] & _ & _). rewrite getFolderPtr_find by done.
  case_decide as Hd; [by do 3 eexists|].
  rewrite (deref_some _ _ _ Hf). cbn [mbind outcome_bind].
  destruct (decide (parent_path p = p)) as [Hpp|Hpp].
  { destruct Hd. rewrite Hpp, decide_True; eauto. }
  destruct (parent_snoc _ _ _ Hf Hpp) as [x Hx].
  destruct (folder_above (parent_path p) x t1 f) as [g Hg]; [by rewrite <- Hx|].
  rewrite decide_True by eauto. rewrite (deref_some _ _ _ Hg). cbn [mbind outcome_bind].
  destruct (child_setParent_total t1 st1 p (inl f) (parent_path p) (folder_node g) Hl1) as (st3 & E & Hr).
  { by apply folder_at_view. }
  { right. exists g. split; [done|]. split; [done|]. intros [k Hk].
    apply (f_equal length) in Hk, Hx. rewrite !length_app in *. cbn in *. lia. }
  rewrite E. cbn. do 3 eexists. split; [done|].
  apply (linked_relink t1 st1 st3 p (inl f) (folder_node g)); [done|by apply folder_at_view|exact Hr|].
  right. exists (parent_path p), x, (head (inl g)). split; [done|].
  split; [by apply folder_at_view|by rewrite folder_node_head].
Qed.

Lemma removeFlat_total fullPath t st :
  wf_folder t -> linked t st ->
  exists r, removeFlat fullPath t st = Ret r /\ linked (fr_tree r) (fr_store r).
Proof.
  intros Hwf Hl. unfold removeFlat. set (p := path_of_string fullPath).
  rewrite getFolderPtr_find by done. case_decide as Hp; [|by eexists].
  destruct Hp as [f Hf]. rewrite (deref_some _ _ _ Hf). cbn [mbind outcome_bind].
  unfold findChildIt, findChild.
  destruct (omap_find (filename p) (childs f)) as [c|] eqn:Hc; [|by eexists].
  pose proof (child_view _ _ _ (proj2 (child_at_snoc _ _ t f c Hf) Hc)) as HE.
  destruct (child_setParent_total t st _ c [] None Hl HE) as (st2 & E & Hr); [by left|].
  rewrite E. cbn. eexists. split; [done|]. cbn.
  assert (linked t st2) as Hl2 by (eapply linked_relink; [exact Hl|exact HE|exact Hr|by left]).
  eapply (linked_del t st2 (parent_path p) (filename p) f); [done|done|done|done|by rewrite Hc].
Qed.

Lemma linked_moved t0 st0 t' st1 S c w dp dname gd h :
  let T := dp ++ [dname] in
  linked t0 st0 -> view t0 S = Some (head c) -> relinked c w st0 st1 ->
  view t' dp = Some gd -> w = hnode gd ->
  (forall q, view t' (S ++ q) = None) ->
  view t' T = Some h -> hnode h = child_node c -> hlink st1 h = Some w ->
  (forall x q, view t' (T ++ x :: q) = view t0 (S ++ x :: q)) ->
  (forall q, ~ S `prefix_of` q -> ~ T `prefix_of` q -> view t' q = view t0 q) ->
  linked t' st1.
Proof.
  intros T [Hb Hlk Hinj] HS [N Hhere O D] Hgd Ew HSn HT Ehc Hlh Hin Hout.
  assert (forall p g, view t' p = Some g ->
    (p = T /\ g = h) \/
    (exists x r, p = T ++ x :: r /\ view t0 (S ++ x :: r) = Some g) \/
    (~ S `prefix_of` p /\ ~ T `prefix_of` p /\ view t0 p = Some g)) as Hcases.
  { intros p g Hp. destruct (decide (S `prefix_of` p)) as [[r ->]|Hs]; [by rewrite HSn in Hp|].
    destruct (decide (T `prefix_of` p)) as [[[|x r] ->]|Ht].
    - left. rewrite app_nil_r in Hp |- *. split; [done|congruence].
    - right. left. exists x, r. split; [done|]. by rewrite <- Hin.
    - right. right. split_and!; try done. by rewrite <- Hout. }
  assert (forall p g w', view t0 p = Some g -> p <> S -> hlink st0 g = Some w' -> hlink st1 g = Some w') as Hkeep.
  { intros p g w' Hp Hne Hw. destruct (hlink_node _ _ _ Hw) as [i Hi].
    erewrite hlink_same; [exact Hw|exact Hi|]. apply O. intros E. apply Hne.
    apply (Hinj _ _ _ _ Hp HS). unfold child_node in E. congruence. }
  split.
  - eapply bounded_le; [exact Hb|lia|exact D].
  - intros p g Hp. destruct (Hcases _ _ Hp) as [[-> ->]|[(x & r & -> & Hv)|(Hs & Ht & Hv)]].
    + exists w. split; [done|]. right. exists dp, dname, gd. done.
    + destruct (Hlk _ _ Hv) as (w' & Hw & Hok). exists w'. split.
      { apply (Hkeep _ _ _ Hv); [|done]. intros E. apply (f_equal length) in E.
        rewrite length_app in E. cbn in E. lia. }
      destruct Hok as [->|(q & y & g' & E & Hg & ->)]; [by left|]. right.
      destruct (exists_last (l := x :: r)) as (r' & z & Er); [done|]. rewrite Er in E |- *.
      rewrite app_assoc in E. apply app_inj_tail in E as [<- <-].
      destruct r' as [|x' r'].
      * rewrite app_nil_r in Hg. rewrite HS in Hg. injection Hg as <-.
        exists T, z, h. split; [done|]. split; [done|]. by rewrite Ehc.
      * exists (T ++ x' :: r'), z, g'. split; [by rewrite app_assoc|]. split; [by rewrite Hin|done].
    + destruct (Hlk _ _ Hv) as (w' & Hw & Hok). exists w'. split.
      { apply (Hkeep _ _ _ Hv); [|done]. intros ->. by apply Hs. }
      destruct Hok as [->|(q & y & g' & -> & Hg & ->)]; [by left|]. right. exists q, y, g'.
      split; [done|]. split; [|done]. rewrite Hout; [done| |].
      * intros Hq. apply Hs. etransitivity; [exact Hq|]. by exists [y].
      * intros Hq. apply Ht. etransitivity; [exact Hq|]. by exists [y].
  - assert (forall p g, view t' p = Some g -> exists p0 g0, view t0 p0 = Some g0 /\ hnode g0 = hnode g /\
      ((exists r, p = T ++ r /\ p0 = S ++ r) \/ (~ S `prefix_of` p /\ p0 = p))) as Hmap.
    { intros p g Hp. destruct (Hcases _ _ Hp) as [[-> ->]|[(x & r & -> & Hv)|(Hs & Ht & Hv)]].
      - exists S, (head c). split_and!; [done|done|]. left. exists []. by rewrite !app_nil_r.
      - exists (S ++ x :: r), g. split_and!; [done|done|]. left. by exists (x :: r).
      - exists p, g. split_and!; [done|done|]. by right. }
    intros p q g g' Hp Hq E.
    destruct (Hmap _ _ Hp) as (p0 & g0 & Hp0 & Eg & Cp), (Hmap _ _ Hq) as (q0 & g0' & Hq0 & Eg' & Cq).
    assert (p0 = q0) as <- by (apply (Hinj p0 q0 g0 g0'); congruence).
    destruct Cp as [(r & -> & ->)|[Hs ->]], Cq as [(r' & -> & Er)|[Hs' Er]].
    + apply app_inv_head in Er as ->. done.
    + exfalso. apply Hs'. rewrite <- Er. by exists r.
    + exfalso. apply Hs. rewrite Er. by exists r'.
    + done.
Qed.

Lemma hnode_renamed n c : hnode (head (set_child_name n c)) = child_node c.
Proof. by destruct c as [[]|]. Qed.

Lemma hlink_renamed st n c : hlink st (head (set_child_name n c)) = hlink st (head c).
Proof. by destruct c as [[]|]. Qed.

Lemma moveInto_total sp sname dp dname hashes t st fs fd c :
  let S := sp ++ [sname] in let T := dp ++ [dname] in
  wf_folder t -> linked t st -> folder_at sp t = Some fs -> folder_at dp t = Some fd ->
  omap_find sname (childs fs) = Some c -> S <> T -> ~ S `prefix_of` dp -> ~ T `prefix_of` sp ->
  exists r, moveInto sp sname dp dname hashes t st = Ret r /\ linked (fr_tree r) (fr_store r).
Proof.
  intros S T Hwf Hl Hs Hd Hc HST HSd HTs.
  assert (forall q, ~ T `prefix_of` S ++ q) as HTS.
  { unfold S, T in *. intros q Hq. destruct (prefix_weak_total _ _ _ Hq (ex_intro _ q eq_refl)) as [HP|HP];
      apply prefix_snoc_cases in HP as [HP|HP]; congruence. }
  pose (t0 := update_at dp (fun fd => set_childs (omap_erase dname (childs fd)) fd) t).
  pose (st0 := match omap_find dname (childs fd) with Some o => drop_child o st | None => st end).
  assert (linked t0 st0) as Hl0 by (by eapply linked_del).
  destruct (view_del dp dname t fd Hd) as [_ Hout0]. fold t0 in Hout0.
  assert (~ T `prefix_of` dp) as HTd.
  { intros [k Hk]. apply (f_equal length) in Hk. unfold T in Hk. rewrite !length_app in Hk. cbn in Hk. lia. }
  destruct (folder_at_same_view t t0 dp fd Hd) as [fd0 Hd0]; [by apply Hout0|].
  assert (head (inl fd0) = head (inl fd)) as Hhd.
  { apply folder_at_view in Hd0. rewrite Hout0 in Hd0 by done. rewrite (folder_at_view _ _ _ Hd) in Hd0. congruence. }
  assert (view t0 S = Some (head c)) as HS0.
  { rewrite Hout0 by (rewrite <- (app_nil_r S); apply HTS). by apply child_view, (child_at_snoc _ _ _ fs). }
  destruct (child_setParent_total t0 st0 S c dp (folder_node fd) Hl0 HS0) as (st1 & E & Hr).
  { right. exists fd0. split; [done|]. split; [|done]. by rewrite <- !folder_node_head, Hhd. }
  assert (exists r, moveInto sp sname dp dname hashes t st = Ret r /\ fr_store r = st1) as (r & Er & <-).
  { unfold moveInto. rewrite (deref_some _ _ _ Hs), (deref_some _ _ _ Hd). cbn [mbind outcome_bind].
    rewrite Hc. fold S T. rewrite decide_False by (intros ->; by apply HSd). rewrite !decide_False by done.
    unfold findChildIt, findChild. fold st0. rewrite E. cbn. by eexists. }
  exists r. split; [done|].
  destruct (moveInto_spec _ _ _ _ _ _ _ _ _ _ _ Hwf Hs Hd Hc HST Er) as (_ & _ & _ & HSn & Hrest).
  rewrite decide_False in Hrest by done. destruct Hrest as [HT Hout].
  eapply (linked_moved t0 st0 (fr_tree r) (fr_store r) S c _ dp dname (head (inl fd)));
    [done|exact HS0|exact Hr| |by rewrite folder_node_head|exact HSn| |apply hnode_renamed| | |].
  - rewrite Hout by done. by apply folder_at_view.
  - pose proof (HT []) as H0. rewrite app_nil_r in H0. exact H0.
  - rewrite hlink_renamed. apply Hr.
  - intros x q. rewrite HT, rename_below. rewrite Hout0 by apply HTS.
    unfold view. rewrite child_at_app. unfold S. rewrite (proj2 (child_at_snoc _ _ _ fs c Hs) Hc). done.
  - intros q HSq HTq. rewrite Hout, Hout0; done.
Qed.

(** A move whose destination is not inside its source, nor its source inside its
    destination. *)
Definition apart (S T DP : path) : Prop := ~ S `prefix_of` DP /\ ~ (T `prefix_of` S /\ T <> S).

Lemma moveFlat_total src dst t st :
  let sp := path_of_string src in let dp := path_of_string dst in
  wf_folder t -> linked t st -> apart (entry_path sp) (entry_path dp) (parent_path dp) ->
  exists r, moveFlat src dst t st = Ret r /\ linked (fr_tree r) (fr_store r).
Proof.
  intros sp dp Hwf Hl [HSd HTS]. unfold moveFlat. fold sp dp.
  rewrite getFolderPtr_find by done. case_decide as Hp; [|by eexists].
  destruct Hp as [fs Hs]. rewrite (deref_some _ _ _ Hs). cbn [mbind outcome_bind].
  unfold findChildIt, findChild.
  destruct (omap_find (filename sp) (childs fs)) as [c|] eqn:Hc; [|by eexists].
  case_decide as Heq; [by eexists|].
  assert (entry_path sp <> entry_path dp) as Hne. { intros E. by apply Heq, symmetry, entry_path_inj. }
  assert (~ entry_path dp `prefix_of` parent_path sp) as HTs.
  { intros HP. apply HTS. split; [|congruence]. etransitivity; [exact HP|]. by eexists. }
  rewrite getFolderPtr_find by done. case_decide as Hd.
  { destruct Hd as [fd Hd]. by apply (moveInto_total _ _ _ _ _ _ _ fs fd c). }
  destruct (addFolder_total (parent_path dp) t st Hwf Hl) as (ok & t2 & st2 & Ea & Hl2).
  rewrite Ea. cbn [mbind outcome_bind].
  apply addFolder_path_inv in Ea as [Hwf2 Ha]; [|done]. destruct ok; cbn [negb]; [|by eexists].
  destruct Ha as ([fd Hfd] & Hca & _). rewrite (getFolderPtr_existing _ _ _ _ Hwf2 Hfd).
  destruct (created_along_child _ _ _ (entry_path sp) c Hca) as (c1 & HS1 & _).
  { by apply (child_at_snoc _ _ _ fs). }
  unfold entry_path in HS1. pose proof HS1 as HS1'. rewrite child_at_app in HS1'.
  destruct (child_at (parent_path sp) (inl t2)) as [[fs2|]|] eqn:Es; [|done..].
  apply folder_at_child in Es.
  apply (moveInto_total _ _ _ _ _ _ _ fs2 fd c1); try done.
  by apply (child_at_snoc (parent_path sp) (filename sp) t2).
Qed.

(** ** Where it starts *)

Lemma linked_newFolder n st :
  bounded st -> linked (newFolder n (st_next st)) (new_folder_node st).2.
Proof.
  intros Hb. split.
  - rewrite bounded_links in Hb |- *. intros i. unfold flink, llink. cbn. rewrite lookup_insert.
    case_decide; [lia|]. intros Hi%Hb. lia.
  - intros [|x p] h; [|done]. intros [= <-]. exists None. cbn. unfold flink. cbn.
    rewrite lookup_insert_eq. split; [done|by left].
  - by intros [|x p] [|y q].
Qed.

Lemma bounded_empty : bounded empty_store.
Proof. intros i [[? H]|[? H]]; done. Qed.

Lemma own_all_links l st i :
  flink (foldr own st l) i = flink st i /\ llink (foldr own st l) i = llink st i /\
  st_next (foldr own st l) = st_next st.
Proof. by induction l. Qed.

(** A copy of a tree shares its nodes. *)
Lemma linked_copyTree t st : linked t st -> linked (copyTree t st).1 (copyTree t st).2.
Proof.
  intros Hl. cbn. eapply (linked_shrink t st t _ []); [exact Hl| |done|by intros ? ? ? ? ? ?%not_elem_of_nil].
  split; [apply (own_all_links _ _ 0)| |].
  - intros i _. by destruct (own_all_links (nodes_of t) st i) as (-> & -> & _).
  - intros i. by destruct (own_all_links (nodes_of t) st i) as (-> & -> & _).
Qed.

(** ** The operations return *)

(** [removeFlat] on a well-formed tree whose nodes are linked returns, and keeps
    both.  It fails exactly when the entry does not exist, leaving the tree alone;
    otherwise it reports the hash of the entry when it is a file, removes the entry
    with everything below it, and leaves every other position as it was. *)
Lemma removeFlat_correct fullPath t st :
  wf_folder t -> linked t st ->
  exists r, removeFlat fullPath t st = Ret r /\ wf_folder (fr_tree r) /\ linked (fr_tree r) (fr_store r) /\
  let E := entry_path (path_of_string fullPath) in
  match child_at E (inl t) with
  | Some c =>
      fr_ok r = true /\ fr_hashes r = reported c /\
      (forall q, view (fr_tree r) (E ++ q) = None) /\
      (forall q, ~ E `prefix_of` q -> view (fr_tree r) q = view t q)
  | None => r = mkFlatResult false [] t st
  end.
Proof.
  intros Hwf Hl. destruct (removeFlat_total fullPath t st Hwf Hl) as (r & Hr & Hl').
  exists r. split; [done|]. destruct (removeFlat_spec _ _ _ _ Hwf Hr) as [Hwf' H].
  split; [done|]. split; [done|]. cbn zeta. destruct r as [[] hs t' st']; cbn in *.
  - destruct H as ((c & -> & ->) & H1 & H2). done.
  - by destruct H as (-> & -> & -> & ->).
Qed.

(** The effect of a move on a tree, when it is told that it was done. *)
Definition move_result (src dst : string) (t : Folder) (r : FlatResult) : Prop :=
  let sp := path_of_string src in let dp := path_of_string dst in
  let S := entry_path sp in let T := entry_path dp in
  if fr_ok r then
    is_Some (child_at S (inl t)) /\
    ((dp = sp /\ fr_tree r = t) \/
     exists t1, created_along (parent_path dp) t t1 /\
       (forall q, view (fr_tree r) (S ++ q) = None) /\
       view (fr_tree r) T = rename_head (filename dp) <$> view t S /\
       (forall x q, view (fr_tree r) (T ++ x :: q) = view t (S ++ x :: q)) /\
       (forall q, ~ S `prefix_of` q -> ~ T `prefix_of` q -> view (fr_tree r) q = view t1 q))
  else fr_tree r = t /\ (child_at S (inl t) = None \/ blocked (parent_path dp) t).

Lemma moveFlat_ancestor src dst t st :
  wf_folder t ->
  let S := entry_path (path_of_string src) in let T := entry_path (path_of_string dst) in
  is_Some (child_at S (inl t)) -> T `prefix_of` S -> T <> S -> moveFlat src dst t st = Stop UndefinedBehaviour.
Proof.
  intros Hwf S T. set (sp := path_of_string src) in *. set (dp := path_of_string dst) in *.
  intros [c Hc] HTS Hne. unfold moveFlat. fold sp dp. unfold S, T, entry_path in *.
  pose proof Hc as Hc'. rewrite child_at_app in Hc'.
  destruct (child_at (parent_path sp) (inl t)) as [[fs|]|] eqn:Es; [|done..].
  apply folder_at_child in Es.
  assert (parent_path dp ++ [filename dp] `prefix_of` parent_path sp) as HTs.
  { apply prefix_snoc_cases in HTS as [|]; done. }
  assert (exists fd, folder_at (parent_path dp) t = Some fd) as [fd Hd].
  { destruct HTs as [k Hk]. rewrite Hk in Es. apply folder_at_view in Es.
    rewrite <- app_assoc in Es. by eapply view_prefix. }
  rewrite getFolderPtr_find by done. rewrite decide_True by eauto.
  rewrite (deref_some _ _ _ Es). cbn [mbind outcome_bind]. unfold findChildIt, findChild.
  rewrite (proj1 (child_at_snoc _ _ t fs c Es) Hc). rewrite decide_False by congruence.
  rewrite getFolderPtr_find by done. rewrite decide_True by eauto.
  unfold moveInto. rewrite (deref_some _ _ _ Es), (deref_some _ _ _ Hd). cbn [mbind outcome_bind].
  rewrite (proj1 (child_at_snoc _ _ t fs c Es) Hc).
  pose proof (prefix_length _ _ HTs) as Hlen. rewrite length_app in Hlen. cbn in Hlen.
  rewrite decide_False; [|intros E; apply (f_equal length) in E; rewrite length_app in E; cbn in E; lia].
  rewrite decide_False; [|intros HP%prefix_length; rewrite length_app in HP; cbn in HP; lia].
  by rewrite decide_True.
Qed.

(** A missing source. *)
Lemma moveFlat_missing src dst t st :
  wf_folder t -> child_at (entry_path (path_of_string src)) (inl t) = None ->
  moveFlat src dst t st = Ret (mkFlatResult false [] t st).
Proof.
  intros Hwf Hc. unfold moveFlat. set (sp := path_of_string src) in *. unfold entry_path in Hc.
  rewrite child_at_app in Hc. rewrite getFolderPtr_find by done. case_decide as Hp; [|done].
  destruct Hp as [fs Hs]. rewrite (deref_some _ _ _ Hs). cbn [mbind outcome_bind].
  apply folder_at_child in Hs. rewrite Hs in Hc. cbn in Hc. unfold findChildIt, findChild.
  by destruct (omap_find (filename sp) (childs fs)).
Qed.

(** Nothing can be moved below a file. *)
Lemma moveFlat_below_file src dst t st g :
  let S := entry_path (path_of_string src) in let DP := parent_path (path_of_string dst) in
  wf_folder t -> child_at S (inl t) = Some (inr g) -> S `prefix_of` DP ->
  moveFlat src dst t st = Ret (mkFlatResult false [file_hash g] t st) /\ blocked DP t.
Proof.
  intros S DP Hwf Hg Hpre. set (sp := path_of_string src) in *. set (dp := path_of_string dst) in *.
  assert (dp <> sp) as Hne.
  { intros E. apply prefix_length in Hpre. unfold S, DP, entry_path in Hpre. rewrite E, length_app in Hpre.
    cbn in Hpre. lia. }
  assert (blocked DP t) as Hb by (exists S, g; split; [done|]; by apply (child_view t S (inr g))). split; [|done].
  assert (forall f, folder_at DP t <> Some f) as Hnone.
  { intros f Hf. by apply (blocked_no_folder _ _ _ Hf). }
  unfold moveFlat. fold sp dp. unfold S, entry_path in Hg. pose proof Hg as Hg'. rewrite child_at_app in Hg'.
  destruct (child_at (parent_path sp) (inl t)) as [[fs|]|] eqn:Es; [|done..]. apply folder_at_child in Es.
  rewrite getFolderPtr_find by done. rewrite decide_True by eauto.
  rewrite (deref_some _ _ _ Es). cbn [mbind outcome_bind]. unfold findChildIt, findChild.
  rewrite (proj1 (child_at_snoc _ _ t fs _ Es) Hg). rewrite decide_False by done.
  rewrite getFolderPtr_find by done. fold DP. rewrite decide_False by (intros [f Hf]; by apply (Hnone f)).
  unfold addFolder_path. destruct (getFolderPtr DP true t st) as [[ptr t1] st1] eqn:Hp.
  apply getFolderPtr_create in Hp as [_ Hp]; [|done]. destruct ptr as [q|].
  - by destruct Hp as (_ & _ & _ & []).
  - by destruct Hp as (-> & -> & _).
Qed.

(** A move whose destination is not inside the folder it moves, and which replaces
    no folder that its source is in. *)
Definition moveable (t : Folder) (S T DP : path) : Prop :=
  (forall f, child_at S (inl t) = Some (inl f) -> ~ S `prefix_of` DP) /\ ~ (T `prefix_of` S /\ T <> S).

Lemma moveFlat_moveable src dst t st :
  wf_folder t -> linked t st ->
  let sp := path_of_string src in let dp := path_of_string dst in
  moveable t (entry_path sp) (entry_path dp) (parent_path dp) ->
  exists r, moveFlat src dst t st = Ret r /\ wf_folder (fr_tree r) /\ linked (fr_tree r) (fr_store r) /\
    move_result src dst t r.
Proof.
  intros Hwf Hl sp dp [Hm HTS].
  destruct (child_at (entry_path sp) (inl t)) as [c|] eqn:Hc.
  2: { rewrite moveFlat_missing by done. eexists. split; [done|]. split; [done|]. split; [done|].
       split; [done|by left]. }
  destruct (decide (entry_path sp `prefix_of` parent_path dp)) as [Hpre|Hpre].
  { destruct c as [f|g]; [by destruct (Hm f)|].
    destruct (moveFlat_below_file src dst t st g Hwf Hc Hpre) as [-> Hb].
    eexists. split; [done|]. split; [done|]. split; [done|]. split; [done|by right]. }
  destruct (moveFlat_total src dst t st Hwf Hl) as (r & Hr & Hl'); [by split|].
  exists r. split; [done|]. destruct (moveFlat_spec _ _ _ _ _ Hwf Hr) as [Hwf' H].
  split; [done|]. split; [done|]. unfold move_result. fold sp dp. fold sp dp in H.
  destruct (fr_ok r); [|done].
  destruct H as [Hc' H]. split; [done|]. destruct H as [|(t1 & Hca & HSn & H)]; [by left|].
  right. exists t1. rewrite decide_False in H by exact Hpre.
  destruct H as (H1 & H2 & H3). by split_and!.
Qed.

(** C22: [moveFlat] on a well-formed tree whose nodes are linked.  A move over an
    ancestor of the source uses a freed folder.  Any other move whose destination is
    not inside the folder that is moved returns, and keeps the tree well formed and linked.  It
    fails, leaving the tree alone, only when the source does not exist or the
    destination folder cannot be created; it changes nothing when the two paths are
    the same; otherwise the missing folders of the destination are created, the
    whole subtree is, renamed, at the destination (replacing what was there) and no
    longer at the source, and no other position changes. *)
Theorem moveFlat_correct src dst t st :
  wf_folder t -> linked t st ->
  let sp := path_of_string src in let dp := path_of_string dst in
  let S := entry_path sp in let T := entry_path dp in
  (is_Some (child_at S (inl t)) -> T `prefix_of` S -> T <> S ->
     moveFlat src dst t st = Stop UndefinedBehaviour) /\
  (moveable t S T (parent_path dp) ->
     exists r, moveFlat src dst t st = Ret r /\ wf_folder (fr_tree r) /\ linked (fr_tree r) (fr_store r) /\
       move_result src dst t r).
Proof. intros Hwf Hl. split; [by apply moveFlat_ancestor | by apply moveFlat_moveable]. Qed.

(** ** Witnesses *)

Lemma after_addFile_linked d f h ts :
  wf_folder ts.1 -> linked ts.1 ts.2 ->
  wf_folder (after_addFile d f h ts).1 /\ linked (after_addFile d f h ts).1 (after_addFile d f h ts).2.
Proof.
  intros Hwf Hl. unfold after_addFile.
  destruct (addFile_spec d f h 10 ts.1 ts.2 Hwf) as (ok & t' & st' & E & Hwf' & _). rewrite E.
  cbn. split; [done|]. by apply (addFile_linked _ _ _ _ _ _ _ _ _ Hwf Hl E).
Qed.

Lemma after_addFolder_linked p ts :
  wf_folder ts.1 -> linked ts.1 ts.2 ->
  wf_folder (after_addFolder p ts).1 /\ linked (after_addFolder p ts).1 (after_addFolder p ts).2.
Proof.
  intros Hwf Hl. unfold after_addFolder.
  destruct (addFolder_total (path_of_string p) ts.1 ts.2 Hwf Hl) as (ok & t' & st' & E & Hl').
  unfold addFolder. rewrite E. split; [|done]. by apply addFolder_path_inv in E as [? _].
Qed.

Lemma linked_sample : linked sample.1 sample.2.
Proof.
  unfold sample.
  assert (wf_folder root0 /\ linked root0 store0) as [H1 H2].
  { split; [apply wf_newFolder|]. apply (linked_newFolder "" empty_store bounded_empty). }
  destruct (after_addFile_linked "docs/img" "x.png" 5 (root0, store0) H1 H2) as [H3 H4].
  destruct (after_addFile_linked "docs" "readme" 7 _ H3 H4) as [H5 H6].
  by destruct (after_addFolder_linked "src" _ H5 H6) as [_ ?].
Qed.

Lemma moveFlat_correct_witness :
  exists r t1, moveFlat "docs/img" "src/pics/img2" sample.1 sample.2 = Ret r /\ fr_ok r = true /\
    created_along ["src"; "pics"] sample.1 t1 /\
    view (fr_tree r) ["src"; "pics"; "img2"; "x.png"] = view sample.1 ["docs"; "img"; "x.png"].
Proof.
  destruct (moveFlat_correct "docs/img" "src/pics/img2" sample.1 sample.2 wf_sample linked_sample) as [_ H].
  destruct H as (r & E & _ & _ & H).
  { split; [intros f _|]; vm_compute; [intros [k Hk]; discriminate Hk|intros [[k Hk] _]; discriminate Hk]. }
  pose proof E as E'. vm_compute in E'. injection E' as <-.
  destruct H as [_ [[E1 _]|(t1 & Hc & _ & _ & H & _)]]; [vm_compute in E1; discriminate E1|].
  eexists _, t1. split; [exact E|]. split; [reflexivity|]. split; [exact Hc|]. exact (H "x.png" []).
Defined.
