(* ===== verification/RcptMessage.v ===== *)
(** * Receipt messages ([include/drive/RcptMessage.h])

    A receipt is a byte vector: channel id, client key, replicator key (32
    bytes each), the size to be downloaded (8 bytes, little endian as on the
    hosts the code runs on) and the client's signature (64 bytes).  Keys are
    numbers read big endian, so that the order of [std::array<uint8_t,32>] is
    the order of [Z]. *)

From S2P Require Import Prelude.

(** ** Bytes of a number *)

(** The [n] low bytes, least significant first. *)
Fixpoint le_bytes (n : nat) (z : Z) : list Z :=
  match n with
  | O => []
  | S n' => z mod 256 :: le_bytes n' (z / 256)
  end.

Fixpoint of_le (bs : list Z) : Z :=
  match bs with
  | [] => 0
  | b :: bs' => b + 256 * of_le bs'
  end.

Definition be_bytes (n : nat) (z : Z) : list Z := rev (le_bytes n z).
Definition of_be (bs : list Z) : Z := of_le (rev bs).

Lemma length_le_bytes n z : length (le_bytes n z) = n.
Proof. revert z. induction n; intros; cbn; auto. Qed.

Lemma length_be_bytes n z : length (be_bytes n z) = n.
Proof. unfold be_bytes. by rewrite length_rev, length_le_bytes. Qed.

Lemma of_le_bytes n z : 0 <= z < 256 ^ Z.of_nat n -> of_le (le_bytes n z) = z.
Proof.
  revert z. induction n as [|n IH]; intros z Hz; cbn [le_bytes of_le].
  { cbn in Hz. lia. }
  rewrite Nat2Z.inj_succ, Z.pow_succ_r in Hz by lia.
  rewrite IH; [pose proof (Z.div_mod z 256); lia|].
  split; [apply Z.div_pos; lia|]. apply Z.div_lt_upper_bound; lia.
Qed.

Lemma of_be_bytes n z : 0 <= z < 256 ^ Z.of_nat n -> of_be (be_bytes n z) = z.
Proof. intros. unfold of_be, be_bytes. by rewrite rev_involutive, of_le_bytes. Qed.

Definition is_bytes (bs : list Z) : Prop := Forall (fun b => 0 <= b < 256) bs.

Lemma le_bytes_of_le bs : is_bytes bs -> le_bytes (length bs) (of_le bs) = bs.
Proof.
  induction 1 as [|b bs Hb _ IH]; cbn [length le_bytes of_le]; [done|].
  rewrite Z.mul_comm, Z.mod_add, Z.mod_small by lia.
  rewrite Z.div_add, Z.div_small, Z.add_0_l, IH by lia. done.
Qed.

Lemma is_bytes_rev bs : is_bytes bs -> is_bytes (rev bs).
Proof. apply List.Forall_rev. Qed.

Lemma le_bytes_is_bytes n z : is_bytes (le_bytes n z).
Proof.
  revert z. induction n; intros z; [constructor|]. constructor; [by apply Z.mod_pos_bound | apply IHn].
Qed.

Lemma be_bytes_is_bytes n z : is_bytes (be_bytes n z).
Proof. apply is_bytes_rev, le_bytes_is_bytes. Qed.

Lemma be_bytes_of_be bs : is_bytes bs -> be_bytes (length bs) (of_be bs) = bs.
Proof.
  intros H. unfold be_bytes, of_be.
  pose proof (le_bytes_of_le (rev bs) (is_bytes_rev _ H)) as E.
  rewrite length_rev in E. by rewrite E, rev_involutive.
Qed.

(** [len] bytes starting at [off]. *)
Definition slice (off len : nat) (bs : list Z) : list Z := take len (drop off bs).

(** ** Messages *)

Notation RcptMessage := (list Z) (only parsing).

(** The five-argument constructor. *)
Definition mkRcptMessage (dnChannelId clientKey replicatorKey downloadedSize signature : Z) : RcptMessage :=
  be_bytes 32 dnChannelId ++ be_bytes 32 clientKey ++ be_bytes 32 replicatorKey ++
  le_bytes 8 downloadedSize ++ be_bytes 64 signature.

Definition isValidSize (msg : RcptMessage) : bool := Nat.eqb (length msg) (32 + 32 + 32 + 8 + 64).

Definition msg_channelId (msg : RcptMessage) : Z := of_be (slice 0 32 msg).
Definition msg_clientKey (msg : RcptMessage) : Z := of_be (slice 32 32 msg).
Definition msg_replicatorKey (msg : RcptMessage) : Z := of_be (slice 64 32 msg).
Definition msg_downloadedSize (msg : RcptMessage) : Z :=
  match msg with [] => 0 | _ => of_le (slice 96 8 msg) end.
Definition msg_signature (msg : RcptMessage) : Z := of_be (slice 104 64 msg).

(** The bytes that the client signs. *)
Definition msg_signed (msg : RcptMessage) : list Z :=
  slice 0 32 msg ++ slice 32 32 msg ++ slice 64 32 msg ++ slice 96 8 msg.

Definition is_key (z : Z) : Prop := 0 <= z < 256 ^ 32.
Definition is_sig (z : Z) : Prop := 0 <= z < 256 ^ 64.

Lemma slice_mid a b c off len :
  length a = off -> length b = len -> slice off len (a ++ b ++ c) = b.
Proof. intros <- <-. unfold slice. by rewrite drop_app_length, take_app_length. Qed.

(** The constructor lays the fields out so that every accessor reads its
    field back, the signed bytes are the four fields before the signature, and
    the size is the valid one. *)
Lemma rcpt_roundtrip ch cl rp size sg :
  is_key ch -> is_key cl -> is_key rp -> is_u64 size -> is_sig sg ->
  let msg := mkRcptMessage ch cl rp size sg in
  isValidSize msg = true /\ msg_channelId msg = ch /\ msg_clientKey msg = cl /\
  msg_replicatorKey msg = rp /\ msg_downloadedSize msg = size /\ msg_signature msg = sg /\
  msg_signed msg = be_bytes 32 ch ++ be_bytes 32 cl ++ be_bytes 32 rp ++ le_bytes 8 size.
Proof.
  intros Hch Hcl Hrp Hsize Hsg msg.
  assert (slice 0 32 msg = be_bytes 32 ch) as E1.
  { unfold msg, mkRcptMessage. by apply (slice_mid []); rewrite ?length_be_bytes. }
  assert (slice 32 32 msg = be_bytes 32 cl) as E2.
  { unfold msg, mkRcptMessage. by apply slice_mid; rewrite ?length_be_bytes. }
  assert (slice 64 32 msg = be_bytes 32 rp) as E3.
  { unfold msg, mkRcptMessage. rewrite app_assoc.
    by apply slice_mid; rewrite ?length_app, ?length_be_bytes. }
  assert (slice 96 8 msg = le_bytes 8 size) as E4.
  { unfold msg, mkRcptMessage. rewrite !app_assoc, <- app_assoc.
    by apply slice_mid; rewrite ?length_app, ?length_be_bytes, ?length_le_bytes. }
  assert (slice 104 64 msg = be_bytes 64 sg) as E5.
  { unfold msg, mkRcptMessage. rewrite !app_assoc, <- (app_nil_r (be_bytes 64 sg)).
    by apply slice_mid; rewrite ?length_app, ?length_be_bytes, ?length_le_bytes. }
  unfold msg_channelId, msg_clientKey, msg_replicatorKey, msg_signature, msg_signed.
  rewrite E1, E2, E3, E4, E5, !of_be_bytes by done. split_and!; try done.
  unfold msg_downloadedSize. destruct msg eqn:Em; [|rewrite E4; by apply of_le_bytes].
  apply (f_equal length) in Em. unfold msg, mkRcptMessage in Em.
  rewrite !length_app, !length_be_bytes in Em. discriminate.
Qed.

Lemma rcpt_roundtrip_witness :
  let msg := mkRcptMessage 1 2 3 1000 77 in
  isValidSize msg = true /\ msg_downloadedSize msg = 1000 /\ msg_replicatorKey msg = 3.
Proof.
  destruct (rcpt_roundtrip 1 2 3 1000 77) as (H1 & _ & _ & H4 & H5 & _);
    [vm_compute; split; congruence ..|].
  split; [exact H1 | split; [exact H5 | exact H4]].
Defined.
