(* ===== verification/DownloadChannels.v ===== *)
(** * Download channels ([include/drive/Replicator.h], [src/drive/DownloadLimiter.h])

    A replicator keeps, per download channel, what was sent to each client, the
    receipts of every (replicator, client) pair, and the running total of the
    receipts, which must stay within the prepaid size.  This file holds the
    data and the operations of [DownloadLimiter]; the callers hold the session
    thread, so every operation is a step on the state.  Messages a step sends
    are returned in order.  [crypto::Verify] and the random source are
    parameters. *)

From S2P Require Import Prelude RcptMessage.

(** ** Receipt sizes of one replicator ([ReplicatorUploadRequestInfo]) *)

Record ReceiptSizes := mkReceiptSizes { m_acceptedSize : Z; m_notAcceptedSize : Z }.
Definition noReceipts : ReceiptSizes := mkReceiptSizes 0 0.

Abbreviation UploadInfo := (gmap Z ReceiptSizes).

(** [m_clientMap[clientKey]]: a missing entry is inserted. *)
Definition client_at (c : Z) (m : UploadInfo) : ReceiptSizes := default noReceipts (m !! c).
Definition touch_client (c : Z) (m : UploadInfo) : UploadInfo := <[c := client_at c m]> m.

Definition lastAcceptedReceiptSize (c : Z) (m : UploadInfo) : Z * UploadInfo :=
  (m_acceptedSize (client_at c m), touch_client c m).

Definition max_size (r : ReceiptSizes) : Z :=
  if m_acceptedSize r <? m_notAcceptedSize r then m_notAcceptedSize r else m_acceptedSize r.

Definition maxReceiptSize (c : Z) (m : UploadInfo) : Z * UploadInfo :=
  (max_size (client_at c m), touch_client c m).

Definition totalAcceptedReceiptSize (m : UploadInfo) : Z := u64 (map_sum m_acceptedSize m).
Definition totalReceiptSize (m : UploadInfo) : Z := u64 (map_sum max_size m).

Definition saveReceiptSize (c tobeUploadedSize : Z) (m : UploadInfo) : Outcome UploadInfo :=
  match m !! c with
  | None => Stop AssertFailure
  | Some r =>
      guard_assert (m_acceptedSize r <=? tobeUploadedSize)
        (Ret (<[c := mkReceiptSizes tobeUploadedSize (m_notAcceptedSize r)]> m))
  end.

Definition saveNotAcceptedReceiptSize (c size : Z) (m : UploadInfo) : Outcome UploadInfo :=
  match m !! c with
  | None => Stop AssertFailure
  | Some r =>
      Ret (if m_notAcceptedSize r <? size
           then <[c := mkReceiptSizes (m_acceptedSize r) size]> m else m)
  end.

Definition fix_cell (r : ReceiptSizes) : ReceiptSizes :=
  if m_acceptedSize r <? m_notAcceptedSize r then mkReceiptSizes (m_notAcceptedSize r) 0 else r.

Definition tryFixReceiptSize (prepaidSize : Z) (m : UploadInfo) : UploadInfo :=
  if totalReceiptSize m <=? prepaidSize then fix_cell <$> m else m.

(** ** Channels *)

Record DownloadOpinion := mkDownloadOpinion {
  do_replicatorKey : Z; do_downloadLayout : list (Z * Z); do_signature : Z }.

(** A timer is present or absent ([operator bool]); the creation time is in
    microseconds. *)
Record DownloadOpinionMapValue := mkOpinionMapValue {
  om_eventHash : Z;
  om_downloadChannelId : Z;
  om_opinions : gmap Z DownloadOpinion;
  om_modifyApproveTransactionSent : bool;
  om_approveTransactionReceived : bool;
  om_timer : bool;
  om_opinionShareTimer : bool;
  om_creationTime : Z }.

Record DownloadChannelInfo := mkChannel {
  m_isSynchronizing : bool;
  m_prepaidDownloadSize : Z;
  m_totalReceiptsSize : Z;
  m_sentClientMap : gmap Z Z;
  m_replicatorUploadRequestMap : gmap Z UploadInfo;
  m_driveKey : Z;
  m_dnReplicatorShard : list Z;
  m_downloadOpinionMap : gmap Z DownloadOpinionMapValue;
  m_clientReceiptMap : gmap Z (gmap Z RcptMessage);
  m_isClosed : bool }.

Definition set_prepaid (v : Z) (ch : DownloadChannelInfo) : DownloadChannelInfo :=
  mkChannel (m_isSynchronizing ch) v (m_totalReceiptsSize ch) (m_sentClientMap ch)
    (m_replicatorUploadRequestMap ch) (m_driveKey ch) (m_dnReplicatorShard ch)
    (m_downloadOpinionMap ch) (m_clientReceiptMap ch) (m_isClosed ch).
Definition set_total (v : Z) (ch : DownloadChannelInfo) : DownloadChannelInfo :=
  mkChannel (m_isSynchronizing ch) (m_prepaidDownloadSize ch) v (m_sentClientMap ch)
    (m_replicatorUploadRequestMap ch) (m_driveKey ch) (m_dnReplicatorShard ch)
    (m_downloadOpinionMap ch) (m_clientReceiptMap ch) (m_isClosed ch).
Definition set_sent (v : gmap Z Z) (ch : DownloadChannelInfo) : DownloadChannelInfo :=
  mkChannel (m_isSynchronizing ch) (m_prepaidDownloadSize ch) (m_totalReceiptsSize ch) v
    (m_replicatorUploadRequestMap ch) (m_driveKey ch) (m_dnReplicatorShard ch)
    (m_downloadOpinionMap ch) (m_clientReceiptMap ch) (m_isClosed ch).
Definition set_uploads (v : gmap Z UploadInfo) (ch : DownloadChannelInfo) : DownloadChannelInfo :=
  mkChannel (m_isSynchronizing ch) (m_prepaidDownloadSize ch) (m_totalReceiptsSize ch)
    (m_sentClientMap ch) v (m_driveKey ch) (m_dnReplicatorShard ch)
    (m_downloadOpinionMap ch) (m_clientReceiptMap ch) (m_isClosed ch).
Definition set_opinions (v : gmap Z DownloadOpinionMapValue) (ch : DownloadChannelInfo) : DownloadChannelInfo :=
  mkChannel (m_isSynchronizing ch) (m_prepaidDownloadSize ch) (m_totalReceiptsSize ch)
    (m_sentClientMap ch) (m_replicatorUploadRequestMap ch) (m_driveKey ch) (m_dnReplicatorShard ch)
    v (m_clientReceiptMap ch) (m_isClosed ch).
Definition set_receipts (v : gmap Z (gmap Z RcptMessage)) (ch : DownloadChannelInfo) : DownloadChannelInfo :=
  mkChannel (m_isSynchronizing ch) (m_prepaidDownloadSize ch) (m_totalReceiptsSize ch)
    (m_sentClientMap ch) (m_replicatorUploadRequestMap ch) (m_driveKey ch) (m_dnReplicatorShard ch)
    (m_downloadOpinionMap ch) v (m_isClosed ch).
Definition set_shard (v : list Z) (ch : DownloadChannelInfo) : DownloadChannelInfo :=
  mkChannel (m_isSynchronizing ch) (m_prepaidDownloadSize ch) (m_totalReceiptsSize ch)
    (m_sentClientMap ch) (m_replicatorUploadRequestMap ch) (m_driveKey ch) v
    (m_downloadOpinionMap ch) (m_clientReceiptMap ch) (m_isClosed ch).

(** The copy constructor of [DownloadOpinionMapValue]: timers are not copied
    and the creation time is the time of the copy. *)
Definition copyOpinionMapValue (now : Z) (v : DownloadOpinionMapValue) : DownloadOpinionMapValue :=
  mkOpinionMapValue (om_eventHash v) (om_downloadChannelId v) (om_opinions v)
    (om_modifyApproveTransactionSent v) (om_approveTransactionReceived v) false false now.

(** ** The limiter *)

(** The part of a [FlatDrive] the limiter asks about. *)
Record ModifyTraffic := mkTraffic { m_receivedSize : Z; m_requestedSize : Z }.
Definition noTraffic : ModifyTraffic := mkTraffic 0 0.

Record DriveView := mkDriveView {
  dv_driveOwner : Z;
  dv_rootHash : Z;
  dv_blockedReplicators : list Z;
  dv_taskIsModification : bool;
  dv_deferredModificationRequests : nat;
  dv_modifyRecipientShard : list Z;
  dv_modifyTrafficMap : gmap Z ModifyTraffic }.

Definition set_traffic (v : gmap Z ModifyTraffic) (d : DriveView) : DriveView :=
  mkDriveView (dv_driveOwner d) (dv_rootHash d) (dv_blockedReplicators d) (dv_taskIsModification d)
    (dv_deferredModificationRequests d) (dv_modifyRecipientShard d) v.

(** [DefaultFlatDrive::acceptConnectionFromReplicator]. *)
Definition acceptConnectionFromReplicator (d : DriveView) (replicatorKey : Z) : bool :=
  let blocked :=
    bool_decide (dv_blockedReplicators d <> []) &&
    negb (dv_taskIsModification d || Nat.ltb 0 (dv_deferredModificationRequests d)) &&
    bool_decide (replicatorKey ∈ dv_blockedReplicators d) in
  if blocked then false else bool_decide (replicatorKey ∈ dv_modifyRecipientShard d).

(** [DefaultFlatDrive::acceptConnectionFromClient]. *)
Definition acceptConnectionFromClient (d : DriveView) (clientKey fileHash : Z) : bool :=
  (clientKey =? dv_driveOwner d) && (fileHash =? dv_rootHash d).

Record DownloadLimiter := mkLimiter {
  dl_publicKey : Z;
  dl_dnChannelMap : gmap Z DownloadChannelInfo;
  dl_dnChannelMapBackup : gmap Z DownloadChannelInfo;
  dl_receiptLimit : Z;
  dl_driveMap : gmap Z DriveView;
  dl_isDestructing : bool;
  dl_sessionIsEnding : bool }.

Definition set_channels (v : gmap Z DownloadChannelInfo) (s : DownloadLimiter) : DownloadLimiter :=
  mkLimiter (dl_publicKey s) v (dl_dnChannelMapBackup s) (dl_receiptLimit s) (dl_driveMap s)
    (dl_isDestructing s) (dl_sessionIsEnding s).
Definition set_backup (v : gmap Z DownloadChannelInfo) (s : DownloadLimiter) : DownloadLimiter :=
  mkLimiter (dl_publicKey s) (dl_dnChannelMap s) v (dl_receiptLimit s) (dl_driveMap s)
    (dl_isDestructing s) (dl_sessionIsEnding s).
Definition set_drives (v : gmap Z DriveView) (s : DownloadLimiter) : DownloadLimiter :=
  mkLimiter (dl_publicKey s) (dl_dnChannelMap s) (dl_dnChannelMapBackup s) (dl_receiptLimit s) v
    (dl_isDestructing s) (dl_sessionIsEnding s).
Definition setReceiptLimit (v : Z) (s : DownloadLimiter) : DownloadLimiter :=
  mkLimiter (dl_publicKey s) (dl_dnChannelMap s) (dl_dnChannelMapBackup s) v (dl_driveMap s)
    (dl_isDestructing s) (dl_sessionIsEnding s).
Definition put_channel (id : Z) (ch : DownloadChannelInfo) (s : DownloadLimiter) : DownloadLimiter :=
  set_channels (<[id := ch]> (dl_dnChannelMap s)) s.

(** [lt::errors::error_code_enum], the values this class uses. *)
Inductive ErrorCode :=
  | no_error | sirius_no_channel | sirius_no_client_in_channel | sirius_bad_signature
  | sirius_channel_ran_out | sirius_receipt_size_too_small.

(** [lt::connection_status]. *)
Inductive ConnectionStatus := REJECTED | LIMITED | UNLIMITED.

#[export] Instance ErrorCode_eq_dec : EqDecision ErrorCode.
Proof. solve_decision. Defined.
#[export] Instance ConnectionStatus_eq_dec : EqDecision ConnectionStatus.
Proof. solve_decision. Defined.

(** [checkDownloadLimit]; the code leaves [outErrorCode] alone ([None]) when
    it returns before writing it. *)
Definition checkDownloadLimit (peerKey downloadChannelId : Z) (s : DownloadLimiter)
    : bool * option ErrorCode * DownloadLimiter :=
  if dl_isDestructing s then (false, None, s)
  else if dl_sessionIsEnding s then (false, Some no_error, s)
  else
    match dl_dnChannelMap s !! downloadChannelId with
    | None => (false, Some sirius_no_channel, s)
    | Some ch =>
        if m_isSynchronizing ch then (false, Some sirius_no_channel, s)
        else
          let sentSize := default 0 (m_sentClientMap ch !! peerKey) in
          let '(receiptSize, s') :=
            match m_replicatorUploadRequestMap ch !! dl_publicKey s with
            | None => (0, s)
            | Some info =>
                let '(sz, info') := lastAcceptedReceiptSize peerKey info in
                (sz, put_channel downloadChannelId
                       (set_uploads (<[dl_publicKey s := info']> (m_replicatorUploadRequestMap ch)) ch) s)
            end in
          if u64_add receiptSize (dl_receiptLimit s) <? sentSize
          then (false, Some sirius_receipt_size_too_small, s')
          else (true, Some no_error, s')
    end.

(** The new channel, with what the backup has of it. *)
Definition insertChannelInfo (channelId prepaidDownloadSize driveKey : Z) (replicatorsList clients : list Z)
    (willBeSyncronized : bool) (now : Z) (s : DownloadLimiter) : DownloadLimiter :=
  let ch := mkChannel willBeSyncronized prepaidDownloadSize 0
    (foldl (fun m c => match m !! c with Some _ => m | None => <[c := 0]> m end) ∅ clients)
    (foldl (fun m r => if decide (r = dl_publicKey s) then m
                       else match m !! r with Some _ => m | None => <[r := ∅]> m end)
       ∅ replicatorsList)
    driveKey replicatorsList ∅ ∅ false in
  match dl_dnChannelMapBackup s !! channelId with
  | None => put_channel channelId ch s
  | Some b =>
      let ch' := set_opinions (copyOpinionMapValue now <$> m_downloadOpinionMap b)
                   (set_uploads (m_replicatorUploadRequestMap b)
                      (set_sent (m_sentClientMap b) ch)) in
      set_backup (delete channelId (dl_dnChannelMapBackup s)) (put_channel channelId ch' s)
  end.

(** [addChannelInfo]; a channel that exists is an error. *)
Definition addChannelInfo (channelId prepaidDownloadSize driveKey : Z) (replicatorsList clients : list Z)
    (willBeSyncronized : bool) (now : Z) (s : DownloadLimiter) : Outcome DownloadLimiter :=
  if dl_isDestructing s then Ret s
  else
    match dl_dnChannelMap s !! channelId with
    | Some _ => log_err (Ret s)
    | None =>
        Ret (insertChannelInfo channelId prepaidDownloadSize driveKey replicatorsList clients willBeSyncronized now s)
    end.

(** [increaseChannelSize]; an unknown channel is an error. *)
Definition increaseChannelSize (channelId prepaidDownloadSize : Z) (s : DownloadLimiter) : Outcome DownloadLimiter :=
  if dl_isDestructing s then Ret s
  else
    match dl_dnChannelMap s !! channelId with
    | None => log_err (Ret s)
    | Some ch =>
        Ret (put_channel channelId
               (set_prepaid (u64_add (m_prepaidDownloadSize ch) prepaidDownloadSize) ch) s)
    end.

(** [removeChannelInfo]. *)
Definition removeChannelInfo (channelId : Z) (s : DownloadLimiter) : DownloadLimiter :=
  if dl_isDestructing s then s
  else set_channels (delete channelId (dl_dnChannelMap s)) s.

(** The handler of [asyncSetChanelShard] ([Replicator.cpp]); an unknown channel is an error. *)
Definition setChanelShard (channelId : Z) (replicatorKeys : list Z) (s : DownloadLimiter) : Outcome DownloadLimiter :=
  match dl_dnChannelMap s !! channelId with
  | None => log_err (Ret s)
  | Some ch => Ret (put_channel channelId (set_shard replicatorKeys ch) s)
  end.

(** [acceptClientConnection]. *)
Definition acceptClientConnection (channelId peerKey driveKey fileHash : Z) (s : DownloadLimiter)
    : ConnectionStatus * option ErrorCode :=
  if dl_isDestructing s then (REJECTED, None)
  else if dl_sessionIsEnding s then (REJECTED, Some no_error)
  else
    match dl_driveMap s !! driveKey with
    | Some d =>
        if acceptConnectionFromClient d peerKey fileHash then (UNLIMITED, Some no_error)
        else match dl_dnChannelMap s !! channelId with
             | None => (REJECTED, Some sirius_no_channel)
             | Some ch =>
                 match m_sentClientMap ch !! peerKey with
                 | None => (REJECTED, Some sirius_no_client_in_channel)
                 | Some _ =>
                     if m_totalReceiptsSize ch <? m_prepaidDownloadSize ch
                     then (LIMITED, Some no_error) else (REJECTED, Some sirius_channel_ran_out)
                 end
             end
    | None =>
        match dl_dnChannelMap s !! channelId with
        | None => (REJECTED, Some sirius_no_channel)
        | Some ch =>
            match m_sentClientMap ch !! peerKey with
            | None => (REJECTED, Some sirius_no_client_in_channel)
            | Some _ =>
                if m_totalReceiptsSize ch <? m_prepaidDownloadSize ch
                then (LIMITED, Some no_error) else (REJECTED, Some sirius_channel_ran_out)
            end
        end
    end.

(** [acceptReplicatorConnection]. *)
Definition acceptReplicatorConnection (driveKey peerKey : Z) (s : DownloadLimiter) : ConnectionStatus :=
  if dl_isDestructing s then REJECTED
  else if dl_sessionIsEnding s then REJECTED
  else match dl_driveMap s !! driveKey with
       | Some d => if acceptConnectionFromReplicator d peerKey then UNLIMITED else REJECTED
       | None => REJECTED
       end.

(** [onPieceRequestReceivedFromReplicator]. *)
Definition onPieceRequestReceivedFromReplicator (driveKey receiverPublicKey pieceSize : Z)
    (s : DownloadLimiter) : bool * DownloadLimiter :=
  if dl_isDestructing s then (false, s)
  else if dl_sessionIsEnding s then (false, s)
  else
    match dl_driveMap s !! driveKey with
    | None => (true, s)
    | Some d =>
        let t := default noTraffic (dv_modifyTrafficMap d !! receiverPublicKey) in
        let t' := mkTraffic (m_receivedSize t) (u64_add (m_requestedSize t) pieceSize) in
        (true, set_drives
                 (<[driveKey := set_traffic (<[receiverPublicKey := t']> (dv_modifyTrafficMap d)) d]>
                    (dl_driveMap s)) s)
    end.

(** [onPieceRequestReceivedFromClient]. *)
Definition onPieceRequestReceivedFromClient (s : DownloadLimiter) : bool := negb (dl_isDestructing s).

(** [onPieceSent]; the inner assertion's argument is a string and never fails. *)
Definition onPieceSent (txHash receiverPublicKey pieceSize : Z) (s : DownloadLimiter) : DownloadLimiter :=
  if dl_isDestructing s then s
  else if dl_sessionIsEnding s then s
  else
    match dl_dnChannelMap s !! txHash with
    | None => s
    | Some ch =>
        match m_sentClientMap ch !! receiverPublicKey with
        | None => s
        | Some sz =>
            put_channel txHash
              (set_sent (<[receiverPublicKey := u64_add sz pieceSize]> (m_sentClientMap ch)) ch) s
        end
    end.

(** [onPieceReceived]. *)
Definition onPieceReceived (driveKey senderPublicKey pieceSize : Z) (s : DownloadLimiter) : DownloadLimiter :=
  if dl_isDestructing s then s
  else if dl_sessionIsEnding s then s
  else
    match dl_driveMap s !! driveKey with
    | None => s
    | Some d =>
        let t := default noTraffic (dv_modifyTrafficMap d !! senderPublicKey) in
        let t' := mkTraffic (u64_add (m_receivedSize t) pieceSize) (m_requestedSize t) in
        set_drives
          (<[driveKey := set_traffic (<[senderPublicKey := t']> (dv_modifyTrafficMap d)) d]>
             (dl_driveMap s)) s
    end.

(** [getLastClientReceipt]. *)
Definition getLastClientReceipt (downloadChannelId clientPublicKey : Z) (s : DownloadLimiter)
    : option RcptMessage :=
  if dl_isDestructing s then None
  else
    ch ← dl_dnChannelMap s !! downloadChannelId;
    rcpts ← m_clientReceiptMap ch !! clientPublicKey;
    rcpts !! dl_publicKey s.

(** ** Receipts *)

Section Receipts.
  (** [verify key bytes signature] is [crypto::Verify]. *)
  Context (verify : Z -> list Z -> Z -> bool).

(** [acceptUploadSize] on the channel of the message; the flag is
    [shouldBeDisconnected], the code is [None] when it is left alone. *)
Definition acceptUploadSize (msg : RcptMessage) (ch : DownloadChannelInfo)
    : Outcome (bool * option ErrorCode * DownloadChannelInfo) :=
  let rk := msg_replicatorKey msg in
  let ck := msg_clientKey msg in
  let size := msg_downloadedSize msg in
  let put info := set_uploads (<[rk := info]> (m_replicatorUploadRequestMap ch)) in
  let info0 := default ∅ (m_replicatorUploadRequestMap ch !! rk) in
  let info1 := tryFixReceiptSize (m_prepaidDownloadSize ch) info0 in
  let '(lastReceiptSize, info2) := maxReceiptSize ck info1 in
  if size <=? lastReceiptSize then Ret (false, None, put info2 ch)
  else
    let total := u64_add (m_totalReceiptsSize ch) (u64_sub size lastReceiptSize) in
    if m_prepaidDownloadSize ch <? total then
      info3 ← saveNotAcceptedReceiptSize ck size info2;
      Ret (true, Some sirius_channel_ran_out, set_total total (put info3 ch))
    else
      info3 ← saveReceiptSize ck size info2;
      Ret (false, None, set_total total (put info3 ch)).

(** Saving the message: the new receipt map and [shouldBeForwared]. *)
Definition saveReceipt (msg : RcptMessage) (receipts : gmap Z (gmap Z RcptMessage))
    : gmap Z (gmap Z RcptMessage) * bool :=
  let rk := msg_replicatorKey msg in
  let ck := msg_clientKey msg in
  match receipts !! ck with
  | Some perReplicator =>
      let old := default [] (perReplicator !! rk) in
      if msg_downloadedSize old <? msg_downloadedSize msg
      then (<[ck := <[rk := msg]> perReplicator]> receipts, true)
      else (<[ck := <[rk := old]> perReplicator]> receipts, false)
  | None => (<[ck := {[rk := msg]}]> receipts, true)
  end.

(** [candidates\[randIndex\]] swapped with the last one, which is popped. *)
Definition pick_one (rand : nat) (candidates : list Z) : option (Z * list Z) :=
  let i := (rand mod length candidates)%nat in
  match candidates !! i, last candidates with
  | Some picked, Some lastOne => Some (picked, removelast (<[i := lastOne]> candidates))
  | _, _ => None
  end.

(** The loop that selects at most [n] receivers; [rands] is the random source. *)
Fixpoint pick_receivers (n : nat) (rands : list nat) (candidates : list Z) : list Z :=
  match n, candidates with
  | S n', _ :: _ =>
      match pick_one (hd 0%nat rands) candidates with
      | Some (r, rest) => r :: pick_receivers n' (tl rands) rest
      | None => []
      end
  | _, _ => []
  end.

(** [sendReceiptToOtherReplicators] ([Replicator.cpp]): the message is built
    again from its fields and sent to the whole shard. *)
Definition sendReceiptToOtherReplicators (ourKey downloadChannelId clientPublicKey downloadedSize signature : Z)
    (shard : list Z) : list (Z * RcptMessage) :=
  let msg := mkRcptMessage downloadChannelId clientPublicKey ourKey downloadedSize signature in
  map (fun k => (k, msg)) (filter (fun k => k <> ourKey) shard).

(** The forwarding of a saved receipt: a receipt of this replicator goes to
    the whole shard, one of another replicator to four others. *)
Definition forwardReceipt (rands : list nat) (ourKey : Z) (msg : RcptMessage) (shard : list Z)
    : list (Z * RcptMessage) :=
  if decide (msg_replicatorKey msg = ourKey) then
    sendReceiptToOtherReplicators ourKey (msg_channelId msg) (msg_clientKey msg)
      (msg_downloadedSize msg) (msg_signature msg) shard
  else
    map (fun k => (k, msg)) (pick_receivers 4 rands (filter (fun k => k <> ourKey) shard)).

Record ReceiptResult := mkReceiptResult {
  rr_shouldBeDisconnected : option bool;     (* [None]: not written *)
  rr_errorCode : ErrorCode;
  rr_sent : list (Z * RcptMessage);
  rr_state : DownloadLimiter }.

(** [acceptReceiptImpl]. *)
Definition acceptReceiptImpl (rands : list nat) (msg : RcptMessage) (s : DownloadLimiter)
    : Outcome ReceiptResult :=
  if dl_isDestructing s then Ret (mkReceiptResult None no_error [] s)
  else
    match dl_dnChannelMap s !! msg_channelId msg with
    | None => Ret (mkReceiptResult (Some true) sirius_no_channel [] s)
    | Some ch =>
        match m_sentClientMap ch !! msg_clientKey msg with
        | None => Ret (mkReceiptResult (Some true) sirius_no_client_in_channel [] s)
        | Some _ =>
            if negb (verify (msg_clientKey msg) (msg_signed msg) (msg_signature msg))
            then Ret (mkReceiptResult (Some true) sirius_bad_signature [] s)
            else
              '(disc, err, ch1) ← acceptUploadSize msg ch;
              let '(receipts, shouldBeForwared) := saveReceipt msg (m_clientReceiptMap ch1) in
              let ch2 := set_receipts receipts ch1 in
              let sent := if (shouldBeForwared : bool)
                          then forwardReceipt rands (dl_publicKey s) msg (m_dnReplicatorShard ch2)
                          else [] in
              Ret (mkReceiptResult (Some disc) (default no_error err) sent
                     (put_channel (msg_channelId msg) ch2 s))
        end
    end.

(** [acceptReceipt]: the client's receipt for this replicator. *)
Definition acceptReceipt (rands : list nat) (downloadChannelId clientPublicKey downloadedSize signature : Z)
    (s : DownloadLimiter) : Outcome ReceiptResult :=
  if dl_isDestructing s then Ret (mkReceiptResult None no_error [] s)
  else if dl_sessionIsEnding s then Ret (mkReceiptResult None no_error [] s)
  else acceptReceiptImpl rands
         (mkRcptMessage downloadChannelId clientPublicKey (dl_publicKey s) downloadedSize signature) s.

(** [acceptReceiptFromAnotherReplicator]; the flags are not used. *)
Definition acceptReceiptFromAnotherReplicator (rands : list nat) (msg : RcptMessage) (s : DownloadLimiter)
    : Outcome (list (Z * RcptMessage) * DownloadLimiter) :=
  if dl_isDestructing s then Ret ([], s)
  else if dl_sessionIsEnding s then Ret ([], s)
  else r ← acceptReceiptImpl rands msg s; Ret (rr_sent r, rr_state r).

(** The ["rcpt"] query of [on_dht_request] ([Replicator.cpp]). *)
Definition onRcptQuery (rands : list nat) (packet : list Z) (s : DownloadLimiter)
    : Outcome (bool * list (Z * RcptMessage) * DownloadLimiter) :=
  if negb (isValidSize packet) then Ret (false, [], s)
  else '(sent, s') ← acceptReceiptFromAnotherReplicator rands packet s; Ret (true, sent, s').

End Receipts.

(** [createMyOpinion] ([Replicator.cpp]): the layout of the opinion. *)
Definition createMyOpinion (ch : DownloadChannelInfo) : list (Z * Z) :=
  map (fun k => match m_replicatorUploadRequestMap ch !! k with
                | Some info => (k, totalAcceptedReceiptSize info)
                | None => (k, 0)
                end) (m_dnReplicatorShard ch).

(** What the three handlers of a channel do when they return. *)
Lemma addChannelInfo_cases id size drive shard clients sync now s s' :
  addChannelInfo id size drive shard clients sync now s = Ret s' ->
  s' = s \/ dl_dnChannelMap s !! id = None /\ s' = insertChannelInfo id size drive shard clients sync now s.
Proof.
  unfold addChannelInfo. destruct (dl_isDestructing s); [intros [= <-]; by left|].
  destruct (dl_dnChannelMap s !! id); [done|]. intros [= <-]. by right.
Qed.

Lemma increaseChannelSize_cases id size s s' :
  increaseChannelSize id size s = Ret s' ->
  s' = s \/ exists ch, dl_dnChannelMap s !! id = Some ch /\
    s' = put_channel id (set_prepaid (u64_add (m_prepaidDownloadSize ch) size) ch) s.
Proof.
  unfold increaseChannelSize. destruct (dl_isDestructing s); [intros [= <-]; by left|].
  destruct (dl_dnChannelMap s !! id) as [ch|]; [|done]. intros [= <-]. right. by exists ch.
Qed.

Lemma setChanelShard_cases id shard s s' :
  setChanelShard id shard s = Ret s' ->
  exists ch, dl_dnChannelMap s !! id = Some ch /\ s' = put_channel id (set_shard shard ch) s.
Proof. unfold setChanelShard. destruct (dl_dnChannelMap s !! id) as [ch|]; [|done]. intros [= <-]. by exists ch. Qed.
