(* ===== verification/DownloadChannelsSpec.v ===== *)
(** * Properties of the download channels

    The accounting of receipts as an invariant of every step of the limiter,
    the bound on accepted receipts, the error branches of a receipt, the choice
    of the replicators a receipt is forwarded to, and what a restart loses. *)

From S2P Require Import Prelude RcptMessage DownloadChannels.

(** ** One replicator's receipts *)

Definition sizes_ok (r : ReceiptSizes) : Prop := is_u64 (m_acceptedSize r) /\ is_u64 (m_notAcceptedSize r).
Definition upload_ok (m : UploadInfo) : Prop := map_Forall (fun _ r => sizes_ok r) m.

Lemma max_size_spec r : max_size r = Z.max (m_acceptedSize r) (m_notAcceptedSize r).
Proof. unfold max_size. case_match; lia. Qed.

Lemma sizes_ok_max r : sizes_ok r -> is_u64 (max_size r).
Proof. rewrite max_size_spec. unfold sizes_ok, is_u64. lia. Qed.

Lemma client_at_ok c m : upload_ok m -> sizes_ok (client_at c m).
Proof.
  intros Hm. unfold client_at. destruct (m !! c) as [r|] eqn:E; cbn; [by eapply Hm|].
  by compute.
Qed.

Lemma touch_client_lookup c m : touch_client c m !! c = Some (client_at c m).
Proof. apply lookup_insert_eq. Qed.

(** Writing an entry changes a sum by the change of that entry. *)
Lemma map_sum_client f c r (m : UploadInfo) :
  f noReceipts = 0 ->
  map_sum f (<[c := r]> m) = map_sum f m - f (client_at c m) + f r.
Proof.
  intros Hf. unfold client_at. destruct (m !! c) as [r0|] eqn:E; cbn.
  - by rewrite (map_sum_update _ _ _ _ _ E).
  - rewrite map_sum_insert by done. lia.
Qed.

Lemma touch_client_sum f c (m : UploadInfo) : f noReceipts = 0 -> map_sum f (touch_client c m) = map_sum f m.
Proof. intros. unfold touch_client. rewrite map_sum_client by done. lia. Qed.

Lemma insert_upload_ok c r m : upload_ok m -> sizes_ok r -> upload_ok (<[c := r]> m).
Proof. intros. by apply map_Forall_insert_2. Qed.

Lemma fix_cell_ok r : sizes_ok r -> sizes_ok (fix_cell r) /\ max_size (fix_cell r) = max_size r.
Proof.
  rewrite !max_size_spec. unfold fix_cell, sizes_ok, is_u64. case_match; cbn; lia.
Qed.

Lemma tryFix_ok p (m : UploadInfo) :
  upload_ok m -> upload_ok (tryFixReceiptSize p m) /\
  map_sum max_size (tryFixReceiptSize p m) = map_sum max_size m.
Proof.
  intros Hm. unfold tryFixReceiptSize. case_match; [|done]. split.
  - intros c r. rewrite lookup_fmap. intros (r0 & H0 & ->)%fmap_Some. by apply fix_cell_ok, (Hm c).
  - rewrite map_sum_fmap. apply map_sum_ext. intros c r Hr. by apply fix_cell_ok, (Hm c).
Qed.

Lemma tryFix_max_at p c m :
  upload_ok m -> max_size (client_at c (tryFixReceiptSize p m)) = max_size (client_at c m).
Proof.
  intros Hm. unfold tryFixReceiptSize, client_at. case_match; [|done].
  rewrite lookup_fmap. destruct (m !! c) as [r|] eqn:E; cbn; [|done].
  by apply fix_cell_ok, (Hm c).
Qed.

Lemma upload_sum_nonneg (m : UploadInfo) : upload_ok m -> 0 <= map_sum max_size m.
Proof.
  intros Hm. apply map_sum_nonneg. intros c r Hr.
  apply (Hm c), sizes_ok_max in Hr. unfold is_u64 in Hr. lia.
Qed.

Lemma accepted_le_total (m : UploadInfo) : map_sum m_acceptedSize m <= map_sum max_size m.
Proof. apply map_sum_le. intros c r _. rewrite max_size_spec. lia. Qed.

(** ** Channels *)

Definition channel_sum (ch : DownloadChannelInfo) : Z :=
  map_sum (map_sum max_size) (m_replicatorUploadRequestMap ch).

Definition channel_ok (ch : DownloadChannelInfo) : Prop :=
  map_Forall (fun _ m => upload_ok m) (m_replicatorUploadRequestMap ch).

(** The running total is the sum, over all replicators and clients, of the
    largest receipt. *)
Definition accounted (ch : DownloadChannelInfo) : Prop := m_totalReceiptsSize ch ≡₆₄ channel_sum ch.

(** The largest receipt known for a (replicator, client) pair. *)
Definition largest_receipt (ch : DownloadChannelInfo) (rk ck : Z) : Z :=
  max_size (client_at ck (default ∅ (m_replicatorUploadRequestMap ch !! rk))).

Lemma channel_upload_ok ch rk :
  channel_ok ch -> upload_ok (default ∅ (m_replicatorUploadRequestMap ch !! rk)).
Proof.
  intros H. destruct (m_replicatorUploadRequestMap ch !! rk) as [m|] eqn:E; cbn; [by eapply H|].
  apply map_Forall_empty.
Qed.

Lemma map_sum_put rk (info : UploadInfo) (m : gmap Z UploadInfo) :
  map_sum (map_sum max_size) (<[rk := info]> m) =
  map_sum (map_sum max_size) m - map_sum max_size (default ∅ (m !! rk)) + map_sum max_size info.
Proof.
  destruct (m !! rk) as [i0|] eqn:E; cbn.
  - by rewrite (map_sum_update _ _ _ _ _ E).
  - rewrite map_sum_insert by done. rewrite map_sum_empty. lia.
Qed.

Lemma client_at_insert c c' r m :
  client_at c' (<[c := r]> m) = if decide (c' = c) then r else client_at c' m.
Proof. unfold client_at. case_decide; by simplify_map_eq. Qed.

Lemma client_at_empty c : client_at c ∅ = noReceipts.
Proof. unfold client_at. by rewrite lookup_empty. Qed.

Lemma client_at_touch c c' m : client_at c' (touch_client c m) = client_at c' m.
Proof. unfold touch_client. rewrite client_at_insert. by case_decide; subst. Qed.

Lemma touch_client_ok c m : upload_ok m -> upload_ok (touch_client c m).
Proof. intros. apply insert_upload_ok; auto using client_at_ok. Qed.

(** Replacing the upload map of a replicator. *)
Definition put_upload (rk : Z) (info : UploadInfo) (ch : DownloadChannelInfo) : DownloadChannelInfo :=
  set_uploads (<[rk := info]> (m_replicatorUploadRequestMap ch)) ch.

Lemma largest_put rk info ch rk' ck :
  largest_receipt (put_upload rk info ch) rk' ck =
  if decide (rk' = rk) then max_size (client_at ck info) else largest_receipt ch rk' ck.
Proof. unfold largest_receipt, put_upload. cbn. case_decide; by simplify_map_eq. Qed.

Lemma channel_ok_put rk info ch : channel_ok ch -> upload_ok info -> channel_ok (put_upload rk info ch).
Proof. intros. by apply map_Forall_insert_2. Qed.

Lemma channel_sum_put rk info ch :
  channel_sum (put_upload rk info ch) =
  channel_sum ch - map_sum max_size (default ∅ (m_replicatorUploadRequestMap ch !! rk)) +
  map_sum max_size info.
Proof. apply map_sum_put. Qed.

(** The replicator's entry after [tryFixReceiptSize] and [maxReceiptSize]. *)
Definition fixed_upload (msg : RcptMessage) (ch : DownloadChannelInfo) : UploadInfo :=
  touch_client (msg_clientKey msg) (tryFixReceiptSize (m_prepaidDownloadSize ch)
    (default ∅ (m_replicatorUploadRequestMap ch !! msg_replicatorKey msg))).

Lemma fixed_upload_ok msg ch :
  channel_ok ch -> upload_ok (fixed_upload msg ch) /\
  map_sum max_size (fixed_upload msg ch) =
    map_sum max_size (default ∅ (m_replicatorUploadRequestMap ch !! msg_replicatorKey msg)) /\
  forall ck, max_size (client_at ck (fixed_upload msg ch)) = largest_receipt ch (msg_replicatorKey msg) ck.
Proof.
  intros Hch. pose proof (channel_upload_ok ch (msg_replicatorKey msg) Hch) as Hu.
  destruct (tryFix_ok (m_prepaidDownloadSize ch) _ Hu) as [Hf Hs]. unfold fixed_upload. split_and!.
  - by apply touch_client_ok.
  - rewrite touch_client_sum by done. done.
  - intros ck. rewrite client_at_touch. by apply tryFix_max_at.
Qed.

(** ** [acceptUploadSize] *)

(** The size the replicator last accepted for a (replicator, client) pair. *)
Definition accepted_receipt (ch : DownloadChannelInfo) (rk ck : Z) : Z :=
  m_acceptedSize (client_at ck (default ∅ (m_replicatorUploadRequestMap ch !! rk))).

Lemma accepted_put rk info ch rk' ck :
  accepted_receipt (put_upload rk info ch) rk' ck =
  if decide (rk' = rk) then m_acceptedSize (client_at ck info) else accepted_receipt ch rk' ck.
Proof. unfold accepted_receipt, put_upload. cbn. case_decide; by simplify_map_eq. Qed.

Lemma tryFix_accepted p ck (m : UploadInfo) :
  upload_ok m -> m_acceptedSize (client_at ck m) <= m_acceptedSize (client_at ck (tryFixReceiptSize p m)).
Proof.
  intros Hm. unfold tryFixReceiptSize. case_match; [|done]. unfold client_at.
  rewrite lookup_fmap. destruct (m !! ck) as [r|] eqn:E; cbn; [|done].
  unfold fix_cell. case_match; cbn; lia.
Qed.

Lemma fixed_upload_accepted msg ch ck :
  channel_ok ch ->
  accepted_receipt ch (msg_replicatorKey msg) ck <= m_acceptedSize (client_at ck (fixed_upload msg ch)).
Proof.
  intros Hch. unfold fixed_upload. rewrite client_at_touch.
  by apply tryFix_accepted, channel_upload_ok.
Qed.

(** The new entry of the client: a rejected size goes to the second field. *)
Definition new_sizes (over : bool) (msg : RcptMessage) (f : UploadInfo) : ReceiptSizes :=
  let r := client_at (msg_clientKey msg) f in
  if over then mkReceiptSizes (m_acceptedSize r) (msg_downloadedSize msg)
  else mkReceiptSizes (msg_downloadedSize msg) (m_notAcceptedSize r).

(** What [acceptUploadSize] computes: neither assertion can fail. *)
Lemma acceptUploadSize_eq msg ch :
  channel_ok ch -> is_u64 (msg_downloadedSize msg) ->
  let rk := msg_replicatorKey msg in
  let ck := msg_clientKey msg in
  let size := msg_downloadedSize msg in
  let f := fixed_upload msg ch in
  let L := largest_receipt ch rk ck in
  let total := u64_add (m_totalReceiptsSize ch) (size - L) in
  let over := m_prepaidDownloadSize ch <? total in
  acceptUploadSize msg ch =
  if size <=? L then Ret (false, None, put_upload rk f ch)
  else Ret (over, if over then Some sirius_channel_ran_out else None,
            set_total total (put_upload rk (<[ck := new_sizes over msg f]> f) ch)).
Proof.
  intros Hch Hsize rk ck size f L total over.
  destruct (fixed_upload_ok msg ch Hch) as (Hok & _ & HL). fold f in Hok, HL.
  specialize (HL ck) as HLck. unfold acceptUploadSize, maxReceiptSize.
  fold rk ck size. set (f0 := tryFixReceiptSize _ _). change (touch_client ck f0) with f.
  assert (max_size (client_at ck f0) = L) as ->.
  { unfold L, rk. rewrite <- HLck. unfold f, fixed_upload. by rewrite client_at_touch. }
  destruct (size <=? L) eqn:HsL; [done|]. apply Z.leb_gt in HsL.
  pose proof (client_at_ok ck f Hok) as [Ha Hn].
  rewrite max_size_spec in HLck. fold rk L in HLck.
  replace (u64_sub size L) with (size - L) by (rewrite u64_sub_small; unfold is_u64 in *; lia).
  fold total. fold over.
  assert (f !! ck = Some (client_at ck f)) as Ef.
  { unfold f, fixed_upload. fold ck. by rewrite touch_client_lookup, client_at_touch. }
  unfold new_sizes. fold ck size. destruct over; unfold saveNotAcceptedReceiptSize, saveReceiptSize; rewrite Ef.
  - rewrite (proj2 (Z.ltb_lt _ _)) by lia. done.
  - rewrite (proj2 (Z.leb_le _ _)) by lia. done.
Qed.

Lemma new_sizes_ok over msg f :
  upload_ok f -> is_u64 (msg_downloadedSize msg) ->
  max_size (client_at (msg_clientKey msg) f) < msg_downloadedSize msg ->
  sizes_ok (new_sizes over msg f) /\ max_size (new_sizes over msg f) = msg_downloadedSize msg /\
  m_acceptedSize (client_at (msg_clientKey msg) f) <= m_acceptedSize (new_sizes over msg f).
Proof.
  intros Hf Hs. pose proof (client_at_ok (msg_clientKey msg) f Hf) as [Ha Hn].
  rewrite !max_size_spec. unfold new_sizes, sizes_ok. destruct over; cbn; intros; split_and!; try done; lia.
Qed.

(** How a message changes a channel. *)
Record uploaded (msg : RcptMessage) (ch : DownloadChannelInfo) (disc : bool) (ch' : DownloadChannelInfo)
    : Prop := {
  up_ok : channel_ok ch';
  up_accounted : accounted ch';
  up_largest rk ck : largest_receipt ch' rk ck =
    if decide (rk = msg_replicatorKey msg /\ ck = msg_clientKey msg)
    then Z.max (largest_receipt ch (msg_replicatorKey msg) (msg_clientKey msg)) (msg_downloadedSize msg)
    else largest_receipt ch rk ck;
  up_mono rk ck : accepted_receipt ch rk ck <= accepted_receipt ch' rk ck;
  up_disc : disc = bool_decide
    (largest_receipt ch (msg_replicatorKey msg) (msg_clientKey msg) < msg_downloadedSize msg /\
     m_prepaidDownloadSize ch < m_totalReceiptsSize ch');
  up_accepted :
    largest_receipt ch (msg_replicatorKey msg) (msg_clientKey msg) < msg_downloadedSize msg ->
    disc = false ->
    accepted_receipt ch' (msg_replicatorKey msg) (msg_clientKey msg) = msg_downloadedSize msg;
  up_frame : ch' = set_total (m_totalReceiptsSize ch') (set_uploads (m_replicatorUploadRequestMap ch') ch) }.

Lemma acceptUploadSize_uploaded msg ch :
  channel_ok ch -> accounted ch -> is_u64 (msg_downloadedSize msg) ->
  exists (disc : bool) ch',
    acceptUploadSize msg ch = Ret (disc, if disc then Some sirius_channel_ran_out else None, ch') /\
    uploaded msg ch disc ch'.
Proof.
  intros Hch Hacc Hs. rewrite acceptUploadSize_eq by done.
  set (rk := msg_replicatorKey msg) in *. set (ck := msg_clientKey msg) in *.
  set (size := msg_downloadedSize msg) in *. set (L := largest_receipt ch rk ck) in *.
  destruct (fixed_upload_ok msg ch Hch) as (Hok & Hsum & HL). fold rk in Hsum, HL.
  pose proof (fun c => fixed_upload_accepted msg ch c Hch) as Hmono. fold rk in Hmono.
  set (f := fixed_upload msg ch) in *. destruct (size <=? L) eqn:HsL.
  - apply Z.leb_le in HsL. exists false, (put_upload rk f ch). split; [done|]. split; try done.
    + by apply channel_ok_put.
    + unfold accounted. rewrite channel_sum_put, Hsum. cbn.
      transitivity (channel_sum ch); [exact Hacc | apply eq_eq64; lia].
    + intros rk' ck'. fold rk ck size L. rewrite largest_put.
      repeat case_decide; destruct_and?; subst; rewrite ?HL; fold L; first [lia | tauto | done].
    + intros rk' ck'. fold rk ck size L. rewrite accepted_put. case_decide; [subst; apply Hmono | lia].
    + symmetry. fold rk ck size L. apply bool_decide_eq_false. lia.
    + fold rk ck size L. intros. lia.
  - apply Z.leb_gt in HsL. set (total := u64_add (m_totalReceiptsSize ch) (size - L)).
    set (over := m_prepaidDownloadSize ch <? total).
    destruct (new_sizes_ok over msg f Hok Hs ltac:(rewrite HL; exact HsL)) as (Hnok & Hnmax & Hnacc).
    exists over. eexists. split; [done|]. split.
    + apply (channel_ok_put rk _ ch); auto using insert_upload_ok.
    + unfold accounted, channel_sum. cbn. rewrite map_sum_put, map_sum_client, Hnmax, HL, Hsum by done.
      fold rk ck size L. unfold total, u64_add. rewrite u64_eq64.
      transitivity (channel_sum ch + (size - L)); [by apply eq64_add_proper|].
      apply eq_eq64. unfold channel_sum. lia.
    + intros rk' ck'. fold rk ck size L. change (largest_receipt (set_total _ ?c)) with (largest_receipt c).
      rewrite largest_put. case_decide; subst; [|by rewrite decide_False by naive_solver].
      rewrite client_at_insert. repeat case_decide; destruct_and?; subst; try tauto; [|apply HL].
      rewrite Hnmax. fold size. lia.
    + intros rk' ck'. fold rk ck size L. change (accepted_receipt (set_total _ ?c)) with (accepted_receipt c).
      rewrite accepted_put. case_decide; [subst|lia]. rewrite client_at_insert.
      case_decide; [subst; etransitivity; [apply Hmono|exact Hnacc] | apply Hmono].
    + fold rk ck size L. cbn. unfold over. case_bool_decide as Hb; [apply Z.ltb_lt | apply Z.ltb_ge]; lia.
    + intros _ Hover. change (accepted_receipt (set_total _ ?c)) with (accepted_receipt c).
      rewrite accepted_put, decide_True, client_at_insert, decide_True by done.
      unfold new_sizes. by rewrite Hover.
    + done.
Qed.

(** The messages of a list, accepted in order. *)
Fixpoint acceptUploads (msgs : list RcptMessage) (ch : DownloadChannelInfo)
    : Outcome (list bool * DownloadChannelInfo) :=
  match msgs with
  | [] => Ret ([], ch)
  | msg :: msgs' =>
      '(disc, _, ch1) ← acceptUploadSize msg ch;
      '(discs, ch2) ← acceptUploads msgs' ch1;
      Ret (disc :: discs, ch2)
  end.

(** The largest size among the messages of a (replicator, client) pair. *)
Definition largest_offer (rk ck : Z) (msgs : list RcptMessage) : Z :=
  foldr (fun m acc => if decide (rk = msg_replicatorKey m /\ ck = msg_clientKey m)
                      then Z.max (msg_downloadedSize m) acc else acc) 0 msgs.

(** Whatever receipts arrive and in whatever order, [acceptUploadSize] never
    fails an assertion; the running total stays the sum (modulo [2^64]) of the
    largest receipts; the largest receipt of every (replicator, client) pair ends
    as the maximum of what it was and of that pair's messages, so it does not
    depend on the order; and no accepted size ever decreases. *)
Lemma acceptUploads_spec msgs ch :
  channel_ok ch -> accounted ch -> Forall (fun m => is_u64 (msg_downloadedSize m)) msgs ->
  exists discs ch',
    acceptUploads msgs ch = Ret (discs, ch') /\ length discs = length msgs /\
    channel_ok ch' /\ accounted ch' /\
    forall rk ck,
      largest_receipt ch' rk ck = Z.max (largest_receipt ch rk ck) (largest_offer rk ck msgs) /\
      accepted_receipt ch rk ck <= accepted_receipt ch' rk ck.
Proof.
  intros Hch Hacc Hs. revert ch Hch Hacc.
  induction Hs as [|msg msgs Hm _ IH]; intros ch Hch Hacc; cbn [acceptUploads].
  - eexists _, _. split_and!; try done. intros rk ck. split; [|done]. cbn.
    rewrite Z.max_l; [done|]. by apply sizes_ok_max, client_at_ok, channel_upload_ok.
  - destruct (acceptUploadSize_uploaded msg ch Hch Hacc Hm) as (disc & ch1 & -> & Hup). cbn.
    destruct (IH ch1) as (discs & ch2 & -> & Hl & Hok & Ha & Hsp); [apply Hup..|]. cbn.
    eexists _, _. split_and!; [done | cbn; congruence | done | done |].
    intros rk ck. destruct (Hsp rk ck) as [-> Hmono]. rewrite (up_largest _ _ _ _ Hup).
    pose proof (up_mono _ _ _ _ Hup rk ck). split; [|lia].
    cbn. case_decide as Hd; [destruct Hd as [-> ->]; unfold largest_offer; lia | done].
Qed.

(** ** The choice of the receivers *)

Lemma pick_one_perm rand cands :
  cands <> [] -> exists r rest, pick_one rand cands = Some (r, rest) /\ r :: rest ≡ₚ cands.
Proof.
  intros Hne. unfold pick_one. set (i := (rand mod length cands)%nat).
  assert (i < length cands)%nat as Hi by (apply Nat.mod_upper_bound; by destruct cands).
  destruct (lookup_lt_is_Some_2 _ _ Hi) as [r Hr]. rewrite Hr.
  destruct cands as [|x cands _] using rev_ind; [done|]. rewrite last_snoc.
  eexists _, _. split; [done|].
  destruct (decide (i = length cands)) as [E|E].
  - rewrite E in *. rewrite list_lookup_middle in Hr by done. simplify_eq.
    rewrite list_insert_id by (by apply list_lookup_middle).
    rewrite removelast_last. apply Permutation_cons_append.
  - rewrite length_app in Hi. cbn in Hi. rewrite lookup_app_l in Hr by lia.
    rewrite insert_app_l, removelast_last by lia.
    apply list_elem_of_split_length in Hr as (l1 & l2 & -> & ->).
    rewrite insert_app_r_alt, Nat.sub_diag by lia. cbn. solve_Permutation.
Qed.

Lemma pick_receivers_perm n rands cands :
  exists rest, pick_receivers n rands cands ++ rest ≡ₚ cands /\
    length (pick_receivers n rands cands) = Nat.min n (length cands).
Proof.
  revert rands cands. induction n as [|n IH]; intros rands cands; [by exists cands|].
  destruct cands as [|c cands]; [by exists []|]. cbn [pick_receivers].
  destruct (pick_one_perm (hd 0%nat rands) (c :: cands)) as (r & rest & -> & Hp); [done|].
  destruct (IH (tl rands) rest) as (rest' & Hp' & Hl). exists rest'. cbn. split.
  - by rewrite Hp'.
  - apply Permutation_length in Hp. cbn in Hp. rewrite Hl. lia.
Qed.

(** a receipt that was issued for another replicator and is new here is
    passed on, unchanged, to [min(4, n)] distinct members of the shard, where
    [n] counts the members other than this replicator, and never to this
    replicator, whatever the random numbers are. *)
Lemma forwardReceipt_receivers rands ourKey msg shard :
  NoDup shard -> msg_replicatorKey msg <> ourKey ->
  let receivers := map fst (forwardReceipt rands ourKey msg shard) in
  let others := filter (fun k => k <> ourKey) shard in
  Forall (fun p => snd p = msg) (forwardReceipt rands ourKey msg shard) /\
  NoDup receivers /\ (forall k, k ∈ receivers -> k ∈ shard /\ k <> ourKey) /\
  length receivers = Nat.min 4 (length others).
Proof.
  intros Hnd Hne receivers others. subst receivers. unfold forwardReceipt.
  rewrite decide_False by done. rewrite map_map. cbn. rewrite map_id. fold others.
  destruct (pick_receivers_perm 4 rands others) as (rest & Hp & Hl).
  assert (NoDup (pick_receivers 4 rands others ++ rest)) as Hnd'
    by (rewrite Hp; by apply NoDup_filter).
  apply NoDup_app in Hnd' as (Hnd' & _ & _). split_and!; try done.
  - apply List.Forall_forall. intros p (k & <- & _)%in_map_iff. done.
  - intros k Hk. assert (k ∈ others) as [? ?]%list_elem_of_filter; [|done].
    rewrite <- Hp. set_solver.
Qed.

Lemma forwardReceipt_receivers_witness :
  map fst (forwardReceipt [7; 5; 1; 9]%nat 2 (mkRcptMessage 9 8 3 100 1) [1; 2; 3; 4; 5; 6])
    = [4; 3; 5; 6] /\
  length (map fst (forwardReceipt [7; 5; 1; 9]%nat 2 (mkRcptMessage 9 8 3 100 1) [1; 2; 3; 4; 5; 6])) = 4%nat.
Proof.
  split; [vm_compute; reflexivity|].
  destruct (forwardReceipt_receivers [7; 5; 1; 9]%nat 2 (mkRcptMessage 9 8 3 100 1) [1; 2; 3; 4; 5; 6])
    as (_ & _ & _ & H); [| vm_compute; discriminate | rewrite H; reflexivity].
  apply (bool_decide_unpack _). vm_compute. exact I.
Defined.

(** ** Saved receipts *)

(** The size in the saved receipt of a (replicator, client) pair; 0 if none. *)
Definition saved_receipt (receipts : gmap Z (gmap Z RcptMessage)) (rk ck : Z) : RcptMessage :=
  default [] (receipts !! ck ≫= fun per => per !! rk).

Definition receipts_match (ch : DownloadChannelInfo) : Prop := forall rk ck,
  msg_downloadedSize (saved_receipt (m_clientReceiptMap ch) rk ck) = largest_receipt ch rk ck.

(** A byte string read as a size is a 64-bit number. *)
Lemma of_le_range bs : is_bytes bs -> 0 <= of_le bs < 256 ^ Z.of_nat (length bs).
Proof.
  induction 1 as [|b bs Hb _ IH]; cbn [of_le length]; [done|].
  rewrite Nat2Z.inj_succ, Z.pow_succ_r by lia. lia.
Qed.

Lemma msg_downloadedSize_range msg : is_bytes msg -> is_u64 (msg_downloadedSize msg).
Proof.
  intros Hb. unfold msg_downloadedSize. destruct msg as [|x msg]; [by compute|].
  assert (is_bytes (slice 96 8 (x :: msg))) as H by (by apply Forall_take, Forall_drop).
  apply of_le_range in H. unfold is_u64. split; [lia|].
  eapply Z.lt_le_trans; [apply H|]. change two64 with (256 ^ 8).
  apply Z.pow_le_mono_r; [lia|]. unfold slice. rewrite length_take. lia.
Qed.

Lemma mkRcptMessage_is_bytes a b c d e : is_bytes (mkRcptMessage a b c d e).
Proof.
  unfold is_bytes, mkRcptMessage, be_bytes. rewrite !Forall_app.
  split_and!; first [apply le_bytes_is_bytes | apply is_bytes_rev, le_bytes_is_bytes].
Qed.

(** What arrives as a receipt: bytes, as many as a receipt has. *)
Definition is_receipt (msg : RcptMessage) : Prop := is_bytes msg /\ isValidSize msg = true.

Lemma mkRcptMessage_is_receipt a b c d e : is_receipt (mkRcptMessage a b c d e).
Proof.
  split; [apply mkRcptMessage_is_bytes|]. unfold isValidSize, mkRcptMessage.
  by rewrite !length_app, !length_be_bytes, length_le_bytes.
Qed.

Lemma saved_receipt_insert receipts ck per rk ck' :
  saved_receipt (<[ck := per]> receipts) rk ck' =
  if decide (ck' = ck) then default [] (per !! rk) else saved_receipt receipts rk ck'.
Proof. unfold saved_receipt. case_decide; by simplify_map_eq. Qed.

(** The saved receipt of the message's pair becomes the message if its size is
    larger (or the client had no receipt); every other one is kept; the message
    is passed on exactly when it was saved. *)
Lemma saveReceipt_spec msg receipts receipts' fwd :
  saveReceipt msg receipts = (receipts', fwd) ->
  let rk := msg_replicatorKey msg in
  let ck := msg_clientKey msg in
  (forall rk' ck', saved_receipt receipts' rk' ck' =
     if decide (rk' = rk /\ ck' = ck)
     then if fwd then msg else saved_receipt receipts rk ck
     else saved_receipt receipts rk' ck') /\
  (fwd = true <-> receipts !! ck = None \/
                  msg_downloadedSize (saved_receipt receipts rk ck) < msg_downloadedSize msg).
Proof.
  intros E rk ck. unfold saveReceipt in E. fold rk ck in E.
  assert (forall per, receipts !! ck = Some per -> saved_receipt receipts rk ck = default [] (per !! rk))
    as Hs by (intros per Ec; unfold saved_receipt; by rewrite Ec).
  destruct (receipts !! ck) as [per|] eqn:Ec.
  - rewrite (Hs per) by done.
    destruct (_ <? _) eqn:Hlt in E; simplify_eq; (split;
      [intros rk' ck'; rewrite saved_receipt_insert; repeat case_decide; destruct_and?; subst;
       simplify_map_eq; try tauto; unfold saved_receipt; rewrite Ec; cbn; simplify_map_eq; auto |]).
    + split; [|done]. intros _. right. by apply Z.ltb_lt.
    + apply Z.ltb_ge in Hlt. split; [done|]. intros [?|?]; [done|lia].
  - simplify_eq. split; [|naive_solver].
    intros rk' ck'. rewrite saved_receipt_insert. repeat case_decide; destruct_and?; subst;
      simplify_map_eq; try tauto. unfold saved_receipt. by rewrite Ec.
Qed.

(** ** The invariant of the limiter *)

Section Limiter.
  Context (verify : Z -> list Z -> Z -> bool).

(** Every byte of the accounting is backed by a saved receipt signed by the
    client for this channel and replicator. *)
Record channel_inv (id : Z) (ch : DownloadChannelInfo) : Prop := {
  ci_ok : channel_ok ch;
  ci_accounted : accounted ch;
  ci_match : receipts_match ch;
  ci_signed rk ck : saved_receipt (m_clientReceiptMap ch) rk ck <> [] ->
    let m := saved_receipt (m_clientReceiptMap ch) rk ck in
    msg_channelId m = id /\ msg_clientKey m = ck /\ msg_replicatorKey m = rk /\
    verify ck (msg_signed m) (msg_signature m) = true /\ is_receipt m }.

(** The invariant of a replicator that was not restarted. *)
Definition limiter_inv (s : DownloadLimiter) : Prop :=
  map_Forall channel_inv (dl_dnChannelMap s) /\ dl_dnChannelMapBackup s = ∅.

(** It reads only the receipts and the total of a channel. *)
Lemma channel_inv_ext id ch ch' :
  m_totalReceiptsSize ch' = m_totalReceiptsSize ch ->
  m_replicatorUploadRequestMap ch' = m_replicatorUploadRequestMap ch ->
  m_clientReceiptMap ch' = m_clientReceiptMap ch ->
  channel_inv id ch -> channel_inv id ch'.
Proof.
  intros Et Eu Er [H1 H2 H3 H4]. split; unfold channel_ok, accounted, channel_sum, receipts_match,
    largest_receipt in *; rewrite ?Et, ?Eu, ?Er; assumption.
Qed.

(** An entry read with [operator\[\]] does not change the accounting. *)
Lemma channel_inv_touch id ch rk ck (info : UploadInfo) :
  m_replicatorUploadRequestMap ch !! rk = Some info ->
  channel_inv id ch -> channel_inv id (put_upload rk (touch_client ck info) ch).
Proof.
  intros Ei [H1 H2 H3 H4]. assert (upload_ok info) as Hi by (by eapply H1).
  split; [| | |done].
  - by apply channel_ok_put; [|apply touch_client_ok].
  - unfold accounted. rewrite channel_sum_put, Ei, touch_client_sum by done. cbn.
    transitivity (channel_sum ch); [exact H2 | apply eq_eq64; lia].
  - intros rk' ck'. cbn. rewrite H3, largest_put. case_decide; [subst|done].
    unfold largest_receipt. by rewrite client_at_touch, Ei.
Qed.

Lemma limiter_inv_put id ch s :
  limiter_inv s -> channel_inv id ch -> limiter_inv (put_channel id ch s).
Proof. intros [H1 H2] Hch. split; [by apply map_Forall_insert_2 | done]. Qed.

(** The reason a receipt is refused for, checked in the code's order. *)
Definition receipt_refusal (msg : RcptMessage) (s : DownloadLimiter) : option ErrorCode :=
  match dl_dnChannelMap s !! msg_channelId msg with
  | None => Some sirius_no_channel
  | Some ch =>
      if decide (msg_clientKey msg ∈ dom (m_sentClientMap ch)) then
        if verify (msg_clientKey msg) (msg_signed msg) (msg_signature msg) then None
        else Some sirius_bad_signature
      else Some sirius_no_client_in_channel
  end.

(** Accepting a message into a channel. *)
Lemma acceptReceipt_channel id msg ch disc err ch1 receipts fwd :
  channel_inv id ch -> is_receipt msg -> msg_channelId msg = id ->
  verify (msg_clientKey msg) (msg_signed msg) (msg_signature msg) = true ->
  acceptUploadSize msg ch = Ret (disc, err, ch1) ->
  saveReceipt msg (m_clientReceiptMap ch1) = (receipts, fwd) ->
  channel_inv id (set_receipts receipts ch1).
Proof.
  intros [H1 H2 H3 H4] Hb Hid Hv Eu Er.
  pose proof (msg_downloadedSize_range msg (proj1 Hb)) as Hsize.
  destruct (acceptUploadSize_uploaded msg ch H1 H2 Hsize) as (d & c & E & [A1 A2 A3 _ _ _ A7]).
  rewrite E in Eu. injection Eu as <- <- <-. apply saveReceipt_spec in Er as [S1 S2].
  assert (m_clientReceiptMap c = m_clientReceiptMap ch) as Ec by (by rewrite A7).
  rewrite Ec in S1, S2. split; [done | done | |].
  - intros rk ck. change (largest_receipt (set_receipts _ ?x)) with (largest_receipt x). cbn.
    rewrite S1, A3. case_decide as Hd; [|by apply H3].
    specialize (H3 (msg_replicatorKey msg) (msg_clientKey msg)). destruct fwd.
    + destruct S2 as [S2 _]. destruct (S2 eq_refl) as [Hn|Hn]; [|lia].
      unfold saved_receipt in H3. rewrite Hn in H3. cbn in H3. unfold is_u64 in Hsize. lia.
    + rewrite <- H3. apply not_iff_compat in S2. destruct S2 as [S2 _].
      enough (~ msg_downloadedSize (saved_receipt (m_clientReceiptMap ch) (msg_replicatorKey msg)
        (msg_clientKey msg)) < msg_downloadedSize msg) by lia.
      intros ?. apply S2; [done | by right].
  - intros rk ck. cbn. rewrite S1. case_decide as Hd; [|apply H4].
    destruct Hd as [-> ->]. destruct fwd; [|apply H4]. done.
Qed.

(** A receipt that is not refused. *)
Lemma acceptReceiptImpl_accept rands msg s :
  limiter_inv s -> dl_isDestructing s = false -> is_receipt msg -> receipt_refusal msg s = None ->
  exists ch disc ch1 receipts (fwd : bool),
    dl_dnChannelMap s !! msg_channelId msg = Some ch /\ uploaded msg ch disc ch1 /\
    saveReceipt msg (m_clientReceiptMap ch) = (receipts, fwd) /\
    channel_inv (msg_channelId msg) (set_receipts receipts ch1) /\
    acceptReceiptImpl verify rands msg s =
      Ret (mkReceiptResult (Some disc) (if disc then sirius_channel_ran_out else no_error)
             (if fwd then forwardReceipt rands (dl_publicKey s) msg (m_dnReplicatorShard ch) else [])
             (put_channel (msg_channelId msg) (set_receipts receipts ch1) s)).
Proof.
  intros [Hinv _] Hd Hb Hr. unfold acceptReceiptImpl. rewrite Hd. unfold receipt_refusal in Hr.
  destruct (dl_dnChannelMap s !! msg_channelId msg) as [ch|] eqn:Ech; [|done].
  case_decide as Hc; [|done]. apply elem_of_dom in Hc as [sz ->].
  destruct (verify _ _ _) eqn:Hv; [|done]. cbn [negb].
  pose proof (Hinv _ _ Ech) as Hch.
  destruct (acceptUploadSize_uploaded msg ch) as (disc & ch1 & E & Hup);
    [apply Hch | apply Hch | by apply msg_downloadedSize_range, Hb |].
  assert (m_clientReceiptMap ch1 = m_clientReceiptMap ch) as Er by (by rewrite (up_frame _ _ _ _ Hup)).
  assert (m_dnReplicatorShard ch1 = m_dnReplicatorShard ch) as Es by (by rewrite (up_frame _ _ _ _ Hup)).
  rewrite E. cbn. rewrite Er. destruct (saveReceipt msg (m_clientReceiptMap ch)) as [receipts fwd] eqn:Es'.
  exists ch, disc, ch1, receipts, fwd. split_and!; try done.
  - eapply acceptReceipt_channel; [exact Hch | done | done | done | exact E |]. by rewrite Er.
  - cbn. rewrite Es. by destruct disc.
Qed.

Lemma acceptReceiptImpl_refuse rands msg s e :
  dl_isDestructing s = false -> receipt_refusal msg s = Some e ->
  acceptReceiptImpl verify rands msg s = Ret (mkReceiptResult (Some true) e [] s).
Proof.
  intros Hd Hr. unfold acceptReceiptImpl. rewrite Hd. unfold receipt_refusal in Hr.
  destruct (dl_dnChannelMap s !! msg_channelId msg) as [ch|]; [|by simplify_eq].
  destruct (m_sentClientMap ch !! msg_clientKey msg) as [sz|] eqn:Ec.
  - rewrite decide_True in Hr by (by apply elem_of_dom). destruct (verify _ _ _); by simplify_eq.
  - rewrite decide_False in Hr by (by apply not_elem_of_dom). by simplify_eq.
Qed.

Lemma acceptReceiptImpl_inv rands msg s :
  limiter_inv s -> is_receipt msg ->
  exists r, acceptReceiptImpl verify rands msg s = Ret r /\ limiter_inv (rr_state r).
Proof.
  intros Hinv Hb. destruct (dl_isDestructing s) eqn:Hd.
  { unfold acceptReceiptImpl. rewrite Hd. by eexists. }
  destruct (receipt_refusal msg s) as [e|] eqn:Hr.
  - rewrite (acceptReceiptImpl_refuse rands msg s e) by done. by eexists.
  - destruct (acceptReceiptImpl_accept rands msg s) as (ch & disc & ch1 & rc & fwd & _ & _ & _ & Hch & ->);
      try done. eexists. split; [done|]. by apply limiter_inv_put.
Qed.

(** What [acceptReceiptImpl] does with any message of bytes.  A message for an
    unknown channel, of a client that is not of the channel, or with a wrong
    signature asks for a disconnection with the code of the first check that
    fails, changes nothing and is not passed on.  Any other message is accounted
    for ([uploaded]), it is saved and passed on exactly when it is larger than the
    saved one (or the first of the client), and the connection is to be closed
    with [sirius_channel_ran_out] exactly when the total exceeds the prepaid size. *)
Lemma acceptReceiptImpl_spec rands msg s :
  limiter_inv s -> dl_isDestructing s = false -> is_receipt msg ->
  exists r, acceptReceiptImpl verify rands msg s = Ret r /\
  match receipt_refusal msg s with
  | Some e => r = mkReceiptResult (Some true) e [] s
  | None =>
      exists ch ch', dl_dnChannelMap s !! msg_channelId msg = Some ch /\
        dl_dnChannelMap (rr_state r) = <[msg_channelId msg := ch']> (dl_dnChannelMap s) /\
        let rk := msg_replicatorKey msg in
        let ck := msg_clientKey msg in
        let old := saved_receipt (m_clientReceiptMap ch) rk ck in
        let isNew := m_clientReceiptMap ch !! ck = None \/ msg_downloadedSize old < msg_downloadedSize msg in
        let over := msg_downloadedSize old < msg_downloadedSize msg /\
                    m_prepaidDownloadSize ch < m_totalReceiptsSize ch' in
        (forall rk' ck', saved_receipt (m_clientReceiptMap ch') rk' ck' =
           if decide (rk' = rk /\ ck' = ck) then if decide isNew then msg else old
           else saved_receipt (m_clientReceiptMap ch) rk' ck') /\
        rr_sent r = (if decide isNew
                     then forwardReceipt rands (dl_publicKey s) msg (m_dnReplicatorShard ch) else []) /\
        rr_shouldBeDisconnected r = Some (bool_decide over) /\
        rr_errorCode r = if decide over then sirius_channel_ran_out else no_error
  end.
Proof.
  intros Hinv Hd Hb. destruct (receipt_refusal msg s) as [e|] eqn:Hr.
  { rewrite (acceptReceiptImpl_refuse rands msg s e) by done. by eexists. }
  destruct (acceptReceiptImpl_accept rands msg s) as (ch & disc & ch1 & rc & fwd & Ech & Hup & Hs & _ & ->);
    try done. eexists. split; [done|]. exists ch, (set_receipts rc ch1).
  split; [done|]. split; [done|]. intros rk ck old isNew over.
  apply saveReceipt_spec in Hs as [S1 S2].
  assert (msg_downloadedSize old = largest_receipt ch rk ck) as Ho
    by apply (ci_match _ _ (proj1 Hinv _ _ Ech)).
  assert (disc = bool_decide over) as ->.
  { rewrite (up_disc _ _ _ _ Hup). apply bool_decide_ext. unfold over. by rewrite Ho. }
  fold rk ck old in S1. change (fwd = true <-> isNew) in S2. cbn. split_and!.
  - intros rk' ck'. rewrite S1. destruct (decide (rk' = rk /\ ck' = ck)); [|done].
    by apply if_iff.
  - by apply if_iff.
  - done.
  - apply if_iff, bool_decide_eq_true.
Qed.

(** ** Reachable states *)

(** A call of the limiter, but [onPieceSent]. *)
Inductive limiter_call : DownloadLimiter -> DownloadLimiter -> Prop :=
  | call_check s peer id r e s' : checkDownloadLimit peer id s = (r, e, s') -> limiter_call s s'
  | call_add s id size drive shard clients sync now s' :
      addChannelInfo id size drive shard clients sync now s = Ret s' -> limiter_call s s'
  | call_increase s id size s' : increaseChannelSize id size s = Ret s' -> limiter_call s s'
  | call_remove s id : limiter_call s (removeChannelInfo id s)
  | call_shard s id shard s' : setChanelShard id shard s = Ret s' -> limiter_call s s'
  | call_piece_request s drive key size r s' :
      onPieceRequestReceivedFromReplicator drive key size s = (r, s') -> limiter_call s s'
  | call_piece_received s drive key size : limiter_call s (onPieceReceived drive key size s)
  | call_receipt s rands id client size sig r :
      acceptReceipt verify rands id client size sig s = Ret r -> limiter_call s (rr_state r)
  | call_rcpt_query s rands packet ok sent s' :
      is_bytes packet -> onRcptQuery verify rands packet s = Ret (ok, sent, s') -> limiter_call s s'.

Inductive limiter_step : DownloadLimiter -> DownloadLimiter -> Prop :=
  | step_call s s' : limiter_call s s' -> limiter_step s s'
  | step_piece_sent s id key size : limiter_step s (onPieceSent id key size s).

(** The session sends a piece (of at most [slack] bytes) only after
    [checkDownloadLimit] allowed it. *)
Inductive session_step (slack : Z) : DownloadLimiter -> DownloadLimiter -> Prop :=
  | session_call s s' : limiter_call s s' -> session_step slack s s'
  | session_serve s id peer size e s' :
      checkDownloadLimit peer id s = (true, e, s') -> 0 <= size <= slack ->
      session_step slack s (onPieceSent id peer size s').

(** A step that only edits one channel, outside the receipts. *)
Lemma limiter_inv_edit id ch ch' s :
  limiter_inv s -> dl_dnChannelMap s !! id = Some ch ->
  m_totalReceiptsSize ch' = m_totalReceiptsSize ch ->
  m_replicatorUploadRequestMap ch' = m_replicatorUploadRequestMap ch ->
  m_clientReceiptMap ch' = m_clientReceiptMap ch ->
  limiter_inv (put_channel id ch' s).
Proof.
  intros Hinv Hch ???. apply limiter_inv_put; [done|].
  apply (channel_inv_ext id ch); [done..|]. by apply Hinv.
Qed.

(** The upload map of a new channel has only empty entries. *)
Lemma fresh_uploads our shard (m : gmap Z UploadInfo) :
  map_Forall (fun _ i => i = ∅) m ->
  map_Forall (fun _ i => i = ∅)
    (foldl (fun m r => if decide (r = our) then m
                       else match m !! r with Some _ => m | None => <[r := ∅]> m end) m shard).
Proof.
  revert m. induction shard as [|r shard IH]; intros m Hm; cbn; [done|].
  apply IH. case_decide; [done|]. destruct (m !! r); [done|]. by apply map_Forall_insert_2.
Qed.

Lemma fresh_channel_inv id ch :
  m_totalReceiptsSize ch = 0 -> m_clientReceiptMap ch = ∅ ->
  map_Forall (fun _ i => i = ∅) (m_replicatorUploadRequestMap ch) -> channel_inv id ch.
Proof.
  intros Ht Hr Hu. split.
  - intros k i Hi. apply Hu in Hi as ->. apply map_Forall_empty.
  - unfold accounted, channel_sum. rewrite Ht.
    rewrite (map_sum_ext _ (fun _ => 0)); [|intros k i Hi; apply Hu in Hi as ->; apply map_sum_empty].
    apply eq_eq64. clear. induction (m_replicatorUploadRequestMap ch) as [|k i m Hk IH] using map_ind;
      [done | rewrite map_sum_insert by done; lia].
  - intros rk ck. rewrite Hr. unfold largest_receipt, saved_receipt. rewrite lookup_empty. cbn.
    destruct (m_replicatorUploadRequestMap ch !! rk) as [i|] eqn:Ei; [|done].
    apply Hu in Ei as ->. done.
  - intros rk ck. rewrite Hr. unfold saved_receipt. by rewrite lookup_empty.
Qed.

Lemma checkDownloadLimit_inv peer id s r e s' :
  checkDownloadLimit peer id s = (r, e, s') -> limiter_inv s -> limiter_inv s'.
Proof.
  unfold checkDownloadLimit, lastAcceptedReceiptSize. intros E Hinv.
  split_cases; try done.
  all: apply limiter_inv_put; [done|]; apply channel_inv_touch; [done | by apply Hinv].
Qed.

Lemma addChannelInfo_inv id size drive shard clients sync now s s' :
  addChannelInfo id size drive shard clients sync now s = Ret s' -> limiter_inv s -> limiter_inv s'.
Proof.
  intros [->|[_ ->]]%addChannelInfo_cases Hinv; [done|]. unfold insertChannelInfo.
  destruct Hinv as [H1 H2]. rewrite H2, lookup_empty.
  apply limiter_inv_put; [done|]. apply fresh_channel_inv; [done..|].
  apply fresh_uploads, map_Forall_empty.
Qed.

Lemma acceptReceipt_inv rands id client size sig s r :
  acceptReceipt verify rands id client size sig s = Ret r -> limiter_inv s -> limiter_inv (rr_state r).
Proof.
  intros E Hinv. unfold acceptReceipt in E. split_cases; try done.
  destruct (acceptReceiptImpl_inv rands (mkRcptMessage id client (dl_publicKey s) size sig) s)
    as (r' & E' & Hr'); [done | apply mkRcptMessage_is_receipt |]. rewrite E' in E. by injection E as <-.
Qed.

Lemma onRcptQuery_inv rands packet s :
  is_bytes packet -> limiter_inv s ->
  exists ok sent s', onRcptQuery verify rands packet s = Ret (ok, sent, s') /\ limiter_inv s'.
Proof.
  intros Hb Hinv. unfold onRcptQuery, acceptReceiptFromAnotherReplicator.
  destruct (isValidSize packet) eqn:Hv; cbn [negb]; [|by do 3 eexists].
  repeat case_match; cbn; [by do 3 eexists ..|].
  destruct (acceptReceiptImpl_inv rands packet s) as (r' & -> & Hr'); [done..|]. by do 3 eexists.
Qed.

Lemma limiter_call_inv s s' : limiter_call s s' -> limiter_inv s -> limiter_inv s'.
Proof.
  intros [] Hinv.
  - by eapply checkDownloadLimit_inv.
  - by eapply addChannelInfo_inv.
  - match goal with H : increaseChannelSize _ _ _ = _ |- _ =>
      apply increaseChannelSize_cases in H as [->|(ch & Hch & ->)] end; [done|]. by eapply limiter_inv_edit.
  - unfold removeChannelInfo. split_cases; try done.
    split; [by apply map_Forall_delete, Hinv | apply Hinv].
  - match goal with H : setChanelShard _ _ _ = _ |- _ => apply setChanelShard_cases in H as (ch & Hch & ->) end.
    by eapply limiter_inv_edit.
  - unfold onPieceRequestReceivedFromReplicator in *. split_cases; exact Hinv.
  - unfold onPieceReceived. split_cases; exact Hinv.
  - by eapply acceptReceipt_inv.
  - destruct (onRcptQuery_inv rands packet s0) as (ok' & sent' & s1 & E & H1); [done..|].
    rewrite E in *. inv_ret. done.
Qed.

Lemma onPieceSent_inv id key size s : limiter_inv s -> limiter_inv (onPieceSent id key size s).
Proof. intros. unfold onPieceSent. split_cases; try done. by eapply limiter_inv_edit. Qed.

Lemma limiter_steps_inv s s' : rtc limiter_step s s' -> limiter_inv s -> limiter_inv s'.
Proof.
  induction 1 as [|s1 s2 s3 [] _ IH]; intros; [done | |]; apply IH;
    eauto using limiter_call_inv, onPieceSent_inv.
Qed.

(** A replicator that has just been started for the first time. *)
Definition fresh (s : DownloadLimiter) : Prop :=
  dl_dnChannelMap s = ∅ /\ dl_dnChannelMapBackup s = ∅.

Lemma fresh_inv s : fresh s -> limiter_inv s.
Proof. intros [H1 H2]. split; [rewrite H1; apply map_Forall_empty | done]. Qed.

(** After any sequence of calls from a fresh start, in every channel the
    running total is (modulo [2^64]) the sum of the largest receipts, and every
    non-zero largest receipt is backed by a saved message of that size, for this
    channel, client and replicator, that carries the client's valid signature:
    another replicator cannot invent traffic.  A ["rcpt"] packet of any bytes is
    then processed without a fault. *)
Lemma limiter_accounting s0 s :
  fresh s0 -> rtc limiter_step s0 s ->
  (forall id ch, dl_dnChannelMap s !! id = Some ch ->
     m_totalReceiptsSize ch ≡₆₄ channel_sum ch /\
     forall rk ck, largest_receipt ch rk ck <> 0 ->
       exists m, saved_receipt (m_clientReceiptMap ch) rk ck = m /\
         msg_downloadedSize m = largest_receipt ch rk ck /\ msg_channelId m = id /\
         msg_clientKey m = ck /\ msg_replicatorKey m = rk /\
         verify ck (msg_signed m) (msg_signature m) = true /\ is_receipt m) /\
  (forall rands packet, is_bytes packet -> exists x, onRcptQuery verify rands packet s = Ret x).
Proof.
  intros Hf Hsteps. pose proof (limiter_steps_inv _ _ Hsteps (fresh_inv _ Hf)) as Hinv. split.
  - intros id ch Hch. destruct (proj1 Hinv id ch Hch) as [_ Ha Hm Hsig]. split; [done|].
    intros rk ck Hne. eexists. split; [done|]. split; [done|]. apply Hsig. intros E.
    apply Hne. by rewrite <- Hm, E.
  - intros rands packet Hb. destruct (onRcptQuery_inv rands packet s) as (ok & sent & s' & E & _); eauto.
Qed.

(** ** What is sent to a client *)

Definition served_channel (our limit slack : Z) (ch : DownloadChannelInfo) : Prop :=
  forall peer, 0 <= default 0 (m_sentClientMap ch !! peer) <= accepted_receipt ch our peer + limit + slack.

Definition served (slack : Z) (s : DownloadLimiter) : Prop :=
  map_Forall (fun _ ch => served_channel (dl_publicKey s) (dl_receiptLimit s) slack ch) (dl_dnChannelMap s).

Lemma served_put slack id ch s :
  served slack s -> served_channel (dl_publicKey s) (dl_receiptLimit s) slack ch ->
  served slack (put_channel id ch s).
Proof. intros. by apply map_Forall_insert_2. Qed.

(** An edit that sends nothing and lowers no accepted size. *)
Lemma served_edit slack id ch ch' s :
  served slack s -> dl_dnChannelMap s !! id = Some ch ->
  m_sentClientMap ch' = m_sentClientMap ch ->
  (forall peer, accepted_receipt ch (dl_publicKey s) peer <= accepted_receipt ch' (dl_publicKey s) peer) ->
  served slack (put_channel id ch' s).
Proof.
  intros Hs Hch Es Ha. apply served_put; [done|]. intros peer. rewrite Es.
  pose proof (Hs _ _ Hch peer). specialize (Ha peer). lia.
Qed.

Lemma checkDownloadLimit_served slack peer id s r e s' :
  checkDownloadLimit peer id s = (r, e, s') -> served slack s -> served slack s'.
Proof.
  unfold checkDownloadLimit, lastAcceptedReceiptSize. intros E Hs. split_cases; try done.
  all: eapply served_edit; [done | done | done |]; intros p;
    change (set_uploads (<[?k := ?i]> (m_replicatorUploadRequestMap ?c)) ?c) with (put_upload k i c);
    rewrite accepted_put, decide_True, client_at_touch by done;
    unfold accepted_receipt; by simplify_map_eq.
Qed.

Lemma fresh_sent clients (m : gmap Z Z) :
  map_Forall (fun _ n => n = 0) m ->
  map_Forall (fun _ n => n = 0)
    (foldl (fun m c => match m !! c with Some _ => m | None => <[c := 0]> m end) m clients).
Proof.
  revert m. induction clients as [|c clients IH]; intros m Hm; cbn; [done|].
  apply IH. destruct (m !! c); [done|]. by apply map_Forall_insert_2.
Qed.

Lemma insertChannelInfo_served slack id size drive shard clients sync now s :
  0 <= dl_receiptLimit s + slack -> limiter_inv s -> served slack s ->
  served slack (insertChannelInfo id size drive shard clients sync now s).
Proof.
  intros Hl [_ Hb] Hs. unfold insertChannelInfo. rewrite Hb, lookup_empty.
  apply served_put; [done|]. intros peer. cbn.
  set (m := foldl _ _ clients). assert (default 0 (m !! peer) = 0) as ->.
  { destruct (m !! peer) as [n|] eqn:E; [|done]. cbn. revert E.
    apply (fresh_sent clients ∅ (map_Forall_empty _) peer n). }
  unfold accepted_receipt. cbn [m_replicatorUploadRequestMap]. set (u := foldl _ _ shard).
  destruct (u !! dl_publicKey s) as [i|] eqn:E.
  - apply (fresh_uploads (dl_publicKey s) shard ∅ (map_Forall_empty _)) in E as ->.
    rewrite client_at_empty. cbn. lia.
  - rewrite client_at_empty. cbn. lia.
Qed.

Lemma acceptReceiptImpl_served slack rands msg s r :
  limiter_inv s -> is_receipt msg -> acceptReceiptImpl verify rands msg s = Ret r ->
  served slack s -> served slack (rr_state r) /\ dl_publicKey (rr_state r) = dl_publicKey s /\
    dl_receiptLimit (rr_state r) = dl_receiptLimit s.
Proof.
  intros Hinv Hb E Hs. destruct (dl_isDestructing s) eqn:Hd.
  { unfold acceptReceiptImpl in E. rewrite Hd in E. by injection E as <-. }
  destruct (receipt_refusal msg s) as [e|] eqn:Hr.
  { rewrite (acceptReceiptImpl_refuse rands msg s e) in E by done. by injection E as <-. }
  destruct (acceptReceiptImpl_accept rands msg s) as (ch & disc & ch1 & rc & fwd & Hch & Hup & _ & _ & E');
    try done. rewrite E' in E. injection E as <-. split; [|done]. cbn.
  eapply served_edit; [done | exact Hch | by rewrite (up_frame _ _ _ _ Hup) |].
  intros peer. apply (up_mono _ _ _ _ Hup).
Qed.

Lemma limiter_call_served slack s s' :
  0 <= dl_receiptLimit s + slack -> limiter_call s s' -> limiter_inv s -> served slack s ->
  served slack s' /\ dl_publicKey s' = dl_publicKey s /\ dl_receiptLimit s' = dl_receiptLimit s.
Proof.
  intros Hl Hcall Hinv Hs. destruct Hcall.
  - split; [by eapply checkDownloadLimit_served|].
    unfold checkDownloadLimit, lastAcceptedReceiptSize in *. split_cases; done.
  - match goal with H : addChannelInfo _ _ _ _ _ _ _ _ = _ |- _ => apply addChannelInfo_cases in H as [->|[_ ->]] end; [done|].
    split; [by apply insertChannelInfo_served|]. unfold insertChannelInfo. split_cases; done.
  - match goal with H : increaseChannelSize _ _ _ = _ |- _ =>
      apply increaseChannelSize_cases in H as [->|(ch & Hch & ->)] end; [done|]. split; [|done]. by eapply served_edit.
  - unfold removeChannelInfo. split_cases; try done. split; [|done]. by apply map_Forall_delete.
  - match goal with H : setChanelShard _ _ _ = _ |- _ => apply setChanelShard_cases in H as (ch & Hch & ->) end.
    split; [|done]. by eapply served_edit.
  - unfold onPieceRequestReceivedFromReplicator in *. split_cases; (split; [exact Hs | done]).
  - unfold onPieceReceived in *. split_cases; (split; [exact Hs | done]).
  - unfold acceptReceipt in *. split_cases; try done.
    eapply acceptReceiptImpl_served; [done | apply mkRcptMessage_is_receipt | done | done].
  - unfold onRcptQuery, acceptReceiptFromAnotherReplicator in *.
    destruct (isValidSize packet) eqn:Hv; cbn [negb] in *; split_cases; try done.
    inv_ret. split_cases; try done. inv_ret. by eapply acceptReceiptImpl_served.
Qed.

Lemma u64_le z : 0 <= z -> 0 <= u64 z <= z.
Proof. intros. unfold u64. split; [by apply Z.mod_pos_bound | by apply Z.mod_le]. Qed.

(** What the check guarantees about the channel it leaves. *)
Lemma checkDownloadLimit_true peer id s e s' :
  checkDownloadLimit peer id s = (true, e, s') -> limiter_inv s -> 0 <= dl_receiptLimit s ->
  exists ch, dl_dnChannelMap s' !! id = Some ch /\ m_isSynchronizing ch = false /\
    default 0 (m_sentClientMap ch !! peer) <=
      accepted_receipt ch (dl_publicKey s) peer + dl_receiptLimit s.
Proof.
  unfold checkDownloadLimit, lastAcceptedReceiptSize. intros E Hinv Hl. split_cases.
  - eexists. split; [apply lookup_insert_eq|]. split; [done|].
    change (set_uploads (<[?k := ?i]> (m_replicatorUploadRequestMap ?c)) ?c) with (put_upload k i c).
    rewrite accepted_put, decide_True, client_at_touch by done. cbn.
    match goal with H : (_ <? _) = false |- _ => apply Z.ltb_ge in H as Hle end.
    etransitivity; [exact Hle|]. apply u64_le.
    match goal with H : m_replicatorUploadRequestMap _ !! _ = Some ?u |- context [client_at peer ?u] =>
      assert (upload_ok u) as Hu by (by eapply (ci_ok _ _ (proj1 Hinv _ _ ltac:(eassumption)))) end.
    apply (client_at_ok peer) in Hu as [Hu _]. unfold is_u64 in Hu. lia.
  - eexists. split; [eassumption|]. split; [done|].
    match goal with H : (_ <? _) = false |- _ => apply Z.ltb_ge in H as Hle end.
    etransitivity; [exact Hle|]. etransitivity; [by apply u64_le|].
    unfold accepted_receipt. by simplify_map_eq.
Qed.

(** A piece sent after the check. *)
Lemma serve_served slack id peer size e s s' :
  0 <= dl_receiptLimit s -> 0 <= size <= slack -> limiter_inv s -> served slack s ->
  checkDownloadLimit peer id s = (true, e, s') ->
  served slack (onPieceSent id peer size s') /\
  dl_publicKey (onPieceSent id peer size s') = dl_publicKey s /\
  dl_receiptLimit (onPieceSent id peer size s') = dl_receiptLimit s.
Proof.
  intros Hl Hsize Hinv Hs E.
  destruct (limiter_call_served slack s s') as (Hs' & Hk & Hr); [lia | by eapply call_check | done | done |].
  destruct (checkDownloadLimit_true _ _ _ _ _ E Hinv Hl) as (ch & Hch & _ & Hle).
  unfold onPieceSent. rewrite Hch. split_cases; try done. split; [|done].
  apply served_put; [done|]. rewrite Hk, Hr. intros p. cbn.
  pose proof (Hs' _ _ Hch p) as Hp. cbv beta in Hp. rewrite Hk, Hr in Hp.
  destruct (decide (p = peer)) as [->|Hne]; simplify_map_eq; [|exact Hp].
  change (accepted_receipt (set_sent _ ?c)) with (accepted_receipt c).
  unfold u64_add. match goal with |- context [u64 ?z] => pose proof (u64_le z) end. lia.
Qed.

(** If the session sends a piece only after [checkDownloadLimit] allowed it,
    then in every reachable state the replicator has sent to every client of every
    channel at most the size of the last receipt it accepted from that client,
    plus the receipt limit and one piece. *)
Lemma sent_within_limit slack s0 s :
  fresh s0 -> 0 <= dl_receiptLimit s0 -> 0 <= slack -> rtc (session_step slack) s0 s ->
  forall id ch peer, dl_dnChannelMap s !! id = Some ch ->
    default 0 (m_sentClientMap ch !! peer) <=
      accepted_receipt ch (dl_publicKey s0) peer + dl_receiptLimit s0 + slack.
Proof.
  intros Hf Hl Hslack Hsteps.
  enough (served slack s /\ dl_publicKey s = dl_publicKey s0 /\ dl_receiptLimit s = dl_receiptLimit s0)
    as (Hs & <- & <-) by (intros id ch peer Hch; apply (Hs _ _ Hch)).
  assert (served slack s0) as Hs0 by (intros id ch; rewrite (proj1 Hf), lookup_empty; done).
  apply fresh_inv in Hf as Hinv. clear Hf.
  induction Hsteps as [s|s1 s2 s3 Hstep _ IH]; [done|].
  destruct Hstep as [s1 s2 Hcall | s1 id peer size e s2 Hcheck Hsize].
  - destruct (limiter_call_served slack s1 s2) as (H1 & H2 & H3); [lia | done | done | done |].
    rewrite <- H2, <- H3. apply IH; [by rewrite H3 | done | by eapply limiter_call_inv].
  - destruct (serve_served slack id peer size e s1 s2) as (H1 & H2 & H3); [done..|].
    rewrite <- H2, <- H3. apply IH; [by rewrite H3 | done |].
    eapply onPieceSent_inv, limiter_call_inv; [by eapply call_check | done].
Qed.

End Limiter.

(** ** The prepaid size *)

(** The accepted receipts of every single replicator fit in the prepaid size. *)
Definition within_prepaid (ch : DownloadChannelInfo) : Prop :=
  map_Forall (fun _ info => map_sum m_acceptedSize info <= m_prepaidDownloadSize ch)
    (m_replicatorUploadRequestMap ch).

Lemma channel_sum_lookup ch rk info :
  channel_ok ch -> m_replicatorUploadRequestMap ch !! rk = Some info ->
  map_sum max_size info <= channel_sum ch.
Proof.
  intros Hok Hi. apply (map_sum_lookup_le (map_sum max_size) _ rk); [|done].
  intros k m Hm. apply upload_sum_nonneg. by apply (Hok k).
Qed.

Lemma channel_sum_nonneg ch : channel_ok ch -> 0 <= channel_sum ch.
Proof. intros Hok. apply map_sum_nonneg. intros k m Hm. apply upload_sum_nonneg. by apply (Hok k). Qed.

Lemma channel_sum_default ch rk :
  channel_ok ch ->
  0 <= map_sum max_size (default ∅ (m_replicatorUploadRequestMap ch !! rk)) <= channel_sum ch.
Proof.
  intros Hok. split; [by apply upload_sum_nonneg, channel_upload_ok|].
  destruct (m_replicatorUploadRequestMap ch !! rk) as [info|] eqn:E; cbn.
  - by eapply channel_sum_lookup.
  - rewrite map_sum_empty. by apply channel_sum_nonneg.
Qed.

Lemma within_put rk info ch :
  within_prepaid ch -> map_sum m_acceptedSize info <= m_prepaidDownloadSize ch ->
  within_prepaid (put_upload rk info ch).
Proof. intros. by apply map_Forall_insert_2. Qed.

(** The correction of the sizes keeps one replicator within the prepaid size. *)
Lemma fixed_upload_within msg ch :
  channel_ok ch -> is_u64 (channel_sum ch) -> 0 <= m_prepaidDownloadSize ch -> within_prepaid ch ->
  map_sum m_acceptedSize (fixed_upload msg ch) <= m_prepaidDownloadSize ch.
Proof.
  intros Hok Hsum Hp Hw. unfold fixed_upload. rewrite touch_client_sum by done.
  set (m0 := default ∅ _).
  pose proof (channel_sum_default ch (msg_replicatorKey msg) Hok) as Hm0. fold m0 in Hm0.
  pose proof (channel_upload_ok ch (msg_replicatorKey msg) Hok) as Hu. fold m0 in Hu.
  destruct (tryFix_ok (m_prepaidDownloadSize ch) m0 Hu) as [_ Hs].
  pose proof (accepted_le_total (tryFixReceiptSize (m_prepaidDownloadSize ch) m0)) as Hle.
  unfold tryFixReceiptSize in *. destruct (totalReceiptSize m0 <=? _) eqn:E.
  - apply Z.leb_le in E. unfold totalReceiptSize in E.
    rewrite u64_small in E by (unfold is_u64 in *; lia). lia.
  - unfold m0. destruct (m_replicatorUploadRequestMap ch !! msg_replicatorKey msg) as [info|] eqn:Ei; cbn.
    + by eapply Hw.
    + by rewrite map_sum_empty.
Qed.

Lemma acceptUploadSize_within msg ch disc err ch' :
  channel_ok ch -> accounted ch -> is_u64 (msg_downloadedSize msg) ->
  is_u64 (channel_sum ch + msg_downloadedSize msg) -> 0 <= m_prepaidDownloadSize ch ->
  within_prepaid ch -> acceptUploadSize msg ch = Ret (disc, err, ch') ->
  within_prepaid ch' /\ channel_sum ch' <= channel_sum ch + msg_downloadedSize msg.
Proof.
  intros Hok Ha Hs Hsum Hp Hw E.
  pose proof (channel_sum_nonneg ch Hok) as Hnn.
  pose proof (fixed_upload_within msg ch Hok ltac:(unfold is_u64 in *; lia) Hp Hw) as Hf.
  destruct (fixed_upload_ok msg ch Hok) as (Hfok & Hfsum & HL).
  rewrite acceptUploadSize_eq in E by done.
  set (rk := msg_replicatorKey msg) in *. set (ck := msg_clientKey msg) in *.
  set (size := msg_downloadedSize msg) in *. set (L := largest_receipt ch rk ck) in *.
  set (f := fixed_upload msg ch) in *.
  assert (0 <= L) as HLnn by (apply sizes_ok_max, client_at_ok, channel_upload_ok, Hok).
  destruct (size <=? L) eqn:HsL.
  { injection E as <- <- <-. split; [by apply within_put|].
    rewrite channel_sum_put, Hfsum. unfold is_u64 in *. lia. }
  apply Z.leb_gt in HsL. set (over := m_prepaidDownloadSize ch <? _) in *. injection E as <- <- <-.
  change (channel_sum (set_total _ ?c)) with (channel_sum c).
  destruct (new_sizes_ok over msg f Hfok Hs) as (Hnok & Hnmax & _); [by rewrite HL|].
  fold size in Hnmax. assert (map_sum max_size (<[ck := new_sizes over msg f]> f) =
    map_sum max_size f - L + size) as Hnew by (rewrite map_sum_client, Hnmax, HL by done; done).
  assert (channel_sum (put_upload rk (<[ck:=new_sizes over msg f]> f) ch) = channel_sum ch - L + size)
    as Hcs by (rewrite channel_sum_put, Hnew, Hfsum; lia).
  split; [|lia]. apply (within_put rk _ ch Hw). destruct over eqn:Ho.
  - rewrite map_sum_client by done. unfold new_sizes. cbn. fold ck. lia.
  - etransitivity; [apply accepted_le_total|]. rewrite Hnew.
    pose proof (channel_sum_default ch rk Hok) as Hd. subst over. apply Z.ltb_ge in Ho.
    etransitivity; [|exact Ho]. unfold u64_add.
    rewrite (eq64_small (u64 _) (channel_sum ch + (size - L))); [lia | apply u64_range | unfold is_u64 in *; lia |].
    rewrite u64_eq64. by apply eq64_add_proper.
Qed.

Definition total_offered (msgs : list RcptMessage) : Z :=
  foldr (fun m acc => msg_downloadedSize m + acc) 0 msgs.

Lemma total_offered_nonneg msgs :
  Forall (fun m => is_u64 (msg_downloadedSize m)) msgs -> 0 <= total_offered msgs.
Proof.
  induction 1 as [|m msgs Hm _ IH]; [done|]. cbv beta in Hm. unfold is_u64 in Hm.
  change (0 <= msg_downloadedSize m + total_offered msgs). lia.
Qed.

(** While the sizes do not overflow, the receipts the replicator accepts for
    any one replicator of the channel never exceed the prepaid size, whatever
    receipts arrive (the bound is per replicator, see [over_prepaid]). *)
Lemma acceptUploads_within msgs ch discs ch' :
  channel_ok ch -> accounted ch -> Forall (fun m => is_u64 (msg_downloadedSize m)) msgs ->
  channel_sum ch + total_offered msgs < two64 -> 0 <= m_prepaidDownloadSize ch ->
  within_prepaid ch -> acceptUploads msgs ch = Ret (discs, ch') ->
  forall rk info, m_replicatorUploadRequestMap ch' !! rk = Some info ->
    totalAcceptedReceiptSize info <= m_prepaidDownloadSize ch.
Proof.
  intros Hok Ha Hs Hsum Hp Hw E rk info Hinfo.
  enough (within_prepaid ch' /\ m_prepaidDownloadSize ch' = m_prepaidDownloadSize ch /\ channel_ok ch')
    as (H1 & H2 & H3).
  { specialize (H1 rk info Hinfo). cbv beta in H1. rewrite H2 in H1. unfold totalAcceptedReceiptSize.
    etransitivity; [apply u64_le|done].
    apply map_sum_nonneg. intros c r Hr. by apply (H3 rk info Hinfo c r Hr). }
  clear info Hinfo. revert ch discs Hok Ha Hsum Hp Hw E.
  induction Hs as [|msg msgs Hm Hms IH]; intros ch discs Hok Ha Hsum Hp Hw E; cbn [acceptUploads] in E.
  { by injection E as <- <-. }
  cbv beta in Hm. destruct (acceptUploadSize_uploaded msg ch Hok Ha Hm) as (d & ch1 & E1 & Hup).
  pose proof (channel_sum_nonneg ch Hok). pose proof (total_offered_nonneg msgs Hms).
  change (total_offered (msg :: msgs)) with (msg_downloadedSize msg + total_offered msgs) in Hsum.
  destruct (acceptUploadSize_within _ _ _ _ _ Hok Ha Hm ltac:(unfold is_u64 in *; lia) Hp Hw E1) as [H1 H2].
  rewrite E1 in E. cbn in E.
  destruct (acceptUploads msgs ch1) as [[ds ch2]|] eqn:E2; cbn in E; [|done]. injection E as <- <-.
  assert (m_prepaidDownloadSize ch1 = m_prepaidDownloadSize ch) as Epp by (by rewrite (up_frame _ _ _ _ Hup)).
  rewrite <- Epp. eapply IH; [apply Hup | apply Hup | lia | by rewrite Epp | done | done].
Qed.

(** A channel of prepaid size 100 for client 7, shard 1, 2, 3. *)
Definition sampleChannel : DownloadChannelInfo :=
  mkChannel false 100 0 {[7 := 0]} {[2 := ∅; 3 := ∅]} 50 [1; 2; 3] ∅ ∅ false.

Definition sampleReceipt (rk size : Z) : RcptMessage := mkRcptMessage 9 7 rk size 1.

Lemma sampleChannel_inv verify : channel_inv verify 9 sampleChannel.
Proof.
  apply fresh_channel_inv; [done..|].
  change (map_Forall (fun _ i => i = ∅) (<[2 := ∅]> {[3 := ∅]} : gmap Z UploadInfo)).
  apply map_Forall_insert_2; [done|]. by apply map_Forall_singleton.
Qed.

Lemma sampleReceipt_is_bytes rk size : is_bytes (sampleReceipt rk size).
Proof. unfold sampleReceipt. apply mkRcptMessage_is_bytes. Qed.

Lemma sampleReceipt_is_receipt rk size : is_receipt (sampleReceipt rk size).
Proof. unfold sampleReceipt. apply mkRcptMessage_is_receipt. Qed.

Lemma sampleReceipts_u64 l :
  Forall (fun m => is_u64 (msg_downloadedSize m)) (map (fun p => sampleReceipt p.1 p.2) l).
Proof.
  induction l as [|p l IH]; constructor; [|exact IH].
  exact (msg_downloadedSize_range _ (sampleReceipt_is_bytes p.1 p.2)).
Qed.

Lemma acceptUploads_spec_witness : exists discs ch',
  acceptUploads (map (fun p => sampleReceipt p.1 p.2) [(2, 40); (3, 30); (2, 20); (3, 50)]) sampleChannel
    = Ret (discs, ch') /\
  largest_receipt ch' 2 7 = 40 /\ largest_receipt ch' 3 7 = 50.
Proof.
  destruct (acceptUploads_spec (map (fun p => sampleReceipt p.1 p.2) [(2, 40); (3, 30); (2, 20); (3, 50)])
    sampleChannel) as (discs & ch' & E & _ & _ & _ & H).
  - apply (ci_ok (fun _ _ _ => true) 9), sampleChannel_inv.
  - apply (ci_accounted (fun _ _ _ => true) 9), sampleChannel_inv.
  - apply sampleReceipts_u64.
  - exists discs, ch'. split; [exact E|]. rewrite !(proj1 (H _ _)). split; vm_compute; reflexivity.
Defined.

Lemma acceptUploads_within_witness : exists discs ch',
  acceptUploads (map (fun p => sampleReceipt p.1 p.2) [(2, 60); (3, 60); (3, 60)]) sampleChannel
    = Ret (discs, ch') /\
  forall rk info, m_replicatorUploadRequestMap ch' !! rk = Some info -> totalAcceptedReceiptSize info <= 100.
Proof.
  eexists _, _. split; [vm_compute; reflexivity|].
  eapply (acceptUploads_within (map (fun p => sampleReceipt p.1 p.2) [(2, 60); (3, 60); (3, 60)]) sampleChannel).
  - apply (ci_ok (fun _ _ _ => true) 9), sampleChannel_inv.
  - apply (ci_accounted (fun _ _ _ => true) 9), sampleChannel_inv.
  - apply sampleReceipts_u64.
  - vm_compute. reflexivity.
  - discriminate.
  - apply map_Forall_insert_2; [discriminate|]. apply map_Forall_singleton. discriminate.
  - vm_compute. reflexivity.
Defined.

(** The bound does not hold for the whole channel: a rejected receipt that is
    sent again is accepted by [tryFixReceiptSize], and the replicators 2 and 3
    end with 60 accepted bytes each out of 100. *)
Example over_prepaid :
  match acceptUploads (map (fun p => sampleReceipt p.1 p.2) [(2, 60); (3, 60); (3, 60)]) sampleChannel with
  | Ret (discs, ch') =>
      discs = [false; true; false] /\ accepted_receipt ch' 2 7 + accepted_receipt ch' 3 7 = 120
  | Stop _ => False
  end.
Proof. vm_compute. split; reflexivity. Qed.

Definition sampleLimiter : DownloadLimiter :=
  mkLimiter 1 {[9 := sampleChannel]} ∅ (1024 * 1024) ∅ false false.

Lemma acceptReceiptImpl_spec_witness : exists r,
  acceptReceiptImpl (fun _ _ _ => true) [] (sampleReceipt 1 60) sampleLimiter = Ret r /\
  rr_errorCode r = no_error /\ map fst (rr_sent r) = [2; 3].
Proof.
  destruct (acceptReceiptImpl_spec (fun _ _ _ => true) [] (sampleReceipt 1 60) sampleLimiter)
    as (r & E & H).
  - split; [apply map_Forall_singleton, sampleChannel_inv | reflexivity].
  - reflexivity.
  - apply sampleReceipt_is_receipt.
  - exists r. split; [exact E|]. vm_compute in E. injection E as <-. split; vm_compute; reflexivity.
Defined.

(** A run: a channel is added, client 7 pays 60 bytes to this replicator. *)
Definition freshLimiter : DownloadLimiter := mkLimiter 1 ∅ ∅ 1000 ∅ false false.
Definition sampleAdd : DownloadLimiter := insertChannelInfo 9 100 50 [1; 2; 3] [7] false 0 freshLimiter.

Lemma limiter_accounting_witness : exists s,
  rtc (limiter_step (fun _ _ _ => true)) freshLimiter s /\
  (exists ch, dl_dnChannelMap s !! 9 = Some ch /\ largest_receipt ch 1 7 = 60 /\
     m_totalReceiptsSize ch ≡₆₄ channel_sum ch) /\
  exists x, onRcptQuery (fun _ _ _ => true) [] (sampleReceipt 2 10) s = Ret x.
Proof.
  destruct (acceptReceipt (fun _ _ _ => true) [] 9 7 60 1 sampleAdd) as [r|] eqn:E;
    [|vm_compute in E; discriminate E].
  assert (rtc (limiter_step (fun _ _ _ => true)) freshLimiter (rr_state r)) as Hr.
  { eapply rtc_l; [apply step_call, (call_add _ freshLimiter 9 100 50 [1; 2; 3] [7] false 0 sampleAdd eq_refl)|].
    apply rtc_once, step_call. eapply call_receipt. exact E. }
  destruct (limiter_accounting (fun _ _ _ => true) freshLimiter (rr_state r)) as [H1 H2];
    [split; reflexivity | exact Hr |].
  exists (rr_state r). split; [exact Hr|]. split; [|apply H2, sampleReceipt_is_bytes].
  destruct (dl_dnChannelMap (rr_state r) !! 9) as [ch|] eqn:Ech;
    [|vm_compute in E; injection E as <-; vm_compute in Ech; discriminate Ech].
  exists ch. split; [reflexivity|]. split; [|apply (H1 9 ch Ech)].
  vm_compute in E. injection E as <-. vm_compute in Ech. injection Ech as <-. vm_compute. reflexivity.
Defined.

Lemma sent_within_limit_witness : exists s ch,
  rtc (session_step (fun _ _ _ => true) 16384) freshLimiter s /\
  dl_dnChannelMap s !! 9 = Some ch /\ m_sentClientMap ch !! 7 = Some 16384 /\
  default 0 (m_sentClientMap ch !! 7) <= accepted_receipt ch 1 7 + 1000 + 16384.
Proof.
  destruct (checkDownloadLimit 7 9 sampleAdd) as [[b e] s'] eqn:E.
  assert (b = true) as -> by (vm_compute in E; injection E as <- _ _; reflexivity).
  assert (rtc (session_step (fun _ _ _ => true) 16384) freshLimiter (onPieceSent 9 7 16384 s')) as Hr.
  { eapply rtc_l; [eapply session_call, (call_add _ freshLimiter 9 100 50 [1; 2; 3] [7] false 0 sampleAdd eq_refl)|].
    apply rtc_once. apply (session_serve _ _ _ 9 7 16384 e s' E); lia. }
  destruct (dl_dnChannelMap (onPieceSent 9 7 16384 s') !! 9) as [ch|] eqn:Ech;
    [|vm_compute in E; injection E as _ <-; vm_compute in Ech; discriminate Ech].
  exists (onPieceSent 9 7 16384 s'), ch. split; [exact Hr|]. split; [exact Ech|]. split.
  - vm_compute in E. injection E as _ <-. vm_compute in Ech. injection Ech as <-. vm_compute. reflexivity.
  - eapply (sent_within_limit (fun _ _ _ => true) 16384 freshLimiter (onPieceSent 9 7 16384 s'));
      [split; reflexivity | cbn; lia | lia | exact Hr | exact Ech].
Defined.

(** ** Restart *)

(** An exhausted channel, as it is saved. *)
Definition exhaustedChannel : DownloadChannelInfo :=
  mkChannel false 100 100 {[7 := 90]} {[1 := {[7 := mkReceiptSizes 100 0]}]} 50 [1; 2; 3] ∅
    {[7 := {[1 := sampleReceipt 1 100]}]} false.

(** After a restart the total and the saved receipts are not restored, so the
    exhausted channel serves the client again, and the accounting is off. *)
Example restart_forgets_total :
  let before := mkLimiter 1 {[9 := exhaustedChannel]} ∅ 1000 ∅ false false in
  let restarted := mkLimiter 1 ∅ {[9 := exhaustedChannel]} 1000 ∅ false false in
  let after := insertChannelInfo 9 100 50 [1; 2; 3] [7] false 0 restarted in
  addChannelInfo 9 100 50 [1; 2; 3] [7] false 0 restarted = Ret after /\
  acceptClientConnection 9 7 50 0 before = (REJECTED, Some sirius_channel_ran_out) /\
  acceptClientConnection 9 7 50 0 after = (LIMITED, Some no_error) /\
  (exists ch, dl_dnChannelMap after !! 9 = Some ch /\ ~ accounted ch /\
              getLastClientReceipt 9 7 after = None).
Proof.
  split; [reflexivity|]. split; [vm_compute; reflexivity|]. split; [vm_compute; reflexivity|].
  eexists. split; [vm_compute; reflexivity|].
  split; [apply (bool_decide_unpack _); vm_compute; exact I | vm_compute; reflexivity].
Qed.
