(* ===== verification/DownloadApproval.v ===== *)
(** * Download approval ([src/drive/Replicator.cpp])

    For every (channel, block) the replicators of the shard exchange opinions
    about what each of them has uploaded; when enough opinions are there a timer
    is started, and when it expires one replicator sends the approval
    transaction.  The operations work on the state of [DownloadChannels]; what
    they send is returned in order.  A timer is the presence of the [Timer]
    object: cancelling it, or destroying the entry that holds it, makes its
    callback impossible, so an expiry is an event the state must enable.
    The signature scheme is a parameter. *)

From S2P Require Import Prelude RcptMessage DownloadChannels.

(** [DownloadApprovalTransactionInfo]. *)
Record DownloadApprovalTransactionInfo := mkApprovalInfo {
  m_blockHash : Z; m_downloadChannelId : Z; m_opinions : list DownloadOpinion }.

(** What the handlers send: the transaction to the event handler, an opinion to
    a replicator, an opinion back to the event handler. *)
Inductive ApprovalOutput :=
  | TransactionIsReady (info : DownloadApprovalTransactionInfo)
  | SendOpinion (to : Z) (info : DownloadApprovalTransactionInfo)
  | OpinionHasBeenReceived (info : DownloadApprovalTransactionInfo).

(** ** Fields of an opinion entry *)

Definition set_om_opinions (v : gmap Z DownloadOpinion) (e : DownloadOpinionMapValue) : DownloadOpinionMapValue :=
  mkOpinionMapValue (om_eventHash e) (om_downloadChannelId e) v (om_modifyApproveTransactionSent e)
    (om_approveTransactionReceived e) (om_timer e) (om_opinionShareTimer e) (om_creationTime e).
Definition set_om_sent (v : bool) (e : DownloadOpinionMapValue) : DownloadOpinionMapValue :=
  mkOpinionMapValue (om_eventHash e) (om_downloadChannelId e) (om_opinions e) v
    (om_approveTransactionReceived e) (om_timer e) (om_opinionShareTimer e) (om_creationTime e).
Definition set_om_received (v : bool) (e : DownloadOpinionMapValue) : DownloadOpinionMapValue :=
  mkOpinionMapValue (om_eventHash e) (om_downloadChannelId e) (om_opinions e)
    (om_modifyApproveTransactionSent e) v (om_timer e) (om_opinionShareTimer e) (om_creationTime e).
Definition set_om_timer (v : bool) (e : DownloadOpinionMapValue) : DownloadOpinionMapValue :=
  mkOpinionMapValue (om_eventHash e) (om_downloadChannelId e) (om_opinions e)
    (om_modifyApproveTransactionSent e) (om_approveTransactionReceived e) v (om_opinionShareTimer e)
    (om_creationTime e).
Definition set_om_shareTimer (v : bool) (e : DownloadOpinionMapValue) : DownloadOpinionMapValue :=
  mkOpinionMapValue (om_eventHash e) (om_downloadChannelId e) (om_opinions e)
    (om_modifyApproveTransactionSent e) (om_approveTransactionReceived e) (om_timer e) v
    (om_creationTime e).

Definition newOpinionMapValue (eventHash channelId now : Z) : DownloadOpinionMapValue :=
  mkOpinionMapValue eventHash channelId ∅ false false false false now.

(** ** Handlers *)

(** [(now - value.m_creationTime).total_seconds() > 60 * 60]. *)
Definition outdated (now : Z) (e : DownloadOpinionMapValue) : bool :=
  60 * 60 <? Z.quot (now - om_creationTime e) 1000000.

(** The loop that erases the outdated entries of every channel. *)
Definition eraseOutdated (now : Z) (chs : gmap Z DownloadChannelInfo) : gmap Z DownloadChannelInfo :=
  (fun ch => set_opinions (filter (fun p => outdated now p.2 = false) (m_downloadOpinionMap ch)) ch) <$> chs.

(** The number of opinions needed to start the timer. *)
Definition opinionThreshold (minReplicators : nat) (shard : list Z) : nat :=
  (Nat.max minReplicators (length shard) * 2 / 3 + 1)%nat.

Section Approval.
  (** [sign blockHash channelId layout] is [crypto::Sign] with this replicator's
      key; [minReplicators] is [getMinReplicatorsNumber()]. *)
  Context (sign : Z -> Z -> list (Z * Z) -> Z) (minReplicators : nat).

(** [addOpinion]. *)
Definition addOpinion (now : Z) (opinion : DownloadApprovalTransactionInfo) (s : DownloadLimiter)
    : Outcome DownloadLimiter :=
  let s1 := set_channels (eraseOutdated now (dl_dnChannelMap s)) s in
  let id := m_downloadChannelId opinion in
  let blockHash := m_blockHash opinion in
  match dl_dnChannelMap s1 !! id with
  | None => Ret s1
  | Some channel =>
      let entry := default (newOpinionMapValue blockHash id now) (m_downloadOpinionMap channel !! blockHash) in
      match m_opinions opinion with
      | [] => Stop UndefinedBehaviour
      | o :: _ =>
          let opinions := <[do_replicatorKey o := o]> (om_opinions entry) in
          let entry1 := set_om_opinions opinions entry in
          let entry2 :=
            if Nat.leb (opinionThreshold minReplicators (m_dnReplicatorShard channel)) (size opinions)
            then set_om_timer true entry1 else entry1 in
          Ret (put_channel id
                 (set_opinions (<[blockHash := entry2]> (m_downloadOpinionMap channel)) channel) s1)
      end
  end.

(** The handler posted by [asyncOnDownloadOpinionReceived]. *)
Definition onDownloadOpinionReceived (now : Z) (anOpinion : DownloadApprovalTransactionInfo)
    (s : DownloadLimiter) : Outcome DownloadLimiter :=
  if dl_isDestructing s then Ret s
  else if Nat.eqb (length (m_opinions anOpinion)) 1 then addOpinion now anOpinion s
  else log_err (Ret s).

(** [onDownloadApprovalTimeExpired]. *)
Definition onDownloadApprovalTimeExpired (channelId blockHash : Z) (s : DownloadLimiter)
    : Outcome (list ApprovalOutput * DownloadLimiter) :=
  match dl_dnChannelMap s !! channelId with
  | None => Stop AssertFailure
  | Some ch =>
      match m_downloadOpinionMap ch !! blockHash with
      | None => Stop UndefinedBehaviour
      | Some e =>
          if om_modifyApproveTransactionSent e || om_approveTransactionReceived e then Ret ([], s)
          else
            let info := mkApprovalInfo (om_eventHash e) (om_downloadChannelId e)
                          (sorted_values (om_opinions e)) in
            Ret ([TransactionIsReady info],
                 put_channel channelId
                   (set_opinions (<[blockHash := set_om_sent true e]> (m_downloadOpinionMap ch)) ch) s)
      end
  end.

(** [shareDownloadOpinion]; it is also the callback of the timer it starts. *)
Definition shareDownloadOpinion (downloadChannel eventHash : Z) (s : DownloadLimiter)
    : Outcome (list ApprovalOutput * DownloadLimiter) :=
  match dl_dnChannelMap s !! downloadChannel with
  | None => Stop AssertFailure
  | Some ch =>
      match m_downloadOpinionMap ch !! eventHash with
      | None => Stop AssertFailure
      | Some e =>
          match om_opinions e !! dl_publicKey s with
          | None => Stop AssertFailure
          | Some myOpinion =>
              let info := mkApprovalInfo eventHash downloadChannel [myOpinion] in
              Ret (map (fun k => SendOpinion k info)
                     (filter (fun k => k <> dl_publicKey s) (m_dnReplicatorShard ch)),
                   put_channel downloadChannel
                     (set_opinions (<[eventHash := set_om_shareTimer true e]> (m_downloadOpinionMap ch)) ch) s)
          end
      end
  end.

(** [doInitiateDownloadApprovalTransactionInfo]. *)
Definition doInitiateDownloadApproval (now blockHash channelId : Z) (s : DownloadLimiter)
    : Outcome (list ApprovalOutput * DownloadLimiter) :=
  match dl_dnChannelMap s !! channelId with
  | None => log_err (Ret ([], s))
  | Some ch =>
      let layout := createMyOpinion ch in
      let myOpinion := mkDownloadOpinion (dl_publicKey s) layout (sign blockHash channelId layout) in
      s1 ← addOpinion now (mkApprovalInfo blockHash channelId [myOpinion]) s;
      shareDownloadOpinion channelId blockHash s1
  end.

(** [asyncInitiateDownloadApprovalTransactionInfo]. *)
Definition initiateDownloadApproval (now blockHash channelId : Z) (s : DownloadLimiter)
    : Outcome (list ApprovalOutput * DownloadLimiter) :=
  if dl_isDestructing s then Ret ([], s) else doInitiateDownloadApproval now blockHash channelId s.

(** [closeDriveChannels]: the channels of the drive, in the order of their ids. *)
Fixpoint closeChannels (now blockHash : Z) (ids : list Z) (s : DownloadLimiter)
    : Outcome (list ApprovalOutput * DownloadLimiter) :=
  match ids with
  | [] => Ret ([], s)
  | id :: ids' =>
      '(out1, s1) ← doInitiateDownloadApproval now blockHash id s;
      '(out2, s2) ← closeChannels now blockHash ids' s1;
      Ret (out1 ++ out2, s2)
  end.

Definition closeDriveChannels (now blockHash driveKey : Z) (s : DownloadLimiter)
    : Outcome (list ApprovalOutput * DownloadLimiter) :=
  closeChannels now blockHash
    (sorted_keys (filter (fun p => m_driveKey p.2 = driveKey) (dl_dnChannelMap s))) s.

(** [asyncDownloadApprovalTransactionHasFailedInvalidOpinions]. *)
Definition approvalHasFailed (eventHash channelId : Z) (s : DownloadLimiter)
    : Outcome (list ApprovalOutput * DownloadLimiter) :=
  if dl_isDestructing s then Ret ([], s)
  else
    match dl_dnChannelMap s !! channelId with
    | None => log_err (Ret ([], s))
    | Some ch =>
        if m_isClosed ch then Ret ([], s)
        else
          match m_downloadOpinionMap ch !! eventHash with
          | None => log_err (Ret ([], s))
          | Some e =>
              if om_approveTransactionReceived e then Ret ([], s)
              else
                let e' := set_om_sent false (set_om_opinions ∅ (set_om_timer false e)) in
                Ret (map (fun o => OpinionHasBeenReceived
                                     (mkApprovalInfo (om_eventHash e) (om_downloadChannelId e) [o]))
                       (sorted_values (om_opinions e)),
                     put_channel channelId
                       (set_opinions (<[eventHash := e']> (m_downloadOpinionMap ch)) ch) s)
          end
    end.

(** [asyncDownloadApprovalTransactionHasBeenPublished]. *)
Definition approvalHasBeenPublished (eventHash channelId : Z) (channelMustBeClosed : bool)
    (s : DownloadLimiter) : Outcome DownloadLimiter :=
  if dl_isDestructing s then Ret s
  else
    match dl_dnChannelMap s !! channelId with
    | None => log_err (Ret s)
    | Some ch =>
        Ret (if channelMustBeClosed then set_channels (delete channelId (dl_dnChannelMap s)) s
             else
               match m_downloadOpinionMap ch !! eventHash with
               | None => s
               | Some e =>
                   let e' := set_om_received true (set_om_shareTimer false (set_om_timer false e)) in
                   put_channel channelId
                     (set_opinions (<[eventHash := e']> (m_downloadOpinionMap ch)) ch) s
               end)
    end.

End Approval.
