(* ===== verification/DownloadApprovalSpec.v ===== *)
(** * Properties of the download approval

    Every operation is described by what it does to one opinion entry
    ([entry_at]); from that follow the quorum behind every transaction, the bound
    on the number of transactions, the independence of the order in which opinions
    arrive, and what the initiation of an approval sends. *)

From S2P Require Import Prelude RcptMessage DownloadChannels DownloadApproval.

(** The entry of a block in a channel. *)
Definition entry_at (s : DownloadLimiter) (id blockHash : Z) : option DownloadOpinionMapValue :=
  dl_dnChannelMap s !! id ≫= fun ch => m_downloadOpinionMap ch !! blockHash.

(** An entry survives [eraseOutdated] unless it is outdated. *)
Definition keep_fresh (now : Z) (e : option DownloadOpinionMapValue) : option DownloadOpinionMapValue :=
  e ≫= fun v => if outdated now v then None else Some v.

Lemma entry_at_put s id ch id' b :
  entry_at (put_channel id ch s) id' b =
  if decide (id' = id) then m_downloadOpinionMap ch !! b else entry_at s id' b.
Proof. unfold entry_at. cbn. case_decide; by simplify_map_eq. Qed.

(** Writing one entry of a channel. *)
Lemma entry_at_write s id0 b0 ch e id b :
  dl_dnChannelMap s !! id0 = Some ch ->
  entry_at (put_channel id0 (set_opinions (<[b0 := e]> (m_downloadOpinionMap ch)) ch) s) id b =
  if decide (id = id0 /\ b = b0) then Some e else entry_at s id b.
Proof.
  intros Ech. rewrite entry_at_put. destruct (decide (id = id0)) as [->|Hid]; cbn.
  - destruct (decide (b = b0)) as [->|Hb].
    + by rewrite lookup_insert_eq, decide_True.
    + rewrite lookup_insert_ne, decide_False by naive_solver. unfold entry_at. by rewrite Ech.
  - by rewrite decide_False by naive_solver.
Qed.

Lemma entry_at_erase now s id b :
  entry_at (set_channels (eraseOutdated now (dl_dnChannelMap s)) s) id b = keep_fresh now (entry_at s id b).
Proof.
  unfold entry_at, eraseOutdated, keep_fresh. cbn. rewrite lookup_fmap.
  destruct (dl_dnChannelMap s !! id) as [ch|]; cbn; [|done].
  destruct (m_downloadOpinionMap ch !! b) as [e|] eqn:E; cbn.
  - destruct (outdated now e) eqn:Ho.
    + apply map_lookup_filter_None. right. intros x Hx. cbn. congruence.
    + apply map_lookup_filter_Some. done.
  - apply map_lookup_filter_None. by left.
Qed.

Section Spec.
  Context (sign : Z -> Z -> list (Z * Z) -> Z) (minReplicators : nat).

(** The entry after an opinion is written into it. *)
Definition with_opinion (shard : list Z) (o : DownloadOpinion) (e : DownloadOpinionMapValue) : DownloadOpinionMapValue :=
  let e1 := set_om_opinions (<[do_replicatorKey o := o]> (om_opinions e)) e in
  if Nat.leb (opinionThreshold minReplicators shard) (size (om_opinions e1)) then set_om_timer true e1 else e1.

Definition shard_at (s : DownloadLimiter) (id : Z) : list Z :=
  default [] (m_dnReplicatorShard <$> dl_dnChannelMap s !! id).

Lemma addOpinion_entry now op s s' :
  addOpinion minReplicators now op s = Ret s' ->
  (forall id, is_Some (dl_dnChannelMap s' !! id) <-> is_Some (dl_dnChannelMap s !! id)) /\
  forall id b, entry_at s' id b =
    if decide (id = m_downloadChannelId op /\ b = m_blockHash op /\ is_Some (dl_dnChannelMap s !! id))
    then (fun o => with_opinion (shard_at s id) o
                     (default (newOpinionMapValue b id now) (keep_fresh now (entry_at s id b))))
         <$> head (m_opinions op)
    else keep_fresh now (entry_at s id b).
Proof.
  unfold addOpinion. intros H. set (s1 := set_channels _ s) in *.
  assert (forall id, is_Some (dl_dnChannelMap s1 !! id) <-> is_Some (dl_dnChannelMap s !! id)) as Hdom.
  { intros id. unfold s1, eraseOutdated. cbn. rewrite lookup_fmap. by rewrite fmap_is_Some. }
  pose proof (entry_at_erase now s) as He. fold s1 in He.
  destruct (dl_dnChannelMap s1 !! m_downloadChannelId op) as [ch|] eqn:Ech.
  - destruct (m_opinions op) as [|o os] eqn:Eo; [done|]. injection H as <-.
    assert (shard_at s (m_downloadChannelId op) = m_dnReplicatorShard ch) as Esh.
    { unfold s1, eraseOutdated in Ech. cbn in Ech. rewrite lookup_fmap in Ech. unfold shard_at.
      destruct (dl_dnChannelMap s !! m_downloadChannelId op); [|done]. by injection Ech as <-. }
    assert (forall b, m_downloadOpinionMap ch !! b = keep_fresh now (entry_at s (m_downloadChannelId op) b)) as Hm.
    { intros b. rewrite <- He. unfold entry_at. by rewrite Ech. }
    split.
    + intros id. cbn. rewrite <- Hdom. destruct (decide (id = m_downloadChannelId op)) as [->|];
        simplify_map_eq; [|done]. split; intros _; by eexists.
    + intros id b. rewrite entry_at_put. destruct (decide (id = m_downloadChannelId op)) as [->|Hid].
      * cbn. destruct (decide (b = m_blockHash op)) as [->|Hb].
        -- rewrite lookup_insert_eq, decide_True by (split_and!; [done | done | by apply Hdom]).
           unfold with_opinion. by rewrite Esh, Hm.
        -- rewrite lookup_insert_ne, Hm by done. by rewrite decide_False by naive_solver.
      * rewrite decide_False by naive_solver. apply He.
  - injection H as <-. split; [exact Hdom|]. intros id b. rewrite He.
    rewrite decide_False; [done|]. intros (-> & _ & Hs). apply Hdom in Hs. rewrite Ech in Hs. by destruct Hs.
Qed.

Lemma timer_entry id0 b0 s out s' :
  onDownloadApprovalTimeExpired id0 b0 s = Ret (out, s') ->
  exists e, entry_at s id0 b0 = Some e /\
  if om_modifyApproveTransactionSent e || om_approveTransactionReceived e then out = [] /\ s' = s
  else out = [TransactionIsReady (mkApprovalInfo (om_eventHash e) (om_downloadChannelId e)
                (sorted_values (om_opinions e)))] /\
       forall id b, entry_at s' id b =
         if decide (id = id0 /\ b = b0) then Some (set_om_sent true e) else entry_at s id b.
Proof.
  unfold onDownloadApprovalTimeExpired, entry_at at 1.
  destruct (dl_dnChannelMap s !! id0) as [ch|] eqn:Ech; cbn; [|done].
  destruct (m_downloadOpinionMap ch !! b0) as [e|] eqn:Ee; [|done]. intros H. exists e. split; [done|].
  destruct (_ || _); [by injection H as <- <-|]. injection H as <- <-. split; [done|].
  intros id b. by apply entry_at_write.
Qed.

Lemma share_entry id0 b0 s out s' :
  shareDownloadOpinion id0 b0 s = Ret (out, s') ->
  exists e o, entry_at s id0 b0 = Some e /\ om_opinions e !! dl_publicKey s = Some o /\
    out = map (fun k => SendOpinion k (mkApprovalInfo b0 id0 [o]))
            (filter (fun k => k <> dl_publicKey s) (shard_at s id0)) /\
    forall id b, entry_at s' id b =
      if decide (id = id0 /\ b = b0) then Some (set_om_shareTimer true e) else entry_at s id b.
Proof.
  unfold shareDownloadOpinion, shard_at, entry_at at 1.
  destruct (dl_dnChannelMap s !! id0) as [ch|] eqn:Ech; cbn; [|done].
  destruct (m_downloadOpinionMap ch !! b0) as [e|] eqn:Ee; [|done].
  destruct (om_opinions e !! dl_publicKey s) as [o|] eqn:Eo; [|done].
  intros [= <- <-]. exists e, o. split_and!; try done.
  intros id b. by apply entry_at_write.
Qed.

Lemma failed_entry id0 b0 s out s' :
  approvalHasFailed b0 id0 s = Ret (out, s') ->
  (out = [] /\ s' = s) \/
  exists e, entry_at s id0 b0 = Some e /\ om_approveTransactionReceived e = false /\
    out = map (fun o => OpinionHasBeenReceived (mkApprovalInfo (om_eventHash e) (om_downloadChannelId e) [o]))
            (sorted_values (om_opinions e)) /\
    forall id b, entry_at s' id b =
      if decide (id = id0 /\ b = b0)
      then Some (set_om_sent false (set_om_opinions ∅ (set_om_timer false e))) else entry_at s id b.
Proof.
  unfold approvalHasFailed, entry_at at 1. destruct (dl_isDestructing s); [intros [= <- <-]; by left|].
  destruct (dl_dnChannelMap s !! id0) as [ch|] eqn:Ech; cbn; [|done].
  destruct (m_isClosed ch); [intros [= <- <-]; by left|].
  destruct (m_downloadOpinionMap ch !! b0) as [e|] eqn:Ee; [|done].
  destruct (om_approveTransactionReceived e) eqn:Er; [intros [= <- <-]; by left|].
  intros [= <- <-]. right. exists e. split_and!; try done. intros id b. by apply entry_at_write.
Qed.

Lemma published_entry id0 b0 closed s s' id b :
  approvalHasBeenPublished b0 id0 closed s = Ret s' ->
  entry_at s' id b = entry_at s id b \/
  (id = id0 /\ closed = true /\ entry_at s' id b = None) \/
  (id = id0 /\ b = b0 /\ exists e, entry_at s id b = Some e /\
     entry_at s' id b = Some (set_om_received true (set_om_shareTimer false (set_om_timer false e)))).
Proof.
  unfold approvalHasBeenPublished. destruct (dl_isDestructing s); [intros [= <-]; by left|].
  destruct (dl_dnChannelMap s !! id0) as [ch|] eqn:Ech; [|done]. intros [= <-]. destruct closed.
  - unfold entry_at. cbn. destruct (decide (id = id0)) as [->|].
    + right. left. by simplify_map_eq.
    + left. by simplify_map_eq.
  - destruct (m_downloadOpinionMap ch !! b0) as [e|] eqn:Ee; [|by left].
    rewrite (entry_at_write s id0 b0 ch) by done. case_decide as Hd; [|by left].
    destruct Hd as [-> ->]. right. right. split; [done|]. split; [done|]. exists e.
    unfold entry_at. by rewrite Ech.
Qed.

(** The parts of the state the approval never changes. *)
Definition same_frame (s s' : DownloadLimiter) : Prop :=
  dl_publicKey s' = dl_publicKey s /\
  forall id, (fun ch => set_opinions ∅ ch) <$> dl_dnChannelMap s' !! id =
             (fun ch => set_opinions ∅ ch) <$> dl_dnChannelMap s !! id.

Lemma same_frame_refl s : same_frame s s.
Proof. done. Qed.

Lemma same_frame_trans s1 s2 s3 : same_frame s1 s2 -> same_frame s2 s3 -> same_frame s1 s3.
Proof. intros [H1 H2] [H3 H4]. split; [congruence|]. intros id. by rewrite H4. Qed.

Lemma same_frame_channel s s' id ch :
  same_frame s s' -> dl_dnChannelMap s !! id = Some ch ->
  exists ch', dl_dnChannelMap s' !! id = Some ch' /\ set_opinions ∅ ch' = set_opinions ∅ ch.
Proof.
  intros [_ H] Hch. specialize (H id). rewrite Hch in H. cbn in H.
  destruct (dl_dnChannelMap s' !! id) as [ch'|]; [|done]. exists ch'. split; [done|]. by apply (inj Some).
Qed.

Lemma frame_shard ch ch' :
  set_opinions ∅ ch' = set_opinions ∅ ch ->
  m_dnReplicatorShard ch' = m_dnReplicatorShard ch /\ createMyOpinion ch' = createMyOpinion ch /\
  m_driveKey ch' = m_driveKey ch.
Proof. destruct ch, ch'. cbn. intros [=]. unfold createMyOpinion. cbn. by subst. Qed.

Lemma same_frame_write s id b e ch :
  dl_dnChannelMap s !! id = Some ch ->
  same_frame s (put_channel id (set_opinions (<[b := e]> (m_downloadOpinionMap ch)) ch) s).
Proof.
  intros Hch. split; [done|]. intros id'. cbn.
  destruct (decide (id' = id)) as [->|]; simplify_map_eq; done.
Qed.

Lemma same_frame_erase now s : same_frame s (set_channels (eraseOutdated now (dl_dnChannelMap s)) s).
Proof.
  split; [done|]. intros id. unfold eraseOutdated. cbn. rewrite lookup_fmap.
  by destruct (dl_dnChannelMap s !! id).
Qed.

Lemma addOpinion_ret now op s :
  m_opinions op <> [] -> exists s', addOpinion minReplicators now op s = Ret s' /\ same_frame s s'.
Proof.
  intros Ho. unfold addOpinion. set (s1 := set_channels _ s).
  pose proof (same_frame_erase now s) as Hf. fold s1 in Hf.
  destruct (dl_dnChannelMap s1 !! m_downloadChannelId op) as [ch|] eqn:Ech; [|by eexists].
  destruct (m_opinions op) as [|o os]; [done|]. eexists. split; [done|].
  eapply same_frame_trans; [exact Hf|]. by apply same_frame_write.
Qed.

Lemma same_frame_shard s s' id : same_frame s s' -> shard_at s' id = shard_at s id.
Proof.
  intros [_ H]. specialize (H id). unfold shard_at.
  destruct (dl_dnChannelMap s !! id), (dl_dnChannelMap s' !! id); try done. cbn in *.
  by apply frame_shard, (inj Some).
Qed.

(** This replicator's opinion about a block. *)
Definition my_opinion (s : DownloadLimiter) (blockHash id : Z) (ch : DownloadChannelInfo) : DownloadOpinion :=
  mkDownloadOpinion (dl_publicKey s) (createMyOpinion ch) (sign blockHash id (createMyOpinion ch)).

Lemma doInitiate_ret now b0 id0 s ch :
  dl_dnChannelMap s !! id0 = Some ch ->
  let mine := my_opinion s b0 id0 ch in
  exists s', doInitiateDownloadApproval sign minReplicators now b0 id0 s =
      Ret (map (fun k => SendOpinion k (mkApprovalInfo b0 id0 [mine]))
             (filter (fun k => k <> dl_publicKey s) (m_dnReplicatorShard ch)), s') /\
    same_frame s s' /\
    forall id b, entry_at s' id b =
      if decide (id = id0 /\ b = b0)
      then Some (set_om_shareTimer true (with_opinion (m_dnReplicatorShard ch) mine
                  (default (newOpinionMapValue b0 id0 now) (keep_fresh now (entry_at s id0 b0)))))
      else keep_fresh now (entry_at s id b).
Proof.
  intros Hch mine. unfold doInitiateDownloadApproval. rewrite Hch. fold mine.
  set (op := mkApprovalInfo b0 id0 [mine]).
  destruct (addOpinion_ret now op s) as (s1 & E & Hf); [done|].
  change (addOpinion minReplicators now _ s) with (addOpinion minReplicators now op s). rewrite E. cbn.
  destruct (addOpinion_entry _ _ _ _ E) as [_ He].
  destruct (same_frame_channel _ _ _ _ Hf Hch) as (ch1 & Hch1 & Hs1).
  assert (entry_at s1 id0 b0 = Some (with_opinion (m_dnReplicatorShard ch) mine
    (default (newOpinionMapValue b0 id0 now) (keep_fresh now (entry_at s id0 b0))))) as He0.
  { rewrite He, decide_True by (split_and!; [done | done | by eexists]). cbn.
    unfold shard_at. by rewrite Hch. }
  assert (forall e0, om_opinions (with_opinion (m_dnReplicatorShard ch) mine e0) !! dl_publicKey s1 = Some mine)
    as Hmine.
  { intros e0. rewrite (proj1 Hf). unfold with_opinion. case_match; apply lookup_insert_eq. }
  unfold shareDownloadOpinion. unfold entry_at in He0. rewrite Hch1 in *. cbn in He0. rewrite He0, Hmine.
  eexists. split; [|split].
  - rewrite (proj1 Hf), (proj1 (frame_shard _ _ Hs1)). reflexivity.
  - eapply same_frame_trans; [exact Hf|]. by apply same_frame_write.
  - intros id b. rewrite (entry_at_write s1 id0 b0 ch1) by done. case_decide as Hd; [done|].
    rewrite He, decide_False by naive_solver. done.
Qed.

(** ** Runs *)

(** What can happen to the approvals of a replicator. *)
Inductive ApprovalEvent :=
  | EvOpinion (now : Z) (info : DownloadApprovalTransactionInfo)
  | EvTimer (id blockHash : Z)
  | EvShareTimer (id blockHash : Z)
  | EvInitiate (now blockHash id : Z)
  | EvClose (now blockHash driveKey : Z)
  | EvFailed (blockHash id : Z)
  | EvPublished (blockHash id : Z) (closed : bool)
  | EvShard (id : Z) (shard : list Z)
  | EvRemove (id : Z).

Definition handle (ev : ApprovalEvent) (s : DownloadLimiter) : Outcome (list ApprovalOutput * DownloadLimiter) :=
  match ev with
  | EvOpinion now info => s' ← onDownloadOpinionReceived minReplicators now info s; Ret ([], s')
  | EvTimer id b => onDownloadApprovalTimeExpired id b s
  | EvShareTimer id b => shareDownloadOpinion id b s
  | EvInitiate now b id => initiateDownloadApproval sign minReplicators now b id s
  | EvClose now b drive => closeDriveChannels sign minReplicators now b drive s
  | EvFailed b id => approvalHasFailed b id s
  | EvPublished b id closed => s' ← approvalHasBeenPublished b id closed s; Ret ([], s')
  | EvShard id shard => s' ← setChanelShard id shard s; Ret ([], s')
  | EvRemove id => Ret ([], removeChannelInfo id s)
  end.

(** A timer expires only while its object exists. *)
Definition enabled (ev : ApprovalEvent) (s : DownloadLimiter) : Prop :=
  match ev with
  | EvTimer id b => exists e, entry_at s id b = Some e /\ om_timer e = true
  | EvShareTimer id b => exists e, entry_at s id b = Some e /\ om_opinionShareTimer e = true
  | _ => True
  end.

Inductive approval_run : list ApprovalEvent -> DownloadLimiter -> list ApprovalOutput -> DownloadLimiter -> Prop :=
  | run_nil s : approval_run [] s [] s
  | run_cons ev evs s out1 s1 out2 s2 :
      enabled ev s -> handle ev s = Ret (out1, s1) -> approval_run evs s1 out2 s2 ->
      approval_run (ev :: evs) s (out1 ++ out2) s2.

(** The time an event reads, whether it can destroy an entry, whether it resets it. *)
Definition event_time (ev : ApprovalEvent) : option Z :=
  match ev with
  | EvOpinion now _ | EvInitiate now _ _ | EvClose now _ _ => Some now
  | _ => None
  end.

Definition removes (ev : ApprovalEvent) (id : Z) : Prop :=
  match ev with
  | EvRemove id' => id' = id
  | EvPublished _ id' closed => id' = id /\ closed = true
  | _ => False
  end.

Definition resets (ev : ApprovalEvent) (id b : Z) : Prop :=
  match ev with EvFailed b' id' => id' = id /\ b' = b | _ => False end.

#[export] Instance resets_dec ev id b : Decision (resets ev id b).
Proof. destruct ev; apply _. Defined.

(** The life of an entry. *)
Inductive evolves (ev : ApprovalEvent) (id b : Z) :
    option DownloadOpinionMapValue -> option DownloadOpinionMapValue -> Prop :=
  | ev_outdated e now : event_time ev = Some now -> outdated now e = true -> evolves ev id b (Some e) None
  | ev_removed e : removes ev id -> evolves ev id b e None
  | ev_opinion shard o now e : event_time ev = Some now ->
      evolves ev id b e (Some (with_opinion shard o (default (newOpinionMapValue b id now) e)))
  | ev_sent e : ev = EvTimer id b ->
      om_timer e = true -> om_modifyApproveTransactionSent e = false ->
      evolves ev id b (Some e) (Some (set_om_sent true e))
  | ev_share e : evolves ev id b (Some e) (Some (set_om_shareTimer true e))
  | ev_failed e : resets ev id b -> om_approveTransactionReceived e = false ->
      evolves ev id b (Some e) (Some (set_om_sent false (set_om_opinions ∅ (set_om_timer false e))))
  | ev_published e :
      evolves ev id b (Some e) (Some (set_om_received true (set_om_shareTimer false (set_om_timer false e)))).

Lemma keep_fresh_evolves ev id b now e :
  event_time ev = Some now -> rtc (evolves ev id b) e (keep_fresh now e).
Proof.
  intros Ht. destruct e as [v|]; [|done]. cbn. destruct (outdated now v) eqn:Ho; [|done].
  eapply rtc_once, ev_outdated; done.
Qed.

Lemma doInitiate_evolves ev now b0 id0 s ch :
  event_time ev = Some now -> dl_dnChannelMap s !! id0 = Some ch ->
  exists out s', doInitiateDownloadApproval sign minReplicators now b0 id0 s = Ret (out, s') /\
    same_frame s s' /\ Forall (fun x => exists k info, x = SendOpinion k info) out /\
    forall id b, rtc (evolves ev id b) (entry_at s id b) (entry_at s' id b).
Proof.
  intros Ht Hch. destruct (doInitiate_ret now b0 id0 s ch Hch) as (s' & E & Hf & He).
  eexists _, s'. split; [exact E|]. split; [done|]. split.
  { apply Forall_map, Forall_forall. cbn. eauto. }
  intros id b. rewrite He. case_decide as Hd; [destruct Hd as [-> ->]|by apply keep_fresh_evolves].
  etransitivity; [by apply (keep_fresh_evolves ev id0 b0 now)|].
  eapply rtc_l; [by apply ev_opinion|]. apply rtc_once, ev_share.
Qed.

Lemma closeChannels_evolves ev now b0 ids s :
  event_time ev = Some now -> Forall (fun id => is_Some (dl_dnChannelMap s !! id)) ids ->
  exists out s', closeChannels sign minReplicators now b0 ids s = Ret (out, s') /\
    same_frame s s' /\ Forall (fun x => exists k info, x = SendOpinion k info) out /\
    forall id b, rtc (evolves ev id b) (entry_at s id b) (entry_at s' id b).
Proof.
  intros Ht. revert s. induction ids as [|id0 ids IH]; intros s Hids; cbn [closeChannels].
  { exists [], s. done. }
  apply Forall_cons in Hids as [[ch Hch] Hids].
  destruct (doInitiate_evolves ev now b0 id0 s ch Ht Hch) as (o1 & s1 & -> & F1 & O1 & E1). cbn.
  destruct (IH s1) as (o2 & s2 & -> & F2 & O2 & E2).
  { eapply Forall_impl; [exact Hids|]. intros id [c Hc].
    destruct (same_frame_channel _ _ _ _ F1 Hc) as (c' & -> & _). by eexists. }
  cbn. eexists _, _. split; [done|]. split; [exact (same_frame_trans _ _ _ F1 F2)|].
  split; [by apply Forall_app|]. intros id b. etransitivity; [apply E1 | apply E2].
Qed.

Lemma closing_ids (s : DownloadLimiter) drive :
  Forall (fun id => is_Some (dl_dnChannelMap s !! id))
    (sorted_keys (filter (fun p => m_driveKey p.2 = drive) (dl_dnChannelMap s))).
Proof.
  apply Forall_forall. intros id [ch Hch]%elem_of_sorted_keys.
  apply map_lookup_filter_Some in Hch as [Hch _]. by eexists.
Qed.

Lemma sends_no_transaction out :
  Forall (fun x => exists k info, x = SendOpinion k info) out ->
  forall info, TransactionIsReady info ∉ out.
Proof.
  intros Hout info Hin. rewrite Forall_forall in Hout.
  destruct (Hout _ Hin) as (k & i & E). discriminate E.
Qed.

(** What an event sends and how it changes every entry. *)
Lemma handle_evolves ev s out s' :
  enabled ev s -> handle ev s = Ret (out, s') ->
  (forall id b, rtc (evolves ev id b) (entry_at s id b) (entry_at s' id b)) /\
  forall info, TransactionIsReady info ∈ out ->
    exists id b e, ev = EvTimer id b /\ out = [TransactionIsReady info] /\ entry_at s id b = Some e /\
      om_timer e = true /\ om_modifyApproveTransactionSent e = false /\
      om_approveTransactionReceived e = false /\ entry_at s' id b = Some (set_om_sent true e) /\
      info = mkApprovalInfo (om_eventHash e) (om_downloadChannelId e) (sorted_values (om_opinions e)).
Proof.
  assert (forall s, (forall id b, rtc (evolves ev id b) (entry_at s id b) (entry_at s id b)) /\
    forall info, TransactionIsReady info ∈ [] -> False) as Hnone.
  { intros s0. split; [done|]. intros info H. by apply elem_of_nil in H. }
  intros Hen H. destruct ev as [now info|id0 b0|id0 b0|now b0 id0|now b0 drive|b0 id0|b0 id0 closed|id0 shard|id0];
    cbn [handle] in H.
  - apply bind_ret_inv in H as (s1 & H & [= <- <-]). split; [|by intros ? ?%Hnone].
    unfold onDownloadOpinionReceived in H. destruct (dl_isDestructing s); [by injection H as <-|].
    destruct (Nat.eqb_spec (length (m_opinions info)) 1); [|done].
    apply addOpinion_entry in H as [_ He]. intros id b. rewrite He.
    destruct (m_opinions info) as [|o [|]]; [done| |done]. cbn.
    case_decide as Hd; [|by apply keep_fresh_evolves].
    etransitivity; [by apply (keep_fresh_evolves _ id b now)|]. by eapply rtc_once, ev_opinion.
  - apply timer_entry in H as (e & He & H). destruct Hen as (e' & He' & Ht).
    rewrite He in He'. injection He' as <-.
    destruct (om_modifyApproveTransactionSent e) eqn:Hs; [destruct H as [-> ->]; split; [done|by intros ? ?%Hnone]|].
    destruct (om_approveTransactionReceived e) eqn:Hr; [destruct H as [-> ->]; split; [done|by intros ? ?%Hnone]|].
    destruct H as [-> H]. split.
    + intros id b. rewrite H. case_decide as Hd; [|done]. destruct Hd as [-> ->]. rewrite He.
      by apply rtc_once, ev_sent.
    + intros info Hin%list_elem_of_singleton. injection Hin as ->. exists id0, b0, e. split_and!; try done.
      rewrite H, decide_True; done.
  - apply share_entry in H as (e & o & He & _ & -> & H). split.
    + intros id b. rewrite H. case_decide as Hd; [|done]. destruct Hd as [-> ->]. rewrite He.
      by apply rtc_once, ev_share.
    + intros info Hin. exfalso. revert Hin. apply sends_no_transaction, Forall_map, Forall_forall. cbn. eauto.
  - unfold initiateDownloadApproval in H. destruct (dl_isDestructing s).
    { injection H as <- <-. split; [done|by intros ? ?%Hnone]. }
    destruct (dl_dnChannelMap s !! id0) as [ch|] eqn:Hch.
    + destruct (doInitiate_evolves (EvInitiate now b0 id0) now b0 id0 s ch)
        as (o & s1 & E & _ & Ho & He); [done..|]. rewrite E in H. injection H as <- <-.
      split; [done|]. intros info Hin. by destruct (sends_no_transaction _ Ho info).
    + unfold doInitiateDownloadApproval in H. rewrite Hch in H. done.
  - unfold closeDriveChannels in H.
    destruct (closeChannels_evolves (EvClose now b0 drive) now b0 _ s eq_refl (closing_ids s drive))
      as (o & s1 & E & _ & Ho & He). rewrite E in H. injection H as <- <-.
    split; [done|]. intros info Hin. by destruct (sends_no_transaction _ Ho info).
  - apply failed_entry in H as [[-> ->]|(e & He & Hr & -> & H)].
    { split; [done|by intros ? ?%Hnone]. }
    split.
    + intros id b. rewrite H. case_decide as Hd; [|done]. destruct Hd as [-> ->]. rewrite He.
      by apply rtc_once, ev_failed.
    + intros info Hin. apply list_elem_of_fmap in Hin as (o & E & _). discriminate E.
  - apply bind_ret_inv in H as (s1 & H & [= <- <-]). split; [|by intros ? ?%Hnone]. intros id b.
    destruct (published_entry id0 b0 closed s s1 id b H) as [->|[(-> & -> & ->)|(-> & -> & e & -> & ->)]]; [done| |].
    + by apply rtc_once, ev_removed.
    + apply rtc_once, ev_published.
  - apply bind_ret_inv in H as (s1 & H & [= <- <-]). split; [|by intros ? ?%Hnone]. intros id b.
    apply setChanelShard_cases in H as (ch & Hch & ->). rewrite entry_at_put.
    case_decide as Hd; [subst|done]. unfold entry_at. by rewrite Hch.
  - injection H as <- <-. split; [|by intros ? ?%Hnone]. intros id b. unfold removeChannelInfo.
    destruct (dl_isDestructing s); [done|]. unfold entry_at. cbn.
    destruct (decide (id = id0)) as [->|]; simplify_map_eq; [|done]. by apply rtc_once, ev_removed.
Qed.

(** ** The quorum behind a transaction *)

Record entry_wf (id b : Z) (e : DownloadOpinionMapValue) : Prop := {
  ew_hash : om_eventHash e = b;
  ew_channel : om_downloadChannelId e = id;
  ew_keys k o : om_opinions e !! k = Some o -> do_replicatorKey o = k;
  ew_quorum : om_timer e = true -> (minReplicators * 2 / 3 + 1 <= size (om_opinions e))%nat }.

Definition entries_wf (s : DownloadLimiter) : Prop :=
  forall id b e, entry_at s id b = Some e -> entry_wf id b e.

Lemma with_opinion_wf id b shard o e : entry_wf id b e -> entry_wf id b (with_opinion shard o e).
Proof.
  intros [H1 H2 H3 H4]. set (m := <[do_replicatorKey o := o]> (om_opinions e)).
  assert (forall k o', m !! k = Some o' -> do_replicatorKey o' = k) as Hk.
  { intros k o'. unfold m. rewrite lookup_insert_Some. intros [[<- <-]|[_ ?]]; auto. }
  assert (size (om_opinions e) <= size m)%nat as Hsize.
  { unfold m. destruct (om_opinions e !! do_replicatorKey o) as [o'|] eqn:E.
    - rewrite map_size_insert_Some; [done | by exists o'].
    - rewrite map_size_insert_None by done. lia. }
  unfold with_opinion. fold m. set (e1 := set_om_opinions m e). change (om_opinions e1) with m.
  destruct (Nat.leb _ _) eqn:Hle.
  - apply Nat.leb_le in Hle. split; [done | done | exact Hk |]. intros _.
    change (om_opinions (set_om_timer true e1)) with m. etransitivity; [|exact Hle].
    unfold opinionThreshold. apply Nat.add_le_mono_r, Nat.Div0.div_le_mono. lia.
  - split; [done | done | exact Hk |]. intros Ht. etransitivity; [by apply H4 | done].
Qed.

Lemma evolves_wf ev id b e e' :
  rtc (evolves ev id b) e e' ->
  (forall v, e = Some v -> entry_wf id b v) -> forall v, e' = Some v -> entry_wf id b v.
Proof.
  induction 1 as [|e1 e2 e3 Hstep _ IH]; [done|]. intros H1. apply IH. clear IH.
  destruct Hstep as [| |shard o now e Ht|e|e|e|e]; intros v Hv; try done; injection Hv as <-.
  - apply with_opinion_wf. destruct e as [v|]; cbn; [by apply H1 | by split].
  - destruct (H1 _ eq_refl). by split.
  - destruct (H1 _ eq_refl). by split.
  - destruct (H1 _ eq_refl). by split.
  - destruct (H1 _ eq_refl). by split.
Qed.

Lemma handle_wf ev s out s' :
  enabled ev s -> handle ev s = Ret (out, s') -> entries_wf s -> entries_wf s'.
Proof.
  intros Hen H Hwf id b e He. destruct (handle_evolves _ _ _ _ Hen H) as [Hev _].
  eapply evolves_wf; [apply (Hev id b) | | exact He]. intros v Hv. by apply Hwf.
Qed.

(** A transaction is made of the opinions of different replicators. *)
Lemma sorted_opinions_keys id b e :
  entry_wf id b e -> map do_replicatorKey (sorted_values (om_opinions e)) = sorted_keys (om_opinions e).
Proof.
  intros Hwf. unfold sorted_values, sorted_keys. rewrite map_map.
  apply map_ext_in. intros [k o] Hin. cbn. apply (ew_keys _ _ _ Hwf).
  by apply elem_of_sorted_entries, list_elem_of_In.
Qed.

(** From a state without opinions, whatever opinions, expiries, failures,
    publications and shard changes happen, every approval transaction this
    replicator sends carries opinions of at least [minReplicators * 2 / 3 + 1]
    different replicators, in the order of their keys. *)
Lemma approval_quorum evs s out s' info :
  (forall id b, entry_at s id b = None) -> approval_run evs s out s' -> TransactionIsReady info ∈ out ->
  (minReplicators * 2 / 3 + 1 <= length (m_opinions info))%nat /\
  NoDup (map do_replicatorKey (m_opinions info)) /\
  StronglySorted Z.le (map do_replicatorKey (m_opinions info)).
Proof.
  intros Hnone Hrun. assert (entries_wf s) as Hwf by (intros id b e; by rewrite Hnone). clear Hnone.
  induction Hrun as [s|ev evs s out1 s1 out2 s2 Hen H _ IH]; [by intros ?%elem_of_nil|].
  intros [Hin|Hin]%elem_of_app; [|apply IH; [by eapply handle_wf | done]].
  destruct (handle_evolves _ _ _ _ Hen H) as [_ Htx].
  destruct (Htx _ Hin) as (id & b & e & _ & _ & He & Ht & _ & _ & _ & ->). cbn.
  pose proof (Hwf _ _ _ He) as Hw. rewrite (sorted_opinions_keys id b) by done. split_and!.
  - rewrite length_sorted_values. by apply (ew_quorum _ _ _ Hw).
  - apply NoDup_sorted_keys.
  - apply StronglySorted_sorted_keys.
Qed.

(** ** The number of transactions *)

Definition is_tx (id b : Z) (o : ApprovalOutput) : bool :=
  match o with
  | TransactionIsReady i => (m_downloadChannelId i =? id) && (m_blockHash i =? b)
  | _ => false
  end.

Definition tx_count (id b : Z) (out : list ApprovalOutput) : nat := length (List.filter (is_tx id b) out).
Definition reset_count (id b : Z) (evs : list ApprovalEvent) : nat :=
  length (filter (fun ev => resets ev id b) evs).

(** 1 when no transaction may be sent for the entry. *)
Definition settled (e : option DownloadOpinionMapValue) : nat :=
  match e with
  | Some v => if om_modifyApproveTransactionSent v || om_approveTransactionReceived v then 1 else 0
  | None => 0
  end.

Lemma tx_count_app id b o1 o2 : tx_count id b (o1 ++ o2) = (tx_count id b o1 + tx_count id b o2)%nat.
Proof. unfold tx_count. by rewrite List.filter_app, length_app. Qed.

(** Not outdated within an hour of its creation. *)
Lemma not_outdated t0 now e :
  t0 <= om_creationTime e -> now <= t0 + 3600 * 1000000 -> outdated now e = false.
Proof.
  intros. unfold outdated. apply Z.ltb_ge. change (60 * 60) with 3600.
  etransitivity; [apply (Z.quot_le_mono _ (3600 * 1000000)); lia|]. by vm_compute.
Qed.

(** What holds of the entry of [(id, b)] while its clock has not run out. *)
Definition young (t0 : Z) (e : option DownloadOpinionMapValue) : Prop :=
  match e with Some v => t0 <= om_creationTime v | None => True end.

Definition timely (t0 : Z) (id : Z) (ev : ApprovalEvent) : Prop :=
  ~ removes ev id /\
  match event_time ev with Some now => t0 <= now <= t0 + 3600 * 1000000 | None => True end.

Lemma settled_le e : (settled e <= 1)%nat.
Proof. destruct e as [v|]; cbn; [case_match|]; lia. Qed.

(** A published entry stays so while its clock runs. *)
Definition received (e : option DownloadOpinionMapValue) : Prop :=
  match e with Some v => om_approveTransactionReceived v = true | None => False end.

Lemma evolves_step t0 ev id b e e' :
  timely t0 id ev -> evolves ev id b e e' -> young t0 e ->
  young t0 e' /\ (~ resets ev id b -> (settled e <= settled e')%nat) /\ (received e -> received e').
Proof.
  intros [Hrm Htime] Hstep Hy.
  destruct Hstep as [v now Ht Ho|v Hr|shard o now v Ht|v E Ht Hs|v|v Hr Hf|v]; cbn in Hy |- *.
  - rewrite Ht in Htime. by rewrite (not_outdated t0) in Ho by lia.
  - done.
  - rewrite Ht in Htime. unfold with_opinion.
    destruct v as [v|]; cbn in *; destruct (Nat.leb _ _); cbn; split_and!; try done; lia.
  - split_and!; [done | intros _; rewrite Hs; destruct (om_approveTransactionReceived v); cbn; lia | done].
  - done.
  - split_and!; [done | done | congruence].
  - split_and!; [done | intros _; rewrite orb_true_r; destruct (_ || _); lia | done].
Qed.

Lemma evolves_settled t0 ev id b e e' :
  timely t0 id ev -> rtc (evolves ev id b) e e' -> young t0 e ->
  young t0 e' /\ (settled e <= settled e' + if decide (resets ev id b) then 1 else 0)%nat /\
  (received e -> received e').
Proof.
  intros Hev. induction 1 as [e|e1 e2 e3 Hstep _ IH]; intros Hy; [split_and!; [done|lia|done]|].
  destruct (evolves_step _ _ _ _ _ _ Hev Hstep Hy) as (H1 & H2 & H3).
  destruct (IH H1) as (H4 & H5 & H6). split_and!; [done | | auto].
  pose proof (settled_le e1). case_decide; [lia|]. specialize (H2 ltac:(done)). lia.
Qed.

Lemma run_tx_count t0 id b evs s out s' :
  Forall (timely t0 id) evs -> entries_wf s -> young t0 (entry_at s id b) -> approval_run evs s out s' ->
  (tx_count id b out + settled (entry_at s id b) <= settled (entry_at s' id b) + reset_count id b evs)%nat.
Proof.
  intros Ht Hwf Hy Hrun. induction Hrun as [s|ev evs s out1 s1 out2 s2 Hen H _ IH]; [cbn; lia|].
  apply Forall_cons in Ht as [Hev Ht].
  destruct (handle_evolves _ _ _ _ Hen H) as [He Htx].
  destruct (evolves_settled t0 ev id b _ _ Hev (He id b) Hy) as (Hy1 & Hset & _).
  specialize (IH Ht (handle_wf _ _ _ _ Hen H Hwf) Hy1). rewrite tx_count_app.
  assert (reset_count id b (ev :: evs) =
    (if decide (resets ev id b) then 1 else 0) + reset_count id b evs)%nat as ->.
  { unfold reset_count. rewrite filter_cons. by case_decide. }
  enough (tx_count id b out1 + settled (entry_at s id b) <=
          settled (entry_at s1 id b) + if decide (resets ev id b) then 1 else 0)%nat by lia.
  destruct (List.filter (is_tx id b) out1) as [|x l] eqn:Ef.
  { unfold tx_count. rewrite Ef. cbn. lia. }
  assert (x ∈ List.filter (is_tx id b) out1) as Hx by (rewrite Ef; left).
  apply list_elem_of_In, filter_In in Hx as [Hx Hb].
  destruct x as [info| |]; [|discriminate Hb..]. apply list_elem_of_In in Hx.
  destruct (Htx _ Hx) as (id1 & b1 & e & -> & -> & He1 & _ & Hs1 & Hr1 & He2 & ->).
  pose proof (Hwf _ _ _ He1) as Hw. cbn in Hb. rewrite (ew_channel _ _ _ Hw), (ew_hash _ _ _ Hw) in Hb.
  apply andb_prop in Hb as [->%Z.eqb_eq ->%Z.eqb_eq]. rewrite He1, He2.
  assert (settled (Some e) = 0%nat) as -> by (cbn; by rewrite Hs1, Hr1).
  change (settled (Some (set_om_sent true e))) with 1%nat.
  enough (tx_count id b [TransactionIsReady (mkApprovalInfo (om_eventHash e) (om_downloadChannelId e)
    (sorted_values (om_opinions e)))] <= 1)%nat by lia.
  unfold tx_count. cbn [List.filter]. destruct (is_tx id b _); cbn; lia.
Qed.

Lemma run_received t0 id b evs s out s' :
  Forall (timely t0 id) evs -> entries_wf s -> young t0 (entry_at s id b) -> approval_run evs s out s' ->
  received (entry_at s id b) -> tx_count id b out = 0%nat.
Proof.
  intros Ht Hwf Hy Hrun. induction Hrun as [s|ev evs s out1 s1 out2 s2 Hen H _ IH]; [done|]. intros Hr.
  apply Forall_cons in Ht as [Hev Ht].
  destruct (handle_evolves _ _ _ _ Hen H) as [He Htx].
  destruct (evolves_settled t0 ev id b _ _ Hev (He id b) Hy) as (Hy1 & _ & Hr1).
  rewrite tx_count_app, (IH Ht (handle_wf _ _ _ _ Hen H Hwf) Hy1) by auto.
  rewrite Nat.add_0_r. unfold tx_count.
  destruct (List.filter (is_tx id b) out1) as [|x l] eqn:Ef; [done|]. exfalso.
  assert (x ∈ List.filter (is_tx id b) out1) as Hx by (rewrite Ef; left).
  apply list_elem_of_In, filter_In in Hx as [Hx Hb].
  destruct x as [info| |]; [|discriminate Hb..]. apply list_elem_of_In in Hx.
  destruct (Htx _ Hx) as (id1 & b1 & e & -> & -> & He1 & _ & _ & Hf & _ & ->).
  pose proof (Hwf _ _ _ He1) as Hw. cbn in Hb. rewrite (ew_channel _ _ _ Hw), (ew_hash _ _ _ Hw) in Hb.
  apply andb_prop in Hb as [->%Z.eqb_eq ->%Z.eqb_eq]. rewrite He1 in Hr. cbn in Hr. congruence.
Qed.

Lemma run_wf_young t0 id b evs s out s' :
  Forall (timely t0 id) evs -> entries_wf s -> young t0 (entry_at s id b) -> approval_run evs s out s' ->
  entries_wf s' /\ young t0 (entry_at s' id b).
Proof.
  intros Ht Hwf Hy Hrun. induction Hrun as [s|ev evs s out1 s1 out2 s2 Hen H _ IH]; [done|].
  apply Forall_cons in Ht as [Hev Ht].
  destruct (handle_evolves _ _ _ _ Hen H) as [He _].
  destruct (evolves_settled t0 ev id b _ _ Hev (He id b) Hy) as (Hy1 & _ & _).
  apply IH; [done | by eapply handle_wf | done].
Qed.

(** C18: within an hour of the first opinion, and while the channel exists, this
    replicator sends at most one approval transaction for a block, plus one per
    reported failure; and none at all once the transaction has been published. *)
Theorem approval_at_most_once t0 id b evs1 evs2 s out1 s1 out2 s2 :
  Forall (timely t0 id) (evs1 ++ evs2) -> (forall id b, entry_at s id b = None) ->
  approval_run evs1 s out1 s1 -> approval_run evs2 s1 out2 s2 ->
  (tx_count id b out1 <= 1 + reset_count id b evs1)%nat /\
  (received (entry_at s1 id b) -> tx_count id b out2 = 0%nat).
Proof.
  intros [Ht1 Ht2]%Forall_app Hnone H1 H2.
  assert (entries_wf s) as Hwf by (intros ? ? e; by rewrite Hnone).
  assert (young t0 (entry_at s id b)) as Hy by (by rewrite Hnone).
  pose proof (run_tx_count _ _ _ _ _ _ _ Ht1 Hwf Hy H1) as Hc. pose proof (settled_le (entry_at s1 id b)).
  destruct (run_wf_young _ _ _ _ _ _ _ Ht1 Hwf Hy H1) as [Hwf1 Hy1].
  split; [lia|]. by apply (run_received t0 id b evs2 s1 out2 s2).
Qed.

(** ** The order of the opinions *)

Lemma with_opinion_eq shard o e :
  with_opinion shard o e =
  let m := <[do_replicatorKey o := o]> (om_opinions e) in
  mkOpinionMapValue (om_eventHash e) (om_downloadChannelId e) m (om_modifyApproveTransactionSent e)
    (om_approveTransactionReceived e)
    (om_timer e || Nat.leb (opinionThreshold minReplicators shard) (size m))
    (om_opinionShareTimer e) (om_creationTime e).
Proof.
  unfold with_opinion, set_om_timer. cbn [om_opinions set_om_opinions].
  destruct (Nat.leb _ _); cbn; [by rewrite orb_true_r | by rewrite orb_false_r].
Qed.

Lemma insert_size_le (m : gmap Z DownloadOpinion) k o : (size m <= size (<[k := o]> m))%nat.
Proof.
  destruct (m !! k) as [o'|] eqn:E.
  - rewrite map_size_insert_Some; [done | by exists o'].
  - rewrite map_size_insert_None by done. lia.
Qed.

Lemma with_opinion_comm shard o1 o2 e :
  do_replicatorKey o1 <> do_replicatorKey o2 ->
  with_opinion shard o2 (with_opinion shard o1 e) = with_opinion shard o1 (with_opinion shard o2 e).
Proof.
  intros Hne. rewrite !with_opinion_eq.
  cbn [om_opinions om_timer om_eventHash om_downloadChannelId om_modifyApproveTransactionSent
       om_approveTransactionReceived om_opinionShareTimer om_creationTime].
  rewrite (insert_insert_ne (om_opinions e) (do_replicatorKey o1) (do_replicatorKey o2)) by done.
  set (m1 := <[do_replicatorKey o1 := o1]> (om_opinions e)).
  set (m2 := <[do_replicatorKey o2 := o2]> (om_opinions e)).
  set (T := opinionThreshold minReplicators shard). f_equal.
  pose proof (insert_size_le m2 (do_replicatorKey o1) o1) as H2.
  assert (<[do_replicatorKey o1 := o1]> m2 = <[do_replicatorKey o2 := o2]> m1) as E
    by (unfold m1, m2; by rewrite insert_insert_ne).
  pose proof (insert_size_le m1 (do_replicatorKey o2) o2) as H1. rewrite E in H2.
  destruct (om_timer e), (Nat.leb_spec T (size m1)), (Nat.leb_spec T (size m2)),
    (Nat.leb_spec T (size (<[do_replicatorKey o2 := o2]> m1))); try done; lia.
Qed.

Lemma keep_fresh_idemp now e : keep_fresh now (keep_fresh now e) = keep_fresh now e.
Proof. destruct e as [v|]; cbn; [|done]. destruct (outdated now v) eqn:E; cbn; by rewrite ?E. Qed.

Lemma keep_fresh_with_opinion now shard o id b e :
  let v := with_opinion shard o (default (newOpinionMapValue b id now) (keep_fresh now e)) in
  keep_fresh now (Some v) = Some v.
Proof.
  intros v. cbn. assert (outdated now v = false) as ->; [|done].
  unfold v. rewrite with_opinion_eq. unfold outdated. cbn.
  destruct e as [w|]; cbn; [destruct (outdated now w) eqn:E; cbn|]; rewrite ?Z.sub_diag; done.
Qed.

Lemma addOpinion_one now b0 id0 o s s' :
  addOpinion minReplicators now (mkApprovalInfo b0 id0 [o]) s = Ret s' ->
  (forall id b id1 b1 : Z, id = id1 /\ b = b1 /\ is_Some (dl_dnChannelMap s' !! id) <->
                       id = id1 /\ b = b1 /\ is_Some (dl_dnChannelMap s !! id)) /\
  forall id b, entry_at s' id b =
    if decide (id = id0 /\ b = b0 /\ is_Some (dl_dnChannelMap s !! id))
    then Some (with_opinion (shard_at s id) o
                (default (newOpinionMapValue b id now) (keep_fresh now (entry_at s id b))))
    else keep_fresh now (entry_at s id b).
Proof.
  intros [D H]%addOpinion_entry. split; [intros; by rewrite D|]. exact H.
Qed.

(** Two opinions of different replicators (or about different blocks or
    channels) can arrive in either order: every entry, its opinions and its
    timer are the same afterwards. *)
Lemma addOpinion_comm now id1 b1 o1 id2 b2 o2 s :
  ~ (id1 = id2 /\ b1 = b2 /\ do_replicatorKey o1 = do_replicatorKey o2) ->
  exists s12 s21,
    (addOpinion minReplicators now (mkApprovalInfo b1 id1 [o1]) s
       ≫= addOpinion minReplicators now (mkApprovalInfo b2 id2 [o2])) = Ret s12 /\
    (addOpinion minReplicators now (mkApprovalInfo b2 id2 [o2]) s
       ≫= addOpinion minReplicators now (mkApprovalInfo b1 id1 [o1])) = Ret s21 /\
    forall id b, entry_at s12 id b = entry_at s21 id b.
Proof.
  intros Hne.
  destruct (addOpinion_ret now (mkApprovalInfo b1 id1 [o1]) s) as (s1 & E1 & F1); [done|].
  destruct (addOpinion_ret now (mkApprovalInfo b2 id2 [o2]) s1) as (s12 & E12 & _); [done|].
  destruct (addOpinion_ret now (mkApprovalInfo b2 id2 [o2]) s) as (s2 & E2 & F2); [done|].
  destruct (addOpinion_ret now (mkApprovalInfo b1 id1 [o1]) s2) as (s21 & E21 & _); [done|].
  exists s12, s21. rewrite E1, E2. cbn. rewrite E12, E21. split_and!; [done..|].
  apply addOpinion_one in E1 as [D1 H1], E12 as [_ H12], E2 as [D2 H2], E21 as [_ H21].
  intros id b. rewrite H12, H21, (same_frame_shard _ _ id F1), (same_frame_shard _ _ id F2).
  rewrite (decide_ext _ _ _ _ (D1 id b id2 b2)), (decide_ext _ _ _ _ (D2 id b id1 b1)), H1, H2.
  clear - Hne. repeat case_decide; rewrite ?keep_fresh_with_opinion, ?keep_fresh_idemp; try done.
  cbn [from_option Datatypes.id]. rewrite with_opinion_comm; [done | naive_solver].
Qed.

(** ** Closing a drive *)

(** What the initiation for one channel sends. *)
Definition shared (s : DownloadLimiter) (blockHash id : Z) : list ApprovalOutput :=
  match dl_dnChannelMap s !! id with
  | Some ch => map (fun k => SendOpinion k (mkApprovalInfo blockHash id [my_opinion s blockHash id ch]))
                 (filter (fun k => k <> dl_publicKey s) (m_dnReplicatorShard ch))
  | None => []
  end.

Lemma shared_frame s s' b id : same_frame s s' -> shared s' b id = shared s b id.
Proof.
  intros Hf. unfold shared. destruct (dl_dnChannelMap s !! id) as [ch|] eqn:E.
  - destruct (same_frame_channel _ _ _ _ Hf E) as (ch' & -> & Hs).
    apply frame_shard in Hs as (Hs & Ho & _). unfold my_opinion. by rewrite Hs, Ho, (proj1 Hf).
  - destruct Hf as [_ Hf]. specialize (Hf id). rewrite E in Hf. by destruct (dl_dnChannelMap s' !! id).
Qed.

(** The own opinion is in the entry and is being repeated. *)
Definition own_opinion_shared (s : DownloadLimiter) (b id : Z) (ch : DownloadChannelInfo) : Prop :=
  exists e, entry_at s id b = Some e /\ om_opinionShareTimer e = true /\
    om_opinions e !! dl_publicKey s = Some (my_opinion s b id ch).

Lemma closeChannels_spec now b ids s :
  NoDup ids -> Forall (fun id => is_Some (dl_dnChannelMap s !! id)) ids ->
  exists s', closeChannels sign minReplicators now b ids s = Ret (concat (map (shared s b) ids), s') /\
    same_frame s s' /\
    (forall id, id ∉ ids -> entry_at s' id b = entry_at s id b \/ entry_at s' id b = keep_fresh now (entry_at s id b)) /\
    forall id ch, id ∈ ids -> dl_dnChannelMap s !! id = Some ch -> own_opinion_shared s' b id ch.
Proof.
  intros Hnd. revert s. induction Hnd as [|id0 ids Hni Hnd IH]; intros s Hids; cbn [closeChannels].
  { exists s. split_and!; try done; [by left | by intros id ch ?%elem_of_nil]. }
  apply Forall_cons in Hids as [[ch0 Hch0] Hids].
  destruct (doInitiate_ret now b id0 s ch0 Hch0) as (s1 & -> & F1 & E1). cbn.
  destruct (IH s1) as (s2 & -> & F2 & E2 & O2).
  { eapply Forall_impl; [exact Hids|]. intros id [c Hc].
    destruct (same_frame_channel _ _ _ _ F1 Hc) as (c' & -> & _). by eexists. }
  cbn. exists s2. split_and!.
  - f_equal. f_equal. f_equal; [unfold shared at 1; by rewrite Hch0|]. f_equal.
    apply map_ext. intros id. by apply shared_frame.
  - exact (same_frame_trans _ _ _ F1 F2).
  - intros id [Hne Hnin]%not_elem_of_cons. destruct (E2 id Hnin) as [-> | ->]; rewrite E1;
      rewrite decide_False by naive_solver; rewrite ?keep_fresh_idemp; by right.
  - intros id ch [->|Hin]%elem_of_cons Hch.
    + rewrite Hch0 in Hch. injection Hch as <-. specialize (E1 id0 b). rewrite decide_True in E1 by done.
      assert (entry_at s2 id0 b = entry_at s1 id0 b) as Hsame.
      { destruct (E2 id0 Hni) as [H|H]; [done|]. rewrite H, E1. cbn.
        pose proof (keep_fresh_with_opinion now (m_dnReplicatorShard ch0) (my_opinion s b id0 ch0) id0 b
          (entry_at s id0 b)) as Hk. cbn in Hk. unfold outdated in *. cbn in *.
        destruct (60 * 60 <? _) eqn:Ho in Hk |- *; [discriminate Hk | done]. }
      eexists. split; [rewrite Hsame; exact E1|]. split; [done|].
      unfold my_opinion. rewrite (proj1 F2), (proj1 F1). rewrite with_opinion_eq. cbn. apply lookup_insert_eq.
    + destruct (same_frame_channel _ _ _ _ F1 Hch) as (ch' & Hch' & Hs).
      destruct (O2 id ch' Hin Hch') as (e & He & Ht & Ho). exists e. split_and!; try done.
      rewrite Ho. unfold my_opinion. by rewrite (proj1 (proj2 (frame_shard _ _ Hs))).
Qed.

(** Closing a drive never fails an assertion.  For every channel of the drive,
    in the order of the channel ids, this replicator's signed opinion is sent to
    every other member of the channel's shard; it reports, for each member in the
    shard's order, the receipts accepted for that member.  Afterwards the opinion
    is in the entry of the block and is going to be repeated, and no channel of
    another drive gets an opinion. *)
Lemma closeDriveChannels_spec now b drive s :
  exists s', closeDriveChannels sign minReplicators now b drive s =
      Ret (concat (map (shared s b)
             (sorted_keys (filter (fun p => m_driveKey p.2 = drive) (dl_dnChannelMap s)))), s') /\
  forall id ch, dl_dnChannelMap s !! id = Some ch ->
    if decide (m_driveKey ch = drive)
    then own_opinion_shared s' b id ch /\ map fst (createMyOpinion ch) = m_dnReplicatorShard ch
    else entry_at s' id b = entry_at s id b \/ entry_at s' id b = keep_fresh now (entry_at s id b).
Proof.
  unfold closeDriveChannels. set (m := filter _ (dl_dnChannelMap s)).
  destruct (closeChannels_spec now b (sorted_keys m) s (NoDup_sorted_keys m) (closing_ids s drive))
    as (s' & -> & _ & Hout & Hin).
  exists s'. split; [done|]. intros id ch Hch. case_decide as Hd.
  - split.
    + apply Hin; [|done]. apply elem_of_sorted_keys. exists ch. by apply map_lookup_filter_Some.
    + unfold createMyOpinion. rewrite map_map. rewrite <- (map_id (m_dnReplicatorShard ch)) at 2.
      apply map_ext. intros k. by destruct (m_replicatorUploadRequestMap ch !! k).
  - apply Hout. intros [ch' [Hch' Hd']%map_lookup_filter_Some]%elem_of_sorted_keys. by simplify_eq.
Qed.
End Spec.

(** ** Examples *)

Definition approvalLimiter : DownloadLimiter :=
  mkLimiter 1 {[9 := mkChannel false 100 0 {[7 := 0]} {[2 := {[7 := mkReceiptSizes 40 0]}]}
                       50 [1; 2; 3] ∅ ∅ false]} ∅ 1000 ∅ false false.

Definition opinionOf (k : Z) : DownloadApprovalTransactionInfo :=
  mkApprovalInfo 77 9 [mkDownloadOpinion k [(1, 0); (2, 40); (3, 0)] 5].

Definition sampleEvents : list ApprovalEvent :=
  [EvInitiate 10 77 9; EvOpinion 20 (opinionOf 3); EvOpinion 30 (opinionOf 2); EvTimer 9 77; EvTimer 9 77].

(** The run of a list of events, when every step is enabled and returns. *)
Fixpoint run_events (sign : Z -> Z -> list (Z * Z) -> Z) (mr : nat) (evs : list ApprovalEvent)
    (s : DownloadLimiter) : Outcome (list ApprovalOutput * DownloadLimiter) :=
  match evs with
  | [] => Ret ([], s)
  | ev :: evs' =>
      '(o1, s1) ← handle sign mr ev s;
      '(o2, s2) ← run_events sign mr evs' s1;
      Ret (o1 ++ o2, s2)
  end.

(** [enabled] as a test. *)
Definition enabledb (ev : ApprovalEvent) (s : DownloadLimiter) : bool :=
  match ev with
  | EvTimer id b => from_option om_timer false (entry_at s id b)
  | EvShareTimer id b => from_option om_opinionShareTimer false (entry_at s id b)
  | _ => true
  end.

Fixpoint all_enabled (sign : Z -> Z -> list (Z * Z) -> Z) (mr : nat) (evs : list ApprovalEvent)
    (s : DownloadLimiter) : bool :=
  match evs with
  | [] => true
  | ev :: evs' =>
      enabledb ev s && match handle sign mr ev s with Ret (_, s1) => all_enabled sign mr evs' s1 | _ => false end
  end.

Lemma run_events_run sign mr evs s out s' :
  all_enabled sign mr evs s = true -> run_events sign mr evs s = Ret (out, s') ->
  approval_run sign mr evs s out s'.
Proof.
  revert s out. induction evs as [|ev evs IH]; intros s out Hen H; cbn in Hen, H.
  { injection H as <- <-. constructor. }
  apply andb_prop in Hen as [He Hen]. destruct (handle sign mr ev s) as [[o1 s1]|] eqn:E; [|done].
  cbn in H. destruct (run_events sign mr evs s1) as [[o2 s2]|] eqn:E2; [|done]. injection H as <- <-.
  eapply run_cons; [|exact E|by apply IH].
  destruct ev; cbn in He |- *; try done;
    (destruct (entry_at _ _ _) as [e|]; [by exists e | discriminate He]).
Qed.

Lemma approvalLimiter_empty id b : entry_at approvalLimiter id b = None.
Proof.
  unfold entry_at, approvalLimiter. cbn [dl_dnChannelMap].
  destruct (decide (id = 9)) as [->|]; by simplify_map_eq.
Qed.

Lemma approval_quorum_witness : exists out s' info,
  run_events (fun _ _ _ => 0) 4 sampleEvents approvalLimiter = Ret (out, s') /\
  TransactionIsReady info ∈ out /\ (3 <= length (m_opinions info))%nat.
Proof.
  destruct (run_events (fun _ _ _ => 0) 4 sampleEvents approvalLimiter) as [[out s']|] eqn:E;
    [|vm_compute in E; discriminate E].
  destruct (List.filter (is_tx 9 77) out) as [|x l] eqn:Ef;
    [vm_compute in E; injection E as <- _; vm_compute in Ef; discriminate Ef|].
  assert (In x (List.filter (is_tx 9 77) out)) as Hx by (rewrite Ef; left; reflexivity).
  apply filter_In in Hx as [Hx Hb]. destruct x as [info| |]; [|discriminate Hb..].
  apply list_elem_of_In in Hx. exists out, s', info. split; [reflexivity|]. split; [exact Hx|].
  refine (proj1 (approval_quorum (fun _ _ _ => 0) 4 sampleEvents approvalLimiter out s' info
    approvalLimiter_empty (run_events_run _ _ _ _ _ _ _ E) Hx)). vm_compute. reflexivity.
Defined.

Lemma approval_at_most_once_witness : exists out s',
  run_events (fun _ _ _ => 0) 4 sampleEvents approvalLimiter = Ret (out, s') /\
  tx_count 9 77 out = 1%nat /\ (tx_count 9 77 out <= 1)%nat.
Proof.
  destruct (run_events (fun _ _ _ => 0) 4 sampleEvents approvalLimiter) as [[out s']|] eqn:E;
    [|vm_compute in E; discriminate E].
  exists out, s'. split; [reflexivity|]. split; [vm_compute in E; injection E as <- _; vm_compute; reflexivity|].
  apply (approval_at_most_once (fun _ _ _ => 0) 4 0 9 77 sampleEvents [] approvalLimiter out s' [] s').
  - repeat (constructor; [split; [cbn; tauto | cbn; lia]|]). constructor.
  - exact approvalLimiter_empty.
  - apply run_events_run; [vm_compute; reflexivity | exact E].
  - constructor.
Defined.

Lemma addOpinion_comm_witness : exists s12 s21,
  (addOpinion 1 10 (opinionOf 2) approvalLimiter ≫= addOpinion 1 10 (opinionOf 3)) = Ret s12 /\
  (addOpinion 1 10 (opinionOf 3) approvalLimiter ≫= addOpinion 1 10 (opinionOf 2)) = Ret s21 /\
  forall id b, entry_at s12 id b = entry_at s21 id b.
Proof.
  apply (addOpinion_comm 1 10 9 77 (mkDownloadOpinion 2 [(1, 0); (2, 40); (3, 0)] 5)
    9 77 (mkDownloadOpinion 3 [(1, 0); (2, 40); (3, 0)] 5) approvalLimiter).
  cbn. intros (_ & _ & H). discriminate H.
Defined.

(** After a reported failure the opinions are cleared but the timer that repeats
    the own opinion still runs: when it expires before the opinion is there
    again, the assertion of [shareDownloadOpinion] fails. *)
Example share_after_failure :
  match run_events (fun _ _ _ => 0) 4 [EvInitiate 10 77 9; EvFailed 77 9] approvalLimiter with
  | Ret (_, s) =>
      enabledb (EvShareTimer 9 77) s = true /\
      handle (fun _ _ _ => 0) 4 (EvShareTimer 9 77) s = Stop AssertFailure
  | Stop _ => False
  end.
Proof. vm_compute. split; reflexivity. Qed.
