(* ===== verification/ModifyOpinion.v ===== *)
(** * Accounting of modification uploads ([src/drive/ModifyOpinionController.h])

    A replicator reports, with every modification it approves, how many bytes it
    has received from each uploader since the beginning.  The controller turns the
    measured traffic of one modification into shares of the paid size
    ([normalizeUploads]) and adds them to the cumulative totals; approving makes
    the totals definitive, cancelling restores the approved ones.

    The background saves are returned as the list of the values written, in
    order; the callback that follows them is the caller's next step.  The
    conversion of a 128-bit quotient to 64 bits belongs to Boost.Multiprecision
    and is a parameter. *)

From S2P Require Import Prelude DownloadChannels.

(** ** Data *)

Abbreviation Uploads := (gmap Z Z).

Record CumulativeUploads := mkCumulative { m_modificationId : Z; m_uploads : Uploads }.

Record ModifyOpinionController := mkController {
  oc_clientKey : Z;
  oc_approvedExpectedCumulativeDownload : Z;
  oc_approvedCumulativeUploads : CumulativeUploads;
  oc_notApprovedCumulativeUploads : CumulativeUploads }.

(** [saveRestartValue]. *)
Inductive RestartWrite :=
  | SaveNotApproved (v : CumulativeUploads)
  | SaveApproved (v : CumulativeUploads)
  | SaveApprovedModification (id : Z).

Definition set_expected (v : Z) (c : ModifyOpinionController) : ModifyOpinionController :=
  mkController (oc_clientKey c) v (oc_approvedCumulativeUploads c) (oc_notApprovedCumulativeUploads c).
Definition set_approved (v : CumulativeUploads) (c : ModifyOpinionController) : ModifyOpinionController :=
  mkController (oc_clientKey c) (oc_approvedExpectedCumulativeDownload c) v (oc_notApprovedCumulativeUploads c).
Definition set_notApproved (v : CumulativeUploads) (c : ModifyOpinionController) : ModifyOpinionController :=
  mkController (oc_clientKey c) (oc_approvedExpectedCumulativeDownload c) (oc_approvedCumulativeUploads c) v.

(** [std::accumulate] of the sizes, in 64 bits. *)
Definition accumulate (m : Uploads) : Z := u64 (map_sum (fun v => v) m).

(** ** Operations *)

Section Controller.
  (** [to64] is [uint128_t::convert_to<uint64_t>]. *)
  Context (to64 : Z -> Z).

(** The share of an uploader: the product and the quotient are 128-bit. *)
Definition share (targetSum sumBefore uploadBytes : Z) : Z :=
  to64 (uploadBytes * targetSum / sumBefore).

(** [normalizeUploads]. *)
Definition normalizeUploads (clientKey : Z) (uploads : Uploads) (targetSum : Z) : Outcome Uploads :=
  guard_assert (bool_decide (is_Some (uploads !! clientKey)))
    (let sumBefore := accumulate uploads in
     if 0 <? sumBefore then
       let shares := map_imap (fun k v => Some (if decide (k = clientKey) then v
                                                else share targetSum sumBefore v)) uploads in
       let sumAfter := accumulate (delete clientKey shares) in
       guard_assert (sumAfter <=? targetSum)
         (Ret (<[clientKey := u64_sub targetSum sumAfter]> shares))
     else Ret (<[clientKey := targetSum]> uploads)).

(** The measured traffic of the replicators and of the client. *)
Definition currentUploads (clientKey : Z) (replicators : list Z) (traffic : gmap Z ModifyTraffic) : Uploads :=
  let received k := m_receivedSize (default noTraffic (traffic !! k)) in
  <[clientKey := received clientKey]>
    (foldl (fun m k => <[k := received k]> m) ∅ replicators).

(** Adding the shares of one modification to the totals. *)
Definition addUploads (uploads shares : Uploads) : Uploads :=
  union_with (fun a b => Some (u64_add a b)) uploads shares.

(** [updateCumulativeUploads]; the drive's traffic map is cleared by
    [resetCurrentModifyInfo]. *)
Definition updateCumulativeUploads (modificationId : Z) (replicators : list Z) (addCumulativeDownload : Z)
    (traffic : gmap Z ModifyTraffic) (c : ModifyOpinionController)
    : Outcome (list RestartWrite * gmap Z ModifyTraffic * ModifyOpinionController) :=
  let current := currentUploads (oc_clientKey c) replicators traffic in
  let accounted := accumulate (m_uploads (oc_notApprovedCumulativeUploads c)) in
  let expected := u64_add (oc_approvedExpectedCumulativeDownload c) addCumulativeDownload in
  guard_assert (0 <? expected)
    (guard_assert (accounted <=? expected)
      (shares ← normalizeUploads (oc_clientKey c) current (u64_sub expected accounted);
       let v := mkCumulative modificationId
                  (addUploads (m_uploads (oc_notApprovedCumulativeUploads c)) shares) in
       Ret ([SaveNotApproved v], ∅, set_notApproved v c))).

(** [increaseApprovedExpectedCumulativeDownload]. *)
Definition increaseApprovedExpectedCumulativeDownload (add : Z) (c : ModifyOpinionController)
    : ModifyOpinionController :=
  set_expected (u64_add (oc_approvedExpectedCumulativeDownload c) add) c.

(** [fillOpinion]. *)
Definition fillOpinion (replicatorsUploads : list (Z * Z)) (c : ModifyOpinionController)
    : Outcome (list (Z * Z)) :=
  guard_assert (bool_decide (replicatorsUploads = []))
    (Ret (sorted_entries (m_uploads (oc_notApprovedCumulativeUploads c)))).

(** [approveCumulativeUploads]. *)
Definition approveCumulativeUploads (modificationId : Z) (c : ModifyOpinionController)
    : Outcome (list RestartWrite * ModifyOpinionController) :=
  let v := oc_notApprovedCumulativeUploads c in
  guard_assert (modificationId =? m_modificationId v)
    (Ret ([SaveApproved v; SaveApprovedModification modificationId],
          set_expected (Z.max (oc_approvedExpectedCumulativeDownload c) (accumulate (m_uploads v)))
            (set_approved v c))).

(** [disapproveCumulativeUploads]. *)
Definition disapproveCumulativeUploads (c : ModifyOpinionController)
    : list RestartWrite * gmap Z ModifyTraffic * ModifyOpinionController :=
  let v := oc_approvedCumulativeUploads c in
  ([SaveNotApproved v], ∅, set_notApproved v c).

(** [notApprovedModificationId] and [approvedModificationId]. *)
Definition notApprovedModificationId (c : ModifyOpinionController) : Z :=
  m_modificationId (oc_notApprovedCumulativeUploads c).
Definition approvedModificationId (c : ModifyOpinionController) : Z :=
  m_modificationId (oc_approvedCumulativeUploads c).

End Controller.
