(* ===== verification/ModifyOpinionSpec.v ===== *)
(** * Properties of the upload accounting

    The shares of a modification add up to the paid size and are proportional to
    the measured traffic; the totals of an opinion add up to everything paid so
    far, over any sequence of approved and cancelled modifications. *)

From S2P Require Import Prelude DownloadChannels ModifyOpinion.

(** ** Sums *)

Abbreviation total := (map_sum (fun v => v)).

Definition uploads_ok (m : Uploads) : Prop := map_Forall (fun _ v => 0 <= v) m.

Lemma total_nonneg m : uploads_ok m -> 0 <= total m.
Proof. intros H. apply map_sum_nonneg. exact H. Qed.

Lemma accumulate_total m : uploads_ok m -> total m < two64 -> accumulate m = total m.
Proof. intros H1 H2. apply u64_small. split; [by apply total_nonneg | done]. Qed.

Lemma total_lookup_le (m : Uploads) k v : uploads_ok m -> m !! k = Some v -> 0 <= v <= total m.
Proof.
  intros Hm Hk. split; [by apply (Hm k)|]. by apply (map_sum_lookup_le (fun v => v) m k v Hm).
Qed.

(** Rounding every share down loses less than one unit per entry. *)
Lemma total_shares (m : Uploads) T S :
  0 < S -> S * map_sum (fun v => v * T / S) m <= T * total m <=
           S * (map_sum (fun v => v * T / S) m + Z.of_nat (size m)).
Proof.
  intros HS. induction m as [|k v m Hk IH] using map_ind.
  - rewrite !map_sum_empty, map_size_empty. lia.
  - rewrite !map_sum_insert, map_size_insert_None by done.
    pose proof (Z.div_mod (v * T) S). pose proof (Z.mod_pos_bound (v * T) S HS). lia.
Qed.

Lemma uploads_ok_delete k m : uploads_ok m -> uploads_ok (delete k m).
Proof. apply map_Forall_delete. Qed.

Lemma uploads_ok_insert k v m : 0 <= v -> uploads_ok m -> uploads_ok (<[k := v]> m).
Proof. intros. by apply map_Forall_insert_2. Qed.

(** ** Adding two maps *)

Lemma addUploads_lookup (a b : Uploads) k :
  addUploads a b !! k =
  match a !! k, b !! k with
  | Some x, Some y => Some (u64_add x y) | Some x, None => Some x | None, y => y
  end.
Proof. unfold addUploads. rewrite lookup_union_with. by destruct (a !! k), (b !! k). Qed.

Lemma total_union (a b : Uploads) :
  total (union_with (fun x y => Some (x + y)) a b) = total a + total b.
Proof.
  revert a. induction b as [|k v b Hk IH] using map_ind; intros a.
  - rewrite map_sum_empty, (right_id_L ∅ (union_with _)). lia.
  - rewrite (map_sum_insert _ b) by done. destruct (a !! k) as [x|] eqn:Ha.
    + rewrite (map_sum_delete _ a k x Ha). rewrite <- (insert_delete_id a k x Ha) at 1.
      rewrite <- (insert_union_with _ _ _ k x v (x + v)) by done.
      rewrite map_sum_insert, IH; [lia|].
      by rewrite lookup_union_with, lookup_delete_eq, Hk.
    + rewrite <- insert_union_with_r by done. rewrite map_sum_insert, IH; [lia|].
      by rewrite lookup_union_with, Ha, Hk.
Qed.

Lemma addUploads_total a b :
  uploads_ok a -> uploads_ok b -> total a + total b < two64 ->
  total (addUploads a b) = total a + total b /\ uploads_ok (addUploads a b) /\
  forall k, default 0 (a !! k) <= default 0 (addUploads a b !! k).
Proof.
  intros Ha Hb Hsum.
  pose proof (total_nonneg a Ha). pose proof (total_nonneg b Hb).
  assert (addUploads a b = union_with (fun x y => Some (x + y)) a b) as E.
  { apply map_eq. intros k. rewrite addUploads_lookup, lookup_union_with.
    destruct (a !! k) as [x|] eqn:Ea, (b !! k) as [y|] eqn:Eb; cbn; try done.
    pose proof (total_lookup_le a k x Ha Ea). pose proof (total_lookup_le b k y Hb Eb).
    rewrite u64_add_small; [done | unfold is_u64; lia]. }
  split; [by rewrite E, total_union|].
  assert (forall k, default 0 (addUploads a b !! k) = default 0 (a !! k) + default 0 (b !! k)) as Hk.
  { intros k. rewrite E, lookup_union_with. destruct (a !! k), (b !! k); cbn; lia. }
  assert (forall (m : Uploads) k, uploads_ok m -> 0 <= default 0 (m !! k)) as Hnn.
  { intros m k Hm. destruct (m !! k) eqn:Em; cbn; [by apply (Hm k) | done]. }
  split.
  - intros k v Hv. specialize (Hk k). rewrite Hv in Hk. cbn in Hk. rewrite Hk.
    pose proof (Hnn a k Ha). pose proof (Hnn b k Hb). lia.
  - intros k. rewrite Hk. pose proof (Hnn b k Hb). lia.
Qed.

(** ** One modification *)

Section Controller.
  Context (to64 : Z -> Z) (to64_small : forall z, is_u64 z -> to64 z = z).

Lemma share_exact T S v :
  0 <= v <= S -> is_u64 T -> share to64 T S v = v * T / S.
Proof.
  intros Hv HT. unfold share. apply to64_small. destruct (decide (S = 0)) as [->|HS].
  { rewrite Zdiv_0_r. by compute. }
  unfold is_u64 in *. split; [apply Z.div_pos; nia|].
  apply Z.div_lt_upper_bound; nia.
Qed.

Definition sharesOf (T : Z) (m : Uploads) : Uploads := (fun v => v * T / total m) <$> m.

(** The shares add up exactly to the target; every uploader but the client gets
    its measured part rounded down and the client gets the rest. *)
Lemma normalizeUploads_shares client m T vc :
  uploads_ok m -> total m < two64 -> is_u64 T -> m !! client = Some vc ->
  exists m', normalizeUploads to64 client m T = Ret m' /\ uploads_ok m' /\ total m' = T /\
    (forall k, k <> client -> m' !! k = (fun v => v * T / total m) <$> m !! k) /\
    exists c, m' !! client = Some c /\
      (0 < total m -> vc * T / total m <= c < vc * T / total m + Z.of_nat (size m)).
Proof.
  intros Hm Hlt HT Hc. unfold normalizeUploads. rewrite bool_decide_eq_true_2 by (by eexists).
  cbn [guard_assert]. rewrite accumulate_total by done.
  pose proof (total_nonneg m Hm) as Hnn. set (S := total m) in *.
  destruct (0 <? S) eqn:HS.
  - apply Z.ltb_lt in HS. set (shares := map_imap _ m).
    assert (forall k, k <> client -> shares !! k = (fun v => v * T / S) <$> m !! k) as Hsh.
    { intros k Hk. unfold shares. rewrite map_lookup_imap. destruct (m !! k) as [v|] eqn:Ev; cbn; [|done].
      rewrite decide_False by done. rewrite share_exact; [done | | done].
      by apply (total_lookup_le m k v). }
    assert (delete client shares = (fun v => v * T / S) <$> delete client m) as Hd.
    { apply map_eq. intros k. rewrite lookup_fmap. destruct (decide (k = client)) as [->|Hk].
      - by rewrite !lookup_delete_eq.
      - rewrite !lookup_delete_ne by done. by apply Hsh. }
    pose proof (uploads_ok_delete client m Hm) as Hmd.
    assert (uploads_ok (delete client shares)) as Hdok.
    { rewrite Hd. intros k v. rewrite lookup_fmap. intros (u & Hu & ->)%fmap_Some.
      apply Z.div_pos; [|lia]. specialize (Hmd k u Hu). cbv beta in Hmd. unfold is_u64 in HT. nia. }
    pose proof (total_shares (delete client m) T S HS) as Hts.
    pose proof (map_sum_delete (fun v => v) m client vc Hc) as HSd. cbv beta in HSd. fold S in HSd.
    assert (total (delete client shares) = map_sum (fun v => v * T / S) (delete client m)) as Ht
      by (by rewrite Hd, map_sum_fmap).
    set (F := map_sum (fun v => v * T / S) (delete client m)) in *.
    assert (0 <= F) as HF by (rewrite <- Ht; by apply total_nonneg).
    assert (0 <= vc) as Hvc by (by apply (Hm client)).
    assert (total (delete client m) = S - vc) as Hrest by lia. rewrite Hrest in Hts.
    assert (0 <= T) as HT0 by (unfold is_u64 in HT; lia).
    assert (F <= T) as HFT.
    { apply (Z.mul_le_mono_pos_l _ _ S HS). etransitivity; [apply Hts|].
      rewrite Z.mul_sub_distr_l. pose proof (Z.mul_nonneg_nonneg T vc HT0 Hvc). lia. }
    rewrite accumulate_total by (done || (rewrite Ht; unfold is_u64 in HT; lia)).
    rewrite Ht, (proj2 (Z.leb_le _ _) HFT). cbn [guard_assert].
    rewrite u64_sub_small by (unfold is_u64 in *; lia).
    eexists. split; [done|].
    assert (<[client := T - F]> shares = <[client := T - F]> (delete client shares)) as Ei
      by (by rewrite insert_delete_eq).
    split_and!.
    + rewrite Ei. apply uploads_ok_insert; [lia | done].
    + rewrite Ei, map_sum_insert, Ht by apply lookup_delete_eq. lia.
    + intros k Hk. rewrite lookup_insert_ne by done. by apply Hsh.
    + eexists. split; [apply lookup_insert_eq|]. intros _.
      assert (Z.of_nat (size m) = Z.of_nat (size (delete client m)) + 1) as Hsz.
      { rewrite <- (insert_delete_id m client vc Hc) at 1.
        rewrite map_size_insert_None by apply lookup_delete_eq. lia. }
      assert (S <> 0) as HS0 by lia. pose proof (Z.div_mod (vc * T) S HS0). pose proof (Z.mod_pos_bound (vc * T) S HS).
      rewrite Hsz. set (q := vc * T / S) in *. set (n := Z.of_nat (size (delete client m))) in *.
      rewrite Z.mul_sub_distr_l, Z.mul_add_distr_l in Hts. split.
      * apply (Z.mul_le_mono_pos_l _ _ S HS). rewrite Z.mul_sub_distr_l. lia.
      * apply (Z.mul_lt_mono_pos_l S _ _ HS). rewrite Z.mul_sub_distr_l, !Z.mul_add_distr_l. lia.
  - apply Z.ltb_ge in HS. assert (S = 0) as HS0 by lia.
    assert (forall k v, m !! k = Some v -> v = 0) as Hz.
    { intros k v Hv. pose proof (total_lookup_le m k v Hm Hv) as Hkv. fold S in Hkv. lia. }
    eexists. split; [done|]. split_and!.
    + apply uploads_ok_insert; [unfold is_u64 in HT; lia | done].
    + rewrite (map_sum_update _ _ _ _ _ Hc). fold S. rewrite (Hz _ _ Hc). lia.
    + intros k Hk. rewrite lookup_insert_ne by done. rewrite HS0.
      destruct (m !! k) as [v|] eqn:Ev; cbn; [|done]. by rewrite Zdiv_0_r, (Hz k v Ev).
    + eexists. split; [apply lookup_insert_eq|]. lia.
Qed.

Definition traffic_ok (traffic : gmap Z ModifyTraffic) : Prop :=
  map_Forall (fun _ t => 0 <= m_receivedSize t) traffic.

Lemma currentUploads_ok client replicators traffic :
  traffic_ok traffic -> uploads_ok (currentUploads client replicators traffic) /\
  is_Some (currentUploads client replicators traffic !! client).
Proof.
  intros Ht. unfold currentUploads.
  assert (forall k, 0 <= m_receivedSize (default noTraffic (traffic !! k))) as Hr.
  { intros k. destruct (traffic !! k) eqn:E; cbn; [by apply (Ht k) | done]. }
  split; [|rewrite lookup_insert_eq; by eexists].
  apply uploads_ok_insert; [done|].
  assert (uploads_ok ∅) as H0 by apply map_Forall_empty. revert H0.
  generalize (∅ : Uploads). induction replicators as [|k l IH]; intros m Hm; cbn; [done|].
  apply IH. by apply uploads_ok_insert.
Qed.

(** A controller between two modifications, or after an update. *)
Definition controller_ok (c : ModifyOpinionController) : Prop :=
  uploads_ok (m_uploads (oc_approvedCumulativeUploads c)) /\
  uploads_ok (m_uploads (oc_notApprovedCumulativeUploads c)) /\
  0 <= oc_approvedExpectedCumulativeDownload c.

(** What the measured traffic entitles an uploader to. *)
Definition entitled (T : Z) (measured : Uploads) (k : Z) : Z :=
  default 0 (measured !! k) * T / total measured.

Lemma update_shares id replicators add traffic c :
  controller_ok c -> traffic_ok traffic ->
  let E := oc_approvedExpectedCumulativeDownload c + add in
  let old := m_uploads (oc_notApprovedCumulativeUploads c) in
  let measured := currentUploads (oc_clientKey c) replicators traffic in
  0 <= add -> 0 < E < two64 -> total old <= E -> total measured < two64 ->
  exists new, updateCumulativeUploads to64 id replicators add traffic c =
      Ret ([SaveNotApproved (mkCumulative id new)], ∅, set_notApproved (mkCumulative id new) c) /\
    uploads_ok new /\ total new = E /\
    (forall k, k <> oc_clientKey c ->
       default 0 (new !! k) = default 0 (old !! k) + entitled (E - total old) measured k) /\
    (forall k, default 0 (old !! k) <= default 0 (new !! k)).
Proof.
  intros (Ha & Hn & HE0) Ht E old measured Hadd HE Hold Hmeas. unfold updateCumulativeUploads.
  fold measured. fold old. destruct (currentUploads_ok (oc_clientKey c) replicators traffic Ht) as [Hmok [vc Hvc]].
  fold measured in Hmok, Hvc. pose proof (total_nonneg old Hn) as Hnn.
  rewrite u64_add_small by (unfold is_u64; lia). fold E.
  rewrite accumulate_total by (done || lia).
  rewrite (proj2 (Z.ltb_lt 0 E)), (proj2 (Z.leb_le (total old) E)) by lia. cbn [guard_assert].
  rewrite u64_sub_small by (unfold is_u64; lia).
  destruct (normalizeUploads_shares (oc_clientKey c) measured (E - total old) vc)
    as (m' & -> & Hm' & Htot & Hshare & _); [done | done | unfold is_u64; lia | done |]. cbn [mbind outcome_bind].
  destruct (addUploads_total old m') as (Hsum & Hok & Hmono); [done | done | lia |].
  eexists. split; [done|]. split_and!; [done | lia | | done].
  intros k Hk. unfold entitled.
  rewrite addUploads_lookup, (Hshare k Hk).
  destruct (measured !! k) as [v|] eqn:Ev; cbn.
  - pose proof (Hshare k Hk) as Hm'k. rewrite Ev in Hm'k. cbn in Hm'k.
    pose proof (total_lookup_le m' k _ Hm' Hm'k) as Hb.
    destruct (old !! k) as [x|] eqn:Ex; cbn; [|done].
    pose proof (total_lookup_le old k x Hn Ex). rewrite u64_add_small; [done | unfold is_u64; lia].
  - rewrite Z.mul_0_l, Zdiv_0_l. destruct (old !! k); cbn; lia.
Qed.

(** [updateCumulativeUploads] with a sane traffic map never fails an assertion.
    The new totals add up exactly to the expected cumulative download, no total
    decreases, every uploader but the client is credited with its measured part of
    the unaccounted size, and the opinion filled from it lists the uploaders in the
    order of their keys with sizes that add up to the expected download. *)
Lemma updateCumulativeUploads_spec id replicators add traffic c :
  controller_ok c -> traffic_ok traffic ->
  let E := oc_approvedExpectedCumulativeDownload c + add in
  let old := m_uploads (oc_notApprovedCumulativeUploads c) in
  let measured := currentUploads (oc_clientKey c) replicators traffic in
  0 <= add -> 0 < E < two64 -> total old <= E -> total measured < two64 ->
  exists writes c' layout,
    updateCumulativeUploads to64 id replicators add traffic c = Ret (writes, ∅, c') /\
    writes = [SaveNotApproved (oc_notApprovedCumulativeUploads c')] /\
    fillOpinion [] c' = Ret layout /\
    StronglySorted Z.le (map fst layout) /\ NoDup (map fst layout) /\
    foldr Z.add 0 (map snd layout) = E /\
    forall k, default 0 (old !! k) <= default 0 (m_uploads (oc_notApprovedCumulativeUploads c') !! k) /\
      (k <> oc_clientKey c -> default 0 (m_uploads (oc_notApprovedCumulativeUploads c') !! k) =
         default 0 (old !! k) + entitled (E - total old) measured k).
Proof.
  intros Hc Ht E old measured Hadd HE Hold Hmeas.
  destruct (update_shares id replicators add traffic c Hc Ht Hadd HE Hold Hmeas)
    as (new & -> & Hok & Htot & Hsh & Hmono).
  eexists _, _, _. split; [done|]. split; [done|]. split; [done|]. split_and!.
  - apply StronglySorted_sorted_keys.
  - apply NoDup_sorted_keys.
  - unfold E. rewrite <- Htot, <- map_sum_sorted. by rewrite (map_id (map snd _)).
  - intros k. split; [apply Hmono | apply Hsh].
Qed.

(** ** A sequence of modifications *)

(** A modification that is executed and then published or cancelled. *)
Record Modification := mkModification {
  mod_id : Z; mod_replicators : list Z; mod_size : Z; mod_traffic : gmap Z ModifyTraffic;
  mod_published : bool }.

Definition run_modification (m : Modification) (c : ModifyOpinionController)
    : Outcome ModifyOpinionController :=
  '(_, _, c1) ← updateCumulativeUploads to64 (mod_id m) (mod_replicators m) (mod_size m) (mod_traffic m) c;
  if mod_published m then '(_, c2) ← approveCumulativeUploads (mod_id m) c1; Ret c2
  else Ret (disapproveCumulativeUploads c1).2.

Fixpoint run_modifications (ms : list Modification) (c : ModifyOpinionController)
    : Outcome ModifyOpinionController :=
  match ms with
  | [] => Ret c
  | m :: ms' => c1 ← run_modification m c; run_modifications ms' c1
  end.

Definition modification_ok (client : Z) (m : Modification) : Prop :=
  0 < mod_size m /\ traffic_ok (mod_traffic m) /\
  total (currentUploads client (mod_replicators m) (mod_traffic m)) < two64.

Definition published_size (ms : list Modification) : Z :=
  foldr (fun m acc => if mod_published m then mod_size m + acc else acc) 0 ms.
Definition all_sizes (ms : list Modification) : Z := foldr (fun m acc => mod_size m + acc) 0 ms.

(** Between modifications the two totals agree and are covered by what was paid. *)
Definition idle (c : ModifyOpinionController) : Prop :=
  controller_ok c /\
  m_uploads (oc_notApprovedCumulativeUploads c) = m_uploads (oc_approvedCumulativeUploads c) /\
  total (m_uploads (oc_approvedCumulativeUploads c)) <= oc_approvedExpectedCumulativeDownload c.

Lemma run_modification_idle m c :
  idle c -> modification_ok (oc_clientKey c) m ->
  oc_approvedExpectedCumulativeDownload c + mod_size m < two64 ->
  exists c', run_modification m c = Ret c' /\ idle c' /\ oc_clientKey c' = oc_clientKey c /\
    oc_approvedExpectedCumulativeDownload c' =
      oc_approvedExpectedCumulativeDownload c + (if mod_published m then mod_size m else 0) /\
    if mod_published m
    then total (m_uploads (oc_approvedCumulativeUploads c')) = oc_approvedExpectedCumulativeDownload c' /\
         approvedModificationId c' = mod_id m
    else oc_approvedCumulativeUploads c' = oc_approvedCumulativeUploads c.
Proof.
  intros (Hc & Heq & Hle) (Hs & Ht & Hm) Hlt. unfold run_modification.
  destruct Hc as (Ha & Hn & HE) eqn:EHc. clear EHc.
  destruct (update_shares (mod_id m) (mod_replicators m) (mod_size m) (mod_traffic m) c)
    as (new & -> & Hok & Htot & _ & _); [done | done | lia | lia | rewrite Heq; lia | done |].
  cbn [mbind outcome_bind]. destruct (mod_published m).
  - unfold approveCumulativeUploads. cbn. rewrite Z.eqb_refl. cbn [guard_assert].
    rewrite accumulate_total by (done || lia). cbn [mbind outcome_bind]. rewrite Z.max_r by lia.
    eexists. split; [done|]. split; [|split_and!; try done; cbn; lia].
    split; [|split; [done | cbn; lia]]. split_and!; cbn; [done | done | lia].
  - eexists. split; [done|]. split_and!; try done. cbn. lia.
Qed.

(** C26: over any sequence of modifications, each published or cancelled, no
    assertion fails; the expected download grows by the sizes of the published
    ones only; once one is published the approved totals add up exactly to it and
    carry the id of the last published one; a run of cancellations leaves the
    approved totals as they were. *)
Theorem cumulative_accounting ms c :
  idle c -> Forall (modification_ok (oc_clientKey c)) ms ->
  oc_approvedExpectedCumulativeDownload c + all_sizes ms < two64 ->
  exists c', run_modifications ms c = Ret c' /\ idle c' /\
    oc_approvedExpectedCumulativeDownload c' =
      oc_approvedExpectedCumulativeDownload c + published_size ms /\
    match last (filter (fun m => mod_published m = true) ms) with
    | Some m => total (m_uploads (oc_approvedCumulativeUploads c')) =
                  oc_approvedExpectedCumulativeDownload c' /\ approvedModificationId c' = mod_id m
    | None => oc_approvedCumulativeUploads c' = oc_approvedCumulativeUploads c
    end.
Proof.
  intros Hidle Hms Hlt. revert c Hidle Hms Hlt.
  induction ms as [|m ms IH]; intros c Hidle Hms Hlt; cbn [run_modifications].
  { exists c. split_and!; try done. cbn. lia. }
  apply Forall_cons in Hms as [Hm Hms].
  change (all_sizes (m :: ms)) with (mod_size m + all_sizes ms) in Hlt.
  assert (0 <= all_sizes ms) as Hnn.
  { clear -Hms. induction Hms as [|x l Hx _ IH]; [done|]. destruct Hx as [Hx _].
    change (0 <= mod_size x + all_sizes l). lia. }
  destruct (run_modification_idle m c Hidle Hm ltac:(lia)) as (c1 & -> & Hi1 & Hk1 & HE1 & Hp1).
  destruct Hm as [Hpos _].
  destruct (IH c1 Hi1) as (c2 & Hr & Hi2 & HE2 & Hp2).
  { by rewrite Hk1. }
  { rewrite HE1. destruct (mod_published m); lia. }
  cbn [mbind outcome_bind]. rewrite Hr. exists c2. split; [done|]. split; [done|]. split.
  - rewrite HE2, HE1. change (published_size (m :: ms)) with
      (if mod_published m then mod_size m + published_size ms else published_size ms).
    destruct (mod_published m); lia.
  - rewrite filter_cons. destruct (mod_published m) eqn:Hpub.
    + rewrite decide_True by done. destruct (filter _ ms) as [|x l] eqn:Ef.
      * cbn. cbn in Hp2. destruct Hp1 as [Hp1 Hid].
        assert (published_size ms = 0) as Hps.
        { clear -Ef. induction ms as [|y ms IH]; [done|]. rewrite filter_cons in Ef.
          case_decide as Hy; [done|]. cbn. destruct (mod_published y); [done|]. by apply IH. }
        unfold approvedModificationId in *. rewrite Hp2, Hp1. split; [lia | done].
      * change (last (m :: x :: l)) with (last (x :: l)). destruct (last (x :: l)) eqn:El; [exact Hp2|].
        by apply last_None in El.
    + rewrite decide_False by done. destruct (last _); [done|]. congruence.
Qed.

End Controller.

(** ** Witnesses *)

Definition sampleTraffic : gmap Z ModifyTraffic :=
  <[5 := mkTraffic 70 0]> {[2 := mkTraffic 50 0]}.

Definition sampleController : ModifyOpinionController :=
  mkController 5 0 (mkCumulative 0 ∅) (mkCumulative 0 ∅).

Lemma sampleTraffic_ok : traffic_ok sampleTraffic.
Proof. apply map_Forall_insert_2; [discriminate|]. apply map_Forall_singleton. discriminate. Qed.

Lemma sampleController_idle : idle sampleController.
Proof.
  assert (uploads_ok ∅) as H by exact (map_Forall_empty _).
  split; [split; [exact H | split; [exact H | discriminate]]|]. split; [reflexivity | discriminate].
Qed.

Lemma updateCumulativeUploads_spec_witness : exists c' layout,
  updateCumulativeUploads (fun z => z) 11 [2; 3] 1000 sampleTraffic sampleController =
    Ret ([SaveNotApproved (oc_notApprovedCumulativeUploads c')], ∅, c') /\
  fillOpinion [] c' = Ret layout /\ layout = [(2, 416); (3, 0); (5, 584)] /\
  foldr Z.add 0 (map snd layout) = 1000.
Proof.
  destruct (updateCumulativeUploads_spec (fun z => z) (fun z _ => eq_refl) 11 [2; 3] 1000 sampleTraffic
    sampleController) as (w & c' & l & H1 & -> & H2 & _ & _ & H3 & _);
    [apply sampleController_idle | apply sampleTraffic_ok | discriminate | split; reflexivity | discriminate
    | reflexivity |].
  exists c', l. split; [exact H1|]. split; [exact H2|]. split; [|exact H3].
  assert (Ret c' = ('(_, _, c0) ← updateCumulativeUploads (fun z => z) 11 [2; 3] 1000 sampleTraffic
    sampleController; Ret c0)) as E by (rewrite H1; reflexivity).
  vm_compute in E. injection E as ->. vm_compute in H2. injection H2 as <-. reflexivity.
Defined.

Lemma cumulative_accounting_witness : exists c',
  run_modifications (fun z => z) [mkModification 11 [2; 3] 1000 sampleTraffic true;
    mkModification 12 [2; 3] 500 ∅ false; mkModification 13 [2] 200 sampleTraffic true] sampleController = Ret c' /\
  oc_approvedExpectedCumulativeDownload c' = 1200 /\ approvedModificationId c' = 13.
Proof.
  destruct (cumulative_accounting (fun z => z) (fun z _ => eq_refl)
    [mkModification 11 [2; 3] 1000 sampleTraffic true;
     mkModification 12 [2; 3] 500 ∅ false; mkModification 13 [2] 200 sampleTraffic true]
    sampleController) as (c' & H1 & _ & H2 & H3).
  - apply sampleController_idle.
  - repeat constructor; cbn; try apply sampleTraffic_ok; try apply map_Forall_empty; reflexivity.
  - reflexivity.
  - exists c'. split; [exact H1|]. split; [exact H2 | apply H3].
Defined.
