(* ===== verification/ModifyApproval.v ===== *)
(** * Approval of a modification ([ModifyApprovalTaskBase.h], [ModifyDriveTask.cpp], [StreamTask.cpp])

    When a replicator has applied a modification in its sandbox it sends its
    opinion to the other replicators of the drive, collects theirs, and sends the
    approval transaction when all of them agree, or after a delay when enough of
    them do.  The handlers that take part in this run on the session thread; each
    is a step on the task's state that returns what it sends, in order.  The
    background work between them (download, sandbox, files) enters through its
    results: the root hash and the opinion.

    A stream task is a modification task whose class declares its own members of
    the same names as its base class; the two copies are kept apart here, each
    handler using the copy its class sees. *)

From S2P Require Import Prelude ModifyOpinion.

Inductive ModificationStatus :=
  | SUCCESS | INVALID_ACTION_LIST | ACTION_LIST_IS_ABSENT | NOT_ENOUGH_SPACE | DOWNLOAD_FAILED.

#[export] Instance modification_status_eq_dec : EqDecision ModificationStatus.
Proof. solve_decision. Defined.

Record SingleOpinion := mkSingleOpinion {
  so_replicatorKey : Z; so_uploadLayout : list (Z * Z); so_signature : Z }.

Record ApprovalTransactionInfo := mkApprovalTx {
  ai_driveKey : Z; ai_modifyTransactionHash : Z; ai_rootHash : Z; ai_status : ModificationStatus;
  ai_fsTreeFileSize : Z; ai_metaFilesSize : Z; ai_driveSize : Z; ai_opinions : list SingleOpinion }.

(** [PublishedModificationApprovalTransactionInfo]. *)
Record PublishedApproval := mkPublished {
  pa_driveKey : Z; pa_modifyTransactionHash : Z; pa_rootHash : Z; pa_replicatorKeys : list Z }.

(** What the handlers send or start. *)
Inductive TaskOutput :=
  | ApprovalTransactionIsReady (info : ApprovalTransactionInfo)
  | SingleApprovalTransactionIsReady (info : ApprovalTransactionInfo)
  | SendMyOpinion (to : Z) (info : ApprovalTransactionInfo)
  | ProcessOpinion (info : ApprovalTransactionInfo)
  | StartSynchronizingDriveWithSandbox
  | IncreaseApprovedExpected (size : Z)   (* increaseApprovedExpectedCumulativeDownload *)
  | RemoveDownload      (* the torrent is removed, then the task is finished *)
  | FinishTask.

(** What a task sees of its drive. *)
Record DriveParams := mkDriveParams {
  dp_driveKey : Z; dp_replicatorKey : Z; dp_allReplicators : list Z; dp_minReplicators : nat; dp_session : bool }.

(** The members of [ModifyApprovalTaskBase]. *)
Record Collected := mkCollected {
  co_receivedOpinions : gmap Z ApprovalTransactionInfo;
  co_sent : bool;              (* m_modifyApproveTransactionSent *)
  co_txReceived : bool;        (* m_modifyApproveTxReceived *)
  co_shareTimer : TimerState;
  co_opinionTimer : TimerState }.

Definition noCollected : Collected := mkCollected ∅ false false NoTimer NoTimer.

(** The members of [UpdateDriveTaskBase] and [ModifyDriveTask] used here. *)
Record ModifyTask := mkTask {
  mt_transactionHash : Z;
  mt_maxDataSize : Z;
  mt_myOpinion : option ApprovalTransactionInfo;
  mt_status : ModificationStatus;
  mt_sandboxRootHash : option Z;
  mt_downloading : bool;       (* m_downloadingLtHandle is set *)
  mt_actionListIsReceived : bool;
  mt_sandboxCalculated : bool;
  mt_taskIsInterrupted : bool;
  mt_collected : Collected }.

Definition set_collected (c : Collected) (t : ModifyTask) : ModifyTask :=
  mkTask (mt_transactionHash t) (mt_maxDataSize t) (mt_myOpinion t) (mt_status t) (mt_sandboxRootHash t)
    (mt_downloading t) (mt_actionListIsReceived t) (mt_sandboxCalculated t) (mt_taskIsInterrupted t) c.
Definition set_myOpinion (o : option ApprovalTransactionInfo) (t : ModifyTask) : ModifyTask :=
  mkTask (mt_transactionHash t) (mt_maxDataSize t) o (mt_status t) (mt_sandboxRootHash t)
    (mt_downloading t) (mt_actionListIsReceived t) (mt_sandboxCalculated t) (mt_taskIsInterrupted t)
    (mt_collected t).
Definition set_rootHash (h : Z) (t : ModifyTask) : ModifyTask :=
  mkTask (mt_transactionHash t) (mt_maxDataSize t) (mt_myOpinion t) (mt_status t) (Some h)
    (mt_downloading t) (mt_actionListIsReceived t) (mt_sandboxCalculated t) (mt_taskIsInterrupted t)
    (mt_collected t).
Definition set_calculated (t : ModifyTask) : ModifyTask :=
  mkTask (mt_transactionHash t) (mt_maxDataSize t) (mt_myOpinion t) (mt_status t) (mt_sandboxRootHash t)
    (mt_downloading t) (mt_actionListIsReceived t) true (mt_taskIsInterrupted t) (mt_collected t).
Definition set_interrupted (t : ModifyTask) : ModifyTask :=
  mkTask (mt_transactionHash t) (mt_maxDataSize t) (mt_myOpinion t) (mt_status t) (mt_sandboxRootHash t)
    (mt_downloading t) (mt_actionListIsReceived t) (mt_sandboxCalculated t) true (mt_collected t).
Definition set_download (downloading received : bool) (status : ModificationStatus) (t : ModifyTask) : ModifyTask :=
  mkTask (mt_transactionHash t) (mt_maxDataSize t) (mt_myOpinion t) status (mt_sandboxRootHash t)
    downloading received (mt_sandboxCalculated t) (mt_taskIsInterrupted t) (mt_collected t).

Definition set_opinions (m : gmap Z ApprovalTransactionInfo) (c : Collected) : Collected :=
  mkCollected m (co_sent c) (co_txReceived c) (co_shareTimer c) (co_opinionTimer c).
Definition set_sent (b : bool) (c : Collected) : Collected :=
  mkCollected (co_receivedOpinions c) b (co_txReceived c) (co_shareTimer c) (co_opinionTimer c).
Definition set_txReceived (c : Collected) : Collected :=
  mkCollected (co_receivedOpinions c) (co_sent c) true (co_shareTimer c) (co_opinionTimer c).
Definition set_shareTimer (t : TimerState) (c : Collected) : Collected :=
  mkCollected (co_receivedOpinions c) (co_sent c) (co_txReceived c) t (co_opinionTimer c).
Definition set_opinionTimer (t : TimerState) (c : Collected) : Collected :=
  mkCollected (co_receivedOpinions c) (co_sent c) (co_txReceived c) (co_shareTimer c) t.

(** ** [ModifyApprovalTaskBase] *)

(** [validateOpinion]: every field that the approval transaction carries. *)
Definition validateOpinion (mine anOpinion : ApprovalTransactionInfo) : bool :=
  Z.eqb (ai_rootHash mine) (ai_rootHash anOpinion)
  && bool_decide (ai_status mine = ai_status anOpinion)
  && Z.eqb (ai_fsTreeFileSize mine) (ai_fsTreeFileSize anOpinion)
  && Z.eqb (ai_metaFilesSize mine) (ai_metaFilesSize anOpinion)
  && Z.eqb (ai_driveSize mine) (ai_driveSize anOpinion).

(** [x.m_opinions[0]] of every element. *)
Fixpoint firstOpinions (l : list ApprovalTransactionInfo) : Outcome (list SingleOpinion) :=
  match l with
  | [] => Ret []
  | info :: l' =>
      match ai_opinions info with
      | [] => Stop UndefinedBehaviour
      | o :: _ => os ← firstOpinions l'; Ret (o :: os)
      end
  end.

Section ModifyApproval.
  Context (dp : DriveParams).
  (** [sign rootHash status sizes layout] is [SingleOpinion::Sign] with this
      replicator's key, for the drive and transaction of the task. *)
  Context (sign : Z -> ModificationStatus -> Z * Z * Z -> list (Z * Z) -> Z).

(** [replicatorNumber] of [checkOpinionNumberAndStartTimer]. *)
Definition replicatorNumber : nat :=
  (Nat.max (dp_minReplicators dp) (length (dp_allReplicators dp) + 1) * 2 / 3)%nat.

Definition opinionTimerExpired (t : ModifyTask) : Outcome (list TaskOutput * ModifyTask) :=
  let c := mt_collected t in
  if co_sent c || co_txReceived c then Ret ([], t)
  else
    match mt_myOpinion t with
    | None => Stop UndefinedBehaviour
    | Some mine =>
        os ← firstOpinions (mine :: sorted_values (co_receivedOpinions c));
        let info := mkApprovalTx (dp_driveKey dp) (ai_modifyTransactionHash mine) (ai_rootHash mine)
                      (ai_status mine) (ai_fsTreeFileSize mine) (ai_metaFilesSize mine)
                      (ai_driveSize mine) os in
        Ret ([ApprovalTransactionIsReady info], set_collected (set_sent true c) t)
    end.

(** The expiry of a timer that is armed. *)
Definition opinionTimerFires (t : ModifyTask) : Outcome (list TaskOutput * ModifyTask) :=
  match co_opinionTimer (mt_collected t) with
  | Pending => opinionTimerExpired (set_collected (set_opinionTimer Fired (mt_collected t)) t)
  | _ => Ret ([], t)
  end.

Definition checkOpinionNumberAndStartTimer (t : ModifyTask) : Outcome (list TaskOutput * ModifyTask) :=
  let c := mt_collected t in
  let n := size (co_receivedOpinions c) in
  let enabled := bool_decide (is_Some (mt_myOpinion t)) && negb (co_sent c) && negb (co_txReceived c) in
  if enabled && Nat.leb (length (dp_allReplicators dp)) n then
    opinionTimerExpired (set_collected (set_opinionTimer NoTimer c) t)
  else if enabled && Nat.leb replicatorNumber n then
    if negb (timer_bool (co_opinionTimer c)) && dp_session dp
    then Ret ([], set_collected (set_opinionTimer Pending c) t)
    else Ret ([], t)
  else Ret ([], t).

(** [shareMyOpinion]; also the callback of the timer it starts. *)
Definition shareMyOpinion (t : ModifyTask) : Outcome (list TaskOutput * ModifyTask) :=
  match mt_myOpinion t with
  | None => Stop UndefinedBehaviour
  | Some mine =>
      Ret (map (fun k => SendMyOpinion k mine)
             (filter (fun k => k <> dp_replicatorKey dp) (dp_allReplicators dp)),
           if dp_session dp then set_collected (set_shareTimer Pending (mt_collected t)) t else t)
  end.

(** [sendSingleApprovalTransaction( *m_myOpinion )]. *)
Definition sendSingleApprovalTransaction (t : ModifyTask) : Outcome (list TaskOutput) :=
  match mt_myOpinion t with
  | None => Stop UndefinedBehaviour
  | Some mine => Ret [SingleApprovalTransactionIsReady mine]
  end.

(** [startSynchronizingDriveWithSandbox], up to its assertion. *)
Definition startSynchronizing (t : ModifyTask) : Outcome (list TaskOutput) :=
  guard_assert (negb (mt_taskIsInterrupted t)) (Ret [StartSynchronizingDriveWithSandbox]).

(** [std::erase_if] of the opinions that do not agree with mine. *)
Definition eraseInvalid (mine : ApprovalTransactionInfo) (m : gmap Z ApprovalTransactionInfo)
    : gmap Z ApprovalTransactionInfo :=
  filter (fun p => validateOpinion mine p.2 = true) m.

Definition myOpinionIsCreated (t : ModifyTask) : Outcome (list TaskOutput * ModifyTask) :=
  match mt_myOpinion t with
  | None => Stop AssertFailure
  | Some mine =>
      if mt_taskIsInterrupted t then Ret ([FinishTask], t)
      else
        let t1 := set_calculated t in
        if co_txReceived (mt_collected t1) then
          single ← sendSingleApprovalTransaction t1;
          sync ← startSynchronizing t1;
          Ret (single ++ sync, t1)
        else
          '(out1, t2) ← shareMyOpinion t1;
          let c := mt_collected t2 in
          let t3 := set_collected (set_opinions (eraseInvalid mine (co_receivedOpinions c)) c) t2 in
          '(out2, t4) ← checkOpinionNumberAndStartTimer t3;
          Ret (out1 ++ out2, t4)
  end.

(** ** [UpdateDriveTaskBase] *)

(** [onCumulativeUploadsUpdated]: the opinion, saved by the background thread
    before [myOpinionIsCreated].  [sizes] are the sizes of the file structure,
    of the metafiles and of the drive; the controller fills the layout. *)
Definition onCumulativeUploadsUpdated (sizes : Z * Z * Z) (controller : ModifyOpinionController) (t : ModifyTask)
    : Outcome (list TaskOutput * ModifyTask) :=
  if mt_taskIsInterrupted t then Ret ([FinishTask], t)
  else
    match mt_sandboxRootHash t with
    | None => Stop AssertFailure
    | Some rootHash =>
        layout ← fillOpinion [] controller;
        let opinion := mkSingleOpinion (dp_replicatorKey dp) layout
                         (sign rootHash (mt_status t) sizes layout) in
        let '(fsTreeSize, metaFilesSize, driveSize) := sizes in
        Ret ([], set_myOpinion (Some (mkApprovalTx (dp_driveKey dp) (mt_transactionHash t) rootHash
                   (mt_status t) fsTreeSize metaFilesSize driveSize [opinion])) t)
    end.

(** [breakTorrentDownloadAndRunNextTask]; [txReceived] is the flag that the
    task's [tryBreakTask] reads. *)
Definition tryBreakTask (txReceived : bool) (t : ModifyTask) : list TaskOutput :=
  if mt_sandboxCalculated t && negb txReceived then [FinishTask] else [].

Definition breakTorrentDownloadAndRunNextTask (txReceived : bool) (t : ModifyTask)
    : list TaskOutput * ModifyTask :=
  let t1 := set_interrupted t in
  if mt_downloading t1 then
    if dp_session dp
    then ([RemoveDownload], set_download false (mt_actionListIsReceived t1) (mt_status t1) t1)
    else ([], t1)
  else (tryBreakTask txReceived t1, t1).

(** [onDriveClose] and [manualSynchronize]. *)
Definition onDriveClose (txReceived : bool) (t : ModifyTask) : list TaskOutput * ModifyTask :=
  if mt_taskIsInterrupted t then ([], t) else breakTorrentDownloadAndRunNextTask txReceived t.

(** [shouldCancelModify]. *)
Definition shouldCancelModify (txReceived : bool) (cancelled : Z) (t : ModifyTask)
    : bool * list TaskOutput * ModifyTask :=
  if mt_taskIsInterrupted t then (false, [], t)
  else if decide (cancelled = mt_transactionHash t) then
    let '(out, t') := breakTorrentDownloadAndRunNextTask txReceived t in (true, out, t')
  else (false, [], t).

End ModifyApproval.

#[global] Arguments replicatorNumber : simpl never.

(** ** [ModifyDriveTask] *)

Module ModifyDriveTask.
Section Task.
  Context (dp : DriveParams).

Definition txReceived (t : ModifyTask) : bool := co_txReceived (mt_collected t).

Definition terminate (t : ModifyTask) : list TaskOutput * ModifyTask :=
  breakTorrentDownloadAndRunNextTask dp (txReceived t)
    (set_collected (set_shareTimer NoTimer (set_opinionTimer NoTimer (mt_collected t))) t).

(** The action list has been downloaded ([run], [download_complete]). *)
Definition actionListDownloaded (t : ModifyTask) : ModifyTask :=
  if mt_taskIsInterrupted t then t else set_download false true (mt_status t) t.

(** [modifyIsCompletedWithError], and the root hash its background part restores. *)
Definition modifyIsCompletedWithError (status : ModificationStatus) (driveRootHash : Z) (t : ModifyTask)
    : Outcome ModifyTask :=
  guard_assert (negb (bool_decide (status = SUCCESS)))
    (Ret (set_rootHash driveRootHash (set_download false (mt_actionListIsReceived t) status t))).

Definition processedModifyOpinion (anOpinion : ApprovalTransactionInfo) (t : ModifyTask)
    : Outcome (bool * list TaskOutput * ModifyTask) :=
  if decide (mt_transactionHash t <> ai_modifyTransactionHash anOpinion) then Ret (false, [], t)
  else
    let put o := set_collected (set_opinions
                   (<[so_replicatorKey o := anOpinion]> (co_receivedOpinions (mt_collected t)))
                   (mt_collected t)) t in
    match mt_myOpinion t, ai_opinions anOpinion with
    | Some mine, os =>
        if validateOpinion mine anOpinion then
          match os with
          | [] => Stop UndefinedBehaviour
          | o :: _ => '(out, t') ← checkOpinionNumberAndStartTimer dp (put o); Ret (true, out, t')
          end
        else Ret (true, [], t)
    | None, [] => Stop UndefinedBehaviour
    | None, o :: _ => Ret (true, [], put o)
    end.

(** [onApprovalTxPublished]: the result tells whether to start catching up. *)
Definition onApprovalTxPublished (tx : PublishedApproval) (t : ModifyTask)
    : Outcome (bool * list TaskOutput * ModifyTask) :=
  if mt_taskIsInterrupted t then Ret (true, [], t)
  else
    let t1 := set_collected (set_txReceived (mt_collected t)) t in
    if bool_decide (mt_transactionHash t1 = pa_modifyTransactionHash tx) &&
       (mt_actionListIsReceived t1 || negb (bool_decide (mt_status t1 = SUCCESS))) then
      if negb (mt_sandboxCalculated t1) then Ret (false, [], t1)
      else
        match mt_sandboxRootHash t1 with
        | None => Stop UndefinedBehaviour
        | Some rootHash =>
            let go :=
              single ← if decide (dp_replicatorKey dp ∈ pa_replicatorKeys tx) then Ret []
                       else sendSingleApprovalTransaction t1;
              sync ← startSynchronizing t1;
              Ret (false, single ++ sync, t1) in
            if decide (rootHash = pa_rootHash tx) then go else log_err go
        end
    else
      let '(out, t2) := breakTorrentDownloadAndRunNextTask dp (txReceived t1) t1 in
      Ret (true, IncreaseApprovedExpected (mt_maxDataSize t1) :: out, t2).

Definition onApprovalTxFailed (transactionHash : Z) (t : ModifyTask) : list TaskOutput * ModifyTask :=
  let c := mt_collected t in
  if bool_decide (mt_transactionHash t = transactionHash) && negb (mt_taskIsInterrupted t)
     && negb (co_txReceived c) then
    (map ProcessOpinion (sorted_values (co_receivedOpinions c)),
     set_collected (set_opinions ∅ (set_sent false c)) t)
  else ([], t).

End Task.
End ModifyDriveTask.

(** ** [StreamTask]

    The class declares [m_receivedOpinions], the flags and the timers again: its
    own handlers use those, the inherited ones those of the base class. *)

Module StreamTask.
Section Task.
  Context (dp : DriveParams).

Record StreamTask := mkStreamTask { sk_base : ModifyTask; sk_own : Collected }.

Definition terminate (s : StreamTask) : list TaskOutput * StreamTask :=
  let '(out, t) := breakTorrentDownloadAndRunNextTask dp (co_txReceived (sk_own s)) (sk_base s) in
  (out, mkStreamTask t (sk_own s)).

Definition processedModifyOpinion (anOpinion : ApprovalTransactionInfo) (s : StreamTask)
    : Outcome (bool * list TaskOutput * StreamTask) :=
  let t := sk_base s in
  match mt_myOpinion t with
  | Some mine =>
      if bool_decide (mt_transactionHash t = ai_modifyTransactionHash anOpinion) && validateOpinion mine anOpinion
      then
        match ai_opinions anOpinion with
        | [] => Stop UndefinedBehaviour
        | o :: _ =>
            let own := set_opinions (<[so_replicatorKey o := anOpinion]> (co_receivedOpinions (sk_own s)))
                         (sk_own s) in
            '(out, t') ← checkOpinionNumberAndStartTimer dp t;
            Ret (true, out, mkStreamTask t' own)
        end
      else Ret (true, [], s)
  | None => Ret (true, [], s)
  end.

Definition onApprovalTxPublished (tx : PublishedApproval) (s : StreamTask)
    : Outcome (bool * list TaskOutput * StreamTask) :=
  let t := sk_base s in
  if mt_taskIsInterrupted t then Ret (true, [], s)
  else
    let own := set_txReceived (sk_own s) in
    if bool_decide (mt_transactionHash t = pa_modifyTransactionHash tx) && mt_sandboxCalculated t then
      match mt_sandboxRootHash t with
      | None => Stop UndefinedBehaviour
      | Some rootHash =>
          let go :=
            single ← if decide (dp_replicatorKey dp ∈ pa_replicatorKeys tx) then Ret []
                     else sendSingleApprovalTransaction t;
            sync ← startSynchronizing t;
            Ret (false, single ++ sync, mkStreamTask t own) in
          if decide (rootHash = pa_rootHash tx) then go else log_err go
      end
    else
      let '(out, t2) := breakTorrentDownloadAndRunNextTask dp (co_txReceived own) t in
      Ret (true, IncreaseApprovedExpected (mt_maxDataSize t) :: out, mkStreamTask t2 own).

(** [onApprovalTxFailed] is not overridden: [DriveTaskBase] does nothing. *)
Definition onApprovalTxFailed (transactionHash : Z) (s : StreamTask) : list TaskOutput * StreamTask :=
  ([], s).

End Task.
End StreamTask.
