(* ===== verification/ModifyApprovalSpec.v ===== *)
(** * Properties of the approval of modifications

    The events of a modification task in any order and number: the messages and
    notifications of the outside, and the callbacks that the state enables.  The
    theorems are about every run of them. *)

From S2P Require Import Prelude ModifyOpinion ModifyApproval.

(** ** Runs *)

Inductive ModifyEvent :=
  | ActionListDownloaded
  | SandboxCalculated (rootHash : Z)                             (* background *)
  | CompletedWithError (status : ModificationStatus) (driveRootHash : Z)
  | UploadsUpdated (sizes : Z * Z * Z) (controller : ModifyOpinionController)
  | OpinionCreated
  | ShareTimer
  | OpinionTimer
  | OpinionReceived (info : ApprovalTransactionInfo)
  | ApprovalPublished (tx : PublishedApproval)
  | ApprovalFailed (hash : Z)
  | CancelModify (hash : Z)
  | CloseDrive
  | Terminate.

Definition newTask (transactionHash maxDataSize : Z) : ModifyTask :=
  mkTask transactionHash maxDataSize None SUCCESS None true false false false noCollected.

Definition drop_result {A B C} (m : Outcome (A * B * C)) : Outcome (B * C) :=
  '(_, b, c) ← m; Ret (b, c).

Section Runs.
  Context (dp : DriveParams) (sign : Z -> ModificationStatus -> Z * Z * Z -> list (Z * Z) -> Z).

(** One event.  The opinion is made once, after the sandbox or the error, and
    [myOpinionIsCreated] follows it once; a timer that is not armed does not
    expire. *)
Definition modify_step (ev : ModifyEvent) (t : ModifyTask) : Outcome (list TaskOutput * ModifyTask) :=
  match ev with
  | ActionListDownloaded => Ret ([], ModifyDriveTask.actionListDownloaded t)
  | SandboxCalculated h => Ret ([], if mt_myOpinion t then t else set_rootHash h t)
  | CompletedWithError st h =>
      if mt_myOpinion t then Ret ([], t)
      else t' ← ModifyDriveTask.modifyIsCompletedWithError st h t; Ret ([], t')
  | UploadsUpdated sizes controller =>
      match mt_myOpinion t, mt_sandboxRootHash t with
      | None, Some _ => onCumulativeUploadsUpdated dp sign sizes controller t
      | _, _ => Ret ([], t)
      end
  | OpinionCreated =>
      if bool_decide (is_Some (mt_myOpinion t)) && negb (mt_sandboxCalculated t)
      then myOpinionIsCreated dp t else Ret ([], t)
  | ShareTimer =>
      match co_shareTimer (mt_collected t) with Pending => shareMyOpinion dp t | _ => Ret ([], t) end
  | OpinionTimer => opinionTimerFires dp t
  | OpinionReceived info => drop_result (ModifyDriveTask.processedModifyOpinion dp info t)
  | ApprovalPublished tx => drop_result (ModifyDriveTask.onApprovalTxPublished dp tx t)
  | ApprovalFailed h => Ret (ModifyDriveTask.onApprovalTxFailed h t)
  | CancelModify h => drop_result (Ret (shouldCancelModify dp (ModifyDriveTask.txReceived t) h t))
  | CloseDrive => Ret (onDriveClose dp (ModifyDriveTask.txReceived t) t)
  | Terminate => Ret (ModifyDriveTask.terminate dp t)
  end.

Fixpoint modify_run (evs : list ModifyEvent) (t : ModifyTask) : Outcome (list TaskOutput * ModifyTask) :=
  match evs with
  | [] => Ret ([], t)
  | ev :: evs' =>
      '(out1, t1) ← modify_step ev t;
      '(out2, t2) ← modify_run evs' t1;
      Ret (out1 ++ out2, t2)
  end.

Lemma modify_run_cons_inv ev evs t out t' :
  modify_run (ev :: evs) t = Ret (out, t') ->
  exists out1 t1 out2, modify_step ev t = Ret (out1, t1) /\ modify_run evs t1 = Ret (out2, t') /\
    out = out1 ++ out2.
Proof.
  cbn. intros H. apply bind_ret_inv in H as ([out1 t1] & H1 & H).
  apply bind_ret_inv in H as ([out2 t2] & H2 & [= <- <-]). by exists out1, t1, out2.
Qed.

(** ** The approval protocol

    The part of a task that decides about the transaction, and its steps: every
    event of a task is one of them ([step_protocol]). *)

Record Core := mkCore { k_collected : Collected; k_mine : option ApprovalTransactionInfo; k_calculated : bool }.

Definition core (t : ModifyTask) : Core := mkCore (mt_collected t) (mt_myOpinion t) (mt_sandboxCalculated t).

Definition silent (out : list TaskOutput) : Prop := forall info, ApprovalTransactionIsReady info ∉ out.

(** The transaction made from [mine] and the opinions received. *)
Definition approval_of (mine : ApprovalTransactionInfo) (m : gmap Z ApprovalTransactionInfo)
    (info : ApprovalTransactionInfo) : Prop :=
  exists os, firstOpinions (mine :: sorted_values m) = Ret os /\
    info = mkApprovalTx (dp_driveKey dp) (ai_modifyTransactionHash mine) (ai_rootHash mine)
             (ai_status mine) (ai_fsTreeFileSize mine) (ai_metaFilesSize mine) (ai_driveSize mine) os.

Definition enabled (c : Collected) : Prop := co_sent c = false /\ co_txReceived c = false.

(** [checkOpinionNumberAndStartTimer]. *)
Inductive checked (mine : ApprovalTransactionInfo) (c : Collected) : list TaskOutput -> Collected -> Prop :=
  | checked_nothing : checked mine c [] c
  | checked_arm :
      enabled c -> (replicatorNumber dp <= size (co_receivedOpinions c))%nat -> co_opinionTimer c = NoTimer ->
      checked mine c [] (set_opinionTimer Pending c)
  | checked_send info :
      enabled c -> (length (dp_allReplicators dp) <= size (co_receivedOpinions c))%nat ->
      approval_of mine (co_receivedOpinions c) info ->
      checked mine c [ApprovalTransactionIsReady info] (set_sent true (set_opinionTimer NoTimer c)).

Inductive protocol : ModifyEvent -> Core -> list TaskOutput -> Core -> Prop :=
  | proto_other ev c m b out sh ot :
      silent out -> ot = co_opinionTimer c \/ ot = NoTimer ->
      sh = co_shareTimer c \/ sh = NoTimer \/ is_Some m ->
      protocol ev (mkCore c m b) out (mkCore (set_shareTimer sh (set_opinionTimer ot c)) m b)
  | proto_opinion sizes controller c b mine o :
      ai_opinions mine = [o] -> so_replicatorKey o = dp_replicatorKey dp ->
      protocol (UploadsUpdated sizes controller) (mkCore c None b) [] (mkCore c (Some mine) b)
  | proto_late c mine out :
      silent out -> co_txReceived c = true ->
      protocol OpinionCreated (mkCore c (Some mine) false) out (mkCore c (Some mine) true)
  | proto_created c mine sh out1 out2 c' :
      silent out1 ->
      checked mine (set_opinions (eraseInvalid mine (co_receivedOpinions c)) (set_shareTimer sh c)) out2 c' ->
      protocol OpinionCreated (mkCore c (Some mine) false) (out1 ++ out2) (mkCore c' (Some mine) true)
  | proto_received_early info c b o os :
      ai_opinions info = o :: os ->
      protocol (OpinionReceived info) (mkCore c None b) []
        (mkCore (set_opinions (<[so_replicatorKey o := info]> (co_receivedOpinions c)) c) None b)
  | proto_received info c mine b o os out c' :
      ai_opinions info = o :: os -> validateOpinion mine info = true ->
      checked mine (set_opinions (<[so_replicatorKey o := info]> (co_receivedOpinions c)) c) out c' ->
      protocol (OpinionReceived info) (mkCore c (Some mine) b) out (mkCore c' (Some mine) b)
  | proto_fires c mine b info :
      co_opinionTimer c = Pending -> enabled c -> approval_of mine (co_receivedOpinions c) info ->
      protocol OpinionTimer (mkCore c (Some mine) b) [ApprovalTransactionIsReady info]
        (mkCore (set_sent true (set_opinionTimer Fired c)) (Some mine) b)
  | proto_fires_late c m b :
      co_opinionTimer c = Pending -> ~ enabled c ->
      protocol OpinionTimer (mkCore c m b) [] (mkCore (set_opinionTimer Fired c) m b)
  | proto_published tx c m b out :
      silent out -> protocol (ApprovalPublished tx) (mkCore c m b) out (mkCore (set_txReceived c) m b)
  | proto_failed h c m b out :
      silent out -> co_txReceived c = false ->
      protocol (ApprovalFailed h) (mkCore c m b) out (mkCore (set_opinions ∅ (set_sent false c)) m b).

Lemma silent_nil : silent [].
Proof. intros info. apply not_elem_of_nil. Qed.

Lemma silent_cons o out : (forall info, o <> ApprovalTransactionIsReady info) -> silent out -> silent (o :: out).
Proof. intros Ho Hout info [H|H]%elem_of_cons; [by eapply Ho | by eapply Hout]. Qed.

Lemma silent_app out1 out2 : silent out1 -> silent out2 -> silent (out1 ++ out2).
Proof. intros H1 H2 info [H|H]%elem_of_app; [by eapply H1 | by eapply H2]. Qed.

Lemma silent_map {A} (f : A -> TaskOutput) l :
  (forall a info, f a <> ApprovalTransactionIsReady info) -> silent (map f l).
Proof. intros Hf info. rewrite list_elem_of_In, in_map_iff. intros (a & Ha & _). by eapply Hf. Qed.

#[local] Hint Resolve silent_nil silent_cons silent_app silent_map : core.

(** ** Every event is a step of the protocol *)

Lemma core_refl ev t out :
  silent out -> protocol ev (core t) out (core t).
Proof.
  intros Hs. unfold core. destruct t as [? ? ? ? ? ? ? ? ? [m s x sh ot]].
  exact (proto_other ev (mkCollected m s x sh ot) _ _ out sh ot Hs (or_introl eq_refl) (or_introl eq_refl)).
Qed.

Lemma expired_inv t out t' :
  opinionTimerExpired dp t = Ret (out, t') ->
  (~ enabled (mt_collected t) /\ out = [] /\ t' = t) \/
  exists mine info, enabled (mt_collected t) /\ mt_myOpinion t = Some mine /\
    approval_of mine (co_receivedOpinions (mt_collected t)) info /\
    out = [ApprovalTransactionIsReady info] /\ t' = set_collected (set_sent true (mt_collected t)) t.
Proof.
  unfold opinionTimerExpired, enabled.
  destruct (co_sent _), (co_txReceived _); cbn [orb]; try (intros [= <- <-]; left; naive_solver).
  destruct (mt_myOpinion t) as [mine|]; [|done]. intros H. right.
  apply bind_ret_inv in H as (os & Hos & [= <- <-]). do 2 eexists. split_and!; try done. by exists os.
Qed.

Lemma check_inv t out t' :
  checkOpinionNumberAndStartTimer dp t = Ret (out, t') ->
  (t' = t /\ out = []) \/
  exists mine c', mt_myOpinion t = Some mine /\ t' = set_collected c' t /\ checked mine (mt_collected t) out c'.
Proof.
  unfold checkOpinionNumberAndStartTimer. intros H.
  destruct (mt_myOpinion t) as [mine|] eqn:Hm; [|left; by injection H as <- <-].
  destruct (co_sent (mt_collected t)) eqn:Hs; [left; by injection H as <- <-|].
  destruct (co_txReceived (mt_collected t)) eqn:Hx; [left; by injection H as <- <-|].
  cbn [is_Some bool_decide negb andb] in H. rewrite bool_decide_true in H by done.
  cbn [andb] in H. destruct (Nat.leb_spec (length (dp_allReplicators dp)) (size (co_receivedOpinions (mt_collected t)))).
  - right. apply expired_inv in H as [(Hne & _)|(mine' & info & _ & Hm' & Ha & -> & ->)].
    { destruct Hne. by split. }
    cbn in Hm'. rewrite Hm in Hm'. injection Hm' as <-. eexists mine, _. split; [done|].
    split; [reflexivity|]. by constructor.
  - destruct (Nat.leb_spec (replicatorNumber dp) (size (co_receivedOpinions (mt_collected t)))); [|left; by injection H as <- <-].
    destruct (co_opinionTimer (mt_collected t)) eqn:Ht; cbn in H; try (left; by injection H as <- <-).
    destruct (dp_session dp); [|left; by injection H as <- <-].
    injection H as <- <-. right. eexists mine, _. split; [done|]. split; [reflexivity|]. by constructor.
Qed.

Lemma break_core tx t :
  let r := breakTorrentDownloadAndRunNextTask dp tx t in silent r.1 /\ core r.2 = core t.
Proof.
  unfold breakTorrentDownloadAndRunNextTask, tryBreakTask.
  destruct t as [? ? ? ? ? [] ? [] ? ?]; cbn; destruct (dp_session dp), tx; cbn; by auto 6.
Qed.

Lemma single_silent t out : sendSingleApprovalTransaction t = Ret out -> silent out.
Proof. unfold sendSingleApprovalTransaction. case_match; [|done]. intros [= <-]. auto. Qed.

Lemma sync_silent t out : startSynchronizing t = Ret out -> silent out.
Proof. unfold startSynchronizing. intros [_ [= <-]]%guard_assert_inv. auto. Qed.

Lemma proto_quiet ev t t' out :
  silent out -> core t' = core t -> protocol ev (core t) out (core t').
Proof. intros Hs ->. by apply core_refl. Qed.

Lemma share_inv t out t' :
  shareMyOpinion dp t = Ret (out, t') ->
  exists sh, silent out /\ is_Some (mt_myOpinion t) /\ t' = set_collected (set_shareTimer sh (mt_collected t)) t.
Proof.
  unfold shareMyOpinion. destruct (mt_myOpinion t) as [mine|] eqn:E; [|done]. intros [= <- <-].
  assert (silent (map (fun k => SendMyOpinion k mine)
    (filter (fun k => k <> dp_replicatorKey dp) (dp_allReplicators dp)))) as Hs by auto.
  destruct (dp_session dp); [exists Pending; by eauto|].
  exists (co_shareTimer (mt_collected t)). split; [done|]. split; [by eauto|]. by destruct t as [? ? ? ? ? ? ? ? ? []].
Qed.

Lemma step_opinion_created t out t' :
  bool_decide (is_Some (mt_myOpinion t)) && negb (mt_sandboxCalculated t) = true ->
  myOpinionIsCreated dp t = Ret (out, t') -> protocol OpinionCreated (core t) out (core t').
Proof.
  intros [Hm Hb]%andb_prop H. apply bool_decide_eq_true in Hm as [mine Hm]. apply negb_true_iff in Hb.
  unfold myOpinionIsCreated in H. rewrite Hm in H.
  destruct (mt_taskIsInterrupted t); [injection H as <- <-; apply core_refl; auto|].
  destruct t as [txh mds mo st rh dl ar b i c]. cbn in Hm, Hb. subst mo b. unfold core.
  cbn -[shareMyOpinion checkOpinionNumberAndStartTimer] in H |- *.
  destruct (co_txReceived c) eqn:Hx; cbn -[shareMyOpinion checkOpinionNumberAndStartTimer] in H.
  - destruct (startSynchronizing _) as [sync|] eqn:Hs in H; [|done]. injection H as <- <-. cbn.
    apply proto_late; [|done]. apply sync_silent in Hs. auto.
  - apply bind_ret_inv in H as ([out1 t2] & Hsh & H).
    apply share_inv in Hsh as (sh & Hsil & _ & ->). cbn in H.
    apply bind_ret_inv in H as ([out2 t3] & Hc & [= <- <-]).
    apply check_inv in Hc as [[-> ->]|(mine' & c' & Hm' & -> & Hc)].
    + eapply (proto_created c mine sh); [done|]. apply checked_nothing.
    + cbn in Hm'. injection Hm' as <-. eapply proto_created; [done|]. exact Hc.
Qed.

Lemma step_received info t out t' :
  drop_result (ModifyDriveTask.processedModifyOpinion dp info t) = Ret (out, t') ->
  protocol (OpinionReceived info) (core t) out (core t').
Proof.
  intros H. apply bind_ret_inv in H as ([[ok o1] t1] & H & [= <- <-]).
  unfold ModifyDriveTask.processedModifyOpinion in H.
  case_decide; [injection H as <- <- <-; apply core_refl; auto|].
  destruct t as [txh mds mo st rh dl ar b i c]. unfold core. cbn in H |- *.
  destruct mo as [mine|].
  - destruct (validateOpinion mine info) eqn:Hv.
    + destruct (ai_opinions info) as [|o os] eqn:Ho; [done|].
      apply bind_ret_inv in H as ([out' t2] & Hc & [= <- <- <-]).
      apply check_inv in Hc as [[-> ->]|(mine' & c' & Hm' & -> & Hc)].
      * eapply proto_received; [exact Ho | done | apply checked_nothing].
      * cbn in Hm'. injection Hm' as <-. by eapply proto_received.
    + injection H as <- <- <-. by apply (core_refl _ (mkTask txh mds (Some mine) st rh dl ar b i c)).
  - destruct (ai_opinions info) as [|o os] eqn:Ho; [done|]. injection H as <- <- <-.
    by eapply proto_received_early.
Qed.

Lemma step_published tx t out t' :
  drop_result (ModifyDriveTask.onApprovalTxPublished dp tx t) = Ret (out, t') ->
  protocol (ApprovalPublished tx) (core t) out (core t').
Proof.
  intros H. apply bind_ret_inv in H as ([[ok o1] t1] & H & [= <- <-]).
  unfold ModifyDriveTask.onApprovalTxPublished in H.
  destruct (mt_taskIsInterrupted t); [injection H as <- <- <-; apply core_refl; auto|].
  set (t0 := set_collected (set_txReceived (mt_collected t)) t) in H.
  assert (forall out t1, silent out -> core t1 = core t0 ->
    protocol (ApprovalPublished tx) (core t) out (core t1)) as Hp.
  { intros out t2 Hs ->. by apply proto_published. }
  destruct (_ && _) in H.
  - destruct (mt_sandboxCalculated t0); cbn [negb] in H; [|injection H as <- <- <-; auto].
    destruct (mt_sandboxRootHash t0); [|done]. destruct (decide (z = pa_rootHash tx)); [|done].
    apply bind_ret_inv in H as (single & Hsg & H). apply bind_ret_inv in H as (sync & Hsy & [= <- <- <-]).
    apply Hp; [|done]. apply sync_silent in Hsy.
    case_decide; [injection Hsg as <-|apply single_silent in Hsg]; auto.
  - pose proof (break_core (ModifyDriveTask.txReceived t0) t0) as [Hs Hc].
    destruct (breakTorrentDownloadAndRunNextTask _ _ _) as [o t2]. injection H as <- <- <-. auto.
Qed.

(** Every event of a modification task is a step of the protocol. *)
Lemma step_protocol ev t out t' :
  modify_step ev t = Ret (out, t') -> protocol ev (core t) out (core t').
Proof.
  destruct ev; cbn [modify_step]; intros H.
  - injection H as <- <-. apply proto_quiet; [auto|]. unfold ModifyDriveTask.actionListDownloaded. by case_match.
  - injection H as <- <-. apply proto_quiet; [auto|]. by destruct (mt_myOpinion t).
  - destruct (mt_myOpinion t); [injection H as <- <-; apply core_refl; auto|].
    apply bind_ret_inv in H as (t1 & H1 & [= <- <-]). apply proto_quiet; [auto|].
    by apply guard_assert_inv in H1 as [_ [= <-]].
  - destruct (mt_myOpinion t) eqn:Hm; [injection H as <- <-; apply core_refl; auto|].
    destruct (mt_sandboxRootHash t) eqn:Hr; [|injection H as <- <-; apply core_refl; auto].
    unfold onCumulativeUploadsUpdated in H. rewrite Hr in H.
    destruct (mt_taskIsInterrupted t); [injection H as <- <-; apply core_refl; auto|].
    apply bind_ret_inv in H as (layout & _ & H). destruct sizes as [[? ?] ?]. injection H as <- <-.
    unfold core. rewrite Hm. cbn. by econstructor.
  - destruct (_ && _) eqn:Hb in H; [by apply step_opinion_created|injection H as <- <-; apply core_refl; auto].
  - destruct (co_shareTimer _); try (injection H as <- <-; apply core_refl; auto).
    apply share_inv in H as (sh & Hs & Hm & ->).
    destruct t as [? ? ? ? ? ? ? ? ? [m s x sh0 ot]].
    exact (proto_other ShareTimer (mkCollected m s x sh0 ot) _ _ _ sh ot Hs (or_introl eq_refl)
             (or_intror (or_intror Hm))).
  - unfold opinionTimerFires in H. destruct (co_opinionTimer (mt_collected t)) eqn:Ht;
      try (injection H as <- <-; apply core_refl; auto).
    apply expired_inv in H as [(Hne & -> & ->)|(mine & info & He & Hm & Ha & -> & ->)].
    + by apply proto_fires_late.
    + unfold core. cbn in Hm |- *. rewrite Hm. by apply proto_fires.
  - by apply step_received.
  - by apply step_published.
  - unfold ModifyDriveTask.onApprovalTxFailed in H. destruct (_ && _) eqn:Hb in H;
      [|injection H as <- <-; apply core_refl; auto].
    injection H as <- <-. apply andb_prop in Hb as [_ Hx%negb_true_iff]. apply proto_failed; auto.
  - unfold shouldCancelModify in H.
    pose proof (break_core (ModifyDriveTask.txReceived t) t) as [Hs Hc].
    destruct (breakTorrentDownloadAndRunNextTask _ _ _) as [o t1]. cbn in Hs, Hc.
    destruct (mt_taskIsInterrupted t); [injection H as <- <-; apply core_refl; auto|].
    case_decide; injection H as <- <-; [by apply proto_quiet | apply core_refl; auto].
  - unfold onDriveClose in H. destruct (mt_taskIsInterrupted t); [injection H as <- <-; apply core_refl; auto|].
    pose proof (break_core (ModifyDriveTask.txReceived t) t) as [Hs Hc].
    destruct (breakTorrentDownloadAndRunNextTask _ _ _) as [o t1]. injection H as <- <-. by apply proto_quiet.
  - unfold ModifyDriveTask.terminate in H.
    set (t0 := set_collected _ t) in H.
    pose proof (break_core (ModifyDriveTask.txReceived t) t0) as [Hs Hc].
    destruct (breakTorrentDownloadAndRunNextTask _ _ _) as [o t1]. injection H as <- <-. cbn in Hs, Hc.
    rewrite Hc. by apply (proto_other Terminate (mt_collected t) _ _ o NoTimer NoTimer); [|right|right; left].
Qed.

(** ** At most one transaction *)

Definition is_ready (o : TaskOutput) : bool :=
  match o with ApprovalTransactionIsReady _ => true | _ => false end.
Definition is_failure (ev : ModifyEvent) : bool := match ev with ApprovalFailed _ => true | _ => false end.
Definition readies (out : list TaskOutput) : nat := length (List.filter is_ready out).
Definition failures (evs : list ModifyEvent) : nat := length (List.filter is_failure evs).

Lemma readies_app out1 out2 : readies (out1 ++ out2) = (readies out1 + readies out2)%nat.
Proof. unfold readies. by rewrite List.filter_app, length_app. Qed.

Lemma silent_readies out : silent out -> readies out = 0%nat.
Proof.
  unfold readies. induction out as [|o out IH]; [done|]. intros H.
  assert (silent out) as Ho by (intros info Hin; eapply H; by right).
  destruct o; cbn; auto. destruct (H info). by left.
Qed.

Definition credit (c : Core) : nat := if co_sent (k_collected c) then 0 else 1.

Lemma checked_credit mine c out c' m b :
  checked mine c out c' -> (readies out + credit (mkCore c' m b) <= credit (mkCore c m b))%nat.
Proof. destruct 1 as [|He|info [He _]]; unfold credit; cbn; [lia | lia |]. rewrite He. done. Qed.

Lemma protocol_credit ev c out c' :
  protocol ev c out c' ->
  (readies out + credit c' <= credit c + if is_failure ev then 1 else 0)%nat.
Proof.
  destruct 1 as [? ? ? ? ? ? ? Hs ? ?| | |? ? ? ? ? ? ? Hc|? ? ? ? ? ?|? ? ? ? ? ? ? ? ? ? Hc
    |? ? ? ? ? [He _]| |? ? ? ? ? Hs|? ? ? ? ? Hs];
    rewrite ?readies_app, ?silent_readies by done;
    try (unfold credit; cbn; destruct (co_sent _); lia).
  - apply (checked_credit _ _ _ _ (Some mine) true) in Hc. unfold credit in *; cbn in *. lia.
  - apply (checked_credit _ _ _ _ (Some mine) b) in Hc. unfold credit in *; cbn in *. lia.
Qed.

Lemma run_credit evs t out t' :
  modify_run evs t = Ret (out, t') ->
  (readies out + credit (core t') <= credit (core t) + failures evs)%nat.
Proof.
  revert t out. induction evs as [|ev evs IH]; intros t out; [intros [= <- <-]; cbn; lia|].
  intros (out1 & t1 & out2 & H1 & H2 & ->)%modify_run_cons_inv.
  apply step_protocol, protocol_credit in H1. apply IH in H2. rewrite readies_app.
  unfold failures in *. cbn. destruct (is_failure ev); cbn; lia.
Qed.

(** C17: between two failures a modification task sends at most one approval
    transaction: over any sequence of events their number is at most one more
    than the number of failure notifications. *)
Theorem approval_sent_once evs transactionHash maxDataSize out t' :
  modify_run evs (newTask transactionHash maxDataSize) = Ret (out, t') ->
  (readies out <= 1 + failures evs)%nat.
Proof. intros H%run_credit. cbn in H. lia. Qed.

(** ** Silence after the publication *)

Lemma protocol_received ev c out c' :
  protocol ev c out c' -> co_txReceived (k_collected c) = true ->
  silent out /\ co_txReceived (k_collected c') = true.
Proof.
  intros H Hx.
  assert (forall c out c' mine, checked mine c out c' -> co_txReceived c = true ->
    silent out /\ co_txReceived c' = true) as Hck.
  { intros ? ? ? ? [| |? [_ ?]] ?; [done | done | congruence]. }
  destruct H as [| | |? ? ? ? ? ? ? Hc|? ? ? ? ?|? ? ? ? ? ? ? ? ? ? Hc|? ? ? ? ? [_ ?]| | |];
    cbn in *; auto; try congruence.
  - apply Hck in Hc as [? ?]; [|done]. split; [by apply silent_app | done].
  - by apply Hck in Hc.
Qed.

(** Once the task has learnt that an approval transaction is on the chain it
    sends no approval transaction any more, whatever happens after. *)
Lemma approval_silent_after_publication evs t out t' info :
  co_txReceived (mt_collected t) = true -> modify_run evs t = Ret (out, t') ->
  ApprovalTransactionIsReady info ∉ out.
Proof.
  revert t out. induction evs as [|ev evs IH]; intros t out Hx; [intros [= <- <-]; apply silent_nil|].
  intros (out1 & t1 & out2 & H1 & H2 & ->)%modify_run_cons_inv.
  apply step_protocol, protocol_received in H1 as [Hs Hx1]; [|done].
  intros [H|H]%elem_of_app; [by apply Hs in H | by apply (IH t1 out2)].
Qed.

(** ** Quorum and agreement *)

(** The usual order of things: no opinion arrives between the making of this
    replicator's opinion and [myOpinionIsCreated], others do not send opinions
    under this replicator's key, and a failure is not reported while the timer
    runs.  The examples below show what happens otherwise. *)
Definition orderly (ev : ModifyEvent) (c : Core) : Prop :=
  match ev with
  | OpinionReceived info =>
      (k_mine c = None \/ k_calculated c = true) /\
      (forall o os, ai_opinions info = o :: os -> so_replicatorKey o <> dp_replicatorKey dp)
  | ApprovalFailed _ => co_sent (k_collected c) = true \/ co_opinionTimer (k_collected c) <> Pending
  | _ => True
  end.

Fixpoint orderly_run (evs : list ModifyEvent) (t : ModifyTask) : Prop :=
  match evs with
  | [] => True
  | ev :: evs' =>
      orderly ev (core t) /\ match modify_step ev t with Ret (_, t1) => orderly_run evs' t1 | Stop _ => True end
  end.

Section Quorum.
  Variable P : ApprovalTransactionInfo -> Prop.

(** An opinion filed under the key of its author. *)
Definition filed (k : Z) (info : ApprovalTransactionInfo) : Prop :=
  P info /\ k <> dp_replicatorKey dp /\
  exists o os, ai_opinions info = o :: os /\ so_replicatorKey o = k.

Definition agreeing (mine : ApprovalTransactionInfo) (m : gmap Z ApprovalTransactionInfo) : Prop :=
  map_Forall (fun _ info => validateOpinion mine info = true) m.

Definition my_opinion (mine : ApprovalTransactionInfo) : Prop :=
  exists o, ai_opinions mine = [o] /\ so_replicatorKey o = dp_replicatorKey dp.

Record quorum_inv (c : Core) : Prop := {
  qi_filed : map_Forall filed (co_receivedOpinions (k_collected c));
  qi_mine : forall mine, k_mine c = Some mine -> my_opinion mine;
  qi_calculated : if k_calculated c
                  then exists mine, k_mine c = Some mine /\
                    (co_txReceived (k_collected c) = false -> agreeing mine (co_receivedOpinions (k_collected c)))
                  else co_opinionTimer (k_collected c) = NoTimer;
  qi_pending : co_opinionTimer (k_collected c) = Pending ->
    co_sent (k_collected c) = false /\
    (replicatorNumber dp <= size (co_receivedOpinions (k_collected c)))%nat }.

(** What a transaction carries. *)
Definition quorum (info : ApprovalTransactionInfo) : Prop :=
  exists o os, ai_opinions info = o :: os /\ so_replicatorKey o = dp_replicatorKey dp /\
    NoDup (map so_replicatorKey (o :: os)) /\
    (Nat.min (length (dp_allReplicators dp)) (replicatorNumber dp) <= length os)%nat /\
    (forall o', o' ∈ os -> exists msg, P msg /\ head (ai_opinions msg) = Some o' /\ validateOpinion info msg = true).

Lemma firstOpinions_inv l os :
  firstOpinions l = Ret os -> Forall2 (fun info o => head (ai_opinions info) = Some o) l os.
Proof.
  revert os. induction l as [|info l IH]; intros os; cbn; [intros [= <-]; constructor|].
  destruct (ai_opinions info) eqn:Ho; [done|]. intros (os' & H & [= <-])%bind_ret_inv.
  constructor; [by rewrite Ho | auto].
Qed.

(** The keys of the collected opinions are the keys of the map. *)
Lemma first_keys (m : gmap Z ApprovalTransactionInfo) os :
  map_Forall filed m ->
  Forall2 (fun info o => head (ai_opinions info) = Some o) (sorted_values m) os ->
  map so_replicatorKey os = sorted_keys m.
Proof.
  intros Hm. unfold sorted_values, sorted_keys.
  assert (Forall (fun p => filed p.1 p.2) (sorted_entries m)) as Hf.
  { apply Forall_forall. intros [k a] H%elem_of_sorted_entries. by apply Hm in H. }
  revert os. induction Hf as [|[k a] l (_ & _ & o & os0 & Ho & Hk) _ IH]; intros os H; inversion H; subst; [done|].
  cbn in *. rewrite Ho in *. cbn in *. simplify_eq. f_equal. by apply IH.
Qed.

Lemma validate_same mine info msg :
  ai_rootHash info = ai_rootHash mine -> ai_status info = ai_status mine ->
  ai_fsTreeFileSize info = ai_fsTreeFileSize mine -> ai_metaFilesSize info = ai_metaFilesSize mine ->
  ai_driveSize info = ai_driveSize mine ->
  validateOpinion info msg = validateOpinion mine msg.
Proof. unfold validateOpinion. by intros -> -> -> -> ->. Qed.

Lemma approval_quorum_of mine m info :
  my_opinion mine -> map_Forall filed m -> agreeing mine m -> approval_of mine m info ->
  (Nat.min (length (dp_allReplicators dp)) (replicatorNumber dp) <= size m)%nat -> quorum info.
Proof.
  intros (o & Ho & Hk) Hf Ha (os & Hos & ->) Hn.
  apply firstOpinions_inv in Hos. inversion Hos as [|? o1 ? os1 Ho1 Hos1]; subst.
  rewrite Ho in Ho1. injection Ho1 as <-. exists o, os1. cbn. split; [done|]. split; [done|].
  pose proof (first_keys _ _ Hf Hos1) as Hkeys. split_and!.
  - rewrite Hkeys, Hk. constructor; [|apply NoDup_sorted_keys].
    rewrite elem_of_sorted_keys. intros [a Hin]. apply Hf in Hin as (_ & Hne & _). done.
  - rewrite <- (Forall2_length _ _ _ Hos1), length_sorted_values. done.
  - intros o' Hin. destruct (forall2_in_r _ _ _ _ Hos1 Hin) as (msg & Hmsg & Hhd).
    apply elem_of_sorted_values in Hmsg as [k Hmk]. exists msg.
    split; [by apply Hf in Hmk as [? _]|]. split; [done|].
    rewrite (validate_same mine) by done. by apply Ha in Hmk.
Qed.

End Quorum.

Section QuorumRuns.
  Variable P : ApprovalTransactionInfo -> Prop.

Lemma filed_insert c info o os :
  P info -> so_replicatorKey o <> dp_replicatorKey dp -> ai_opinions info = o :: os ->
  map_Forall (filed P) (co_receivedOpinions c) ->
  map_Forall (filed P) (<[so_replicatorKey o := info]> (co_receivedOpinions c)).
Proof.
  intros HP Hk Ho H. apply map_Forall_insert_2; [|done]. split; [done|]. split; [done|]. by exists o, os.
Qed.

Lemma size_insert_le (m : gmap Z ApprovalTransactionInfo) k v : (size m <= size (<[k := v]> m))%nat.
Proof.
  destruct (m !! k) eqn:H; [rewrite map_size_insert_Some by (by rewrite H) | rewrite map_size_insert_None by done]; lia.
Qed.

(** The result of the check, when my opinion agrees with what is collected. *)
Lemma checked_inv mine c out c' :
  quorum_inv P (mkCore c (Some mine) true) -> checked mine c out c' ->
  quorum_inv P (mkCore c' (Some mine) true) /\
  forall info, ApprovalTransactionIsReady info ∈ out -> quorum P info.
Proof.
  intros Hi. pose proof Hi as [Hf Hm Hc Hp]. cbn in Hf, Hm, Hc, Hp.
  destruct Hc as (mine' & [= <-] & Hag). specialize (Hm mine eq_refl).
  destruct 1 as [|[Hs Hx] Hn Ht|info He Hn Ha].
  - split; [done|]. intros info H%not_elem_of_nil. done.
  - split; [|intros info H%not_elem_of_nil; done]. split; cbn; eauto. intros mine' [= <-]. done.
  - split.
    + split; cbn; eauto; [|done]. intros mine' [= <-]. done.
    + intros info' [= ->]%list_elem_of_singleton. apply (approval_quorum_of P mine (co_receivedOpinions c)); auto; [apply Hag, He | lia].
Qed.

Lemma quorum_created mine c sh :
  quorum_inv P (mkCore c (Some mine) false) ->
  quorum_inv P (mkCore (set_opinions (eraseInvalid mine (co_receivedOpinions c)) (set_shareTimer sh c)) (Some mine) true).
Proof.
  intros [Hf Hm Hc Hp]. cbn in *. split; cbn; auto.
  - intros k info [Hin _]%map_lookup_filter_Some. by apply Hf.
  - exists mine. split; [done|]. intros _ k info Hin. apply map_lookup_filter_Some in Hin. apply Hin.
  - rewrite Hc. done.
Qed.

Lemma quorum_received info o os mine c b :
  P info -> ai_opinions info = o :: os -> so_replicatorKey o <> dp_replicatorKey dp ->
  b = true -> validateOpinion mine info = true -> quorum_inv P (mkCore c (Some mine) b) ->
  quorum_inv P (mkCore (set_opinions (<[so_replicatorKey o := info]> (co_receivedOpinions c)) c) (Some mine) true).
Proof.
  intros HP Ho Hk -> Hv [Hf Hm Hc Hp]. cbn in *. split; cbn; auto.
  - by eapply filed_insert.
  - destruct Hc as (mine' & [= <-] & Hag). exists mine. split; [done|]. intros Hx.
    apply map_Forall_insert_2; [done | by apply Hag].
  - intros Ht. destruct (Hp Ht) as [? Hn]. split; [done|]. etransitivity; [exact Hn|]. apply size_insert_le.
Qed.

Lemma protocol_quorum ev c out c' :
  protocol ev c out c' -> orderly ev c ->
  (forall info, ev = OpinionReceived info -> P info) ->
  quorum_inv P c ->
  quorum_inv P c' /\ forall info, ApprovalTransactionIsReady info ∈ out -> quorum P info.
Proof.
  intros H Hor HP Hi.
  assert (forall (Q : Prop) o, silent o -> Q -> Q /\ forall info, ApprovalTransactionIsReady info ∈ o -> quorum P info) as Hsil.
  { intros Q o Hs HQ. split; [done|]. intros info Hin. by apply Hs in Hin. }
  pose proof Hi as [Hf Hm Hc Hp].
  destruct H as [ev c m b out sh ot Hs Hot _|sizes ctl c b mine o Ho Hk|c mine out Hs Hx|c mine sh out1 out2 c' Hs Hck
    |info c b o os Ho|info c mine b o os out c' Ho Hv Hck|c mine b info Ht He Ha|c m b Ht He
    |tx c m b out Hs|h c m b out Hs Hx]; cbn in *.
  - apply Hsil; [done|]. split; cbn; auto; [destruct b; [exact Hc | intuition congruence] | intros ->; apply Hp; destruct Hot; congruence].
  - apply Hsil; [apply silent_nil|]. split; cbn; auto; [intros mine' [= <-]; by exists o|].
    destruct b; [|done]. by destruct Hc as (? & [=] & _).
  - apply Hsil; [done|]. split; cbn; auto. exists mine. split; [done|]. congruence.
  - apply quorum_created with (sh := sh) in Hi. destruct (checked_inv _ _ _ _ Hi Hck) as [Hi' Hq].
    split; [done|]. intros info [Hin|Hin]%elem_of_app; [by apply Hs in Hin | auto].
  - apply Hsil; [apply silent_nil|]. split; cbn; auto.
    + destruct Hor as [_ Hk]. eapply filed_insert; eauto.
    + destruct b; [|done]. by destruct Hc as (? & [=] & _).
    + intros Ht. destruct (Hp Ht) as [? Hn]. split; [done|]. etransitivity; [exact Hn|]. apply size_insert_le.
  - destruct Hor as [[[=]|Hb] Hk]. 
    apply (checked_inv mine _ out c') in Hck; [subst b; exact Hck|].
    eapply quorum_received; eauto.
  - destruct b; [|congruence]. destruct Hc as (mine' & [= <-] & Hag). destruct (Hp Ht) as [_ Hn]. split.
    + split; cbn; eauto; done.
    + intros info' [= ->]%list_elem_of_singleton. apply (approval_quorum_of P mine (co_receivedOpinions c)); auto; [apply Hag, He | lia].
  - apply Hsil; [apply silent_nil|]. split; cbn; auto; (destruct b; [done | congruence]) || done.
  - apply Hsil; [done|]. split; cbn; auto. destruct b; [|done].
    destruct Hc as (mine & ? & _). by exists mine.
  - apply Hsil; [done|]. split; cbn; auto; [apply map_Forall_empty | |].
    + destruct b; [|done]. destruct Hc as (mine & ? & _). exists mine. split; [done|]. intros _. apply map_Forall_empty.
    + intros Ht. exfalso. destruct Hor as [Hsent|Hne]; [|done]. destruct (Hp Ht). congruence.
Qed.
End QuorumRuns.

Lemma run_quorum (P : ApprovalTransactionInfo -> Prop) evs t out t' :
  (forall info, OpinionReceived info ∈ evs -> P info) -> orderly_run evs t -> quorum_inv P (core t) ->
  modify_run evs t = Ret (out, t') ->
  forall info, ApprovalTransactionIsReady info ∈ out -> quorum P info.
Proof.
  revert t out. induction evs as [|ev evs IH]; intros t out HP Hor Hi.
  { intros [= <- <-] info H%not_elem_of_nil. done. }
  intros (out1 & t1 & out2 & H1 & H2 & ->)%modify_run_cons_inv info.
  cbn in Hor. rewrite H1 in Hor. destruct Hor as [Ho Hor].
  apply step_protocol in H1.
  assert (forall i, ev = OpinionReceived i -> P i) as HPe by (intros i ->; apply HP; by left).
  destruct (protocol_quorum P _ _ _ _ H1 Ho HPe Hi) as [Hi1 Hq].
  intros [H|H]%elem_of_app; [by apply Hq|].
  apply (IH t1 out2); [|done..]. intros i Hin. apply HP. by right.
Qed.

Lemma new_quorum P transactionHash maxDataSize : quorum_inv P (core (newTask transactionHash maxDataSize)).
Proof. by split. Qed.

(** C16: in an orderly run every approval transaction starts with this
    replicator's opinion, carries opinions of pairwise different replicators --
    at least the required number of others, or all the others -- and each of
    them was received in a message whose root hash, status and sizes are those
    of the transaction. *)
Theorem approval_quorum_modify evs transactionHash maxDataSize out t' info :
  orderly_run evs (newTask transactionHash maxDataSize) ->
  modify_run evs (newTask transactionHash maxDataSize) = Ret (out, t') ->
  ApprovalTransactionIsReady info ∈ out -> quorum (fun msg => OpinionReceived msg ∈ evs) info.
Proof.
  intros Hor Hrun. apply (run_quorum _ evs (newTask transactionHash maxDataSize) out t');
    auto using new_quorum.
Qed.

(** ** No fault *)

(** What the callers guarantee: an opinion message carries an opinion, an error
    is not a success; and everyone calculates the root hash [h]. *)
Definition well_formed (h : Z) (ev : ModifyEvent) : Prop :=
  match ev with
  | OpinionReceived info => ai_opinions info <> []
  | SandboxCalculated h' => h' = h
  | CompletedWithError st h' => st <> SUCCESS /\ h' = h
  | ApprovalPublished tx => pa_rootHash tx = h
  | _ => True
  end.

Definition event_root (ev : ModifyEvent) : option Z :=
  match ev with SandboxCalculated h | CompletedWithError _ h => Some h | _ => None end.

Definition root_is (h : Z) (t : ModifyTask) : Prop := forall h', mt_sandboxRootHash t = Some h' -> h' = h.

Record safe (t : ModifyTask) : Prop := {
  sf_received : map_Forall (fun _ info => ai_opinions info <> []) (co_receivedOpinions (mt_collected t));
  sf_mine : forall mine, mt_myOpinion t = Some mine -> ai_opinions mine <> [] /\ is_Some (mt_sandboxRootHash t);
  sf_calculated : mt_sandboxCalculated t = true -> is_Some (mt_myOpinion t);
  sf_timers : co_shareTimer (mt_collected t) = Pending \/ co_opinionTimer (mt_collected t) = Pending ->
    is_Some (mt_myOpinion t) }.

Lemma firstOpinions_total l : Forall (fun info => ai_opinions info <> []) l -> exists os, firstOpinions l = Ret os.
Proof.
  induction 1 as [|info l H _ [os IH]]; cbn; [by eexists|].
  destruct (ai_opinions info) as [|o ?]; [done|]. rewrite IH. by eexists.
Qed.

Lemma expired_total t mine :
  mt_myOpinion t = Some mine -> ai_opinions mine <> [] ->
  map_Forall (fun _ info => ai_opinions info <> []) (co_receivedOpinions (mt_collected t)) ->
  exists r, opinionTimerExpired dp t = Ret r.
Proof.
  intros Hm Hne Hr. unfold opinionTimerExpired. case_match; [by eexists|]. rewrite Hm.
  destruct (firstOpinions_total (mine :: sorted_values (co_receivedOpinions (mt_collected t)))) as [os ->]; [|by eexists].
  constructor; [done|]. apply Forall_forall. intros info [k Hk]%elem_of_sorted_values. by apply Hr in Hk.
Qed.

Lemma check_total t :
  (forall mine, mt_myOpinion t = Some mine -> ai_opinions mine <> []) ->
  map_Forall (fun _ info => ai_opinions info <> []) (co_receivedOpinions (mt_collected t)) ->
  exists r, checkOpinionNumberAndStartTimer dp t = Ret r.
Proof.
  intros Hm Hr. unfold checkOpinionNumberAndStartTimer.
  destruct (mt_myOpinion t) as [mine|] eqn:E; [|by eexists].
  case_match; [by apply (expired_total _ mine); auto|]. repeat (case_match; [|by eexists]). by eexists.
Qed.

Lemma created_total t :
  safe t -> bool_decide (is_Some (mt_myOpinion t)) && negb (mt_sandboxCalculated t) = true ->
  exists r, myOpinionIsCreated dp t = Ret r.
Proof.
  intros [Hr Hm Hc Ht] [[mine E]%bool_decide_eq_true _]%andb_prop. unfold myOpinionIsCreated. rewrite E.
  destruct (mt_taskIsInterrupted t) eqn:Hi; [by eexists|].
  unfold sendSingleApprovalTransaction, startSynchronizing, shareMyOpinion. cbn [mt_myOpinion set_calculated].
  rewrite E. destruct (co_txReceived _); cbn; [rewrite Hi; by eexists|].
  match goal with |- context [checkOpinionNumberAndStartTimer dp ?t0] =>
    destruct (check_total t0) as [[? ?] Hck] end.
  - intros mine' H'. assert (mine' = mine) as -> by (destruct (dp_session dp); cbn in H'; congruence).
    by apply (Hm mine).
  - assert (map_Forall (fun _ info => ai_opinions info <> []) (eraseInvalid mine (co_receivedOpinions (mt_collected t)))).
    { intros k info [Hin _]%map_lookup_filter_Some. by apply Hr in Hin. }
    by destruct (dp_session dp).
  - rewrite Hck. by eexists.
Qed.

Lemma published_total tx t :
  root_is (pa_rootHash tx) t -> safe t -> exists r, drop_result (ModifyDriveTask.onApprovalTxPublished dp tx t) = Ret r.
Proof.
  intros Hroot [Hr Hm Hc Ht]. unfold ModifyDriveTask.onApprovalTxPublished, drop_result.
  destruct (mt_taskIsInterrupted t) eqn:Hi; [by eexists|]. destruct (_ && _).
  - cbn [mt_sandboxCalculated set_collected]. destruct (mt_sandboxCalculated t) eqn:Hcal; [|by eexists].
    destruct (Hc eq_refl) as [mine E]. destruct (Hm mine E) as [_ [h Hh]]. cbn. rewrite Hh.
    rewrite (decide_True _ _ (Hroot h Hh)). unfold sendSingleApprovalTransaction, startSynchronizing. cbn. rewrite E, Hi.
    destruct (decide (dp_replicatorKey dp ∈ pa_replicatorKeys tx)); cbn; by eexists.
  - destruct (breakTorrentDownloadAndRunNextTask _ _ _). by eexists.
Qed.

Lemma step_total h ev t : well_formed h ev -> root_is h t -> safe t -> exists r, modify_step ev t = Ret r.
Proof.
  intros Hw Hroot Hsafe. pose proof Hsafe as [Hr Hm Hc Ht]. destruct ev; cbn [modify_step]; try (by eexists).
  - case_match; [by eexists|]. unfold ModifyDriveTask.modifyIsCompletedWithError.
    rewrite bool_decide_false by apply Hw. by eexists.
  - case_match; [by eexists|]. destruct (mt_sandboxRootHash t) eqn:E; [|by eexists].
    unfold onCumulativeUploadsUpdated. rewrite E. destruct (mt_taskIsInterrupted t); [by eexists|].
    destruct sizes as [[? ?] ?]. by eexists.
  - case_match; [by apply created_total | by eexists].
  - destruct (co_shareTimer _) eqn:E; try by eexists. unfold shareMyOpinion.
    destruct Ht as [mine ->]; [by left|]. by eexists.
  - unfold opinionTimerFires. destruct (co_opinionTimer _) eqn:E; try by eexists.
    destruct Ht as [mine Hmine]; [by right|]. apply (expired_total _ mine); [done | by apply Hm | done].
  - unfold ModifyDriveTask.processedModifyOpinion. case_decide; [by eexists|].
    destruct (ai_opinions info) as [|o os] eqn:Ho; [done|].
    destruct (mt_myOpinion t) as [mine|] eqn:E; [|by eexists].
    destruct (validateOpinion mine info); [|by eexists].
    match goal with |- context [checkOpinionNumberAndStartTimer dp ?t0] =>
      destruct (check_total t0) as [[? ?] Hck] end; [| |rewrite Hck; by eexists].
    + cbn. intros m' H'. rewrite E in H'. by apply Hm.
    + cbn. apply map_Forall_insert_2; [by rewrite Ho | done].
  - apply published_total; [|done]. by rewrite Hw.
  - unfold shouldCancelModify. destruct (mt_taskIsInterrupted t); [by eexists|].
    case_decide; [|by eexists]. destruct (breakTorrentDownloadAndRunNextTask _ _ _). by eexists.
Qed.

(** The root hash is known when the opinion is made, and stays. *)
Lemma break_rootHash tx t :
  mt_sandboxRootHash (breakTorrentDownloadAndRunNextTask dp tx t).2 = mt_sandboxRootHash t.
Proof.
  unfold breakTorrentDownloadAndRunNextTask.
  destruct (mt_downloading (set_interrupted t)), (dp_session dp); done.
Qed.

Lemma check_rootHash t out t' :
  checkOpinionNumberAndStartTimer dp t = Ret (out, t') -> mt_sandboxRootHash t' = mt_sandboxRootHash t.
Proof. by intros [[-> ->]|(? & ? & ? & -> & ?)]%check_inv. Qed.

Lemma step_rootHash ev t out t' :
  modify_step ev t = Ret (out, t') ->
  (is_Some (mt_sandboxRootHash t) -> is_Some (mt_sandboxRootHash t')) /\
  (mt_myOpinion t = None -> is_Some (mt_myOpinion t') -> is_Some (mt_sandboxRootHash t')) /\
  (mt_sandboxRootHash t' = mt_sandboxRootHash t \/ mt_sandboxRootHash t' = event_root ev).
Proof.
  assert (forall t', mt_sandboxRootHash t' = mt_sandboxRootHash t -> mt_myOpinion t' = mt_myOpinion t ->
    (is_Some (mt_sandboxRootHash t) -> is_Some (mt_sandboxRootHash t')) /\
    (mt_myOpinion t = None -> is_Some (mt_myOpinion t') -> is_Some (mt_sandboxRootHash t')) /\
  (mt_sandboxRootHash t' = mt_sandboxRootHash t \/ mt_sandboxRootHash t' = event_root ev)) as Hkeep.
  { intros t1 -> ->. split; [done|]. split; [|by left]. intros ->. by intros [? [=]]. }
  intros H. pose proof (step_protocol _ _ _ _ H) as Hp. destruct ev; cbn [modify_step] in H.
  - injection H as <- <-. apply Hkeep; unfold ModifyDriveTask.actionListDownloaded; by case_match.
  - injection H as <- <-. destruct (mt_myOpinion t) eqn:E; [by apply Hkeep|].
    split_and!; [intros; by eexists|intros; by eexists|by right].
  - destruct (mt_myOpinion t) eqn:E; [injection H as <- <-; by apply Hkeep|].
    apply bind_ret_inv in H as (t1 & H1 & [= <- <-]). apply guard_assert_inv in H1 as [_ [= <-]].
    split_and!; [intros; by eexists|intros; by eexists|by right].
  - destruct (mt_myOpinion t) eqn:E; [injection H as <- <-; by apply Hkeep|].
    destruct (mt_sandboxRootHash t) eqn:Hr; [|injection H as <- <-; rewrite <- E in *; rewrite <- Hr in *; by apply Hkeep].
    unfold onCumulativeUploadsUpdated in H. rewrite Hr in H.
    destruct (mt_taskIsInterrupted t); [injection H as <- <-; rewrite Hr; split_and!; [intros; by eexists|intros; by eexists|by left]|].
    apply bind_ret_inv in H as (layout & _ & H). destruct sizes as [[? ?] ?]. injection H as <- <-.
    cbn. rewrite Hr. split_and!; [intros; by eexists|intros; by eexists|by left].
  - destruct (_ && _) in H; [|injection H as <- <-; by apply Hkeep].
    assert (mt_sandboxRootHash t' = mt_sandboxRootHash t) as Hroot.
    { unfold myOpinionIsCreated in H. destruct (mt_myOpinion t); [|done].
      destruct (mt_taskIsInterrupted t); [by injection H as <- <-|].
      destruct (co_txReceived (mt_collected (set_calculated t))).
      - apply bind_ret_inv in H as (? & _ & H). by apply bind_ret_inv in H as (? & _ & [= <- <-]).
      - apply bind_ret_inv in H as ([? t2] & Hs & H). apply share_inv in Hs as (? & _ & _ & ->).
        apply bind_ret_inv in H as ([? t3] & Hc & [= <- <-]). by apply check_rootHash in Hc. }
    apply Hkeep; [done|]. inversion Hp; unfold core in *; congruence.
  - destruct (co_shareTimer _); try (injection H as <- <-; by apply Hkeep).
    apply share_inv in H as (? & _ & _ & ->). by apply Hkeep.
  - unfold opinionTimerFires in H. destruct (co_opinionTimer _); try (injection H as <- <-; by apply Hkeep).
    apply expired_inv in H as [(? & ? & ->)|(? & ? & ? & ? & ? & ? & ->)]; by apply Hkeep.
  - apply bind_ret_inv in H as ([[? ?] ?] & H & [= <- <-]). unfold ModifyDriveTask.processedModifyOpinion in H.
    case_decide; [injection H as <- <- <-; by apply Hkeep|].
    destruct (mt_myOpinion t) eqn:E, (ai_opinions info); try (destruct (validateOpinion _ _));
      try done; try (injection H as <- <- <-; rewrite <- E in *; by apply Hkeep).
    apply bind_ret_inv in H as ([? t3] & Hc & [= <- <- <-]). rewrite <- E in *.
    apply Hkeep; [by apply check_rootHash in Hc|]. inversion Hp; unfold core in *; congruence.
  - apply bind_ret_inv in H as ([[? ?] ?] & H & [= <- <-]). unfold ModifyDriveTask.onApprovalTxPublished in H.
    destruct (mt_taskIsInterrupted t); [injection H as <- <- <-; by apply Hkeep|].
    destruct (_ && _) in H.
    + destruct (mt_sandboxCalculated _); cbn [negb] in H; [|injection H as <- <- <-; by apply Hkeep].
      destruct (mt_sandboxRootHash (set_collected _ _)); [|done]. destruct (decide (z = pa_rootHash tx)); [|done].
      apply bind_ret_inv in H as (? & _ & H). apply bind_ret_inv in H as (? & _ & [= <- <- <-]). by apply Hkeep.
    + match type of H with context [breakTorrentDownloadAndRunNextTask dp ?tx ?t0] =>
        pose proof (break_rootHash tx t0) as Hb; pose proof (break_core tx t0) as [_ Hc] end.
      destruct (breakTorrentDownloadAndRunNextTask _ _ _). injection H as <- <- <-.
      apply Hkeep; [done|]. by injection Hc.
  - unfold ModifyDriveTask.onApprovalTxFailed in H. destruct (_ && _) in H; injection H as <- <-; by apply Hkeep.
  - unfold shouldCancelModify in H.
    pose proof (break_rootHash (ModifyDriveTask.txReceived t) t) as Hb.
    pose proof (break_core (ModifyDriveTask.txReceived t) t) as [_ Hc].
    destruct (breakTorrentDownloadAndRunNextTask _ _ _) as [o t1].
    destruct (mt_taskIsInterrupted t); [injection H as <- <-; by apply Hkeep|].
    case_decide; injection H as <- <-; apply Hkeep; try done. by injection Hc.
  - unfold onDriveClose in H. destruct (mt_taskIsInterrupted t); [injection H as <- <-; by apply Hkeep|].
    pose proof (break_rootHash (ModifyDriveTask.txReceived t) t) as Hb.
    pose proof (break_core (ModifyDriveTask.txReceived t) t) as [_ Hc].
    destruct (breakTorrentDownloadAndRunNextTask _ _ _) as [o t1]. injection H as <- <-.
    apply Hkeep; [done|]. by injection Hc.
  - unfold ModifyDriveTask.terminate in H.
    match type of H with context [breakTorrentDownloadAndRunNextTask dp ?tx ?t0] =>
      pose proof (break_rootHash tx t0) as Hb; pose proof (break_core tx t0) as [_ Hc] end.
    destruct (breakTorrentDownloadAndRunNextTask _ _ _) as [o t1]. injection H as <- <-.
    apply Hkeep; [done|]. by injection Hc.
Qed.

Definition safe_core (c : Core) : Prop :=
  map_Forall (fun _ info => ai_opinions info <> []) (co_receivedOpinions (k_collected c)) /\
  match k_mine c with
  | Some mine => ai_opinions mine <> []
  | None => k_calculated c = false /\ co_shareTimer (k_collected c) <> Pending /\
            co_opinionTimer (k_collected c) <> Pending
  end.

Lemma checked_safe mine c out c' b :
  checked mine c out c' -> safe_core (mkCore c (Some mine) b) -> safe_core (mkCore c' (Some mine) b).
Proof. by destruct 1. Qed.

Lemma protocol_safe ev c out c' : protocol ev c out c' -> safe_core c -> safe_core c'.
Proof.
  intros H [Hr Hm].
  destruct H as [ev c m b out sh ot Hs Hot Hsh|sizes ctl c b mine o Ho Hk|c mine out Hs Hx|c mine sh out1 out2 c' Hs Hck
    |info c b o os Ho|info c mine b o os out c' Ho Hv Hck|c mine b info Ht He Ha|c m b Ht He
    |tx c m b out Hs|h c m b out Hs Hx]; cbn in *; try (by split).
  - split; [done|]. cbn. destruct m; [done|]. destruct Hm as (? & ? & ?).
    split_and!; [done | | intuition congruence]. destruct Hsh as [->|[->|[? [=]]]]; done.
  - split; [done|]. cbn. congruence.
  - apply (checked_safe _ _ _ _ true) in Hck; [done|]. split; [|done]. cbn.
    intros k info [Hin _]%map_lookup_filter_Some. by apply Hr in Hin.
  - split; [|done]. cbn. apply map_Forall_insert_2; [congruence | done].
  - apply (checked_safe _ _ _ _ b) in Hck; [done|]. split; [|done]. cbn.
    apply map_Forall_insert_2; [congruence | done].
  - split; [done|]. cbn. destruct m; [done|]. naive_solver.
Qed.

Lemma safe_iff t :
  safe t <-> safe_core (core t) /\ (is_Some (mt_myOpinion t) -> is_Some (mt_sandboxRootHash t)).
Proof.
  unfold safe_core, core. cbn. split.
  - intros [Hr Hm Hc Ht]. split; [|intros [mine E]; by eapply Hm]. split; [done|].
    destruct (mt_myOpinion t) as [mine|]; [by apply (Hm mine)|]. split_and!.
    + destruct (mt_sandboxCalculated t); [by destruct Hc|done].
    + intros E. destruct Ht as [? [=]]. by left.
    + intros E. destruct Ht as [? [=]]. by right.
  - intros [[Hr Hm] Hroot]. destruct (mt_myOpinion t) as [mine|] eqn:E.
    + split; rewrite ?E; eauto. intros ? [= <-]. split; eauto.
    + destruct Hm as (? & ? & ?). split; rewrite ?E; try done; [congruence | intuition congruence..].
Qed.

Lemma step_safe ev t out t' : modify_step ev t = Ret (out, t') -> safe t -> safe t'.
Proof.
  intros H. rewrite !safe_iff. intros [Hs Hr]. pose proof (step_rootHash _ _ _ _ H) as (Hkeep & Hnew & _).
  apply step_protocol in H. split; [by eapply protocol_safe|].
  destruct (mt_myOpinion t) eqn:E; [eauto | auto].
Qed.

Lemma step_root_is h ev t out t' :
  well_formed h ev -> modify_step ev t = Ret (out, t') -> root_is h t -> root_is h t'.
Proof.
  intros Hw H Hr h' Hh. destruct (step_rootHash _ _ _ _ H) as (_ & _ & [E|E]); rewrite E in Hh; [by apply Hr|].
  destruct ev; cbn in Hh, Hw; naive_solver.
Qed.

(** When the root hash that the replicator calculates is the one that is approved, no
    sequence of events makes a modification task fail an assertion or dereference what
    is not there: every run ends. *)
Lemma modify_no_fault h evs transactionHash maxDataSize :
  Forall (well_formed h) evs -> exists out t', modify_run evs (newTask transactionHash maxDataSize) = Ret (out, t').
Proof.
  assert (forall t, root_is h t -> safe t -> Forall (well_formed h) evs -> exists out t', modify_run evs t = Ret (out, t')) as Hrun.
  { induction evs as [|ev evs IH]; intros t Hh Hs He; [by do 2 eexists|]. inversion He as [|? ? Hev Hevs]; subst.
    destruct (step_total h ev t) as [[out1 t1] H1]; [done..|].
    destruct (IH t1) as (out2 & t2 & H2); [by eapply step_root_is | by eapply step_safe | done|].
    cbn. rewrite H1. cbn. rewrite H2. by do 2 eexists. }
  apply Hrun; [done|]. split; cbn; try done. naive_solver.
Qed.

(** ** The publication of the approval *)

(** What a task does when the approval of its own modification is published
    while it works, with the root hash that it calculated itself (another one is an
    error).  When its sandbox is ready it starts synchronizing, after
    sending its single approval if its opinion is not in the transaction; when it
    is not, nothing happens yet, and the single approval and the synchronization
    follow as soon as its opinion is created.  In every other case -- another
    modification, or no action list -- the data of this one counts as paid, the
    download is broken and catching up is requested. *)
Theorem published_synchronizes tx t mine :
  safe t -> root_is (pa_rootHash tx) t ->
  mt_taskIsInterrupted t = false -> mt_myOpinion t = Some mine \/ mt_sandboxCalculated t = false ->
  let t1 := set_collected (set_txReceived (mt_collected t)) t in
  if bool_decide (mt_transactionHash t = pa_modifyTransactionHash tx) &&
     (mt_actionListIsReceived t || negb (bool_decide (mt_status t = SUCCESS)))
  then
    if mt_sandboxCalculated t then
      ModifyDriveTask.onApprovalTxPublished dp tx t =
        Ret (false, (if decide (dp_replicatorKey dp ∈ pa_replicatorKeys tx) then []
                     else [SingleApprovalTransactionIsReady mine]) ++ [StartSynchronizingDriveWithSandbox], t1)
    else
      ModifyDriveTask.onApprovalTxPublished dp tx t = Ret (false, [], t1) /\
      myOpinionIsCreated dp (set_myOpinion (Some mine) t1) =
        Ret ([SingleApprovalTransactionIsReady mine; StartSynchronizingDriveWithSandbox],
             set_calculated (set_myOpinion (Some mine) t1))
  else
    exists out t2, ModifyDriveTask.onApprovalTxPublished dp tx t =
        Ret (true, IncreaseApprovedExpected (mt_maxDataSize t) :: out, t2) /\
      mt_taskIsInterrupted t2 = true /\ StartSynchronizingDriveWithSandbox ∉ out.
Proof.
  intros [Hr Hm Hc Ht] Hroot Hi Hmine. cbn zeta. unfold ModifyDriveTask.onApprovalTxPublished. rewrite Hi.
  cbn [mt_transactionHash mt_actionListIsReceived mt_status set_collected]. destruct (_ && _) eqn:Hb.
  - cbn [mt_sandboxCalculated mt_sandboxRootHash set_collected]. destruct (mt_sandboxCalculated t) eqn:Hcal; cbn [negb].
    + destruct Hmine as [E|[=]]. destruct (Hm mine E) as [_ [h Hh]]. rewrite Hh.
      rewrite (decide_True _ _ (Hroot h Hh)). unfold sendSingleApprovalTransaction, startSynchronizing. cbn. rewrite E, Hi.
      by destruct (decide (dp_replicatorKey dp ∈ pa_replicatorKeys tx)).
    + split; [done|]. unfold myOpinionIsCreated, startSynchronizing. cbn. rewrite Hi. cbn. by rewrite ?Hi.
  - unfold breakTorrentDownloadAndRunNextTask, tryBreakTask. cbn. rewrite andb_false_r.
    destruct (mt_downloading t), (dp_session dp);
      do 2 eexists; (split; [done|]); (split; [done|]); set_solver.
Qed.

(** ** Streams *)

Definition on_base (f : ModifyTask -> Outcome (list TaskOutput * ModifyTask)) (s : StreamTask.StreamTask)
    : Outcome (list TaskOutput * StreamTask.StreamTask) :=
  '(out, t) ← f (StreamTask.sk_base s); Ret (out, StreamTask.mkStreamTask t (StreamTask.sk_own s)).

(** The events of a stream task; it has no action list. *)
Definition stream_step (ev : ModifyEvent) (s : StreamTask.StreamTask) : Outcome (list TaskOutput * StreamTask.StreamTask) :=
  let own_tx := co_txReceived (StreamTask.sk_own s) in
  match ev with
  | ActionListDownloaded | CompletedWithError _ _ => Ret ([], s)
  | SandboxCalculated _ | UploadsUpdated _ _ | OpinionCreated | ShareTimer | OpinionTimer => on_base (modify_step ev) s
  | OpinionReceived info => drop_result (StreamTask.processedModifyOpinion dp info s)
  | ApprovalPublished tx => drop_result (StreamTask.onApprovalTxPublished dp tx s)
  | ApprovalFailed h => Ret (StreamTask.onApprovalTxFailed h s)
  | CancelModify h => on_base (fun t => drop_result (Ret (shouldCancelModify dp own_tx h t))) s
  | CloseDrive => on_base (fun t => Ret (onDriveClose dp own_tx t)) s
  | Terminate => Ret (StreamTask.terminate dp s)
  end.

Fixpoint stream_run (evs : list ModifyEvent) (s : StreamTask.StreamTask)
    : Outcome (list TaskOutput * StreamTask.StreamTask) :=
  match evs with
  | [] => Ret ([], s)
  | ev :: evs' =>
      '(out1, s1) ← stream_step ev s;
      '(out2, s2) ← stream_run evs' s1;
      Ret (out1 ++ out2, s2)
  end.

Definition newStream (streamId maxSizeBytes : Z) : StreamTask.StreamTask :=
  StreamTask.mkStreamTask (mkTask streamId maxSizeBytes None SUCCESS None false false false false noCollected)
    noCollected.

(** The base class never sees an opinion. *)
Definition unaware (c : Core) : Prop :=
  co_receivedOpinions (k_collected c) = ∅ /\ co_opinionTimer (k_collected c) <> Pending.

(** The events that a stream task leaves to the handlers of its base class. *)
Definition base_event (ev : ModifyEvent) : bool :=
  match ev with
  | SandboxCalculated _ | UploadsUpdated _ _ | OpinionCreated | ShareTimer | OpinionTimer => true
  | _ => false
  end.

Lemma replicatorNumber_pos : dp_allReplicators dp <> [] -> (1 <= replicatorNumber dp)%nat.
Proof.
  unfold replicatorNumber. destruct (dp_allReplicators dp) as [|k l]; [done|]. intros _. cbn [length].
  apply Nat.div_le_lower_bound; [done|]. lia.
Qed.

Lemma check_unaware t :
  dp_allReplicators dp <> [] -> co_receivedOpinions (mt_collected t) = ∅ ->
  checkOpinionNumberAndStartTimer dp t = Ret ([], t).
Proof.
  intros Hne Hr. pose proof (replicatorNumber_pos Hne) as Hn. unfold checkOpinionNumberAndStartTimer.
  rewrite Hr, map_size_empty. destruct (dp_allReplicators dp) as [|k l]; [done|]. cbn [length Nat.leb].
  rewrite andb_false_r. destruct (Nat.leb_spec (replicatorNumber dp) 0); [lia|]. by rewrite andb_false_r.
Qed.

Lemma protocol_unaware ev c out c' :
  dp_allReplicators dp <> [] -> base_event ev = true -> protocol ev c out c' -> unaware c ->
  silent out /\ unaware c'.
Proof.
  intros Hne Hev H [Hr Ht]. pose proof (replicatorNumber_pos Hne) as Hn. unfold unaware.
  destruct H as [ev c m b out sh ot Hs Hot _|sizes ctl c b mine o Ho Hk|c mine out Hs Hx|c mine sh out1 out2 c' Hs Hck
    | | |c mine b info Ht' He Ha|c m b Ht' He| |]; cbn in *; try done; auto using silent_nil.
  - split; [done|]. split; [done|]. intuition congruence.
  - assert (eraseInvalid mine (co_receivedOpinions c) = ∅) as He by (rewrite Hr; apply map_filter_empty).
    rewrite He in Hck. inversion Hck as [|? Hle|? ? Hle]; subst; cbn in *.
    + split; [by auto using silent_app, silent_nil | done].
    + rewrite map_size_empty in Hle. lia.
    + rewrite map_size_empty in Hle. destruct (dp_allReplicators dp); [done|]. cbn in Hle. lia.
Qed.

Lemma stream_step_silent ev s out s' :
  dp_allReplicators dp <> [] -> stream_step ev s = Ret (out, s') -> unaware (core (StreamTask.sk_base s)) ->
  silent out /\ unaware (core (StreamTask.sk_base s')).
Proof.
  intros Hne H Hu.
  assert (forall ev, base_event ev = true -> on_base (modify_step ev) s = Ret (out, s') ->
    silent out /\ unaware (core (StreamTask.sk_base s'))) as Hbase.
  { intros ev' Hev Hb. apply bind_ret_inv in Hb as ([o t] & Hb & [= <- <-]).
    apply step_protocol in Hb. by apply (protocol_unaware ev' (core (StreamTask.sk_base s))). }
  assert (forall tx t r, core t = core (StreamTask.sk_base s) -> breakTorrentDownloadAndRunNextTask dp tx t = r ->
    silent r.1 /\ unaware (core r.2)) as Hbreak.
  { intros tx t r Ht <-. pose proof (break_core tx t) as [Hs Hc]. split; [done|]. by rewrite Hc, Ht. }
  destruct ev; cbn [stream_step] in H;
    try (injection H as <- <-; split; [apply silent_nil | done]); try (by eapply Hbase in H).
  - apply bind_ret_inv in H as ([[ok o] s1] & H & [= <- <-]).
    unfold StreamTask.processedModifyOpinion in H.
    destruct (mt_myOpinion _); [|injection H as <- <- <-; split; [apply silent_nil | done]].
    destruct (_ && _); [|injection H as <- <- <-; split; [apply silent_nil | done]].
    destruct (ai_opinions info); [done|]. rewrite check_unaware in H by (done || apply Hu).
    injection H as <- <- <-. split; [apply silent_nil | done].
  - apply bind_ret_inv in H as ([[ok o] s1] & H & [= <- <-]).
    unfold StreamTask.onApprovalTxPublished in H.
    destruct (mt_taskIsInterrupted _); [injection H as <- <- <-; split; [apply silent_nil | done]|].
    destruct (_ && _).
    + destruct (mt_sandboxRootHash _); [|done]. destruct (decide (z = pa_rootHash tx)); [|done].
      apply bind_ret_inv in H as (single & Hsg & H). apply bind_ret_inv in H as (sync & Hsy & [= <- <- <-]).
      split; [|done]. apply sync_silent in Hsy. apply silent_app; [|done].
      destruct (decide _); [injection Hsg as <-; apply silent_nil | by apply single_silent in Hsg].
    + destruct (breakTorrentDownloadAndRunNextTask _ _ _) as [o1 t1] eqn:Hb. injection H as <- <- <-.
      apply Hbreak in Hb as [Hs Hc]; [|done]. split; [by apply silent_cons | done].
  - apply bind_ret_inv in H as ([o t] & H & [= <- <-]). unfold shouldCancelModify in H.
    destruct (mt_taskIsInterrupted _); [injection H as <- <-; split; [apply silent_nil | done]|].
    destruct (breakTorrentDownloadAndRunNextTask _ _ _) as [o1 t1] eqn:Hb.
    apply Hbreak in Hb as [Hs Hc]; [|done].
    case_decide; injection H as <- <-; split; auto using silent_nil.
  - unfold on_base, onDriveClose in H. cbn in H. destruct (mt_taskIsInterrupted _); [injection H as <- <-; split; [apply silent_nil | done]|].
    destruct (breakTorrentDownloadAndRunNextTask _ _ _) as [o1 t1] eqn:Hb.
    apply Hbreak in Hb as [Hs Hc]; [|done]. by injection H as <- <-.
  - unfold StreamTask.terminate in H.
    destruct (breakTorrentDownloadAndRunNextTask _ _ _) as [o1 t1] eqn:Hb.
    apply Hbreak in Hb as [Hs Hc]; [|done]. by injection H as <- <-.
Qed.

(** A stream task of a drive with other replicators never sends the approval
    transaction: the opinions it receives go to the members the class declares
    again, and the inherited counting of opinions looks at the members of the
    base class. *)
Lemma stream_never_approves evs streamId maxSizeBytes out s' info :
  dp_allReplicators dp <> [] -> stream_run evs (newStream streamId maxSizeBytes) = Ret (out, s') ->
  ApprovalTransactionIsReady info ∉ out.
Proof.
  intros Hne.
  assert (forall s out, unaware (core (StreamTask.sk_base s)) -> stream_run evs s = Ret (out, s') -> silent out) as Hrun.
  { induction evs as [|ev evs IH]; intros s o Hu H; [injection H as <- <-; apply silent_nil|].
    cbn in H. apply bind_ret_inv in H as ([o1 s1] & H1 & H). apply bind_ret_inv in H as ([o2 s2] & H2 & [= <- <-]).
    apply stream_step_silent in H1 as [Hs1 Hu1]; [|done..]. apply silent_app; [done|]. by eapply IH. }
  intros H. by eapply Hrun in H.
Qed.

End Runs.

(** ** Concrete runs *)

(** This replicator (key 1) and four others. *)
Definition dp5 : DriveParams := mkDriveParams 100 1 [2; 3; 4; 5] 0 true.
Definition sign0 (rootHash : Z) (status : ModificationStatus) (sizes : Z * Z * Z) (layout : list (Z * Z)) : Z := 0.
Definition controller0 : ModifyOpinionController := mkController 50 0 (mkCumulative 0 ∅) (mkCumulative 0 ∅).

(** The opinion of replicator [k] about transaction 9 with root hash [h]. *)
Definition opinion_of (k h : Z) : ApprovalTransactionInfo :=
  mkApprovalTx 100 9 h SUCCESS 10 20 30 [mkSingleOpinion k [] 0].

Definition start : list ModifyEvent :=
  [ActionListDownloaded; SandboxCalculated 77; UploadsUpdated (10, 20, 30) controller0; OpinionCreated].
Definition run5 (evs : list ModifyEvent) : Outcome (list TaskOutput * ModifyTask) :=
  modify_run dp5 sign0 evs (newTask 9 1000).
Definition readies_of (r : Outcome (list TaskOutput * ModifyTask)) : list ApprovalTransactionInfo :=
  match r with
  | Ret (out, _) => omap (fun o => match o with ApprovalTransactionIsReady i => Some i | _ => None end) out
  | Stop _ => []
  end.
Definition final5 (evs : list ModifyEvent) : ModifyTask :=
  match run5 evs with Ret (_, t) => t | Stop _ => newTask 9 1000 end.

Definition three_opinions : list ModifyEvent :=
  start ++ [OpinionReceived (opinion_of 2 77); OpinionReceived (opinion_of 3 77); OpinionReceived (opinion_of 4 77);
            OpinionReceived (opinion_of 5 78); OpinionTimer].

(** Three agreeing opinions start the timer, and its expiry sends them. *)
Example three_opinions_sent :
  map (fun info => map so_replicatorKey (ai_opinions info)) (readies_of (run5 three_opinions)) = [[1; 2; 3; 4]].
Proof. vm_compute. reflexivity. Qed.

(** After a failure the same opinions arrive again, but the expired timer object
    still counts as started: there is no second transaction. *)
Definition retry : list ModifyEvent :=
  three_opinions ++ [ApprovalFailed 9; OpinionReceived (opinion_of 2 77); OpinionReceived (opinion_of 3 77);
    OpinionReceived (opinion_of 4 77); OpinionTimer].

Example timer_never_restarts :
  length (readies_of (run5 retry)) = 1%nat /\ co_opinionTimer (mt_collected (final5 retry)) = Fired /\
  co_sent (mt_collected (final5 retry)) = false /\ size (co_receivedOpinions (mt_collected (final5 retry))) = 3%nat.
Proof. vm_compute. by split_and!. Qed.

(** Opinions received before this replicator's are not validated when the last
    one arrives before [myOpinionIsCreated]: the transaction carries them. *)
Definition early : list ModifyEvent :=
  [ActionListDownloaded; OpinionReceived (opinion_of 2 66); OpinionReceived (opinion_of 3 66);
   OpinionReceived (opinion_of 4 66); SandboxCalculated 77; UploadsUpdated (10, 20, 30) controller0;
   OpinionReceived (opinion_of 5 77)].

Example unvalidated_opinions_sent :
  map (fun info => (ai_rootHash info, map so_replicatorKey (ai_opinions info))) (readies_of (run5 early))
    = [(77, [1; 2; 3; 4; 5])].
Proof. vm_compute. reflexivity. Qed.

(** A failure reported while the timer runs empties the opinions but not the timer. *)
Definition failed_early : list ModifyEvent :=
  start ++ [OpinionReceived (opinion_of 2 77); OpinionReceived (opinion_of 3 77); OpinionReceived (opinion_of 4 77);
            ApprovalFailed 9; OpinionTimer].

Example single_opinion_sent :
  map (fun info => map so_replicatorKey (ai_opinions info)) (readies_of (run5 failed_early)) = [[1]].
Proof. vm_compute. reflexivity. Qed.

(** When the approval of another modification is published after this task has
    created its opinion, the task is interrupted, but neither finished now nor
    left with work that would finish it. *)
Definition other_published : list ModifyEvent := start ++ [ApprovalPublished (mkPublished 100 8 55 [2; 3])].

Example task_never_finishes :
  mt_taskIsInterrupted (final5 other_published) = true /\ mt_downloading (final5 other_published) = false /\
  mt_sandboxCalculated (final5 other_published) = true /\
  match run5 other_published with Ret (out, _) => FinishTask ∉ out /\ RemoveDownload ∉ out | Stop _ => False end.
Proof. split_and!; try (vm_compute; reflexivity). vm_compute. split; set_solver. Qed.

(** ** Witnesses *)

Definition out5 (evs : list ModifyEvent) : list TaskOutput :=
  match run5 evs with Ret (out, _) => out | Stop _ => [] end.

Lemma approval_sent_once_witness :
  run5 retry = Ret (out5 retry, final5 retry) /\ (readies (out5 retry) <= 1 + failures retry)%nat.
Proof.
  assert (run5 retry = Ret (out5 retry, final5 retry)) as H by (vm_compute; reflexivity).
  split; [exact H|]. exact (approval_sent_once dp5 sign0 retry 9 1000 _ _ H).
Defined.

Definition published5 : ModifyTask := final5 (start ++ [ApprovalPublished (mkPublished 100 9 77 [1; 2])]).

Lemma approval_silent_after_publication_witness :
  co_txReceived (mt_collected published5) = true /\
  exists out t', modify_run dp5 sign0 [OpinionReceived (opinion_of 2 77); OpinionTimer] published5 = Ret (out, t') /\
    ApprovalTransactionIsReady (opinion_of 1 77) ∉ out.
Proof.
  split; [vm_compute; reflexivity|]. do 2 eexists.
  assert (modify_run dp5 sign0 [OpinionReceived (opinion_of 2 77); OpinionTimer] published5 =
    match modify_run dp5 sign0 [OpinionReceived (opinion_of 2 77); OpinionTimer] published5 with
    | Ret (o, t) => Ret (o, t) | Stop f => Stop f end) as H by (vm_compute; reflexivity).
  split; [vm_compute; reflexivity|].
  refine (approval_silent_after_publication dp5 sign0 [OpinionReceived (opinion_of 2 77); OpinionTimer] published5 _ _ _ _ _);
    vm_compute; reflexivity.
Defined.

Lemma approval_quorum_modify_witness :
  exists info, ApprovalTransactionIsReady info ∈ out5 three_opinions /\
    quorum dp5 (fun msg => OpinionReceived msg ∈ three_opinions) info.
Proof.
  set (info := hd (opinion_of 0 0) (readies_of (run5 three_opinions))).
  exists info.
  assert (ApprovalTransactionIsReady info ∈ out5 three_opinions) as Hin.
  { apply list_elem_of_In. vm_compute. tauto. }
  split; [exact Hin|].
  apply (approval_quorum_modify dp5 sign0 three_opinions 9 1000 (out5 three_opinions) (final5 three_opinions) info).
  - vm_compute. repeat match goal with |- _ /\ _ => split end; try exact I; try (right; reflexivity);
      intros ? ? [= <- <-] ?; discriminate.
  - vm_compute. reflexivity.
  - exact Hin.
Defined.

Lemma modify_no_fault_witness : exists out t', run5 retry = Ret (out, t').
Proof.
  apply (modify_no_fault dp5 sign0 77 retry 9 1000).
  repeat (apply Forall_cons; split; [vm_compute; try done; intros [=] |]). apply Forall_nil. exact I.
Defined.

Definition ready5 : ModifyTask := final5 start.
Definition mine5 : ApprovalTransactionInfo := default (opinion_of 0 0) (mt_myOpinion ready5).

Lemma published_synchronizes_witness :
  ModifyDriveTask.onApprovalTxPublished dp5 (mkPublished 100 9 77 [2; 3]) ready5 =
    Ret (false, [SingleApprovalTransactionIsReady mine5; StartSynchronizingDriveWithSandbox],
         set_collected (set_txReceived (mt_collected ready5)) ready5).
Proof.
  refine (published_synchronizes dp5 (mkPublished 100 9 77 [2; 3]) ready5 mine5 _ _ _ _).
  - split; vm_compute; try done; [intros ? [= <-]; split; [done | by eexists] | by eexists.. ].
  - intros h Hh. vm_compute in Hh. by injection Hh as <-.
  - vm_compute. reflexivity.
  - left. vm_compute. reflexivity.
Defined.

Definition stream_events : list ModifyEvent :=
  [SandboxCalculated 77; UploadsUpdated (10, 20, 30) controller0; OpinionCreated; OpinionReceived (opinion_of 2 77);
   OpinionReceived (opinion_of 3 77); OpinionReceived (opinion_of 4 77); OpinionReceived (opinion_of 5 77); OpinionTimer].

Definition stream_result : Outcome (list TaskOutput * StreamTask.StreamTask) :=
  stream_run dp5 sign0 stream_events (newStream 9 1000).

(** All four opinions are stored in the task's own map. *)
Lemma stream_never_approves_witness :
  exists out s', stream_result = Ret (out, s') /\ size (co_receivedOpinions (StreamTask.sk_own s')) = 4%nat /\
    ApprovalTransactionIsReady mine5 ∉ out.
Proof.
  destruct stream_result as [[out s']|f] eqn:H; [|vm_compute in H; discriminate H].
  exists out, s'. split; [reflexivity|]. split.
  - vm_compute in H. injection H as _ <-. vm_compute. reflexivity.
  - apply (stream_never_approves dp5 sign0 stream_events 9 1000 out s' mine5); [discriminate | exact H].
Defined.
