(* ===== verification/ActionList.v ===== *)
(** * Action lists and file names ([include/drive/ActionList.h], [src/drive/Utils.cpp])

    What a client asks of a modification: a list of actions, each with one or two
    parameters.  A file on the drive is named after its hash, in hexadecimal; an
    upload names its file that way.

    - The constructors of [Action] strip slashes from the ends of the parameters.
    - [Action::serialize] writes the parameters that the action uses; the archive is
      a parameter, so a record of the file is the list of the values written.
    - A hash is the number with its bytes as big-endian digits. *)

From S2P Require Import Prelude FsPath RcptMessage.

(** ** Hashes and file names *)

Definition ascii_Z (c : Ascii.ascii) : Z := Z.of_nat (Ascii.nat_of_ascii c).
Definition Z_ascii (z : Z) : Ascii.ascii := Ascii.ascii_of_nat (Z.to_nat z).

(** [charToInt]; [None] is the exception. *)
Definition charToInt (input : Ascii.ascii) : option Z :=
  let n := ascii_Z input in
  if (48 <=? n) && (n <=? 57) then Some (n - 48)
  else if (65 <=? n) && (n <=? 70) then Some (n - 65 + 10)
  else if (97 <=? n) && (n <=? 102) then Some (n - 97 + 10)
  else None.

(** The loop of [stringToByteArray]. *)
Fixpoint hexBytes (s : string) : option (list Z) :=
  match s with
  | EmptyString => Some []
  | String a (String b s') =>
      x ← charToInt a; y ← charToInt b; rest ← hexBytes s';
      Some (Z.shiftl x 4 + y :: rest)
  | String _ EmptyString => None
  end.

(** [stringToByteArray<Hash256>]. *)
Definition stringToByteArray (str : string) : option Z :=
  if decide (String.length str <> 64%nat) then None else of_be <$> hexBytes str.

(** One row of [byteMap], and [hashToFileName] ([toString]). *)
Definition hexDigit (d : Z) : Ascii.ascii := Z_ascii (if d <? 10 then 48 + d else 97 + (d - 10)).
Definition byteMap (b : Z) : string := String (hexDigit (b / 16)) (String (hexDigit (b mod 16)) "").

Fixpoint hexString (bytes : list Z) : string :=
  match bytes with [] => "" | b :: bytes' => byteMap b +:+ hexString bytes' end.

Definition hashToFileName (hash : Z) : string := hexString (be_bytes 32 hash).

Lemma charToInt_hexDigit d : 0 <= d < 16 -> charToInt (hexDigit d) = Some d.
Proof.
  intros H. rewrite <- (Z2Nat.id d) by lia. assert (Z.to_nat d < 16)%nat as Hn by lia.
  revert Hn. generalize (Z.to_nat d). clear. intros n Hn.
  do 16 (destruct n as [|n]; [reflexivity|]). lia.
Qed.

Lemma hexBytes_hexString bytes : is_bytes bytes -> hexBytes (hexString bytes) = Some bytes.
Proof.
  induction 1 as [|b bytes Hb _ IH]; [done|].
  change (hexString (b :: bytes)) with
    (String (hexDigit (b / 16)) (String (hexDigit (b mod 16)) (hexString bytes))).
  cbn [hexBytes]. rewrite !charToInt_hexDigit, IH by (Z.to_euclidean_division_equations; lia).
  cbn. rewrite Z.shiftl_mul_pow2 by lia. do 2 f_equal. Z.to_euclidean_division_equations. lia.
Qed.

Lemma length_hexString bytes : String.length (hexString bytes) = (2 * length bytes)%nat.
Proof.
  induction bytes as [|b bytes IH]; [done|].
  change (String.length (hexString (b :: bytes))) with (S (S (String.length (hexString bytes)))).
  rewrite IH. cbn. lia.
Qed.

(** ** Actions *)

Inductive action_list_id := upload | new_folder | move | remove.

#[export] Instance action_list_id_eq_dec : EqDecision action_list_id.
Proof. solve_decision. Defined.

Record Action := mkAction {
  m_actionId : action_list_id;
  m_param1 : string;
  m_param2 : string;
  m_filename : string;
  m_isInvalid : bool }.

#[export] Instance action_eq_dec : EqDecision Action.
Proof. solve_decision. Defined.

(** The loops that drop slashes at the front and at the back. *)
Fixpoint strip_front (s : string) : string :=
  match s with
  | String c s' => if decide (c = slash) then strip_front s' else s
  | EmptyString => EmptyString
  end.

Fixpoint strip_back (s : string) : string :=
  match s with
  | EmptyString => EmptyString
  | String c s' =>
      match strip_back s' with
      | EmptyString => if decide (c = slash) then EmptyString else String c EmptyString
      | t => String c t
      end
  end.

(** The private constructor of [Action]. *)
Definition newAction (code : action_list_id) (p1 p2 : string) : Action :=
  let p1 := strip_back p1 in
  let p2 := strip_back p2 in
  mkAction code (if decide (code = upload) then p1 else strip_front p1) (strip_front p2) "" false.

Definition Action_upload (pathToLocalFile remoteFileNameWithPath : string) : Action :=
  newAction upload pathToLocalFile remoteFileNameWithPath.
Definition Action_newFolder (remoteFolderNameWithPath : string) : Action :=
  newAction new_folder remoteFolderNameWithPath "".
Definition Action_move (oldNameWithPath newNameWithPath : string) : Action :=
  newAction move oldNameWithPath newNameWithPath.
Definition Action_remove (remoteObjectNameWithPath : string) : Action :=
  newAction remove remoteObjectNameWithPath "".

(** ** Serialization *)

Inductive Field := FCode (c : action_list_id) | FString (s : string).

(** [Action::serialize] into an output archive. *)
Definition action_save (a : Action) : list Field :=
  [FCode (m_actionId a); FString (m_param1 a)] ++
  (if decide (m_actionId a = upload \/ m_actionId a = move) then [FString (m_param2 a); FString (m_filename a)] else []).

(** The same function on an input archive, into a default [Action]. *)
Definition action_load (fields : list Field) : option (Action * list Field) :=
  match fields with
  | FCode code :: FString p1 :: rest =>
      if decide (code = upload \/ code = move) then
        match rest with
        | FString p2 :: FString f :: rest' => Some (mkAction code p1 p2 f false, rest')
        | _ => None
        end
      else Some (mkAction code p1 "" "" false, rest)
  | _ => None
  end.

(** A vector: its size, then its elements. *)
Fixpoint actions_load (n : nat) (fields : list Field) : option (list Action * list Field) :=
  match n with
  | O => Some ([], fields)
  | S n' => '(a, rest) ← action_load fields; '(l, rest') ← actions_load n' rest; Some (a :: l, rest')
  end.

Definition actionList_serialize (l : list Action) : nat * list Field := (length l, concat (map action_save l)).
Definition actionList_deserialize (file : nat * list Field) : option (list Action) :=
  fst <$> actions_load file.1 file.2.

(** What the file of an action list keeps of it. *)
Definition kept (a : Action) : Action :=
  if decide (m_actionId a = upload \/ m_actionId a = move)
  then mkAction (m_actionId a) (m_param1 a) (m_param2 a) (m_filename a) false
  else mkAction (m_actionId a) (m_param1 a) "" "" false.

Lemma action_load_save a rest : action_load (action_save a ++ rest) = Some (kept a, rest).
Proof.
  unfold action_save, action_load, kept. cbn. by case_decide.
Qed.

Lemma actions_load_save l rest :
  actions_load (length l) (concat (map action_save l) ++ rest) = Some (map kept l, rest).
Proof.
  induction l as [|a l IH]; [done|]. cbn [length actions_load map concat].
  rewrite <- app_assoc, action_load_save. cbn. by rewrite IH.
Qed.

(** The parameters that an action does not use are empty. *)
Definition action_tidy (a : Action) : Prop :=
  m_isInvalid a = false /\
  (m_actionId a = new_folder \/ m_actionId a = remove -> m_param2 a = "" /\ m_filename a = "").

Lemma kept_tidy a : action_tidy a -> kept a = a.
Proof.
  intros [Hi Hp]. unfold kept. destruct a as [code p1 p2 f inv]; cbn in *; subst inv.
  case_decide as H; [done|]. destruct Hp as [-> ->]; [|done]. destruct code; naive_solver.
Qed.

(** An action list is read back as it was written: every list of the actions
    that a client can build, with the names of its files filled in. *)
Lemma actionList_roundtrip l :
  Forall action_tidy l -> actionList_deserialize (actionList_serialize l) = Some l.
Proof.
  intros H. unfold actionList_deserialize, actionList_serialize. cbn [fst snd].
  rewrite <- (app_nil_r (concat _)), actions_load_save. cbn. f_equal.
  induction H as [|a l Ha _ IH]; [done|]. cbn. by rewrite kept_tidy, IH.
Qed.

Lemma tidy_newFolder p : action_tidy (Action_newFolder p).
Proof. by split. Qed.
Lemma tidy_remove p : action_tidy (Action_remove p).
Proof. by split. Qed.
Lemma tidy_move p q : action_tidy (Action_move p q).
Proof. split; [done|]. by intros [|]. Qed.
Lemma tidy_upload p q f : action_tidy (mkAction upload p q f false).
Proof. split; [done|]. by intros [|]. Qed.

Lemma actionList_roundtrip_witness :
  actionList_deserialize (actionList_serialize [Action_move "/a/" "b//"; mkAction upload "h" "docs" "x.txt" false]) =
  Some [Action_move "a" "b"; mkAction upload "h" "docs" "x.txt" false].
Proof.
  exact (actionList_roundtrip [Action_move "/a/" "b//"; mkAction upload "h" "docs" "x.txt" false]
           (Forall_cons_2 _ _ _ (tidy_move _ _) (Forall_cons_2 _ _ _ (tidy_upload _ _ _) (Forall_nil_2 _)))).
Defined.

(** The name of a file determines its hash. *)
Lemma hash_of_fileName hash :
  0 <= hash < 256 ^ 32 -> stringToByteArray (hashToFileName hash) = Some hash.
Proof.
  intros H. unfold stringToByteArray, hashToFileName.
  rewrite length_hexString, length_be_bytes. cbn [decide]. rewrite decide_False by lia.
  rewrite hexBytes_hexString by apply be_bytes_is_bytes.
  change (Some (of_be (be_bytes 32 hash)) = Some hash). by rewrite of_be_bytes.
Qed.
