(* ===== verification/ModifyDrive.v ===== *)
(** * A client's modification ([src/drive/ModifyDriveTask.cpp])

    What a modification does with the data of the client: it downloads the action
    list and the files it names, as far as the paid size allows, and performs the
    actions on a copy of the file structure.  What follows -- the opinions and the
    approval -- is in [ModifyApproval].

    - A download is a request to the session; [metadataAccepted] is what the session
      checks when it knows the size of the torrent ([src/drive/Session.cpp]).
    - [m_missedFileSet] is an ordered set: a sorted list.
    - The disk is what the steps read of it: the sizes of the files of the drive and
      of their torrents, and what stands under the name that an upload gives.

    [m_torrentHandleMap] keeps for each hash whether its handle is valid and whether
    it is used. *)

From S2P Require Import Prelude OrderedMap FsPath FsStatistics FsTree ModifyApproval ActionList.

Record UseTorrentInfo := mkTorrentInfo { m_ltHandle_valid : bool; m_isUsed : bool }.

Abbreviation TorrentMap := (gmap Z UseTorrentInfo).

(** ** The session's limits *)

(** A [uint64_t] read as an [int64_t]. *)
Definition int64 (z : Z) : Z := let n := u64 z in if n <? two64 / 2 then n else n - two64.

(** [DefaultSession::m_maxTotalSize]. *)
Definition m_maxTotalSize : Z := 256 * 1024 * 1024 * 1024.

(** What a torrent turns out to be. *)
Record TorrentMetadata := mkMetadata { total_size : Z; piece_length : Z }.

(** The checks at [metadata_received_alert]; [automatic_piece_size] is the
    library's. *)
Definition metadataAccepted (automatic_piece_size : Z -> Z) (m_downloadLimit : Z) (t : TorrentMetadata) : bool :=
  negb (m_maxTotalSize <? total_size t) &&
  (automatic_piece_size (total_size t) =? piece_length t) &&
  negb (negb (int64 m_downloadLimit =? 0) && (int64 m_downloadLimit <? total_size t)).

(** ** Downloading *)

Record ModifyData := mkModifyData {
  md_uploadedDataSize : Z;
  md_missedFileSet : list Z;
  md_torrentHandleMap : TorrentMap }.

Inductive ModifyOutput :=
  | StartDownload (hash limit : Z)         (* session->download( ..., limit ) *)
  | StartModifyFsTree                      (* modifyFsTreeInSandbox *)
  | CompletedWithError (status : ModificationStatus).

(** [std::set::insert]. *)
Fixpoint set_insert (h : Z) (l : list Z) : list Z :=
  match l with
  | [] => [h]
  | x :: l' => if h <? x then h :: l else if h =? x then l else x :: set_insert h l'
  end.

Section Download.
  Context (m_clientDataInfoHash m_maxDataSize : Z).

Definition downloadLimit (s : ModifyData) : Z := u64_sub m_maxDataSize (md_uploadedDataSize s).

(** [run]: the action list comes first. *)
Definition run (torrents : TorrentMap) : Outcome (list ModifyOutput * ModifyData) :=
  let s := mkModifyData 0 [] torrents in
  guard_assert (bool_decide (torrents !! m_clientDataInfoHash = None))
    (Ret ([StartDownload m_clientDataInfoHash (downloadLimit s)], s)).

(** The loop of [downloadMissingFiles]: what is in the session already is skipped;
    the entry is read even when the hash is zero and there is none. *)
Fixpoint nextMissing (missed : list Z) (torrents : TorrentMap) : Outcome (option Z * list Z) :=
  match missed with
  | [] => Ret (None, [])
  | h :: missed' =>
      match torrents !! h with
      | Some info => guard_assert (m_ltHandle_valid info) (nextMissing missed' torrents)
      | None => if h =? 0 then Stop UndefinedBehaviour else Ret (Some h, missed')
      end
  end.

(** [downloadMissingFiles]. *)
Definition downloadMissingFiles (s : ModifyData) : Outcome (list ModifyOutput * ModifyData) :=
  '(file, missed) ← nextMissing (md_missedFileSet s) (md_torrentHandleMap s);
  match file with
  | Some h =>
      Ret ([StartDownload h (downloadLimit s)],
           mkModifyData (md_uploadedDataSize s) missed
             (<[h := mkTorrentInfo true false]> (md_torrentHandleMap s)))
  | None => Ret ([StartModifyFsTree], mkModifyData (md_uploadedDataSize s) missed (md_torrentHandleMap s))
  end.

(** The loop of [prepareDownloadMissingFiles]; the exception of an upload whose
    parameter is no hash is not caught. *)
Fixpoint missedFiles (actionList : list Action) (missed : list Z) : Outcome (list Z) :=
  match actionList with
  | [] => Ret missed
  | action :: rest =>
      if m_isInvalid action then missedFiles rest missed
      else
        match m_actionId action with
        | upload =>
            match stringToByteArray (m_param1 action) with
            | None => Stop ThrownException
            | Some h => missedFiles rest (set_insert h missed)
            end
        | _ => missedFiles rest missed
        end
  end.

(** [prepareDownloadMissingFiles]: [None] when the file of the action list is
    missing, an error; [parsed] is whether the archive could be read, and after an error the
    actions read so far are used all the same. *)
Definition prepareDownloadMissingFiles (file : option (bool * list Action)) (s : ModifyData)
    : Outcome (list ModifyOutput * ModifyData) :=
  match file with
  | None => log_err (Ret ([], s))
  | Some (parsed, actionList) =>
      missed ← missedFiles actionList (md_missedFileSet s);
      '(out, s') ← downloadMissingFiles (mkModifyData (md_uploadedDataSize s) missed (md_torrentHandleMap s));
      Ret ((if parsed : bool then [] else [CompletedWithError INVALID_ACTION_LIST]) ++ out, s')
  end.

(** The notifications of the downloads. *)
Definition actionListDownloaded (downloadedSize : Z) (s : ModifyData) : ModifyData :=
  mkModifyData (u64_add (md_uploadedDataSize s) downloadedSize) (md_missedFileSet s) (md_torrentHandleMap s).

Definition fileDownloaded (downloadedSize : Z) (s : ModifyData) : Outcome (list ModifyOutput * ModifyData) :=
  downloadMissingFiles
    (mkModifyData (u64_add (md_uploadedDataSize s) downloadedSize) (md_missedFileSet s) (md_torrentHandleMap s)).

Definition downloadFailed (infoHash : Z) (s : ModifyData) : list ModifyOutput * ModifyData :=
  ([CompletedWithError DOWNLOAD_FAILED],
   mkModifyData (md_uploadedDataSize s) (md_missedFileSet s) (delete infoHash (md_torrentHandleMap s))).

(** The downloads of a modification with a session that finds every torrent
    ([metadata]): the requests and notifications, the last first, and the data that
    is left.  The session answers a request before the next one is made. *)
Section Session.
  Context (automatic_piece_size : Z -> Z) (metadata : Z -> TorrentMetadata).

Fixpoint downloadAll (fuel : nat) (trace : list ModifyOutput) (s : ModifyData)
    : Outcome (list ModifyOutput * ModifyData) :=
  match trace with
  | StartDownload h limit :: _ =>
      match fuel with
      | O => Stop NonTermination
      | S fuel' =>
          if metadataAccepted automatic_piece_size limit (metadata h) then
            '(out, s') ← fileDownloaded (total_size (metadata h)) s;
            downloadAll fuel' (rev out ++ trace) s'
          else let '(out, s') := downloadFailed h s in Ret (rev out ++ trace, s')
      end
  | _ => Ret (trace, s)
  end.

(** From the request to the last download; there is at most one for each file. *)
Definition downloadModification (file : option (bool * list Action)) (torrents : TorrentMap)
    : Outcome (list ModifyOutput * ModifyData) :=
  '(out, s) ← run torrents;
  let t := metadata m_clientDataInfoHash in
  if metadataAccepted automatic_piece_size (downloadLimit s) t then
    '(out', s') ← prepareDownloadMissingFiles file (actionListDownloaded (total_size t) s);
    match out' with
    | [] => Ret (out, s')
    | _ => downloadAll (length (md_missedFileSet s') + 1) (rev out' ++ out) s'
    end
  else let '(out', s') := downloadFailed m_clientDataInfoHash s in Ret (out' ++ out, s').

End Session.
End Download.

(** ** The actions *)

(** What stands under a name in the drive folder. *)
Inductive DiskStat := Missing | Directory | Regular (size : Z).

Section Actions.
  (** The current directory, and the disk by name. *)
  Context (cwd : string) (stat : string -> DiskStat).

(** [fs::path( "root" ) / p], then [fs::absolute]. *)
Definition is_absolute (s : string) : bool :=
  match s with String c _ => bool_decide (c = slash) | EmptyString => false end.
Definition absolute (s : string) : string := if is_absolute s then s else cwd +:+ "/" +:+ s.
Definition under_root (s : string) : string := if is_absolute s then s else "root/" +:+ s.

(** The loop of [isPathInsideFolder]. *)
Fixpoint diverge (pIt fIt : path) {struct fIt} : bool :=
  match fIt with
  | [] => false
  | f :: fIt' =>
      match pIt with
      | [] => true
      | p :: pIt' => if decide (p = f) then diverge pIt' fIt' else false
      end
  end.

Definition isPathInsideFolder (p folder : string) : bool :=
  diverge (path_of_string (absolute p)) (path_of_string (absolute folder)).

(** The file structure, its nodes and the torrents, as the actions see them. *)
Record SandboxTree := mkSandboxTree { sb_tree : Folder; sb_nodes : StatStore; sb_torrents : TorrentMap }.

(** What an action does, and whether it is marked invalid. *)
Abbreviation ActionResult := (Outcome (bool * SandboxTree)).

Definition performUpload (a : Action) (s : SandboxTree) : ActionResult :=
  match stat (m_param1 a) with
  | Missing | Directory => Ret (true, s)
  | Regular fileSize =>
      match stringToByteArray (m_param1 a) with
      | None => log_err (Ret (false, s))           (* the exception is caught *)
      | Some fileHash =>
          '(destEntry, t, st) ← getEntryPtr (m_param2 a) (sb_tree s) (sb_nodes s);
          let p := path_of_string (m_param2 a) in
          let '(destFolder, srcFile) :=
            match destEntry with
            | Some (inl _) => (m_param2 a, path_string (path_of_string (m_filename a)))
            | _ => (path_string (parent_path p), filename p)
            end in
          '(_, t', st') ← addFile destFolder srcFile fileHash fileSize t st;
          Ret (false, mkSandboxTree t' st' (sb_torrents s))
      end
  end.

Definition performNewFolder (a : Action) (s : SandboxTree) : ActionResult :=
  '(entry, t, st) ← getEntryPtr (m_param1 a) (sb_tree s) (sb_nodes s);
  match entry : option Child with
  | Some _ => Ret (true, s)
  | None => '(_, t', st') ← addFolder (m_param1 a) t st; Ret (false, mkSandboxTree t' st' (sb_torrents s))
  end.

Definition performMove (a : Action) (s : SandboxTree) : ActionResult :=
  '(srcChild, t, st) ← getEntryPtr (m_param1 a) (sb_tree s) (sb_nodes s);
  match srcChild : option Child with
  | None => Ret (true, s)
  | Some c =>
      if isFolder c && isPathInsideFolder (under_root (m_param1 a)) (under_root (m_param2 a)) then Ret (true, s)
      else
        r ← moveFlat (m_param1 a) (m_param2 a) t st;
        Ret (false, mkSandboxTree (fr_tree r) (fr_store r) (sb_torrents s))
  end.

(** [torrentHandleMap.try_emplace( fileHash, UseTorrentInfo{} )] for the reported hashes. *)
Definition keepTorrent (m : TorrentMap) (h : Z) : TorrentMap :=
  if h =? 0 then m
  else match m !! h with Some _ => m | None => <[h := mkTorrentInfo false true]> m end.

Definition performRemove (a : Action) (s : SandboxTree) : ActionResult :=
  '(entry, t, st) ← getEntryPtr (m_param1 a) (sb_tree s) (sb_nodes s);
  match entry : option Child with
  | None => Ret (true, s)
  | Some _ =>
      r ← removeFlat (m_param1 a) t st;
      Ret (false, mkSandboxTree (fr_tree r) (fr_store r) (foldl keepTorrent (sb_torrents s) (fr_hashes r)))
  end.

Definition performAction (a : Action) (s : SandboxTree) : ActionResult :=
  match m_actionId a with
  | upload => performUpload a s
  | new_folder => performNewFolder a s
  | move => performMove a s
  | remove => performRemove a s
  end.

(** The loop of [modifyFsTreeInSandbox]: the marks of the list, and the tree. *)
Fixpoint performActions (actionList : list Action) (s : SandboxTree) : Outcome (list bool * SandboxTree) :=
  match actionList with
  | [] => Ret ([], s)
  | a :: rest =>
      '(mark, s1) ← (if m_isInvalid a then Ret (true, s) else performAction a s);
      '(marks, s2) ← performActions rest s1;
      Ret (mark :: marks, s2)
  end.

End Actions.

(** ** The size of the result *)

(** The sum of the sizes of the files of a set; a missing file throws. *)
Fixpoint sum_files (size : Z -> option Z) (files : list Z) (acc : Z) : Outcome Z :=
  match files with
  | [] => Ret acc
  | h :: files' => n ← size_of size h; sum_files size files' (u64_add acc n)
  end.

(** [getSandboxDriveSizes]: meta files, then the whole, which includes them. *)
Definition getSandboxDriveSizes (driveFileSize torrentFileSize : Z -> option Z) (fsTreeTorrentSize fsTreeFileSize : Z)
    (t : Folder) : Outcome (Z * Z) :=
  let files := elements (getUniqueFiles t ∅) in
  metaFilesSize ← sum_files torrentFileSize files fsTreeTorrentSize;
  driveSize ← sum_files driveFileSize files fsTreeFileSize;
  Ret (metaFilesSize, u64_add driveSize metaFilesSize).

Record SandboxResult := mkSandboxResult {
  sr_sandbox : SandboxTree;
  sr_metaFilesSize : Z;
  sr_sandboxDriveSize : Z;
  sr_fsTreeSize : Z;
  sr_error : option ModificationStatus }.

(** [modifyFsTreeInSandbox], where [nodes] are those of [m_fsTree]; [fsTreeSizes] are the sizes of the torrent and of the
    file of the new file structure. *)
Definition modifyFsTreeInSandbox (cwd : string) (stat : string -> DiskStat)
    (driveFileSize torrentFileSize : Z -> option Z) (fsTreeSizes : Folder -> Z * Z) (m_maxSize : Z)
    (actionList : list Action) (m_fsTree : Folder) (nodes : StatStore) (torrents : TorrentMap)
    : Outcome SandboxResult :=
  let '(sandbox, st) := copyTree m_fsTree nodes in
  '(_, s) ← performActions cwd stat actionList (mkSandboxTree sandbox st torrents);
  let '(torrentSize, fileSize) := fsTreeSizes (sb_tree s) in
  '(meta, drive) ← getSandboxDriveSizes driveFileSize torrentFileSize torrentSize fileSize (sb_tree s);
  Ret (mkSandboxResult s meta drive fileSize
         (if m_maxSize <? u64_add (u64_add meta drive) fileSize then Some NOT_ENOUGH_SPACE else None)).
