(* ===== verification/ModifyDriveSpec.v ===== *)
(** * Properties of a client's modification

    The downloads: they end, they stay within the paid size, and when they succeed
    every file of the action list is there.  The actions: what each does to the file
    structure, and that no list of them stops the replicator, but for a move over an
    ancestor. *)

From S2P Require Import Prelude OrderedMap FsPath FsStatistics FsTree FsTreeFacts FsTreeSpec FsTreeLinks ModifyApproval ActionList ModifyDrive.

(** ** The missing files *)

(** The next file to download, and what was skipped before it. *)
Lemma nextMissing_spec missed torrents file rest :
  nextMissing missed torrents = Ret (file, rest) ->
  exists skipped, Forall (fun h => is_Some (torrents !! h)) skipped /\
  match file with
  | Some h => missed = skipped ++ h :: rest /\ torrents !! h = None /\ h <> 0
  | None => missed = skipped /\ rest = []
  end.
Proof.
  revert file rest. induction missed as [|h missed IH]; intros file rest; cbn [nextMissing].
  { intros [= <- <-]. by exists []. }
  destruct (torrents !! h) as [info|] eqn:Hh.
  - intros [_ H]%guard_assert_inv. destruct (IH _ _ H) as (sk & Hsk & Hf).
    exists (h :: sk). split; [by constructor; eauto|]. destruct file; naive_solver.
  - destruct (h =? 0) eqn:Hz; [done|]. intros [= <- <-]. exists []. split; [constructor|].
    split_and!; [done|done|lia].
Qed.

(** What is in the session has a handle, and the files have names. *)
Definition valid_handles (torrents : TorrentMap) : Prop :=
  forall h info, torrents !! h = Some info -> m_ltHandle_valid info = true.

Lemma nextMissing_total missed torrents :
  valid_handles torrents -> Forall (fun h => h <> 0) missed ->
  exists file rest, nextMissing missed torrents = Ret (file, rest).
Proof.
  intros Hv. induction 1 as [|h missed Hh _ IH]; [by do 2 eexists|]. cbn.
  destruct (torrents !! h) as [info|] eqn:E.
  - by rewrite (Hv _ _ E).
  - rewrite (proj2 (Z.eqb_neq h 0) Hh). by do 2 eexists.
Qed.

Lemma elem_of_set_insert h l x : x ∈ set_insert h l <-> x = h \/ x ∈ l.
Proof.
  induction l as [|y l IH]; cbn; [by rewrite list_elem_of_singleton, elem_of_nil; naive_solver|].
  destruct (h <? y); [by rewrite !elem_of_cons|]. destruct (h =? y) eqn:E.
  - apply Z.eqb_eq in E as ->. rewrite !elem_of_cons. naive_solver.
  - rewrite !elem_of_cons, IH. naive_solver.
Qed.

(** The hash that an upload names. *)
Definition uploads (l : list Action) (h : Z) : Prop :=
  exists a, a ∈ l /\ m_isInvalid a = false /\ m_actionId a = upload /\ stringToByteArray (m_param1 a) = Some h.

Lemma missedFiles_spec l missed missed' x :
  missedFiles l missed = Ret missed' -> x ∈ missed' <-> x ∈ missed \/ uploads l x.
Proof.
  revert missed. induction l as [|a l IH]; intros missed; cbn [missedFiles].
  { intros [= ->]. split; [by left|]. intros [|(a & Ha & _)]; [done|]. by apply elem_of_nil in Ha. }
  assert (m_isInvalid a = true \/ m_actionId a <> upload -> uploads (a :: l) x <-> uploads l x) as Hskip.
  { intros Hs. split.
    - intros (b & [->|Hb]%elem_of_cons & H1 & H2 & H3); [destruct Hs; congruence|]. by exists b.
    - intros (b & Hb & H). exists b. split; [by right|done]. }
  destruct (m_isInvalid a) eqn:Hi; [intros H; rewrite (IH _ H), Hskip by auto; done|].
  destruct (m_actionId a) eqn:Ha; try (intros H; rewrite (IH _ H), Hskip by (right; congruence); done).
  destruct (stringToByteArray (m_param1 a)) as [h|] eqn:Hh; [|done].
  intros H. rewrite (IH _ H), elem_of_set_insert. split.
  - intros [[->|Hx]|(b & Hb & Hr)]; [|by left|].
    + right. exists a. split; [by left|done].
    + right. exists b. split; [by right|done].
  - intros [Hx|(b & [->|Hb]%elem_of_cons & H1 & H2 & H3)]; [auto| |].
    + left. left. congruence.
    + right. by exists b.
Qed.

(** ** The downloads *)

Section Downloads.
  Context (m_clientDataInfoHash m_maxDataSize : Z) (automatic_piece_size : Z -> Z) (metadata : Z -> TorrentMetadata).

(** The files asked for, the last first. *)
Definition requests (trace : list ModifyOutput) : list Z :=
  omap (fun o => match o with StartDownload h _ => Some h | _ => None end) trace.

(** The data is within what was paid, but for the last torrent that a limit of zero
    let through. *)
Definition within (trace : list ModifyOutput) (s : ModifyData) : Prop :=
  0 <= md_uploadedDataSize s <= m_maxDataSize + m_maxTotalSize /\
  ((forall h, StartDownload h 0 ∉ trace) -> md_uploadedDataSize s <= m_maxDataSize).

(** The request at the head waits for its answer. *)
Definition pending (trace : list ModifyOutput) (s : ModifyData) : Prop :=
  match trace with StartDownload _ limit :: _ => limit = downloadLimit m_maxDataSize s | _ => True end.

(** No file is asked for twice. *)
Definition once (trace : list ModifyOutput) (s : ModifyData) : Prop :=
  exists files, requests trace = files ++ [m_clientDataInfoHash] /\ NoDup files /\
    Forall (fun h => is_Some (md_torrentHandleMap s !! h)) files.

Lemma downloadMissingFiles_spec s out s' :
  downloadMissingFiles m_maxDataSize s = Ret (out, s') ->
  md_uploadedDataSize s' = md_uploadedDataSize s /\
  (length (md_missedFileSet s') <= length (md_missedFileSet s))%nat /\
  ((out = [StartModifyFsTree] /\ md_torrentHandleMap s' = md_torrentHandleMap s /\ md_missedFileSet s' = [] /\
    Forall (fun h => is_Some (md_torrentHandleMap s !! h)) (md_missedFileSet s)) \/
   exists h skipped, out = [StartDownload h (downloadLimit m_maxDataSize s)] /\
     md_torrentHandleMap s !! h = None /\
     md_torrentHandleMap s' = <[h := mkTorrentInfo true false]> (md_torrentHandleMap s) /\
     md_missedFileSet s = skipped ++ h :: md_missedFileSet s' /\
     Forall (fun h => is_Some (md_torrentHandleMap s !! h)) skipped).
Proof.
  unfold downloadMissingFiles. intros H. apply bind_ret_inv in H as ([file missed] & Hn & H).
  apply nextMissing_spec in Hn as (sk & Hsk & Hf). destruct file as [h|]; injection H as <- <-; cbn.
  - destruct Hf as (-> & Hh & _). split; [done|]. split; [rewrite length_app; cbn; lia|]. right.
    by exists h, sk.
  - destruct Hf as [-> ->]. split; [done|]. split; [cbn; lia|]. by left.
Qed.

Lemma pending_missing s out s' trace :
  downloadMissingFiles m_maxDataSize s = Ret (out, s') -> pending (rev out ++ trace) s'.
Proof.
  intros H. apply downloadMissingFiles_spec in H as (Hu & _ & [(-> & _)|(h & sk & -> & _)]); [done|].
  cbn. unfold downloadLimit. by rewrite Hu.
Qed.

Lemma once_missing s out s' trace :
  downloadMissingFiles m_maxDataSize s = Ret (out, s') -> once trace s -> once (rev out ++ trace) s'.
Proof.
  intros H (files & Hr & Hnd & Hf).
  apply downloadMissingFiles_spec in H as (_ & _ & [(-> & E & _)|(h & sk & -> & Hh & E & _)]); cbn [rev app].
  - exists files. by rewrite E.
  - exists (h :: files). split; [by change (h :: requests trace = h :: files ++ [m_clientDataInfoHash]); rewrite Hr|].
    rewrite E. split.
    + constructor; [|done]. intros Hin. rewrite Forall_forall in Hf. destruct (Hf _ Hin). congruence.
    + constructor; [by rewrite lookup_insert_eq; eauto|]. eapply Forall_impl; [exact Hf|].
      intros x [i Hx]. cbn. rewrite lookup_insert. case_decide; eauto.
Qed.

Lemma within_out trace out s : within trace s -> within (out ++ trace) s.
Proof. intros [H1 H2]. split; [done|]. intros Hno. apply H2. intros h Hh. apply (Hno h). apply elem_of_app. by right. Qed.

Lemma within_same trace s s' :
  md_uploadedDataSize s' = md_uploadedDataSize s -> within trace s -> within trace s'.
Proof. unfold within. by intros ->. Qed.

Section Bounds.
  Context (Hmax : 0 <= m_maxDataSize < two64 / 2) (Hsize : forall h, 0 <= total_size (metadata h)).

(** What the session accepts for the limit of the moment. *)
Lemma accepted_within trace h s :
  metadataAccepted automatic_piece_size (downloadLimit m_maxDataSize s) (metadata h) = true ->
  within trace s ->
  (downloadLimit m_maxDataSize s = 0 -> exists h', StartDownload h' 0 ∈ trace) ->
  within trace (actionListDownloaded (total_size (metadata h)) s).
Proof.
  pose proof Hmax as Hm. change (two64 / 2) with 9223372036854775808 in Hm. specialize (Hsize h).
  unfold metadataAccepted, within, downloadLimit, actionListDownloaded, m_maxTotalSize.
  set (up := md_uploadedDataSize s). set (size := total_size (metadata h)) in *. cbn.
  intros [[H1%negb_true_iff H2]%andb_true_iff H3%negb_true_iff]%andb_true_iff [[Hlo Hhi] Hz] Hzero.
  apply Z.ltb_ge in H1. unfold m_maxTotalSize in H1.
  assert (u64_add up size = up + size) as -> by lia64.
  apply andb_false_iff in H3. rewrite negb_false_iff, Z.eqb_eq, Z.ltb_ge in H3.
  assert (u64_sub m_maxDataSize up = m_maxDataSize - up /\ int64 (u64_sub m_maxDataSize up) = m_maxDataSize - up \/
          m_maxDataSize < up /\ int64 (u64_sub m_maxDataSize up) = m_maxDataSize - up) as Hint.
  { unfold int64. change (two64 / 2) with 9223372036854775808. unfold u64_sub. rewrite u64_idemp.
    destruct (Z.ltb_spec (u64 (m_maxDataSize - up)) 9223372036854775808);
      unfold u64, two64 in *; Z.to_euclidean_division_equations; lia. }
  destruct Hint as [[E Ei]|[Hlt Ei]]; rewrite Ei in H3; [|lia].
  destruct H3 as [H3|H3]; [|split; [lia|lia]].
  split; [lia|]. intros Hno. destruct Hzero as [h' Hh']; [lia|]. by destruct (Hno h').
Qed.

Lemma downloadAll_within fuel : forall trace s,
  within trace s -> pending trace s -> once trace s ->
  ensures (fun '(trace', s') => within trace' s' /\ exists files, requests trace' = files ++ [m_clientDataInfoHash] /\ NoDup files)
    (downloadAll m_maxDataSize automatic_piece_size metadata fuel trace s).
Proof.
  assert (forall trace s, once trace s -> exists files, requests trace = files ++ [m_clientDataInfoHash] /\ NoDup files) as Ho.
  { intros trace s (files & ? & ? & _). eauto. }
  induction fuel as [|fuel IH]; intros trace s Hw Hp Hone; destruct trace as [|[h limit| |e] trace];
    cbn [downloadAll]; try done; try by (split; eauto).
  cbn in Hp. subst limit. destruct (metadataAccepted _ _ _) eqn:Ha.
  - unfold fileDownloaded. fold (actionListDownloaded (total_size (metadata h)) s).
    destruct (downloadMissingFiles _ _) as [[out s']|f] eqn:Hd; [|done]. cbn [mbind outcome_bind].
    apply IH.
    + apply within_out. eapply within_same; [by apply downloadMissingFiles_spec in Hd as [? _]|].
      apply accepted_within; [done|done|]. intros E. rewrite E. exists h. by left.
    + by eapply pending_missing.
    + eapply once_missing; [exact Hd|]. exact Hone.
  - cbn. split; [apply (within_out _ [_]); exact Hw|]. exact (Ho _ _ Hone).
Qed.

End Bounds.

(** How the downloads end: refused, or with every wanted file in the session. *)
Definition finished (want : Z -> Prop) (trace : list ModifyOutput) (s : ModifyData) : Prop :=
  match trace with
  | StartModifyFsTree :: _ => forall x, want x -> is_Some (md_torrentHandleMap s !! x)
  | CompletedWithError e :: _ => e = DOWNLOAD_FAILED
  | _ => False
  end.

Definition wanted (s : ModifyData) (x : Z) : Prop := x ∈ md_missedFileSet s \/ is_Some (md_torrentHandleMap s !! x).

Definition downloadable (s : ModifyData) : Prop :=
  valid_handles (md_torrentHandleMap s) /\ Forall (fun h => h <> 0) (md_missedFileSet s).

Lemma downloadMissingFiles_total s :
  downloadable s ->
  exists out s', downloadMissingFiles m_maxDataSize s = Ret (out, s') /\ downloadable s' /\
    (forall x, wanted s x -> wanted s' x) /\
    ((out = [StartModifyFsTree] /\ forall x, wanted s x -> is_Some (md_torrentHandleMap s' !! x)) \/
     exists h, out = [StartDownload h (downloadLimit m_maxDataSize s)] /\
       (length (md_missedFileSet s') < length (md_missedFileSet s))%nat).
Proof.
  intros [Hv Hnz]. destruct (nextMissing_total _ _ Hv Hnz) as (file & rest & Hn).
  assert (exists out s', downloadMissingFiles m_maxDataSize s = Ret (out, s')) as (out & s' & H).
  { unfold downloadMissingFiles. rewrite Hn. cbn. destruct file; eauto. }
  exists out, s'. split; [done|].
  apply downloadMissingFiles_spec in H as (_ & _ & [(-> & E & Em & Hall)|(h & sk & -> & Hh & E & Em & Hsk)]).
  - assert (forall x, wanted s x -> is_Some (md_torrentHandleMap s' !! x)) as Hw.
    { rewrite E. rewrite Forall_forall in Hall. intros x [Hx|Hx]; [by apply Hall|done]. }
    split; [split; [by rewrite E|by rewrite Em]|]. split; [intros x Hx; right; by apply Hw|by left].
  - rewrite Em in Hnz. apply Forall_app in Hnz as [_ [_ Hnz]%Forall_cons]. split; [split; [|done]|split].
    + rewrite E. intros x i. rewrite lookup_insert. case_decide; [by intros [= <-]|apply Hv].
    + rewrite Forall_forall in Hsk.
      assert (forall x, x = h \/ is_Some (md_torrentHandleMap s !! x) -> wanted s' x) as Hm.
      { intros x Hx. right. rewrite E, lookup_insert. case_decide; [eauto|]. destruct Hx; [congruence|done]. }
      intros x [Hx|Hx]; [|auto]. rewrite Em, elem_of_app, elem_of_cons in Hx.
      destruct Hx as [Hx|[Hx|Hx]]; [auto|auto|by left].
    + right. exists h. split; [done|]. rewrite Em, length_app. cbn. lia.
Qed.

Lemma finished_mono (P Q : Z -> Prop) trace s : (forall x, Q x -> P x) -> finished P trace s -> finished Q trace s.
Proof. destruct trace as [|[]]; cbn; auto. Qed.

Lemma downloadAll_returns fuel : forall h limit trace s,
  (length (md_missedFileSet s) < fuel)%nat -> downloadable s ->
  exists trace' s',
    downloadAll m_maxDataSize automatic_piece_size metadata fuel (StartDownload h limit :: trace) s = Ret (trace', s') /\
    finished (wanted s) trace' s'.
Proof.
  induction fuel as [|fuel IH]; intros h limit trace s Hf Hd; [lia|]. cbn [downloadAll].
  destruct (metadataAccepted _ _ _); [|cbn; by do 2 eexists].
  unfold fileDownloaded. set (s1 := mkModifyData _ _ _).
  destruct (downloadMissingFiles_total s1 Hd) as (out & s2 & E & Hd2 & Hw & Hout).
  rewrite E. cbn [mbind outcome_bind]. destruct Hout as [[-> Hall]|(h2 & -> & Hlen)]; cbn [rev app].
  - do 2 eexists. split; [by destruct fuel|]. exact Hall.
  - destruct (IH h2 (downloadLimit m_maxDataSize s1) (StartDownload h limit :: trace) s2) as (t & s3 & E3 & H3);
      [cbn in Hlen; lia|done|]. rewrite E3. do 2 eexists. split; [done|].
    eapply finished_mono; [exact Hw|exact H3].
Qed.

End Downloads.

(** The uploads of the list name files by their hashes. *)
Definition uploadable (a : Action) : Prop :=
  m_actionId a = upload -> exists h, stringToByteArray (m_param1 a) = Some h /\ h <> 0.

Lemma missedFiles_total l missed :
  Forall uploadable l -> Forall (fun h => h <> 0) missed ->
  exists missed', missedFiles l missed = Ret missed' /\ Forall (fun h => h <> 0) missed'.
Proof.
  intros Hl. revert missed. induction Hl as [|a l Ha _ IH]; intros missed Hm; [by eexists|].
  cbn [missedFiles]. destruct (m_isInvalid a); [by apply IH|].
  destruct (m_actionId a) eqn:Ei; try by apply IH.
  destruct (Ha Ei) as (h & -> & Hh). apply IH. rewrite Forall_forall in Hm |- *.
  intros x [->|Hx]%elem_of_set_insert; auto.
Qed.

(** The outputs of [prepareDownloadMissingFiles]: perhaps an error, then those of
    [downloadMissingFiles]. *)
Lemma prepare_inv maxDataSize parsed l s out s' :
  prepareDownloadMissingFiles maxDataSize (Some (parsed, l)) s = Ret (out, s') ->
  exists missed err out1,
    missedFiles l (md_missedFileSet s) = Ret missed /\
    downloadMissingFiles maxDataSize (mkModifyData (md_uploadedDataSize s) missed (md_torrentHandleMap s)) = Ret (out1, s') /\
    out = err ++ out1 /\ (err = [] \/ err = [CompletedWithError INVALID_ACTION_LIST]) /\ out1 <> [].
Proof.
  unfold prepareDownloadMissingFiles. intros H.
  apply bind_ret_inv in H as (missed & Hm & H). apply bind_ret_inv in H as ([out1 s1] & Hd & H).
  injection H as <- <-. do 3 eexists. split; [done|]. split; [done|]. split; [done|].
  split; [destruct parsed; auto|].
  destruct (downloadMissingFiles_spec _ _ _ _ Hd) as (_ & _ & [(-> & _)|(? & ? & -> & _)]); done.
Qed.

(** C21: The data that a modification downloads stays within the size that was paid
    for: it exceeds it only after the session was given a limit of zero, which it
    takes for no limit, and then by one torrent at most.  No file is asked for
    twice. *)
Theorem paid_size_respected client maxDataSize automatic_piece_size metadata file torrents trace s :
  0 <= maxDataSize < two64 / 2 -> (forall h, 0 <= total_size (metadata h)) ->
  downloadModification client maxDataSize automatic_piece_size metadata file torrents = Ret (trace, s) ->
  0 <= md_uploadedDataSize s <= maxDataSize + m_maxTotalSize /\
  ((forall h, StartDownload h 0 ∉ trace) -> md_uploadedDataSize s <= maxDataSize) /\
  exists files, requests trace = files ++ [client] /\ NoDup files.
Proof.
  intros Hmax Hsize H.
  enough (within maxDataSize trace s /\ exists files, requests trace = files ++ [client] /\ NoDup files)
    as [[??] ?] by done.
  revert H. unfold downloadModification, run. intros H.
  apply bind_ret_inv in H as ([out0 s0] & Hrun & H). apply guard_assert_inv in Hrun as [_ Hrun].
  injection Hrun as <- <-. set (s0 := mkModifyData 0 [] torrents) in *.
  set (first := StartDownload client (downloadLimit maxDataSize s0)) in *.
  assert (within maxDataSize [first] s0) as Hw0.
  { change (two64 / 2) with 9223372036854775808 in Hmax. unfold within, m_maxTotalSize. cbn. lia. }
  assert (forall e, requests (e ++ [first]) = requests e ++ [client]) as Hreq.
  { intros e. unfold requests. by rewrite omap_app. }
  destruct (metadataAccepted _ _ _) eqn:Ha; cbn [downloadFailed] in H.
  2: { injection H as <- <-. split; [by apply (within_out _ _ [_])|]. exists []. by split; [|constructor]. }
  apply (accepted_within maxDataSize automatic_piece_size metadata Hmax Hsize [first] client s0) in Hw0; [|exact Ha|].
  2: { intros E. unfold first. rewrite E. exists client. by left. }
  apply bind_ret_inv in H as ([out s1] & Hprep & H). destruct file as [[parsed l]|]; [|done].
  apply prepare_inv in Hprep as (missed & err & out1 & _ & Hd & -> & Herr & Hne).
  destruct (err ++ out1) as [|x xs] eqn:Ex; [by apply app_nil in Ex as [_ ?]|]. rewrite <- Ex in H. clear Ex x xs.
  rewrite rev_app_distr, <- app_assoc in H.
  refine (ensures_ret _ _ (trace, s)
    (downloadAll_within client maxDataSize automatic_piece_size metadata Hmax Hsize _ _ _ _ _ _) H).
  - rewrite app_assoc. apply within_out. eapply within_same; [|exact Hw0].
    by apply downloadMissingFiles_spec in Hd as [-> _].
  - by eapply pending_missing.
  - eapply once_missing; [exact Hd|]. exists []. split; [|by split; constructor]. rewrite Hreq.
    by destruct Herr as [-> | ->].
Qed.

(** The downloads of a modification end.  When its list can be used and the
    session has a handle for every torrent it holds, the last thing that happens is
    that a torrent was refused, or that the actions are performed, with every file
    they name in the session. *)
Lemma downloads_complete client maxDataSize automatic_piece_size metadata parsed l torrents :
  valid_handles torrents -> torrents !! client = None -> Forall uploadable l ->
  exists trace s,
    downloadModification client maxDataSize automatic_piece_size metadata (Some (parsed, l)) torrents = Ret (trace, s) /\
    finished (uploads l) trace s.
Proof.
  intros Hv Hc Hl. unfold downloadModification, run. rewrite Hc, bool_decide_true by done. cbn [guard_assert mbind outcome_bind].
  destruct (metadataAccepted _ _ _); [|cbn; by do 2 eexists].
  set (s0 := actionListDownloaded _ _).
  destruct (missedFiles_total l [] Hl) as (missed & Hm & Hnz); [constructor|].
  set (s1 := mkModifyData (md_uploadedDataSize s0) missed (md_torrentHandleMap s0)).
  destruct (downloadMissingFiles_total maxDataSize s1) as (out & s2 & Hd & Hd2 & Hw & Hout); [by split|].
  set (err := if parsed : bool then [] else [CompletedWithError INVALID_ACTION_LIST]).
  assert (prepareDownloadMissingFiles maxDataSize (Some (parsed, l)) s0 = Ret (err ++ out, s2)) as ->.
  { unfold prepareDownloadMissingFiles. change (md_missedFileSet s0) with (@nil Z). rewrite Hm.
    cbn [mbind outcome_bind]. fold s1. by rewrite Hd. }
  cbn [mbind outcome_bind].
  destruct (err ++ out) as [|x xs] eqn:Ex.
  { apply app_nil in Ex as [_ ->]. by destruct Hout as [[? _]|(? & ? & _)]. }
  rewrite <- Ex. clear Ex x xs. rewrite rev_app_distr, <- app_assoc.
  assert (forall x, uploads l x -> wanted s1 x) as Hup.
  { intros x Hx. left. cbn. apply (missedFiles_spec _ _ _ x Hm). by right. }
  destruct Hout as [[-> Hall]|(h & -> & Hlen)]; cbn [rev app].
  - do 2 eexists. split; [by rewrite Nat.add_comm|]. intros x Hx. by apply Hall, Hup.
  - edestruct (downloadAll_returns maxDataSize automatic_piece_size metadata (length (md_missedFileSet s2) + 1) h)
      as (t & s3 & E & Hf); [|exact Hd2|].
    2: { rewrite E. do 2 eexists. split; [done|]. eapply finished_mono; [|exact Hf]. auto. }
    lia.
Qed.

(** ** The check of nesting *)

Lemma diverge_spec p q : diverge p q = true <-> p `prefix_of` q /\ p <> q.
Proof.
  revert p. induction q as [|y q IH]; intros p; cbn.
  - split; [done|]. by intros [->%prefix_nil_inv ?].
  - destruct p as [|x p]; [split; [intros _; split; [apply prefix_nil|done]|done]|].
    case_decide as Hxy; [subst|split; [done|]; intros [H%prefix_cons_inv_1 _]; done].
    rewrite IH. split.
    + intros [H1 H2]. split; [by apply prefix_cons|congruence].
    + intros [H1%prefix_cons_inv_2 H2]. split; [done|congruence].
Qed.

Lemma diverge_app b p q : diverge (b ++ p) (b ++ q) = diverge p q.
Proof. induction b as [|x b IH]; [done|]. cbn. by rewrite decide_True. Qed.

Lemma split_slash_ne s : split_slash s <> [].
Proof. destruct s as [|c s]; cbn; [done|]. case_decide; [done|]. by destruct (split_slash s). Qed.

Lemma split_slash_join a b : split_slash (a +:+ "/" +:+ b) = split_slash a ++ split_slash b.
Proof.
  induction a as [|c a IH].
  { change ("" +:+ "/" +:+ b) with (String slash b). cbn [split_slash app]. by rewrite decide_True. }
  change (String c a +:+ "/" +:+ b) with (String c (a +:+ "/" +:+ b)). cbn [split_slash].
  case_decide; [by rewrite IH|]. rewrite IH.
  destruct (split_slash a) eqn:E; [by apply split_slash_ne in E|done].
Qed.

Lemma last_app_ne {A} (l k : list A) : k <> [] -> last (l ++ k) = last k.
Proof. destruct k as [|x k _] using rev_ind; [done|]. intros _. by rewrite app_assoc, !last_snoc. Qed.

(** A relative path after a name. *)
Lemma path_clean_app l k :
  filter (fun p => p <> "") k <> [] ->
  path_clean (l ++ k) = filter (fun p => p <> "") l ++ path_clean k.
Proof.
  intros Hk. unfold path_clean. rewrite filter_app, last_app_ne by (by intros ->).
  destruct (filter (fun p => p <> "") k) as [|x k'] eqn:E; [done|].
  destruct (filter (fun p => p <> "") l ++ x :: k') as [|y m] eqn:E'; [by apply app_nil in E' as [_ ?]|].
  rewrite <- E'. case_decide; [by rewrite <- app_assoc|done].
Qed.

Lemma relative_pieces s :
  is_absolute s = false -> s <> "" ->
  filter (fun p => p <> "") (split_slash s) <> [] /\ path_clean (split_slash s) = path_of_string s.
Proof.
  destruct s as [|c s]; [done|]. cbn [is_absolute]. intros Hc%bool_decide_eq_false _.
  unfold path_of_string. cbn [split_slash]. rewrite decide_False by done.
  destruct (split_slash s) as [|p ps] eqn:E; [by apply split_slash_ne in E|].
  rewrite filter_cons_True by done. split; [done|].
  destruct ps as [|q ps].
  - unfold path_clean. rewrite filter_cons_True by done. cbn. by rewrite !decide_False.
  - by rewrite decide_False.
Qed.

Lemma absolute_comps cwd s :
  is_absolute cwd = true -> is_absolute s = false -> s <> "" ->
  exists base, path_of_string (absolute cwd (under_root s)) = base ++ path_of_string s /\
    base = "/" :: filter (fun p => p <> "") (tail (split_slash cwd)) ++ ["root"].
Proof.
  intros Hcwd Hs Hne. unfold absolute, under_root. rewrite Hs. cbn [is_absolute].
  change (is_absolute ("root/" +:+ s)) with false. eexists. split; [|reflexivity].
  change ("root/" +:+ s) with ("root" +:+ "/" +:+ s).
  unfold path_of_string at 1. rewrite !split_slash_join.
  destruct cwd as [|c cwd]; [done|]. cbn in Hcwd. apply bool_decide_eq_true in Hcwd as ->.
  change (split_slash (String slash cwd)) with ("" :: split_slash cwd). cbn [tail app].
  destruct (relative_pieces s Hs Hne) as [Hf Hp].
  destruct (split_slash cwd ++ split_slash "root" ++ split_slash s) as [|x xs] eqn:E.
  { apply app_nil in E as [E _]. by apply split_slash_ne in E. }
  rewrite <- E. cbn [decide]. rewrite decide_True by done.
  rewrite path_clean_app.
  - rewrite path_clean_app by done. cbn. by rewrite Hp, <- app_assoc.
  - rewrite filter_app. intros [_ ?]%app_nil. done.
Qed.

Lemma isPathInsideFolder_comps cwd src dst :
  is_absolute cwd = true -> is_absolute src = false -> is_absolute dst = false -> src <> "" -> dst <> "" ->
  isPathInsideFolder cwd (under_root src) (under_root dst) = true <->
  path_of_string src `prefix_of` path_of_string dst /\ path_of_string src <> path_of_string dst.
Proof.
  intros Hcwd Hs Hd Hs' Hd'. unfold isPathInsideFolder.
  destruct (absolute_comps cwd src Hcwd Hs Hs') as (b & -> & ->).
  destruct (absolute_comps cwd dst Hcwd Hd Hd') as (b & -> & ->).
  rewrite diverge_app. apply diverge_spec.
Qed.

Lemma absolute_head s : is_absolute s = true <-> exists r, path_of_string s = "/" :: r.
Proof.
  split.
  - destruct s as [|c s]; [done|]. cbn. intros ->%bool_decide_eq_true. unfold path_of_string.
    change (split_slash (String slash s)) with ("" :: split_slash s).
    destruct (split_slash s) eqn:E; [by apply split_slash_ne in E|]. rewrite decide_True by done. eauto.
  - intros [r Hr]. destruct (is_absolute s) eqn:Hs; [done|]. exfalso.
    destruct (decide (s = "")) as [->|Hne]; [done|].
    destruct (relative_pieces s Hs Hne) as [_ Hp]. pose proof (path_clean_wf _ (split_slash_pieces s)) as Hwf.
    rewrite Hp, Hr in Hwf. apply rel_wf_no_slash, Forall_inv in Hwf. cbn in Hwf. by destruct Hwf.
Qed.

Lemma parent_names p : path_wf p -> "" ∉ parent_path p.
Proof.
  assert (forall l, rel_wf l -> "" ∉ removelast l) as Hrel.
  { intros l [H|(ns & -> & _ & H)]; [|rewrite removelast_last];
      intros Hin; unfold names_wf in H; rewrite Forall_forall in H.
    - destruct l as [|x l _] using rev_ind; [by apply not_elem_of_nil in Hin|].
      rewrite removelast_last in Hin. destruct (H "") as [_ ?]; [apply elem_of_app; by left|done].
    - destruct (H "") as [_ ?]; done. }
  unfold parent_path. destruct (path_is_rootlike p) eqn:E.
  - intros _. apply bool_decide_eq_true in E as [-> | ->]; [by apply not_elem_of_nil|].
    intros H. by apply list_elem_of_singleton in H.
  - intros [H|(rel & -> & H)]; [by apply Hrel|].
    apply bool_decide_eq_false in E. destruct rel as [|r rel]; [naive_solver|].
    change (removelast ("/" :: r :: rel)) with ("/" :: removelast (r :: rel)).
    intros [?|Hin]%elem_of_cons; [done|]. by eapply Hrel.
Qed.

Lemma snoc_parent p : path_is_rootlike p = false -> exists x, p = parent_path p ++ [x] /\ entry_path p = p.
Proof.
  unfold entry_path, parent_path, filename. intros E. rewrite E.
  destruct p as [|x p _] using rev_ind; [done|]. exists x. by rewrite removelast_last, last_snoc.
Qed.

(** A destination inside the source is always found. *)
Lemma inside_found cwd src dst :
  is_absolute cwd = true ->
  entry_path (path_of_string src) `prefix_of` parent_path (path_of_string dst) ->
  isPathInsideFolder cwd (under_root src) (under_root dst) = true.
Proof.
  intros Hcwd Hpre. pose proof (parent_names _ (path_of_string_wf dst)) as Hnames.
  destruct (path_is_rootlike (path_of_string src)) eqn:Es.
  { exfalso. apply Hnames. destruct Hpre as [k ->]. unfold entry_path, filename. rewrite Es.
    rewrite !elem_of_app. left. right. by left. }
  destruct (snoc_parent _ Es) as (x & Hx & HS). rewrite HS in Hpre.
  destruct (path_is_rootlike (path_of_string dst)) eqn:Ed.
  { exfalso. unfold parent_path in Hpre. rewrite Ed in Hpre.
    apply bool_decide_eq_true in Ed as [Ed|Ed]; rewrite Ed in Hpre;
      apply bool_decide_eq_false in Es; apply Es; [left; by apply prefix_nil_inv|].
    destruct Hpre as [k Hk]. destruct (path_of_string src) as [|y l]; [by left|].
    injection Hk as -> Hk. symmetry in Hk. apply app_nil in Hk as [-> _]. by right. }
  destruct (snoc_parent _ Ed) as (y & Hy & _).
  assert (path_of_string src `prefix_of` path_of_string dst /\ path_of_string src <> path_of_string dst) as Hproper.
  { split; [rewrite Hy; etransitivity; [exact Hpre|by eexists]|].
    intros E. rewrite E, Hy in Hpre at 1. apply prefix_length in Hpre. rewrite length_app in Hpre. cbn in Hpre. lia. }
  assert (path_of_string src <> []) as Hne by (rewrite Hx; by destruct (parent_path (path_of_string src))).
  assert (is_absolute src = is_absolute dst) as Habs.
  { apply Bool.eq_iff_eq_true. rewrite !absolute_head. destruct Hproper as [[k ->] _].
    destruct (path_of_string src) as [|z l]; [done|]. cbn. naive_solver. }
  destruct (is_absolute src) eqn:Hs.
  - unfold isPathInsideFolder, absolute, under_root. rewrite <- Habs, !Hs, <- !Habs. by apply diverge_spec.
  - apply isPathInsideFolder_comps; [done|done|done| | |exact Hproper].
    + by intros ->.
    + intros ->. destruct Hproper as [Hp _]. by apply prefix_nil_inv in Hp.
Qed.

(** ** The actions *)

Lemma getEntryPtr_total s t st :
  wf_folder t -> getEntryPtr s t st = Ret (child_at (entry_path (path_of_string s)) (inl t), t, st).
Proof.
  intros Hwf. unfold getEntryPtr, entry_path. set (p := path_of_string s).
  assert (forall f, folder_at (parent_path p) t = Some f ->
    deref (parent_path p) t ≫= (fun parentFolder => Ret (findChild (filename p) parentFolder, t, st)) =
    Ret (child_at (parent_path p ++ [filename p]) (inl t), t, st)) as Hfound.
  { intros f Hf. rewrite (deref_some _ _ _ Hf). cbn [mbind outcome_bind]. rewrite child_at_app.
    apply folder_at_child in Hf. rewrite Hf. cbn. unfold findChild. by destruct (omap_find _ _). }
  case_decide as Hp.
  - rewrite getFolderPtr_find by done. case_decide as Hd.
    + destruct Hd as [f Hf]. by rewrite (Hfound f).
    + rewrite child_at_app. destruct (child_at (parent_path p) (inl t)) as [[f|g]|] eqn:Hc; [|done..].
      destruct Hd. exists f. by apply folder_at_child.
  - rewrite Hp in *. by apply (Hfound t).
Qed.

(** The entry that an action names. *)
Definition entry (s : string) (t : Folder) : option Child := child_at (entry_path (path_of_string s)) (inl t).

(** The folder and the name of an uploaded file: the folder named, when there is
    one, with the name that comes with the action; else the path named. *)
Definition uploadTarget (a : Action) (t : Folder) : path * string :=
  let p := path_of_string (m_param2 a) in
  match entry (m_param2 a) t with
  | Some (inl _) => (p, path_string (path_of_string (m_filename a)))
  | _ => (parent_path p, filename p)
  end.

(** When an action is marked invalid. *)
Definition refused (cwd : string) (stat : string -> DiskStat) (a : Action) (t : Folder) : bool :=
  match m_actionId a with
  | upload => match stat (m_param1 a) with Regular _ => false | _ => true end
  | new_folder => bool_decide (is_Some (entry (m_param1 a) t))
  | move =>
      match entry (m_param1 a) t with
      | None => true
      | Some c => isFolder c && isPathInsideFolder cwd (under_root (m_param1 a)) (under_root (m_param2 a))
      end
  | remove => bool_decide (entry (m_param1 a) t = None)
  end.

(** A new file in the folder [D], unless a file stands in the way of the folder. *)
Definition uploaded (D : path) (name : string) (hash size : Z) (t t' : Folder) : Prop :=
  (blocked D t /\ t' = t) \/
  (exists t1 i, created_along D t t1 /\
    view t' (D ++ [name]) = Some (HFile (newFile name hash size false i)) /\
    (forall n r, view t' (D ++ name :: n :: r) = None) /\
    (forall q, ~ (D ++ [name]) `prefix_of` q -> view t' q = view t1 q)).

(** What an action that is not refused makes of the file structure. *)
Definition effect (stat : string -> DiskStat) (a : Action) (t t' : Folder) : Prop :=
  match m_actionId a with
  | upload =>
      match stat (m_param1 a), stringToByteArray (m_param1 a) with
      | Regular size, Some hash =>
          let '(D, name) := uploadTarget a t in uploaded D name hash size t t'
      | _, _ => False
      end
  | new_folder =>
      let p := path_of_string (m_param1 a) in
      (blocked p t /\ t' = t) \/ created_along p t t'
  | move => exists r, fr_tree r = t' /\ move_result (m_param1 a) (m_param2 a) t r
  | remove =>
      let E := entry_path (path_of_string (m_param1 a)) in
      (forall q, view t' (E ++ q) = None) /\ (forall q, ~ E `prefix_of` q -> view t' q = view t q)
  end.

(** The torrents after an action: those of a removed file are kept known. *)
Definition torrents_after (a : Action) (s : SandboxTree) : TorrentMap :=
  match m_actionId a, entry (m_param1 a) (sb_tree s) with
  | remove, Some c => foldl keepTorrent (sb_torrents s) (reported c)
  | _, _ => sb_torrents s
  end.

Definition sandbox_ok (s : SandboxTree) : Prop := wf_folder (sb_tree s) /\ linked (sb_tree s) (sb_nodes s).

(** A move over one of the folders that its source is in. *)
Definition over_ancestor (a : Action) : Prop :=
  let S := entry_path (path_of_string (m_param1 a)) in let T := entry_path (path_of_string (m_param2 a)) in
  m_actionId a = move /\ T `prefix_of` S /\ T <> S.

#[export] Instance over_ancestor_dec a : Decision (over_ancestor a).
Proof. unfold over_ancestor. apply _. Defined.

(** An upload of a file of the drive folder whose name is not a hash. *)
Definition misnamed (stat : string -> DiskStat) (a : Action) : Prop :=
  m_actionId a = upload /\ stringToByteArray (m_param1 a) = None /\
  match stat (m_param1 a) with Regular _ => True | _ => False end.

#[export] Instance misnamed_dec stat a : Decision (misnamed stat a).
Proof. unfold misnamed. destruct (stat (m_param1 a)); apply _. Defined.

Section Actions.
  Context (cwd : string) (stat : string -> DiskStat) (Hcwd : is_absolute cwd = true).

(** What an action gives: a mark, or the effect. *)
Definition acted (a : Action) (s : SandboxTree) (mark : bool) (s' : SandboxTree) : Prop :=
  mark = refused cwd stat a (sb_tree s) /\
  if mark then s' = s
  else sandbox_ok s' /\ effect stat a (sb_tree s) (sb_tree s') /\ sb_torrents s' = torrents_after a s.

Lemma parsed_parent s : path_of_string (path_string (parent_path (path_of_string s))) = parent_path (path_of_string s).
Proof. apply path_of_string_render, parent_path_wf, path_of_string_wf. Qed.

Lemma performUpload_spec a s :
  m_actionId a = upload -> sandbox_ok s -> ~ misnamed stat a ->
  exists mark s', performUpload stat a s = Ret (mark, s') /\ acted a s mark s'.
Proof.
  intros Ha Hok Hno. pose proof Hok as [Hwf Hl]. unfold acted, refused, effect, torrents_after, misnamed in *. rewrite Ha.
  unfold performUpload. destruct (stat (m_param1 a)) as [| |size]; [by do 2 eexists..|].
  destruct (stringToByteArray (m_param1 a)) as [hash|]; [|by destruct Hno]. clear Hno.
  rewrite getEntryPtr_total by done. cbn [mbind outcome_bind]. fold (entry (m_param2 a) (sb_tree s)).
  assert (forall dest name, uploadTarget a (sb_tree s) = (path_of_string dest, name) ->
    exists mark s', ('(_, t', st') ← addFile dest name hash size (sb_tree s) (sb_nodes s);
                     Ret (false, mkSandboxTree t' st' (sb_torrents s))) = Ret (mark, s') /\
      mark = false /\ sandbox_ok s' /\
      (let '(D, name) := uploadTarget a (sb_tree s) in uploaded D name hash size (sb_tree s) (sb_tree s')) /\
      sb_torrents s' = sb_torrents s) as Hadd.
  { intros dest name ->.
    destruct (addFile_spec dest name hash size (sb_tree s) (sb_nodes s) Hwf) as (ok & t' & st' & E & Hwf' & Hspec).
    rewrite E. do 2 eexists. split; [done|]. split; [done|]. split; [exact (conj Hwf' (addFile_linked _ _ _ _ _ _ _ _ _ Hwf Hl E))|].
    split; [|done]. cbn [sb_tree]. destruct ok; [|left; by destruct Hspec as (? & -> & _)].
    right. destruct Hspec as (_ & t1 & i & H). by exists t1, i. }
  unfold uploadTarget in Hadd.
  assert (forall name : string, (parent_path (path_of_string (m_param2 a)), name) =
    (path_of_string (path_string (parent_path (path_of_string (m_param2 a)))), name)) as Hpp.
  { intros name. by rewrite parsed_parent. }
  destruct (entry (m_param2 a) (sb_tree s)) as [[f|g]|] eqn:Ee;
    [destruct (Hadd _ _ eq_refl) as (mark & s' & E & -> & ? & ? & ?)
    |destruct (Hadd _ _ (Hpp _)) as (mark & s' & E & -> & ? & ? & ?)..];
    rewrite E; do 2 eexists; (split; [done|]); unfold uploadTarget; by rewrite Ee.
Qed.

Lemma performNewFolder_spec a s :
  m_actionId a = new_folder -> sandbox_ok s ->
  exists mark s', performNewFolder a s = Ret (mark, s') /\ acted a s mark s'.
Proof.
  intros Ha Hok. pose proof Hok as [Hwf Hl]. unfold acted, refused, effect, torrents_after. rewrite Ha.
  unfold performNewFolder. rewrite getEntryPtr_total by done. cbn [mbind outcome_bind].
  fold (entry (m_param1 a) (sb_tree s)). destruct (entry _ _) as [c|].
  { do 2 eexists. split; [done|]. by rewrite bool_decide_true by eauto. }
  destruct (addFolder_total (path_of_string (m_param1 a)) (sb_tree s) (sb_nodes s) Hwf Hl) as (ok & t' & st' & E & Hl').
  unfold addFolder. rewrite E. cbn [mbind outcome_bind]. do 2 eexists. split; [done|].
  apply addFolder_path_inv in E as [Hwf' H]; [|done].
  rewrite bool_decide_false by (by intros []). split; [done|]. split; [done|]. split; [|done].
  destruct ok; cbn [sb_tree]; [right; tauto | left; by destruct H as (-> & _ & ?)].
Qed.

Lemma performRemove_spec a s :
  m_actionId a = remove -> sandbox_ok s ->
  exists mark s', performRemove a s = Ret (mark, s') /\ acted a s mark s'.
Proof.
  intros Ha Hok. pose proof Hok as [Hwf Hl]. unfold acted, refused, effect, torrents_after. rewrite Ha.
  unfold performRemove. rewrite getEntryPtr_total by done. cbn [mbind outcome_bind].
  fold (entry (m_param1 a) (sb_tree s)). destruct (entry (m_param1 a) (sb_tree s)) as [c|] eqn:Hc.
  2: { do 2 eexists. split; [done|]. by rewrite bool_decide_true. }
  destruct (removeFlat_correct (m_param1 a) (sb_tree s) (sb_nodes s) Hwf Hl) as (r & E & Hwf' & Hl' & H).
  rewrite E. cbn [mbind outcome_bind]. do 2 eexists. split; [done|].
  cbv zeta in H. unfold entry in Hc. rewrite Hc in H. destruct H as (_ & Hh & Hin & Hout).
  rewrite bool_decide_false by done. split; [done|]. split; [done|]. split; [done|]. cbn. by rewrite Hh.
Qed.

Lemma performMove_spec a s :
  m_actionId a = move -> sandbox_ok s -> ~ over_ancestor a ->
  exists mark s', performMove cwd a s = Ret (mark, s') /\ acted a s mark s'.
Proof.
  intros Ha Hok Hno. pose proof Hok as [Hwf Hl]. unfold acted, refused, effect, torrents_after. rewrite Ha.
  unfold performMove. rewrite getEntryPtr_total by done. cbn [mbind outcome_bind].
  fold (entry (m_param1 a) (sb_tree s)). destruct (entry (m_param1 a) (sb_tree s)) as [c|] eqn:Hc; [|by do 2 eexists].
  destruct (isFolder c && _) eqn:Hin; [by do 2 eexists|].
  destruct (moveFlat_moveable (m_param1 a) (m_param2 a) (sb_tree s) (sb_nodes s) Hwf Hl) as (r & E & Hwf' & Hl' & H).
  - split; [|by intros [? ?]; apply Hno]. intros f Hf Hpre. unfold entry in Hc. rewrite Hf in Hc. injection Hc as <-.
    by rewrite (inside_found cwd _ _ Hcwd Hpre) in Hin.
  - rewrite E. cbn [mbind outcome_bind]. do 2 eexists. split; [done|]. split; [done|]. split; [done|].
    split; [|done]. by exists r.
Qed.

(** An upload of a misnamed file fails an assertion. *)
Lemma performUpload_misnamed a s : misnamed stat a -> performAction cwd stat a s = Stop AssertFailure.
Proof.
  intros (Ha & Hn & Hs). unfold performAction, performUpload. rewrite Ha.
  destruct (stat (m_param1 a)); [done..|]. by rewrite Hn.
Qed.

(** A move over an ancestor is refused, or uses a freed folder. *)
Lemma performMove_over_ancestor a s :
  sandbox_ok s -> over_ancestor a ->
  performMove cwd a s = Ret (true, s) \/ performMove cwd a s = Stop UndefinedBehaviour.
Proof.
  intros [Hwf Hl] (_ & HTS & Hne). unfold performMove. rewrite getEntryPtr_total by done. cbn [mbind outcome_bind].
  destruct (child_at _ _) as [c|] eqn:Hc; [|by left]. destruct (isFolder c && _); [by left|]. right.
  by rewrite moveFlat_ancestor by eauto.
Qed.

Lemma performAction_acted a s :
  sandbox_ok s -> ~ over_ancestor a -> ~ misnamed stat a ->
  exists mark s', performAction cwd stat a s = Ret (mark, s') /\ acted a s mark s'.
Proof.
  intros Hok Hno Hmis. unfold performAction. destruct (m_actionId a) eqn:Ha.
  - by apply performUpload_spec.
  - by apply performNewFolder_spec.
  - by apply performMove_spec.
  - by apply performRemove_spec.
Qed.

End Actions.

(** C23: What an action does.  On a sandbox whose tree is well formed and linked to its
    nodes, any action returns but a move over a folder that its source is in
    ([over_ancestor]) and an upload of a file whose name is not a hash ([misnamed]): it
    is marked invalid, and changes nothing, exactly when [refused] says so; otherwise the file structure changes as
    [effect] says, stays well formed and linked, and only a removed file changes the
    torrents. *)
Theorem performAction_correct cwd stat a s :
  is_absolute cwd = true -> sandbox_ok s -> ~ over_ancestor a -> ~ misnamed stat a ->
  exists mark s', performAction cwd stat a s = Ret (mark, s') /\ mark = refused cwd stat a (sb_tree s) /\
    if mark then s' = s
    else sandbox_ok s' /\ effect stat a (sb_tree s) (sb_tree s') /\ sb_torrents s' = torrents_after a s.
Proof.
  intros Hcwd. by apply performAction_acted.
Qed.

(** ** Where the files come from *)

(** A file of the tree with the same content. *)
Definition same_file (t : Folder) (f : File) : Prop :=
  exists q f0, view t q = Some (HFile f0) /\ file_hash f0 = file_hash f /\ file_size f0 = file_size f.

Definition uploaded_by (stat : string -> DiskStat) (a : Action) (f : File) : Prop :=
  m_isInvalid a = false /\ m_actionId a = upload /\ stat (m_param1 a) = Regular (file_size f) /\
  stringToByteArray (m_param1 a) = Some (file_hash f).

Lemma same_file_at t q f : view t q = Some (HFile f) -> same_file t f.
Proof. intros H. by exists q, f. Qed.

Lemma created_along_file p t t' q f :
  created_along p t t' -> view t' q = Some (HFile f) -> view t q = Some (HFile f).
Proof.
  intros Hc. specialize (Hc q). destruct (view t q) as [h|]; [congruence|].
  case_decide; [|congruence]. destruct Hc as (n & i & _ & ->). done.
Qed.

Lemma effect_files stat a t t' q f :
  m_isInvalid a = false -> effect stat a t t' -> view t' q = Some (HFile f) -> same_file t f \/ uploaded_by stat a f.
Proof.
  intros Hi. unfold effect, uploaded_by. destruct (m_actionId a) eqn:Ha.
  - destruct (stat (m_param1 a)) as [| |size]; [done..|].
    destruct (stringToByteArray (m_param1 a)) as [hash|]; [|done].
    destruct (uploadTarget a t) as [D name]. intros [[_ ->]|(t1 & i & Hc & Hnew & Hbelow & Hout)] Hq;
      [by eauto using same_file_at|].
    destruct (decide ((D ++ [name]) `prefix_of` q)) as [[[|x r] ->]|Hn].
    + rewrite app_nil_r, Hnew in Hq. injection Hq as <-. by right.
    + rewrite <- app_assoc in Hq. cbn in Hq. by rewrite Hbelow in Hq.
    + rewrite Hout in Hq by done. eauto using same_file_at, created_along_file.
  - intros [[_ ->]|Hc] Hq; eauto using same_file_at, created_along_file.
  - intros (r & <- & Hr) Hq. left. unfold move_result in Hr. destruct (fr_ok r).
    2: { destruct Hr as [E _]. rewrite E in Hq. by eapply same_file_at. }
    destruct Hr as [_ [[_ E]|(t1 & Hc & HS & HT & Hbelow & Hout)]]; [rewrite E in Hq; by eapply same_file_at|].
    set (S := entry_path (path_of_string (m_param1 a))) in *. set (T := entry_path (path_of_string (m_param2 a))) in *.
    destruct (decide (S `prefix_of` q)) as [[k ->]|HSq]; [by rewrite HS in Hq|].
    destruct (decide (T `prefix_of` q)) as [[[|x k] ->]|HTq].
    + rewrite app_nil_r, HT in Hq. destruct (view t S) as [[f0|]|] eqn:Hv; [|done..].
      injection Hq as <-. by exists S, f0.
    + rewrite Hbelow in Hq. by eapply same_file_at.
    + rewrite Hout in Hq by done. eauto using same_file_at, created_along_file.
  - intros [Hin Hout] Hq. set (E := entry_path (path_of_string (m_param1 a))) in *.
    destruct (decide (E `prefix_of` q)) as [[k ->]|HE]; [by rewrite Hin in Hq|].
    rewrite Hout in Hq by done. eauto using same_file_at.
Qed.

(** C20: On a sandbox whose tree is well formed and linked to its nodes, the actions of a
    list stop the replicator, whatever a client puts into it, only by a move over a
    folder that its source is in (a use of a freed folder) or by an upload of a file in the drive
    folder whose name is not a hash (an assertion).  Otherwise every action gets its
    mark; the file structure stays well formed and linked; and each file of it comes from the old one or from
    an upload of the list, with the hash that the upload names and the size that the
    downloaded file has. *)
Theorem action_list_safe cwd stat l s :
  is_absolute cwd = true -> sandbox_ok s ->
  match performActions cwd stat l s with
  | Ret (marks, s') =>
      sandbox_ok s' /\ length marks = length l /\
      forall q f, view (sb_tree s') q = Some (HFile f) ->
        same_file (sb_tree s) f \/ exists a, a ∈ l /\ uploaded_by stat a f
  | Stop f => exists a, a ∈ l /\
      (f = UndefinedBehaviour /\ over_ancestor a \/ f = AssertFailure /\ misnamed stat a)
  end.
Proof.
  intros Hcwd. revert s. induction l as [|a l IH]; intros s Hok; cbn [performActions].
  { split; [done|]. split; [done|]. intros q f Hq. left. by eapply same_file_at. }
  assert ((exists mark s1, (if m_isInvalid a then Ret (true, s) else performAction cwd stat a s) = Ret (mark, s1) /\
             sandbox_ok s1 /\ forall q f, view (sb_tree s1) q = Some (HFile f) ->
               same_file (sb_tree s) f \/ uploaded_by stat a f) \/
          exists f, (if m_isInvalid a then Ret (true, s) else performAction cwd stat a s) = Stop f /\
             (f = UndefinedBehaviour /\ over_ancestor a \/ f = AssertFailure /\ misnamed stat a)) as Hone.
  { destruct (m_isInvalid a) eqn:Hi; [left; do 2 eexists; eauto using same_file_at|].
    assert (performAction cwd stat a s = Ret (true, s) -> exists mark s1, performAction cwd stat a s = Ret (mark, s1) /\
             sandbox_ok s1 /\ forall q f, view (sb_tree s1) q = Some (HFile f) ->
               same_file (sb_tree s) f \/ uploaded_by stat a f) as Hrefused.
    { intros ->. do 2 eexists. split; [done|]. eauto using same_file_at. }
    destruct (decide (over_ancestor a)) as [Ho|Ho].
    - pose proof (performMove_over_ancestor cwd a s Hok Ho) as Hm.
      assert (performAction cwd stat a s = performMove cwd a s) as E.
      { destruct Ho as [Ho _]. unfold performAction. by rewrite Ho. }
      rewrite E in Hrefused |- *. destruct Hm as [Hm|Hm]; [left; by apply Hrefused|right; rewrite Hm; eauto].
    - destruct (decide (misnamed stat a)) as [Hmis|Hmis].
      { right. rewrite performUpload_misnamed by done. eauto. }
      left. destruct (performAction_acted cwd stat Hcwd a s Hok Ho Hmis) as (mark & s1 & E & _ & H).
      destruct mark; [subst; by apply Hrefused|]. destruct H as (Hok1 & He & _).
      do 2 eexists. split; [done|]. split; [done|]. intros q f Hq. by eapply effect_files. }
  destruct Hone as [(mark & s1 & -> & Hok1 & Hf1)|(f & -> & Ho)]; cbn [mbind outcome_bind].
  2: { exists a. split; [by left|done]. }
  specialize (IH s1 Hok1). destruct (performActions cwd stat l s1) as [[marks s2]|f]; cbn [mbind outcome_bind].
  - destruct IH as (Hok2 & Hlen & Hf2). split; [done|]. split; [cbn; by rewrite Hlen|].
    intros q f Hq. destruct (Hf2 q f Hq) as [(q1 & f1 & Hq1 & Eh & Es)|(b & Hb & Hu)].
    + destruct (Hf1 q1 f1 Hq1) as [(q0 & f0 & H0 & E1 & E2)|Hu].
      * left. exists q0, f0. split; [done|]. by rewrite E1, E2.
      * right. exists a. split; [by left|]. unfold uploaded_by in *. by rewrite <- Eh, <- Es.
    + right. exists b. split; [by right|done].
  - destruct IH as (b & Hb & Ho). exists b. split; [by right|done].
Qed.

(** ** Examples *)

Definition pieces (_ : Z) : Z := 16384.
Definition torrentOf (sizes : list (Z * Z)) (h : Z) : TorrentMetadata :=
  mkMetadata (from_option snd 0 (List.find (fun p => fst p =? h) sizes)) 16384.

Definition uploadAs (hash : Z) (path : string) : Action :=
  mkAction upload (hashToFileName hash) path "x" false.

(** The paid size is just used up by the action list; the file is let through. *)
Example zero_limit_is_no_limit :
  match downloadModification 1 10 pieces (torrentOf [(1, 10); (7, 1000000)]) (Some (true, [uploadAs 7 "f"])) ∅ with
  | Ret (trace, s) =>
      trace = [StartModifyFsTree; StartDownload 7 0; StartDownload 1 10] /\ md_uploadedDataSize s = 1000010
  | Stop _ => False
  end.
Proof. vm_compute. split; reflexivity. Qed.

(** A missing list, and an upload of a file that is there but has no hash for a name. *)
Example missing_list_asserts :
  downloadModification 1 10 pieces (torrentOf [(1, 10)]) None ∅ = Stop AssertFailure.
Proof. vm_compute. reflexivity. Qed.

Example misnamed_upload_asserts :
  performActions "/home" (fun _ => Regular 20) [mkAction upload "readme" "f" "x" false] (mkSandboxTree sample.1 sample.2 ∅) =
    Stop AssertFailure.
Proof. vm_compute. reflexivity. Qed.

(** An upload of the zero hash, and of what is no hash. *)
Example upload_of_no_file :
  let download a := downloadModification 1 100 pieces (torrentOf [(1, 10)]) (Some (true, [a])) ∅ in
  download (uploadAs 0 "f") = Stop UndefinedBehaviour /\
  download (mkAction upload "readme" "f" "x" false) = Stop ThrownException.
Proof. split; vm_compute; reflexivity. Qed.

(** A list that cannot be read is reported, and used. *)
Example unreadable_list_goes_on :
  match downloadModification 1 100 pieces (torrentOf [(1, 10); (7, 20)]) (Some (false, [uploadAs 7 "f"])) ∅ with
  | Ret (trace, _) =>
      trace = [StartModifyFsTree; StartDownload 7 90; CompletedWithError INVALID_ACTION_LIST; StartDownload 1 100]
  | Stop _ => False
  end.
Proof. vm_compute. reflexivity. Qed.

Definition onDisk (name : string) : DiskStat := if decide (name = hashToFileName 7) then Regular 20 else Missing.

Definition sampleSandbox : SandboxTree := mkSandboxTree sample.1 sample.2 ∅.

Lemma sampleSandbox_ok : sandbox_ok sampleSandbox.
Proof. exact (conj wf_sample linked_sample). Qed.

(** A move over an ancestor passes the checks. *)
Example move_over_ancestor_is_performed :
  performActions "/home" onDisk [Action_move "docs/img/x.png" "docs"] sampleSandbox = Stop UndefinedBehaviour.
Proof. vm_compute. reflexivity. Qed.

(** The tree of a modification shares its nodes with that of the drive.  After a
    modification that turns two folders inside out and is rejected, the plain
    renaming of the inner one recurses for ever. *)
Definition modifySample (l : list Action) (nodes : StatStore) : Outcome SandboxResult :=
  modifyFsTreeInSandbox "/home" onDisk (fun _ => Some 10) (fun _ => Some 10) (fun _ => (5, 5)) 40 l sample.1 nodes ∅.

Definition discarded (r : SandboxResult) : StatStore := drop_folder (sb_tree (sr_sandbox r)) (sb_nodes (sr_sandbox r)).

Example rejected_links_crash :
  let rename := [Action_move "docs/img" "docs/pictures"] in
  match modifySample [Action_move "docs/img" "img"; Action_move "docs" "img/docs"] sample.2, modifySample rename sample.2 with
  | Ret rejected, Ret renamed =>
      sr_error rejected = Some NOT_ENOUGH_SPACE /\ modifySample rename (discarded rejected) = Stop NonTermination
  | _, _ => False
  end.
Proof. vm_compute. split; reflexivity. Qed.

(** ** Witnesses *)

Lemma paid_size_respected_witness :
  exists trace s,
    downloadModification 1 100 pieces (torrentOf [(1, 10); (7, 20)]) (Some (true, [uploadAs 7 "f"])) ∅ = Ret (trace, s) /\
    md_uploadedDataSize s = 30 /\ md_uploadedDataSize s <= 100.
Proof.
  destruct (downloadModification 1 100 pieces (torrentOf [(1, 10); (7, 20)]) (Some (true, [uploadAs 7 "f"])) ∅)
    as [[trace s]|f] eqn:E; [|vm_compute in E; discriminate E].
  exists trace, s. split; [reflexivity|]. split; [vm_compute in E; by injection E as <- <-|].
  apply (paid_size_respected 1 100 pieces (torrentOf [(1, 10); (7, 20)]) (Some (true, [uploadAs 7 "f"])) ∅ trace s).
  - change (two64 / 2) with 9223372036854775808. lia.
  - intros h. unfold torrentOf. cbn [List.find fst]. destruct (1 =? h); [by vm_compute|]. destruct (7 =? h); by vm_compute.
  - exact E.
  - vm_compute in E. injection E as <- _. intros h H. repeat (apply elem_of_cons in H as [H|H]; [discriminate H|]).
    by apply not_elem_of_nil in H.
Defined.

Lemma downloads_complete_witness :
  exists trace s,
    downloadModification 1 100 pieces (torrentOf [(1, 10); (7, 20)]) (Some (true, [uploadAs 7 "f"])) ∅ = Ret (trace, s) /\
    finished (uploads [uploadAs 7 "f"]) trace s.
Proof.
  apply (downloads_complete 1 100 pieces (torrentOf [(1, 10); (7, 20)]) true [uploadAs 7 "f"] ∅).
  - intros h info H. by rewrite lookup_empty in H.
  - reflexivity.
  - constructor; [|constructor]. intros _. exists 7. split; [vm_compute; reflexivity|discriminate].
Defined.

Lemma performAction_correct_witness :
  exists s', performAction "/home" onDisk (uploadAs 7 "docs") sampleSandbox = Ret (false, s') /\
    exists i, view (sb_tree s') ["docs"; "x"] = Some (HFile (newFile "x" 7 20 false i)).
Proof.
  destruct (performAction_correct "/home" onDisk (uploadAs 7 "docs") sampleSandbox eq_refl sampleSandbox_ok)
    as (mark & s' & E & Em & H).
  { intros [H _]. discriminate H. }
  { intros (_ & H & _). vm_compute in H. discriminate H. }
  vm_compute in Em. subst mark. exists s'. split; [exact E|].
  vm_compute in E. injection E as <-. eexists. vm_compute. reflexivity.
Defined.

Lemma action_list_safe_witness :
  exists marks s',
    performActions "/home" onDisk [uploadAs 7 "docs"; Action_remove "none"; Action_move "docs/img" "src/img"] sampleSandbox =
      Ret (marks, s') /\ sandbox_ok s' /\ marks = [false; true; false].
Proof.
  pose proof (action_list_safe "/home" onDisk
    [uploadAs 7 "docs"; Action_remove "none"; Action_move "docs/img" "src/img"] sampleSandbox eq_refl sampleSandbox_ok) as H.
  destruct (performActions _ _ _ _) as [[marks s']|f] eqn:E; [|vm_compute in E; discriminate E].
  exists marks, s'. split; [reflexivity|]. split; [exact (proj1 H)|].
  vm_compute in E. injection E as <- _. reflexivity.
Defined.
