(* ===== verification/Verification.v ===== *)
(** * Verification of a drive ([src/drive/VerificationDriveTask.cpp])

    The replicators of a shard prove to each other that they hold the files of a
    drive: each hashes all of them, starting from a value that depends on the
    replicator, shares its own code, compares the codes received with those it
    has computed for the others, shares this opinion, and one of them sends the
    verification transaction.

    The hash works on the bytes of 64-bit words in little-endian order, as on the
    supported processors.  The content of the files is a function of their hash;
    the signatures are not modelled (they are checked before a message reaches
    the task).  The task runs on the session thread, except for the computation
    of the codes, whose result is an event. *)

From S2P Require Import Prelude FsTree.

(** ** The hash *)

Definition word64 (z : Z) : Z := u64 z.

(** [( hash >> 1 ) | ( hash << 63 )]. *)
Definition circularShift (hash : Z) : Z := Z.lor (Z.shiftr hash 1) (u64 (Z.shiftl hash 63)).

(** [*reinterpret_cast<uint64_t*>(ptr)]. *)
Fixpoint load_le (bytes : list Z) : Z :=
  match bytes with [] => 0 | b :: bs => Z.lor b (Z.shiftl (load_le bs) 8) end.

(** The tail: [lastValue = lastValue << 8; lastValue |= *ptr]. *)
Definition tail_value (bytes : list Z) : Z :=
  foldl (fun v b => Z.lor (u64 (Z.shiftl v 8)) b) 0 bytes.

Definition mix (hash w : Z) : Z := circularShift (Z.lxor hash w).

(** The two loops of [calcHash64]. *)
Fixpoint hash_loop (hash : Z) (bytes : list Z) : Z :=
  match bytes with
  | b0 :: b1 :: b2 :: b3 :: b4 :: b5 :: b6 :: b7 :: rest =>
      hash_loop (mix hash (load_le [b0; b1; b2; b3; b4; b5; b6; b7])) rest
  | tail => mix hash (tail_value tail)
  end.

Definition calcHash64 (initValue : Z) (bytes : list Z) : Outcome Z :=
  guard_assert (negb (bool_decide (bytes = []))) (Ret (hash_loop initValue bytes)).

(** The bytes of a 32-byte key or hash, first byte first. *)
Fixpoint key_bytes (n : nat) (k : Z) : list Z :=
  match n with O => [] | S n' => Z.land (Z.shiftr k (8 * Z.of_nat n')) 255 :: key_bytes n' k end.

(** ** The codes *)

(** The start value of a replicator's code. *)
Definition initCode (tx replicator : Z) : Outcome Z :=
  initHash ← calcHash64 0 (key_bytes 32 tx);
  calcHash64 initHash (key_bytes 32 replicator).

(** Reading a file in blocks of 4096 bytes, [n] blocks at most. *)
Fixpoint hash_file (n : nat) (bytes : list Z) (hash : Z) : Z :=
  match n with
  | O => hash
  | S n' =>
      match bytes with
      | [] => hash
      | _ => hash_file n' (drop 4096 bytes) (hash_loop hash (take 4096 bytes))
      end
  end.

Section Codes.
  (** The files in the drive folder; [None] when the file is absent. *)
  Context (content : Z -> option (list Z)).

(** [calculateVerifyCodes]; an absent file is an error, and ends the loop over its folder. *)
Fixpoint calculateVerifyCodes (fd : Folder) (codes : list Z) : Outcome (list Z) :=
  match fd with
  | MkFolder _ cs _ _ _ _ =>
      (fix go (cs : list (string * (Folder + File))) (codes : list Z) : Outcome (list Z) :=
         match cs with
         | [] => Ret codes
         | (_, inl sub) :: cs' => codes' ← calculateVerifyCodes sub codes; go cs' codes'
         | (_, inr f) :: cs' =>
             match content (file_hash f) with
             | None => log_err (Ret codes)
             | Some bytes => go cs' (map (hash_file (length bytes) bytes) codes)
             end
         end) cs codes
  end.

(** [verify], without an interruption. *)
Fixpoint initCodes (tx : Z) (replicators : list Z) : Outcome (list Z) :=
  match replicators with
  | [] => Ret []
  | r :: rs => h ← initCode tx r; hs ← initCodes tx rs; Ret (h :: hs)
  end.

Definition verify (tx : Z) (replicators : list Z) (fsTree : Folder) : Outcome (list Z) :=
  codes ← initCodes tx replicators;
  calculateVerifyCodes fsTree codes.

End Codes.

(** ** The task *)

Record VerificationRequest := mkVerificationRequest {
  vr_tx : Z; vr_shardId : Z; vr_approvedModification : Z; vr_replicators : list Z; vr_durationMs : Z }.

Record VerificationCodeInfo := mkVerificationCodeInfo {
  vc_tx : Z; vc_replicatorKey : Z; vc_driveKey : Z; vc_code : Z }.

Record VerifyOpinion := mkVerifyOpinion { vo_publicKey : Z; vo_opinions : list Z }.

Record VerifyApprovalTxInfo := mkVerifyApprovalTxInfo {
  va_tx : Z; va_driveKey : Z; va_shardId : Z; va_opinions : list VerifyOpinion }.

Inductive VerifyOutput :=
  | SendCode (to : Z) (info : VerificationCodeInfo)
  | SendVerifyOpinion (to : Z) (info : VerifyApprovalTxInfo)
  | StartCodeTimer (milliseconds : Z)
  | VerificationTransactionIsReady (info : VerifyApprovalTxInfo).

Record VerificationTask := mkVerificationTask {
  vt_myVerifyCodesCalculated : bool;
  vt_codeTimerRun : bool;
  vt_verifyApproveTxSent : bool;
  vt_verificationCodes : list Z;
  vt_verifyCodeTimer : TimerState;
  vt_verifyOpinionTimer : TimerState;
  vt_shareVerifyCodeTimer : TimerState;
  vt_shareVerifyOpinionTimer : TimerState;
  vt_myCodeInfo : option VerificationCodeInfo;
  vt_myOpinion : option VerifyApprovalTxInfo;
  vt_receivedCodes : gmap Z VerificationCodeInfo;
  vt_approvalTxInfo : option VerifyApprovalTxInfo;      (* m_myVerificationApprovalTxInfo *)
  vt_mustBeInterrupted : bool }.

Definition set_codesCalculated (v : bool) (t : VerificationTask) : VerificationTask :=
  mkVerificationTask v (vt_codeTimerRun t) (vt_verifyApproveTxSent t) (vt_verificationCodes t)
    (vt_verifyCodeTimer t) (vt_verifyOpinionTimer t) (vt_shareVerifyCodeTimer t)
    (vt_shareVerifyOpinionTimer t) (vt_myCodeInfo t) (vt_myOpinion t) (vt_receivedCodes t)
    (vt_approvalTxInfo t) (vt_mustBeInterrupted t).
Definition set_codeTimerRun (v : bool) (t : VerificationTask) : VerificationTask :=
  mkVerificationTask (vt_myVerifyCodesCalculated t) v (vt_verifyApproveTxSent t)
    (vt_verificationCodes t) (vt_verifyCodeTimer t) (vt_verifyOpinionTimer t)
    (vt_shareVerifyCodeTimer t) (vt_shareVerifyOpinionTimer t) (vt_myCodeInfo t) (vt_myOpinion t)
    (vt_receivedCodes t) (vt_approvalTxInfo t) (vt_mustBeInterrupted t).
Definition set_approveTxSent (v : bool) (t : VerificationTask) : VerificationTask :=
  mkVerificationTask (vt_myVerifyCodesCalculated t) (vt_codeTimerRun t) v (vt_verificationCodes t)
    (vt_verifyCodeTimer t) (vt_verifyOpinionTimer t) (vt_shareVerifyCodeTimer t)
    (vt_shareVerifyOpinionTimer t) (vt_myCodeInfo t) (vt_myOpinion t) (vt_receivedCodes t)
    (vt_approvalTxInfo t) (vt_mustBeInterrupted t).
Definition set_codes (v : list Z) (t : VerificationTask) : VerificationTask :=
  mkVerificationTask (vt_myVerifyCodesCalculated t) (vt_codeTimerRun t) (vt_verifyApproveTxSent t) v
    (vt_verifyCodeTimer t) (vt_verifyOpinionTimer t) (vt_shareVerifyCodeTimer t)
    (vt_shareVerifyOpinionTimer t) (vt_myCodeInfo t) (vt_myOpinion t) (vt_receivedCodes t)
    (vt_approvalTxInfo t) (vt_mustBeInterrupted t).
Definition set_codeTimer (v : TimerState) (t : VerificationTask) : VerificationTask :=
  mkVerificationTask (vt_myVerifyCodesCalculated t) (vt_codeTimerRun t) (vt_verifyApproveTxSent t)
    (vt_verificationCodes t) v (vt_verifyOpinionTimer t) (vt_shareVerifyCodeTimer t)
    (vt_shareVerifyOpinionTimer t) (vt_myCodeInfo t) (vt_myOpinion t) (vt_receivedCodes t)
    (vt_approvalTxInfo t) (vt_mustBeInterrupted t).
Definition set_opinionTimer (v : TimerState) (t : VerificationTask) : VerificationTask :=
  mkVerificationTask (vt_myVerifyCodesCalculated t) (vt_codeTimerRun t) (vt_verifyApproveTxSent t)
    (vt_verificationCodes t) (vt_verifyCodeTimer t) v (vt_shareVerifyCodeTimer t)
    (vt_shareVerifyOpinionTimer t) (vt_myCodeInfo t) (vt_myOpinion t) (vt_receivedCodes t)
    (vt_approvalTxInfo t) (vt_mustBeInterrupted t).
Definition set_shareCodeTimer (v : TimerState) (t : VerificationTask) : VerificationTask :=
  mkVerificationTask (vt_myVerifyCodesCalculated t) (vt_codeTimerRun t) (vt_verifyApproveTxSent t)
    (vt_verificationCodes t) (vt_verifyCodeTimer t) (vt_verifyOpinionTimer t) v
    (vt_shareVerifyOpinionTimer t) (vt_myCodeInfo t) (vt_myOpinion t) (vt_receivedCodes t)
    (vt_approvalTxInfo t) (vt_mustBeInterrupted t).
Definition set_shareOpinionTimer (v : TimerState) (t : VerificationTask) : VerificationTask :=
  mkVerificationTask (vt_myVerifyCodesCalculated t) (vt_codeTimerRun t) (vt_verifyApproveTxSent t)
    (vt_verificationCodes t) (vt_verifyCodeTimer t) (vt_verifyOpinionTimer t)
    (vt_shareVerifyCodeTimer t) v (vt_myCodeInfo t) (vt_myOpinion t) (vt_receivedCodes t)
    (vt_approvalTxInfo t) (vt_mustBeInterrupted t).
Definition set_myCodeInfo (v : option VerificationCodeInfo) (t : VerificationTask) : VerificationTask :=
  mkVerificationTask (vt_myVerifyCodesCalculated t) (vt_codeTimerRun t) (vt_verifyApproveTxSent t)
    (vt_verificationCodes t) (vt_verifyCodeTimer t) (vt_verifyOpinionTimer t)
    (vt_shareVerifyCodeTimer t) (vt_shareVerifyOpinionTimer t) v (vt_myOpinion t)
    (vt_receivedCodes t) (vt_approvalTxInfo t) (vt_mustBeInterrupted t).
Definition set_myVerifyOpinion (v : option VerifyApprovalTxInfo) (t : VerificationTask) : VerificationTask :=
  mkVerificationTask (vt_myVerifyCodesCalculated t) (vt_codeTimerRun t) (vt_verifyApproveTxSent t)
    (vt_verificationCodes t) (vt_verifyCodeTimer t) (vt_verifyOpinionTimer t)
    (vt_shareVerifyCodeTimer t) (vt_shareVerifyOpinionTimer t) (vt_myCodeInfo t) v
    (vt_receivedCodes t) (vt_approvalTxInfo t) (vt_mustBeInterrupted t).
Definition set_receivedCodes (v : gmap Z VerificationCodeInfo) (t : VerificationTask) : VerificationTask :=
  mkVerificationTask (vt_myVerifyCodesCalculated t) (vt_codeTimerRun t) (vt_verifyApproveTxSent t)
    (vt_verificationCodes t) (vt_verifyCodeTimer t) (vt_verifyOpinionTimer t)
    (vt_shareVerifyCodeTimer t) (vt_shareVerifyOpinionTimer t) (vt_myCodeInfo t) (vt_myOpinion t) v
    (vt_approvalTxInfo t) (vt_mustBeInterrupted t).
Definition set_approvalTxInfo (v : option VerifyApprovalTxInfo) (t : VerificationTask) : VerificationTask :=
  mkVerificationTask (vt_myVerifyCodesCalculated t) (vt_codeTimerRun t) (vt_verifyApproveTxSent t)
    (vt_verificationCodes t) (vt_verifyCodeTimer t) (vt_verifyOpinionTimer t)
    (vt_shareVerifyCodeTimer t) (vt_shareVerifyOpinionTimer t) (vt_myCodeInfo t) (vt_myOpinion t)
    (vt_receivedCodes t) v (vt_mustBeInterrupted t).
Definition set_mustBeInterrupted (v : bool) (t : VerificationTask) : VerificationTask :=
  mkVerificationTask (vt_myVerifyCodesCalculated t) (vt_codeTimerRun t) (vt_verifyApproveTxSent t)
    (vt_verificationCodes t) (vt_verifyCodeTimer t) (vt_verifyOpinionTimer t)
    (vt_shareVerifyCodeTimer t) (vt_shareVerifyOpinionTimer t) (vt_myCodeInfo t) (vt_myOpinion t)
    (vt_receivedCodes t) (vt_approvalTxInfo t) v.

Section Task.
  (** The request, the key and drive of this replicator, and its delays. *)
  Context (request : VerificationRequest) (replicatorKey driveKey : Z) (session : bool) (verifyCodeTimerDelay : Z).

Definition newVerificationTask : VerificationTask :=
  mkVerificationTask false false false [] NoTimer NoTimer NoTimer NoTimer None None ∅ None false.

(** [processedVerificationOpinion]; the result is its boolean. *)
Definition processedVerificationOpinion (info : VerifyApprovalTxInfo) (t : VerificationTask)
    : Outcome (bool * VerificationTask) :=
  match va_opinions info with
  | [] => Stop UndefinedBehaviour
  | [o] =>
      if decide (vr_tx request <> va_tx info) then Ret (false, t)
      else if decide (vr_shardId request <> va_shardId info) then Ret (true, t)
      else if decide (vo_publicKey o ∉ vr_replicators request) then Ret (true, t)
      else if decide (length (vo_opinions o) <> length (vr_replicators request)) then Ret (true, t)
      else
        let t1 := match vt_approvalTxInfo t with None => set_approvalTxInfo (Some info) t | Some _ => t end in
        match vt_approvalTxInfo t1 with
        | None => Stop UndefinedBehaviour
        | Some tx =>
            guard_assert (bool_decide (va_tx tx = va_tx info))
              (if decide (vo_publicKey o ∈ map vo_publicKey (va_opinions tx)) then Ret (true, t1)
               else
                 let opinions := va_opinions tx ++ [o] in
                 let t2 := set_approvalTxInfo
                             (Some (mkVerifyApprovalTxInfo (va_tx tx) (va_driveKey tx) (va_shardId tx) opinions)) t1 in
                 if bool_decide (is_Some (vt_myOpinion t2)) &&
                    Nat.ltb (length (vr_replicators request) * 2 / 3) (length opinions) then
                   if negb (timer_bool (vt_verifyOpinionTimer t2)) && session
                   then Ret (true, set_opinionTimer Pending t2)
                   else Ret (true, t2)
                 else Ret (true, t2))
        end
  | _ => Stop AssertFailure
  end.

(** [shareVerifyCode] and [shareVerifyOpinion]; also the callbacks of their timers. *)
Definition shareVerifyCode (t : VerificationTask) : Outcome (list VerifyOutput * VerificationTask) :=
  match vt_myCodeInfo t with
  | None => Stop AssertFailure
  | Some info =>
      Ret (map (fun k => SendCode k info) (filter (fun k => k <> replicatorKey) (vr_replicators request)),
           if session then set_shareCodeTimer Pending t else t)
  end.

Definition shareVerifyOpinion (t : VerificationTask) : Outcome (list VerifyOutput * VerificationTask) :=
  match vt_myOpinion t with
  | None => Stop AssertFailure
  | Some info =>
      Ret (map (fun k => SendVerifyOpinion k info) (filter (fun k => k <> replicatorKey) (vr_replicators request)),
           if session then set_shareOpinionTimer Pending t else t)
  end.

(** The loop of [verifyCodeTimerExpired] over the replicators and the codes
    computed for them. *)
Fixpoint compareCodes (received : gmap Z VerificationCodeInfo) (keys codes : list Z) : Outcome (list Z) :=
  match keys with
  | [] => Ret []
  | key :: keys' =>
      o ← (if decide (key = replicatorKey) then Ret 1
           else match received !! key with
                | None => Ret 0
                | Some info =>
                    match codes with
                    | [] => Stop UndefinedBehaviour
                    | code :: _ => Ret (if decide (vc_code info = code) then 1 else 0)
                    end
                end);
      os ← compareCodes received keys' (tail codes);
      Ret (o :: os)
  end.

Definition verifyCodeTimerExpired (t : VerificationTask) : Outcome (list VerifyOutput * VerificationTask) :=
  guard_assert (negb (vt_mustBeInterrupted t))
    (guard_assert (vt_myVerifyCodesCalculated t)
      (guard_assert (negb (vt_verifyApproveTxSent t))
        (opinions ← compareCodes (vt_receivedCodes t) (vr_replicators request) (vt_verificationCodes t);
         let info := mkVerifyApprovalTxInfo (vr_tx request) driveKey (vr_shardId request)
                       [mkVerifyOpinion replicatorKey opinions] in
         '(out, t1) ← shareVerifyOpinion (set_myVerifyOpinion (Some info) t);
         '(ok, t2) ← processedVerificationOpinion info t1;
         guard_assert ok (Ret (out, t2))))).

(** [codesDelay], an [int]. *)
Definition to_int (z : Z) : Z := (z + 2 ^ 31) mod 2 ^ 32 - 2 ^ 31.
Definition codesDelay (msSinceVerificationStart : Z) : Z :=
  if msSinceVerificationStart + verifyCodeTimerDelay <? vr_durationMs request
  then to_int (vr_durationMs request - msSinceVerificationStart - verifyCodeTimerDelay) else 0.

(** [checkVerifyCodeNumber]; [ms] is the time since the verification was started. *)
Definition checkVerifyCodeNumber (ms : Z) (t : VerificationTask) : Outcome (list VerifyOutput * VerificationTask) :=
  guard_assert (vt_myVerifyCodesCalculated t)
    (if vt_myOpinion t then Ret ([], t)
     else if decide (Z.of_nat (size (vt_receivedCodes t)) = Z.of_nat (length (vr_replicators request)) - 1)
     then verifyCodeTimerExpired (set_codeTimer NoTimer t)
     else if negb (vt_codeTimerRun t) then
       let t1 := set_codeTimerRun true t in
       if session then Ret ([StartCodeTimer (codesDelay ms)], set_codeTimer Pending t1) else Ret ([], t1)
     else Ret ([], t)).

(** [processedVerificationCode]. *)
Definition processedVerificationCode (ms : Z) (info : VerificationCodeInfo) (t : VerificationTask)
    : Outcome (bool * list VerifyOutput * VerificationTask) :=
  if decide (vc_tx info <> vr_tx request) then Ret (false, [], t)
  else if decide (vc_replicatorKey info ∉ vr_replicators request) then Ret (true, [], t)
  else if vt_receivedCodes t !! vc_replicatorKey info then Ret (true, [], t)
  else
    let t1 := set_receivedCodes (<[vc_replicatorKey info := info]> (vt_receivedCodes t)) t in
    if vt_myVerifyCodesCalculated t1
    then '(out, t2) ← checkVerifyCodeNumber ms t1; Ret (true, out, t2)
    else Ret (true, [], t1).

(** [m_verificationCodes[ourIndex]]. *)
Fixpoint code_at (key : Z) (keys codes : list Z) : option Z :=
  match keys, codes with
  | k :: keys', c :: codes' => if decide (k = key) then Some c else code_at key keys' codes'
  | _, _ => None
  end.

(** [verificationCodesCompleted], with the codes [verify] has computed. *)
Definition verificationCodesCompleted (ms : Z) (codes : list Z) (t : VerificationTask)
    : Outcome (list VerifyOutput * VerificationTask) :=
  if vt_mustBeInterrupted t then Ret ([], t)
  else
    match code_at replicatorKey (vr_replicators request) codes with
    | None => Stop UndefinedBehaviour
    | Some ourCode =>
        let t1 := set_myCodeInfo (Some (mkVerificationCodeInfo (vr_tx request) replicatorKey driveKey ourCode))
                    (set_codesCalculated true (set_codes codes t)) in
        '(out1, t2) ← shareVerifyCode t1;
        '(out2, t3) ← checkVerifyCodeNumber ms t2;
        Ret (out1 ++ out2, t3)
    end.

Definition verifyOpinionTimerExpired (t : VerificationTask) : Outcome (list VerifyOutput * VerificationTask) :=
  guard_assert (negb (vt_mustBeInterrupted t))
    (match vt_approvalTxInfo t with
     | None => Stop UndefinedBehaviour
     | Some info => Ret ([VerificationTransactionIsReady info], set_approveTxSent true t)
     end).

(** [terminate] and [cancelVerification]. *)
Definition terminate (t : VerificationTask) : VerificationTask :=
  set_mustBeInterrupted true
    (set_shareOpinionTimer NoTimer (set_shareCodeTimer NoTimer (set_opinionTimer NoTimer (set_codeTimer NoTimer t)))).

(** The constructor: the opinions, then the codes, that came before the request. *)
Fixpoint addOpinions (opinions : list VerifyApprovalTxInfo) (t : VerificationTask) : Outcome VerificationTask :=
  match opinions with
  | [] => Ret t
  | o :: os => '(ok, t1) ← processedVerificationOpinion o t; guard_assert ok (addOpinions os t1)
  end.

Fixpoint addCodes (codes : list VerificationCodeInfo) (t : VerificationTask) : Outcome VerificationTask :=
  match codes with
  | [] => Ret t
  | c :: cs => '(ok, _, t1) ← processedVerificationCode 0 c t; guard_assert ok (addCodes cs t1)
  end.

Definition createVerificationTask (receivedOpinions : list VerifyApprovalTxInfo)
    (receivedCodes : list VerificationCodeInfo) : Outcome VerificationTask :=
  t ← addOpinions receivedOpinions newVerificationTask; addCodes receivedCodes t.

End Task.
