(* ===== verification/VerificationSpec.v ===== *)
(** * Properties of the verification of a drive *)

From S2P Require Import Prelude FsTree FsTreeFacts FsTreeSpec Verification.

(** ** The hash is linear *)

(** One circular shift, and the effect of [n] of them. *)
Fixpoint shifts (n : nat) (h : Z) : Z := match n with O => h | S n' => shifts n' (circularShift h) end.

(** The number of shifts of a block: one per word and one for the tail. *)
Fixpoint block_shifts (bytes : list Z) : nat :=
  match bytes with
  | _ :: _ :: _ :: _ :: _ :: _ :: _ :: _ :: rest => S (block_shifts rest)
  | _ => 1
  end.

Lemma circularShift_spec h i :
  is_u64 h -> 0 <= i < 64 ->
  Z.testbit (circularShift h) i = Z.testbit h (if decide (i = 63) then 0 else i + 1).
Proof.
  intros Hh Hi. unfold circularShift. rewrite Z.lor_spec, Z.shiftr_spec by lia.
  unfold u64, two64. change 18446744073709551616 with (2 ^ 64).
  rewrite Z.mod_pow2_bits_low by lia. rewrite Z.shiftl_spec by lia.
  case_decide as E.
  - subst. replace (63 + 1) with 64 by lia. replace (63 - 63) with 0 by lia.
    rewrite <- (Z.mod_small h (2 ^ 64)) at 1 by exact Hh. by rewrite Z.mod_pow2_bits_high by lia.
  - by rewrite (Z.testbit_neg_r h (i - 63)) by lia; rewrite orb_false_r.
Qed.

Lemma u64_bits_high h i : is_u64 h -> 64 <= i -> Z.testbit h i = false.
Proof.
  intros Hh Hi. rewrite <- (Z.mod_small h (2 ^ 64)) by exact Hh. by apply Z.mod_pow2_bits_high.
Qed.

Lemma u64_of_bits h : 0 <= h -> (forall i, 64 <= i -> Z.testbit h i = false) -> is_u64 h.
Proof.
  intros H0 Hb. unfold is_u64, two64. split; [done|]. change 18446744073709551616 with (2 ^ 64).
  destruct (Z.lt_ge_cases h (2 ^ 64)) as [?|Hge]; [done|]. exfalso.
  assert (0 < h) as Hpos by lia. pose proof (Z.log2_le_mono _ _ Hge) as Hl. rewrite Z.log2_pow2 in Hl by lia.
  pose proof (Z.bit_log2 h Hpos) as Hbit. by rewrite Hb in Hbit.
Qed.

Lemma u64_lxor a b : is_u64 a -> is_u64 b -> is_u64 (Z.lxor a b).
Proof.
  intros Ha Hb. apply u64_of_bits.
  - apply Z.lxor_nonneg. split; intros; [apply Hb | apply Ha].
  - intros i Hi. rewrite Z.lxor_spec, !u64_bits_high; done.
Qed.

Lemma circularShift_u64 h : is_u64 h -> is_u64 (circularShift h).
Proof.
  intros Hh. unfold circularShift. apply u64_of_bits.
  - apply Z.lor_nonneg. split; [apply Z.shiftr_nonneg, Hh | apply u64_range].
  - intros i Hi. rewrite Z.lor_spec, Z.shiftr_spec by lia.
    rewrite (u64_bits_high h) by (done || lia). rewrite u64_bits_high; [done | apply u64_range | done].
Qed.

Lemma u64_ext a b : is_u64 a -> is_u64 b -> (forall i, 0 <= i < 64 -> Z.testbit a i = Z.testbit b i) -> a = b.
Proof.
  intros Ha Hb H. apply Z.bits_inj'. intros i Hi.
  destruct (Z.lt_ge_cases i 64); [by apply H|]. by rewrite !u64_bits_high.
Qed.

Lemma circularShift_lxor a b :
  is_u64 a -> is_u64 b -> circularShift (Z.lxor a b) = Z.lxor (circularShift a) (circularShift b).
Proof.
  intros Ha Hb. apply u64_ext; auto using circularShift_u64, u64_lxor. intros i Hi.
  rewrite Z.lxor_spec, !circularShift_spec by auto using u64_lxor. by rewrite Z.lxor_spec.
Qed.

Lemma circularShift_inj a b : is_u64 a -> is_u64 b -> circularShift a = circularShift b -> a = b.
Proof.
  intros Ha Hb E. apply u64_ext; [done..|]. intros i Hi.
  assert (forall h, is_u64 h -> Z.testbit h i = Z.testbit (circularShift h) (if decide (i = 0) then 63 else i - 1)) as Hbit.
  { intros h Hh. rewrite circularShift_spec by (done || case_decide; lia). repeat case_decide; try lia; f_equal; lia. }
  by rewrite (Hbit a), (Hbit b), E.
Qed.

Lemma shifts_u64 n h : is_u64 h -> is_u64 (shifts n h).
Proof. revert h. induction n; cbn; auto using circularShift_u64. Qed.

Lemma shifts_lxor n a b : is_u64 a -> is_u64 b -> shifts n (Z.lxor a b) = Z.lxor (shifts n a) (shifts n b).
Proof.
  revert a b. induction n as [|n IH]; intros a b Ha Hb; cbn; [done|].
  rewrite circularShift_lxor by done. auto using circularShift_u64.
Qed.

Lemma shifts_inj n a b : is_u64 a -> is_u64 b -> shifts n a = shifts n b -> a = b.
Proof.
  revert a b. induction n as [|n IH]; intros a b Ha Hb; cbn; [done|].
  intros H. apply IH in H; auto using circularShift_u64. by apply circularShift_inj.
Qed.

Lemma shifts_add n m h : shifts (n + m) h = shifts m (shifts n h).
Proof. revert h. induction n as [|n IH]; intros h; cbn; auto. Qed.

(** Bytes, and the words read from them. *)
Definition bytes_ok (bytes : list Z) : Prop := Forall (fun b => 0 <= b < 256) bytes.

Lemma lor_bound a b n : 0 <= n -> 0 <= a < 2 ^ n -> 0 <= b < 2 ^ n -> 0 <= Z.lor a b < 2 ^ n.
Proof.
  intros Hn Ha Hb. split; [apply Z.lor_nonneg; lia|].
  destruct (Z.eq_dec (Z.lor a b) 0) as [->|Hne]; [by apply Z.pow_pos_nonneg|].
  assert (0 <= Z.lor a b) by (apply Z.lor_nonneg; lia). apply Z.log2_lt_pow2; [lia|].
  rewrite Z.log2_lor by lia. apply Z.max_lub_lt.
  - destruct (Z.eq_dec a 0) as [->|]; [|apply Z.log2_lt_pow2; lia].
    cbn. destruct (Z.eq_dec n 0) as [->|]; [|lia]. exfalso. apply Hne. cbn in *. assert (b = 0) as -> by lia. done.
  - destruct (Z.eq_dec b 0) as [->|]; [|apply Z.log2_lt_pow2; lia].
    cbn. destruct (Z.eq_dec n 0) as [->|]; [|lia]. exfalso. apply Hne. cbn in *. assert (a = 0) as -> by lia. done.
Qed.

Lemma u64_lor a b : is_u64 a -> is_u64 b -> is_u64 (Z.lor a b).
Proof. unfold is_u64, two64. change 18446744073709551616 with (2 ^ 64). apply lor_bound. done. Qed.

Lemma load_le_bound bytes : bytes_ok bytes -> 0 <= load_le bytes < 2 ^ (8 * Z.of_nat (length bytes)).
Proof.
  induction 1 as [|b bs Hb _ IH]; [done|]. cbn [load_le length].
  replace (8 * Z.of_nat (S (length bs))) with (8 * Z.of_nat (length bs) + 8) by lia.
  apply lor_bound; [lia | |].
  - split; [lia|]. apply Z.lt_le_trans with (2 ^ 8); [lia|]. apply Z.pow_le_mono_r; lia.
  - rewrite Z.shiftl_mul_pow2, Z.pow_add_r by lia. nia.
Qed.

Lemma byte_u64 b : 0 <= b < 256 -> is_u64 b.
Proof. unfold is_u64, two64. lia. Qed.

Lemma tail_value_u64 bytes : bytes_ok bytes -> is_u64 (tail_value bytes).
Proof.
  unfold tail_value. assert (is_u64 0) as H0 by done. revert H0. generalize 0 as v.
  intros v Hv H. revert v Hv. induction H as [|b bs Hb _ IH]; intros v Hv; cbn; [done|].
  apply IH. apply u64_lor; [apply u64_range | by apply byte_u64].
Qed.

Lemma mix_u64 h w : is_u64 h -> is_u64 w -> is_u64 (mix h w).
Proof. intros. unfold mix. auto using circularShift_u64, u64_lxor. Qed.

Lemma mix_lxor h d w : is_u64 h -> is_u64 d -> is_u64 w -> mix (Z.lxor h d) w = Z.lxor (mix h w) (circularShift d).
Proof.
  intros Hh Hd Hw. unfold mix. rewrite <- circularShift_lxor by auto using u64_lxor. f_equal.
  by rewrite !Z.lxor_assoc, (Z.lxor_comm d w).
Qed.

(** Induction in steps of eight bytes. *)
Lemma words_ind (P : list Z -> Prop) :
  (forall bytes, (length bytes < 8)%nat -> P bytes) ->
  (forall b0 b1 b2 b3 b4 b5 b6 b7 rest, P rest -> P (b0 :: b1 :: b2 :: b3 :: b4 :: b5 :: b6 :: b7 :: rest)) ->
  forall bytes, P bytes.
Proof.
  intros Hshort Hlong bytes.
  induction bytes as [bytes IH] using (induction_ltof1 _ (@length Z)). unfold ltof in IH.
  destruct (Nat.lt_ge_cases (length bytes) 8) as [?|Hge]; [by apply Hshort|].
  do 8 (destruct bytes as [|? bytes]; [cbn in Hge; lia|]). apply Hlong, IH. cbn. lia.
Qed.

Lemma hash_loop_short h bytes : (length bytes < 8)%nat -> hash_loop h bytes = mix h (tail_value bytes).
Proof. intros. do 8 (destruct bytes as [|? bytes]; [done|]). cbn in *. lia. Qed.

Lemma block_shifts_short bytes : (length bytes < 8)%nat -> block_shifts bytes = 1%nat.
Proof. intros. do 8 (destruct bytes as [|? bytes]; [done|]). cbn in *. lia. Qed.

Lemma hash_loop_lxor bytes : bytes_ok bytes -> forall h d, is_u64 h -> is_u64 d ->
  is_u64 (hash_loop h bytes) /\
  hash_loop (Z.lxor h d) bytes = Z.lxor (hash_loop h bytes) (shifts (block_shifts bytes) d).
Proof.
  induction bytes as [bytes Hlen|b0 b1 b2 b3 b4 b5 b6 b7 rest IH] using words_ind; intros Hok h d Hh Hd.
  - rewrite !hash_loop_short, block_shifts_short by done. pose proof (tail_value_u64 _ Hok).
    split; [by apply mix_u64|]. cbn. by apply mix_lxor.
  - cbn [hash_loop block_shifts shifts].
    assert (bytes_ok [b0; b1; b2; b3; b4; b5; b6; b7] /\ bytes_ok rest) as [Hw Hrest].
    { change (b0 :: b1 :: b2 :: b3 :: b4 :: b5 :: b6 :: b7 :: rest)
        with ([b0; b1; b2; b3; b4; b5; b6; b7] ++ rest) in Hok. by apply Forall_app in Hok. }
    apply load_le_bound in Hw. change (is_u64 (load_le [b0; b1; b2; b3; b4; b5; b6; b7])) in Hw.
    set (w := load_le _) in *. rewrite mix_lxor by done. apply IH; auto using mix_u64, circularShift_u64.
Qed.

(** The number of shifts depends on the length only. *)
Lemma block_shifts_length bytes : block_shifts bytes = S (length bytes / 8).
Proof.
  induction bytes as [bytes Hlen|b0 b1 b2 b3 b4 b5 b6 b7 rest IH] using words_ind.
  - by rewrite block_shifts_short, Nat.div_small by done.
  - cbn [block_shifts length]. rewrite IH. f_equal.
    change (S (S (S (S (S (S (S (S (length rest)))))))))%nat with (8 + length rest)%nat.
    replace (8 + length rest)%nat with (length rest + 1 * 8)%nat by lia. rewrite Nat.div_add by lia. lia.
Qed.

(** ** Files and trees *)

Fixpoint file_shifts (n len : nat) : nat :=
  match n with
  | O => O
  | S n' => match len with O => O | _ => S (Nat.min 4096 len / 8) + file_shifts n' (len - 4096) end
  end.

Lemma hash_file_S n bytes h :
  hash_file (S n) bytes h =
  if decide (bytes = []) then h else hash_file n (drop 4096 bytes) (hash_loop h (take 4096 bytes)).
Proof. by destruct bytes. Qed.

Lemma file_shifts_S n len :
  file_shifts (S n) len =
  if decide (len = O) then O else (S (Nat.min 4096 len / 8) + file_shifts n (len - 4096))%nat.
Proof. by destruct len. Qed.

Lemma hash_file_lxor n bytes : bytes_ok bytes -> forall h d, is_u64 h -> is_u64 d ->
  is_u64 (hash_file n bytes h) /\
  hash_file n bytes (Z.lxor h d) = Z.lxor (hash_file n bytes h) (shifts (file_shifts n (length bytes)) d).
Proof.
  revert bytes. induction n as [|n IH]; intros bytes Hok h d Hh Hd; [done|].
  rewrite !hash_file_S, file_shifts_S. destruct bytes as [|b bs] eqn:E; [done|].
  rewrite !decide_False by done. rewrite <- E in *. clear E b bs.
  destruct (hash_loop_lxor (take 4096 bytes) (Forall_take _ _ _ Hok) h d Hh Hd) as [Hu ->].
  rewrite block_shifts_length, length_take, shifts_add.
  destruct (IH (drop 4096 bytes) (Forall_drop _ _ _ Hok) (hash_loop h (take 4096 bytes))
    (shifts (S (Nat.min 4096 (length bytes) / 8)) d)) as [Hu' ->]; [done | by apply shifts_u64|].
  by rewrite length_drop.
Qed.

(** A transformation of the codes of all replicators by one affine map, when it returns. *)
Definition affine (F : list Z -> Outcome (list Z)) (n : nat) (X : Z) : Prop :=
  is_u64 X /\ forall codes r, Forall is_u64 codes -> F codes = Ret r -> r = map (fun h => Z.lxor X (shifts n h)) codes.

Lemma affine_id : affine Ret 0 0.
Proof. split; [done|]. intros codes r _ [= <-]. by rewrite map_id. Qed.

Lemma affine_stop k : affine (fun codes => log_err (k codes)) 0 0.
Proof. split; [done|]. intros codes r _ [=]. Qed.

Lemma affine_compose F G n m X Y :
  affine F n X -> affine G m Y -> affine (fun codes => F codes ≫= G) (n + m) (Z.lxor Y (shifts m X)).
Proof.
  intros [HX HF] [HY HG]. split; [by apply u64_lxor; [|apply shifts_u64]|].
  intros codes r Hc (r1 & E1 & E2)%bind_ret_inv. apply HF in E1 as ->; [|done]. apply HG in E2 as ->.
  - rewrite map_map. apply map_ext_in. intros h Hin%list_elem_of_In.
    rewrite Forall_forall in Hc. rewrite shifts_add, shifts_lxor, Z.lxor_assoc; auto using shifts_u64.
  - apply Forall_map. eapply Forall_impl; [exact Hc|]. cbn. auto using u64_lxor, shifts_u64.
Qed.

Section Tree.
  Variables (content : Z -> option (list Z)) (sizes : Z -> option nat).
  Hypothesis sizes_of : forall h, length <$> content h = sizes h.
  Hypothesis content_ok : forall h bytes, content h = Some bytes -> bytes_ok bytes.

Lemma affine_file h bytes :
  content h = Some bytes ->
  exists X, affine (fun codes => Ret (map (hash_file (length bytes) bytes) codes)) (file_shifts (length bytes) (length bytes)) X.
Proof.
  intros Hb%content_ok. exists (hash_file (length bytes) bytes 0).
  destruct (hash_file_lxor (length bytes) bytes Hb 0 0) as [HX _]; [done..|]. split; [done|].
  intros codes r Hc [= <-]. apply map_ext_in. intros x Hin%list_elem_of_In. rewrite Forall_forall in Hc.
  destruct (hash_file_lxor (length bytes) bytes Hb 0 x) as [_ <-]; [done | auto |]. by rewrite Z.lxor_0_l.
Qed.

(** The children of a folder, and the number of shifts they cause. *)
Fixpoint calc_children (cs : list (string * (Folder + File))) (codes : list Z) : Outcome (list Z) :=
  match cs with
  | [] => Ret codes
  | (_, inl sub) :: cs' => calculateVerifyCodes content sub codes ≫= calc_children cs'
  | (_, inr f) :: cs' =>
      match content (file_hash f) with
      | None => log_err (Ret codes)
      | Some bytes => Ret (map (hash_file (length bytes) bytes) codes) ≫= calc_children cs'
      end
  end.

Lemma calculate_children n cs b i m s codes :
  calculateVerifyCodes content (MkFolder n cs b i m s) codes = calc_children cs codes.
Proof.
  cbn. revert codes. induction cs as [|[k [sub|f]] cs IH]; intros codes; cbn; [done | |].
  - destruct (calculateVerifyCodes content sub codes); cbn; [apply IH|done].
  - destruct (content (file_hash f)); [apply IH | done].
Qed.

End Tree.

Fixpoint tree_shifts (sizes : Z -> option nat) (fd : Folder) : nat :=
  match fd with
  | MkFolder _ cs _ _ _ _ =>
      (fix go (cs : list (string * (Folder + File))) : nat :=
         match cs with
         | [] => O
         | (_, inl sub) :: cs' => (tree_shifts sizes sub + go cs')%nat
         | (_, inr f) :: cs' =>
             match sizes (file_hash f) with None => O | Some len => (file_shifts len len + go cs')%nat end
         end) cs
  end.

Lemma calculate_affine content sizes fd :
  (forall h, length <$> content h = sizes h) -> (forall h bytes, content h = Some bytes -> bytes_ok bytes) ->
  exists X, affine (calculateVerifyCodes content fd) (tree_shifts sizes fd) X.
Proof.
  intros Hs Hok. induction fd as [n cs b i m s IH] using Folder_nested_ind.
  assert (exists X, affine (calc_children content cs) (tree_shifts sizes (MkFolder n cs b i m s)) X) as [X [HX H]].
  { cbn. induction IH as [|[k [sub|f]] cs Hc _ IHcs]; [by exists 0; apply affine_id | |]; destruct IHcs as [Y HY].
    - destruct Hc as [X HX]. eexists. exact (affine_compose _ _ _ _ _ _ HX HY).
    - cbn. specialize (Hs (file_hash f)). destruct (content (file_hash f)) as [bytes|] eqn:E; rewrite <- Hs; cbn.
      + destruct (affine_file content Hok _ _ E) as [X HX]. eexists. exact (affine_compose _ _ _ _ _ _ HX HY).
      + exists 0. exact (affine_stop (fun codes => Ret codes)). }
  exists X. split; [done|]. intros codes r Hc. rewrite calculate_children. by apply H.
Qed.

Lemma key_bytes_ok n k : bytes_ok (key_bytes n k).
Proof.
  induction n as [|n IH]; cbn; constructor; [|done].
  change 255 with (Z.ones 8). rewrite Z.land_ones by lia. apply Z.mod_pos_bound. done.
Qed.

Lemma initCodes_ok tx replicators :
  exists inits, initCodes tx replicators = Ret inits /\ Forall is_u64 inits /\ length inits = length replicators.
Proof.
  induction replicators as [|r rs (inits & IH & Hf & Hl)]; [by exists []|].
  cbn [initCodes]. rewrite IH. unfold initCode, calcHash64. cbn [key_bytes bool_decide negb guard_assert].
  eexists. split; [reflexivity|]. split; [|cbn; by rewrite Hl]. constructor; [|done].
  apply (hash_loop_lxor (key_bytes 32 r) (key_bytes_ok 32 r) _ 0); [|done].
  apply (hash_loop_lxor (key_bytes 32 tx) (key_bytes_ok 32 tx) 0 0); done.
Qed.

(** The verification code of a replicator gives those of all the others.
    For a tree and the sizes of its files there is a number of circular shifts
    such that, whatever the contents, the codes of two replicators differ by the
    shifted difference of their start values, which are public.  So codes
    coincide only when start values do, but a code received from another
    replicator is enough to compute one's own without the files. *)
Lemma code_from_another sizes fsTree tx replicators :
  exists inits n, initCodes tx replicators = Ret inits /\
  forall content codes, (forall h, length <$> content h = sizes h) ->
  (forall h bytes, content h = Some bytes -> bytes_ok bytes) ->
  verify content tx replicators fsTree = Ret codes -> length codes = length replicators /\
    forall i j ci cj ki kj, codes !! i = Some ci -> codes !! j = Some cj ->
      inits !! i = Some ki -> inits !! j = Some kj ->
      cj = Z.lxor ci (shifts n (Z.lxor ki kj)) /\ (ci = cj <-> ki = kj).
Proof.
  destruct (initCodes_ok tx replicators) as (inits & Hin & Hf & Hl).
  exists inits, (tree_shifts sizes fsTree). split; [done|]. intros content codes Hs Hok.
  destruct (calculate_affine content sizes fsTree Hs Hok) as (X & HX & Hcalc).
  unfold verify. rewrite Hin. cbn. intros ->%Hcalc; [|done].
  split; [by rewrite length_map|]. intros i j ci cj ki kj Hi Hj Hki Hkj.
  change (map ?f ?l) with (f <$> l) in *. rewrite list_lookup_fmap in Hi, Hj. rewrite Hki in Hi. rewrite Hkj in Hj.
  cbn in Hi, Hj. injection Hi as <-. injection Hj as <-.
  rewrite Forall_lookup in Hf. pose proof (Hf _ _ Hki) as Hui. pose proof (Hf _ _ Hkj) as Huj. split.
  - rewrite shifts_lxor by done. rewrite Z.lxor_assoc. f_equal.
    by rewrite <- Z.lxor_assoc, Z.lxor_nilpotent, Z.lxor_0_l.
  - split; [|congruence]. intros E. apply (shifts_inj (tree_shifts sizes fsTree)); [done..|].
    assert (forall y, Z.lxor X (Z.lxor X y) = y) as Hx by (intros y; by rewrite <- Z.lxor_assoc, Z.lxor_nilpotent).
    by rewrite <- (Hx (shifts _ ki)), E, Hx.
Qed.

(** ** The protocol *)

Inductive VerifyEvent :=
  | CodesCompleted (ms : Z) (codes : list Z)
  | CodeReceived (ms : Z) (info : VerificationCodeInfo)
  | VerifyOpinionReceived (info : VerifyApprovalTxInfo)
  | CodeTimer
  | VerifyOpinionTimer
  | ShareCodeTimer
  | ShareVerifyOpinionTimer
  | CancelVerification.

Section Protocol.
  Context (request : VerificationRequest) (replicatorKey driveKey : Z) (session : bool) (verifyCodeTimerDelay : Z).

(** One event.  The drive releases a cancelled task; the thread posts the codes
    once; a timer that is not armed does not expire. *)
Definition verify_step (ev : VerifyEvent) (t : VerificationTask) : Outcome (list VerifyOutput * VerificationTask) :=
  if vt_mustBeInterrupted t then Ret ([], t)
  else
    match ev with
    | CodesCompleted ms codes =>
        if vt_myVerifyCodesCalculated t then Ret ([], t)
        else verificationCodesCompleted request replicatorKey driveKey session verifyCodeTimerDelay ms codes t
    | CodeReceived ms info =>
        '(_, out, t') ← processedVerificationCode request replicatorKey driveKey session verifyCodeTimerDelay ms info t;
        Ret (out, t')
    | VerifyOpinionReceived info =>
        '(_, t') ← processedVerificationOpinion request session info t; Ret ([], t')
    | CodeTimer =>
        match vt_verifyCodeTimer t with
        | Pending => verifyCodeTimerExpired request replicatorKey driveKey session (set_codeTimer Fired t)
        | _ => Ret ([], t)
        end
    | VerifyOpinionTimer =>
        match vt_verifyOpinionTimer t with
        | Pending => verifyOpinionTimerExpired (set_opinionTimer Fired t)
        | _ => Ret ([], t)
        end
    | ShareCodeTimer =>
        match vt_shareVerifyCodeTimer t with
        | Pending => shareVerifyCode request replicatorKey session t
        | _ => Ret ([], t)
        end
    | ShareVerifyOpinionTimer =>
        match vt_shareVerifyOpinionTimer t with
        | Pending => shareVerifyOpinion request replicatorKey session t
        | _ => Ret ([], t)
        end
    | CancelVerification => Ret ([], terminate t)
    end.

Fixpoint verify_run (evs : list VerifyEvent) (t : VerificationTask) : Outcome (list VerifyOutput * VerificationTask) :=
  match evs with
  | [] => Ret ([], t)
  | ev :: evs' =>
      '(out1, t1) ← verify_step ev t;
      '(out2, t2) ← verify_run evs' t1;
      Ret (out1 ++ out2, t2)
  end.

Notation n := (length (vr_replicators request)).

(** What the callers guarantee: the messages carry one opinion, the thread
    computes one code per replicator. *)
Definition verify_event_ok (ev : VerifyEvent) : Prop :=
  match ev with
  | VerifyOpinionReceived info => exists o, va_opinions info = [o]
  | CodesCompleted _ codes => length codes = n
  | _ => True
  end.

(** The collected opinions: of the request, by different members of the shard,
    each with one value per replicator. *)
Definition collected_ok (tx : VerifyApprovalTxInfo) : Prop :=
  va_tx tx = vr_tx request /\ va_shardId tx = vr_shardId request /\
  NoDup (map vo_publicKey (va_opinions tx)) /\
  Forall (fun o => vo_publicKey o ∈ vr_replicators request /\ length (vo_opinions o) = n) (va_opinions tx).

Definition enough (tx : VerifyApprovalTxInfo) : Prop := (n * 2 / 3 < length (va_opinions tx))%nat.
Definition mine_in (tx : VerifyApprovalTxInfo) : Prop := replicatorKey ∈ map vo_publicKey (va_opinions tx).

Record verify_inv (t : VerificationTask) : Prop := {
  vi_tx : forall tx, vt_approvalTxInfo t = Some tx -> collected_ok tx;
  vi_mine : is_Some (vt_myOpinion t) -> vt_myVerifyCodesCalculated t = true /\
    vt_verifyCodeTimer t <> Pending /\ exists tx, vt_approvalTxInfo t = Some tx /\ mine_in tx;
  vi_nomine : vt_myOpinion t = None -> vt_verifyOpinionTimer t = NoTimer /\ vt_shareVerifyOpinionTimer t <> Pending;
  vi_calculated : vt_myVerifyCodesCalculated t = true ->
    length (vt_verificationCodes t) = n /\ is_Some (vt_myCodeInfo t);
  vi_early : vt_myVerifyCodesCalculated t = false ->
    vt_verifyCodeTimer t <> Pending /\ vt_shareVerifyCodeTimer t <> Pending;
  vi_timer : vt_mustBeInterrupted t = false -> vt_verifyOpinionTimer t <> Fired -> vt_verifyApproveTxSent t = false;
  vi_pending : vt_verifyOpinionTimer t = Pending -> exists tx, vt_approvalTxInfo t = Some tx /\ enough tx }.

(** The effect of an opinion message: the collected opinions [A] and the timer [T]. *)
Record opinion_effect (info : VerifyApprovalTxInfo) (o : VerifyOpinion) (t : VerificationTask)
    (ok : bool) (A : option VerifyApprovalTxInfo) (T : TimerState) : Prop := {
  oe_collected : forall tx, A = Some tx -> collected_ok tx;
  oe_timer : T = vt_verifyOpinionTimer t \/
    T = Pending /\ vt_verifyOpinionTimer t = NoTimer /\ is_Some (vt_myOpinion t) /\
    exists tx, A = Some tx /\ enough tx;
  oe_grows : forall tx, vt_approvalTxInfo t = Some tx ->
    exists tx' os, A = Some tx' /\ va_opinions tx' = va_opinions tx ++ os;
  oe_known : va_tx info = vr_tx request -> ok = true;
  oe_added : va_tx info = vr_tx request -> va_shardId info = vr_shardId request ->
    vo_publicKey o ∈ vr_replicators request -> length (vo_opinions o) = n ->
    exists tx, A = Some tx /\ vo_publicKey o ∈ map vo_publicKey (va_opinions tx) }.

Definition with_opinions (A : option VerifyApprovalTxInfo) (T : TimerState) (t : VerificationTask) : VerificationTask :=
  set_opinionTimer T (set_approvalTxInfo A t).

Lemma effect_none info o t ok :
  (forall tx, vt_approvalTxInfo t = Some tx -> collected_ok tx) ->
  (va_tx info = vr_tx request -> ok = true) ->
  (va_tx info = vr_tx request -> va_shardId info = vr_shardId request ->
   vo_publicKey o ∈ vr_replicators request -> length (vo_opinions o) = n -> False) ->
  opinion_effect info o t ok (vt_approvalTxInfo t) (vt_verifyOpinionTimer t).
Proof.
  intros Hc Hk Hno. split; auto; [|intros; by exfalso; auto].
  intros tx ->. exists tx, []. by rewrite app_nil_r.
Qed.

(** The first opinion is stored, and then found to be a duplicate of itself. *)
Lemma effect_first info o t :
  va_opinions info = [o] -> vt_approvalTxInfo t = None -> collected_ok info ->
  opinion_effect info o t true (Some info) (vt_verifyOpinionTimer t).
Proof.
  intros Ho Hn Hok. split; auto.
  - by intros tx [= <-].
  - intros tx E. congruence.
  - intros _ _ _ _. exists info. split; [done|]. rewrite Ho. by left.
Qed.

Lemma effect_duplicate info o t tx :
  vt_approvalTxInfo t = Some tx -> collected_ok tx -> vo_publicKey o ∈ map vo_publicKey (va_opinions tx) ->
  opinion_effect info o t true (Some tx) (vt_verifyOpinionTimer t).
Proof.
  intros Ht Hok Hin. split; auto.
  - by intros tx' [= <-].
  - rewrite Ht. intros tx' [= <-]. exists tx, []. by rewrite app_nil_r.
  - intros _ _ _ _. by exists tx.
Qed.

Lemma effect_added info o t tx T :
  vt_approvalTxInfo t = Some tx -> collected_ok tx -> vo_publicKey o ∉ map vo_publicKey (va_opinions tx) ->
  vo_publicKey o ∈ vr_replicators request -> length (vo_opinions o) = n ->
  let tx' := mkVerifyApprovalTxInfo (va_tx tx) (va_driveKey tx) (va_shardId tx) (va_opinions tx ++ [o]) in
  (T = vt_verifyOpinionTimer t \/
   T = Pending /\ vt_verifyOpinionTimer t = NoTimer /\ is_Some (vt_myOpinion t) /\ enough tx') ->
  opinion_effect info o t true (Some tx') T.
Proof.
  intros Ht (H1 & H2 & H3 & H4) Hnew Hin Hl tx' HT. split; auto.
  - intros ? [= <-]. unfold tx'. split_and!; cbn; auto.
    + rewrite map_app. cbn. apply NoDup_app. split; [done|]. split; [|apply NoDup_singleton].
      intros k Hk ->%list_elem_of_singleton. done.
    + apply Forall_app. split; [done|]. by repeat constructor.
  - destruct HT as [->|(-> & ? & ? & ?)]; [by left|]. right. split_and!; auto. by exists tx'.
  - rewrite Ht. intros ? [= <-]. by exists tx', [o].
  - intros _ _ _ _. exists tx'. split; [done|]. unfold tx'. cbn. rewrite map_app.
    apply elem_of_app. right. by left.
Qed.

Lemma with_opinions_id t : with_opinions (vt_approvalTxInfo t) (vt_verifyOpinionTimer t) t = t.
Proof. by destruct t. Qed.

Lemma process_spec info o t :
  va_opinions info = [o] -> (forall tx, vt_approvalTxInfo t = Some tx -> collected_ok tx) ->
  exists ok A T, processedVerificationOpinion request session info t = Ret (ok, with_opinions A T t) /\
    opinion_effect info o t ok A T.
Proof.
  intros Ho Hok. unfold processedVerificationOpinion. rewrite Ho.
  assert (forall ok, opinion_effect info o t ok (vt_approvalTxInfo t) (vt_verifyOpinionTimer t) ->
    exists ok' A T, Ret (ok, t) = Ret (ok', with_opinions A T t) /\ opinion_effect info o t ok' A T) as Hsame.
  { intros ok H. exists ok, (vt_approvalTxInfo t), (vt_verifyOpinionTimer t). by rewrite with_opinions_id. }
  case_decide as Htx; [apply Hsame, effect_none; [done | congruence | congruence]|].
  case_decide as Hsh; [apply Hsame, effect_none; [done | done | congruence]|].
  case_decide as Hkey; [apply Hsame, effect_none; done|].
  case_decide as Hlen; [apply Hsame, effect_none; done|]. clear Hsame.
  try apply dec_stable in Htx. try apply dec_stable in Hsh. try apply dec_stable in Hkey. try apply dec_stable in Hlen.
  destruct (vt_approvalTxInfo t) as [tx|] eqn:Ht.
  - rewrite Ht. specialize (Hok tx eq_refl). rewrite bool_decide_true by (destruct Hok; congruence). cbn [guard_assert].
    case_decide as Hdup.
    + exists true, (Some tx), (vt_verifyOpinionTimer t). split; [|by apply effect_duplicate].
      rewrite <- Ht. by rewrite with_opinions_id.
    + set (tx' := mkVerifyApprovalTxInfo _ _ _ _).
      destruct (_ && _) eqn:Hen; cbn [vt_verifyOpinionTimer set_approvalTxInfo].
      * apply andb_prop in Hen as [Hm%bool_decide_eq_true Hn%Nat.ltb_lt].
        destruct (negb _ && session) eqn:HT.
        -- exists true, (Some tx'), Pending. split; [done|]. apply effect_added; auto. right.
           apply andb_prop in HT as [HT _]. by destruct (vt_verifyOpinionTimer t).
        -- exists true, (Some tx'), (vt_verifyOpinionTimer t). split; [by destruct t|]. apply effect_added; auto.
      * exists true, (Some tx'), (vt_verifyOpinionTimer t). split; [by destruct t|]. apply effect_added; auto.
  - cbn [vt_approvalTxInfo set_approvalTxInfo]. rewrite bool_decide_true by done. cbn [guard_assert].
    rewrite decide_True by (rewrite Ho; by left).
    exists true, (Some info), (vt_verifyOpinionTimer t). split; [by destruct t|]. apply effect_first; [done..|].
    split_and!; [done | done | rewrite Ho; apply NoDup_singleton | rewrite Ho; by repeat constructor].
Qed.

Hypothesis own_key : replicatorKey ∈ vr_replicators request.

Lemma collected_grows tx tx' os : va_opinions tx' = va_opinions tx ++ os ->
  (mine_in tx -> mine_in tx') /\ (enough tx -> enough tx').
Proof.
  unfold mine_in, enough. intros ->. rewrite map_app, length_app. split; [|lia].
  intros H. apply elem_of_app. by left.
Qed.

Lemma inv_with_opinions info o t ok A T :
  verify_inv t -> opinion_effect info o t ok A T -> verify_inv (with_opinions A T t).
Proof.
  intros [Htx Hm Hnm Hc He Ht Hp] [Ec ET Eg Ek Ea]. unfold with_opinions.
  split; cbn; auto.
  - intros Hs. destruct (Hm Hs) as (? & ? & tx & Etx & Hmine). split_and!; [done..|].
    destruct (Eg tx Etx) as (tx' & os & -> & Hos). exists tx'. split; [done|]. by apply (collected_grows tx tx' os).
  - intros Hn. destruct (Hnm Hn) as [HN ?]. split; [|done]. destruct ET as [->|(_ & _ & [? E] & _)]; congruence.
  - intros HI HT. destruct ET as [->|(_ & E & _)]; [auto|]. apply Ht; [done|]. by rewrite E.
  - intros HP. destruct ET as [->|(_ & _ & _ & tx & -> & En)]; [|eauto].
    destruct (Hp HP) as (tx & Etx & En). destruct (Eg tx Etx) as (tx' & os & -> & Hos).
    exists tx'. split; [done|]. by apply (collected_grows tx tx' os).
Qed.

Lemma compareCodes_total received keys codes :
  length codes = length keys -> exists os, compareCodes replicatorKey received keys codes = Ret os /\ length os = length keys.
Proof.
  revert codes. induction keys as [|k keys IH]; intros codes Hl; [by exists []|].
  destruct codes as [|c codes]; [done|]. injection Hl as Hl. destruct (IH codes Hl) as (os & Hos & Hlen).
  cbn. case_decide; [|destruct (received !! k)]; cbn; rewrite Hos; cbn; eexists; (split; [done|]); cbn; by rewrite Hlen.
Qed.

Definition is_verification (o : VerifyOutput) : bool :=
  match o with VerificationTransactionIsReady _ => true | _ => false end.
Definition ready_txs (out : list VerifyOutput) : list VerifyOutput := List.filter is_verification out.

Lemma ready_codes info l : ready_txs (map (fun k => SendCode k info) l) = [].
Proof. by induction l. Qed.
Lemma ready_opinions info l : ready_txs (map (fun k => SendVerifyOpinion k info) l) = [].
Proof. by induction l. Qed.
Lemma ready_app out1 out2 : ready_txs (out1 ++ out2) = ready_txs out1 ++ ready_txs out2.
Proof. apply List.filter_app. Qed.

(** A handler that ends, keeps the invariant, sends no transaction, and leaves
    an expired timer expired. *)
Definition quiet (r : Outcome (list VerifyOutput * VerificationTask)) (t : VerificationTask) : Prop :=
  exists out t', r = Ret (out, t') /\ verify_inv t' /\ ready_txs out = [] /\
    (vt_verifyOpinionTimer t = Fired -> vt_verifyOpinionTimer t' = Fired) /\
    vt_mustBeInterrupted t' = vt_mustBeInterrupted t.

Lemma code_expired_quiet t :
  verify_inv t -> vt_mustBeInterrupted t = false -> vt_myVerifyCodesCalculated t = true ->
  vt_myOpinion t = None -> vt_verifyCodeTimer t <> Pending ->
  quiet (verifyCodeTimerExpired request replicatorKey driveKey session t) t.
Proof.
  intros [Htx Hm Hnm Hc He Ht Hp] Hi Hcal Hno Hct. destruct (Hnm Hno) as [HT Hsh]. destruct (Hc Hcal) as [Hlen Hinfo].
  unfold quiet, verifyCodeTimerExpired. rewrite Hi, Hcal, Ht by (done || by rewrite HT). cbn [negb guard_assert].
  destruct (compareCodes_total (vt_receivedCodes t) _ _ Hlen) as (os & -> & Hos).
  cbn [mbind outcome_bind]. set (info := mkVerifyApprovalTxInfo _ _ _ _).
  unfold shareVerifyOpinion. cbn [vt_myOpinion set_myVerifyOpinion].
  set (t1 := if session then _ else _). cbn [mbind outcome_bind].
  assert (vt_approvalTxInfo t1 = vt_approvalTxInfo t /\ vt_myOpinion t1 = Some info /\
    vt_verifyOpinionTimer t1 = NoTimer /\ vt_myVerifyCodesCalculated t1 = true /\ vt_verifyCodeTimer t1 <> Pending /\
    vt_verificationCodes t1 = vt_verificationCodes t /\ vt_myCodeInfo t1 = vt_myCodeInfo t /\
    vt_verifyApproveTxSent t1 = false /\ vt_mustBeInterrupted t1 = vt_mustBeInterrupted t) as
    (E1 & E2 & E3 & E4 & E5 & E6 & E7 & E8 & E9).
  { unfold t1. rewrite <- HT. destruct session; cbn; split_and!; auto; apply Ht; (done || by rewrite HT). }
  destruct (process_spec info (mkVerifyOpinion replicatorKey os) t1) as (ok & A & T & -> & [Ec ET Eg Ek Ea]); [done| by rewrite E1 |].
  cbn [mbind outcome_bind]. rewrite Ek by done. cbn [guard_assert].
  destruct Ea as (tx & EA & Hin); [done..|].
  eexists _, (with_opinions A T t1). split; [done|]. split_and!.
  - split; cbn; rewrite ?E2, ?E4, ?E6, ?E7; auto; try done.
    + intros _. split_and!; [done | done |]. exists tx. by rewrite EA.
    + intros ->. destruct ET as [ET|(_ & _ & _ & Hen)]; [congruence | done].
  - apply ready_opinions.
  - congruence.
  - cbn. congruence.
Qed.

Lemma check_quiet ms t :
  verify_inv t -> vt_mustBeInterrupted t = false -> vt_myVerifyCodesCalculated t = true ->
  quiet (checkVerifyCodeNumber request replicatorKey driveKey session verifyCodeTimerDelay ms t) t.
Proof.
  intros Hinv Hi Hcal. pose proof Hinv as [Htx Hm Hnm Hc He Ht Hp].
  unfold checkVerifyCodeNumber. rewrite Hcal. cbn [guard_assert].
  destruct (vt_myOpinion t) eqn:Hmine; [by exists [], t|].
  case_decide.
  - apply (code_expired_quiet (set_codeTimer NoTimer t)); cbn; try done.
    split; cbn; auto; [rewrite Hmine; by intros [? [=]] | congruence].
  - destruct (vt_codeTimerRun t); cbn [negb]; [by exists [], t|].
    destruct session; (do 2 eexists; split; [done|]; split_and!; [|done..]); split; cbn; auto;
      try congruence; rewrite ?Hmine; by intros [? [=]].
Qed.

(** ** Every event *)

Lemma step_codes ms codes t :
  length codes = n -> verify_inv t -> vt_mustBeInterrupted t = false -> vt_myVerifyCodesCalculated t = false ->
  quiet (verificationCodesCompleted request replicatorKey driveKey session verifyCodeTimerDelay ms codes t) t.
Proof.
  intros Hl [Htx Hm Hnm Hc He Ht Hp] Hi Hcal. unfold verificationCodesCompleted. rewrite Hi.
  assert (exists code, code_at replicatorKey (vr_replicators request) codes = Some code) as [code ->].
  { clear -own_key Hl. revert codes Hl. induction (vr_replicators request) as [|k keys IH]; intros codes Hl.
    - by apply not_elem_of_nil in own_key.
    - destruct codes as [|c codes]; [done|]. injection Hl as Hl. cbn. case_decide; [by eexists|].
      apply IH; [|done]. by apply elem_of_cons in own_key as [->|?]. }
  assert (vt_myOpinion t = None) as Hno.
  { destruct (vt_myOpinion t) eqn:E; [|done]. destruct Hm as [? _]; [by eexists | congruence]. }
  destruct (He Hcal) as [Hct Hsct]. unfold shareVerifyCode. cbn [vt_myCodeInfo set_myCodeInfo mbind outcome_bind].
  set (t1 := if session then _ else _).
  assert (verify_inv t1 /\ vt_mustBeInterrupted t1 = false /\ vt_myVerifyCodesCalculated t1 = true /\
    vt_verifyOpinionTimer t1 = vt_verifyOpinionTimer t) as (Hinv & Hi1 & Hc1 & HT1).
  { unfold t1. destruct session; (split; [|by split_and!]); split; cbn; auto; rewrite ?Hno;
      try (by intros [? [=]]); try done; intros _; (split; [done | by eexists]). }
  destruct (check_quiet ms t1 Hinv Hi1 Hc1) as (out & t2 & -> & Hinv2 & Hr & HT & Hi2).
  do 2 eexists. split; [done|]. split_and!; [done | | intros E; apply HT; congruence | congruence].
  rewrite ready_app, ready_codes. exact Hr.
Qed.

Lemma step_code ms info t :
  verify_inv t -> vt_mustBeInterrupted t = false ->
  quiet ('(_, out, t') ← processedVerificationCode request replicatorKey driveKey session verifyCodeTimerDelay ms info t;
         Ret (out, t')) t.
Proof.
  intros Hinv Hi. unfold processedVerificationCode.
  case_decide; [by exists [], t|]. case_decide; [by exists [], t|].
  destruct (vt_receivedCodes t !! vc_replicatorKey info); [by exists [], t|].
  set (t1 := set_receivedCodes _ t).
  assert (verify_inv t1) as Hinv1 by (destruct Hinv; by split).
  destruct (vt_myVerifyCodesCalculated t1) eqn:Hc; [|by exists [], t1].
  destruct (check_quiet ms t1 Hinv1 Hi Hc) as (out & t2 & -> & Hq). exists out, t2. split; [done|]. exact Hq.
Qed.

(** What one event does: it never faults, keeps the invariant, and sends a
    transaction only at the first expiry of the opinion timer. *)
Definition tx_ok (o : VerifyOutput) : Prop :=
  exists tx, o = VerificationTransactionIsReady tx /\ collected_ok tx /\ enough tx /\ mine_in tx.

Definition budget (t : VerificationTask) : nat :=
  if vt_mustBeInterrupted t then 0 else match vt_verifyOpinionTimer t with Fired => 0 | _ => 1 end.

Lemma quiet_budget r t :
  quiet r t -> exists out t', r = Ret (out, t') /\ verify_inv t' /\ Forall tx_ok (ready_txs out) /\
    (length (ready_txs out) + budget t' <= budget t)%nat.
Proof.
  intros (out & t' & -> & Hinv & Hr & HT & Hi). exists out, t'. split; [done|]. split; [done|].
  rewrite Hr. split; [constructor|]. unfold budget. rewrite Hi. cbn. destruct (vt_mustBeInterrupted t); [lia|].
  destruct (vt_verifyOpinionTimer t) eqn:E; [| |by rewrite HT]; destruct (vt_verifyOpinionTimer t'); lia.
Qed.

Lemma quiet_same t : verify_inv t -> quiet (Ret ([], t)) t.
Proof. intros H. by exists [], t. Qed.

Lemma opinion_timer_step t :
  verify_inv t -> vt_mustBeInterrupted t = false -> vt_verifyOpinionTimer t = Pending ->
  exists out t', verifyOpinionTimerExpired (set_opinionTimer Fired t) = Ret (out, t') /\ verify_inv t' /\
    Forall tx_ok (ready_txs out) /\ (length (ready_txs out) + budget t' <= 1)%nat.
Proof.
  intros [Htx Hm Hnm Hc He Ht Hp] Hi HT. unfold verifyOpinionTimerExpired. cbn. rewrite Hi. cbn.
  destruct (Hp HT) as (tx & Etx & Hen). rewrite Etx. do 2 eexists. split; [done|].
  assert (is_Some (vt_myOpinion t)) as Hmine.
  { destruct (vt_myOpinion t) eqn:E; [by eexists|]. destruct (Hnm eq_refl). congruence. }
  destruct (Hm Hmine) as (Hcal & Hct & tx' & Etx' & Hin). rewrite Etx in Etx'. injection Etx' as <-.
  split; [|split].
  - split; cbn; auto; try done. intros E. rewrite E in Hmine. by destruct Hmine.
  - repeat constructor. exists tx. by auto.
  - unfold budget. cbn. rewrite Hi. done.
Qed.

Lemma verify_step_ok ev t :
  verify_event_ok ev -> verify_inv t ->
  exists out t', verify_step ev t = Ret (out, t') /\ verify_inv t' /\ Forall tx_ok (ready_txs out) /\
    (length (ready_txs out) + budget t' <= budget t)%nat.
Proof.
  intros Hev Hinv. unfold verify_step. destruct (vt_mustBeInterrupted t) eqn:Hi; [by apply quiet_budget, quiet_same|].
  pose proof Hinv as [Htx Hm Hnm Hc He Ht Hp].
  destruct ev.
  - destruct (vt_myVerifyCodesCalculated t) eqn:Hcal; [by apply quiet_budget, quiet_same|].
    by apply quiet_budget, step_codes.
  - by apply quiet_budget, step_code.
  - destruct Hev as [o Ho]. destruct (process_spec info o t Ho Htx) as (ok & A & T & -> & Eff).
    apply quiet_budget. exists [], (with_opinions A T t). split; [done|]. split_and!; try done.
    + by eapply inv_with_opinions.
    + intros E. cbn. destruct (oe_timer _ _ _ _ _ _ Eff) as [->|(_ & ? & _)]; congruence.
  - destruct (vt_verifyCodeTimer t) eqn:Hct; try (by apply quiet_budget, quiet_same).
    apply quiet_budget. apply (code_expired_quiet (set_codeTimer Fired t)); cbn; try done.
    + split; cbn; auto; try done. intros Hs. destruct (Hm Hs) as (? & ? & ?). by split_and!.
      intros E. by destruct (He E).
    + destruct (vt_myVerifyCodesCalculated t) eqn:E; [done|]. by destruct (He eq_refl).
    + destruct (vt_myOpinion t) eqn:E; [|done]. destruct Hm as (_ & ? & _); [by eexists | done].
  - destruct (vt_verifyOpinionTimer t) eqn:HT; try (by apply quiet_budget, quiet_same).
    replace (budget t) with 1%nat by (unfold budget; by rewrite Hi, HT). by apply opinion_timer_step.
  - destruct (vt_shareVerifyCodeTimer t) eqn:Hst; try (by apply quiet_budget, quiet_same).
    unfold shareVerifyCode. destruct (vt_myCodeInfo t) as [info|] eqn:Hinfo.
    + apply quiet_budget. do 2 eexists. split; [done|]. rewrite ready_codes.
      destruct session; split_and!; try done. split; cbn; rewrite ?Hinfo; auto.
    + exfalso. destruct (vt_myVerifyCodesCalculated t) eqn:E; [|by destruct (He eq_refl)].
      destruct (Hc eq_refl) as [_ [? [=]]].
  - destruct (vt_shareVerifyOpinionTimer t) eqn:Hst; try (by apply quiet_budget, quiet_same).
    unfold shareVerifyOpinion. destruct (vt_myOpinion t) as [info|] eqn:Hinfo; [|by destruct (Hnm eq_refl)].
    apply quiet_budget. do 2 eexists. split; [done|]. rewrite ready_opinions.
    destruct session; split_and!; try done. split; cbn; rewrite ?Hinfo; auto; congruence.
  - do 2 eexists. split; [done|]. split; [|split; [constructor | unfold budget; cbn; lia]].
    split; cbn; auto; try done.
    + intros Hs. destruct (Hm Hs) as (? & ? & ?). by split_and!.
Qed.

Lemma verify_run_ok evs t :
  Forall verify_event_ok evs -> verify_inv t ->
  exists out t', verify_run evs t = Ret (out, t') /\ Forall tx_ok (ready_txs out) /\
    (length (ready_txs out) <= budget t)%nat.
Proof.
  revert t. induction evs as [|ev evs IH]; intros t Hevs Hinv; [exists [], t; split; [done|]; split; [constructor|cbn; lia]|].
  inversion Hevs as [|? ? Hev Hrest]; subst.
  destruct (verify_step_ok ev t Hev Hinv) as (out1 & t1 & H1 & Hinv1 & Hok1 & Hb1).
  destruct (IH t1 Hrest Hinv1) as (out2 & t2 & H2 & Hok2 & Hb2).
  exists (out1 ++ out2), t2. cbn. rewrite H1. cbn. rewrite H2. cbn. split; [done|].
  rewrite ready_app, length_app. split; [by apply Forall_app|]. lia.
Qed.

Lemma new_verify_inv : verify_inv newVerificationTask.
Proof. split; cbn; done. Qed.

(** The messages that came before the request. *)
Lemma create_ok opinions codes :
  Forall (fun info => (exists o, va_opinions info = [o]) /\ va_tx info = vr_tx request) opinions ->
  Forall (fun c => vc_tx c = vr_tx request) codes ->
  exists t, createVerificationTask request replicatorKey driveKey session verifyCodeTimerDelay opinions codes = Ret t /\
    verify_inv t /\ vt_mustBeInterrupted t = false /\ vt_verifyOpinionTimer t = NoTimer.
Proof.
  intros Hos Hcs. unfold createVerificationTask.
  assert (forall t, verify_inv t -> vt_mustBeInterrupted t = false -> vt_myOpinion t = None ->
    vt_myVerifyCodesCalculated t = false ->
    exists t', addOpinions request session opinions t = Ret t' /\ verify_inv t' /\ vt_mustBeInterrupted t' = false /\
      vt_myOpinion t' = None /\ vt_myVerifyCodesCalculated t' = false) as Hadd.
  { induction Hos as [|info os [[o Ho] Htx] _ IH]; intros t Hinv Hi Hno Hc; [by exists t|]. cbn.
    destruct (process_spec info o t Ho (vi_tx _ Hinv)) as (ok & A & T & -> & Eff). cbn.
    rewrite (oe_known _ _ _ _ _ _ Eff Htx). cbn. apply IH; auto. by eapply inv_with_opinions. }
  destruct (Hadd newVerificationTask) as (t & -> & Hinv & Hi & Hno & Hc); [apply new_verify_inv | done..|].
  clear Hadd. cbn. revert t Hinv Hi Hno Hc.
  induction Hcs as [|c cs Htx _ IH]; intros t Hinv Hi Hno Hc.
  { exists t. split; [done|]. split_and!; [done..|]. by destruct (vi_nomine _ Hinv Hno). }
  cbn. unfold processedVerificationCode. rewrite decide_False by congruence.
  case_decide; [by apply IH|]. destruct (vt_receivedCodes t !! vc_replicatorKey c); [by apply IH|].
  cbn [vt_myVerifyCodesCalculated set_receivedCodes]. rewrite Hc. cbn. apply IH; auto. destruct Hinv. by split.
Qed.

(** C25: the verification of a drive.  From the messages that came before the
    request, and over any sequence of events after it, a task fails no
    assertion, sends at most one verification transaction, and that transaction
    carries the opinions of more than two thirds of the shard: pairwise different
    members, this replicator among them, each with one value per member. *)
Theorem verification_quorum opinions codes evs :
  Forall (fun info => (exists o, va_opinions info = [o]) /\ va_tx info = vr_tx request) opinions ->
  Forall (fun c => vc_tx c = vr_tx request) codes -> Forall verify_event_ok evs ->
  exists t out t', createVerificationTask request replicatorKey driveKey session verifyCodeTimerDelay opinions codes = Ret t /\
    verify_run evs t = Ret (out, t') /\ (length (ready_txs out) <= 1)%nat /\
    forall tx, VerificationTransactionIsReady tx ∈ out -> collected_ok tx /\ enough tx /\ mine_in tx.
Proof.
  intros Hos Hcs Hevs. destruct (create_ok opinions codes Hos Hcs) as (t & Ht & Hinv & Hi & HT).
  destruct (verify_run_ok evs t Hevs Hinv) as (out & t' & Hrun & Hok & Hb).
  exists t, out, t'. split; [done|]. split; [done|]. split.
  - unfold budget in Hb. rewrite Hi, HT in Hb. exact Hb.
  - intros tx Hin. rewrite Forall_forall in Hok.
    destruct (Hok (VerificationTransactionIsReady tx)) as (tx' & [= <-] & H); [|exact H].
    apply list_elem_of_In, filter_In. split; [by apply list_elem_of_In | done].
Qed.

End Protocol.

(** The opinion a replicator forms: in the order of the shard, 1 for itself
    and for every member whose code was received and equals the one computed for
    it, 0 for every other member. *)
Theorem compareCodes_spec replicatorKey received keys codes os i key code :
  compareCodes replicatorKey received keys codes = Ret os -> length codes = length keys ->
  keys !! i = Some key -> codes !! i = Some code ->
  os !! i = Some (if bool_decide (key = replicatorKey \/ vc_code <$> received !! key = Some code) then 1 else 0).
Proof.
  revert codes os i. induction keys as [|k keys IH]; intros codes os i H Hl Hk Hc; [done|].
  destruct codes as [|c codes]; [done|]. injection Hl as Hl. cbn in H.
  apply bind_ret_inv in H as (o & Ho & H). apply bind_ret_inv in H as (os' & Hos & [= <-]).
  destruct i as [|i]; [|exact (IH codes os' i Hos Hl Hk Hc)]. cbn in Hk, Hc. injection Hk as ->. injection Hc as ->.
  change ((o :: os') !! 0%nat) with (Some o). f_equal. destruct (decide (key = replicatorKey)) as [->|Hne].
  - injection Ho as <-. by rewrite bool_decide_true by (by left).
  - destruct (received !! key) as [info|]; injection Ho as <-.
    + destruct (decide (vc_code info = code)) as [E|E].
      * rewrite bool_decide_true; [done|]. right. cbn. by rewrite E.
      * rewrite bool_decide_false; [done|]. intros [?|[= ?]]; congruence.
    + rewrite bool_decide_false; [done|]. intros [?|[=]]; congruence.
Qed.

(** ** Concrete runs *)

(** A shard of three members, and of one. *)
Definition request3 : VerificationRequest := mkVerificationRequest 1000 0 999 [1; 2; 3] 60000.
Definition request1 : VerificationRequest := mkVerificationRequest 1000 0 999 [1] 60000.
Definition vopinion (k : Z) (os : list Z) : VerifyApprovalTxInfo := mkVerifyApprovalTxInfo 1000 500 0 [mkVerifyOpinion k os].

Definition verify_events3 : list VerifyEvent :=
  [CodesCompleted 5 [11; 12; 13]; CodeReceived 6 (mkVerificationCodeInfo 1000 2 500 12);
   CodeReceived 7 (mkVerificationCodeInfo 1000 3 500 99); VerifyOpinionReceived (vopinion 3 [1; 1; 1]); VerifyOpinionTimer].

Definition verify_result3 : Outcome (list VerifyOutput * VerificationTask) :=
  t ← createVerificationTask request3 1 500 true 1000 [vopinion 2 [1; 1; 0]] [];
  verify_run request3 1 500 true 1000 verify_events3 t.

Example verification_sent :
  match verify_result3 with Ret (out, _) => ready_txs out | Stop _ => [] end =
  [VerificationTransactionIsReady (mkVerifyApprovalTxInfo 1000 500 0
     [mkVerifyOpinion 2 [1; 1; 0]; mkVerifyOpinion 1 [1; 1; 0]; mkVerifyOpinion 3 [1; 1; 1]])].
Proof. vm_compute. reflexivity. Qed.

(** In a shard of one member the only opinion is stored as the first one and
    then ignored as its own duplicate: the timer is never started and no
    transaction is sent. *)
Example single_replicator_never_sends :
  match (t ← createVerificationTask request1 1 500 true 1000 [] [];
         verify_run request1 1 500 true 1000 [CodesCompleted 5 [11]; VerifyOpinionTimer; ShareVerifyOpinionTimer] t) with
  | Ret (out, t) => ready_txs out = [] /\ vt_verifyOpinionTimer t = NoTimer /\
                    option_map (fun tx => length (va_opinions tx)) (vt_approvalTxInfo t) = Some 1%nat
  | Stop _ => False
  end.
Proof. vm_compute. by split_and!. Qed.

(** ** Witnesses *)

Lemma verification_quorum_witness :
  exists out t', verify_result3 = Ret (out, t') /\ (length (ready_txs out) <= 1)%nat /\
    forall tx, VerificationTransactionIsReady tx ∈ out -> collected_ok request3 tx /\ enough request3 tx /\ mine_in 1 tx.
Proof.
  destruct (verification_quorum request3 1 500 true 1000) with (opinions := [vopinion 2 [1; 1; 0]])
    (codes := @nil VerificationCodeInfo) (evs := verify_events3) as (t & out & t' & H1 & H2 & H3 & H4).
  - by left.
  - repeat constructor. by eexists.
  - constructor.
  - repeat constructor. by eexists.
  - exists out, t'. split; [|by split]. unfold verify_result3. by rewrite H1.
Defined.

Lemma compareCodes_spec_witness :
  compareCodes 1 {[ 2 := mkVerificationCodeInfo 1000 2 500 12 ]} [1; 2; 3] [11; 12; 13] = Ret [1; 1; 0] /\
  [1; 1; 0] !! 1%nat = Some 1.
Proof.
  split; [vm_compute; reflexivity|].
  refine (compareCodes_spec 1 {[ 2 := mkVerificationCodeInfo 1000 2 500 12 ]} [1; 2; 3] [11; 12; 13] [1; 1; 0] 1 2 12 _ _ _ _);
    vm_compute; reflexivity.
Defined.

(** A drive of one file of nine bytes. *)
Definition content1 (h : Z) : option (list Z) := if decide (h = 7) then Some [1; 2; 3; 4; 5; 6; 7; 8; 9] else None.
Definition tree1 : Folder :=
  MkFolder "/" [("f", inr (mkFile "f" 7 9 0 false None))] false 0 0 None.

Lemma code_from_another_witness :
  exists codes, verify content1 1000 [1; 2; 3] tree1 = Ret codes /\ length codes = 3%nat /\
    (codes !! 0%nat = codes !! 1%nat -> False).
Proof.
  destruct (code_from_another (fun h => length <$> content1 h) tree1 1000 [1; 2; 3]) as (inits & k & Hi & H).
  destruct (verify content1 1000 [1; 2; 3] tree1) as [codes|] eqn:Hc; [|vm_compute in Hc; discriminate Hc].
  destruct (H content1 codes) as (Hl & Hx).
  - reflexivity.
  - intros h bytes. unfold content1. destruct (decide (h = 7)); [|discriminate]. intros [= <-].
    repeat constructor; lia.
  - exact Hc.
  - exists codes. split; [reflexivity|]. split; [exact Hl|]. intros E.
    destruct (codes !! 0%nat) as [c0|] eqn:E0; [|apply lookup_ge_None in E0; rewrite Hl in E0; cbn in E0; lia].
    symmetry in E. vm_compute in Hi. injection Hi as <-.
    destruct (Hx 0%nat 1%nat c0 c0 _ _ E0 E eq_refl eq_refl) as [_ [Heq _]].
    specialize (Heq eq_refl). discriminate Heq.
Defined.
