(* ===== verification/RestartData.v ===== *)
(** * Values that survive a restart ([DriveParams.h], [DownloadLimiter.h])

    A value is written to a temporary file that then replaces the file of the
    value; reading falls back to the temporary file.  A crash can come between any
    two operations of the file system and inside the write, which then leaves a
    part of the data.  [crash_states] are the file systems it can leave.

    The serialization is cereal's and is a parameter: [decode] reads an archive into
    a value, and gives the value as it is left, and whether the whole was read.  An
    archive that ends early throws after it has overwritten a part of the value. *)

From S2P Require Import Prelude ModifyOpinion.

(** The files of the restart folder, by path. *)
Abbreviation FileSystem := (gmap string (list Z)).

Definition tmp (outputFile : string) : string := outputFile +:+ ".tmp".

(** [fs::remove] and [fs::rename]; renaming a missing file is an error that is
    ignored. *)
Definition fs_remove (f : string) (fs : FileSystem) : FileSystem := delete f fs.
Definition fs_rename (a b : string) (fs : FileSystem) : FileSystem :=
  match fs !! a with Some data => <[b := data]> (delete a fs) | None => fs end.

(** [saveRestartData]. *)
Definition saveRestartData (outputFile : string) (data : list Z) (fs : FileSystem) : FileSystem :=
  let fs1 := <[tmp outputFile := data]> fs in
  fs_rename (tmp outputFile) outputFile (fs_remove outputFile fs1).

(** The file systems that a crash during [saveRestartData] can leave: nothing
    done, a part of the data written, the old file removed, everything done. *)
Inductive crash_states (outputFile : string) (data : list Z) (fs : FileSystem) : FileSystem -> Prop :=
  | crash_before : crash_states outputFile data fs fs
  | crash_writing part rest :
      data = part ++ rest -> crash_states outputFile data fs (<[tmp outputFile := part]> fs)
  | crash_removed :
      crash_states outputFile data fs (fs_remove outputFile (<[tmp outputFile := data]> fs))
  | crash_after : crash_states outputFile data fs (saveRestartData outputFile data fs).

(** [loadRestartData]. *)
Definition loadRestartData (outputFile : string) (fs : FileSystem) : option (list Z) :=
  match fs !! outputFile with
  | Some data => Some data
  | None => fs !! tmp outputFile
  end.

(** ** The values of the opinion controller *)

(** The names of the files in the restart folder. *)
Definition approvedUploadsFile : string := "approvedCumulativeUploads".
Definition notApprovedUploadsFile : string := "notApprovedCumulativeUploads".
Definition approvedModificationFile : string := "approvedModification".

Section Values.
  Context (encodeUploads : CumulativeUploads -> list Z).
  Context (decodeUploads : list Z -> CumulativeUploads -> bool * CumulativeUploads).
  Context (encodeHash : Z -> list Z) (decodeHash : list Z -> Z -> bool * Z).

(** [saveRestartValue], for the values the controller writes. *)
Definition written (w : RestartWrite) : string * list Z :=
  match w with
  | SaveNotApproved v => (notApprovedUploadsFile, encodeUploads v)
  | SaveApproved v => (approvedUploadsFile, encodeUploads v)
  | SaveApprovedModification id => (approvedModificationFile, encodeHash id)
  end.

Definition saveRestartValue (w : RestartWrite) (fs : FileSystem) : FileSystem :=
  let '(name, data) := written w in saveRestartData name data fs.

(** A crash during a sequence of writes: during one of them, after those before. *)
Inductive crash_during : list RestartWrite -> FileSystem -> FileSystem -> Prop :=
  | crash_none fs : crash_during [] fs fs
  | crash_here w ws fs fs' :
      crash_states (written w).1 (written w).2 fs fs' -> crash_during (w :: ws) fs fs'
  | crash_later w ws fs fs' :
      crash_during ws (saveRestartValue w fs) fs' -> crash_during (w :: ws) fs fs'.

(** [loadRestartValue]: what it returns, and the value that it leaves. *)
Definition loadRestartValue {A} (decode : list Z -> A -> bool * A) (name : string) (old : A) (fs : FileSystem) : bool * A :=
  match loadRestartData name fs with
  | None => (false, old)
  | Some data => decode data old
  end.

(** [ModifyOpinionController::initialize]: it does not ask whether the values were read. *)
Definition initialize (fs : FileSystem) (c : ModifyOpinionController) : ModifyOpinionController :=
  set_notApproved (loadRestartValue decodeUploads notApprovedUploadsFile (oc_notApprovedCumulativeUploads c) fs).2
    (set_approved (loadRestartValue decodeUploads approvedUploadsFile (oc_approvedCumulativeUploads c) fs).2 c).

(** The last approved modification that [InitializeDriveTask::initialize] loads. *)
Definition loadApprovedModification (fs : FileSystem) : Z :=
  (loadRestartValue decodeHash approvedModificationFile 0 fs).2.

End Values.
