(* ===== verification/RestartDataSpec.v ===== *)
(** * Properties of the restart files *)

From S2P Require Import Prelude ModifyOpinion RestartData.

Lemma string_app_length (a b : string) : String.length (a +:+ b) = (String.length a + String.length b)%nat.
Proof. induction a as [|c a IH]; [done|exact (f_equal S IH)]. Qed.

Lemma tmp_ne f : tmp f <> f.
Proof. intros E. apply (f_equal String.length) in E. unfold tmp in E. rewrite string_app_length in E. cbn in E. lia. Qed.

Lemma saved_lookup f data fs :
  saveRestartData f data fs !! f = Some data /\ saveRestartData f data fs !! tmp f = None.
Proof.
  unfold saveRestartData, fs_rename, fs_remove. pose proof (tmp_ne f) as Hne.
  rewrite lookup_delete_ne, lookup_insert_eq by done. split; [apply lookup_insert_eq|].
  rewrite lookup_insert_ne by done. apply lookup_delete_eq.
Qed.

(** The other files are not touched. *)
Lemma crash_frame f data fs fs' g :
  crash_states f data fs fs' -> g <> f -> g <> tmp f -> fs' !! g = fs !! g.
Proof.
  intros Hc Hf Ht. destruct Hc; unfold saveRestartData, fs_rename, fs_remove.
  - done.
  - by rewrite lookup_insert_ne.
  - by rewrite lookup_delete_ne, lookup_insert_ne.
  - rewrite lookup_delete_ne, lookup_insert_eq by (by intros ?%eq_sym%tmp_ne).
    by rewrite lookup_insert_ne, !lookup_delete_ne, lookup_insert_ne.
Qed.

Lemma load_frame f data fs fs' g :
  crash_states f data fs fs' -> g <> f -> g <> tmp f -> tmp g <> f -> tmp g <> tmp f ->
  loadRestartData g fs' = loadRestartData g fs.
Proof.
  intros Hc ????. unfold loadRestartData.
  by rewrite (crash_frame _ _ _ _ g Hc), (crash_frame _ _ _ _ (tmp g) Hc).
Qed.

Lemma crash_load f (old data : list Z) (fs fs' : FileSystem) :
  fs !! f = Some old -> crash_states f data fs fs' ->
  loadRestartData f fs' = Some old \/ loadRestartData f fs' = Some data.
Proof.
  intros Ho Hc. pose proof (tmp_ne f). destruct Hc as [|part rest _| |]; unfold loadRestartData.
  - left. by rewrite Ho.
  - left. by rewrite lookup_insert_ne, Ho.
  - right. unfold fs_remove. by rewrite lookup_delete_eq, lookup_delete_ne, lookup_insert_eq.
  - right. by rewrite (proj1 (saved_lookup _ _ _)).
Qed.

(** When the value's file exists, whatever the moment of a crash during a save,
    the next start reads the old value or the new one, complete; without a crash
    it reads the new one, and the next save starts again from a good state. *)
Lemma restart_crash_safe f (old data : list Z) (fs fs' : FileSystem) :
  fs !! f = Some old -> crash_states f data fs fs' ->
  (loadRestartData f fs' = Some old \/ loadRestartData f fs' = Some data) /\
  loadRestartData f (saveRestartData f data fs) = Some data /\
  saveRestartData f data fs !! f = Some data.
Proof.
  intros Ho Hc. split; [by eapply crash_load|]. unfold loadRestartData. by rewrite (proj1 (saved_lookup f data fs)).
Qed.

Lemma restart_crash_safe_witness :
  (loadRestartData "v" (<["v.tmp" := [3]]> {["v" := [1; 2]]}) = Some [1; 2] \/
   loadRestartData "v" (<["v.tmp" := [3]]> {["v" := [1; 2]]}) = Some [3; 4]) /\
  loadRestartData "v" (saveRestartData "v" [3; 4] {["v" := [1; 2]]}) = Some [3; 4] /\
  saveRestartData "v" [3; 4] {["v" := [1; 2]]} !! "v"%string = Some [3; 4].
Proof.
  apply (restart_crash_safe "v" [1; 2] [3; 4] {["v" := [1; 2]]}).
  - reflexivity.
  - by apply (crash_writing "v" [3; 4] {["v" := [1; 2]]} [3] [4]).
Defined.

(** The first save is not protected, nor the first after a crash that came
    between the removal and the renaming: the only complete copy is then the
    temporary file, which the save overwrites. *)
Example two_crashes_lose :
  let fs := fs_remove "v" (<[tmp "v" := [3; 4]]> {["v" := [1; 2]]}) in
  crash_states "v" [3; 4] {["v" := [1; 2]]} fs /\
  crash_states "v" [5; 6] fs (<[tmp "v" := [5]]> fs) /\
  loadRestartData "v" (<[tmp "v" := [5]]> fs) = Some [5].
Proof.
  split; [apply crash_removed|]. split; [by apply (crash_writing _ _ _ [5] [6])|]. reflexivity.
Qed.

(** A crash of any save: the old data, the new data, or, of a file that was not there,
    a part of the new data. *)
Definition torn (f : string) (data : list Z) (fs fs' : FileSystem) : Prop :=
  fs !! f = None /\ exists part rest, data = part ++ rest /\ loadRestartData f fs' = Some part.

Lemma crash_load_any f (data : list Z) (fs fs' : FileSystem) :
  crash_states f data fs fs' ->
  loadRestartData f fs' = loadRestartData f fs \/ loadRestartData f fs' = Some data \/ torn f data fs fs'.
Proof.
  intros Hc. pose proof (tmp_ne f). destruct Hc as [|part rest E| |]; unfold torn, loadRestartData.
  - by left.
  - rewrite lookup_insert_ne by done. destruct (fs !! f) eqn:Ef; [by left|].
    right; right. split; [done|]. exists part, rest. split; [done|]. by rewrite lookup_insert_eq.
  - right; left. unfold fs_remove. by rewrite lookup_delete_eq, lookup_delete_ne, lookup_insert_eq.
  - right; left. by rewrite (proj1 (saved_lookup _ _ _)).
Qed.

(** ** A crash while a modification is approved *)

Section Approve.
  Context (encodeUploads : CumulativeUploads -> list Z).
  Context (decodeUploads : list Z -> CumulativeUploads -> bool * CumulativeUploads).
  Context (encodeHash : Z -> list Z) (decodeHash : list Z -> Z -> bool * Z).
  Hypothesis uploads_roundtrip : forall v old, decodeUploads (encodeUploads v) old = (true, v).
  Hypothesis hash_roundtrip : forall h old, decodeHash (encodeHash h) old = (true, h).

(** What a start reads depends on what is read from the three files. *)
Lemma load_uploads name v old fs :
  loadRestartData name fs = Some (encodeUploads v) -> (loadRestartValue decodeUploads name old fs).2 = v.
Proof. intros E. unfold loadRestartValue. by rewrite E, uploads_roundtrip. Qed.

Lemma load_same {A} (decode : list Z -> A -> bool * A) name old fs fs' :
  loadRestartData name fs' = loadRestartData name fs ->
  loadRestartValue decode name old fs' = loadRestartValue decode name old fs.
Proof. intros E. unfold loadRestartValue. by rewrite E. Qed.

(** The files after a crash in the two saves of an approval. *)
Lemma approve_files n id fs fs' :
  crash_during encodeUploads encodeHash [SaveApproved n; SaveApprovedModification id] fs fs' ->
  loadRestartData notApprovedUploadsFile fs' = loadRestartData notApprovedUploadsFile fs /\
  ((loadRestartData approvedModificationFile fs' = loadRestartData approvedModificationFile fs /\
    (loadRestartData approvedUploadsFile fs' = loadRestartData approvedUploadsFile fs \/
     loadRestartData approvedUploadsFile fs' = Some (encodeUploads n) \/
     torn approvedUploadsFile (encodeUploads n) fs fs')) \/
   (loadRestartData approvedUploadsFile fs' = Some (encodeUploads n) /\
    (loadRestartData approvedModificationFile fs' = Some (encodeHash id) \/
     torn approvedModificationFile (encodeHash id) fs fs'))).
Proof.
  intros Hc. inversion_clear Hc as [|? ? ? ? Hc1|? ? ? ? Hc1].
  { cbn in Hc1. rewrite (load_frame _ _ _ _ notApprovedUploadsFile Hc1), (load_frame _ _ _ _ approvedModificationFile Hc1) by done.
    split; [done|]. left. split; [done|]. by apply crash_load_any. }
  set (fs1 := saveRestartValue encodeUploads encodeHash (SaveApproved n) fs) in *.
  assert (crash_states approvedUploadsFile (encodeUploads n) fs fs1) as Hcs by constructor.
  assert (loadRestartData approvedUploadsFile fs1 = Some (encodeUploads n)) as Hl.
  { unfold loadRestartData. change fs1 with (saveRestartData approvedUploadsFile (encodeUploads n) fs).
    by rewrite (proj1 (saved_lookup _ _ _)). }
  assert (exists fs2, crash_states approvedModificationFile (encodeHash id) fs1 fs2 /\ fs' = fs2) as (fs2 & Hc2 & ->).
  { inversion_clear Hc1 as [|? ? ? ? Hc2|? ? ? ? Hc2]; [by exists fs'|].
    inversion_clear Hc2. eexists. split; [apply crash_after|done]. }
  rewrite !(load_frame _ _ _ _ notApprovedUploadsFile Hc2), !(load_frame _ _ _ _ notApprovedUploadsFile Hcs) by done.
  split; [done|]. rewrite !(load_frame _ _ _ _ approvedUploadsFile Hc2), Hl by done.
  destruct (crash_load_any _ _ _ _ Hc2) as [E|[E|(E & part & rest & E1 & E2)]].
  - left. rewrite E, (load_frame _ _ _ _ approvedModificationFile Hcs) by done. auto.
  - right. split; [done|by left].
  - right. split; [done|]. right. rewrite (crash_frame _ _ _ _ approvedModificationFile Hcs) in E by done.
    split; [done|]. by exists part, rest.
Qed.

(** C34: a crash at any moment of the saves that approve a modification, whatever the
    restart files were before (also when there were none).  The next start keeps the uploads that are not approved yet, and
    has either what a start before the approval would have had, or the new uploads with
    the old last approved modification, or both new: never the new modification with
    the old uploads.  Only of a file that was not there (before the first approval, or
    after an earlier crash between the removal and the renaming) a part of the archive
    may have been written, which is then read over the default value. *)
Theorem approve_crash_safe c c' id ws fs fs' c0 :
  approveCumulativeUploads id c = Ret (ws, c') ->
  crash_during encodeUploads encodeHash ws fs fs' ->
  let before := initialize decodeUploads fs c0 in
  let restarted := initialize decodeUploads fs' c0 in
  let uploads := oc_approvedCumulativeUploads c' in
  let previous := loadApprovedModification decodeHash fs in
  let modification := loadApprovedModification decodeHash fs' in
  oc_notApprovedCumulativeUploads restarted = oc_notApprovedCumulativeUploads before /\
  ((oc_approvedCumulativeUploads restarted = oc_approvedCumulativeUploads before /\ modification = previous) \/
   (oc_approvedCumulativeUploads restarted = uploads /\ modification = previous) \/
   (oc_approvedCumulativeUploads restarted = uploads /\ modification = id) \/
   (fs !! approvedUploadsFile = None /\ modification = previous /\
    exists part rest, encodeUploads uploads = part ++ rest /\
      oc_approvedCumulativeUploads restarted = (decodeUploads part (oc_approvedCumulativeUploads c0)).2) \/
   (fs !! approvedModificationFile = None /\ oc_approvedCumulativeUploads restarted = uploads /\
    exists part rest, encodeHash id = part ++ rest /\ modification = (decodeHash part 0).2)).
Proof.
  unfold approveCumulativeUploads. intros [_ E]%guard_assert_inv Hc. injection E as <- <-.
  apply approve_files in Hc as [Hn H]. unfold initialize, loadApprovedModification. cbn.
  rewrite (load_same _ _ _ _ _ Hn). split; [done|].
  destruct H as [[Em [E|[E|(E & part & rest & E1 & E2)]]]|[Eu [E|(E & part & rest & E1 & E2)]]].
  - left. by rewrite (load_same _ _ _ _ _ Em), (load_same _ _ _ _ _ E).
  - right; left. by rewrite (load_same _ _ _ _ _ Em), (load_uploads _ _ _ _ E).
  - right; right; right; left. rewrite (load_same _ _ _ _ _ Em). split_and!; [done..|]. exists part, rest.
    split; [done|]. unfold loadRestartValue. by rewrite E2.
  - right; right; left. rewrite (load_uploads _ _ _ _ Eu). split; [done|]. unfold loadRestartValue.
    by rewrite E, hash_roundtrip.
  - right; right; right; right. rewrite (load_uploads _ _ _ _ Eu). split_and!; [done..|]. exists part, rest.
    split; [done|]. unfold loadRestartValue. by rewrite E2.
Qed.
End Approve.

(** A serialization of the values, for the witness. *)
Fixpoint flatten_pairs (l : list (Z * Z)) : list Z :=
  match l with [] => [] | (a, b) :: l' => a :: b :: flatten_pairs l' end.
Fixpoint pairs (l : list Z) : list (Z * Z) :=
  match l with a :: b :: l' => (a, b) :: pairs l' | _ => [] end.
Definition sampleEncode (v : CumulativeUploads) : list Z :=
  m_modificationId v :: 1 :: flatten_pairs (map_to_list (m_uploads v)).
(** An archive of a value that ends after its first number leaves the old uploads. *)
Definition sampleDecode (l : list Z) (old : CumulativeUploads) : bool * CumulativeUploads :=
  match l with
  | [] => (false, old)
  | [i] => (false, mkCumulative i (m_uploads old))
  | i :: _ :: l' => (true, mkCumulative i (list_to_map (pairs l')))
  end.

Lemma sampleDecode_encode v old : sampleDecode (sampleEncode v) old = (true, v).
Proof.
  destruct v as [i m]. cbn. do 2 f_equal.
  rewrite <- (list_to_map_to_list m) at 2. f_equal. by induction (map_to_list m) as [|[] l IH]; cbn; [|rewrite IH].
Qed.

Definition sampleDecodeHash (l : list Z) (old : Z) : bool * Z := match l with h :: _ => (true, h) | [] => (false, old) end.

Definition sampleFiles : FileSystem :=
  <[approvedUploadsFile := [4; 1; 7; 100]]> (<[notApprovedUploadsFile := [5; 1; 7; 150]]>
    {[approvedModificationFile := [4]]}).

Definition sampleController : ModifyOpinionController := mkController 9 0 (mkCumulative 0 ∅) (mkCumulative 0 ∅).

Lemma approve_crash_safe_witness :
  let fs' := saveRestartValue sampleEncode (fun h => [h]) (SaveApproved (mkCumulative 5 {[7 := 150]})) sampleFiles in
  oc_notApprovedCumulativeUploads (initialize sampleDecode fs' sampleController) = mkCumulative 5 {[7 := 150]}.
Proof.
  refine (proj1 (approve_crash_safe sampleEncode sampleDecode (fun h => [h]) sampleDecodeHash sampleDecode_encode
    (fun h old => eq_refl) (mkController 9 150 (mkCumulative 4 {[7 := 100]}) (mkCumulative 5 {[7 := 150]})) _
    5 _ sampleFiles _ sampleController eq_refl _)).
  apply crash_later, crash_here, crash_before.
Defined.

(** The first approval of a drive is cut in the middle of its first save: the next start
    has the id of the new uploads with none of them. *)
Example first_approval_torn :
  let fs := <[tmp approvedUploadsFile := [5]]> (∅ : FileSystem) in
  crash_during sampleEncode (fun h => [h]) [SaveApproved (mkCumulative 5 {[7 := 150]}); SaveApprovedModification 5] ∅ fs /\
  oc_approvedCumulativeUploads (initialize sampleDecode fs sampleController) = mkCumulative 5 ∅.
Proof. split; [|reflexivity]. apply crash_here. by apply (crash_writing _ _ _ [5] [1; 7; 150]). Qed.
