(* ===== verification/FlatDrive.v ===== *)
(** * The drive and its task queue ([src/drive/FlatDrive.cpp])

    A drive executes one task at a time and keeps the requests that wait for it;
    verification runs beside.  Every request, message and transaction for the
    drive goes through the operations here, on the session thread.

    What a task promises to the drive is the class [DriveTask]: the virtual
    functions of [DriveTaskBase] that the drive calls, and the factory functions.
    The verification tasks are the value of their request's transaction. *)

From S2P Require Import Prelude DownloadChannels ModifyOpinion ModifyApproval Verification.

Inductive DriveTaskType :=
  | DRIVE_INITIALIZATION | DRIVE_CLOSURE | MODIFICATION_CANCEL | CATCHING_UP | MODIFICATION_REQUEST
  | STREAM_REQUEST | DRIVE_VERIFICATION | MANUAL_MODIFICATION | MANUAL_SYNCHRONIZATION.

#[export] Instance task_type_eq_dec : EqDecision DriveTaskType.
Proof. solve_decision. Defined.

Record CatchingUpRequest := mkCatchingUp { cu_rootHash : Z; cu_modifyTransactionHash : Z }.
Record SynchronizationRequest := mkSynchronization { sy_modificationIdentifier : Z; sy_rootHash : Z }.

(** [DeferredRequest]: a modification or a stream. *)
Inductive DeferredRequest :=
  | DeferredModification (transactionHash maxDataSize : Z)
  | DeferredStream (streamId maxSizeBytes : Z).

Definition dr_transactionHash (r : DeferredRequest) : Z :=
  match r with DeferredModification h _ => h | DeferredStream h _ => h end.
Definition dr_maxDataSize (r : DeferredRequest) : Z :=
  match r with DeferredModification _ s => s | DeferredStream _ s => s end.

(** The promises of a task to the drive. *)
Class DriveTask (T : Type) := {
  getTaskType : T -> DriveTaskType;
  getModificationTransactionHash : T -> option Z;     (* for an [UpdateDriveTaskBase] *)
  task_onApprovalTxPublished : PublishedApproval -> T -> Outcome (bool * T);
  task_onApprovalTxFailed : Z -> T -> T;
  task_shouldCancelModify : ModifyOpinionController -> Z -> Z -> T -> Outcome (bool * T);
      (* the controller, the last approved modification, the one to cancel *)
  task_processedModifyOpinion : ApprovalTransactionInfo -> T -> Outcome (bool * T);
  task_onModificationInitiated : T -> Outcome T;
  task_onStreamStarted : T -> Outcome T;
  task_onManualModificationInitiated : T -> Outcome T;
  task_manualSynchronize : T -> bool * T;
  createInitializationTask : list (Z * bool) -> T;
  createModificationTask : Z -> Z -> gmap Z ApprovalTransactionInfo -> T;
  createStreamTask : Z -> Z -> T;
  createCatchingUpTask : CatchingUpRequest -> T;
  createCancelTask : Z -> T;
  createClosureTask : option Z -> T;
  createSynchronizationTask : SynchronizationRequest -> T;
  createManualTask : Z -> T }.

(** The factories make tasks of their type. *)
Class DriveTaskLaws (T : Type) `{DriveTask T} := {
  type_initialization l : getTaskType (createInitializationTask l) = DRIVE_INITIALIZATION;
  type_modification h s os : getTaskType (createModificationTask h s os) = MODIFICATION_REQUEST;
  type_stream h s : getTaskType (createStreamTask h s) = STREAM_REQUEST;
  type_catchingUp r : getTaskType (createCatchingUpTask r) = CATCHING_UP;
  type_cancel h : getTaskType (createCancelTask h) = MODIFICATION_CANCEL;
  type_closure r : getTaskType (createClosureTask r) = DRIVE_CLOSURE;
  type_synchronization r : getTaskType (createSynchronizationTask r) = MANUAL_SYNCHRONIZATION;
  type_manual r : getTaskType (createManualTask r) = MANUAL_MODIFICATION }.

(** What the drive starts, or refuses through a callback. *)
Inductive DriveOutput :=
  | Started (type : DriveTaskType) (id : Z)
  | VerificationStarted (request : VerificationRequest) (opinions : list VerifyApprovalTxInfo)
      (codes : list VerificationCodeInfo)
  | ManualModificationRefused (request : Z)
  | SynchronizationRefused (request : SynchronizationRequest).

Record DefaultFlatDrive (T : Type) := mkDrive {
  fd_task : option T;
  fd_closeDriveRequest : option (option Z);
  fd_modificationCancelRequest : option Z;
  fd_catchingUpRequest : option CatchingUpRequest;
  fd_synchronizationRequest : option SynchronizationRequest;
  fd_deferredModificationRequests : list DeferredRequest;
  fd_deferredManualModificationRequest : option Z;
  fd_deferredVerificationRequest : option (VerificationRequest * list Z);  (* with the blocked replicators *)
  fd_verificationTask : option Z;
  fd_blockedReplicators : list Z;
  fd_lastApprovedModification : Z;
  fd_unknownModificationOpinions : gmap Z (gmap Z ApprovalTransactionInfo);
  fd_unknownVerificationOpinions : gmap Z (list VerifyApprovalTxInfo);
  fd_unknownVerificationCodeQueue : gmap Z (list VerificationCodeInfo);
  fd_opinionController : ModifyOpinionController;
  fd_modifyTraffic : gmap Z ModifyTraffic;
  fd_oldModifications : list (Z * gmap Z ModifyTraffic) }.

#[global] Arguments mkDrive {T}.
#[global] Arguments fd_task {T} _.
#[global] Arguments fd_closeDriveRequest {T} _.
#[global] Arguments fd_modificationCancelRequest {T} _.
#[global] Arguments fd_catchingUpRequest {T} _.
#[global] Arguments fd_synchronizationRequest {T} _.
#[global] Arguments fd_deferredModificationRequests {T} _.
#[global] Arguments fd_deferredManualModificationRequest {T} _.
#[global] Arguments fd_deferredVerificationRequest {T} _.
#[global] Arguments fd_verificationTask {T} _.
#[global] Arguments fd_blockedReplicators {T} _.
#[global] Arguments fd_lastApprovedModification {T} _.
#[global] Arguments fd_unknownModificationOpinions {T} _.
#[global] Arguments fd_unknownVerificationOpinions {T} _.
#[global] Arguments fd_unknownVerificationCodeQueue {T} _.
#[global] Arguments fd_opinionController {T} _.
#[global] Arguments fd_modifyTraffic {T} _.
#[global] Arguments fd_oldModifications {T} _.

Section Fields.
  Context {T : Type}.
Definition set_task (v : option T) (d : DefaultFlatDrive T) : DefaultFlatDrive T :=
  mkDrive v (fd_closeDriveRequest d) (fd_modificationCancelRequest d) (fd_catchingUpRequest d)
    (fd_synchronizationRequest d) (fd_deferredModificationRequests d)
    (fd_deferredManualModificationRequest d) (fd_deferredVerificationRequest d) (fd_verificationTask d)
    (fd_blockedReplicators d) (fd_lastApprovedModification d) (fd_unknownModificationOpinions d)
    (fd_unknownVerificationOpinions d) (fd_unknownVerificationCodeQueue d) (fd_opinionController d)
    (fd_modifyTraffic d) (fd_oldModifications d).
Definition set_close (v : option (option Z)) (d : DefaultFlatDrive T) : DefaultFlatDrive T :=
  mkDrive (fd_task d) v (fd_modificationCancelRequest d) (fd_catchingUpRequest d)
    (fd_synchronizationRequest d) (fd_deferredModificationRequests d)
    (fd_deferredManualModificationRequest d) (fd_deferredVerificationRequest d) (fd_verificationTask d)
    (fd_blockedReplicators d) (fd_lastApprovedModification d) (fd_unknownModificationOpinions d)
    (fd_unknownVerificationOpinions d) (fd_unknownVerificationCodeQueue d) (fd_opinionController d)
    (fd_modifyTraffic d) (fd_oldModifications d).
Definition set_cancel (v : option Z) (d : DefaultFlatDrive T) : DefaultFlatDrive T :=
  mkDrive (fd_task d) (fd_closeDriveRequest d) v (fd_catchingUpRequest d) (fd_synchronizationRequest d)
    (fd_deferredModificationRequests d) (fd_deferredManualModificationRequest d)
    (fd_deferredVerificationRequest d) (fd_verificationTask d) (fd_blockedReplicators d)
    (fd_lastApprovedModification d) (fd_unknownModificationOpinions d)
    (fd_unknownVerificationOpinions d) (fd_unknownVerificationCodeQueue d) (fd_opinionController d)
    (fd_modifyTraffic d) (fd_oldModifications d).
Definition set_catchingUp (v : option CatchingUpRequest) (d : DefaultFlatDrive T) : DefaultFlatDrive T :=
  mkDrive (fd_task d) (fd_closeDriveRequest d) (fd_modificationCancelRequest d) v
    (fd_synchronizationRequest d) (fd_deferredModificationRequests d)
    (fd_deferredManualModificationRequest d) (fd_deferredVerificationRequest d) (fd_verificationTask d)
    (fd_blockedReplicators d) (fd_lastApprovedModification d) (fd_unknownModificationOpinions d)
    (fd_unknownVerificationOpinions d) (fd_unknownVerificationCodeQueue d) (fd_opinionController d)
    (fd_modifyTraffic d) (fd_oldModifications d).
Definition set_synchronization (v : option SynchronizationRequest) (d : DefaultFlatDrive T) : DefaultFlatDrive T :=
  mkDrive (fd_task d) (fd_closeDriveRequest d) (fd_modificationCancelRequest d) (fd_catchingUpRequest d)
    v (fd_deferredModificationRequests d) (fd_deferredManualModificationRequest d)
    (fd_deferredVerificationRequest d) (fd_verificationTask d) (fd_blockedReplicators d)
    (fd_lastApprovedModification d) (fd_unknownModificationOpinions d)
    (fd_unknownVerificationOpinions d) (fd_unknownVerificationCodeQueue d) (fd_opinionController d)
    (fd_modifyTraffic d) (fd_oldModifications d).
Definition set_deferred (v : list DeferredRequest) (d : DefaultFlatDrive T) : DefaultFlatDrive T :=
  mkDrive (fd_task d) (fd_closeDriveRequest d) (fd_modificationCancelRequest d) (fd_catchingUpRequest d)
    (fd_synchronizationRequest d) v (fd_deferredManualModificationRequest d)
    (fd_deferredVerificationRequest d) (fd_verificationTask d) (fd_blockedReplicators d)
    (fd_lastApprovedModification d) (fd_unknownModificationOpinions d)
    (fd_unknownVerificationOpinions d) (fd_unknownVerificationCodeQueue d) (fd_opinionController d)
    (fd_modifyTraffic d) (fd_oldModifications d).
Definition set_manual (v : option Z) (d : DefaultFlatDrive T) : DefaultFlatDrive T :=
  mkDrive (fd_task d) (fd_closeDriveRequest d) (fd_modificationCancelRequest d) (fd_catchingUpRequest d)
    (fd_synchronizationRequest d) (fd_deferredModificationRequests d) v
    (fd_deferredVerificationRequest d) (fd_verificationTask d) (fd_blockedReplicators d)
    (fd_lastApprovedModification d) (fd_unknownModificationOpinions d)
    (fd_unknownVerificationOpinions d) (fd_unknownVerificationCodeQueue d) (fd_opinionController d)
    (fd_modifyTraffic d) (fd_oldModifications d).
Definition set_deferredVerification (v : option (VerificationRequest * list Z)) (d : DefaultFlatDrive T) : DefaultFlatDrive T :=
  mkDrive (fd_task d) (fd_closeDriveRequest d) (fd_modificationCancelRequest d) (fd_catchingUpRequest d)
    (fd_synchronizationRequest d) (fd_deferredModificationRequests d)
    (fd_deferredManualModificationRequest d) v (fd_verificationTask d) (fd_blockedReplicators d)
    (fd_lastApprovedModification d) (fd_unknownModificationOpinions d)
    (fd_unknownVerificationOpinions d) (fd_unknownVerificationCodeQueue d) (fd_opinionController d)
    (fd_modifyTraffic d) (fd_oldModifications d).
Definition set_verificationTask (v : option Z) (d : DefaultFlatDrive T) : DefaultFlatDrive T :=
  mkDrive (fd_task d) (fd_closeDriveRequest d) (fd_modificationCancelRequest d) (fd_catchingUpRequest d)
    (fd_synchronizationRequest d) (fd_deferredModificationRequests d)
    (fd_deferredManualModificationRequest d) (fd_deferredVerificationRequest d) v
    (fd_blockedReplicators d) (fd_lastApprovedModification d) (fd_unknownModificationOpinions d)
    (fd_unknownVerificationOpinions d) (fd_unknownVerificationCodeQueue d) (fd_opinionController d)
    (fd_modifyTraffic d) (fd_oldModifications d).
Definition set_blocked (v : list Z) (d : DefaultFlatDrive T) : DefaultFlatDrive T :=
  mkDrive (fd_task d) (fd_closeDriveRequest d) (fd_modificationCancelRequest d) (fd_catchingUpRequest d)
    (fd_synchronizationRequest d) (fd_deferredModificationRequests d)
    (fd_deferredManualModificationRequest d) (fd_deferredVerificationRequest d) (fd_verificationTask d)
    v (fd_lastApprovedModification d) (fd_unknownModificationOpinions d)
    (fd_unknownVerificationOpinions d) (fd_unknownVerificationCodeQueue d) (fd_opinionController d)
    (fd_modifyTraffic d) (fd_oldModifications d).
Definition set_unknownOpinions (v : gmap Z (gmap Z ApprovalTransactionInfo)) (d : DefaultFlatDrive T) : DefaultFlatDrive T :=
  mkDrive (fd_task d) (fd_closeDriveRequest d) (fd_modificationCancelRequest d) (fd_catchingUpRequest d)
    (fd_synchronizationRequest d) (fd_deferredModificationRequests d)
    (fd_deferredManualModificationRequest d) (fd_deferredVerificationRequest d) (fd_verificationTask d)
    (fd_blockedReplicators d) (fd_lastApprovedModification d) v (fd_unknownVerificationOpinions d)
    (fd_unknownVerificationCodeQueue d) (fd_opinionController d) (fd_modifyTraffic d)
    (fd_oldModifications d).
Definition set_unknownVerificationOpinions (v : gmap Z (list VerifyApprovalTxInfo)) (d : DefaultFlatDrive T) : DefaultFlatDrive T :=
  mkDrive (fd_task d) (fd_closeDriveRequest d) (fd_modificationCancelRequest d) (fd_catchingUpRequest d)
    (fd_synchronizationRequest d) (fd_deferredModificationRequests d)
    (fd_deferredManualModificationRequest d) (fd_deferredVerificationRequest d) (fd_verificationTask d)
    (fd_blockedReplicators d) (fd_lastApprovedModification d) (fd_unknownModificationOpinions d) v
    (fd_unknownVerificationCodeQueue d) (fd_opinionController d) (fd_modifyTraffic d)
    (fd_oldModifications d).
Definition set_unknownCodes (v : gmap Z (list VerificationCodeInfo)) (d : DefaultFlatDrive T) : DefaultFlatDrive T :=
  mkDrive (fd_task d) (fd_closeDriveRequest d) (fd_modificationCancelRequest d) (fd_catchingUpRequest d)
    (fd_synchronizationRequest d) (fd_deferredModificationRequests d)
    (fd_deferredManualModificationRequest d) (fd_deferredVerificationRequest d) (fd_verificationTask d)
    (fd_blockedReplicators d) (fd_lastApprovedModification d) (fd_unknownModificationOpinions d)
    (fd_unknownVerificationOpinions d) v (fd_opinionController d) (fd_modifyTraffic d)
    (fd_oldModifications d).
Definition set_opinionController (v : ModifyOpinionController) (d : DefaultFlatDrive T) : DefaultFlatDrive T :=
  mkDrive (fd_task d) (fd_closeDriveRequest d) (fd_modificationCancelRequest d) (fd_catchingUpRequest d)
    (fd_synchronizationRequest d) (fd_deferredModificationRequests d)
    (fd_deferredManualModificationRequest d) (fd_deferredVerificationRequest d) (fd_verificationTask d)
    (fd_blockedReplicators d) (fd_lastApprovedModification d) (fd_unknownModificationOpinions d)
    (fd_unknownVerificationOpinions d) (fd_unknownVerificationCodeQueue d) v (fd_modifyTraffic d)
    (fd_oldModifications d).
Definition set_modifyTraffic (v : gmap Z ModifyTraffic) (d : DefaultFlatDrive T) : DefaultFlatDrive T :=
  mkDrive (fd_task d) (fd_closeDriveRequest d) (fd_modificationCancelRequest d) (fd_catchingUpRequest d)
    (fd_synchronizationRequest d) (fd_deferredModificationRequests d)
    (fd_deferredManualModificationRequest d) (fd_deferredVerificationRequest d) (fd_verificationTask d)
    (fd_blockedReplicators d) (fd_lastApprovedModification d) (fd_unknownModificationOpinions d)
    (fd_unknownVerificationOpinions d) (fd_unknownVerificationCodeQueue d) (fd_opinionController d) v
    (fd_oldModifications d).
Definition set_oldModifications (v : list (Z * gmap Z ModifyTraffic)) (d : DefaultFlatDrive T) : DefaultFlatDrive T :=
  mkDrive (fd_task d) (fd_closeDriveRequest d) (fd_modificationCancelRequest d) (fd_catchingUpRequest d)
    (fd_synchronizationRequest d) (fd_deferredModificationRequests d)
    (fd_deferredManualModificationRequest d) (fd_deferredVerificationRequest d) (fd_verificationTask d)
    (fd_blockedReplicators d) (fd_lastApprovedModification d) (fd_unknownModificationOpinions d)
    (fd_unknownVerificationOpinions d) (fd_unknownVerificationCodeQueue d) (fd_opinionController d)
    (fd_modifyTraffic d) v.
End Fields.

(** ** Operations *)

Section Drive.
  Context {T : Type} `{DriveTask T}.
  Notation Drive := (DefaultFlatDrive T).
  Notation Result := (Outcome (list DriveOutput * Drive)).

(** [currentModifyTx], [resetCurrentModifyInfo], [findModifyInfo]. *)
Definition currentModifyTx (d : Drive) : option Z := fd_task d ≫= getModificationTransactionHash.

Definition resetCurrentModifyInfo (d : Drive) : Drive :=
  let d1 :=
    match currentModifyTx d with
    | None => d
    | Some tx =>
        let old := fd_oldModifications d in
        set_oldModifications ((if Nat.leb 100 (length old) then tail old else old) ++ [(tx, fd_modifyTraffic d)]) d
    end in
  set_modifyTraffic ∅ d1.

(** The result with [outIsFinished]. *)
Definition findModifyInfo (tx : Z) (d : Drive) : option (gmap Z ModifyTraffic) * bool :=
  match list_find (fun p => p.1 = tx) (fd_oldModifications d) with
  | Some (_, (_, info)) => (Some info, true)
  | None => if decide (currentModifyTx d = Some tx) then (Some (fd_modifyTraffic d), false) else (None, false)
  end.

(** [m_task = create...; SIRIUS_ASSERT( type ); m_task->run()]. *)
Definition startTask (type : DriveTaskType) (id : Z) (task : T) (d : Drive) : Result :=
  guard_assert (bool_decide (getTaskType task = type))
    (Ret ([Started type id], set_task (Some task) d)).

Definition no_task (d : Drive) : bool := negb (bool_decide (is_Some (fd_task d))).

Definition runDriveInitializationTask (completed : list (Z * bool)) (d : Drive) : Result :=
  guard_assert (no_task d) (startTask DRIVE_INITIALIZATION 0 (createInitializationTask completed) d).

Definition runModificationTask (transactionHash maxDataSize : Z) (d : Drive) : Result :=
  guard_assert (no_task d)
    (let opinions := default ∅ (fd_unknownModificationOpinions d !! transactionHash) in
     let d1 := set_unknownOpinions (delete transactionHash (fd_unknownModificationOpinions d)) d in
     startTask MODIFICATION_REQUEST transactionHash (createModificationTask transactionHash maxDataSize opinions) d1).

Definition runStreamTask (streamId maxSizeBytes : Z) (d : Drive) : Result :=
  guard_assert (no_task d) (startTask STREAM_REQUEST streamId (createStreamTask streamId maxSizeBytes) d).

(** [front] of an empty queue is undefined; [runNextTask] tests it. *)
Definition runDeferredModificationTask (d : Drive) : Result :=
  guard_assert (no_task d)
    (match fd_deferredModificationRequests d with
     | [] => Stop UndefinedBehaviour
     | DeferredModification h s :: rest => runModificationTask h s (set_deferred rest d)
     | DeferredStream h s :: rest => runStreamTask h s (set_deferred rest d)
     end).

(** The manual modification that waits is refused. *)
Definition refuseManual (d : Drive) : list DriveOutput * Drive :=
  match fd_deferredManualModificationRequest d with
  | Some m => ([ManualModificationRefused m], set_manual None d)
  | None => ([], d)
  end.

Definition runSynchronizationTask (request : SynchronizationRequest) (d : Drive) : Result :=
  guard_assert (no_task d)
    (let '(out1, d1) := refuseManual d in
     '(out2, d2) ← startTask MANUAL_SYNCHRONIZATION (sy_modificationIdentifier request)
                     (createSynchronizationTask request) (set_synchronization None d1);
     Ret (out1 ++ out2, d2)).

(** The requests up to the one with the given transaction, and the rest. *)
Fixpoint split_through (hash : Z) (queue : list DeferredRequest)
    : option (list DeferredRequest * list DeferredRequest) :=
  match queue with
  | [] => None
  | r :: queue' =>
      if decide (dr_transactionHash r = hash) then Some ([r], queue')
      else match split_through hash queue' with
           | None => None
           | Some (passed, rest) => Some (r :: passed, rest)
           end
  end.

Definition countPassed (passed : list DeferredRequest) (c : ModifyOpinionController) : ModifyOpinionController :=
  foldl (fun c r => increaseApprovedExpectedCumulativeDownload (dr_maxDataSize r) c) c passed.

Definition runCatchingUpTask (request : CatchingUpRequest) (d : Drive) : Result :=
  guard_assert (no_task d)
    (let d1 :=
       match split_through (cu_modifyTransactionHash request) (fd_deferredModificationRequests d) with
       | None => d
       | Some (passed, rest) =>
           set_opinionController (countPassed passed (fd_opinionController d)) (set_deferred rest d)
       end in
     let '(out1, d2) := refuseManual d1 in
     '(out2, d3) ← startTask CATCHING_UP (cu_modifyTransactionHash request) (createCatchingUpTask request)
                     (set_catchingUp None d2);
     Ret (out1 ++ out2, d3)).

Definition runCancelModificationTask (hash : Z) (d : Drive) : Result :=
  guard_assert (no_task d) (startTask MODIFICATION_CANCEL hash (createCancelTask hash) (set_cancel None d)).

Definition runCloseDriveTask (request : option Z) (d : Drive) : Result :=
  guard_assert (no_task d)
    (startTask DRIVE_CLOSURE (default 0 request) (createClosureTask request) (set_close None d)).

Definition runDeferredModificationManualModificationTask (request : Z) (d : Drive) : Result :=
  startTask MANUAL_MODIFICATION request (createManualTask request) (set_manual None d).

(** [runVerificationTask].  The moved-from entry of the codes stays, empty: the
    second erasure is again of the opinions.  Releasing a verification task whose
    thread was not joined is [std::terminate]. *)
Definition runVerificationTask (request : VerificationRequest) (blocked : list Z) (d : Drive) : Result :=
  let tx := vr_tx request in
  let opinions := default [] (fd_unknownVerificationOpinions d !! tx) in
  let codes := default [] (fd_unknownVerificationCodeQueue d !! tx) in
  let d1 := set_unknownVerificationOpinions (delete tx (delete tx (fd_unknownVerificationOpinions d)))
              (set_unknownCodes (<[tx := []]> (fd_unknownVerificationCodeQueue d)) d) in
  let d2 := set_blocked blocked (set_deferredVerification None d1) in
  guard_assert (negb (bool_decide (is_Some (fd_verificationTask d2))))
    (Ret ([VerificationStarted request opinions codes], set_verificationTask (Some tx) d2)).

(** The verification that waits for the last approved modification. *)
Definition runDeferredVerification (d : Drive) : Result :=
  match fd_deferredVerificationRequest d with
  | Some (request, blocked) =>
      if decide (fd_lastApprovedModification d = vr_approvedModification request)
      then runVerificationTask request blocked d else Ret ([], d)
  | None => Ret ([], d)
  end.

(** The task to run after the verification, by priority. *)
Definition runFirstRequest (d : Drive) : Result :=
  match fd_modificationCancelRequest d with
  | Some hash => runCancelModificationTask hash d
  | None =>
      match fd_catchingUpRequest d with
      | Some request => runCatchingUpTask request d
      | None =>
          match fd_synchronizationRequest d with
          | Some request => runSynchronizationTask request d
          | None =>
              match fd_deferredModificationRequests d, fd_deferredManualModificationRequest d with
              | _ :: _, _ => runDeferredModificationTask d
              | [], Some request => runDeferredModificationManualModificationTask request d
              | [], None => Ret ([], d)
              end
          end
      end
  end.

Definition runNextTask (stopped : bool) (d : Drive) : Result :=
  if stopped then Ret ([], d)
  else
    let d0 := set_task None d in
    match fd_closeDriveRequest d0 with
    | Some request => runCloseDriveTask request d0
    | None =>
        '(out1, d1) ← runDeferredVerification d0;
        '(out2, d2) ← runFirstRequest d1;
        Ret (out1 ++ out2, d2)
    end.

(** [cancelVerification]. *)
Definition cancelVerification (d : Drive) : Drive :=
  set_verificationTask None (set_deferredVerification None (set_blocked [] d)).

(** [if ( !m_task ) runNextTask()]. *)
Definition runIfIdle (stopped : bool) (d : Drive) : Result :=
  if fd_task d then Ret ([], d) else runNextTask stopped d.

(** [startVerification]; that a verification already runs is an error. *)
Definition startVerification (request : VerificationRequest) (blocked : list Z) (d : Drive) : Result :=
  let d1 := set_deferredVerification (Some (request, blocked)) d in
  let run := if decide (fd_lastApprovedModification d1 = vr_approvedModification request)
             then runVerificationTask request blocked d1 else Ret ([], d1) in
  if bool_decide (getTaskType <$> fd_task d1 = Some DRIVE_INITIALIZATION) then Ret ([], d1)
  else if fd_verificationTask d1 then log_err run else run.

(** [onOpinionReceived]. *)
Definition onOpinionReceived (anOpinion : ApprovalTransactionInfo) (d : Drive) : Result :=
  let keep (d : Drive) : Result :=
    match ai_opinions anOpinion with
    | [] => Stop UndefinedBehaviour
    | o :: _ =>
        let tx := ai_modifyTransactionHash anOpinion in
        let opinions := default ∅ (fd_unknownModificationOpinions d !! tx) in
        Ret ([], set_unknownOpinions
                   (<[tx := <[so_replicatorKey o := anOpinion]> opinions]> (fd_unknownModificationOpinions d)) d)
    end in
  match fd_task d with
  | None => keep d
  | Some task =>
      '(ok, task') ← task_processedModifyOpinion anOpinion task;
      if (ok : bool) then Ret ([], set_task (Some task') d) else keep (set_task (Some task') d)
  end.

(** [onVerificationOpinionReceived] and [onVerificationCodeReceived], when no
    verification task takes the message. *)
Definition keepVerificationOpinion (info : VerifyApprovalTxInfo) (d : Drive) : Drive :=
  set_unknownVerificationOpinions
    (<[va_tx info := default [] (fd_unknownVerificationOpinions d !! va_tx info) ++ [info]]>
       (fd_unknownVerificationOpinions d)) d.
Definition keepVerificationCode (info : VerificationCodeInfo) (d : Drive) : Drive :=
  set_unknownCodes
    (<[vc_tx info := default [] (fd_unknownVerificationCodeQueue d !! vc_tx info) ++ [info]]>
       (fd_unknownVerificationCodeQueue d)) d.

Definition onApprovalTransactionHasBeenPublished (stopped : bool) (tx : PublishedApproval) (d : Drive) : Result :=
  guard_assert (negb (bool_decide (is_Some (fd_synchronizationRequest d))))
    (let d1 := cancelVerification d in
     let request := mkCatchingUp (pa_rootHash tx) (pa_modifyTransactionHash tx) in
     match fd_task d1 with
     | None => runNextTask stopped (set_catchingUp (Some request) d1)
     | Some task =>
         '(catchUp, task') ← task_onApprovalTxPublished tx task;
         let d2 := set_task (Some task') d1 in
         Ret ([], if (catchUp : bool) then set_catchingUp (Some request) d2 else d2)
     end).

Definition onApprovalTransactionHasFailedInvalidOpinions (transactionHash : Z) (d : Drive) : Drive :=
  match fd_task d with
  | Some task => set_task (Some (task_onApprovalTxFailed transactionHash task)) d
  | None => d
  end.

Definition startModifyDrive (stopped : bool) (transactionHash maxDataSize : Z) (d : Drive) : Result :=
  d1 ← (match fd_task d with
        | Some task => task' ← task_onModificationInitiated task; Ret (set_task (Some task') d)
        | None => Ret d
        end);
  runIfIdle stopped
    (set_deferred (fd_deferredModificationRequests d1 ++ [DeferredModification transactionHash maxDataSize]) d1).

Definition startStream (stopped : bool) (streamId maxSizeBytes : Z) (d : Drive) : Result :=
  d1 ← (match fd_task d with
        | Some task => task' ← task_onStreamStarted task; Ret (set_task (Some task') d)
        | None => Ret d
        end);
  runIfIdle stopped
    (set_deferred (fd_deferredModificationRequests d1 ++ [DeferredStream streamId maxSizeBytes]) d1).

(** Erasing the first request with the hash. *)
Fixpoint eraseDeferred (hash : Z) (queue : list DeferredRequest) : list DeferredRequest :=
  match queue with
  | [] => []
  | r :: queue' => if decide (dr_transactionHash r = hash) then queue' else r :: eraseDeferred hash queue'
  end.

(** [cancelModifyDrive]: when the running task is to be cancelled the request
    has been moved away, and the search dereferences it for every deferred one. *)
Definition cancelModifyDrive (hash : Z) (d : Drive) : Result :=
  '(cancelled, d1) ← (match fd_task d with
                      | Some task => '(b, task') ←
                          task_shouldCancelModify (fd_opinionController d) (fd_lastApprovedModification d) hash task; Ret (b, set_task (Some task') d)
                      | None => Ret (false, d)
                      end);
  if (cancelled : bool) then
    match fd_deferredModificationRequests d1 with
    | [] => Ret ([], set_cancel (Some hash) d1)
    | _ :: _ => Stop UndefinedBehaviour
    end
  else Ret ([], set_deferred (eraseDeferred hash (fd_deferredModificationRequests d1)) d1).

Definition initiateManualModifications (stopped : bool) (request : Z) (d : Drive) : Result :=
  guard_assert (negb (bool_decide (is_Some (fd_deferredManualModificationRequest d))))
    (d1 ← (match fd_task d with
           | Some task => task' ← task_onManualModificationInitiated task; Ret (set_task (Some task') d)
           | None => Ret d
           end);
     runIfIdle stopped (set_manual (Some request) d1)).

Definition manualSynchronize (stopped : bool) (request : SynchronizationRequest) (d : Drive) : Result :=
  let accept (d : Drive) : Result :=
    runIfIdle stopped (set_synchronization (Some request) (set_catchingUp None d)) in
  match fd_task d with
  | None => accept d
  | Some task =>
      let '(ok, task') := task_manualSynchronize task in
      let d1 := set_task (Some task') d in
      if (ok : bool) then accept d1 else Ret ([SynchronizationRefused request], d1)
  end.

(** [startDriveClosing]: the running task is told with a dereference of the
    request that has been moved away. *)
Definition startDriveClosing (stopped : bool) (request : option Z) (d : Drive) : Result :=
  let d1 := cancelVerification (set_close (Some request) d) in
  match fd_task d1 with
  | None => runNextTask stopped d1
  | Some _ => Stop UndefinedBehaviour
  end.

End Drive.
