(* ===== verification/DriveTasks.v ===== *)
(** * The tasks of a drive ([src/drive/*Task.cpp], [SynchronizationTaskBase.h])

    The remaining tasks -- initialization, cancelling, closing, synchronizing and
    catching up, and what the drive asks of a manual modification -- and the
    instance of [DriveTask] that they form with the modification and stream tasks.
    Disk and torrents are the results of background steps. *)

From S2P Require Import Prelude FsTree ModifyOpinion ModifyApproval FlatDrive.

(** ** The files of a synchronization *)

(** The torrents a drive has in the session, with [m_isUsed]; [fd] is a file
    system entry of the drive folder when it is in the set [disk]. *)
Abbreviation TorrentHandleMap := (gmap Z bool).

(** [markUsedFiles]. *)
Fixpoint markUsedFiles (fd : Folder) (m : TorrentHandleMap) : TorrentHandleMap :=
  match fd with
  | MkFolder _ cs _ _ _ _ =>
      (fix go (cs : list (string * Child)) (m : TorrentHandleMap) : TorrentHandleMap :=
         match cs with
         | [] => m
         | (_, inl sub) :: cs' => go cs' (markUsedFiles sub m)
         | (_, inr f) :: cs' =>
             go cs' (match m !! file_hash f with Some _ => <[file_hash f := true]> m | None => m end)
         end) cs m
  end.

(** [createUnusedFileList], then the callback of the session. *)
Definition createUnusedFileList (tree : Folder) (m : TorrentHandleMap) : Outcome (gset Z * TorrentHandleMap) :=
  let marked := markUsedFiles tree ((fun _ => false) <$> m) in
  guard_assert (bool_decide (marked !! 0 = None))
    (Ret (dom (filter (fun p => p.2 = false) marked), filter (fun p => p.2 = true) marked)).

(** [removeUnusedFiles]. *)
Definition removeUnusedFiles (filesToRemove disk : gset Z) : Outcome (gset Z) :=
  guard_assert (bool_decide (0 ∉ filesToRemove)) (Ret (disk ∖ filesToRemove)).

(** [createCatchingUpFileList]. *)
Fixpoint createCatchingUpFileList (fd : Folder) (disk missing : gset Z) : Outcome (gset Z) :=
  match fd with
  | MkFolder _ cs _ _ _ _ =>
      (fix go (cs : list (string * Child)) (missing : gset Z) : Outcome (gset Z) :=
         match cs with
         | [] => Ret missing
         | (_, inl sub) :: cs' => missing' ← createCatchingUpFileList sub disk missing; go cs' missing'
         | (_, inr f) :: cs' =>
             if decide (file_hash f ∈ disk) then go cs' missing
             else guard_assert (negb (file_hash f =? 0)) (go cs' ({[file_hash f]} ∪ missing))
         end) cs missing
  end.

(** [downloadMissingFiles]: every file arrives on the disk and gets a handle that
    is not marked. *)
Definition downloadMissingFiles (missing : list Z) (disk : gset Z) (m : TorrentHandleMap) : gset Z * TorrentHandleMap :=
  foldl (fun '(disk, m) h => ({[h]} ∪ disk, <[h := false]> m)) (disk, m) missing.

(** [startSynchronizingDriveWithSandbox] and [continueSynchronizingDriveWithSandbox]. *)
Definition synchronizeFiles (tree : Folder) (disk : gset Z) (m : TorrentHandleMap) : Outcome (gset Z * TorrentHandleMap) :=
  '(unused, m') ← createUnusedFileList tree m;
  disk' ← removeUnusedFiles unused disk;
  Ret (disk', m').

(** The whole of a synchronization with the tree that was downloaded. *)
Definition synchronization (tree : Folder) (disk : gset Z) (m : TorrentHandleMap) : Outcome (gset Z * TorrentHandleMap) :=
  '(filesToRemove, m1) ← createUnusedFileList tree m;
  disk1 ← removeUnusedFiles filesToRemove disk;
  missing ← createCatchingUpFileList tree disk1 ∅;
  let '(disk2, m2) := downloadMissingFiles (elements missing) disk1 m1 in
  synchronizeFiles tree disk2 m2.

(** ** The state of the tasks *)

(** [InitializeDriveTask]; of a completed modification, whether it was cancelled. *)
Record InitializeTask := mkInit {
  in_completed : list (Z * bool); in_cancelRequests : list Z; in_initialized : bool }.

Definition init_shouldCancelModify (c : ModifyOpinionController) (hash : Z) (t : InitializeTask) : bool * InitializeTask :=
  if in_initialized t then (bool_decide (notApprovedModificationId c = hash), t)
  else (false, mkInit (in_completed t) (in_cancelRequests t ++ [hash]) (in_initialized t)).

(** [SynchronizationTaskBase] with its two classes; the members it has of
    [UpdateDriveTaskBase] are those of [ModifyTask]. *)
Inductive SyncRequest :=
  | CatchingUp (request : CatchingUpRequest)
  | ManualSynchronization (request : SynchronizationRequest).

Record SyncTask := mkSync {
  sk_request : SyncRequest;
  sk_base : ModifyTask;
  sk_missing : list Z;          (* from [m_catchingUpFileIt] *)
  sk_taskIsExecuted : bool }.

Definition sync_hash (t : SyncTask) : Z :=
  match sk_request t with
  | CatchingUp r => cu_modifyTransactionHash r
  | ManualSynchronization r => sy_modificationIdentifier r
  end.
Definition sync_rootHash (t : SyncTask) : Z :=
  match sk_request t with CatchingUp r => cu_rootHash r | ManualSynchronization r => sy_rootHash r end.

Definition set_base (b : ModifyTask) (t : SyncTask) : SyncTask :=
  mkSync (sk_request t) b (sk_missing t) (sk_taskIsExecuted t).
Definition set_missing (l : list Z) (t : SyncTask) : SyncTask :=
  mkSync (sk_request t) (sk_base t) l (sk_taskIsExecuted t).
Definition set_executed (t : SyncTask) : SyncTask :=
  mkSync (sk_request t) (sk_base t) (sk_missing t) true.

Definition newModifyTask (hash maxDataSize : Z) : ModifyTask :=
  mkTask hash maxDataSize None SUCCESS None false false false false noCollected.

Definition newSyncTask (r : SyncRequest) : SyncTask := mkSync r (newModifyTask 0 0) [] false.

(** [ManualModificationsTask]: what the drive's events see of it. *)
Record ManualTask := mkManual {
  mm_request : Z; mm_isExecutingQuery : bool; mm_taskIsInterrupted : bool; mm_taskIsFinished : bool }.

Definition manual_finishTask (t : ManualTask) : ManualTask :=
  mkManual (mm_request t) (mm_isExecutingQuery t) (mm_taskIsInterrupted t) true.

Definition manual_terminate (t : ManualTask) : ManualTask :=
  if mm_taskIsInterrupted t then t
  else
    let t1 := mkManual (mm_request t) (mm_isExecutingQuery t) true (mm_taskIsFinished t) in
    if mm_isExecutingQuery t1 then t1 else manual_finishTask t1.

(** ** Synchronization *)

(** What a synchronization starts next. *)
Inductive SyncOutput :=
  | SyncFinish                       (* finishTask *)
  | DownloadFsTree (rootHash : Z)
  | CreateUnusedFileList
  | DownloadMissingFile (hash : Z)
  | ModifyDriveInSandbox
  | SendSingle (info : ApprovalTransactionInfo)
  | SyncDriveWithSandbox.

Section Synchronization.
  Context (dp : DriveParams).
  Notation SyncResult := (Outcome (list SyncOutput * SyncTask)).

Definition sync_setDownloading (b : bool) (t : SyncTask) : SyncTask :=
  let m := sk_base t in set_base (set_download b (mt_actionListIsReceived m) (mt_status m) m) t.

(** [breakTorrentDownloadAndRunNextTask] with its empty [tryBreakTask]. *)
Definition sync_break (t : SyncTask) : SyncTask :=
  set_base (breakTorrentDownloadAndRunNextTask dp true (sk_base t)).2 t.

Definition sync_run (lastApproved driveRootHash : Z) (t : SyncTask) : SyncResult :=
  if decide (lastApproved = sync_hash t) then
    guard_assert (driveRootHash =? sync_rootHash t) (Ret ([SyncFinish], t))
  else if decide (sync_rootHash t = driveRootHash) then
    Ret ([ModifyDriveInSandbox], set_base (set_rootHash driveRootHash (sk_base t)) t)
  else if dp_session dp then Ret ([DownloadFsTree (sync_rootHash t)], sync_setDownloading true t)
  else Ret ([], t).

(** The file structure has been downloaded and read. *)
Definition fsTreeDownloaded (infoHash : Z) (t : SyncTask) : SyncResult :=
  guard_assert (negb (mt_taskIsInterrupted (sk_base t)))
    (let t1 := sync_setDownloading false t in
     Ret ([CreateUnusedFileList], set_base (set_rootHash infoHash (sk_base t1)) t1)).

(** One step of [downloadMissingFiles]. *)
Definition downloadNext (t : SyncTask) : SyncResult :=
  guard_assert (negb (mt_taskIsInterrupted (sk_base t)))
    (match sk_missing t with
     | [] => Ret ([ModifyDriveInSandbox], sync_setDownloading false t)
     | h :: rest =>
         guard_assert (negb (h =? 0))
           (let t1 := set_missing rest t in
            if dp_session dp then Ret ([DownloadMissingFile h], sync_setDownloading true t1) else Ret ([], t1))
     end).

(** The end of [removeUnusedFiles]; [missing] is the list it prepares. *)
Definition unusedFilesRemoved (missing : list Z) (t : SyncTask) : SyncResult :=
  if mt_taskIsInterrupted (sk_base t) then Ret ([SyncFinish], t)
  else downloadNext (set_missing missing t).

(** [myOpinionIsCreated] of the base class and of [CatchingUpTask]. *)
Definition sync_myOpinionIsCreated (t : SyncTask) : SyncResult :=
  let base (t : SyncTask) : list SyncOutput * SyncTask :=
    if mt_taskIsInterrupted (sk_base t) then ([SyncFinish], t)
    else ([SyncDriveWithSandbox], set_base (set_calculated (sk_base t)) t) in
  match sk_request t with
  | CatchingUp _ =>
      match mt_myOpinion (sk_base t) with
      | None => Stop AssertFailure
      | Some mine => let '(out, t') := base t in Ret (SendSingle mine :: out, t')
      end
  | ManualSynchronization _ => Ret (base t)
  end.

(** [modifyIsCompleted]: the root hash and the last approved modification the
    drive gets. *)
Definition sync_modifyIsCompleted (t : SyncTask) : Outcome (Z * Z * SyncTask) :=
  match mt_sandboxRootHash (sk_base t) with
  | None => Stop AssertFailure
  | Some rootHash =>
      Ret (rootHash, sync_hash t,
           match sk_request t with CatchingUp _ => t | ManualSynchronization _ => set_executed t end)
  end.

(** [shouldCancelModify] of [CatchingUpTask]; a manual synchronization asserts. *)
Definition sync_shouldCancelModify (c : ModifyOpinionController) (lastApproved hash : Z) (t : SyncTask)
    : Outcome bool :=
  match sk_request t with
  | CatchingUp r =>
      if decide (hash = notApprovedModificationId c) then
        guard_assert (bool_decide (hash <> cu_modifyTransactionHash r))
          (guard_assert (lastApproved =? cu_modifyTransactionHash r) (Ret true))
      else Ret false
  | ManualSynchronization _ => Stop AssertFailure
  end.

Definition sync_onApprovalTxPublished (t : SyncTask) : Outcome (bool * SyncTask) :=
  match sk_request t with
  | CatchingUp _ => Ret (true, if mt_taskIsInterrupted (sk_base t) then t else sync_break t)
  | ManualSynchronization _ => Stop AssertFailure
  end.

Definition sync_manualSynchronize (t : SyncTask) : bool * SyncTask :=
  (true, if mt_taskIsInterrupted (sk_base t) then t else sync_break t).

End Synchronization.

(** ** The tasks together *)

Inductive AnyTask :=
  | InitializeDriveTask (t : InitializeTask)
  | ModifyDriveTask_ (t : ModifyTask)
  | StreamTask_ (s : StreamTask.StreamTask)
  | SynchronizationTask (t : SyncTask)
  | CancelModificationTask (hash : Z)
  | CloseDriveTask (request : option Z)
  | ManualModificationsTask (t : ManualTask).

Section Instance_.
  Context (dp : DriveParams).

Definition any_type (t : AnyTask) : DriveTaskType :=
  match t with
  | InitializeDriveTask _ => DRIVE_INITIALIZATION
  | ModifyDriveTask_ _ => MODIFICATION_REQUEST
  | StreamTask_ _ => STREAM_REQUEST
  | SynchronizationTask t =>
      match sk_request t with CatchingUp _ => CATCHING_UP | ManualSynchronization _ => MANUAL_SYNCHRONIZATION end
  | CancelModificationTask _ => MODIFICATION_CANCEL
  | CloseDriveTask _ => DRIVE_CLOSURE
  | ManualModificationsTask _ => MANUAL_MODIFICATION
  end.

Definition any_transactionHash (t : AnyTask) : option Z :=
  match t with
  | ModifyDriveTask_ t => Some (mt_transactionHash t)
  | StreamTask_ s => Some (mt_transactionHash (StreamTask.sk_base s))
  | SynchronizationTask t => Some (sync_hash t)
  | _ => None
  end.

Definition any_onApprovalTxPublished (tx : PublishedApproval) (t : AnyTask) : Outcome (bool * AnyTask) :=
  match t with
  | InitializeDriveTask _ => Ret (true, t)
  | ModifyDriveTask_ m => '(b, _, m') ← ModifyDriveTask.onApprovalTxPublished dp tx m; Ret (b, ModifyDriveTask_ m')
  | StreamTask_ s => '(b, _, s') ← StreamTask.onApprovalTxPublished dp tx s; Ret (b, StreamTask_ s')
  | SynchronizationTask s => '(b, s') ← sync_onApprovalTxPublished dp s; Ret (b, SynchronizationTask s')
  | CancelModificationTask _ => Ret (false, t)
  | CloseDriveTask _ => Stop AssertFailure
  | ManualModificationsTask m => Ret (true, ManualModificationsTask (manual_terminate m))
  end.

Definition any_onApprovalTxFailed (hash : Z) (t : AnyTask) : AnyTask :=
  match t with
  | ModifyDriveTask_ m => ModifyDriveTask_ (ModifyDriveTask.onApprovalTxFailed hash m).2
  | StreamTask_ s => StreamTask_ (StreamTask.onApprovalTxFailed hash s).2
  | _ => t
  end.

Definition any_shouldCancelModify (c : ModifyOpinionController) (lastApproved hash : Z) (t : AnyTask)
    : Outcome (bool * AnyTask) :=
  match t with
  | InitializeDriveTask i => let '(b, i') := init_shouldCancelModify c hash i in Ret (b, InitializeDriveTask i')
  | ModifyDriveTask_ m =>
      let '(b, _, m') := shouldCancelModify dp (ModifyDriveTask.txReceived m) hash m in Ret (b, ModifyDriveTask_ m')
  | StreamTask_ s =>
      let '(b, _, m') := shouldCancelModify dp (co_txReceived (StreamTask.sk_own s)) hash (StreamTask.sk_base s) in
      Ret (b, StreamTask_ (StreamTask.mkStreamTask m' (StreamTask.sk_own s)))
  | SynchronizationTask s => b ← sync_shouldCancelModify c lastApproved hash s; Ret (b, t)
  | CloseDriveTask _ => Stop AssertFailure
  | CancelModificationTask _ | ManualModificationsTask _ => Ret (false, t)
  end.

Definition any_processedModifyOpinion (info : ApprovalTransactionInfo) (t : AnyTask) : Outcome (bool * AnyTask) :=
  match t with
  | ModifyDriveTask_ m =>
      '(b, _, m') ← ModifyDriveTask.processedModifyOpinion dp info m; Ret (b, ModifyDriveTask_ m')
  | StreamTask_ s => '(b, _, s') ← StreamTask.processedModifyOpinion dp info s; Ret (b, StreamTask_ s')
  | _ => Ret (false, t)
  end.

(** [onModificationInitiated]; a stream or manual modification is announced in
    the same way, except to a manual synchronization. *)
Definition any_onModificationInitiated (t : AnyTask) : Outcome AnyTask :=
  match t with
  | ManualModificationsTask m => Ret (ManualModificationsTask (manual_terminate m))
  | SynchronizationTask s =>
      match sk_request s with CatchingUp _ => Ret t | ManualSynchronization _ => Stop AssertFailure end
  | _ => Ret t
  end.
Definition any_onOtherInitiated (t : AnyTask) : Outcome AnyTask :=
  match t with ManualModificationsTask m => Ret (ManualModificationsTask (manual_terminate m)) | _ => Ret t end.

Definition any_manualSynchronize (t : AnyTask) : bool * AnyTask :=
  match t with
  | ModifyDriveTask_ m => (true, ModifyDriveTask_ (onDriveClose dp (ModifyDriveTask.txReceived m) m).2)
  | StreamTask_ s =>
      (true, StreamTask_ (StreamTask.mkStreamTask
                            (onDriveClose dp (co_txReceived (StreamTask.sk_own s)) (StreamTask.sk_base s)).2
                            (StreamTask.sk_own s)))
  | SynchronizationTask s => let '(b, s') := sync_manualSynchronize dp s in (b, SynchronizationTask s')
  | CancelModificationTask _ => (true, t)
  | ManualModificationsTask m => (true, ManualModificationsTask (manual_terminate m))
  | InitializeDriveTask _ | CloseDriveTask _ => (false, t)
  end.

(** The constructor of a modification task drops the opinions it is given. *)
#[export] Instance any_task : DriveTask AnyTask := {
  getTaskType := any_type;
  getModificationTransactionHash := any_transactionHash;
  task_onApprovalTxPublished := any_onApprovalTxPublished;
  task_onApprovalTxFailed := any_onApprovalTxFailed;
  task_shouldCancelModify := any_shouldCancelModify;
  task_processedModifyOpinion := any_processedModifyOpinion;
  task_onModificationInitiated := any_onModificationInitiated;
  task_onStreamStarted := any_onOtherInitiated;
  task_onManualModificationInitiated := any_onOtherInitiated;
  task_manualSynchronize := any_manualSynchronize;
  createInitializationTask l := InitializeDriveTask (mkInit l [] false);
  createModificationTask h s _ := ModifyDriveTask_ (newModifyTask h s);
  createStreamTask h s := StreamTask_ (StreamTask.mkStreamTask (newModifyTask h s) noCollected);
  createCatchingUpTask r := SynchronizationTask (newSyncTask (CatchingUp r));
  createCancelTask := CancelModificationTask;
  createClosureTask := CloseDriveTask;
  createSynchronizationTask r := SynchronizationTask (newSyncTask (ManualSynchronization r));
  createManualTask r := ManualModificationsTask (mkManual r false false false) }.

#[export] Instance any_task_laws : DriveTaskLaws AnyTask.
Proof. by split. Qed.

(** ** The end of the initialization *)

(** [onInitialized], up to [finishTask]. *)
Fixpoint cancelRequested (requests : list Z) (found : bool) (d : DefaultFlatDrive AnyTask)
    : Outcome (bool * DefaultFlatDrive AnyTask) :=
  match requests with
  | [] => Ret (found, d)
  | r :: requests' =>
      if decide (r = notApprovedModificationId (fd_opinionController d)) then
        guard_assert (negb found) ('(_, d') ← cancelModifyDrive r d; cancelRequested requests' true d')
      else cancelRequested requests' found d
  end.

Definition onInitialized (t : InitializeTask) (d : DefaultFlatDrive AnyTask) : Outcome (DefaultFlatDrive AnyTask) :=
  let d0 := set_task (Some (InitializeDriveTask (mkInit (in_completed t) (in_cancelRequests t) true))) d in
  '(found, d1) ← cancelRequested (in_cancelRequests t) false d0;
  match list_find (fun p => p.1 = notApprovedModificationId (fd_opinionController d1)) (in_completed t) with
  | Some (_, (hash, true)) =>
      guard_assert (negb found) ('(_, d2) ← cancelModifyDrive hash d1; Ret d2)
  | _ => Ret d1
  end.

End Instance_.
