(* ===== verification/FlatDriveSpec.v ===== *)
(** * Properties of the task queue of a drive *)

From S2P Require Import Prelude DownloadChannels ModifyOpinion ModifyApproval Verification FlatDrive DriveTasks.

Section Spec.
  Context {T : Type} `{Laws : DriveTaskLaws T}.
  Notation Drive := (DefaultFlatDrive T).

(** ** The next task *)

Definition opt_list {A B} (f : A -> B) (o : option A) : list B :=
  match o with Some a => [f a] | None => [] end.

Definition deferred_id (r : DeferredRequest) : DriveTaskType * Z :=
  match r with
  | DeferredModification h _ => (MODIFICATION_REQUEST, h)
  | DeferredStream h _ => (STREAM_REQUEST, h)
  end.

(** The requests that wait, by priority. *)
Definition waiting (d : Drive) : list (DriveTaskType * Z) :=
  opt_list (fun r => (DRIVE_CLOSURE, default 0 r)) (fd_closeDriveRequest d) ++
  opt_list (fun h => (MODIFICATION_CANCEL, h)) (fd_modificationCancelRequest d) ++
  opt_list (fun r => (CATCHING_UP, cu_modifyTransactionHash r)) (fd_catchingUpRequest d) ++
  opt_list (fun r => (MANUAL_SYNCHRONIZATION, sy_modificationIdentifier r)) (fd_synchronizationRequest d) ++
  map deferred_id (fd_deferredModificationRequests d) ++
  opt_list (fun r => (MANUAL_MODIFICATION, r)) (fd_deferredManualModificationRequest d).

Definition started (out : list DriveOutput) : list (DriveTaskType * Z) :=
  omap (fun o => match o with Started ty id => Some (ty, id) | _ => None end) out.

Lemma started_app out1 out2 : started (out1 ++ out2) = started out1 ++ started out2.
Proof. apply omap_app. Qed.

Lemma startTask_ok ty id task (d : Drive) :
  getTaskType task = ty -> startTask ty id task d = Ret ([Started ty id], set_task (Some task) d).
Proof. intros E. unfold startTask. by rewrite bool_decide_true. Qed.

Lemma refuseManual_inv (d : Drive) out d1 :
  refuseManual d = (out, d1) -> started out = [] /\ d1 = set_manual None d.
Proof.
  unfold refuseManual. destruct (fd_deferredManualModificationRequest d) eqn:E; intros [= <- <-]; split; try done.
  destruct d; cbn in *. by rewrite E.
Qed.

Lemma split_through_spec h queue :
  match split_through h queue with
  | Some (passed, rest) => queue = passed ++ rest /\ exists init r, passed = init ++ [r] /\ dr_transactionHash r = h /\
      Forall (fun r' => dr_transactionHash r' <> h) init
  | None => Forall (fun r => dr_transactionHash r <> h) queue
  end.
Proof.
  induction queue as [|r queue IH]; cbn; [constructor|]. case_decide as E.
  - split; [done|]. by exists [], r.
  - destruct (split_through h queue) as [[passed rest]|]; [|by constructor].
    destruct IH as [-> (init & r' & -> & ? & ?)]. split; [done|]. exists (r :: init), r'. split_and!; auto.
Qed.

Lemma countPassed_spec passed c :
  oc_approvedExpectedCumulativeDownload (countPassed passed c) ≡₆₄
    oc_approvedExpectedCumulativeDownload c + foldr Z.add 0 (map dr_maxDataSize passed) /\
  oc_approvedCumulativeUploads (countPassed passed c) = oc_approvedCumulativeUploads c /\
  oc_notApprovedCumulativeUploads (countPassed passed c) = oc_notApprovedCumulativeUploads c.
Proof.
  unfold countPassed. revert c. induction passed as [|r passed IH]; intros c; cbn; [by rewrite Z.add_0_r|].
  destruct (IH (increaseApprovedExpectedCumulativeDownload (dr_maxDataSize r) c)) as (E & -> & ->).
  split; [|done]. rewrite E. cbn. unfold u64_add. rewrite u64_eq64. apply eq_eq64. lia.
Qed.

(** The fields the queue is about. *)
Record same_queue (d d1 : Drive) : Prop := {
  sq_task : fd_task d1 = fd_task d;
  sq_close : fd_closeDriveRequest d1 = fd_closeDriveRequest d;
  sq_cancel : fd_modificationCancelRequest d1 = fd_modificationCancelRequest d;
  sq_catchingUp : fd_catchingUpRequest d1 = fd_catchingUpRequest d;
  sq_synchronization : fd_synchronizationRequest d1 = fd_synchronizationRequest d;
  sq_deferred : fd_deferredModificationRequests d1 = fd_deferredModificationRequests d;
  sq_manual : fd_deferredManualModificationRequest d1 = fd_deferredManualModificationRequest d;
  sq_controller : fd_opinionController d1 = fd_opinionController d }.

Lemma same_waiting d d1 : same_queue d d1 -> waiting d1 = waiting d.
Proof. intros []. unfold waiting. congruence. Qed.

(** No verification runs, or none waits. *)
Definition verification_free (d : Drive) : Prop :=
  fd_verificationTask d = None \/ fd_deferredVerificationRequest d = None.

Lemma deferredVerification_ok (d : Drive) :
  verification_free d ->
  exists out d1, runDeferredVerification d = Ret (out, d1) /\ started out = [] /\ same_queue d d1.
Proof.
  intros Hv. unfold runDeferredVerification.
  destruct (fd_deferredVerificationRequest d) as [[request blocked]|] eqn:Hd; [|by exists [], d].
  case_decide; [|by exists [], d]. unfold runVerificationTask. cbn.
  destruct Hv as [->|?]; [|congruence]. cbn.
  do 2 eexists. split; [done|]. by split.
Qed.

Lemma deferredVerification_inv (d : Drive) out d1 :
  runDeferredVerification d = Ret (out, d1) -> started out = [] /\ same_queue d d1.
Proof.
  unfold runDeferredVerification.
  destruct (fd_deferredVerificationRequest d) as [[request blocked]|]; [|by intros [= <- <-]].
  case_decide; [|by intros [= <- <-]]. unfold runVerificationTask.
  intros [_ [= <- <-]]%guard_assert_inv. by split.
Qed.

(** What is left after the first request has been started. *)
Definition after_first (d : Drive) (out : list DriveOutput) (d' : Drive) : Prop :=
  match fst <$> head (waiting d), fd_catchingUpRequest d with
  | Some CATCHING_UP, Some r =>
      match split_through (cu_modifyTransactionHash r) (fd_deferredModificationRequests d) with
      | Some (passed, rest) => fd_deferredModificationRequests d' = rest /\
          oc_approvedExpectedCumulativeDownload (fd_opinionController d') ≡₆₄
            oc_approvedExpectedCumulativeDownload (fd_opinionController d) +
            foldr Z.add 0 (map dr_maxDataSize passed)
      | None => fd_deferredModificationRequests d' = fd_deferredModificationRequests d
      end
  | _, _ => fd_opinionController d' = fd_opinionController d /\
            map deferred_id (fd_deferredModificationRequests d) =
            filter (fun p => p.1 = MODIFICATION_REQUEST \/ p.1 = STREAM_REQUEST) (started out) ++
            map deferred_id (fd_deferredModificationRequests d')
  end.

Record next_ok (d : Drive) (out : list DriveOutput) (d' : Drive) : Prop := {
  no_started : started out = take 1 (waiting d);
  no_task : getTaskType <$> fd_task d' = fst <$> head (waiting d);
  no_lost : waiting d' `sublist_of` tail (waiting d);
  no_after : after_first d out d' }.

Lemma waiting_sublist (passed rest : list DeferredRequest) (sy : option SynchronizationRequest) (mn : option Z) :
  opt_list (fun r => (MANUAL_SYNCHRONIZATION, sy_modificationIdentifier r)) sy ++ map deferred_id rest ++ []
    `sublist_of`
  opt_list (fun r => (MANUAL_SYNCHRONIZATION, sy_modificationIdentifier r)) sy ++
    map deferred_id (passed ++ rest) ++ opt_list (fun r => (MANUAL_MODIFICATION, r)) mn.
Proof.
  rewrite map_app, <- app_assoc. apply sublist_app; [done|]. apply sublist_inserts_l.
  apply sublist_app; [done|]. apply sublist_nil_l.
Qed.

Lemma catchUp_ok (d : Drive) r :
  fd_task d = None -> fd_closeDriveRequest d = None -> fd_modificationCancelRequest d = None ->
  fd_catchingUpRequest d = Some r ->
  exists out d', runCatchingUpTask r d = Ret (out, d') /\ next_ok d out d'.
Proof.
  intros Ht Hcl Hcn Hcu. unfold runCatchingUpTask.
  destruct d as [task cl cancel cu sy df mn dv vt bl la uo uvo uc oc tr old]; cbn in *; subst.
  pose proof (split_through_spec (cu_modifyTransactionHash r) df) as Hsp.
  destruct (split_through (cu_modifyTransactionHash r) df) as [[passed rest]|] eqn:Hs; cbn;
    (destruct (refuseManual _) as [out1 d1] eqn:Hm; apply refuseManual_inv in Hm as [Hout ->]);
    erewrite startTask_ok by apply type_catchingUp; (do 2 eexists; split; [done|]);
    split; rewrite ?started_app, ?Hout; cbn; rewrite ?type_catchingUp; try done.
  - destruct Hsp as [-> _]. apply waiting_sublist.
  - unfold after_first; cbn. rewrite Hs. split; [done|]. apply countPassed_spec.
  - apply (waiting_sublist []).
  - unfold after_first; cbn. by rewrite Hs.
Qed.

Lemma firstRequest_ok (d : Drive) :
  fd_task d = None -> fd_closeDriveRequest d = None ->
  exists out d', runFirstRequest d = Ret (out, d') /\ next_ok d out d'.
Proof.
  intros Ht Hcl. unfold runFirstRequest.
  destruct (fd_modificationCancelRequest d) as [h|] eqn:Hcn.
  { unfold runCancelModificationTask, FlatDrive.no_task. rewrite Ht. cbn.
    erewrite startTask_ok by apply type_cancel. do 2 eexists. split; [done|].
    destruct d; cbn in *; subst. split; cbn; [done | by rewrite type_cancel | done | by split]. }
  destruct (fd_catchingUpRequest d) as [r|] eqn:Hcu; [by apply catchUp_ok|].
  destruct d as [task cl cancel cu sy df mn dv vt bl la uo uvo uc oc tr old]; cbn in *; subst.
  destruct sy as [r|].
  { unfold runSynchronizationTask; cbn.
    destruct (refuseManual _) as [out1 d1] eqn:Hm; apply refuseManual_inv in Hm as [Hout ->].
    erewrite startTask_ok by apply type_synchronization. do 2 eexists. split; [done|].
    split; rewrite ?started_app, ?Hout; cbn; rewrite ?type_synchronization; try done.
    - apply (waiting_sublist [] df None).
    - unfold after_first; cbn. by rewrite started_app, Hout. }
  destruct df as [|[h s|h s] rest].
  - destruct mn as [m|].
    + unfold runDeferredModificationManualModificationTask.
      erewrite startTask_ok by apply type_manual. do 2 eexists. split; [done|].
      split; cbn; [done | by rewrite type_manual | done | by split].
    + do 2 eexists. split; [done|]. by split.
  - unfold runDeferredModificationTask, runModificationTask; cbn.
    erewrite startTask_ok by apply type_modification. do 2 eexists. split; [done|].
    split; cbn; [done | by rewrite type_modification | done | by split].
  - unfold runDeferredModificationTask, runStreamTask; cbn.
    erewrite startTask_ok by apply type_stream. do 2 eexists. split; [done|].
    split; cbn; [done | by rewrite type_stream | done | by split].
Qed.

Lemma nextTask_ok (d : Drive) :
  verification_free d ->
  exists out d', runNextTask false d = Ret (out, d') /\ next_ok d out d'.
Proof.
  intros Hv. unfold runNextTask. cbn -[runDeferredVerification runFirstRequest].
  destruct (fd_closeDriveRequest d) as [request|] eqn:Hcl.
  { unfold runCloseDriveTask; cbn. erewrite startTask_ok by apply type_closure. do 2 eexists. split; [done|].
    destruct d; cbn in *; subst. split; cbn; [done | by rewrite type_closure | done | by split]. }
  destruct (deferredVerification_ok (set_task None d)) as (out1 & d1 & -> & Hout & Hq); [done|].
  destruct (firstRequest_ok d1) as (out2 & d2 & E & [H1 H2 H3 H4]);
    [by rewrite (sq_task _ _ Hq) | by rewrite (sq_close _ _ Hq) |].
  cbn -[runFirstRequest]. rewrite E. do 2 eexists. split; [done|].
  pose proof (same_waiting _ _ Hq) as Hw. change (waiting (set_task None d)) with (waiting d) in Hw.
  rewrite Hw in *. split; try done.
  - by rewrite started_app, Hout.
  - unfold after_first in *. rewrite started_app, Hout, Hw, (sq_catchingUp _ _ Hq), (sq_deferred _ _ Hq),
      (sq_controller _ _ Hq) in *. exact H4.
Qed.

(** ** Sequences of events *)

(** What happens to a drive, in any order.  [TaskStep] is whatever the running
    task does to itself and to the drive besides its queue; [TaskFinished] is its
    call of [runNextTask]. *)
Inductive DriveEvent :=
  | EvStartModifyDrive (transactionHash maxDataSize : Z)
  | EvStartStream (streamId maxSizeBytes : Z)
  | EvCancelModifyDrive (hash : Z)
  | EvInitiateManualModifications (request : Z)
  | EvManualSynchronize (request : SynchronizationRequest)
  | EvStartVerification (request : VerificationRequest) (blocked : list Z)
  | EvStartDriveClosing (request : option Z)
  | EvOpinion (anOpinion : ApprovalTransactionInfo)
  | EvPublished (tx : PublishedApproval)
  | EvFailed (transactionHash : Z)
  | EvTaskStep (f : T -> T) (lastApproved : Z) (c : ModifyOpinionController)
  | EvTaskFinished.

Definition taskStep (f : T -> T) (lastApproved : Z) (c : ModifyOpinionController) (d : Drive) : Drive :=
  mkDrive (f <$> fd_task d) (fd_closeDriveRequest d) (fd_modificationCancelRequest d)
    (fd_catchingUpRequest d) (fd_synchronizationRequest d) (fd_deferredModificationRequests d)
    (fd_deferredManualModificationRequest d) (fd_deferredVerificationRequest d) (fd_verificationTask d)
    (fd_blockedReplicators d) lastApproved (fd_unknownModificationOpinions d)
    (fd_unknownVerificationOpinions d) (fd_unknownVerificationCodeQueue d) c
    (fd_modifyTraffic d) (fd_oldModifications d).

Definition handle (e : DriveEvent) (d : Drive) : Outcome (list DriveOutput * Drive) :=
  match e with
  | EvStartModifyDrive h s => startModifyDrive false h s d
  | EvStartStream h s => startStream false h s d
  | EvCancelModifyDrive h => cancelModifyDrive h d
  | EvInitiateManualModifications r => initiateManualModifications false r d
  | EvManualSynchronize r => manualSynchronize false r d
  | EvStartVerification r b => startVerification r b d
  | EvStartDriveClosing r => startDriveClosing false r d
  | EvOpinion o => onOpinionReceived o d
  | EvPublished tx => onApprovalTransactionHasBeenPublished false tx d
  | EvFailed h => Ret ([], onApprovalTransactionHasFailedInvalidOpinions h d)
  | EvTaskStep f l c => Ret ([], taskStep f l c d)
  | EvTaskFinished => runNextTask false d
  end.

Fixpoint handleAll (es : list DriveEvent) (d : Drive) : Outcome (list DriveOutput * Drive) :=
  match es with
  | [] => Ret ([], d)
  | e :: es' =>
      '(out1, d1) ← handle e d;
      '(out2, d2) ← handleAll es' d1;
      Ret (out1 ++ out2, d2)
  end.

(** The modifications and streams asked for, and those started. *)
Definition submitted (es : list DriveEvent) : list (DriveTaskType * Z) :=
  omap (fun e => match e with
                 | EvStartModifyDrive h _ => Some (MODIFICATION_REQUEST, h)
                 | EvStartStream h _ => Some (STREAM_REQUEST, h)
                 | _ => None
                 end) es.
Definition is_modification (p : DriveTaskType * Z) : Prop := p.1 = MODIFICATION_REQUEST \/ p.1 = STREAM_REQUEST.
#[local] Instance is_modification_dec p : Decision (is_modification p).
Proof. unfold is_modification. apply _. Defined.
Definition modifications (out : list DriveOutput) : list (DriveTaskType * Z) := filter is_modification (started out).

Definition queue_ids (d : Drive) : list (DriveTaskType * Z) := map deferred_id (fd_deferredModificationRequests d).

Lemma modifications_app out1 out2 : modifications (out1 ++ out2) = modifications out1 ++ modifications out2.
Proof. unfold modifications. by rewrite started_app, filter_app. Qed.

(** What a step does to the queue, the events adding [new] to it. *)
Definition step_ok (new : list (DriveTaskType * Z)) (d : Drive) (out : list DriveOutput) (d' : Drive) : Prop :=
  ((fd_task d = None -> waiting d = []) -> fd_task d' = None -> waiting d' = []) /\
  modifications out ++ queue_ids d' `sublist_of` queue_ids d ++ new.

Lemma next_ok_idle (d : Drive) out d' : next_ok d out d' -> fd_task d' = None -> waiting d' = [].
Proof.
  intros [_ Ht Hw _] E. rewrite E in Ht. destruct (waiting d); [|done]. cbn in Hw. by apply sublist_nil_r in Hw.
Qed.

Lemma next_ok_queue (d : Drive) out d' :
  next_ok d out d' -> modifications out ++ queue_ids d' `sublist_of` queue_ids d.
Proof.
  intros [Hst Ht Hw Ha]. unfold after_first in Ha.
  assert (modifications out ++ queue_ids d' = queue_ids d \/
          exists r, fd_catchingUpRequest d = Some r /\ (fst <$> head (waiting d)) = Some CATCHING_UP) as [->|(r & Hr & Hh)].
  { destruct (fst <$> head (waiting d)) as [[]|], (fd_catchingUpRequest d); eauto;
      left; destruct Ha as [_ Ha]; unfold modifications, queue_ids; rewrite Ha; f_equal; by apply list_filter_iff. }
  { done. }
  rewrite Hh, Hr in Ha. unfold modifications. rewrite Hst.
  destruct (waiting d) as [|[ty id] ?]; [done|]. cbn in Hh. injection Hh as ->. cbn.
  rewrite decide_False by (intros [?|?]; done). cbn. unfold queue_ids.
  pose proof (split_through_spec (cu_modifyTransactionHash r) (fd_deferredModificationRequests d)) as Hsp.
  destruct (split_through _ _) as [[passed rest]|]; [|by rewrite Ha].
  destruct Hsp as [-> _], Ha as [-> _]. rewrite map_app. by apply sublist_inserts_l.
Qed.


Lemma nextTask_inv (d : Drive) out d' : runNextTask false d = Ret (out, d') -> next_ok d out d'.
Proof.
  intros E. destruct (fd_verificationTask d) eqn:Hv.
  2: { destruct (nextTask_ok d (or_introl Hv)) as (? & ? & E' & ?). rewrite E in E'. by injection E' as <- <-. }
  unfold runNextTask in E. cbn -[runDeferredVerification runFirstRequest] in E.
  destruct (fd_closeDriveRequest d) as [request|] eqn:Hcl.
  { unfold runCloseDriveTask in E; cbn in E. rewrite startTask_ok in E by apply type_closure.
    injection E as <- <-. destruct d; cbn in *; subst.
    split; cbn; [done | by rewrite type_closure | done | by split]. }
  apply bind_ret_inv in E as ([out1 d1] & E1 & E). apply bind_ret_inv in E as ([out2 d2] & E2 & E).
  injection E as <- <-. apply deferredVerification_inv in E1 as [Hout Hq].
  destruct (firstRequest_ok d1) as (out' & d'' & E3 & [H1 H2 H3 H4]);
    [by rewrite (sq_task _ _ Hq) | by rewrite (sq_close _ _ Hq) |].
  rewrite E2 in E3. injection E3 as <- <-.
  pose proof (same_waiting _ _ Hq) as Hw. change (waiting (set_task None d)) with (waiting d) in Hw.
  rewrite Hw in *. split; try done.
  - by rewrite started_app, Hout.
  - unfold after_first in *. rewrite started_app, Hout, Hw, (sq_catchingUp _ _ Hq), (sq_deferred _ _ Hq),
      (sq_controller _ _ Hq) in *. exact H4.
Qed.

(** A step that runs the next task. *)
Lemma step_next new (d d1 : Drive) out d' :
  queue_ids d1 = queue_ids d ++ new -> runNextTask false d1 = Ret (out, d') -> step_ok new d out d'.
Proof.
  intros Hq E%nextTask_inv. split; [intros _; by eapply next_ok_idle|].
  rewrite <- Hq. by apply next_ok_queue.
Qed.

Lemma step_if_idle new (d d1 : Drive) out d' :
  queue_ids d1 = queue_ids d ++ new -> runIfIdle false d1 = Ret (out, d') -> step_ok new d out d'.
Proof.
  unfold runIfIdle. destruct (fd_task d1) eqn:Ht; [|apply step_next].
  intros Hq [= <- <-]. split; [congruence|]. by rewrite <- Hq.
Qed.

(** A step that only changes the running task and the queue of modifications. *)
Lemma step_task new (d : Drive) out d' :
  started out = [] -> (fd_task d' = None -> fd_task d = None) ->
  (fd_task d = None -> waiting d = [] -> waiting d' = []) ->
  queue_ids d' `sublist_of` queue_ids d ++ new -> step_ok new d out d'.
Proof. intros Ho Ht Hw Hq. split; [auto|]. unfold modifications. by rewrite Ho. Qed.

Lemma step_same new (d : Drive) out d' :
  started out = [] -> (fd_task d' = None <-> fd_task d = None) -> waiting d' = waiting d ->
  queue_ids d' = queue_ids d -> step_ok new d out d'.
Proof.
  intros Ho Ht Hw Hq. apply step_task; [done | by intros ?%Ht | congruence |].
  rewrite Hq. by apply sublist_inserts_r.
Qed.

Lemma eraseDeferred_sublist h queue :
  map deferred_id (eraseDeferred h queue) `sublist_of` map deferred_id queue.
Proof. induction queue as [|r queue IH]; cbn; [done|]. case_decide; [by apply sublist_cons|by apply sublist_skip]. Qed.

Lemma step_cancel h (d d' : Drive) out : cancelModifyDrive h d = Ret (out, d') -> step_ok [] d out d'.
Proof.
  unfold cancelModifyDrive. intros E. apply bind_ret_inv in E as ([c d1] & E1 & E).
  assert ((fd_task d1 = None <-> fd_task d = None) /\ (c = true -> is_Some (fd_task d)) /\
          fd_deferredModificationRequests d1 = fd_deferredModificationRequests d /\
          waiting d1 = waiting d) as (Ht & Hc & Hdf & Hw).
  { destruct (fd_task d) eqn:Ht; [|injection E1 as <- <-; rewrite Ht; by split_and!].
    apply bind_ret_inv in E1 as ([b t'] & _ & E1). injection E1 as <- <-. by split_and!. }
  destruct c.
  - destruct (fd_deferredModificationRequests d1) eqn:Hd1; [|done]. injection E as <- <-.
    destruct Hc as [t Hc]; [done|].
    apply step_task; [done | by intros ?%Ht | by rewrite Hc |].
    unfold queue_ids. cbn. by rewrite <- Hdf, Hd1, app_nil_r.
  - injection E as <- <-. rewrite Hdf.
    assert (map deferred_id (eraseDeferred h (fd_deferredModificationRequests d)) `sublist_of` queue_ids d) as Hs
      by apply eraseDeferred_sublist.
    apply step_task; [done | by intros ?%Ht | | by rewrite app_nil_r].
    intros _ Hn. apply sublist_nil_r. rewrite <- Hn, <- Hw. unfold waiting. cbn. rewrite Hdf.
    repeat apply sublist_app; done.
Qed.

Lemma step_verification request blocked (d d' : Drive) out :
  startVerification request blocked d = Ret (out, d') -> step_ok [] d out d'.
Proof.
  unfold startVerification. intros E. cbn -[runVerificationTask] in E.
  case_bool_decide; [injection E as <- <-; by apply step_same|].
  destruct (fd_verificationTask d) eqn:Hv; [done|].
  case_decide; [|injection E as <- <-; by apply step_same].
  unfold runVerificationTask in E. apply guard_assert_inv in E as [_ E]. injection E as <- <-. by apply step_same.
Qed.

Lemma step_opinion anOpinion (d d' : Drive) out : onOpinionReceived anOpinion d = Ret (out, d') -> step_ok [] d out d'.
Proof.
  unfold onOpinionReceived. intros E. destruct (fd_task d) as [t|] eqn:Ht.
  - apply bind_ret_inv in E as ([ok t'] & _ & E).
    destruct ok; [|destruct (ai_opinions anOpinion); [done|]];
      injection E as <- <-; apply step_same; cbn; by rewrite ?Ht.
  - destruct (ai_opinions anOpinion); [done|]. injection E as <- <-. apply step_same; cbn; by rewrite ?Ht.
Qed.

Lemma step_drive_published tx (d d' : Drive) out :
  onApprovalTransactionHasBeenPublished false tx d = Ret (out, d') -> step_ok [] d out d'.
Proof.
  unfold onApprovalTransactionHasBeenPublished. intros E. apply guard_assert_inv in E as [_ E].
  cbn -[runNextTask] in E. destruct (fd_task d) as [t|] eqn:Ht.
  - apply bind_ret_inv in E as ([c t'] & _ & E). injection E as <- <-.
    apply step_task; [done | by destruct c | by rewrite Ht | rewrite app_nil_r; by destruct c].
  - revert E. apply step_next. by rewrite app_nil_r.
Qed.

(** Every operation is such a step. *)
Lemma handle_ok e (d d' : Drive) out :
  handle e d = Ret (out, d') -> step_ok (submitted [e]) d out d'.
Proof.
  destruct e; cbn [handle submitted omap list_omap]; intros E.
  - unfold startModifyDrive in E. apply bind_ret_inv in E as (d1 & E1 & E). revert E. apply step_if_idle.
    destruct (fd_task d); inv_ret; unfold queue_ids; cbn; by rewrite map_app.
  - unfold startStream in E. apply bind_ret_inv in E as (d1 & E1 & E). revert E. apply step_if_idle.
    destruct (fd_task d); inv_ret; unfold queue_ids; cbn; by rewrite map_app.
  - by eapply step_cancel.
  - unfold initiateManualModifications in E. apply guard_assert_inv in E as [_ E].
    apply bind_ret_inv in E as (d1 & E1 & E). revert E. apply step_if_idle. rewrite app_nil_r.
    by destruct (fd_task d); inv_ret.
  - unfold manualSynchronize in E. destruct (fd_task d) as [t|] eqn:Ht.
    + destruct (task_manualSynchronize t) as [[] t']; [revert E; apply step_if_idle; by rewrite app_nil_r|].
      injection E as <- <-. apply step_same; cbn; [done | by rewrite Ht | done | done].
    + revert E. apply step_if_idle. by rewrite app_nil_r.
  - by eapply step_verification.
  - unfold startDriveClosing in E. cbn -[runNextTask] in E. destruct (fd_task d) eqn:Ht; [done|].
    revert E. apply step_next. by rewrite app_nil_r.
  - by eapply step_opinion.
  - by eapply step_drive_published.
  - injection E as <- <-. unfold onApprovalTransactionHasFailedInvalidOpinions.
    destruct (fd_task d) eqn:Ht; apply step_same; by rewrite ?Ht.
  - injection E as <- <-. apply step_same; [done | | done | done]. cbn. by destruct (fd_task d).
  - revert E. apply step_next. by rewrite app_nil_r.
Qed.

Lemma submitted_cons e es : submitted (e :: es) = submitted [e] ++ submitted es.
Proof. unfold submitted. by destruct e. Qed.

Lemma handleAll_ok es (d d' : Drive) out :
  handleAll es d = Ret (out, d') -> step_ok (submitted es) d out d'.
Proof.
  revert d out. induction es as [|e es IH]; intros d out E; cbn [handleAll] in E.
  - injection E as <- <-. apply step_same; done.
  - apply bind_ret_inv in E as ([out1 d1] & E1 & E). apply bind_ret_inv in E as ([out2 d2] & E2 & E).
    injection E as <- <-. apply handle_ok in E1 as [I1 Q1]. apply IH in E2 as [I2 Q2].
    split; [auto|]. rewrite modifications_app, submitted_cons, <- app_assoc.
    etrans; [apply sublist_app; [done|exact Q2]|]. rewrite !app_assoc. by apply sublist_app.
Qed.

(** C1: over any sequence of events -- requests, transactions, messages, whatever
    the running task does and its end -- from the start of a drive: a drive that
    runs nothing has nothing waiting, so no request is forgotten; and the
    modifications and streams that were started, followed by those that wait, are
    among the requested ones in the order of the requests, each at most once. *)
Theorem drive_events (d : Drive) completed :
  fd_task d = None -> waiting d = [] ->
  exists d0, runDriveInitializationTask completed d = Ret ([Started DRIVE_INITIALIZATION 0], d0) /\
    forall es out d', handleAll es d0 = Ret (out, d') ->
      (fd_task d' = None -> waiting d' = []) /\
      modifications out ++ queue_ids d' `sublist_of` submitted es.
Proof.
  intros Ht Hw. unfold runDriveInitializationTask, FlatDrive.no_task. rewrite Ht. cbn.
  rewrite startTask_ok by apply type_initialization. eexists. split; [done|].
  intros es out d' [Hi Hq]%handleAll_ok. split; [by apply Hi|].
  etrans; [exact Hq|]. unfold queue_ids. cbn.
  assert (fd_deferredModificationRequests d = []) as ->; [|done].
  unfold waiting in Hw. by destruct (fd_closeDriveRequest d), (fd_modificationCancelRequest d), (fd_catchingUpRequest d),
    (fd_synchronizationRequest d), (fd_deferredModificationRequests d).
Qed.

(** ** Where the drive stops *)

(** The running task returns from what the drive calls on the event. *)
Definition task_returns (e : DriveEvent) (d : Drive) : Prop :=
  forall t, fd_task d = Some t ->
  match e with
  | EvStartModifyDrive _ _ => exists t', task_onModificationInitiated t = Ret t'
  | EvStartStream _ _ => exists t', task_onStreamStarted t = Ret t'
  | EvCancelModifyDrive h =>
      exists r, task_shouldCancelModify (fd_opinionController d) (fd_lastApprovedModification d) h t = Ret r
  | EvInitiateManualModifications _ => exists t', task_onManualModificationInitiated t = Ret t'
  | EvOpinion o => exists r, task_processedModifyOpinion o t = Ret r
  | EvPublished tx => exists r, task_onApprovalTxPublished tx t = Ret r
  | _ => True
  end.

(** What the drive takes for granted of an event. *)
Definition permitted (e : DriveEvent) (d : Drive) : Prop :=
  match e with
  | EvStartModifyDrive _ _ | EvStartStream _ _ | EvManualSynchronize _ | EvTaskFinished => verification_free d
  | EvCancelModifyDrive _ => fd_task d = None \/ fd_deferredModificationRequests d = []
  | EvInitiateManualModifications _ => verification_free d /\ fd_deferredManualModificationRequest d = None
  | EvStartVerification _ _ => fd_verificationTask d = None
  | EvStartDriveClosing _ => fd_task d = None
  | EvOpinion o => ai_opinions o <> []
  | EvPublished _ => fd_synchronizationRequest d = None
  | EvFailed _ | EvTaskStep _ _ _ => True
  end.

Lemma ifIdle_ok (d : Drive) : verification_free d -> exists r, runIfIdle false d = Ret r.
Proof.
  intros Hv. unfold runIfIdle. destruct (fd_task d); [by eexists|].
  destruct (nextTask_ok d Hv) as (? & ? & E & _). eauto.
Qed.

(** Telling the running task of an event. *)
Lemma told_ok (f : T -> Outcome T) (d : Drive) :
  (forall t, fd_task d = Some t -> exists r, f t = Ret r) ->
  exists o, (match fd_task d with
             | Some task => task' ← f task; Ret (set_task (Some task') d)
             | None => Ret d
             end) = Ret (set_task o d).
Proof.
  intros Hf. destruct (fd_task d) as [t|] eqn:Ht.
  - destruct (Hf t) as [t' E]; [done|]. rewrite E. by eexists.
  - exists None. by destruct d; cbn in *; subst.
Qed.

(** When the running task returns, the drive returns from every event it is
    made for: no assertion of the queue fails and nothing is used after a move as
    long as a modification is cancelled with nothing deferred behind the running
    task, the drive is closed when idle, a verification starts when none runs, at
    most one manual modification waits, and no approval is published while a
    synchronization waits. *)
Lemma handle_returns e (d : Drive) :
  task_returns e d -> permitted e d -> exists r, handle e d = Ret r.
Proof.
  intros Hr Hp. destruct e; cbn [handle permitted] in *; unfold task_returns in Hr.
  - unfold startModifyDrive. destruct (told_ok task_onModificationInitiated d Hr) as [o ->]. by apply ifIdle_ok.
  - unfold startStream. destruct (told_ok task_onStreamStarted d Hr) as [o ->]. by apply ifIdle_ok.
  - unfold cancelModifyDrive. destruct (fd_task d) as [t|]; [|by eexists].
    destruct Hp as [?|Hp]; [done|]. destruct (Hr t) as [[b t'] ->]; [done|]. cbn.
    destruct b; [|by eexists]. rewrite Hp. by eexists.
  - destruct Hp as [Hv Hm]. unfold initiateManualModifications. rewrite Hm. cbn -[runIfIdle].
    destruct (told_ok task_onManualModificationInitiated d Hr) as [o ->]. by apply ifIdle_ok.
  - unfold manualSynchronize. destruct (fd_task d) as [t|]; [|by apply ifIdle_ok].
    destruct (task_manualSynchronize t) as [[] t']; [by apply ifIdle_ok|by eexists].
  - unfold startVerification. case_bool_decide; [by eexists|]. cbn -[runVerificationTask]. rewrite Hp.
    case_decide; [|by eexists]. unfold runVerificationTask. cbn. rewrite Hp. by eexists.
  - unfold startDriveClosing. cbn -[runNextTask]. rewrite Hp.
    destruct (nextTask_ok (cancelVerification (set_close (Some request) d))) as (? & ? & E & _); [by left|]. eauto.
  - unfold onOpinionReceived. destruct (ai_opinions anOpinion) as [|o os]; [done|].
    destruct (fd_task d) as [t|]; [|by eexists].
    destruct (Hr t) as [[[] t'] ->]; [done|by eexists..].
  - unfold onApprovalTransactionHasBeenPublished. rewrite Hp. cbn -[runNextTask].
    destruct (fd_task d) as [t|].
    + destruct (Hr t) as [[b t'] ->]; [done|]. by eexists.
    + match goal with |- context [runNextTask false ?d1] => destruct (nextTask_ok d1) as (? & ? & E & _); [by left|] end. eauto.
  - by eexists.
  - by eexists.
  - destruct (nextTask_ok d Hp) as (? & ? & E & _). eauto.
Qed.

(** What an idle drive does next: it starts the waiting request of the highest
    priority -- closing, cancelling, catching up, synchronizing, the deferred
    modifications in their order, a manual modification -- and only that one.
    Nothing waiting is lost except what the started task makes obsolete: catching
    up passes the deferred modifications up to its own, counting their sizes as
    paid, and refuses a waiting manual modification; so does synchronizing. *)
Lemma runNextTask_spec (d : Drive) :
  verification_free d ->
  exists out d', runNextTask false d = Ret (out, d') /\
    started out = take 1 (waiting d) /\
    (getTaskType <$> fd_task d' = fst <$> head (waiting d)) /\
    (waiting d' `sublist_of` tail (waiting d)) /\
    match fst <$> head (waiting d), fd_catchingUpRequest d with
    | Some CATCHING_UP, Some r =>
        match split_through (cu_modifyTransactionHash r) (fd_deferredModificationRequests d) with
        | Some (passed, rest) => fd_deferredModificationRequests d' = rest /\
            oc_approvedExpectedCumulativeDownload (fd_opinionController d') ≡₆₄
              oc_approvedExpectedCumulativeDownload (fd_opinionController d) +
              foldr Z.add 0 (map dr_maxDataSize passed)
        | None => fd_deferredModificationRequests d' = fd_deferredModificationRequests d
        end
    | _, _ => fd_opinionController d' = fd_opinionController d /\
              map deferred_id (fd_deferredModificationRequests d) =
              filter (fun p => p.1 = MODIFICATION_REQUEST \/ p.1 = STREAM_REQUEST) (started out) ++
              map deferred_id (fd_deferredModificationRequests d')
    end.
Proof.
  intros Hv. destruct (nextTask_ok d Hv) as (out & d' & E & []). exists out, d'. by split_and!.
Qed.

End Spec.

(** ** A drive of a concrete replicator *)

Definition sampleParams : DriveParams := mkDriveParams 1 2 [3; 4] 4 true.
#[local] Existing Instance any_task.
#[local] Existing Instance any_task_laws.

Definition sampleController : ModifyOpinionController :=
  mkController 9 100 (mkCumulative 0 ∅) (mkCumulative 5 ∅).

(** With what it runs, its deferred requests and its request to catch up. *)
Definition sampleDrive (task : option AnyTask) (queue : list DeferredRequest)
    (catchUp : option CatchingUpRequest) : DefaultFlatDrive AnyTask :=
  mkDrive task None None catchUp None queue None None None [] 0 ∅ ∅ ∅ sampleController ∅ [].

Definition sampleHandle := handle (T := AnyTask) (H := any_task sampleParams).

Lemma runNextTask_spec_witness :
  exists out d',
    runNextTask (H := any_task sampleParams) false
      (sampleDrive None [DeferredModification 5 10; DeferredModification 6 20; DeferredModification 7 30]
         (Some (mkCatchingUp 77 6))) = Ret (out, d') /\
    started out = [(CATCHING_UP, 6)] /\
    fd_deferredModificationRequests d' = [DeferredModification 7 30] /\
    oc_approvedExpectedCumulativeDownload (fd_opinionController d') ≡₆₄ 130.
Proof.
  destruct (runNextTask_spec (H := any_task sampleParams)
              (sampleDrive None [DeferredModification 5 10; DeferredModification 6 20; DeferredModification 7 30]
                 (Some (mkCatchingUp 77 6)))) as (out & d' & E & Hs & _ & _ & Hd & Hc).
  - by left.
  - exists out, d'. by split_and!.
Defined.

Lemma drive_events_witness :
  exists d0,
    runDriveInitializationTask (H := any_task sampleParams) [] (sampleDrive None [] None) =
      Ret ([Started DRIVE_INITIALIZATION 0], d0) /\
    exists out d', sampleHandle (EvStartModifyDrive 5 10) d0 = Ret ([], out) /\
      handleAll (H := any_task sampleParams) [EvStartModifyDrive 5 10; EvStartStream 6 20; EvTaskFinished] d0 =
        Ret ([Started MODIFICATION_REQUEST 5], d') /\
      modifications [Started MODIFICATION_REQUEST 5] ++ queue_ids d' `sublist_of` [(MODIFICATION_REQUEST, 5); (STREAM_REQUEST, 6)].
Proof.
  destruct (drive_events (H := any_task sampleParams) (sampleDrive None [] None) []) as (d0 & E & Hall);
    [reflexivity | reflexivity |].
  exists d0. split; [exact E|]. vm_compute in E. injection E as <-.
  eexists _, _. split; [reflexivity|]. split; [reflexivity|].
  exact (proj2 (Hall [EvStartModifyDrive 5 10; EvStartStream 6 20; EvTaskFinished] _ _ eq_refl)).
Defined.

Lemma handle_returns_witness :
  exists r, sampleHandle (EvCancelModifyDrive 5)
              (sampleDrive (Some (InitializeDriveTask (mkInit [] [] true))) [] None) = Ret r.
Proof.
  apply (handle_returns (H := any_task sampleParams)).
  - intros t [= <-]. by eexists.
  - by right.
Defined.

(** The faults of the queue.  The running task agrees to be cancelled while a
    modification waits: the request is used after it has been moved away. *)
Example cancel_with_deferred :
  sampleHandle (EvCancelModifyDrive 5)
    (sampleDrive (Some (ModifyDriveTask_ (newModifyTask 5 10))) [DeferredModification 6 20] None) =
  Stop UndefinedBehaviour.
Proof. reflexivity. Qed.

(** Closing a drive whose task runs. *)
Example close_while_running :
  sampleHandle (EvStartDriveClosing (Some 8))
    (sampleDrive (Some (ModifyDriveTask_ (newModifyTask 5 10))) [] None) = Stop UndefinedBehaviour.
Proof. reflexivity. Qed.

(** A second verification before the first has been cancelled. *)
Example second_verification :
  handleAll (H := any_task sampleParams)
    [EvStartVerification (mkVerificationRequest 50 0 0 [1; 2; 3] 0) [];
     EvStartVerification (mkVerificationRequest 51 0 0 [1; 2; 3] 0) []] (sampleDrive None [] None) =
  Stop AssertFailure.
Proof. reflexivity. Qed.
