(* ===== verification/FlatDriveRefinement.v ===== *)
(** * The queue of a drive refines a priority queue

    The abstract machine knows whether something runs, and one list of requests that
    wait: stably ordered by priority, whatever slot of the drive they are in.  An
    event is a function on it; what it cannot know is one bit, the answer of the
    running task.  Every event of the drive is that function: it starts the same
    tasks and leaves the same requests waiting. *)

From S2P Require Import Prelude DownloadChannels ModifyOpinion ModifyApproval Verification FlatDrive FlatDriveSpec DriveTasks.

(** ** The abstract machine *)

Abbreviation Request := (DriveTaskType * Z)%type.

Record Queue := mkQueue { q_running : bool; q_pending : list Request }.

Definition priority (r : Request) : nat :=
  match r.1 with
  | DRIVE_CLOSURE => 0
  | MODIFICATION_CANCEL => 1
  | CATCHING_UP => 2
  | MANUAL_SYNCHRONIZATION => 3
  | MODIFICATION_REQUEST | STREAM_REQUEST => 4
  | MANUAL_MODIFICATION => 5
  | DRIVE_INITIALIZATION | DRIVE_VERIFICATION => 6
  end.

Definition before (r q : Request) : Prop := (priority r <= priority q)%nat.
#[export] Instance before_dec r q : Decision (before r q).
Proof. unfold before. apply _. Defined.
#[export] Instance before_trans : Transitive before.
Proof. intros ???. unfold before. lia. Qed.

(** Behind everything of its priority or a higher one. *)
Definition enqueue (r : Request) (l : list Request) : list Request :=
  filter (fun q => before q r) l ++ r :: filter (fun q => ~ before q r) l.

(** In place of all requests of its type. *)
Definition renew (r : Request) (l : list Request) : list Request :=
  enqueue r (filter (fun q => q.1 <> r.1) l).

(** Modifications and streams. *)
Definition is_update (r : Request) : bool :=
  match r.1 with MODIFICATION_REQUEST | STREAM_REQUEST => true | _ => false end.

(** The first modification or stream of a transaction is taken back. *)
Fixpoint withdraw (tx : Z) (l : list Request) : list Request :=
  match l with
  | [] => []
  | q :: l' => if is_update q && bool_decide (q.2 = tx) then l' else q :: withdraw tx l'
  end.

(** What is left when the modifications and streams up to a transaction are obsolete;
    [None] when that one does not wait. *)
Fixpoint pass_through (tx : Z) (l : list Request) : option (list Request) :=
  match l with
  | [] => None
  | q :: l' =>
      if is_update q then if decide (q.2 = tx) then Some l' else pass_through tx l'
      else cons q <$> pass_through tx l'
  end.

(** What a request makes obsolete when it is started. *)
Definition still_wanted (r : Request) (l : list Request) : list Request :=
  let kept := filter (fun q => q.1 <> MANUAL_MODIFICATION) l in
  match r.1 with
  | CATCHING_UP => default kept (pass_through r.2 kept)
  | MANUAL_SYNCHRONIZATION => kept
  | _ => l
  end.

(** Nothing runs, or what ran has ended: the first that waits is started. *)
Definition queue_next (q : Queue) : list Request * Queue :=
  match q_pending q with
  | [] => ([], mkQueue false [])
  | r :: rest => ([r], mkQueue true (still_wanted r rest))
  end.

Definition queue_if_idle (q : Queue) : list Request * Queue :=
  if q_running q then ([], q) else queue_next q.

Definition waits (f : list Request -> list Request) (q : Queue) : Queue :=
  mkQueue (q_running q) (f (q_pending q)).

(** An event, with the answer of the running task: whether it is to be cancelled, to
    be followed by catching up, or lets a synchronization wait. *)
Definition queue_handle {T} (e : DriveEvent (T := T)) (answer : bool) (q : Queue) : list Request * Queue :=
  match e with
  | EvStartModifyDrive h _ => queue_if_idle (waits (enqueue (MODIFICATION_REQUEST, h)) q)
  | EvStartStream h _ => queue_if_idle (waits (enqueue (STREAM_REQUEST, h)) q)
  | EvInitiateManualModifications m => queue_if_idle (waits (enqueue (MANUAL_MODIFICATION, m)) q)
  | EvCancelModifyDrive h => ([], waits (if answer then renew (MODIFICATION_CANCEL, h) else withdraw h) q)
  | EvManualSynchronize r =>
      if answer then
        queue_if_idle (waits (fun l => renew (MANUAL_SYNCHRONIZATION, sy_modificationIdentifier r)
                                         (filter (fun p => p.1 <> CATCHING_UP) l)) q)
      else ([], q)
  | EvStartDriveClosing r => queue_next (waits (renew (DRIVE_CLOSURE, default 0 r)) q)
  | EvPublished tx =>
      let catchUp := waits (renew (CATCHING_UP, pa_modifyTransactionHash tx)) q in
      if q_running q then ([], if answer then catchUp else q) else queue_next catchUp
  | EvTaskFinished => queue_next q
  | EvStartVerification _ _ | EvOpinion _ | EvFailed _ | EvTaskStep _ _ _ => ([], q)
  end.

(** ** Lists of requests *)

Lemma filter_id {A} (P : A -> Prop) `{forall x, Decision (P x)} (l : list A) :
  Forall P l -> filter P l = l.
Proof. induction 1 as [|x l Hx _ IH]; [done|]. by rewrite filter_cons, decide_True, IH. Qed.

Lemma filter_nil {A} (P : A -> Prop) `{forall x, Decision (P x)} (l : list A) :
  Forall (fun x => ~ P x) l -> filter P l = [].
Proof. induction 1 as [|x l Hx _ IH]; [done|]. by rewrite filter_cons, decide_False, IH. Qed.

Lemma enqueue_split r l k :
  Forall (fun q => before q r) l -> Forall (fun q => ~ before q r) k ->
  enqueue r (l ++ k) = l ++ r :: k.
Proof.
  intros Hl Hk. unfold enqueue. rewrite !filter_app.
  rewrite (filter_id (fun q => before q r) l), (filter_nil (fun q => before q r) k),
    (filter_nil (fun q => ~ before q r) l), (filter_id (fun q => ~ before q r) k);
    rewrite ?app_nil_r; auto.
  eapply Forall_impl; [exact Hl|]. cbn. auto.
Qed.

(** A request takes the place of those of its type, which are together. *)
Lemma renew_split r l o k :
  Forall (fun q => before q r /\ q.1 <> r.1) l -> Forall (fun q => q.1 = r.1) o ->
  Forall (fun q => ~ before q r) k -> renew r (l ++ o ++ k) = l ++ r :: k.
Proof.
  intros Hl Ho Hk. unfold renew. rewrite !filter_app.
  rewrite (filter_id (fun q => q.1 <> r.1) l), (filter_nil (fun q => q.1 <> r.1) o), (filter_id (fun q => q.1 <> r.1) k).
  - apply enqueue_split; [|done]. eapply Forall_impl; [exact Hl|]. by intros ? [].
  - eapply Forall_impl; [exact Hk|]. intros q Hq E. apply Hq. unfold before, priority. by rewrite E.
  - eapply Forall_impl; [exact Ho|]. auto.
  - eapply Forall_impl; [exact Hl|]. by intros ? [].
Qed.

Lemma sorted_app (n : nat) l k :
  StronglySorted before l -> StronglySorted before k ->
  Forall (fun q => priority q <= n)%nat l -> Forall (fun q => n <= priority q)%nat k ->
  StronglySorted before (l ++ k).
Proof.
  intros Hl Hk Hn Hm. apply StronglySorted_app. split_and!; [|done..].
  intros x y Hx Hy. unfold before.
  pose proof (proj1 (Forall_forall _ _) Hn x Hx). pose proof (proj1 (Forall_forall _ _) Hm y Hy). cbn in *. lia.
Qed.

Lemma withdraw_app tx l k : Forall (fun q => is_update q = false) l -> withdraw tx (l ++ k) = l ++ withdraw tx k.
Proof. induction 1 as [|q l Hq _ IH]; cbn; [done|]. by rewrite Hq, IH. Qed.

Lemma withdraw_none tx l : Forall (fun q => is_update q = false) l -> withdraw tx l = l.
Proof. intros Hl. rewrite <- (app_nil_r l) at 1. rewrite withdraw_app by done. by rewrite app_nil_r. Qed.

Lemma deferred_update r : is_update (deferred_id r) = true /\ (deferred_id r).2 = dr_transactionHash r.
Proof. by destruct r. Qed.

Lemma withdraw_deferred tx queue k :
  Forall (fun q => is_update q = false) k ->
  withdraw tx (map deferred_id queue ++ k) = map deferred_id (eraseDeferred tx queue) ++ k.
Proof.
  intros Hk. induction queue as [|r queue IH]; cbn; [by apply withdraw_none|].
  destruct (deferred_update r) as [-> ->]. case_decide as E; cbn.
  - by rewrite bool_decide_true.
  - by rewrite bool_decide_false, IH.
Qed.

Lemma pass_through_app tx l k :
  Forall (fun q => is_update q = false) l -> pass_through tx (l ++ k) = app l <$> pass_through tx k.
Proof.
  induction 1 as [|q l Hq _ IH]; cbn; [by destruct (pass_through tx k)|].
  rewrite Hq, IH. by destruct (pass_through tx k).
Qed.

Lemma pass_through_deferred tx queue :
  pass_through tx (map deferred_id queue) = (fun p => map deferred_id p.2) <$> split_through tx queue.
Proof.
  induction queue as [|r queue IH]; cbn; [done|]. destruct (deferred_update r) as [-> ->].
  case_decide; [done|]. rewrite IH. by destruct (split_through tx queue) as [[]|].
Qed.

(** ** The refinement *)

Section Refinement.
  Context {T : Type} `{Laws : DriveTaskLaws T}.
  Notation Drive := (DefaultFlatDrive T).

Definition abs (d : Drive) : Queue := mkQueue (bool_decide (is_Some (fd_task d))) (waiting d).

(** What the running task answers to the event; an idle drive lets a synchronization wait. *)
Definition task_answer (e : DriveEvent (T := T)) (d : Drive) : bool :=
  match e, fd_task d with
  | EvCancelModifyDrive h, Some t =>
      match task_shouldCancelModify (fd_opinionController d) (fd_lastApprovedModification d) h t with
      | Ret (b, _) => b
      | Stop _ => false
      end
  | EvPublished tx, Some t =>
      match task_onApprovalTxPublished tx t with Ret (b, _) => b | Stop _ => false end
  | EvManualSynchronize _, Some t => (task_manualSynchronize t).1
  | EvManualSynchronize _, None => true
  | _, _ => false
  end.

Lemma abs_idle (d : Drive) : fd_task d = None -> abs d = mkQueue false (waiting d).
Proof. intros E. unfold abs. by rewrite E. Qed.
Lemma abs_busy (d : Drive) t : fd_task d = Some t -> abs d = mkQueue true (waiting d).
Proof. intros E. unfold abs. rewrite E. by rewrite bool_decide_true. Qed.

(** The slots, by priority. *)
#[local] Notation closing d :=
  (opt_list (fun r => (DRIVE_CLOSURE, default 0 r)) (fd_closeDriveRequest d)) (only parsing).
#[local] Notation cancelling d :=
  (opt_list (fun h => (MODIFICATION_CANCEL, h)) (fd_modificationCancelRequest d)) (only parsing).
#[local] Notation catching d :=
  (opt_list (fun r => (CATCHING_UP, cu_modifyTransactionHash r)) (fd_catchingUpRequest d)) (only parsing).
#[local] Notation synchronizing d :=
  (opt_list (fun r => (MANUAL_SYNCHRONIZATION, sy_modificationIdentifier r)) (fd_synchronizationRequest d)) (only parsing).
#[local] Notation modifying d := (map deferred_id (fd_deferredModificationRequests d)) (only parsing).
#[local] Notation manual d :=
  (opt_list (fun r => (MANUAL_MODIFICATION, r)) (fd_deferredManualModificationRequest d)) (only parsing).

(** Decides what holds of every request of some slots. *)
Lemma deferred_forall (P : Request -> Prop) (queue : list DeferredRequest) :
  (forall h, P (MODIFICATION_REQUEST, h)) -> (forall h, P (STREAM_REQUEST, h)) ->
  Forall P (map deferred_id queue).
Proof. intros Hm Hs. induction queue as [|[] queue IH]; cbn; constructor; auto. Qed.

Ltac slot_forall :=
  repeat match goal with
  | |- Forall _ [] => constructor
  | |- Forall _ (_ ++ _) => apply Forall_app; split
  | |- Forall _ (map deferred_id _) => apply deferred_forall; intros ?
  | |- Forall _ (opt_list _ ?o) => destruct o; cbn [opt_list]; repeat constructor
  end; unfold before; cbn; first [lia | done | by split; [lia|] | by intros []].

(** What waits, slot by slot. *)
Ltac solve_waiting :=
  unfold waiting;
  cbn [fd_closeDriveRequest fd_deferredModificationRequests set_deferred];
  rewrite ?map_app, ?app_nil_r, <- ?app_assoc; reflexivity.

Lemma opt_sorted {A} (f : A -> Request) o : StronglySorted before (opt_list f o).
Proof. destruct o; cbn; repeat constructor. Qed.

Lemma deferred_sorted (queue : list DeferredRequest) : StronglySorted before (map deferred_id queue).
Proof.
  induction queue as [|r queue IH]; cbn; constructor; [done|].
  apply deferred_forall; intros ?; destruct r; unfold before; cbn; lia.
Qed.

Lemma waiting_sorted (d : Drive) : StronglySorted before (waiting d).
Proof.
  unfold waiting.
  apply (sorted_app 0); [apply opt_sorted | | slot_forall..].
  apply (sorted_app 1); [apply opt_sorted | | slot_forall..].
  apply (sorted_app 2); [apply opt_sorted | | slot_forall..].
  apply (sorted_app 3); [apply opt_sorted | | slot_forall..].
  apply (sorted_app 4); [apply deferred_sorted | apply opt_sorted | slot_forall..].
Qed.

(** Filling a slot. *)
Lemma fill_slot (d d1 : Drive) r l o k :
  fd_task d1 = fd_task d -> waiting d = l ++ o ++ k -> waiting d1 = l ++ r :: k ->
  Forall (fun q => before q r /\ q.1 <> r.1) l -> Forall (fun q => q.1 = r.1) o ->
  Forall (fun q => ~ before q r) k -> abs d1 = waits (renew r) (abs d).
Proof.
  intros Ht Hw Hw1 Hl Ho Hk. unfold abs, waits. cbn [q_running q_pending]. rewrite Ht, Hw, Hw1. by rewrite renew_split.
Qed.

Lemma ask_deferred (d : Drive) r :
  abs (set_deferred (fd_deferredModificationRequests d ++ [r]) d) = waits (enqueue (deferred_id r)) (abs d).
Proof.
  unfold abs, waits. cbn. f_equal.
  transitivity ((closing d ++ cancelling d ++ catching d ++ synchronizing d ++ modifying d) ++ deferred_id r :: manual d);
    [solve_waiting|].
  rewrite <- enqueue_split; [f_equal; solve_waiting | destruct r; slot_forall | destruct r; slot_forall].
Qed.

Lemma ask_manual (d : Drive) m :
  fd_deferredManualModificationRequest d = None ->
  abs (set_manual (Some m) d) = waits (enqueue (MANUAL_MODIFICATION, m)) (abs d).
Proof.
  intros Hm. unfold abs, waits. cbn. f_equal.
  transitivity ((closing d ++ cancelling d ++ catching d ++ synchronizing d ++ modifying d) ++ [(MANUAL_MODIFICATION, m)]);
    [solve_waiting|].
  rewrite <- (enqueue_split (MANUAL_MODIFICATION, m) _ []); [|slot_forall | slot_forall].
  f_equal. unfold waiting. rewrite Hm. cbn [opt_list]. by rewrite !app_nil_r.
Qed.

Lemma ask_synchronization (d : Drive) s :
  abs (set_synchronization (Some s) (set_catchingUp None d)) =
  waits (fun l => renew (MANUAL_SYNCHRONIZATION, sy_modificationIdentifier s) (filter (fun p => p.1 <> CATCHING_UP) l)) (abs d).
Proof.
  rewrite (fill_slot (set_catchingUp None d) _ (MANUAL_SYNCHRONIZATION, sy_modificationIdentifier s)
    (closing d ++ cancelling d) (synchronizing d) (modifying d ++ manual d));
    [|done | unfold waiting; cbn; by rewrite <- app_assoc | unfold waiting; cbn; by rewrite <- app_assoc
     | slot_forall | slot_forall | slot_forall].
  unfold waits, abs. cbn [q_running q_pending]. f_equal. f_equal. unfold waiting. cbn [opt_list fd_catchingUpRequest set_catchingUp app]. rewrite !filter_app.
  rewrite (filter_nil _ (catching d)) by slot_forall.
  rewrite !filter_id by slot_forall. done.
Qed.

Lemma ask_catchingUp (d : Drive) s :
  abs (set_catchingUp (Some s) d) = waits (renew (CATCHING_UP, cu_modifyTransactionHash s)) (abs d).
Proof.
  apply (fill_slot d _ _ (closing d ++ cancelling d) (catching d) (synchronizing d ++ modifying d ++ manual d));
    [done | solve_waiting | solve_waiting | slot_forall | slot_forall | slot_forall].
Qed.

Lemma ask_cancel (d : Drive) h :
  abs (set_cancel (Some h) d) = waits (renew (MODIFICATION_CANCEL, h)) (abs d).
Proof.
  apply (fill_slot d _ _ (closing d) (cancelling d) (catching d ++ synchronizing d ++ modifying d ++ manual d));
    [done | done | done | slot_forall | slot_forall | slot_forall].
Qed.

Lemma ask_close (d : Drive) r :
  abs (set_close (Some r) d) = waits (renew (DRIVE_CLOSURE, default 0 r)) (abs d).
Proof.
  apply (fill_slot d _ _ [] (closing d) (cancelling d ++ catching d ++ synchronizing d ++ modifying d ++ manual d));
    [done | done | done | slot_forall | slot_forall | slot_forall].
Qed.

Lemma withdraw_waiting (d : Drive) h :
  abs (set_deferred (eraseDeferred h (fd_deferredModificationRequests d)) d) = waits (withdraw h) (abs d).
Proof.
  unfold abs, waits. cbn. f_equal. unfold waiting. cbn.
  rewrite !withdraw_app by slot_forall. by rewrite withdraw_deferred by slot_forall.
Qed.

(** ** The next task *)

Lemma kept_requests (sy : option SynchronizationRequest) (queue : list DeferredRequest) (mn : option Z) :
  filter (fun q => q.1 <> MANUAL_MODIFICATION)
    (opt_list (fun r => (MANUAL_SYNCHRONIZATION, sy_modificationIdentifier r)) sy ++ map deferred_id queue ++
     opt_list (fun r => (MANUAL_MODIFICATION, r)) mn) =
  opt_list (fun r => (MANUAL_SYNCHRONIZATION, sy_modificationIdentifier r)) sy ++ map deferred_id queue.
Proof.
  rewrite !filter_app, (filter_nil _ (opt_list (fun r => (MANUAL_MODIFICATION, r)) mn)) by slot_forall.
  rewrite !filter_id by slot_forall. by rewrite app_nil_r.
Qed.

Lemma catchUp_refines (d d' : Drive) r out :
  fd_task d = None -> fd_closeDriveRequest d = None -> fd_modificationCancelRequest d = None ->
  fd_catchingUpRequest d = Some r ->
  runCatchingUpTask r d = Ret (out, d') -> queue_next (abs d) = (started out, abs d').
Proof.
  intros Ht Hcl Hcn Hcu. unfold runCatchingUpTask, queue_next, abs, waiting.
  destruct d as [task cl cancel cu sy df mn dv vt bl la uo uvo uc oc tr old]; cbn in Ht, Hcl, Hcn, Hcu; subst.
  cbn -[filter pass_through split_through]. unfold still_wanted. cbn [fst snd].
  rewrite kept_requests, pass_through_app, pass_through_deferred by slot_forall.
  destruct (split_through (cu_modifyTransactionHash r) df) as [[passed rest]|]; cbn -[refuseManual];
    destruct (refuseManual _) as [out1 d1] eqn:Hm; apply refuseManual_inv in Hm as [Hout ->];
    rewrite startTask_ok by apply type_catchingUp; cbn; intros [= <- <-];
    rewrite started_app, Hout; unfold waiting; cbn; by rewrite app_nil_r.
Qed.

Lemma first_refines (d d' : Drive) out :
  fd_task d = None -> fd_closeDriveRequest d = None ->
  runFirstRequest d = Ret (out, d') -> queue_next (abs d) = (started out, abs d').
Proof.
  intros Ht Hcl. unfold runFirstRequest.
  destruct (fd_modificationCancelRequest d) as [h|] eqn:Hcn.
  { unfold runCancelModificationTask, FlatDrive.no_task. rewrite Ht. cbn.
    rewrite startTask_ok by apply type_cancel. intros [= <- <-].
    destruct d; cbn in *; subst. done. }
  destruct (fd_catchingUpRequest d) as [r|] eqn:Hcu; [by apply catchUp_refines|].
  destruct d as [task cl cancel cu sy df mn dv vt bl la uo uvo uc oc tr old]; cbn in *; subst.
  destruct sy as [r|].
  { unfold runSynchronizationTask; cbn -[refuseManual].
    destruct (refuseManual _) as [out1 d1] eqn:Hm; apply refuseManual_inv in Hm as [Hout ->].
    rewrite startTask_ok by apply type_synchronization. cbn. intros [= <- <-].
    rewrite started_app, Hout. unfold queue_next, abs, waiting, still_wanted. cbn -[filter].
    pose proof (kept_requests None df mn) as Hk. cbn -[filter] in Hk. rewrite Hk. by rewrite app_nil_r. }
  destruct df as [|[h s|h s] rest].
  - destruct mn as [m|].
    + unfold runDeferredModificationManualModificationTask.
      rewrite startTask_ok by apply type_manual. by intros [= <- <-].
    + by intros [= <- <-].
  - unfold runDeferredModificationTask, runModificationTask; cbn.
    rewrite startTask_ok by apply type_modification. by intros [= <- <-].
  - unfold runDeferredModificationTask, runStreamTask; cbn.
    rewrite startTask_ok by apply type_stream. by intros [= <- <-].
Qed.

Lemma next_refines (d d' : Drive) out :
  runNextTask false d = Ret (out, d') -> queue_next (abs d) = (started out, abs d').
Proof.
  unfold runNextTask. cbn -[runDeferredVerification runFirstRequest].
  destruct (fd_closeDriveRequest d) as [request|] eqn:Hcl.
  { unfold runCloseDriveTask; cbn. rewrite startTask_ok by apply type_closure. intros [= <- <-].
    destruct d; cbn in *; subst. done. }
  intros E. apply bind_ret_inv in E as ([out1 d1] & E1 & E). apply bind_ret_inv in E as ([out2 d2] & E2 & E).
  injection E as <- <-. apply deferredVerification_inv in E1 as [Hout Hq].
  apply first_refines in E2; [|by rewrite (sq_task _ _ Hq) | by rewrite (sq_close _ _ Hq)].
  rewrite started_app, Hout. cbn. rewrite <- E2. unfold queue_next, abs.
  rewrite (same_waiting _ _ Hq). done.
Qed.

Lemma if_idle_refines (d d' : Drive) out :
  runIfIdle false d = Ret (out, d') -> queue_if_idle (abs d) = (started out, abs d').
Proof.
  unfold runIfIdle, queue_if_idle. destruct (fd_task d) as [t|] eqn:E.
  - intros [= <- <-]. by rewrite (abs_busy _ _ E).
  - rewrite (abs_idle _ E) at 1. apply next_refines.
Qed.

(** Replacing the running task is invisible. *)
Lemma abs_set_task (d : Drive) t t' : fd_task d = Some t -> abs (set_task (Some t') d) = abs d.
Proof. intros E. unfold abs. by rewrite E. Qed.

Lemma abs_told (f : T -> Outcome T) (d d1 : Drive) :
  (match fd_task d with
   | Some task => task' ← f task; Ret (set_task (Some task') d)
   | None => Ret d
   end) = Ret d1 ->
  abs d1 = abs d /\ fd_deferredModificationRequests d1 = fd_deferredModificationRequests d /\
  fd_deferredManualModificationRequest d1 = fd_deferredManualModificationRequest d.
Proof.
  destruct (fd_task d) eqn:E; intros H1; inv_ret; [|done]. by erewrite abs_set_task.
Qed.

Lemma cancel_refines h (d d' : Drive) out :
  cancelModifyDrive h d = Ret (out, d') ->
  queue_handle (T := T) (EvCancelModifyDrive h) (task_answer (EvCancelModifyDrive h) d) (abs d) = (started out, abs d').
Proof.
  unfold cancelModifyDrive. intros E. apply bind_ret_inv in E as ([c d1] & E1 & E).
  assert (abs d1 = abs d /\ task_answer (EvCancelModifyDrive h) d = c) as [<- ->].
  { unfold task_answer. destruct (fd_task d) eqn:Ht; [|by injection E1 as <- <-].
    apply bind_ret_inv in E1 as ([b t'] & -> & E1). injection E1 as <- <-. by erewrite abs_set_task. }
  cbn [queue_handle]. destruct c.
  - destruct (fd_deferredModificationRequests d1); [|done]. injection E as <- <-. by rewrite ask_cancel.
  - injection E as <- <-. by rewrite withdraw_waiting.
Qed.

Lemma synchronize_refines r (d d' : Drive) out :
  manualSynchronize false r d = Ret (out, d') ->
  queue_handle (T := T) (EvManualSynchronize r) (task_answer (EvManualSynchronize r) d) (abs d) = (started out, abs d').
Proof.
  unfold manualSynchronize, task_answer. intros E. cbn [queue_handle].
  destruct (fd_task d) as [t|] eqn:Ht; [|apply if_idle_refines in E; by rewrite ask_synchronization in E].
  destruct (task_manualSynchronize t) as [[] t']; cbn [fst].
  - apply if_idle_refines in E. by rewrite ask_synchronization, (abs_set_task d t t' Ht) in E.
  - injection E as <- <-. by rewrite (abs_set_task d t t' Ht).
Qed.

Lemma published_refines tx (d d' : Drive) out :
  onApprovalTransactionHasBeenPublished false tx d = Ret (out, d') ->
  queue_handle (T := T) (EvPublished tx) (task_answer (EvPublished tx) d) (abs d) = (started out, abs d').
Proof.
  unfold onApprovalTransactionHasBeenPublished, task_answer. intros [_ E]%guard_assert_inv.
  cbn [queue_handle]. change (fd_task (cancelVerification d)) with (fd_task d) in E.
  pose proof (fun d1 => ask_catchingUp d1 (mkCatchingUp (pa_rootHash tx) (pa_modifyTransactionHash tx))) as Ha.
  cbn [cu_modifyTransactionHash] in Ha. destruct (fd_task d) as [t|] eqn:Ht.
  - apply bind_ret_inv in E as ([c t'] & -> & E). injection E as <- <-.
    assert (abs (set_task (Some t') (cancelVerification d)) = abs d) as E by exact (abs_set_task (cancelVerification d) t t' Ht).
    rewrite (abs_busy d t Ht) in *. destruct c; [rewrite Ha|]; by rewrite E.
  - rewrite (abs_idle d Ht). apply next_refines in E. rewrite Ha in E. rewrite <- E.
    change (abs (cancelVerification d)) with (abs d). by rewrite (abs_idle d Ht).
Qed.

(** C3: the queue of the drive refines a priority queue: on every event the drive
    handles -- a request, a published approval, the end of a task -- it starts exactly
    the tasks, and is left with exactly the requests, of the abstract machine, whose
    pending list stays ordered by priority.  There a request is put behind those of
    its priority; closing, cancelling, catching up and synchronizing replace the
    waiting request of their type, and synchronizing the waiting catching up; a
    withdrawal takes the first modification or stream of its transaction; a task is
    started only when none runs, and it is the first of the list; and
    nothing else leaves the list but what the started task makes obsolete: the manual
    modification, when catching up or synchronizing starts, and the modifications up
    to the one that is caught up with. *)
Theorem drive_refines_queue e (d d' : Drive) out :
  handle e d = Ret (out, d') ->
  queue_handle e (task_answer e d) (abs d) = (started out, abs d') /\
  StronglySorted before (q_pending (abs d')).
Proof.
  intros E. split; [|apply waiting_sorted]. destruct e; cbn [handle] in E.
  - unfold startModifyDrive in E. apply bind_ret_inv in E as (d1 & [<- [_ _]]%abs_told & E).
    apply if_idle_refines in E. by rewrite ask_deferred in E.
  - unfold startStream in E. apply bind_ret_inv in E as (d1 & [<- [_ _]]%abs_told & E).
    apply if_idle_refines in E. by rewrite ask_deferred in E.
  - by apply cancel_refines.
  - unfold initiateManualModifications in E. apply guard_assert_inv in E as [Hm E].
    apply bind_ret_inv in E as (d1 & (Ha & _ & Hm1)%abs_told & E).
    apply if_idle_refines in E. rewrite ask_manual, Ha in E; [done|].
    rewrite Hm1. by destruct (fd_deferredManualModificationRequest d).
  - by apply synchronize_refines.
  - unfold startVerification in E. case_bool_decide; [by injection E as <- <-|].
    cbn -[runVerificationTask] in E. destruct (fd_verificationTask d); [done|].
    case_decide; [|by injection E as <- <-].
    unfold runVerificationTask in E. apply guard_assert_inv in E as [_ E]. by injection E as <- <-.
  - unfold startDriveClosing in E. cbn -[runNextTask] in E. destruct (fd_task d) eqn:Ht; [done|].
    apply next_refines in E. cbn [queue_handle]. rewrite <- ask_close. exact E.
  - unfold onOpinionReceived in E. destruct (fd_task d) as [t|] eqn:Ht.
    + apply bind_ret_inv in E as ([[] t'] & _ & E); [|destruct (ai_opinions anOpinion); [done|]];
        injection E as <- <-; cbn [queue_handle]; by rewrite <- (abs_set_task d t t' Ht).
    + destruct (ai_opinions anOpinion); [done|]. by injection E as <- <-.
  - by apply published_refines.
  - injection E as <- <-. unfold onApprovalTransactionHasFailedInvalidOpinions.
    destruct (fd_task d) as [t|] eqn:Ht; [erewrite abs_set_task by done|]; done.
  - injection E as <- <-. cbn [queue_handle]. unfold abs. cbn. by destruct (fd_task d).
  - by apply next_refines.
Qed.

End Refinement.

Lemma drive_refines_queue_witness :
  exists out d',
    sampleHandle EvTaskFinished
      (sampleDrive (Some (CancelModificationTask 4))
         [DeferredModification 5 10; DeferredStream 6 20; DeferredModification 7 30] (Some (mkCatchingUp 77 6))) = Ret (out, d') /\
    queue_next (mkQueue true [(CATCHING_UP, 6); (MODIFICATION_REQUEST, 5); (STREAM_REQUEST, 6); (MODIFICATION_REQUEST, 7)]) =
      ([(CATCHING_UP, 6)], mkQueue true [(MODIFICATION_REQUEST, 7)]).
Proof.
  do 2 eexists. split; [reflexivity|].
  exact (proj1 (drive_refines_queue (H := any_task sampleParams) (Laws := any_task_laws sampleParams) EvTaskFinished
           (sampleDrive (Some (CancelModificationTask 4))
              [DeferredModification 5 10; DeferredStream 6 20; DeferredModification 7 30] (Some (mkCatchingUp 77 6)))
           _ _ eq_refl)).
Defined.
