(* ===== verification/DriveTasksSpec.v ===== *)
(** * Properties of the tasks of a drive *)

From S2P Require Import Prelude FsTree FsTreeFacts FsTreeSpec ModifyOpinion ModifyApproval FlatDrive DriveTasks.

(** ** The files of a synchronization *)

Definition hashes (tree : Folder) : gset Z := list_to_set (file_hash <$> files_of tree).

Lemma hashes_cons k c n cs b i m st :
  hashes (MkFolder n ((k, c) :: cs) b i m st) =
  match c with inl sub => hashes sub | inr f => {[file_hash f]} end ∪ hashes (MkFolder n cs b i m st).
Proof.
  unfold hashes. cbn [files_of flat_map]. rewrite fmap_app, list_to_set_app_L. destruct c; cbn; set_solver.
Qed.

(** Marking changes only the mark, and sets it exactly for the files of the tree. *)
Lemma markUsedFiles_lookup tree (m : TorrentHandleMap) h :
  markUsedFiles tree m !! h = (fun b => bool_decide (h ∈ hashes tree) || b) <$> (m !! h).
Proof.
  revert m. induction tree as [n cs b i mi st Hcs] using Folder_nested_ind. intros m. cbn [markUsedFiles].
  induction Hcs as [|[k c] cs Hc _ IH] in m |- *.
  - by destruct (m !! h).
  - rewrite hashes_cons. destruct c as [sub|f]; cbn in Hc; rewrite IH.
    + rewrite Hc. destruct (m !! h); [|done]. cbn. f_equal. rewrite orb_assoc. f_equal.
      rewrite <- bool_decide_or. apply bool_decide_ext. set_solver.
    + destruct (m !! file_hash f) as [u|] eqn:Hf.
      * destruct (decide (h = file_hash f)) as [->|Hne].
        -- rewrite lookup_insert_eq, Hf. cbn. rewrite orb_true_r. f_equal. symmetry. apply orb_true_iff. left.
           apply bool_decide_eq_true. set_solver.
        -- rewrite lookup_insert_ne by done. destruct (m !! h); [|done]. cbn. do 2 f_equal.
           apply bool_decide_ext. set_solver.
      * destruct (decide (h = file_hash f)) as [->|Hne]; [by rewrite Hf|].
        destruct (m !! h); [|done]. cbn. do 2 f_equal. apply bool_decide_ext. set_solver.
Qed.

Lemma createUnused_inv tree m unused m' :
  createUnusedFileList tree m = Ret (unused, m') ->
  unused = dom m ∖ hashes tree /\ dom m' = dom m ∩ hashes tree /\ m !! 0 = None.
Proof.
  unfold createUnusedFileList. intros [Hz E]%guard_assert_inv. injection E as <- <-.
  apply bool_decide_eq_true in Hz. rewrite markUsedFiles_lookup, lookup_fmap in Hz.
  assert (forall h b, markUsedFiles tree ((fun _ => false) <$> m) !! h = Some b <->
            is_Some (m !! h) /\ b = bool_decide (h ∈ hashes tree)) as Hl.
  { intros h b. rewrite markUsedFiles_lookup, lookup_fmap. destruct (m !! h); cbn; rewrite ?orb_false_r;
      split; [intros [= <-]; by split; eauto | by intros [_ ->] | done | by intros [[? [=]] _]]. }
  split_and!.
  - apply set_eq. intros h. rewrite elem_of_dom, elem_of_difference, elem_of_dom. split.
    + intros [b [Hb Hf]%map_lookup_filter_Some]. apply Hl in Hb as [? ->]. cbn in Hf.
      split; [done|]. by apply bool_decide_eq_false in Hf.
    + intros [Hm Hh]. exists false. apply map_lookup_filter_Some. split; [|done]. apply Hl.
      split; [done|]. symmetry. by apply bool_decide_eq_false.
  - apply set_eq. intros h. rewrite elem_of_dom, elem_of_intersection, elem_of_dom. split.
    + intros [b [Hb Hf]%map_lookup_filter_Some]. apply Hl in Hb as [? ->]. cbn in Hf.
      split; [done|]. by apply bool_decide_eq_true in Hf.
    + intros [Hm Hh]. exists true. apply map_lookup_filter_Some. split; [|done]. apply Hl.
      split; [done|]. symmetry. by apply bool_decide_eq_true.
  - by destruct (m !! 0).
Qed.

Lemma createUnused_ok tree m :
  m !! 0 = None -> exists unused m', createUnusedFileList tree m = Ret (unused, m').
Proof.
  intros Hz. unfold createUnusedFileList. rewrite bool_decide_true; [by do 2 eexists|].
  by rewrite markUsedFiles_lookup, lookup_fmap, Hz.
Qed.

Lemma catchingUpList_spec tree disk missing :
  (0 ∈ hashes tree -> 0 ∈ disk) ->
  createCatchingUpFileList tree disk missing = Ret ((hashes tree ∖ disk) ∪ missing).
Proof.
  revert missing. induction tree as [n cs b i mi st Hcs] using Folder_nested_ind.
  cbn [createCatchingUpFileList].
  induction Hcs as [|[k c] cs Hc _ IH]; intros missing Hz.
  - f_equal. unfold hashes. cbn. set_solver.
  - rewrite hashes_cons in *. destruct c as [sub|f]; cbn in Hc.
    + rewrite Hc by set_solver. cbn. rewrite IH by set_solver. f_equal. set_solver.
    + case_decide as Hd; [rewrite IH by set_solver; f_equal; set_solver|].
      destruct (Z.eqb_spec (file_hash f) 0) as [E|E]; [rewrite E in *; set_solver|].
      cbn. rewrite IH by set_solver. f_equal. apply set_eq. intros h. rewrite !elem_of_union, !elem_of_difference, !elem_of_union, !elem_of_singleton.
      destruct (decide (h = file_hash f)); [subst; tauto|tauto].
Qed.

Lemma download_spec missing disk (m : TorrentHandleMap) :
  let '(disk', m') := downloadMissingFiles missing disk m in
  disk' = list_to_set missing ∪ disk /\ dom m' = list_to_set missing ∪ dom m.
Proof.
  unfold downloadMissingFiles. revert disk m.
  induction missing as [|h missing IH]; intros disk m; cbn; [set_solver|].
  specialize (IH ({[h]} ∪ disk) (<[h := false]> m)).
  destruct (foldl _ _ _) as [disk' m'], IH as [-> ->]. rewrite dom_insert_L. set_solver.
Qed.

(** After a synchronization the drive holds exactly the files of the new tree,
    besides the files that it did not track: every file of the tree is on the disk,
    every tracked file that the tree does not name has been removed, and the
    torrents kept are those of the tree.  The hash [0] is the empty file, always on
    the disk and never tracked. *)
Lemma synchronization_spec tree disk m :
  m !! 0 = None -> (0 ∈ hashes tree -> 0 ∈ disk) ->
  exists disk' m', synchronization tree disk m = Ret (disk', m') /\
    disk' = (disk ∖ dom m) ∪ hashes tree /\
    dom m' = hashes tree ∩ (dom m ∪ (hashes tree ∖ disk)).
Proof.
  intros Hz H0. unfold synchronization, synchronizeFiles.
  assert (0 ∉ dom m) as Hz' by (rewrite elem_of_dom, Hz; by intros [? ?]).
  destruct (createUnused_ok tree m Hz) as (unused & m1 & E1). rewrite E1.
  apply createUnused_inv in E1 as (-> & Hm1 & _). cbn -[createUnusedFileList].
  unfold removeUnusedFiles. rewrite bool_decide_true by set_solver. cbn -[createUnusedFileList].
  rewrite catchingUpList_spec by set_solver. cbn -[createUnusedFileList elements].
  pose proof (download_spec (elements ((hashes tree ∖ (disk ∖ (dom m ∖ hashes tree))) ∪ ∅))
                (disk ∖ (dom m ∖ hashes tree)) m1) as Hd.
  destruct (downloadMissingFiles _ _ _) as [disk2 m2]. rewrite list_to_set_elements_L in Hd. destruct Hd as [-> Hm2].
  assert (0 ∉ dom m2) as Hz2 by (rewrite Hm2, Hm1; set_solver).
  destruct (createUnused_ok tree m2) as (unused2 & m3 & E2); [by apply not_elem_of_dom|]. rewrite E2.
  apply createUnused_inv in E2 as (-> & Hm3 & _). cbn. rewrite bool_decide_true by set_solver. cbn.
  do 2 eexists. split; [done|]. rewrite Hm3, Hm2, Hm1. split; apply set_eq; intros h; destruct (decide (h ∈ dom m)), (decide (h ∈ hashes tree)), (decide (h ∈ disk)); set_solver.
Qed.

Lemma synchronization_spec_witness :
  exists disk' m', synchronization (MkFolder "/" [("a"%string, inr (mkFile "a" 7 1 0 false None));
                                                 ("b"%string, inr (mkFile "b" 8 1 0 false None))] false 0 0 None)
                     {[0; 7; 9]} {[7 := true; 9 := true]} = Ret (disk', m') /\
    disk' = ({[0; 7; 9]} ∖ dom ({[7 := true; 9 := true]} : gmap Z bool)) ∪ {[7; 8]} /\ dom m' = {[7; 8]}.
Proof.
  destruct (synchronization_spec (MkFolder "/" [("a"%string, inr (mkFile "a" 7 1 0 false None));
                                                 ("b"%string, inr (mkFile "b" 8 1 0 false None))] false 0 0 None)
                     {[0; 7; 9]} {[7 := true; 9 := true]}) as (disk' & m' & E & H1 & H2).
  - reflexivity.
  - intros _. set_solver.
  - exists disk', m'. split; [exact E|]. split; [rewrite H1 | rewrite H2]; by vm_compute.
Defined.

(** ** Cancelling during the initialization *)

Section Initialized.
  Context (dp : DriveParams).
  #[local] Existing Instance any_task.
  Notation Drive := (DefaultFlatDrive AnyTask).

(** The modification in progress when the replicator stopped. *)
Definition interruptedModification (d : Drive) : Z := notApprovedModificationId (fd_opinionController d).

(** How often its cancellation is known: from requests during the
    initialization, and from the modifications that ended meanwhile. *)
Definition requested (t : InitializeTask) (d : Drive) : nat :=
  length (filter (fun r => r = interruptedModification d) (in_cancelRequests t)).
Definition completedCancelled (t : InitializeTask) (d : Drive) : bool :=
  match list_find (fun p => p.1 = interruptedModification d) (in_completed t) with
  | Some (_, (_, b)) => b
  | None => false
  end.

Definition initialized (t : InitializeTask) (d : Drive) : Drive :=
  set_task (Some (InitializeDriveTask (mkInit (in_completed t) (in_cancelRequests t) true))) d.

Lemma cancel_when_initialized t (d : Drive) :
  fd_task d = Some (InitializeDriveTask t) -> in_initialized t = true ->
  fd_deferredModificationRequests d = [] ->
  cancelModifyDrive (H := any_task dp) (interruptedModification d) d =
    Ret ([], set_cancel (Some (interruptedModification d)) d).
Proof.
  intros Ht Hi Hd. unfold cancelModifyDrive. rewrite Ht. cbn. unfold init_shouldCancelModify. rewrite Hi.
  cbn. rewrite bool_decide_true by done. cbn. rewrite Hd. destruct d; cbn in *. by subst.
Qed.

Lemma cancelRequested_ok t (d : Drive) found requests :
  fd_task d = Some (InitializeDriveTask t) -> in_initialized t = true ->
  fd_deferredModificationRequests d = [] ->
  cancelRequested dp requests found d =
  match length (filter (fun r => r = interruptedModification d) requests) with
  | O => Ret (found, d)
  | S O => if found then Stop AssertFailure else Ret (true, set_cancel (Some (interruptedModification d)) d)
  | _ => Stop AssertFailure
  end.
Proof.
  intros Ht Hi Hd. revert d found Ht Hd. induction requests as [|r requests IH]; intros d found Ht Hd; [done|].
  cbn [cancelRequested]. fold (interruptedModification d). rewrite filter_cons. case_decide as E.
  - subst r. destruct found; cbn -[cancelModifyDrive filter]; [by destruct (length _)|].
    rewrite (cancel_when_initialized t) by done. cbn -[filter].
    rewrite IH by done. by destruct (length _) as [|[]].
  - by apply IH.
Qed.

(** When a drive has been initialized, the cancellation of the modification
    that was in progress becomes the waiting cancel request exactly when it is
    known, by a request that came during the initialization or from the
    modifications completed meanwhile; everything else is unchanged.  A
    cancellation that is known twice is an assertion failure.  No modification may
    be waiting yet. *)
Lemma onInitialized_spec t (d : Drive) :
  fd_deferredModificationRequests d = [] ->
  onInitialized dp t d =
  match requested t d, completedCancelled t d with
  | O, false => Ret (initialized t d)
  | S O, false | O, true => Ret (set_cancel (Some (interruptedModification d)) (initialized t d))
  | _, _ => Stop AssertFailure
  end.
Proof.
  intros Hd. unfold onInitialized. fold (initialized t d).
  rewrite (cancelRequested_ok (mkInit (in_completed t) (in_cancelRequests t) true)) by done.
  change (interruptedModification (initialized t d)) with (interruptedModification d).
  fold (requested t d). unfold completedCancelled.
  destruct (requested t d) as [|[|n]]; cbn -[cancelModifyDrive]; [| |done].
  - change (notApprovedModificationId (fd_opinionController d)) with (interruptedModification d).
    destruct (list_find _ _) as [[i [h []]]|] eqn:E; [|done..].
    apply list_find_Some in E as (_ & Hh & _). cbn in Hh. subst h. cbn -[cancelModifyDrive].
    change (interruptedModification d) with (interruptedModification (initialized t d)).
    by rewrite (cancel_when_initialized (mkInit (in_completed t) (in_cancelRequests t) true)).
  - change (notApprovedModificationId (fd_opinionController d)) with (interruptedModification d).
    by destruct (list_find _ _) as [[i [h []]]|].
Qed.

End Initialized.

Lemma onInitialized_spec_witness :
  onInitialized (mkDriveParams 1 2 [3; 4] 4 true) (mkInit [(7, false)] [6; 5; 8] false)
    (mkDrive None None None None None [] None None None [] 0 ∅ ∅ ∅
       (mkController 9 100 (mkCumulative 0 ∅) (mkCumulative 5 ∅)) ∅ []) =
  Ret (set_cancel (Some 5) (set_task (Some (InitializeDriveTask (mkInit [(7, false)] [6; 5; 8] true)))
    (mkDrive None None None None None [] None None None [] 0 ∅ ∅ ∅
       (mkController 9 100 (mkCumulative 0 ∅) (mkCumulative 5 ∅)) ∅ []))).
Proof.
  exact (onInitialized_spec (mkDriveParams 1 2 [3; 4] 4 true) (mkInit [(7, false)] [6; 5; 8] false)
    (mkDrive None None None None None [] None None None [] 0 ∅ ∅ ∅
       (mkController 9 100 (mkCumulative 0 ∅) (mkCumulative 5 ∅)) ∅ []) eq_refl).
Defined.
