(* ===== verification/FolderIterator.v ===== *)
(** * Folder iterators ([src/drive/FolderIterator.cpp])

    An iterator over a folder of the sandbox keeps a stack of positions: a
    [std::map] of children and an iterator in it.  Children may be inserted while
    it lives, so a position is the path of the folder and the key the iterator
    points to ([None] for [end()]), and both are looked up in the tree as it is
    when the iterator is used. *)

From S2P Require Import Prelude OrderedMap FsPath FsStatistics FsTree.

Record IteratorValue := mkIteratorValue { iv_name : string; iv_depth : Z }.

Record StackEntry := mkStackEntry { se_path : path; se_it : option string }.

(** The top of the stack comes first. *)
Record FolderIterator := mkFolderIterator {
  fi_stack : list StackEntry; fi_node : option nat; fi_recursive : bool }.

Definition u32 (z : Z) : Z := z mod 4294967296.

(** The children from a key on, and the key after it. *)
Fixpoint from_key (k : string) (cs : list (string * Child)) : list (string * Child) :=
  match cs with
  | [] => []
  | (k', c) :: cs' => if decide (k = k') then cs else from_key k cs'
  end.
Definition first_key (cs : list (string * Child)) : option string := fst <$> head cs.
Definition next_key (k : string) (cs : list (string * Child)) : option string := first_key (tail (from_key k cs)).

(** The constructor; the block it adds to the folder's node is separate. *)
Definition newFolderIterator (p : path) (folder : Folder) (recursive : bool) : FolderIterator :=
  mkFolderIterator
    (match childs folder with [] => [] | cs => [mkStackEntry p (first_key cs)] end)
    (folder_node folder) recursive.

Definition hasNext (it : FolderIterator) : bool := bool_decide (fi_stack it <> []).

Fixpoint clearStack (stack : list StackEntry) : list StackEntry :=
  match stack with
  | e :: stack' => match se_it e with None => clearStack stack' | Some _ => stack end
  | [] => []
  end.

(** What [next] pushes for a child. *)
Definition descend (recursive : bool) (p : path) (c : Child) : list StackEntry :=
  match c with
  | inl folder =>
      match childs folder with
      | [] => []
      | cs => if recursive then [mkStackEntry p (first_key cs)] else []
      end
  | inr _ => []
  end.

(** [next] in the tree [t]: a position that is no more in it is dangling. *)
Definition next (t : Folder) (it : FolderIterator) : Outcome (option IteratorValue * FolderIterator) :=
  match fi_stack it with
  | [] => Ret (None, it)
  | e :: rest =>
      match folder_at (se_path e) t, se_it e with
      | Some folder, Some k =>
          match omap_find k (childs folder) with
          | None => Stop UndefinedBehaviour
          | Some c =>
              let v := mkIteratorValue (child_name c) (u32 (Z.of_nat (length rest))) in
              let e' := mkStackEntry (se_path e) (next_key k (childs folder)) in
              Ret (Some v, mkFolderIterator
                             (clearStack (descend (fi_recursive it) (se_path e ++ [k]) c ++ e' :: rest))
                             (fi_node it) (fi_recursive it))
          end
      | _, _ => Stop UndefinedBehaviour
      end
  end.

(** Using an iterator to its end. *)
Fixpoint iterateAll (fuel : nat) (t : Folder) (it : FolderIterator) : Outcome (list IteratorValue) :=
  match fuel with
  | O => Stop NonTermination
  | S fuel' =>
      if hasNext it then
        '(v, it') ← next t it;
        vs ← iterateAll fuel' t it';
        Ret (option_list v ++ vs)
      else Ret []
  end.
