(* ===== verification/FolderIteratorSpec.v ===== *)
(** * What a folder iterator lists *)

From S2P Require Import Prelude OrderedMap FsPath FsStatistics FsTree FsTreeFacts FsTreeSpec FolderIterator.

(** The reference: the children in the order of their names, each folder followed
    by its own listing one level deeper when the iterator is recursive. *)
Fixpoint listing (recursive : bool) (depth : nat) (fd : Folder) : list IteratorValue :=
  match fd with
  | MkFolder _ cs _ _ _ _ =>
      flat_map (fun kc => mkIteratorValue (child_name kc.2) (u32 (Z.of_nat depth)) ::
                          match kc.2 with
                          | inl sub => if recursive then listing recursive (S depth) sub else []
                          | inr _ => []
                          end) cs
  end.

Definition list_children (recursive : bool) (depth : nat) (cs : list (string * Child)) : list IteratorValue :=
  flat_map (fun kc => mkIteratorValue (child_name kc.2) (u32 (Z.of_nat depth)) ::
                      match kc.2 with
                      | inl sub => if recursive then listing recursive (S depth) sub else []
                      | inr _ => []
                      end) cs.

Lemma listing_children r d fd : listing r d fd = list_children r d (childs fd).
Proof. by destruct fd. Qed.

(** ** Positions *)

Lemma from_key_split k cs :
  match omap_find k cs with
  | Some c => exists before, cs = before ++ from_key k cs /\ hd_error (from_key k cs) = Some (k, c)
  | None => from_key k cs = []
  end.
Proof.
  induction cs as [|[k' c'] cs IH]; cbn; [done|]. case_decide as E.
  - subst. by exists [].
  - destruct (omap_find k cs) as [c|]; [|done]. destruct IH as (before & H1 & H2).
    exists ((k', c') :: before). split; [cbn; by rewrite <- H1 | done].
Qed.

Lemma from_key_find k cs c :
  omap_find k cs = Some c -> from_key k cs = (k, c) :: tail (from_key k cs).
Proof.
  intros E. pose proof (from_key_split k cs) as H. rewrite E in H. destruct H as (_ & _ & H).
  destruct (from_key k cs); cbn in H; by simplify_eq.
Qed.

(** The entry of the next key is the rest. *)
Lemma from_key_next k cs c :
  omap_sorted cs -> omap_find k cs = Some c ->
  match next_key k cs with
  | Some k' => from_key k' cs = tail (from_key k cs) /\ is_Some (omap_find k' cs)
  | None => tail (from_key k cs) = []
  end.
Proof.
  intros Hs. unfold next_key. induction cs as [|[k0 c0] cs IH]; cbn; [done|].
  assert (omap_sorted cs) as Hs' by (by inversion Hs).
  assert (forall k' c', (k', c') ∈ cs -> k' <> k0) as Hnew.
  { intros k' c' Hin ->. inversion Hs as [|? ? _ Hall]; subst.
    rewrite Forall_forall in Hall. destruct (string_lt_irrefl k0).
    apply Hall. apply list_elem_of_fmap. by exists (k0, c'). }
  case_decide as E.
  - intros _. cbn. destruct cs as [|[k1 c1] cs]; cbn; [done|].
    assert (k1 <> k0) as Hne by (apply (Hnew k1 c1); left).
    rewrite !(decide_False (P := k1 = k0)), !decide_True by done. split; [done|by eexists].
  - intros Hf. specialize (IH Hs' Hf).
    destruct (first_key (tail (from_key k cs))) as [k'|] eqn:Hk; [|done].
    destruct IH as [H1 [c' H2]]. assert (k' <> k0) as Hne by by eapply Hnew, omap_find_In.
    rewrite !decide_False by done. split; [done|by eexists].
Qed.

(** ** The work that is left *)

Definition entry_rest (t : Folder) (e : StackEntry) : list (string * Child) :=
  match folder_at (se_path e) t, se_it e with
  | Some folder, Some k => from_key k (childs folder)
  | _, _ => []
  end.

Fixpoint pending (r : bool) (t : Folder) (stack : list StackEntry) : list IteratorValue :=
  match stack with
  | [] => []
  | e :: stack' => list_children r (length stack') (entry_rest t e) ++ pending r t stack'
  end.

(** The positions are in the tree. *)
Definition entry_ok (t : Folder) (e : StackEntry) : Prop :=
  exists folder, folder_at (se_path e) t = Some folder /\
    forall k, se_it e = Some k -> is_Some (omap_find k (childs folder)).

Lemma clearStack_pending r t stack :
  Forall (entry_ok t) stack ->
  pending r t (clearStack stack) = pending r t stack /\ Forall (entry_ok t) (clearStack stack) /\
  (forall e, hd_error (clearStack stack) = Some e -> is_Some (se_it e)).
Proof.
  induction 1 as [|e stack He Hst IH]; [by split_and!|]. cbn.
  destruct (se_it e) as [k|] eqn:E; [split_and!; [done|by constructor|]; intros ? [= <-]; eauto|].
  destruct IH as (H1 & H2 & H3). split_and!; [|done..]. rewrite H1.
  unfold entry_rest. rewrite E. by destruct (folder_at _ _).
Qed.

Lemma folder_at_snoc p k t fd sub :
  folder_at p t = Some fd -> omap_find k (childs fd) = Some (inl sub) -> folder_at (p ++ [k]) t = Some sub.
Proof.
  revert t. induction p as [|n p IH]; intros t; cbn.
  - intros [= ->] ->. done.
  - destruct (omap_find n (childs t)) as [[]|]; [apply IH|done..].
Qed.

Section Listing.
  Context (t : Folder) (r : bool).
  Hypothesis Hwf : wf_folder t.

(** What an entry that [next] pushes stands for. *)
Lemma descend_pending p k c fd rest :
  folder_at p t = Some fd -> omap_find k (childs fd) = Some c ->
  pending r t (descend r (p ++ [k]) c ++ rest) =
    (match c with inl sub => if r then listing r (length rest) sub else [] | inr _ => [] end) ++ pending r t rest /\
  Forall (entry_ok t) (descend r (p ++ [k]) c).
Proof.
  intros Hp Hc. destruct c as [sub|f]; [|by split]. cbn. rewrite listing_children.
  destruct (childs sub) as [|[k1 c1] cs] eqn:Hcs; [by destruct r|]. destruct r; [|by split].
  pose proof (folder_at_snoc _ _ _ _ _ Hp Hc) as Hs. cbn. unfold entry_rest. cbn. rewrite Hs, Hcs. cbn.
  rewrite decide_True by done. split; [done|]. constructor; [|constructor].
  exists sub. split; [done|]. cbn. intros k0 [= <-]. rewrite Hcs. cbn. rewrite decide_True by done. eauto.
Qed.

(** One step lists the next value of the pending ones. *)
Lemma next_pending it :
  fi_recursive it = r -> Forall (entry_ok t) (fi_stack it) ->
  (forall e, hd_error (fi_stack it) = Some e -> is_Some (se_it e)) -> fi_stack it <> [] ->
  exists v it', next t it = Ret (Some v, it') /\ fi_recursive it' = r /\
    Forall (entry_ok t) (fi_stack it') /\ (forall e, hd_error (fi_stack it') = Some e -> is_Some (se_it e)) /\
    pending r t (fi_stack it) = v :: pending r t (fi_stack it').
Proof.
  intros Hr Hok Htop Hne. unfold next. destruct (fi_stack it) as [|e rest]; [done|].
  inversion_clear Hok as [|? ? (fd & Hfd & Hkeys) Hrest].
  destruct (Htop e eq_refl) as [k Hk]. destruct (Hkeys k Hk) as [c Hc].
  rewrite Hfd, Hk, Hc. cbn [fi_stack fi_recursive]. do 2 eexists. split; [done|]. rewrite Hr.
  assert (wf_folder fd) as Hwfd by eauto using wf_folder_at.
  assert (omap_sorted (childs fd)) as Hso by (by inversion Hwfd).
  pose proof (from_key_next _ _ _ Hso Hc) as Hn.
  set (e' := mkStackEntry (se_path e) (next_key k (childs fd))).
  assert (entry_ok t e') as He'.
  { exists fd. split; [done|]. cbn. intros k' Hk'. rewrite Hk' in Hn. apply Hn. }
  destruct (descend_pending (se_path e) k c fd (e' :: rest) Hfd Hc) as [Hp Hd].
  destruct (clearStack_pending r t (descend r (se_path e ++ [k]) c ++ e' :: rest)) as (H1 & H2 & H3).
  { apply Forall_app. split; [done|by constructor]. }
  split; [done|]. split; [done|]. split; [done|]. cbn [fi_stack]. rewrite H1, Hp. cbn [pending].
  assert (entry_rest t e = (k, c) :: tail (from_key k (childs fd))) as ->.
  { unfold entry_rest. rewrite Hfd, Hk. by apply from_key_find. }
  assert (entry_rest t e' = tail (from_key k (childs fd))) as ->.
  { unfold entry_rest. cbn. rewrite Hfd. destruct (next_key k (childs fd)); [by destruct Hn|done]. }
  cbn. rewrite <- app_assoc. by destruct c.
Qed.

Lemma iterateAll_pending fuel it :
  fi_recursive it = r -> Forall (entry_ok t) (fi_stack it) ->
  (forall e, hd_error (fi_stack it) = Some e -> is_Some (se_it e)) ->
  (length (pending r t (fi_stack it)) < fuel)%nat ->
  iterateAll fuel t it = Ret (pending r t (fi_stack it)).
Proof.
  revert it. induction fuel as [|fuel IH]; intros it Hr Hok Htop Hf; [lia|]. cbn [iterateAll].
  unfold hasNext. case_bool_decide as Hs.
  - destruct (next_pending it Hr Hok Htop Hs) as (v & it' & E & Hr' & Hok' & Htop' & Hp).
    rewrite E. cbn. rewrite IH; [by rewrite Hp | done | done | done |]. rewrite Hp in Hf. cbn in Hf. lia.
  - by rewrite Hs.
Qed.
End Listing.

(** C40: an iterator over a folder of a well-formed tree ends, whatever the folder,
    and lists exactly the children of the folder in the order of their names --
    when it is recursive each folder is followed by its whole listing, one level
    deeper -- never using a position outside the tree. *)
Theorem folder_iterator_lists t p fd recursive :
  wf_folder t -> folder_at p t = Some fd ->
  exists fuel0, forall fuel, (fuel0 <= fuel)%nat ->
    iterateAll fuel t (newFolderIterator p fd recursive) = Ret (listing recursive 0 fd).
Proof.
  intros Hwf Hp. exists (S (length (listing recursive 0 fd))). intros fuel Hfuel.
  assert (pending recursive t (fi_stack (newFolderIterator p fd recursive)) = listing recursive 0 fd /\
          Forall (entry_ok t) (fi_stack (newFolderIterator p fd recursive))) as [He Hok].
  { rewrite listing_children. cbn. destruct (childs fd) as [|[k c] cs] eqn:Hcs; [by split|]. split.
    - cbn. unfold entry_rest. cbn. rewrite Hp, Hcs. cbn. by rewrite decide_True, app_nil_r.
    - constructor; [|constructor]. exists fd. split; [done|]. cbn. intros k' [= <-].
      rewrite Hcs. cbn. rewrite decide_True by done. eauto. }
  rewrite <- He in Hfuel |- *. apply iterateAll_pending; try done.
  intros e. cbn. destruct (childs fd) as [|[k c] cs]; [done|]. intros [= <-]. by eexists.
Qed.

Lemma folder_iterator_lists_witness :
  exists fuel0, forall fuel, (fuel0 <= fuel)%nat ->
    iterateAll fuel
      (MkFolder "/" [("a"%string, inl (MkFolder "a" [("x"%string, inr (mkFile "x" 1 2 0 false None))] false 0 0 None));
                     ("b"%string, inr (mkFile "b" 3 4 0 false None))] false 0 0 None)
      (newFolderIterator []
        (MkFolder "/" [("a"%string, inl (MkFolder "a" [("x"%string, inr (mkFile "x" 1 2 0 false None))] false 0 0 None));
                     ("b"%string, inr (mkFile "b" 3 4 0 false None))] false 0 0 None) true) =
    Ret [mkIteratorValue "a" 0; mkIteratorValue "x" 1; mkIteratorValue "b" 0].
Proof.
  refine (folder_iterator_lists _ [] _ true _ _); [|reflexivity].
  apply wf_folderb_sound. reflexivity.
Defined.
