(* ===== verification/ManualModifications.v ===== *)
(** * Manual modifications ([src/drive/ManualModificationsTask.cpp])

    A supercontract modifies the drive by hand: each call works on a sandbox, a
    copy of the file structure (the upper one), that is then applied or discarded;
    at the end the lower file structure becomes the drive's.  A request runs on the
    session thread ([handle]); most of them start a job of the background thread
    ([runJob]), whose end continues on the session thread ([runContinuation]), and
    [m_isExecutingQuery] is set meanwhile.  Each thread is a queue.

    - A stream is the file it was opened on, with the position in it; what is
      written reaches the file at once.
    - A copy of a file structure shares the statistics nodes of the original, whose
      counts are zero when no sandbox is open; here the copy gets nodes of its own.
    - The drive folder maps hashes to contents, the torrent folder hashes to sizes. *)

From S2P Require Import Prelude OrderedMap FsPath FsStatistics FsTree FolderIterator DriveTasks.

Inductive OpenFileMode := READ | WRITE.

#[export] Instance open_file_mode_eq_dec : EqDecision OpenFileMode.
Proof. solve_decision. Defined.

(** [OpenFile]: the file of its stream, the position, and the statistics node. *)
Record OpenFile := mkOpenFile { of_hash : Z; of_position : nat; of_node : nat }.

(** The arguments of the callbacks; [EmptyResponse] is an empty optional. *)
Inductive Response :=
  | InitiateSandboxModificationsResponse
  | OpenFileResponse (fileId : option Z)
  | ReadFileResponse (buffer : option (list Z))
  | WriteFileResponse (success : bool)
  | FlushResponse (success : bool)
  | CloseFileResponse (success : bool)
  | RemoveFilesystemEntryResponse (success : bool)
  | PathExistResponse (exists_ : bool)
  | PathIsFileResponse (isFile : bool)
  | FileSizeResponse (size : option Z)
  | CreateDirectoriesResponse (success : bool)
  | FolderIteratorCreateResponse (id : option Z)
  | FolderIteratorDestroyResponse (success : bool)
  | FolderIteratorHasNextResponse (hasNext : bool)
  | FolderIteratorNextResponse (value : option IteratorValue)
  | MoveFilesystemEntryResponse (success : bool)
  | ApplySandboxModificationsResponse (success : bool)
  | EvaluateStorageHashResponse (state : Z)
  | ApplyStorageModificationsResponse
  | EmptyResponse.

(** The jobs of the background thread, with what they are given. *)
Inductive Job :=
  | CreateStream (hash : Z) (mode : OpenFileMode) (fileId : Z) (fsPath : string)
  | ReadStream (fileId : Z) (bytes : nat)
  | WriteStream (fileId : Z) (buffer : list Z)
  | FlushStream (fileId : Z)
  | CloseStream (fileId : Z)
  | RemoveUnusedFiles (filesToRemove : gset Z) (moved : bool)
  | ObtainFileSize (hash : Z)
  | CloseStreams (applying : option bool)       (* with m_success, or at the end *)
  | AcceptUpperSandboxModifications             (* or discard, if the state is not valid *)
  | DiscardUpperSandboxModifications
  | ComputeSandboxHash
  | AddNewTorrentsToSession
  | OnUnusedTorrentsDeleted
  | ClearTrash.

Inductive Continuation :=
  | OnFileOpened (is_open : bool) (hash : Z) (mode : OpenFileMode) (fileId : Z) (fsPath : string)
      (clearedFileSize : Z)
  | OnReadFile (bytes : list Z)
  | OnFileWritten
  | OnFlushed
  | OnFileClosed (fileId : Z)
  | OnRemoved (removedFilesSize : Z)
  | OnMoved (removedFilesSize : Z)
  | OnFileSizeObtained (size : Z)
  | OnStreamsClosed (applying : option bool)
  | OnAppliedSandboxModifications (success : bool) (removedFilesSize : Z)
  | OnStorageHashEvaluated (storageHash : Z)
  | OnNewTorrentAdded
  | OnAppliedStorageModifications
  | OnTrashCleared.

(** ** The state *)

(** The two file structures, and the nodes that they and the drive share. *)
Record Sandbox := mkSandbox {
  m_upperSandboxFilesSize : Z;
  m_lowerSandboxFilesSize : Z;
  m_lowerSandboxFsTree : option Folder;
  m_upperSandboxFsTree : option Folder;
  m_nodes : StatStore;
  m_callManagedHashes : gset Z;
  m_sandboxRootHash : option Z }.

Record Handles := mkHandles {
  m_openFilesWrite : gmap Z OpenFile;
  m_openFilesRead : gmap Z OpenFile;
  m_folderIterators : gmap Z FolderIterator;
  m_totalFilesOpened : Z;
  m_totalFolderIteratorsCreated : Z }.

(** The flags and the two threads; [m_runNextTask] when the drive goes on. *)
Record Control := mkControl {
  m_isExecutingQuery : bool;
  m_taskIsInterrupted : bool;
  m_taskIsFinished : bool;
  m_runNextTask : bool;
  m_jobs : list Job;
  m_continuations : list Continuation }.

(** What the task uses of the drive ([DriveParams]). *)
Record DriveState := mkDriveState {
  m_driveFolder : gmap Z (list Z);
  m_torrentFolder : gmap Z Z;
  m_sandboxFsTreeFile : bool;                   (* it is on the disk *)
  m_torrentHandleMap : gmap Z bool;
  m_fsTree : Folder;
  m_rootHash : Z;
  m_lastApprovedModification : Z }.

Record ManualModifications := mkManualModifications {
  mm_sandbox : Sandbox; mm_handles : Handles; mm_control : Control; mm_drive : DriveState }.

Definition set_sandbox (b : Sandbox) (s : ManualModifications) : ManualModifications :=
  mkManualModifications b (mm_handles s) (mm_control s) (mm_drive s).
Definition set_handles (h : Handles) (s : ManualModifications) : ManualModifications :=
  mkManualModifications (mm_sandbox s) h (mm_control s) (mm_drive s).
Definition set_control (c : Control) (s : ManualModifications) : ManualModifications :=
  mkManualModifications (mm_sandbox s) (mm_handles s) c (mm_drive s).
Definition set_drive (d : DriveState) (s : ManualModifications) : ManualModifications :=
  mkManualModifications (mm_sandbox s) (mm_handles s) (mm_control s) d.

Definition set_sizes (upper lower : Z) (b : Sandbox) : Sandbox :=
  mkSandbox upper lower (m_lowerSandboxFsTree b) (m_upperSandboxFsTree b) (m_nodes b) (m_callManagedHashes b)
    (m_sandboxRootHash b).
Definition set_upper (t : option Folder) (nodes : StatStore) (b : Sandbox) : Sandbox :=
  mkSandbox (m_upperSandboxFilesSize b) (m_lowerSandboxFilesSize b) (m_lowerSandboxFsTree b) t nodes
    (m_callManagedHashes b) (m_sandboxRootHash b).
Definition set_lower (t : option Folder) (b : Sandbox) : Sandbox :=
  mkSandbox (m_upperSandboxFilesSize b) (m_lowerSandboxFilesSize b) t (m_upperSandboxFsTree b) (m_nodes b)
    (m_callManagedHashes b) (m_sandboxRootHash b).
Definition set_managed (m : gset Z) (b : Sandbox) : Sandbox :=
  mkSandbox (m_upperSandboxFilesSize b) (m_lowerSandboxFilesSize b) (m_lowerSandboxFsTree b)
    (m_upperSandboxFsTree b) (m_nodes b) m (m_sandboxRootHash b).
Definition set_sandboxRootHash (h : Z) (b : Sandbox) : Sandbox :=
  mkSandbox (m_upperSandboxFilesSize b) (m_lowerSandboxFilesSize b) (m_lowerSandboxFsTree b)
    (m_upperSandboxFsTree b) (m_nodes b) (m_callManagedHashes b) (Some h).

Definition on_sb (f : Sandbox -> Sandbox) (s : ManualModifications) : ManualModifications :=
  set_sandbox (f (mm_sandbox s)) s.

Definition set_files (write read : gmap Z OpenFile) (h : Handles) : Handles :=
  mkHandles write read (m_folderIterators h) (m_totalFilesOpened h) (m_totalFolderIteratorsCreated h).
Definition set_iterators (its : gmap Z FolderIterator) (created : Z) (h : Handles) : Handles :=
  mkHandles (m_openFilesWrite h) (m_openFilesRead h) its (m_totalFilesOpened h) created.
Definition set_opened (n : Z) (h : Handles) : Handles :=
  mkHandles (m_openFilesWrite h) (m_openFilesRead h) (m_folderIterators h) n (m_totalFolderIteratorsCreated h).

Definition on_hd (f : Handles -> Handles) (s : ManualModifications) : ManualModifications :=
  set_handles (f (mm_handles s)) s.

Definition set_folders (disk : gmap Z (list Z)) (torrents : gmap Z Z) (d : DriveState) : DriveState :=
  mkDriveState disk torrents (m_sandboxFsTreeFile d) (m_torrentHandleMap d) (m_fsTree d) (m_rootHash d)
    (m_lastApprovedModification d).
Definition set_sandboxFsTreeFile (b : bool) (d : DriveState) : DriveState :=
  mkDriveState (m_driveFolder d) (m_torrentFolder d) b (m_torrentHandleMap d) (m_fsTree d) (m_rootHash d)
    (m_lastApprovedModification d).
Definition set_torrentHandleMap (m : gmap Z bool) (d : DriveState) : DriveState :=
  mkDriveState (m_driveFolder d) (m_torrentFolder d) (m_sandboxFsTreeFile d) m (m_fsTree d) (m_rootHash d)
    (m_lastApprovedModification d).
Definition set_approvedTree (t : Folder) (rootHash modification : Z) (d : DriveState) : DriveState :=
  mkDriveState (m_driveFolder d) (m_torrentFolder d) (m_sandboxFsTreeFile d) (m_torrentHandleMap d) t rootHash
    modification.

Definition on_dr (f : DriveState -> DriveState) (s : ManualModifications) : ManualModifications :=
  set_drive (f (mm_drive s)) s.

Definition set_executing (b : bool) (c : Control) : Control :=
  mkControl b (m_taskIsInterrupted c) (m_taskIsFinished c) (m_runNextTask c) (m_jobs c) (m_continuations c).
Definition set_interrupted (c : Control) : Control :=
  mkControl (m_isExecutingQuery c) true (m_taskIsFinished c) (m_runNextTask c) (m_jobs c) (m_continuations c).
Definition set_finished (c : Control) : Control :=
  mkControl (m_isExecutingQuery c) (m_taskIsInterrupted c) true (m_runNextTask c) (m_jobs c) (m_continuations c).
Definition set_runNextTask (c : Control) : Control :=
  mkControl (m_isExecutingQuery c) (m_taskIsInterrupted c) (m_taskIsFinished c) true (m_jobs c) (m_continuations c).
Definition set_jobs (jobs : list Job) (c : Control) : Control :=
  mkControl (m_isExecutingQuery c) (m_taskIsInterrupted c) (m_taskIsFinished c) (m_runNextTask c) jobs
    (m_continuations c).
Definition set_continuations (ks : list Continuation) (c : Control) : Control :=
  mkControl (m_isExecutingQuery c) (m_taskIsInterrupted c) (m_taskIsFinished c) (m_runNextTask c) (m_jobs c) ks.

Definition on_ct (f : Control -> Control) (s : ManualModifications) : ManualModifications :=
  set_control (f (mm_control s)) s.

(** [executeOnBackgroundThread], [executeOnSessionThread], and the first with
    [m_isExecutingQuery = true]. *)
Definition executeOnBackgroundThread (j : Job) : ManualModifications -> ManualModifications :=
  on_ct (fun c => set_jobs (m_jobs c ++ [j]) c).
Definition executeOnSessionThread (k : Continuation) : ManualModifications -> ManualModifications :=
  on_ct (fun c => set_continuations (m_continuations c ++ [k]) c).
Definition execute (j : Job) (s : ManualModifications) : ManualModifications :=
  executeOnBackgroundThread j (on_ct (set_executing true) s).

(** ** Nodes and locks *)

(** The statistics of a node; a moved-from entry has none. *)
Definition folder_statistics (st : StatStore) (node : option nat) : Outcome FolderStatistics :=
  match node ≫= fun i => st_folders st !! i with
  | Some n => Ret (fdn_statistics n)
  | None => Stop UndefinedBehaviour
  end.

Definition child_totalBlocks (st : StatStore) (c : Child) : Outcome Z :=
  match c with
  | inl fd => s ← folder_statistics st (folder_node fd); Ret (totalBlocks s)
  | inr f =>
      match file_node f ≫= fun i => st_files st !! i with
      | Some n => Ret (file_totalBlocks (fln_statistics n))
      | None => Stop UndefinedBehaviour
      end
  end.

(** Whether one of the folders has a block of its own. *)
Fixpoint any_blocks (st : StatStore) (folders : list Folder) : Outcome bool :=
  match folders with
  | [] => Ret false
  | fd :: folders' =>
      s ← folder_statistics st (folder_node fd);
      b ← any_blocks st folders';
      Ret ((0 <? m_blocks s) || b)
  end.

(** [checkUnlock]; [iterateBranch] calls the callbacks whatever they return. *)
Definition checkUnlock (p : string) (t : Folder) (st : StatStore) : Outcome bool :=
  let visit := iterateBranch p t in
  above ← any_blocks st (bv_intermediate visit);
  below ← match bv_last visit with None => Ret 0 | Some c => child_totalBlocks st c end;
  Ret (negb above && negb (0 <? below)).

(** The destructors of [OpenFile] and [FolderIterator]; a node that has left the
    file structure blocks nothing there. *)
Definition release_file (i : nat) (st : StatStore) : Outcome StatStore :=
  match st_files st !! i with Some _ => file_removeBlock i st | None => Ret st end.
Definition release_folder (i : option nat) (st : StatStore) : Outcome StatStore :=
  match i with
  | Some i => match st_folders st !! i with Some _ => folder_removeBlock i st | None => Ret st end
  | None => Ret st
  end.

Fixpoint release_files (fs : list OpenFile) (st : StatStore) : Outcome StatStore :=
  match fs with
  | [] => Ret st
  | f :: fs' => st' ← release_file (of_node f) st; release_files fs' st'
  end.
Fixpoint release_folders (its : list FolderIterator) (st : StatStore) : Outcome StatStore :=
  match its with
  | [] => Ret st
  | it :: its' => st' ← release_folder (fi_node it) st; release_folders its' st'
  end.

Section Task.
  (** The size limit of the drive, whether its session lives, the limit of open
      files, the hash of a file's content, the size of its torrent, and the hash
      of the file of a file structure. *)
  Context (m_maxSize : Z) (session : bool) (m_maxOpenedStreams : Z).
  Context (calculateInfoHash : list Z -> Z) (torrentSize : list Z -> Z) (createTorrentFile : Folder -> Z).

Abbreviation Result := (Outcome (list Response * ManualModifications)).
(** A request is refused ([None]: the function returns [false]) or accepted. *)
Abbreviation Accepted := (Outcome (option (list Response * ManualModifications))).

Definition answer (r : Response) (s : ManualModifications) : Accepted := Ret (Some ([r], s)).
Definition start (j : Job) (s : ManualModifications) : Accepted := Ret (Some ([], execute j s)).

(** The common start of the requests: nothing is executing, and an interrupted
    task refuses; those on the sandbox want it to be open. *)
Definition on_task (s : ManualModifications) (k : Accepted) : Accepted :=
  guard_assert (negb (m_isExecutingQuery (mm_control s)))
    (if m_taskIsInterrupted (mm_control s) then Ret None else k).
Definition on_sandbox (s : ManualModifications) (k : Folder -> StatStore -> Accepted) : Accepted :=
  match m_upperSandboxFsTree (mm_sandbox s) with
  | None => Stop AssertFailure
  | Some upper => on_task s (k upper (m_nodes (mm_sandbox s)))
  end.

(** The end of a [unique_ptr] to a file structure. *)
Definition drop_tree (t : option Folder) (st : StatStore) : StatStore :=
  match t with Some fd => drop_folder fd st | None => st end.

Definition set_tree (t : Folder) (st : StatStore) : ManualModifications -> ManualModifications :=
  on_sb (set_upper (Some t) st).

(** [finishTask] and [terminate]. *)
Definition finishTask (s : ManualModifications) : ManualModifications :=
  if m_taskIsFinished (mm_control s) then s
  else executeOnBackgroundThread ClearTrash (on_ct set_finished s).

Definition terminate (s : ManualModifications) : ManualModifications :=
  if m_taskIsInterrupted (mm_control s) then s
  else
    let s1 := on_ct set_interrupted s in
    if m_isExecutingQuery (mm_control s1) then s1 else finishTask s1.

(** ** The sandbox of a call *)

Fixpoint addServiceFolders (folders : list string) (t : Folder) (st : StatStore) : Outcome (Folder * StatStore) :=
  match folders with
  | [] => Ret (t, st)
  | f :: folders' => '(_, t', st') ← addFolder f t st; addServiceFolders folders' t' st'
  end.

Definition initiateSandboxModifications (serviceFolders : list string) (s : ManualModifications) : Accepted :=
  on_task s
    (let b := mm_sandbox s in
     match m_lowerSandboxFsTree b with
     | None => Stop UndefinedBehaviour
     | Some lower =>
         let '(upper, st) := copyTree lower (m_nodes b) in
         st1 ← initializeStatistics upper (drop_tree (m_upperSandboxFsTree b) st);
         '(upper', st2) ← addServiceFolders serviceFolders upper st1;
         answer InitiateSandboxModificationsResponse
           (on_sb (set_sizes (m_lowerSandboxFilesSize b) (m_lowerSandboxFilesSize b)) (set_tree upper' st2 s))
     end).

(** ** Files *)

(** The entry that [openFile] opens for writing: the tree, the nodes and the
    managed hashes; [None] when it is not a file.  [temporary] are the hashes that
    [randomByteArray] returns: a new file is added twice. *)
Definition fileToWrite (temporary : Z * Z) (entry : option Child) (p : path) (upper : Folder) (st : StatStore)
    (managed : gset Z) : Outcome (option (Folder * StatStore * gset Z)) :=
  let parent := path_string (parent_path p) in
  match entry with
  | Some (inl _) => Ret None
  | Some (inr file) =>
      if decide (file_hash file ∈ managed) then Ret (Some (upper, st, managed))
      else
        r ← removeFlat (path_string p) upper st;
        '(h, t, st') ← addModifiableFile temporary.1 parent (filename p) (fr_tree r) (fr_store r);
        match h with
        | None => Stop AssertFailure
        | Some hash => Ret (Some (t, st', {[hash]} ∪ managed))
        end
  | None =>
      '(_, t1, st1) ← addModifiableFile temporary.1 parent (filename p) upper st;
      '(h, t, st') ← addModifiableFile temporary.2 parent (filename p) t1 st1;
      match h with
      | None => Stop AssertFailure
      | Some hash => Ret (Some (t, st', {[hash]} ∪ managed))
      end
  end.

(** [openFile] after the folder has been found at [fp]. *)
Definition openFileIn (fp : path) (temporary : Z * Z) (mode : OpenFileMode) (m_path : string) (fileId : Z)
    (t : Folder) (st : StatStore) (s : ManualModifications) : Accepted :=
  let p := path_of_string m_path in
  unlocked ← checkUnlock m_path t st;
  if negb unlocked then answer (OpenFileResponse None) s
  else
    folder ← deref fp t;
    let entry := findChildIt (filename p) folder in
    match mode with
    | READ =>
        match entry with
        | Some (inr file) => start (CreateStream (file_hash file) READ fileId m_path) s
        | _ => answer (OpenFileResponse None) s
        end
    | WRITE =>
        prepared ← fileToWrite temporary entry p t st (m_callManagedHashes (mm_sandbox s));
        match prepared with
        | None => answer (OpenFileResponse None) s
        | Some (t1, st1, managed) =>
            folder1 ← deref fp t1;
            match findChildIt (filename p) folder1 with
            | Some (inr file) =>
                start (CreateStream (file_hash file) WRITE fileId m_path)
                  (on_sb (set_managed managed) (set_tree t1 st1 s))
            | _ => Stop UndefinedBehaviour
            end
        end
    end.

(** An answer that is given before the rest of the request is done. *)
Definition prepend (early : list Response) (a : Accepted) : Accepted :=
  match a with Ret (Some (out, s)) => Ret (Some (early ++ out, s)) | _ => a end.

(** [openFile]; when too many files are open it answers, and goes on. *)
Definition openFile (temporary : Z * Z) (mode : OpenFileMode) (m_path : string) (s : ManualModifications) : Accepted :=
  on_sandbox s (fun upper st =>
    let h := mm_handles s in
    let early := if m_maxOpenedStreams <=? Z.of_nat (size (m_openFilesRead h) + size (m_openFilesWrite h))
                 then [OpenFileResponse None] else [] in
    let fileId := m_totalFilesOpened h in
    let s1 := on_hd (set_opened (u64_add fileId 1)) s in
    let '(ptr, t, st1) := getFolderPtr (parent_path (path_of_string m_path)) false upper st in
    prepend early
      (match ptr with
       | None => answer (OpenFileResponse None) s1
       | Some fp => openFileIn fp temporary mode m_path fileId t st1 s1
       end)).

Definition readFile (m_fileId : Z) (bytes : nat) (s : ManualModifications) : Accepted :=
  on_sandbox s (fun _ _ =>
    match m_openFilesRead (mm_handles s) !! m_fileId with
    | None => answer (ReadFileResponse None) s
    | Some _ => start (ReadStream m_fileId bytes) s
    end).

Definition writeFile (m_fileId : Z) (m_buffer : list Z) (s : ManualModifications) : Accepted :=
  on_sandbox s (fun _ _ =>
    match m_openFilesWrite (mm_handles s) !! m_fileId with
    | None => answer (WriteFileResponse false) s
    | Some _ =>
        let b := mm_sandbox s in
        let size := u64_add (m_upperSandboxFilesSize b) (Z.of_nat (length m_buffer)) in
        if m_maxSize <? size then answer (WriteFileResponse false) s
        else start (WriteStream m_fileId m_buffer) (on_sb (set_sizes size (m_lowerSandboxFilesSize b)) s)
    end).

Definition flush (m_fileId : Z) (s : ManualModifications) : Accepted :=
  on_sandbox s (fun _ _ =>
    match m_openFilesWrite (mm_handles s) !! m_fileId with
    | None => answer (FlushResponse false) s
    | Some _ => start (FlushStream m_fileId) s
    end).

Definition closeFile (m_fileId : Z) (s : ManualModifications) : Accepted :=
  on_sandbox s (fun _ _ =>
    match m_openFilesRead (mm_handles s) !! m_fileId, m_openFilesWrite (mm_handles s) !! m_fileId with
    | None, None => answer (CloseFileResponse false) s
    | _, _ => start (CloseStream m_fileId) s
    end).

(** [obtainUnusedFiles]: the files to remove and the hashes still managed. *)
Definition obtainUnusedFiles (c : Child) (managed : gset Z) : gset Z * gset Z :=
  let possiblyRemovedFiles := match c with inr f => {[file_hash f]} | inl fd => getUniqueFiles fd ∅ end in
  (possiblyRemovedFiles ∩ managed, managed ∖ possiblyRemovedFiles).

(** [removeFsTreeEntry], [processRemoveRequest]. *)
Definition removeFsTreeEntry (m_path : string) (s : ManualModifications) : Accepted :=
  on_sandbox s (fun upper st =>
    unlocked ← checkUnlock m_path upper st;
    if negb unlocked then answer (RemoveFilesystemEntryResponse false) s
    else
      '(child, t, st1) ← getEntryPtr m_path upper st;
      match child with
      | None => answer (RemoveFilesystemEntryResponse false) s
      | Some c =>
          let '(filesToRemove, managed) := obtainUnusedFiles c (m_callManagedHashes (mm_sandbox s)) in
          r ← removeFlat m_path t st1;
          start (RemoveUnusedFiles filesToRemove false)
            (on_sb (set_managed managed) (set_tree (fr_tree r) (fr_store r) s))
      end).

(** ** Queries of the file structure *)

Definition pathExist (m_path : string) (s : ManualModifications) : Accepted :=
  on_sandbox s (fun upper st =>
    '(entry, _, _) ← getEntryPtr m_path upper st;
    answer (PathExistResponse (bool_decide (is_Some (entry : option Child)))) s).

Definition pathIsFile (m_path : string) (s : ManualModifications) : Accepted :=
  on_sandbox s (fun upper st =>
    '(entry, _, _) ← getEntryPtr m_path upper st;
    answer (PathIsFileResponse (match entry with None => false | Some c => isFile c end)) s).

(** [fileSize], [processFileSizeRequest]. *)
Definition fileSize (m_path : string) (s : ManualModifications) : Accepted :=
  on_sandbox s (fun upper st =>
    '(entry, _, _) ← getEntryPtr m_path upper st;
    match entry with
    | Some (inr file) => start (ObtainFileSize (file_hash file)) s
    | _ => answer (FileSizeResponse None) s
    end).

Definition createDirectories (m_path : string) (s : ManualModifications) : Accepted :=
  on_sandbox s (fun upper st =>
    '(success, t, st1) ← addFolder m_path upper st;
    answer (CreateDirectoriesResponse success) (set_tree t st1 s)).

(** ** Folder iterators *)

Definition folderIteratorCreate (m_path : string) (m_recursive : bool) (s : ManualModifications) : Accepted :=
  on_sandbox s (fun upper st =>
    unlocked ← checkUnlock m_path upper st;
    if unlocked : bool then
      let p := path_of_string m_path in
      let '(ptr, t, st1) := getFolderPtr p false upper st in
      match ptr with
      | None => answer (FolderIteratorCreateResponse None) s
      | Some fp =>
          folder ← deref fp t;
          match folder_node folder with
          | None => Stop UndefinedBehaviour
          | Some i =>
              st2 ← folder_addBlock i st1;
              let h := mm_handles s in
              let iteratorId := m_totalFolderIteratorsCreated h in
              answer (FolderIteratorCreateResponse (Some iteratorId))
                (on_hd (set_iterators (<[iteratorId := newFolderIterator fp folder m_recursive]> (m_folderIterators h))
                          (u64_add iteratorId 1))
                   (set_tree t st2 s))
          end
      end
    else answer (FolderIteratorCreateResponse None) s).

Definition folderIteratorDestroy (m_id : Z) (s : ManualModifications) : Accepted :=
  on_sandbox s (fun upper st =>
    let h := mm_handles s in
    match m_folderIterators h !! m_id with
    | None => answer (FolderIteratorDestroyResponse false) s
    | Some it =>
        st1 ← release_folder (fi_node it) st;
        answer (FolderIteratorDestroyResponse true)
          (on_hd (set_iterators (delete m_id (m_folderIterators h)) (m_totalFolderIteratorsCreated h))
             (set_tree upper st1 s))
    end).

Definition folderIteratorHasNext (m_id : Z) (s : ManualModifications) : Accepted :=
  on_sandbox s (fun _ _ =>
    answer (FolderIteratorHasNextResponse
              (match m_folderIterators (mm_handles s) !! m_id with Some it => hasNext it | None => false end)) s).

Definition folderIteratorNext (m_id : Z) (s : ManualModifications) : Accepted :=
  on_sandbox s (fun upper _ =>
    let h := mm_handles s in
    match m_folderIterators h !! m_id with
    | None => answer (FolderIteratorNextResponse None) s
    | Some it =>
        '(v, it') ← next upper it;
        answer (FolderIteratorNextResponse v)
          (on_hd (set_iterators (<[m_id := it']> (m_folderIterators h)) (m_totalFolderIteratorsCreated h)) s)
    end).

(** ** Moving *)

Definition moveFsTreeEntry (m_src m_dst : string) (s : ManualModifications) : Accepted :=
  on_sandbox s (fun upper st =>
    unlockedSrc ← checkUnlock m_src upper st;
    unlockedDst ← (if unlockedSrc : bool then checkUnlock m_dst upper st else Ret false);
    if negb unlockedDst then answer (MoveFilesystemEntryResponse false) s
    else
      '(dstChild, t, st1) ← getEntryPtr m_dst upper st;
      let managed := m_callManagedHashes (mm_sandbox s) in
      let '(filesToRemove, managed') :=
        match dstChild with Some c => obtainUnusedFiles c managed | None => (∅, managed) end in
      r ← moveFlat m_src m_dst t st1;
      let s1 := on_sb (set_managed managed') (set_tree (fr_tree r) (fr_store r) s) in
      if fr_ok r then start (RemoveUnusedFiles filesToRemove true) s1
      else answer (MoveFilesystemEntryResponse false) s1).

(** ** Applying *)

(** [closeFiles]: the streams are closed by a job, the [OpenFile]s end here. *)
Definition closeFiles (applying : option bool) (s : ManualModifications) : Outcome ManualModifications :=
  let h := mm_handles s in let b := mm_sandbox s in
  st1 ← release_files (map snd (map_to_list (m_openFilesWrite h))) (m_nodes b);
  st2 ← release_files (map snd (map_to_list (m_openFilesRead h))) st1;
  Ret (execute (CloseStreams applying)
         (on_sb (set_upper (m_upperSandboxFsTree b) st2) (on_hd (set_files ∅ ∅) s))).

Definition applySandboxModifications (m_success : bool) (s : ManualModifications) : Accepted :=
  on_task s
    (match m_upperSandboxFsTree (mm_sandbox s) with
     | None => Stop AssertFailure
     | Some _ => s1 ← closeFiles (Some m_success) s; Ret (Some ([], s1))
     end).

Definition evaluateStorageHash (s : ManualModifications) : Accepted :=
  on_task s
    (guard_assert (bool_decide (m_upperSandboxFsTree (mm_sandbox s) = None)) (start ComputeSandboxHash s)).

(** [applyStorageModifications] does not set [m_isExecutingQuery]. *)
Definition applyStorageModifications (m_success : bool) (s : ManualModifications) : Accepted :=
  on_task s
    (guard_assert (bool_decide (m_upperSandboxFsTree (mm_sandbox s) = None))
       (if m_success then Ret (Some ([], executeOnBackgroundThread AddNewTorrentsToSession s))
        else answer ApplyStorageModificationsResponse (finishTask s))).

(** ** The background thread *)

(** [fs::file_size] with an error code: a missing file has the size -1. *)
Definition file_size_ec (disk : gmap Z (list Z)) (hash : Z) : Z :=
  match disk !! hash with Some c => Z.of_nat (length c) | None => two64 - 1 end.

Definition overwrite (position : nat) (buffer content : list Z) : list Z :=
  take position content ++ buffer ++ drop (position + length buffer) content.

(** The loop of [removeUnusedFiles]: a missing file is an error that is logged. *)
Fixpoint removeFiles (files : list Z) (removed : Z) (disk : gmap Z (list Z)) : Outcome (Z * gmap Z (list Z)) :=
  match files with
  | [] => Ret (removed, disk)
  | hash :: files' =>
      match disk !! hash with
      | Some c => removeFiles files' (u64_add removed (Z.of_nat (length c))) (delete hash disk)
      | None => log_err (removeFiles files' removed disk)
      end
  end.

(** The loops of [discardUpperSandboxModifications] and
    [acceptUpperSandboxModifications]: [fs::remove] takes a missing file for no
    error and clears the one of [fs::file_size]. *)
Definition removeFiles_ec (files : list Z) (disk : gmap Z (list Z)) : Z * gmap Z (list Z) :=
  foldl (fun '(removed, disk) hash => (u64_add removed (file_size_ec disk hash), delete hash disk)) (0, disk) files.

(** [validateSandboxState]. *)
Definition validateSandboxState (d : DriveState) (t : Folder) : Outcome bool :=
  size ← evaluateSizes (fun h => Z.of_nat ∘ length <$> m_driveFolder d !! h) (fun h => m_torrentFolder d !! h) t;
  Ret (negb (m_maxSize <=? size)).

Definition discardUpperSandboxModifications (s : ManualModifications) : Outcome ManualModifications :=
  let d := mm_drive s in
  let managed := m_callManagedHashes (mm_sandbox s) in
  guard_assert (bool_decide (0 ∉ managed))
    (let '(removed, disk) := removeFiles_ec (elements managed) (m_driveFolder d) in
     Ret (executeOnSessionThread (OnAppliedSandboxModifications false removed)
            (on_dr (set_folders disk (m_torrentFolder d)) s))).

Definition acceptUpperSandboxModifications (upper : Folder) (s : ManualModifications) : Outcome ManualModifications :=
  let d := mm_drive s in
  match m_lowerSandboxFsTree (mm_sandbox s) with
  | None => Stop UndefinedBehaviour
  | Some lower =>
      let removedFiles := getUniqueFiles lower ∅ ∖ getUniqueFiles upper ∅ ∖ dom (m_torrentHandleMap d) ∖ {[0]} in
      let '(removed, disk) := removeFiles_ec (elements removedFiles) (m_driveFolder d) in
      Ret (executeOnSessionThread (OnAppliedSandboxModifications true removed)
             (on_dr (set_folders disk (m_torrentFolder d)) s))
  end.

Definition set_computed (hash size : Z) (f : File) : File :=
  mkFile (file_name f) hash size (file_modificationIndex f) false (file_node f).

(** What [computeSandboxHash] does to a file: a modifiable one gets the hash of
    its content, unless its size cannot be read. *)
Definition computeFile (torrents : gmap Z bool) (file : File) (acc : Outcome (gmap Z (list Z) * gmap Z Z))
    : File * Outcome (gmap Z (list Z) * gmap Z Z) :=
  match acc with
  | Ret (disk, torrentFolder) =>
      if negb (file_isModifiable file) then (file, acc)
      else
        match disk !! file_hash file with
        | None => (file, Stop ThrownException)
        | Some content =>
            let size := Z.of_nat (length content) in
            let hash := if 0 <? size then calculateInfoHash content else 0 in
            let rest := delete (file_hash file) disk in
            (set_computed hash size file,
             Ret (if decide (hash = 0 \/ is_Some (torrents !! hash)) then (rest, torrentFolder)
                  else (<[hash := content]> rest, <[hash := torrentSize content]> torrentFolder)))
        end
  | Stop f => (file, acc)
  end.

(** [computeSandboxHash]; it also saves the uploads of the modification
    ([saveNotApprovedCumulativeUploadsForManualTask]). *)
Definition computeSandboxHash (s : ManualModifications) : Outcome ManualModifications :=
  let d := mm_drive s in
  match m_lowerSandboxFsTree (mm_sandbox s) with
  | None => Stop UndefinedBehaviour
  | Some lower =>
      let '(lower', folders) :=
        mapFiles (computeFile (m_torrentHandleMap d)) lower (Ret (m_driveFolder d, m_torrentFolder d)) in
      '(disk, torrentFolder) ← folders;
      let hash := createTorrentFile lower' in
      Ret (executeOnSessionThread (OnStorageHashEvaluated hash)
             (on_sb (fun b => set_sandboxRootHash hash (set_lower (Some lower') b))
                (on_dr (fun d => set_sandboxFsTreeFile true (set_folders disk torrentFolder d)) s)))
  end.

(** [addNewTorrentsToSession]; a new [UseTorrentInfo] is used. *)
Definition addNewTorrentsToSession (s : ManualModifications) : Outcome ManualModifications :=
  let d := mm_drive s in
  match m_lowerSandboxFsTree (mm_sandbox s) with
  | None => Stop UndefinedBehaviour
  | Some lower =>
      let uniqueFiles := getUniqueFiles lower ∅ ∖ {[0]} in
      let added := if session then m_torrentHandleMap d ∪ set_to_map (fun h => (h, true)) uniqueFiles
                   else m_torrentHandleMap d in
      Ret (executeOnSessionThread OnNewTorrentAdded (on_dr (set_torrentHandleMap added) s))
  end.

(** [onUnusedTorrentsDeleted]; without the file of the new file structure
    [moveFile] throws, which is caught and logged as an error. *)
Definition onUnusedTorrentsDeleted (s : ManualModifications) : Outcome ManualModifications :=
  let d := mm_drive s in
  if negb (m_sandboxFsTreeFile d) then log_err (Ret s)
  else
    let unused := dom (filter (fun p => p.2 = false) (m_torrentHandleMap d)) in
    let d1 := set_torrentHandleMap (filter (fun p => p.2 = true) (m_torrentHandleMap d))
                (set_sandboxFsTreeFile false
                   (set_folders (filter (fun p => p.1 ∉ unused) (m_driveFolder d))
                      (filter (fun p => p.1 ∉ unused) (m_torrentFolder d)) d)) in
    guard_assert (bool_decide (0 ∉ unused))
      (Ret (executeOnSessionThread OnAppliedStorageModifications (set_drive d1 s))).

Definition clearTrash (s : ManualModifications) : ManualModifications :=
  let d := mm_drive s in let b := mm_sandbox s in
  let files t := match t with Some t => getUniqueFiles t ∅ | None => ∅ end in
  let trash := (files (m_upperSandboxFsTree b) ∪ files (m_lowerSandboxFsTree b)) ∖ dom (m_torrentHandleMap d) in
  executeOnSessionThread OnTrashCleared
    (on_dr (set_folders (filter (fun p => p.1 ∉ trash) (m_driveFolder d))
              (filter (fun p => p.1 ∉ trash) (m_torrentFolder d))) s).

(** [createStream]: a file that is read must exist, one that is written is
    emptied. *)
Definition createStream (hash : Z) (mode : OpenFileMode) (fileId : Z) (fsPath : string) (s : ManualModifications)
    : ManualModifications :=
  let d := mm_drive s in
  let content := m_driveFolder d !! hash in
  match mode with
  | READ => executeOnSessionThread (OnFileOpened (bool_decide (is_Some content)) hash READ fileId fsPath 0) s
  | WRITE =>
      let clearedFileSize := match content with Some c => Z.of_nat (length c) | None => 0 end in
      executeOnSessionThread (OnFileOpened true hash WRITE fileId fsPath clearedFileSize)
        (on_dr (set_folders (<[hash := []]> (m_driveFolder d)) (m_torrentFolder d)) s)
  end.

(** [readStream] and [writeStream]: the stream must live. *)
Definition readStream (fileId : Z) (bytes : nat) (s : ManualModifications) : Outcome ManualModifications :=
  let h := mm_handles s in
  match m_openFilesRead h !! fileId with
  | None => Stop AssertFailure
  | Some f =>
      let buffer := take bytes (drop (of_position f) (from_option id [] (m_driveFolder (mm_drive s) !! of_hash f))) in
      let f' := mkOpenFile (of_hash f) (of_position f + length buffer) (of_node f) in
      Ret (executeOnSessionThread (OnReadFile buffer)
             (on_hd (set_files (m_openFilesWrite h) (<[fileId := f']> (m_openFilesRead h))) s))
  end.

Definition writeStream (fileId : Z) (buffer : list Z) (s : ManualModifications) : Outcome ManualModifications :=
  let h := mm_handles s in let d := mm_drive s in
  match m_openFilesWrite h !! fileId with
  | None => Stop AssertFailure
  | Some f =>
      let content := overwrite (of_position f) buffer (from_option id [] (m_driveFolder d !! of_hash f)) in
      let f' := mkOpenFile (of_hash f) (of_position f + length buffer) (of_node f) in
      Ret (executeOnSessionThread OnFileWritten
             (on_dr (set_folders (<[of_hash f := content]> (m_driveFolder d)) (m_torrentFolder d))
                (on_hd (set_files (<[fileId := f']> (m_openFilesWrite h)) (m_openFilesRead h)) s)))
  end.

Definition stream_lives (fileId : Z) (s : ManualModifications) : bool :=
  bool_decide (is_Some (m_openFilesRead (mm_handles s) !! fileId) \/
               is_Some (m_openFilesWrite (mm_handles s) !! fileId)).

(** [obtainFileSize]: the size of a missing file is an error that is logged. *)
Definition obtainFileSize (hash : Z) (s : ManualModifications) : Outcome ManualModifications :=
  let disk := m_driveFolder (mm_drive s) in
  let told := Ret (executeOnSessionThread (OnFileSizeObtained (file_size_ec disk hash)) s) in
  match disk !! hash with Some _ => told | None => log_err told end.

Definition runJob (j : Job) (s : ManualModifications) : Outcome ManualModifications :=
  let d := mm_drive s in
  match j with
  | CreateStream hash mode fileId fsPath => Ret (createStream hash mode fileId fsPath s)
  | ReadStream fileId bytes => readStream fileId bytes s
  | WriteStream fileId buffer => writeStream fileId buffer s
  | FlushStream fileId => guard_assert (stream_lives fileId s) (Ret (executeOnSessionThread OnFlushed s))
  | CloseStream fileId =>
      guard_assert (stream_lives fileId s) (Ret (executeOnSessionThread (OnFileClosed fileId) s))
  | RemoveUnusedFiles files moved =>
      '(removed, disk) ← removeFiles (elements files) 0 (m_driveFolder d);
      Ret (executeOnSessionThread (if moved then OnMoved removed else OnRemoved removed)
             (on_dr (set_folders disk (m_torrentFolder d)) s))
  | ObtainFileSize hash => obtainFileSize hash s
  | CloseStreams applying => Ret (executeOnSessionThread (OnStreamsClosed applying) s)
  | AcceptUpperSandboxModifications =>
      match m_upperSandboxFsTree (mm_sandbox s) with
      | None => Stop UndefinedBehaviour
      | Some upper =>
          valid ← validateSandboxState d upper;
          if valid : bool then acceptUpperSandboxModifications upper s else discardUpperSandboxModifications s
      end
  | DiscardUpperSandboxModifications => discardUpperSandboxModifications s
  | ComputeSandboxHash => computeSandboxHash s
  | AddNewTorrentsToSession => addNewTorrentsToSession s
  | OnUnusedTorrentsDeleted => onUnusedTorrentsDeleted s
  | ClearTrash => Ret (clearTrash s)
  end.

(** ** The session thread *)

(** The common start of the continuations: the query is over, and an interrupted
    task answers [r] and finishes. *)
Definition continue_query (r : Response) (s : ManualModifications) (k : ManualModifications -> Result) : Result :=
  guard_assert (m_isExecutingQuery (mm_control s))
    (let s1 := on_ct (set_executing false) s in
     if m_taskIsInterrupted (mm_control s1) then Ret ([r], finishTask s1) else k s1).

Definition subtract_size (removed : Z) (s : ManualModifications) (k : ManualModifications -> Result) : Result :=
  let b := mm_sandbox s in
  guard_assert (removed <=? m_upperSandboxFilesSize b)
    (k (on_sb (set_sizes (u64_sub (m_upperSandboxFilesSize b) removed) (m_lowerSandboxFilesSize b)) s)).

Definition onFileOpened (is_open : bool) (hash : Z) (mode : OpenFileMode) (fileId : Z) (fsPath : string)
    (clearedFileSize : Z) (s : ManualModifications) : Result :=
  guard_assert (bool_decide (m_openFilesRead (mm_handles s) !! fileId = None))
  (guard_assert (bool_decide (m_openFilesWrite (mm_handles s) !! fileId = None))
  (continue_query EmptyResponse s (fun s1 =>
   subtract_size clearedFileSize s1 (fun s2 =>
   if negb is_open then Ret ([OpenFileResponse None], s2)
   else
     match m_upperSandboxFsTree (mm_sandbox s2) with
     | None => Stop UndefinedBehaviour
     | Some upper =>
         '(child, t, st) ← getEntryPtr fsPath upper (m_nodes (mm_sandbox s2));
         match child with
         | Some (inr file) =>
             match file_node file with
             | None => Stop UndefinedBehaviour
             | Some i =>
                 st1 ← file_addBlock i st;
                 let f := mkOpenFile hash 0 i in
                 let h := mm_handles s2 in
                 Ret ([OpenFileResponse (Some fileId)],
                      on_hd (match mode with
                             | READ => set_files (m_openFilesWrite h) (<[fileId := f]> (m_openFilesRead h))
                             | WRITE => set_files (<[fileId := f]> (m_openFilesWrite h)) (m_openFilesRead h)
                             end) (set_tree t st1 s2))
             end
         | _ => Stop AssertFailure
         end
     end)))).

(** [onFileClosed]; a stream that is not known is an error that is logged. *)
Definition onFileClosed (fileId : Z) (s : ManualModifications) : Result :=
  continue_query EmptyResponse s (fun s1 =>
    let h := mm_handles s1 in let b := mm_sandbox s1 in
    match m_openFilesRead h !! fileId with
    | Some f =>
        st ← release_file (of_node f) (m_nodes b);
        Ret ([CloseFileResponse true],
             on_sb (set_upper (m_upperSandboxFsTree b) st)
               (on_hd (set_files (m_openFilesWrite h) (delete fileId (m_openFilesRead h))) s1))
    | None =>
        match m_openFilesWrite h !! fileId with
        | Some f =>
            st ← release_file (of_node f) (m_nodes b);
            Ret ([CloseFileResponse true],
                 on_sb (set_upper (m_upperSandboxFsTree b) st)
                   (on_hd (set_files (delete fileId (m_openFilesWrite h)) (m_openFilesRead h)) s1))
        | None => log_err (Ret ([], s1))
        end
    end).

(** [m_upperSandboxFsTree->clearStatisticsNode()]: the root gets a new node. *)
Definition clearStatisticsNode (t : Folder) (st : StatStore) : Folder * StatStore :=
  let '(i, st1) := new_folder_node st in
  (set_folder_node (Some i) t, match folder_node t with Some o => drop_folder_node o st1 | None => st1 end).

(** [onSandboxModificationStreamsClosed]. *)
Definition onSandboxModificationStreamsClosed (m_success : bool) (s : ManualModifications) : Result :=
  continue_query EmptyResponse s (fun s1 =>
    let h := mm_handles s1 in let b := mm_sandbox s1 in
    st ← release_folders (map snd (map_to_list (m_folderIterators h))) (m_nodes b);
    match m_upperSandboxFsTree b with
    | None => Stop UndefinedBehaviour
    | Some upper =>
        let '(upper', st') := clearStatisticsNode upper st in
        Ret ([], execute (if m_success then AcceptUpperSandboxModifications else DiscardUpperSandboxModifications)
                   (on_hd (set_iterators ∅ (m_totalFolderIteratorsCreated h)) (set_tree upper' st' s1)))
    end).

Definition onAppliedSandboxModifications (success : bool) (removedFilesSize : Z) (s : ManualModifications) : Result :=
  continue_query EmptyResponse s (fun s1 =>
    subtract_size removedFilesSize s1 (fun s2 =>
      let b := mm_sandbox s2 in
      if success then
        Ret ([ApplySandboxModificationsResponse true],
             on_sb (fun b => set_managed ∅ (set_upper None (drop_tree (m_lowerSandboxFsTree b) (m_nodes b))
                               (set_lower (m_upperSandboxFsTree b)
                                 (set_sizes (m_upperSandboxFilesSize b) (m_upperSandboxFilesSize b) b)))) s2)
      else
        guard_assert (m_lowerSandboxFilesSize b =? m_upperSandboxFilesSize b)
          (Ret ([ApplySandboxModificationsResponse false],
                on_sb (fun b => set_managed ∅ (set_upper None (drop_tree (m_upperSandboxFsTree b) (m_nodes b))
                                  (set_sizes 0 (m_lowerSandboxFilesSize b) b))) s2)))).

(** [onNewTorrentAdded]; the torrents are removed from the session first. *)
Definition onNewTorrentAdded (s : ManualModifications) : Result :=
  let d := mm_drive s in
  match m_lowerSandboxFsTree (mm_sandbox s) with
  | None => Stop UndefinedBehaviour
  | Some lower =>
      let marked := markUsedFiles lower (m_torrentHandleMap d) in
      guard_assert (bool_decide (marked !! 0 = None))
        (let s1 := on_dr (set_torrentHandleMap marked) s in
         Ret ([], if session then executeOnBackgroundThread OnUnusedTorrentsDeleted s1 else s1))
  end.

(** [onAppliedStorageModifications]. *)
Definition onAppliedStorageModifications (m_modificationIdentifier : Z) (s : ManualModifications) : Result :=
  match m_sandboxRootHash (mm_sandbox s) with
  | None => Stop AssertFailure
  | Some rootHash =>
      guard_assert session
        (match m_lowerSandboxFsTree (mm_sandbox s) with
         | None => Stop UndefinedBehaviour
         | Some lower =>
             Ret ([ApplyStorageModificationsResponse],
                  finishTask (on_dr (set_approvedTree lower rootHash m_modificationIdentifier)
                                (on_sb (fun b => set_lower None
                                   (set_upper (m_upperSandboxFsTree b) (drop_folder (m_fsTree (mm_drive s)) (m_nodes b)) b)) s)))
         end)
  end.

Definition runContinuation (m_modificationIdentifier : Z) (k : Continuation) (s : ManualModifications) : Result :=
  match k with
  | OnFileOpened is_open hash mode fileId fsPath clearedFileSize =>
      onFileOpened is_open hash mode fileId fsPath clearedFileSize s
  | OnReadFile bytes => continue_query EmptyResponse s (fun s1 => Ret ([ReadFileResponse (Some bytes)], s1))
  | OnFileWritten => continue_query EmptyResponse s (fun s1 => Ret ([WriteFileResponse true], s1))
  | OnFlushed => continue_query EmptyResponse s (fun s1 => Ret ([FlushResponse true], s1))
  | OnFileClosed fileId => onFileClosed fileId s
  | OnRemoved removed =>
      continue_query (RemoveFilesystemEntryResponse false) s (fun s1 =>
        subtract_size removed s1 (fun s2 => Ret ([RemoveFilesystemEntryResponse true], s2)))
  | OnMoved removed =>
      continue_query (MoveFilesystemEntryResponse false) s (fun s1 =>
        subtract_size removed s1 (fun s2 => Ret ([MoveFilesystemEntryResponse true], s2)))
  | OnFileSizeObtained size => continue_query EmptyResponse s (fun s1 => Ret ([FileSizeResponse (Some size)], s1))
  | OnStreamsClosed (Some m_success) => onSandboxModificationStreamsClosed m_success s
  | OnStreamsClosed None => Ret ([], on_ct set_runNextTask s)
  | OnAppliedSandboxModifications success removed => onAppliedSandboxModifications success removed s
  | OnStorageHashEvaluated hash =>
      continue_query EmptyResponse s (fun s1 => Ret ([EvaluateStorageHashResponse hash], s1))
  | OnNewTorrentAdded => onNewTorrentAdded s
  | OnAppliedStorageModifications => onAppliedStorageModifications m_modificationIdentifier s
  | OnTrashCleared => s1 ← closeFiles None s; Ret ([], s1)
  end.

(** ** The task and its drive *)

(** The requests that [FlatDrive] forwards, with the hashes drawn for a new file. *)
Inductive Request :=
  | InitiateSandboxModifications (serviceFolders : list string)
  | OpenFileRequest (temporary : Z * Z) (mode : OpenFileMode) (path : string)
  | ReadFileRequest (fileId : Z) (bytes : nat)
  | WriteFileRequest (fileId : Z) (buffer : list Z)
  | FlushRequest (fileId : Z)
  | CloseFileRequest (fileId : Z)
  | RemoveFilesystemEntryRequest (path : string)
  | PathExistRequest (path : string)
  | PathIsFileRequest (path : string)
  | FileSizeRequest (path : string)
  | CreateDirectoriesRequest (path : string)
  | FolderIteratorCreateRequest (path : string) (recursive : bool)
  | FolderIteratorDestroyRequest (id : Z)
  | FolderIteratorHasNextRequest (id : Z)
  | FolderIteratorNextRequest (id : Z)
  | MoveFilesystemEntryRequest (src dst : string)
  | ApplySandboxModificationsRequest (success : bool)
  | EvaluateStorageHashRequest
  | ApplyStorageModificationsRequest (success : bool).

Definition handle (r : Request) (s : ManualModifications) : Accepted :=
  match r with
  | InitiateSandboxModifications folders => initiateSandboxModifications folders s
  | OpenFileRequest temporary mode p => openFile temporary mode p s
  | ReadFileRequest fileId bytes => readFile fileId bytes s
  | WriteFileRequest fileId buffer => writeFile fileId buffer s
  | FlushRequest fileId => flush fileId s
  | CloseFileRequest fileId => closeFile fileId s
  | RemoveFilesystemEntryRequest p => removeFsTreeEntry p s
  | PathExistRequest p => pathExist p s
  | PathIsFileRequest p => pathIsFile p s
  | FileSizeRequest p => fileSize p s
  | CreateDirectoriesRequest p => createDirectories p s
  | FolderIteratorCreateRequest p recursive => folderIteratorCreate p recursive s
  | FolderIteratorDestroyRequest id => folderIteratorDestroy id s
  | FolderIteratorHasNextRequest id => folderIteratorHasNext id s
  | FolderIteratorNextRequest id => folderIteratorNext id s
  | MoveFilesystemEntryRequest src dst => moveFsTreeEntry src dst s
  | ApplySandboxModificationsRequest success => applySandboxModifications success s
  | EvaluateStorageHashRequest => evaluateStorageHash s
  | ApplyStorageModificationsRequest success => applyStorageModifications success s
  end.

(** The drive answers a refused request. *)
Definition forward (r : Request) (s : ManualModifications) : Result :=
  a ← handle r s;
  Ret (match a with Some (out, s') => (out, s') | None => ([EmptyResponse], s) end).

(** What happens to the task: a request, an interruption ([onModificationInitiated]
    and the like), and the turn of one of the threads. *)
Inductive ManualEvent :=
  | EvRequest (r : Request)
  | EvTerminate
  | EvBackground
  | EvSession.

Definition manual_step (m_modificationIdentifier : Z) (e : ManualEvent) (s : ManualModifications) : Result :=
  match e with
  | EvRequest r => forward r s
  | EvTerminate => Ret ([], terminate s)
  | EvBackground =>
      match m_jobs (mm_control s) with
      | [] => Ret ([], s)
      | j :: jobs => s' ← runJob j (on_ct (set_jobs jobs) s); Ret ([], s')
      end
  | EvSession =>
      match m_continuations (mm_control s) with
      | [] => Ret ([], s)
      | k :: ks => runContinuation m_modificationIdentifier k (on_ct (set_continuations ks) s)
      end
  end.

End Task.

(** The task after [run]: its sandbox is a copy of the file structure of the drive,
    whose nodes are in [nodes]. *)
Definition newManualModifications (d : DriveState) (nodes : StatStore) : ManualModifications :=
  let '(lower, st) := copyTree (m_fsTree d) nodes in
  mkManualModifications (mkSandbox 0 0 (Some lower) None st ∅ None)
    (mkHandles ∅ ∅ ∅ 0 0) (mkControl false false false false [] []) d.
