(* ===== verification/ManualProtocol.v ===== *)
(** * The protocol of a manual modification: flags, threads and files

    Whatever the sandbox does, the flags of the task and its two threads follow a
    protocol: at most one query is pending, the flags say so, and the task finishes
    once ([control_ok]).  [Reply] says how a request or a continuation leaves the
    task when nothing else is due, and [reply_ok] that this keeps the invariant. *)

From S2P Require Import Prelude OrderedMap FsPath FsStatistics FsTree FolderIterator DriveTasks ManualModifications.

(** ** What is pending *)

(** A pending item serves a query, the application of the storage, or the end of
    the task: its trash, then its streams. *)
Inductive Class := Query | Chain | Trash | Ending.

#[export] Instance class_eq_dec : EqDecision Class.
Proof. solve_decision. Defined.

Definition job_class (j : Job) : Class :=
  match j with
  | AddNewTorrentsToSession | OnUnusedTorrentsDeleted => Chain
  | ClearTrash => Trash
  | CloseStreams None => Ending
  | _ => Query
  end.

Definition continuation_class (k : Continuation) : Class :=
  match k with
  | OnNewTorrentAdded | OnAppliedStorageModifications => Chain
  | OnTrashCleared => Trash
  | OnStreamsClosed None => Ending
  | _ => Query
  end.

Fixpoint count (c : Class) (l : list Class) : nat :=
  match l with [] => 0 | x :: l' => (if decide (x = c) then 1 else 0) + count c l' end.

Lemma count_app c l l' : count c (l ++ l') = (count c l + count c l')%nat.
Proof. induction l as [|x l IH]; cbn; [done|]. rewrite IH. lia. Qed.

Definition pending (c : Control) : list Class :=
  map job_class (m_jobs c) ++ map continuation_class (m_continuations c).

(** How many pending items serve a class. *)
Definition pend (x : Class) (c : Control) : nat := count x (pending c).

Lemma pend_split x c :
  pend x c = (count x (map job_class (m_jobs c)) + count x (map continuation_class (m_continuations c)))%nat.
Proof. unfold pend, pending. apply count_app. Qed.

(** The answers that are due. *)
Definition owed (s : ManualModifications) : nat := (pend Query (mm_control s) + pend Chain (mm_control s))%nat.

(** ** The protocol of the flags *)

(** The flags against the numbers of pending items: [q] for queries, [h] for the
    storage, [t] for the trash, [e] for the end. *)
Definition flags_ok (q h t e : nat) (executing interrupted finished next : bool) : Prop :=
  (q + h <= 1)%nat /\
  (executing = true <-> (1 <= q + e)%nat \/ next = true) /\
  ((1 <= q)%nat -> finished = false) /\
  (finished = false -> (t + e = 0)%nat /\ next = false) /\
  (finished = true -> (t + e + (if next then 1 else 0) = 1)%nat) /\
  (interrupted = true -> finished = true \/ (1 <= q)%nat).

Definition control_ok (c : Control) : Prop :=
  flags_ok (pend Query c) (pend Chain c) (pend Trash c) (pend Ending c)
    (m_isExecutingQuery c) (m_taskIsInterrupted c) (m_taskIsFinished c) (m_runNextTask c).

Ltac flags_auto :=
  unfold flags_ok in *; repeat (case_decide; try congruence); cbn in *;
  repeat match goal with b : bool |- _ => destruct b end;
  intuition (try discriminate; try lia).

Lemma pend_executing x b c : pend x (set_executing b c) = pend x c.
Proof. done. Qed.
Lemma pend_interrupted x c : pend x (set_interrupted c) = pend x c.
Proof. done. Qed.
Lemma pend_finished x c : pend x (set_finished c) = pend x c.
Proof. done. Qed.
Lemma pend_next x c : pend x (set_runNextTask c) = pend x c.
Proof. done. Qed.

Lemma pend_push_job x j c :
  pend x (set_jobs (m_jobs c ++ [j]) c) = (pend x c + (if decide (job_class j = x) then 1 else 0))%nat.
Proof. rewrite !pend_split. cbn. rewrite map_app, count_app. cbn. lia. Qed.

Lemma pend_push_continuation x k c :
  pend x (set_continuations (m_continuations c ++ [k]) c) =
  (pend x c + (if decide (continuation_class k = x) then 1 else 0))%nat.
Proof. rewrite !pend_split. cbn. rewrite map_app, count_app. cbn. lia. Qed.

Lemma pend_pop_job x j jobs c :
  m_jobs c = j :: jobs ->
  pend x c = (pend x (set_jobs jobs c) + (if decide (job_class j = x) then 1 else 0))%nat.
Proof. intros E. rewrite !pend_split, E. cbn. lia. Qed.

Lemma pend_pop_continuation x k ks c :
  m_continuations c = k :: ks ->
  pend x c = (pend x (set_continuations ks c) + (if decide (continuation_class k = x) then 1 else 0))%nat.
Proof. intros E. rewrite !pend_split, E. cbn. lia. Qed.

(** The operations on the flags. *)
Definition push_job (j : Job) (c : Control) : Control := set_jobs (m_jobs c ++ [j]) c.
Definition finish_control (c : Control) : Control :=
  if m_taskIsFinished c then c else push_job ClearTrash (set_finished c).

(** Nothing is due and the task goes on. *)
Definition idle (c : Control) : Prop :=
  (forall x, pend x c = 0%nat) /\
  m_isExecutingQuery c = false /\ m_taskIsFinished c = false /\ m_runNextTask c = false.

Lemma pend_push x j c : pend x (push_job j c) = (pend x c + (if decide (job_class j = x) then 1 else 0))%nat.
Proof. apply pend_push_job. Qed.

Create Rewrite HintDb pend.
#[local] Hint Rewrite pend_executing pend_interrupted pend_finished pend_next pend_push : pend.
Ltac pend_auto :=
  unfold control_ok in *; autorewrite with pend; cbn -[pend];
  repeat case_decide; try congruence.

Lemma control_idle c :
  control_ok c -> (pend Query c + pend Chain c = 0)%nat -> m_taskIsFinished c = false -> idle c.
Proof.
  intros H Hq Hf. unfold control_ok, idle in *. rewrite Hf in *. unfold flags_ok in H.
  destruct H as (_ & H2 & _ & H4 & _). specialize (H4 eq_refl) as [Ht Hn]. rewrite Hn in *.
  split; [intros []; lia|]. split; [|done].
  destruct (m_isExecutingQuery c); [|done]. destruct H2 as [H2 _]. specialize (H2 eq_refl) as [H2|]; [lia|done].
Qed.

Lemma idle_ok c : idle c -> m_taskIsInterrupted c = false -> control_ok c.
Proof. intros (Hp & He & Hf & Hn) Hi. unfold control_ok. rewrite !Hp, He, Hf, Hn, Hi. flags_auto. Qed.

Lemma idle_finish c : idle c -> control_ok (finish_control c).
Proof.
  intros (Hp & He & Hf & Hn). unfold finish_control. rewrite Hf. pend_auto.
  rewrite !Hp, He, Hn. destruct (m_taskIsInterrupted c); flags_auto.
Qed.

Lemma idle_execute c j :
  idle c -> job_class j = Query -> control_ok (push_job j (set_executing true c)).
Proof.
  intros (Hp & He & Hf & Hn) Hj. pend_auto. rewrite !Hp, Hf, Hn. destruct (m_taskIsInterrupted c); flags_auto.
Qed.

Lemma chain_push c j :
  control_ok c -> (pend Query c + pend Chain c = 0)%nat -> job_class j = Chain -> control_ok (push_job j c).
Proof.
  intros H Hq Hj. pend_auto. replace (pend Chain c) with 0%nat in * by lia.
  replace (pend Query c) with 0%nat in * by lia. revert H. generalize (pend Trash c), (pend Ending c). intros t e.
  destruct (m_isExecutingQuery c), (m_taskIsInterrupted c), (m_taskIsFinished c), (m_runNextTask c); flags_auto.
Qed.

Lemma control_finish c : control_ok c -> pend Query c = 0%nat -> control_ok (finish_control c).
Proof.
  intros H Hq. unfold finish_control. destruct (m_taskIsFinished c) eqn:Hf; [done|]. pend_auto.
  rewrite Hf, Hq in *. revert H. generalize (pend Chain c), (pend Trash c), (pend Ending c).
  destruct (m_isExecutingQuery c), (m_taskIsInterrupted c), (m_runNextTask c); flags_auto.
Qed.

(** Popping an item that has been served. *)
Lemma pop_flags c k ks :
  control_ok c -> m_continuations c = k :: ks ->
  let n x := (pend x (set_continuations ks c) + (if decide (continuation_class k = x) then 1 else 0))%nat in
  flags_ok (n Query) (n Chain) (n Trash) (n Ending)
    (m_isExecutingQuery c) (m_taskIsInterrupted c) (m_taskIsFinished c) (m_runNextTask c).
Proof. intros H E n. subst n. cbn beta. rewrite <- !(pend_pop_continuation _ k ks c E). exact H. Qed.

Ltac generalize_control c ks :=
  generalize (pend Query (set_continuations ks c)), (pend Chain (set_continuations ks c)),
    (pend Trash (set_continuations ks c)), (pend Ending (set_continuations ks c)); cbn;
  generalize (m_isExecutingQuery c), (m_taskIsInterrupted c), (m_taskIsFinished c), (m_runNextTask c);
  intros.

Lemma pop_query c k ks :
  control_ok c -> m_continuations c = k :: ks -> continuation_class k = Query ->
  idle (set_executing false (set_continuations ks c)).
Proof.
  intros H E Hk. pose proof (pop_flags c k ks H E) as (H1 & _ & H3 & H4 & _).
  rewrite Hk in *. rewrite !decide_True in * by done. rewrite !decide_False in * by done.
  specialize (H3 ltac:(lia)). destruct (H4 H3) as [Ht Hn].
  split; [intros x; rewrite pend_executing; destruct x; lia | done].
Qed.

Lemma pop_chain c k ks :
  control_ok c -> m_continuations c = k :: ks -> continuation_class k = Chain ->
  control_ok (set_continuations ks c) /\
  (pend Query (set_continuations ks c) + pend Chain (set_continuations ks c) = 0)%nat.
Proof.
  intros H E Hk. pose proof (pop_flags c k ks H E) as Hp. rewrite Hk in Hp; cbn -[pend set_continuations] in Hp.
  unfold control_ok. revert Hp. generalize_control c ks.
  flags_auto.
Qed.

(** The end: the trash is cleared, then the streams are closed. *)
Lemma pop_trash c k ks :
  control_ok c -> m_continuations c = k :: ks -> continuation_class k = Trash ->
  control_ok (push_job (CloseStreams None) (set_executing true (set_continuations ks c))).
Proof.
  intros H E Hk. pose proof (pop_flags c k ks H E) as Hp. rewrite Hk in Hp; cbn -[pend set_continuations] in Hp.
  unfold control_ok. rewrite !pend_push, !pend_executing.
  revert Hp. generalize_control c ks. flags_auto.
Qed.

Lemma pop_ending c k ks :
  control_ok c -> m_continuations c = k :: ks -> continuation_class k = Ending ->
  control_ok (set_runNextTask (set_continuations ks c)).
Proof.
  intros H E Hk. pose proof (pop_flags c k ks H E) as Hp. rewrite Hk in Hp; cbn -[pend set_continuations] in Hp.
  unfold control_ok. rewrite !pend_next.
  revert Hp. generalize_control c ks. flags_auto.
Qed.

(** ** The files and the protocol *)

Definition known (f : Z) (h : Handles) : Prop :=
  is_Some (m_openFilesRead h !! f) \/ is_Some (m_openFilesWrite h !! f).

Definition no_files (h : Handles) : Prop := m_openFilesWrite h = ∅ /\ m_openFilesRead h = ∅.

(** A stream that is being closed is known, at the end none is open, and the file
    of the new file structure is there until it is moved. *)
Definition files_ok (s : ManualModifications) : Prop :=
  let c := mm_control s in
  (forall f, CloseStream f ∈ m_jobs c \/ OnFileClosed f ∈ m_continuations c -> known f (mm_handles s)) /\
  ((1 <= pend Ending c)%nat \/ m_runNextTask c = true -> no_files (mm_handles s)) /\
  (AddNewTorrentsToSession ∈ m_jobs c \/ OnUnusedTorrentsDeleted ∈ m_jobs c \/
   OnNewTorrentAdded ∈ m_continuations c -> m_sandboxFsTreeFile (mm_drive s) = true).

Definition manual_inv (s : ManualModifications) : Prop := control_ok (mm_control s) /\ files_ok s.

Lemma count_elem x l : x ∈ l -> (1 <= count x l)%nat.
Proof. induction 1; cbn; [rewrite decide_True by done; lia | lia]. Qed.

Lemma pend_job j c : j ∈ m_jobs c -> (1 <= pend (job_class j) c)%nat.
Proof.
  intros H. rewrite pend_split. assert (1 <= count (job_class j) (map job_class (m_jobs c)))%nat; [|lia].
  apply count_elem. by apply list_elem_of_In, in_map, list_elem_of_In.
Qed.

Lemma pend_continuation k c : k ∈ m_continuations c -> (1 <= pend (continuation_class k) c)%nat.
Proof.
  intros H. rewrite pend_split.
  assert (1 <= count (continuation_class k) (map continuation_class (m_continuations c)))%nat; [|lia].
  apply count_elem. by apply list_elem_of_In, in_map, list_elem_of_In.
Qed.

Lemma idle_empty c : idle c -> m_jobs c = [] /\ m_continuations c = [].
Proof.
  intros [H _]. split.
  - destruct (m_jobs c) as [|j js] eqn:E; [done|]. pose proof (pend_job j c) as Hj. rewrite E in Hj.
    specialize (Hj (list_elem_of_here _ _)). rewrite H in Hj. lia.
  - destruct (m_continuations c) as [|k ks] eqn:E; [done|]. pose proof (pend_continuation k c) as Hk. rewrite E in Hk.
    specialize (Hk (list_elem_of_here _ _)). rewrite H in Hk. lia.
Qed.

(** ** How a query is served *)

(** From a state where nothing is due: an answer, a job that will give it, the
    first job of the application, or the end of the task. *)
Inductive Reply (s : ManualModifications) : list Response -> ManualModifications -> Prop :=
  | reply_answer r s' :
      mm_control s' = mm_control s -> m_taskIsInterrupted (mm_control s) = false -> Reply s [r] s'
  | reply_start j s' :
      mm_control s' = push_job j (set_executing true (mm_control s)) -> job_class j = Query ->
      (forall f, j = CloseStream f -> known f (mm_handles s')) -> Reply s [] s'
  | reply_chain s' :
      mm_control s' = push_job AddNewTorrentsToSession (mm_control s) ->
      m_taskIsInterrupted (mm_control s) = false ->
      m_sandboxFsTreeFile (mm_drive s') = true -> Reply s [] s'
  | reply_finish r s' : mm_control s' = finish_control (mm_control s) -> Reply s [r] s'.

Lemma finishTask_control s : mm_control (finishTask s) = finish_control (mm_control s).
Proof. unfold finishTask, finish_control. by destruct (m_taskIsFinished (mm_control s)). Qed.

Ltac no_ending := intros [|]; [repeat case_decide; (congruence || lia) | done].

Lemma reply_ok s out s' :
  idle (mm_control s) -> Reply s out s' -> manual_inv s' /\ (length out + owed s' = 1)%nat.
Proof.
  intros Hi H. pose proof (idle_empty _ Hi) as [Ej Ek]. pose proof Hi as (Hp & _ & Hf & Hn).
  unfold manual_inv, files_ok, owed.
  destruct H as [r s' E Hint|j s' E Hj Hc|s' E Hint Hfile|r s' E]; rewrite E.
  - split; [|rewrite !Hp; done]. split; [by apply idle_ok|]. rewrite Ej, Ek, Hp, Hn.
    split_and!; [set_solver | no_ending | set_solver].
  - split; [split; [by apply idle_execute|]|].
    + rewrite pend_push, pend_executing, Hp, Hj. cbn. rewrite Ej, Ek, Hn. cbn.
      split_and!.
      * intros f [Hin|Hin]; [|set_solver]. apply Hc. set_solver.
      * no_ending.
      * intros Hin. destruct j; set_solver.
    + rewrite !pend_push, !pend_executing, !Hp, Hj. done.
  - split; [split; [|]|].
    + apply chain_push; [by apply idle_ok | by rewrite !Hp | done].
    + rewrite pend_push, Hp. cbn. rewrite Ej, Ek, Hn. cbn.
      split_and!; [set_solver | no_ending | done].
    + rewrite !pend_push, !Hp. done.
  - assert (finish_control (mm_control s) = push_job ClearTrash (set_finished (mm_control s))) as ->.
    { unfold finish_control. by rewrite Hf. }
    split; [split; [|]|].
    + pose proof (idle_finish _ Hi) as H. unfold finish_control in H. by rewrite Hf in H.
    + rewrite pend_push, pend_finished, Hp. cbn. rewrite Ej, Ek, Hn. cbn.
      split_and!; [set_solver | no_ending | set_solver].
    + rewrite !pend_push, !pend_finished, !Hp. done.
Qed.
