(* ===== verification/ManualModificationsSpec.v ===== *)
(** * What a manual modification promises

    - [manual_answers]: every request is answered exactly once;
    - [manual_ends]: an interrupted task always gives the drive back, with its
      files closed;
    - [sandbox_within_limit]: what is written stays within the size of the drive.

    The first two need a caller that waits for an answer, asks nothing of a task
    that has finished, opens no file too many, and applies a storage whose hash was
    evaluated ([permitted]); the examples at the end show what happens else. *)

From S2P Require Import Prelude OrderedMap FsPath FsStatistics FsTree FolderIterator DriveTasks ManualModifications ManualProtocol.

Section Protocol.
  Context (m_maxSize : Z) (session : bool) (m_maxOpenedStreams : Z).
  Context (calculateInfoHash : list Z -> Z) (torrentSize : list Z -> Z) (createTorrentFile : Folder -> Z).
  Context (m_modificationIdentifier : Z).

Abbreviation handle := (handle m_maxSize m_maxOpenedStreams).
Abbreviation step :=
  (manual_step m_maxSize session m_maxOpenedStreams calculateInfoHash torrentSize createTorrentFile
     m_modificationIdentifier).

Definition openFiles (s : ManualModifications) : Z :=
  Z.of_nat (size (m_openFilesRead (mm_handles s)) + size (m_openFilesWrite (mm_handles s))).

(** What the caller must respect. *)
Definition permitted (e : ManualEvent) (s : ManualModifications) : Prop :=
  match e with
  | EvRequest r =>
      owed s = 0%nat /\ m_taskIsFinished (mm_control s) = false /\
      match r with
      | OpenFileRequest _ _ _ => openFiles s < m_maxOpenedStreams
      | ApplyStorageModificationsRequest true => m_sandboxFsTreeFile (mm_drive s) = true
      | _ => True
      end
  | _ => True
  end.

(** The requests. *)
Definition replies (s : ManualModifications) (a : option (list Response * ManualModifications)) : Prop :=
  match a with
  | Some (out, s') => Reply s out s'
  | None => m_taskIsInterrupted (mm_control s) = true
  end.

Ltac reply_walk :=
  unfold answer, start, set_tree, execute; ensures_walk; cbn;
  repeat match goal with H : (_, _) = (_, _) |- _ => injection H as ? ?; subst end;
  first
    [ by apply reply_answer
    | by apply (reply_finish _ _ _ eq_refl)
    | eapply reply_start; [reflexivity | reflexivity | by intros ? [=]] ].

Lemma replies_on_task s k :
  (m_taskIsInterrupted (mm_control s) = false -> ensures (replies s) k) -> ensures (replies s) (on_task s k).
Proof. intros H. unfold on_task. apply ensures_assert. intros _. destruct (m_taskIsInterrupted (mm_control s)) eqn:E; [exact E | auto]. Qed.

Lemma replies_on_sandbox s k :
  (m_taskIsInterrupted (mm_control s) = false -> forall t st, ensures (replies s) (k t st)) ->
  ensures (replies s) (on_sandbox s k).
Proof.
  intros H. unfold on_sandbox. destruct (m_upperSandboxFsTree (mm_sandbox s)); [|exact I].
  apply replies_on_task. auto.
Qed.

Lemma prepend_nil a : prepend [] a = a.
Proof. by destruct a as [[[out s]|]|]. Qed.

Lemma closeFiles_effect applying s :
  ensures (fun s' => mm_control s' = push_job (CloseStreams applying) (set_executing true (mm_control s)) /\
                     no_files (mm_handles s') /\ mm_drive s' = mm_drive s) (closeFiles applying s).
Proof. unfold closeFiles. ensures_walk. done. Qed.

Lemma handle_replies r s : permitted (EvRequest r) s -> ensures (replies s) (handle r s).
Proof.
  intros (Ho & Hf & Hr).
  destruct r; unfold ManualModifications.handle;
    unfold initiateSandboxModifications, openFile, readFile, writeFile, flush, closeFile, removeFsTreeEntry,
      pathExist, pathIsFile, fileSize, createDirectories, folderIteratorCreate, folderIteratorDestroy,
      folderIteratorHasNext, folderIteratorNext, moveFsTreeEntry, applySandboxModifications, evaluateStorageHash,
      applyStorageModifications;
    first [apply replies_on_sandbox; intros Hint t st | apply replies_on_task; intros Hint].
  all: try solve [reply_walk].
  - (* openFile *)
    unfold openFiles in Hr. rewrite (proj2 (Z.leb_gt _ _)) by exact Hr.
    destruct (getFolderPtr _ _ _ _) as [[[fp|] t0] st0]; cbv zeta; rewrite prepend_nil; [|reply_walk].
    unfold openFileIn. reply_walk.
  - (* closeFile *)
    unfold start, answer, execute.
    destruct (m_openFilesRead (mm_handles s) !! fileId) eqn:E1; [|destruct (m_openFilesWrite (mm_handles s) !! fileId) eqn:E2];
      [eapply reply_start; [reflexivity | reflexivity |] .. | by apply reply_answer];
      intros f [= <-]; [left | right]; eauto.
  - (* applySandboxModifications *)
    destruct (m_upperSandboxFsTree (mm_sandbox s)); [|exact I].
    eapply ensures_bind; [apply closeFiles_effect|]. intros s' (E & _ & _).
    eapply reply_start; [exact E | reflexivity | by intros ? [=]].
  - (* applyStorageModifications *)
    apply ensures_assert. intros _. destruct success.
    + by apply reply_chain.
    + apply reply_finish. apply finishTask_control.
Qed.

(** ** The jobs *)

(** The turns that the pending items can still need. *)
Definition job_work (j : Job) : nat :=
  match j with
  | AddNewTorrentsToSession | CloseStreams (Some _) => 8
  | ClearTrash => 4
  | CloseStreams None => 2
  | _ => 6
  end.

Definition continuation_work (k : Continuation) : nat :=
  match k with
  | OnNewTorrentAdded | OnStreamsClosed (Some _) => 7
  | OnTrashCleared => 3
  | OnStreamsClosed None => 1
  | _ => 5
  end.

Definition work (s : ManualModifications) : nat :=
  (sum_list_with job_work (m_jobs (mm_control s)) +
   sum_list_with continuation_work (m_continuations (mm_control s)))%nat.

Lemma work_push_job j s : work (executeOnBackgroundThread j s) = (work s + job_work j)%nat.
Proof. unfold work. cbn. rewrite sum_list_with_app. cbn. lia. Qed.

Lemma work_push_continuation k s : work (executeOnSessionThread k s) = (work s + continuation_work k)%nat.
Proof. unfold work. cbn. rewrite sum_list_with_app. cbn. lia. Qed.

Lemma work_finish s : (work (finishTask s) <= work s + 4)%nat.
Proof.
  unfold finishTask. destruct (m_taskIsFinished (mm_control s)); [lia|].
  rewrite work_push_job. change (work (on_ct set_finished s)) with (work s). cbn. lia.
Qed.

(** A job hands its work to one continuation. *)
Definition job_done (j : Job) (s s' : ManualModifications) : Prop :=
  exists k,
    mm_control s' = set_continuations (m_continuations (mm_control s) ++ [k]) (mm_control s) /\
    continuation_class k = job_class j /\ (continuation_work k < job_work j)%nat /\
    (forall f, k = OnFileClosed f -> j = CloseStream f) /\
    (k = OnNewTorrentAdded -> j = AddNewTorrentsToSession) /\
    dom (m_openFilesRead (mm_handles s')) = dom (m_openFilesRead (mm_handles s)) /\
    dom (m_openFilesWrite (mm_handles s')) = dom (m_openFilesWrite (mm_handles s)) /\
    (j = OnUnusedTorrentsDeleted \/ m_sandboxFsTreeFile (mm_drive s') = true \/
     m_sandboxFsTreeFile (mm_drive s') = m_sandboxFsTreeFile (mm_drive s)).

Ltac job_walk :=
  ensures_walk; eexists; (split; [reflexivity|]); cbn; split_and!; try done; try lia; try tauto;
  try (by intros ? [=]); try (by rewrite dom_insert_lookup_L by eauto).

Lemma discard_done j s :
  j = AcceptUpperSandboxModifications \/ j = DiscardUpperSandboxModifications ->
  ensures (job_done j s) (discardUpperSandboxModifications s).
Proof. intros [-> | ->]; unfold discardUpperSandboxModifications; job_walk. Qed.

Lemma runJob_done j s :
  (j = OnUnusedTorrentsDeleted -> m_sandboxFsTreeFile (mm_drive s) = true) ->
  ensures (job_done j s)
    (runJob m_maxSize session calculateInfoHash torrentSize createTorrentFile j s).
Proof.
  intros Hfile. destruct j; cbn [runJob].
  all: try solve [job_walk].
  - unfold createStream. destruct mode; job_walk.
  - unfold readStream. job_walk.
  - unfold writeStream. job_walk.
  - apply ensures_assert. intros _. job_walk. by intros f [= ->].
  - apply ensures_any. intros [removed disk]. destruct moved; job_walk.
  - unfold obtainFileSize. job_walk.
  - destruct applying; job_walk.
  - destruct (m_upperSandboxFsTree (mm_sandbox s)); [|exact I]. apply ensures_any. intros [].
    + unfold acceptUpperSandboxModifications. job_walk.
    + apply discard_done. by left.
  - apply discard_done. by right.
  - unfold computeSandboxHash. job_walk.
  - unfold addNewTorrentsToSession. job_walk.
  - unfold onUnusedTorrentsDeleted. rewrite (Hfile eq_refl). cbn [negb]. job_walk.
Qed.

Lemma elem_of_snoc {A} (x y : A) l : x ∈ l ++ [y] <-> x ∈ l \/ x = y.
Proof. set_solver. Qed.

Lemma job_ok j jobs s s' :
  manual_inv s -> m_jobs (mm_control s) = j :: jobs ->
  job_done j (on_ct (set_jobs jobs) s) s' -> manual_inv s' /\ owed s' = owed s.
Proof.
  intros [Hc (Hk & He & Hf)] E (k & Ec & Hclass & _ & Hclose & Hnew & Er & Ew & Hfile).
  cbn in Ec, Er, Ew, Hfile. assert (forall x, pend x (mm_control s') = pend x (mm_control s)) as Hp.
  { intros x. rewrite Ec, (pend_pop_job x j jobs _ E).
    change (set_continuations (m_continuations (mm_control s) ++ [k]) (set_jobs jobs (mm_control s)))
      with (set_continuations (m_continuations (set_jobs jobs (mm_control s)) ++ [k]) (set_jobs jobs (mm_control s))).
    by rewrite pend_push_continuation, Hclass. }
  unfold manual_inv, owed. rewrite !Hp. split; [split|done].
  - unfold control_ok in *. rewrite !Hp, Ec. exact Hc.
  - assert (forall f, known f (mm_handles s) <-> known f (mm_handles s')) as Hknown.
    { intros f. unfold known. rewrite <- !elem_of_dom, Er, Ew. done. }
    unfold files_ok. rewrite Hp, Ec. cbn. split_and!.
    + intros f Hin. apply Hknown, Hk. rewrite E. rewrite elem_of_snoc in Hin.
      destruct Hin as [Hin|[Hin|Hin]]; [left; set_solver | by right | left].
      rewrite (Hclose f) by done. set_solver.
    + intros Hend. specialize (He Hend) as [Hw Hr]. rewrite Hw, Hr in *.
      split; apply dom_empty_iff_L; [rewrite Ew | rewrite Er]; cbn; set_solver.
    + rewrite E in Hf. rewrite elem_of_snoc. intros Hin.
      assert (m_sandboxFsTreeFile (mm_drive s) = true) as Hs.
      { apply Hf. destruct Hin as [Hin|[Hin|[Hin|Hin]]]; [set_solver.. | left].
        rewrite Hnew by done. set_solver. }
      destruct Hfile as [Hj|[Hj|Hj]]; [|done|by rewrite Hj].
      (* the other items of the application would be one too many *)
      exfalso. subst j. destruct Hc as [H1 _]. rewrite (pend_pop_job Chain _ jobs _ E) in H1.
      cbn [job_class] in H1. rewrite decide_True in H1 by done.
      assert (1 <= pend Chain (set_jobs jobs (mm_control s)))%nat as H2; [|lia].
      destruct Hin as [Hin|[Hin|[Hin|Hin]]].
      * by apply (pend_job AddNewTorrentsToSession (set_jobs jobs (mm_control s))).
      * by apply (pend_job OnUnusedTorrentsDeleted (set_jobs jobs (mm_control s))).
      * by apply (pend_continuation OnNewTorrentAdded (set_jobs jobs (mm_control s))).
      * specialize (Hnew (eq_sym Hin)). discriminate Hnew.
Qed.

(** ** The continuations *)

(** The state in which a query has been served. *)
Definition served (s : ManualModifications) : ManualModifications := on_ct (set_executing false) s.

Abbreviation replied s := (fun a : list Response * ManualModifications => Reply s a.1 a.2).

Lemma continue_query_replies r s k :
  (m_taskIsInterrupted (mm_control s) = false -> ensures (replied (served s)) (k (served s))) ->
  ensures (replied (served s)) (continue_query r s k).
Proof.
  intros H. unfold continue_query. apply ensures_assert. intros _. cbv zeta. fold (served s).
  change (m_taskIsInterrupted (mm_control (served s))) with (m_taskIsInterrupted (mm_control s)).
  destruct (m_taskIsInterrupted (mm_control s)); [|auto]. apply reply_finish. apply finishTask_control.
Qed.

Ltac served_walk :=
  unfold subtract_size, execute; ensures_walk; cbn [ensures fst snd];
  first [by apply reply_answer | eapply reply_start; [reflexivity | reflexivity | by intros ? [=]]].

Lemma runContinuation_query k s :
  continuation_class k = Query ->
  (forall f, k = OnFileClosed f -> known f (mm_handles s)) ->
  ensures (replied (served s)) (runContinuation session m_modificationIdentifier k s).
Proof.
  intros Hq Hf. destruct k; cbn [runContinuation].
  all: try discriminate Hq.
  all: try solve [apply continue_query_replies; intros Hi; served_walk].
  - unfold onFileOpened. do 2 (apply ensures_assert; intros _).
    apply continue_query_replies; intros Hi. served_walk.
  - destruct applying as [b|]; [|discriminate Hq].
    apply continue_query_replies; intros Hi. destruct b; served_walk.
Qed.

(** The invariant without the item that is served. *)
Lemma files_pop s k ks :
  files_ok s -> m_continuations (mm_control s) = k :: ks ->
  files_ok (on_ct (set_continuations ks) s).
Proof.
  intros (Hk & He & Hf) E. unfold files_ok. cbn. split_and!.
  - intros f [H|H]; apply Hk; [by left | right; rewrite E; set_solver].
  - intros [H|H]; apply He; [left | by right].
    change (1 <= pend Ending (set_continuations ks (mm_control s)))%nat in H.
    rewrite (pend_pop_continuation Ending k ks _ E). lia.
  - intros [H|[H|H]]; apply Hf; [by left | right; by left | right; right; rewrite E; set_solver].
Qed.

Ltac class_lia := cbn [job_class continuation_class length]; repeat (case_decide; try congruence); lia.

(** The end of the task, from a state with no query. *)
Lemma finish_ok s :
  control_ok (mm_control s) -> pend Query (mm_control s) = 0%nat -> files_ok s ->
  manual_inv (finishTask s) /\ owed (finishTask s) = owed s.
Proof.
  intros Hc Hq (Hk & He & Hf). unfold manual_inv, owed, files_ok. rewrite finishTask_control.
  assert (mm_handles (finishTask s) = mm_handles s /\ mm_drive (finishTask s) = mm_drive s) as [-> ->]
    by (unfold finishTask; by destruct (m_taskIsFinished (mm_control s))).
  split; [split; [by apply control_finish|]|].
  - unfold finish_control. destruct (m_taskIsFinished (mm_control s)); [by split_and!|].
    rewrite pend_push, pend_finished. cbn. rewrite decide_False, Nat.add_0_r by done.
    split_and!; [|exact He|]; setoid_rewrite elem_of_snoc.
    + intros f [[H|H]|H]; [eauto | done | eauto].
    + intros [[H|H]|[[H|H]|H]]; eauto; done.
  - unfold finish_control. destruct (m_taskIsFinished (mm_control s)); [done|].
    rewrite !pend_push, !pend_finished. class_lia.
Qed.

Lemma onNewTorrentAdded_ok s :
  session = true -> manual_inv s -> (pend Query (mm_control s) + pend Chain (mm_control s) = 0)%nat ->
  m_sandboxFsTreeFile (mm_drive s) = true ->
  ensures (fun a => manual_inv a.2 /\ (length a.1 + owed a.2 = 1)%nat) (onNewTorrentAdded session s).
Proof.
  intros Hs [Hc (Hk & He & Hf)] Hz Hfile. unfold onNewTorrentAdded. rewrite Hs. ensures_walk. cbn [ensures fst snd].
  set (s' := executeOnBackgroundThread _ _).
  assert (mm_control s' = push_job OnUnusedTorrentsDeleted (mm_control s)) as E by done.
  assert (mm_handles s' = mm_handles s /\ m_sandboxFsTreeFile (mm_drive s') = true) as [Eh Ed] by done.
  unfold manual_inv, owed, files_ok. rewrite E, Eh, Ed. split; [split|].
  - by apply chain_push.
  - rewrite pend_push. cbn. rewrite decide_False, Nat.add_0_r by done.
    split_and!; [|exact He|done]. setoid_rewrite elem_of_snoc. intros f' [[Hf'|Hf']|Hf']; [eauto | done | eauto].
  - rewrite !pend_push. class_lia.
Qed.

Lemma closing_ok s k ks :
  manual_inv s -> m_continuations (mm_control s) = k :: ks -> continuation_class k = Trash ->
  ensures (fun s' => manual_inv s' /\ owed s' = owed s) (closeFiles None (on_ct (set_continuations ks) s)).
Proof.
  intros [Hc Hf] E Hk. pose proof (files_pop s k ks Hf E) as (_ & _ & Hf').
  pose proof (pop_trash _ _ _ Hc E Hk) as Hc'.
  eapply ensures_mono; [|apply closeFiles_effect]. intros s' (Ec & Hn & Ed). cbn in Ec.
  assert (pend Query (mm_control s) = 0)%nat as Hq0.
  { destruct Hc as (_ & _ & H3 & H4 & _). rewrite (pend_pop_continuation Trash k ks _ E) in H4.
    rewrite Hk, decide_True in H4 by done.
    destruct (pend Query (mm_control s)); [done|]. specialize (H3 ltac:(lia)). specialize (H4 H3). lia. }
  unfold manual_inv, owed, files_ok. rewrite Ec, Ed. split; [split|].
  - exact Hc'.
  - split_and!; [|by intros _|]; cbn; setoid_rewrite elem_of_snoc.
    + intros f H. exfalso.
      assert (1 <= pend Query (set_continuations ks (mm_control s)))%nat as Hq.
      { destruct H as [[H|H]|H]; [exact (pend_job (CloseStream f) (set_continuations ks (mm_control s)) H) | done |
          exact (pend_continuation (OnFileClosed f) (set_continuations ks (mm_control s)) H)]. }
      rewrite (pend_pop_continuation Query k ks _ E) in Hq0. lia.
    + intros [[H|H]|[[H|H]|H]]; try done; apply Hf'; cbn; eauto.
  - change (set_jobs (m_jobs (mm_control s) ++ [CloseStreams None]) _) with
      (push_job (CloseStreams None) (set_executing true (set_continuations ks (mm_control s)))).
    rewrite !pend_push, !pend_executing, !(pend_pop_continuation _ k ks _ E), Hk. done.
Qed.

Lemma ending_ok s k ks :
  manual_inv s -> m_continuations (mm_control s) = k :: ks -> continuation_class k = Ending ->
  let s' := on_ct set_runNextTask (on_ct (set_continuations ks) s) in manual_inv s' /\ owed s' = owed s.
Proof.
  intros [Hc Hf] E Hk. cbv zeta. pose proof Hf as (_ & He & _).
  pose proof (files_pop s k ks Hf E) as (Hk' & _ & Hf'). split; [split|].
  - by apply pop_ending with k.
  - split; [exact Hk'|]. split; [|exact Hf']. intros _. apply He. left.
    rewrite <- Hk. apply pend_continuation. rewrite E. set_solver.
  - unfold owed. rewrite !(pend_pop_continuation _ k ks _ E), Hk. cbn -[pend].
    change (pend ?x (set_runNextTask ?c)) with (pend x c). class_lia.
Qed.

Lemma continuation_ok k ks s :
  session = true -> manual_inv s -> m_continuations (mm_control s) = k :: ks ->
  ensures (fun a => manual_inv a.2 /\ (length a.1 + owed a.2 = owed s)%nat)
    (runContinuation session m_modificationIdentifier k (on_ct (set_continuations ks) s)).
Proof.
  intros Hs [Hc Hf] E. set (s0 := on_ct (set_continuations ks) s).
  assert (k ∈ m_continuations (mm_control s)) as Hin by (rewrite E; set_solver).
  destruct (continuation_class k) eqn:Hk.
  - eapply ensures_mono; [|apply runContinuation_query; [exact Hk|]].
    + intros [out s'] H. cbn in *. pose proof (pop_query _ _ _ Hc E Hk) as Hi.
      destruct (reply_ok (served s0) out s' Hi H) as [Hinv Hlen]. split; [exact Hinv|].
      rewrite Hlen. pose proof (pend_continuation k _ Hin) as Hq. rewrite Hk in Hq.
      destruct Hc as [H1 _]. unfold owed. lia.
    + intros f ->. apply Hf. by right.
  - destruct (pop_chain _ _ _ Hc E Hk) as [Hc0 Hz].
    assert (owed s = 1%nat) as ->.
    { unfold owed. rewrite !(pend_pop_continuation _ k ks _ E), Hk. class_lia. }
    pose proof (files_pop _ _ _ Hf E) as Hf0. fold s0 in Hf0.
    destruct k as [| | | | | | | |[]| | | | |]; try discriminate Hk; cbn [runContinuation].
    + apply onNewTorrentAdded_ok; [done | by split | exact Hz |]. apply Hf. by right; right.
    + unfold onAppliedStorageModifications. ensures_walk. cbn [ensures fst snd length].
      match goal with |- context[finishTask ?x] => set (s1 := x) end.
      destruct (finish_ok s1) as [Hinv Hlen]; [exact Hc0 | | exact Hf0 |].
      { change (pend Query (set_continuations ks (mm_control s)) = 0%nat). lia. }
      split; [exact Hinv|]. rewrite Hlen.
      change (S (pend Query (set_continuations ks (mm_control s)) + pend Chain (set_continuations ks (mm_control s))) = 1)%nat.
      lia.
  - destruct k as [| | | | | | | |[]| | | | |]; try discriminate Hk; cbn [runContinuation].
    eapply ensures_bind; [by eapply closing_ok|]. intros s1 [Hinv Ho]. by split.
  - destruct k as [| | | | | | | |[]| | | | |]; try discriminate Hk; cbn [runContinuation ensures fst snd length].
    by eapply ending_ok.
Qed.

Lemma control_interrupt c :
  control_ok c -> m_taskIsFinished c = true \/ (1 <= pend Query c)%nat -> control_ok (set_interrupted c).
Proof.
  intros (H1 & H2 & H3 & H4 & H5 & _) H. unfold control_ok. rewrite !pend_interrupted.
  exact (conj H1 (conj H2 (conj H3 (conj H4 (conj H5 (fun _ => H)))))).
Qed.

(** An interrupted task that executes nothing has been finished first. *)
Lemma terminate_control s :
  mm_control (terminate s) =
  let c := mm_control s in
  if m_taskIsInterrupted c then c
  else set_interrupted (if m_isExecutingQuery c then c else finish_control c).
Proof.
  unfold terminate. cbv zeta. destruct (m_taskIsInterrupted (mm_control s)); [done|].
  cbn [on_ct set_control mm_control set_interrupted m_isExecutingQuery].
  destruct (m_isExecutingQuery (mm_control s)); [done|]. rewrite finishTask_control. unfold finish_control.
  cbn [on_ct set_control mm_control set_interrupted m_taskIsFinished].
  by destruct (m_taskIsFinished (mm_control s)).
Qed.

Lemma terminate_frame s :
  mm_handles (terminate s) = mm_handles s /\ mm_drive (terminate s) = mm_drive s.
Proof.
  unfold terminate. destruct (m_taskIsInterrupted (mm_control s)); [done|]. cbv zeta.
  destruct (m_isExecutingQuery _); [done|]. unfold finishTask. by destruct (m_taskIsFinished _).
Qed.

Lemma terminate_ok s : manual_inv s -> manual_inv (terminate s) /\ owed (terminate s) = owed s.
Proof.
  intros [Hc Hf]. destruct (terminate_frame s) as [Eh Ed].
  unfold manual_inv, owed, files_ok. rewrite Eh, Ed, terminate_control. cbv zeta.
  destruct (m_taskIsInterrupted (mm_control s)) eqn:Hi; [by split|].
  destruct (m_isExecutingQuery (mm_control s)) eqn:He.
  - split; [split; [|exact Hf]|done]. apply control_interrupt; [done|].
    destruct Hc as (_ & [H2 _] & _ & H4 & _). destruct (m_taskIsFinished (mm_control s)); [by left|].
    destruct (H4 eq_refl) as [H5 H6]. destruct (H2 He) as [H|H]; [right; lia | congruence].
  - assert (pend Query (mm_control s) = 0%nat) as Hq.
    { destruct Hc as (_ & [_ H2] & _). destruct (pend Query (mm_control s)) eqn:E; [done|].
      rewrite H2 in He by (left; lia). done. }
    pose proof (finish_ok s Hc Hq Hf) as [[Hc' Hf'] Ho']. unfold files_ok, owed in *.
    rewrite finishTask_control in *.
    assert (mm_handles (finishTask s) = mm_handles s /\ mm_drive (finishTask s) = mm_drive s) as [Eh' Ed']
      by (unfold finishTask; by destruct (m_taskIsFinished (mm_control s))).
    rewrite Eh', Ed' in Hf'. split; [split; [|exact Hf']|exact Ho']. apply control_interrupt; [done|]. left.
    unfold finish_control. by destruct (m_taskIsFinished (mm_control s)) eqn:E.
Qed.

(** The answers of a step, against those that are due. *)
Lemma step_ok e s :
  session = true -> manual_inv s -> permitted e s ->
  ensures (fun a => manual_inv a.2 /\
             (length a.1 + owed a.2 = owed s + match e with EvRequest _ => 1 | _ => 0 end)%nat) (step e s).
Proof.
  intros Hs Hinv He. pose proof Hinv as [Hc Hf]. destruct e as [r| | |]; cbn [manual_step].
  - pose proof He as (Ho & Hfin & _). unfold forward.
    eapply ensures_bind; [by apply handle_replies|]. intros [[out s']|] H; cbn in *.
    + destruct (reply_ok s out s') as [Hinv' Hlen]; [by apply control_idle | done |].
      split; [done|]. by rewrite Hlen, Ho.
    + split; [done|]. by rewrite Ho.
  - cbn. destruct (terminate_ok s Hinv) as [H1 ->]. split; [done|]. lia.
  - destruct (m_jobs (mm_control s)) as [|j jobs] eqn:E; [cbn; split; [done|lia]|].
    eapply ensures_bind; [apply (runJob_done j (on_ct (set_jobs jobs) s))|].
    + intros ->. apply Hf. right; left. rewrite E. set_solver.
    + intros s' H. cbn. destruct (job_ok _ _ _ _ Hinv E H) as [H1 ->]. split; [done|]. lia.
  - destruct (m_continuations (mm_control s)) as [|k ks] eqn:E; [cbn; split; [done|lia]|].
    rewrite Nat.add_0_r. by apply continuation_ok.
Qed.

(** ** Every request is answered *)

Fixpoint run (es : list ManualEvent) (s : ManualModifications) : Outcome (list Response * ManualModifications) :=
  match es with
  | [] => Ret ([], s)
  | e :: es' => '(out, s1) ← step e s; '(out', s') ← run es' s1; Ret (out ++ out', s')
  end.

(** The caller respects the protocol at every step. *)
Fixpoint respects (es : list ManualEvent) (s : ManualModifications) : Prop :=
  match es with
  | [] => True
  | e :: es' => permitted e s /\ match step e s with Ret (_, s1) => respects es' s1 | Stop _ => True end
  end.

Fixpoint requests (es : list ManualEvent) : nat :=
  match es with [] => 0 | EvRequest _ :: es' => S (requests es') | _ :: es' => requests es' end.

Lemma new_inv d nodes : manual_inv (newManualModifications d nodes) /\ owed (newManualModifications d nodes) = 0%nat.
Proof.
  split; [split|reflexivity].
  - unfold control_ok, flags_ok. cbn. intuition (try discriminate; try lia).
  - split_and!; cbn; set_solver by lia.
Qed.

Lemma run_ok es : forall s,
  session = true -> manual_inv s -> respects es s ->
  ensures (fun a => manual_inv a.2 /\ (length a.1 + owed a.2 = owed s + requests es)%nat) (run es s).
Proof.
  induction es as [|e es IH]; intros s Hs Hinv Hr; cbn [run requests].
  - cbn. split; [done|lia].
  - destruct Hr as [He Hr]. pose proof (step_ok e s Hs Hinv He) as Hstep.
    destruct (step e s) as [[out s1]|]; [|exact I]. cbn in Hstep. destruct Hstep as [Hinv1 Hlen].
    specialize (IH s1 Hs Hinv1 Hr). cbn. destruct (run es s1) as [[out' s']|]; [|exact I]. cbn in IH |- *.
    destruct IH as [Hinv' IH]. split; [done|]. rewrite length_app. destruct e; cbn; lia.
Qed.

(** C2: Of a task with a session whose caller respects the protocol, every request
    is answered exactly once: after any events the answers given are as many as
    the requests, but for the one that may still be due, and then a job or a
    continuation for it is pending. *)
Theorem manual_answers d nodes es out s :
  session = true -> respects es (newManualModifications d nodes) ->
  run es (newManualModifications d nodes) = Ret (out, s) ->
  (length out + owed s = requests es)%nat /\ (owed s <= 1)%nat /\
  (m_jobs (mm_control s) = [] -> m_continuations (mm_control s) = [] -> length out = requests es).
Proof.
  intros Hs Hr E. destruct (new_inv d nodes) as [Hinv Ho].
  destruct (ensures_ret _ _ _ (run_ok es _ Hs Hinv Hr) E) as [[[H1 _] _] Hlen].
  cbn [fst snd] in *. rewrite Ho in Hlen.
  split; [done|]. split; [exact H1|]. intros Ej Ek.
  assert (owed s = 0%nat); [|lia]. unfold owed. rewrite !pend_split, Ej, Ek. done.
Qed.


(** ** An interrupted task ends *)

Lemma job_work_done j s s' : job_done j s s' -> (work s' < work s + job_work j)%nat.
Proof.
  intros (k & E & _ & Hk & _). unfold work. rewrite E. cbn. rewrite sum_list_with_app. cbn. lia.
Qed.

Ltac work_walk :=
  unfold continue_query, subtract_size; ensures_walk; cbn [ensures snd];
  first
    [ eapply Nat.le_lt_trans; [apply work_finish|]; unfold work; cbn; lia
    | unfold execute; rewrite work_push_job; unfold work; cbn; lia
    | unfold work; cbn; lia ].

Lemma continuation_work_done k s :
  ensures (fun a => work a.2 < work s + continuation_work k)%nat
    (runContinuation session m_modificationIdentifier k s).
Proof.
  destruct k; cbn [runContinuation continuation_work].
  all: try solve [work_walk].
  - unfold onFileOpened. work_walk.
  - unfold onFileClosed. work_walk.
  - destruct applying as [b|]; [|work_walk]. unfold onSandboxModificationStreamsClosed.
    destruct b; work_walk.
  - unfold onAppliedSandboxModifications. destruct success; work_walk.
  - unfold onNewTorrentAdded. ensures_walk. cbn [ensures snd].
    destruct session; [rewrite work_push_job|]; unfold work; cbn; lia.
  - unfold onAppliedStorageModifications. work_walk.
  - eapply ensures_bind; [apply closeFiles_effect|]. intros s' (E & _). cbn. unfold work. rewrite E.
    cbn. rewrite sum_list_with_app. cbn. lia.
Qed.

(** A turn of a thread that has something to do. *)
Definition effective (e : ManualEvent) (s : ManualModifications) : Prop :=
  (e = EvBackground /\ m_jobs (mm_control s) <> []) \/ (e = EvSession /\ m_continuations (mm_control s) <> []).

(** The interruption stays. *)
Definition same_interrupted (s s' : ManualModifications) : Prop :=
  m_taskIsInterrupted (mm_control s') = m_taskIsInterrupted (mm_control s).

Lemma finish_interrupted s : same_interrupted s (finishTask s).
Proof. unfold same_interrupted, finishTask. by destruct (m_taskIsFinished (mm_control s)). Qed.

Ltac interrupted_walk :=
  unfold continue_query, subtract_size; ensures_walk; cbn [ensures snd];
  first [exact (finish_interrupted _) | reflexivity].

Lemma continuation_interrupted k s :
  ensures (fun a => same_interrupted s a.2) (runContinuation session m_modificationIdentifier k s).
Proof.
  destruct k; cbn [runContinuation].
  all: try solve [interrupted_walk].
  - unfold onFileOpened. interrupted_walk.
  - unfold onFileClosed. interrupted_walk.
  - destruct applying as [b|]; [|interrupted_walk]. unfold onSandboxModificationStreamsClosed. interrupted_walk.
  - unfold onAppliedSandboxModifications. destruct success; interrupted_walk.
  - unfold onNewTorrentAdded. destruct session; interrupted_walk.
  - unfold onAppliedStorageModifications. interrupted_walk.
  - eapply ensures_bind; [apply closeFiles_effect|]. intros s' (E & _). cbn. unfold same_interrupted. by rewrite E.
Qed.

Lemma turn_work e s :
  session = true -> manual_inv s -> effective e s ->
  ensures (fun a => (work a.2 < work s)%nat /\ same_interrupted s a.2) (step e s).
Proof.
  intros Hs [_ Hf] [[-> Hne]|[-> Hne]]; cbn [manual_step].
  - destruct (m_jobs (mm_control s)) as [|j jobs] eqn:E; [done|].
    eapply ensures_bind; [apply (runJob_done j (on_ct (set_jobs jobs) s))|].
    + intros ->. apply Hf. right; left. rewrite E. set_solver.
    + intros s' H. cbn [ensures snd]. split.
      * apply job_work_done in H. unfold work in *. rewrite E. cbn in *. lia.
      * destruct H as (k & Ec & _). unfold same_interrupted. by rewrite Ec.
  - destruct (m_continuations (mm_control s)) as [|k ks] eqn:E; [done|].
    pose proof (continuation_work_done k (on_ct (set_continuations ks) s)) as Hw.
    pose proof (continuation_interrupted k (on_ct (set_continuations ks) s)) as Hi.
    destruct (runContinuation _ _ _ _) as [[out s']|]; [|exact I]. cbn [ensures snd] in *. split; [|exact Hi].
    unfold work in *. rewrite E. cbn in *. lia.
Qed.

(** Turns that have something to do, all along. *)
Fixpoint turns (es : list ManualEvent) (s : ManualModifications) : Prop :=
  match es with
  | [] => True
  | e :: es' => effective e s /\ match step e s with Ret (_, s1) => turns es' s1 | Stop _ => True end
  end.

Lemma turns_work es : forall s,
  session = true -> manual_inv s -> turns es s ->
  ensures (fun a => manual_inv a.2 /\ (length es + work a.2 <= work s)%nat /\ same_interrupted s a.2) (run es s).
Proof.
  induction es as [|e es IH]; intros s Hs Hinv Ht; cbn [run].
  - cbn. by split_and!.
  - destruct Ht as [He Ht]. pose proof (turn_work e s Hs Hinv He) as Hw.
    assert (permitted e s) as Hp by (destruct He as [[-> _]|[-> _]]; exact I).
    pose proof (step_ok e s Hs Hinv Hp) as Hok.
    destruct (step e s) as [[out s1]|]; [|exact I]. cbn [ensures snd fst] in Hw, Hok.
    destruct Hw as [Hw Hi], Hok as [Hinv1 _]. specialize (IH s1 Hs Hinv1 Ht).
    cbn. destruct (run es s1) as [[out' s']|]; [|exact I]. cbn [ensures snd length] in *.
    destruct IH as (Hinv' & Hl & Hi'). split; [done|]. split; [cbn in *; lia|].
    exact (eq_trans Hi' Hi).
Qed.

(** C24: An interrupted task gives the drive back.  Of a task with a session whose
    caller keeps the protocol ([respects]: it waits for each answer, asks nothing of a
    task that has finished, opens no file too many and applies only a storage whose
    hash was evaluated): from any state reached after the interruption,
    the two threads take boundedly many turns in whatever order, and when no job and
    no continuation is left, with no assertion failed on the way, the drive has been
    told to go on and no file is open. *)
Theorem manual_ends d nodes es out s :
  session = true -> respects es (newManualModifications d nodes) ->
  run es (newManualModifications d nodes) = Ret (out, s) -> m_taskIsInterrupted (mm_control s) = true ->
  forall ts out' s', turns ts s -> run ts s = Ret (out', s') ->
  (length ts <= work s)%nat /\
  (m_jobs (mm_control s') = [] -> m_continuations (mm_control s') = [] ->
     m_runNextTask (mm_control s') = true /\ no_files (mm_handles s')).
Proof.
  intros Hs Hr E Hi ts out' s' Ht E'. destruct (new_inv d nodes) as [Hinv _].
  destruct (ensures_ret _ _ _ (run_ok es _ Hs Hinv Hr) E) as [Hinv1 _]. cbn [snd] in Hinv1.
  destruct (ensures_ret _ _ _ (turns_work ts s Hs Hinv1 Ht) E') as ([Hc Hf] & Hl & Hi'). cbn [snd] in *.
  split; [lia|]. intros Ej Ek. unfold same_interrupted in Hi'. rewrite Hi in Hi'.
  assert (forall x, pend x (mm_control s') = 0%nat) as Hp by (intros x; by rewrite pend_split, Ej, Ek).
  destruct Hc as (_ & _ & _ & _ & H5 & H6). rewrite !Hp in *.
  assert (m_runNextTask (mm_control s') = true) as Hn.
  { destruct (H6 Hi') as [Hfin|]; [|lia]. specialize (H5 Hfin). by destruct (m_runNextTask (mm_control s')). }
  split; [done|]. apply Hf. by right.
Qed.

(** ** The size limit *)

Definition carried_size (k : Continuation) : Z :=
  match k with
  | OnFileOpened _ _ _ _ _ n | OnRemoved n | OnMoved n | OnAppliedSandboxModifications _ n => n
  | _ => 0
  end.

Definition within (s : ManualModifications) : Prop :=
  0 <= m_upperSandboxFilesSize (mm_sandbox s) <= m_maxSize /\
  0 <= m_lowerSandboxFilesSize (mm_sandbox s) <= m_maxSize /\
  Forall (fun k => 0 <= carried_size k) (m_continuations (mm_control s)).

Definition within_reply (a : option (list Response * ManualModifications)) : Prop :=
  match a with Some (_, s') => within s' | None => True end.

Lemma finish_within s : within s -> within (finishTask s).
Proof. unfold finishTask. by destruct (m_taskIsFinished (mm_control s)). Qed.

Ltac within_walk :=
  unfold answer, start, set_tree, execute; ensures_walk; cbn [ensures within_reply snd];
  repeat match goal with H : (_, _) = (_, _) |- _ => injection H as ? ?; subst end;
  first [assumption | by apply finish_within | idtac].

Lemma closeFiles_within applying s : within s -> ensures within (closeFiles applying s).
Proof. intros Hw. unfold closeFiles. ensures_walk. exact Hw. Qed.

Lemma handle_within r s : within s -> ensures within_reply (handle r s).
Proof.
  intros Hw.
  assert (forall k, (forall t st, ensures within_reply (k t st)) -> ensures within_reply (on_sandbox s k)) as Hs.
  { intros k H. unfold on_sandbox, on_task. ensures_walk; [exact I | apply H]. }
  assert (forall k, ensures within_reply k -> ensures within_reply (on_task s k)) as Ht.
  { intros k H. unfold on_task. ensures_walk; [exact I | apply H]. }
  destruct r; unfold ManualModifications.handle;
    unfold initiateSandboxModifications, openFile, readFile, writeFile, flush, closeFile, removeFsTreeEntry,
      pathExist, pathIsFile, fileSize, createDirectories, folderIteratorCreate, folderIteratorDestroy,
      folderIteratorHasNext, folderIteratorNext, moveFsTreeEntry, applySandboxModifications, evaluateStorageHash,
      applyStorageModifications;
    first [apply Hs; intros t st | apply Ht].
  all: try solve [within_walk].
  - ensures_walk. cbn [ensures within_reply]. destruct Hw as (_ & Hl & Hk). exact (conj Hl (conj Hl Hk)).
  - destruct (getFolderPtr _ _ _ _) as [[[fp|] t0] st0]; cbv zeta.
    + assert (ensures within_reply (openFileIn fp temporary mode path (m_totalFilesOpened (mm_handles s)) t0 st0
                (on_hd (set_opened (u64_add (m_totalFilesOpened (mm_handles s)) 1)) s))) as H
        by (unfold openFileIn; within_walk).
      revert H. by destruct (openFileIn _ _ _ _ _ _ _ _) as [[[out s']|]|].
    + exact Hw.
  - ensures_walk; [exact Hw | | exact Hw]. destruct Hw as (Hu & Hl & Hk).
    match goal with H : (_ <? _) = false |- _ => apply Z.ltb_ge in H as Hsize end.
    pose proof (u64_range (m_upperSandboxFilesSize (mm_sandbox s) + Z.of_nat (length buffer))) as Hr.
    exact (conj (conj (proj1 Hr) Hsize) (conj Hl Hk)).
  - destruct (m_upperSandboxFsTree (mm_sandbox s)); [|exact I].
    eapply ensures_bind; [by apply closeFiles_within|]. done.
Qed.

Lemma fold_nonneg {A} (f : Z * A -> Z -> Z * A) l : forall acc,
  (forall acc h, 0 <= acc.1 -> 0 <= (f acc h).1) -> 0 <= acc.1 -> 0 <= (foldl f acc l).1.
Proof. induction l as [|h l IH]; intros acc Hf Ha; cbn; [done|]. apply IH; [done|]. by apply Hf. Qed.

Lemma removeFiles_nonneg l : forall removed disk,
  0 <= removed -> ensures (fun p => 0 <= p.1) (removeFiles l removed disk).
Proof.
  induction l as [|hash l IH]; intros removed disk Hr; cbn [removeFiles]; [done|].
  destruct (disk !! hash); [|exact I]. apply IH, u64_range.
Qed.

Lemma removeFiles_ec_nonneg l disk : 0 <= (removeFiles_ec l disk).1.
Proof. apply fold_nonneg; [|done]. intros [n d] h Hn. apply u64_range. Qed.

Lemma within_push k s s' :
  within s -> mm_sandbox s' = mm_sandbox s \/ (m_upperSandboxFilesSize (mm_sandbox s') = m_upperSandboxFilesSize (mm_sandbox s) /\
    m_lowerSandboxFilesSize (mm_sandbox s') = m_lowerSandboxFilesSize (mm_sandbox s)) ->
  m_continuations (mm_control s') = m_continuations (mm_control s) ++ [k] -> 0 <= carried_size k -> within s'.
Proof.
  intros (Hu & Hl & Hk) E Ek Hc. unfold within. rewrite Ek, Forall_app, Forall_singleton.
  destruct E as [->|[-> ->]]; done.
Qed.

Ltac push_walk Hw := ensures_walk; eapply (within_push _ _ _ Hw); [by right | reflexivity | cbn; try lia].

Lemma runJob_within j s :
  within s -> ensures within (runJob m_maxSize session calculateInfoHash torrentSize createTorrentFile j s).
Proof.
  intros Hw. assert (ensures within (discardUpperSandboxModifications s)) as Hd.
  { unfold discardUpperSandboxModifications. apply ensures_assert. intros _.
    pose proof (removeFiles_ec_nonneg (elements (m_callManagedHashes (mm_sandbox s))) (m_driveFolder (mm_drive s))) as H.
    destruct (removeFiles_ec _ _) as [removed disk]. push_walk Hw. exact H. }
  destruct j; cbn [runJob]; try solve [push_walk Hw].
  - unfold createStream. destruct mode; [push_walk Hw|].
    destruct (m_driveFolder (mm_drive s) !! hash); push_walk Hw.
  - unfold readStream. push_walk Hw.
  - unfold writeStream. push_walk Hw.
  - eapply ensures_bind; [by apply removeFiles_nonneg|].
    intros [removed disk] H. destruct moved; push_walk Hw; exact H.
  - unfold obtainFileSize. push_walk Hw.
  - destruct (m_upperSandboxFsTree (mm_sandbox s)) as [upper|]; [|exact I].
    apply ensures_any. intros []; [|exact Hd].
    unfold acceptUpperSandboxModifications. destruct (m_lowerSandboxFsTree (mm_sandbox s)) as [lower|]; [|exact I].
    match goal with |- context[removeFiles_ec ?l ?d] =>
      pose proof (removeFiles_ec_nonneg l d) as H; destruct (removeFiles_ec l d) as [removed disk] end.
    push_walk Hw. exact H.
  - exact Hd.
  - unfold computeSandboxHash. push_walk Hw.
  - unfold addNewTorrentsToSession. push_walk Hw.
  - unfold onUnusedTorrentsDeleted. push_walk Hw.
Qed.

Lemma continue_within r s (k : ManualModifications -> Outcome (list Response * ManualModifications)) :
  within s -> (within (served s) -> ensures (fun a => within a.2) (k (served s))) ->
  ensures (fun a => within a.2) (continue_query r s k).
Proof.
  intros Hw Hk. unfold continue_query. apply ensures_assert. intros _. cbv zeta.
  destruct (m_taskIsInterrupted _); [by apply finish_within | by apply Hk].
Qed.

Lemma subtract_within n s (k : ManualModifications -> Outcome (list Response * ManualModifications)) :
  0 <= n -> 0 <= m_maxSize < two64 -> within s ->
  (forall s', within s' -> ensures (fun a => within a.2) (k s')) ->
  ensures (fun a => within a.2) (subtract_size n s k).
Proof.
  intros Hn Hmax (Hu & Hl & Hk) H. unfold subtract_size. apply ensures_assert. intros Hle. apply Z.leb_le in Hle.
  apply H. unfold within. cbn. split_and!; try done; lia64.
Qed.

Lemma runContinuation_within k s :
  0 <= m_maxSize < two64 -> 0 <= carried_size k -> within s ->
  ensures (fun a => within a.2) (runContinuation session m_modificationIdentifier k s).
Proof.
  intros Hmax Hk Hw. destruct k; cbn [runContinuation carried_size] in *;
    try solve [apply continue_within; [exact Hw|]; intros Hw1; ensures_walk; exact Hw1];
    try solve [apply continue_within; [exact Hw|]; intros Hw1; apply subtract_within; try done].
  - unfold onFileOpened. do 2 (apply ensures_assert; intros _). apply continue_within; [exact Hw|]. intros Hw1.
    apply subtract_within; try done. intros s' Hw'. destruct mode; ensures_walk; exact Hw'.
  - destruct applying as [b|]; [|exact Hw]. apply continue_within; [exact Hw|]. intros Hw1. ensures_walk; exact Hw1.
  - apply continue_within; [exact Hw|]. intros Hw1. apply subtract_within; try done.
    intros s' (Hu & Hl & Hc). destruct success; ensures_walk; cbn [ensures snd].
    + exact (conj Hu (conj Hu Hc)).
    + refine (conj _ (conj Hl Hc)). cbn. lia.
  - unfold onNewTorrentAdded. destruct session; ensures_walk; exact Hw.
  - unfold onAppliedStorageModifications. ensures_walk. cbn [ensures snd]. by apply finish_within.
  - eapply ensures_bind; [by apply closeFiles_within|]. done.
Qed.

Lemma step_within e s : 0 <= m_maxSize < two64 -> within s -> ensures (fun a => within a.2) (step e s).
Proof.
  intros Hmax Hw. destruct e as [r| | |]; cbn [manual_step].
  - eapply ensures_bind; [by apply handle_within|]. by intros [[out s']|] H.
  - cbn. unfold terminate. destruct (m_taskIsInterrupted (mm_control s)); [done|]. cbv zeta.
    destruct (m_isExecutingQuery _); [done | by apply finish_within].
  - destruct (m_jobs (mm_control s)) as [|j jobs]; [done|].
    eapply ensures_bind; [by apply runJob_within|]. done.
  - destruct (m_continuations (mm_control s)) as [|k ks] eqn:E; [done|].
    destruct Hw as (Hu & Hl & Hk). rewrite E in Hk. apply Forall_cons in Hk as [Hk Hks].
    apply runContinuation_within; done.
Qed.

Lemma run_within es : forall s, 0 <= m_maxSize < two64 -> within s -> ensures (fun a => within a.2) (run es s).
Proof.
  induction es as [|e es IH]; intros s Hmax Hw; cbn [run]; [exact Hw|].
  eapply ensures_bind; [by apply step_within|]. intros [out s1] Hw1.
  eapply ensures_bind; [by apply IH|]. by intros [out' s'] Hw'.
Qed.

(** C31: Whatever a caller asks and in whatever order, the size accounted to a
    sandbox never exceeds the size of the drive, and a buffer that is written is
    counted in full: one that would exceed the limit is refused. *)
Theorem sandbox_within_limit d nodes es out s :
  0 <= m_maxSize < two64 / 2 ->
  run es (newManualModifications d nodes) = Ret (out, s) ->
  0 <= m_upperSandboxFilesSize (mm_sandbox s) <= m_maxSize /\
  0 <= m_lowerSandboxFilesSize (mm_sandbox s) <= m_maxSize /\
  (forall fileId buffer s', Z.of_nat (length buffer) < two64 / 2 ->
     handle (WriteFileRequest fileId buffer) s = Ret (Some ([], s')) ->
     m_upperSandboxFilesSize (mm_sandbox s') = m_upperSandboxFilesSize (mm_sandbox s) + Z.of_nat (length buffer) /\
     m_upperSandboxFilesSize (mm_sandbox s') <= m_maxSize).
Proof.
  change (two64 / 2) with 9223372036854775808. intros Hmax E.
  assert (0 <= m_maxSize < two64) as Hmax' by (unfold two64; lia).
  assert (within (newManualModifications d nodes)) as Hw by (unfold within; cbn; split_and!; try lia; constructor).
  destruct (ensures_ret _ _ _ (run_within es _ Hmax' Hw) E) as (Hu & Hl & _). cbn [snd] in *.
  split; [done|]. split; [done|]. intros fileId buffer s' Hb H.
  cbn in H. unfold writeFile, on_sandbox, on_task, answer, start in H.
  destruct (m_upperSandboxFsTree (mm_sandbox s)); [|discriminate H].
  apply guard_assert_inv in H as [_ H]. destruct (m_taskIsInterrupted (mm_control s)); [discriminate H|].
  destruct (m_openFilesWrite (mm_handles s) !! fileId); [|discriminate H].
  destruct (m_maxSize <? _) eqn:Hsize; [discriminate H|]. injection H as <-. apply Z.ltb_ge in Hsize.
  cbn. split; [lia64 | exact Hsize].
Qed.
End Protocol.

(** ** The task as the drive sees it *)

Definition manual_view (id : Z) (s : ManualModifications) : ManualTask :=
  let c := mm_control s in mkManual id (m_isExecutingQuery c) (m_taskIsInterrupted c) (m_taskIsFinished c).

(** The interruption of the drive's task queue ([DriveTasks]) is the one modelled here. *)
Lemma terminate_view id s : manual_view id (terminate s) = manual_terminate (manual_view id s).
Proof.
  unfold manual_view, manual_terminate, manual_finishTask. rewrite terminate_control. cbn.
  destruct (m_taskIsInterrupted (mm_control s)) eqn:Hi; [by rewrite Hi|].
  destruct (m_isExecutingQuery (mm_control s)) eqn:He; cbn; rewrite ?He; [done|].
  unfold finish_control. by destruct (m_taskIsFinished (mm_control s)) eqn:Hf; cbn; rewrite ?He, ?Hf.
Qed.

(** ** A call of a contract *)

Definition sumHash (c : list Z) : Z := 1000 + foldr Z.add 0 c.

(** [/docs/img/], [/docs/readme], and the nodes. *)
Definition sampleTree : Folder :=
  MkFolder "" [("docs", inl (MkFolder "docs" [
      ("img", inl (MkFolder "img" [] false 0 (-1) (Some 2%nat)));
      ("readme", inr (mkFile "readme" 10 3 (-1) false (Some 3%nat)))] false 0 (-1) (Some 1%nat)))]
    false 0 (-1) (Some 0%nat).

Definition sampleNodes : StatStore :=
  (new_file_node (new_folder_node (new_folder_node (new_folder_node empty_store).2).2).2).2.

Definition sampleDrive : DriveState :=
  mkDriveState {[10 := [1; 2; 3]]} {[10 := 5]} false {[10 := true]} sampleTree 77 78.

Definition runSample (maxOpened : Z) (es : list ManualEvent) : Outcome (list Response * ManualModifications) :=
  run 5000 true maxOpened sumHash (fun c => Z.of_nat (length c)) (fun _ => 4242) 99 es 
    (newManualModifications sampleDrive sampleNodes).

(** A request, its job and its continuation. *)
Definition query (r : Request) : list ManualEvent := [EvRequest r; EvBackground; EvSession].

Definition writeNew : list ManualEvent :=
  EvRequest (InitiateSandboxModifications ["svc"]) :: query (OpenFileRequest (500, 501) WRITE "docs/new") ++
  query (WriteFileRequest 0 [7; 8; 9]) ++ query (CloseFileRequest 0).

Definition wholeCall : list ManualEvent :=
  writeNew ++ query (RemoveFilesystemEntryRequest "docs/readme") ++
  query (ApplySandboxModificationsRequest true) ++ [EvBackground; EvSession] ++ query EvaluateStorageHashRequest ++
  query (ApplyStorageModificationsRequest true) ++
  [EvBackground; EvSession; EvBackground; EvSession; EvBackground; EvSession].

(** The whole of a call: the drive has the new file under the hash of its content,
    and the removed file is still on the disk and in the session: files that were
    used once stay marked. *)
Example wholeCall_result :
  match runSample 5 wholeCall with
  | Ret (out, s) =>
      length out = 8%nat /\ m_runNextTask (mm_control s) = true /\
      m_lastApprovedModification (mm_drive s) = 99 /\
      getUniqueFiles (m_fsTree (mm_drive s)) ∅ = {[1024]} /\
      m_driveFolder (mm_drive s) = {[10 := [1; 2; 3]; 1024 := [7; 8; 9]]} /\
      dom (m_torrentHandleMap (mm_drive s)) = {[10; 1024]}
  | Stop _ => False
  end.
Proof. vm_compute. repeat split. Qed.

(** One file too many: the request is answered, goes on and is answered again. *)
Example openFile_answers_twice :
  match runSample 1 (EvRequest (InitiateSandboxModifications []) :: query (OpenFileRequest (500, 501) WRITE "a") ++
                     query (OpenFileRequest (502, 503) WRITE "b")) with
  | Ret (out, _) => out = [InitiateSandboxModificationsResponse; OpenFileResponse (Some 0); OpenFileResponse None;
                           OpenFileResponse (Some 1)]
  | Stop _ => False
  end.
Proof. vm_compute. reflexivity. Qed.

(** Moving a new file onto itself succeeds, and its content is gone: the size that is
    asked for next stops the program. *)
Example move_onto_itself :
  let moved := writeNew ++ query (MoveFilesystemEntryRequest "docs/new" "docs/new") in
  (drop 4 ∘ fst) <$> (match runSample 5 moved with Ret r => Some r | Stop _ => None end) =
    Some [MoveFilesystemEntryResponse true] /\
  runSample 5 (moved ++ query (FileSizeRequest "docs/new")) = Stop AssertFailure.
Proof. vm_compute. split; reflexivity. Qed.

(** A move that fails forgets the new file it would have replaced: discarding the
    sandbox then finds the wrong size, and the program stops. *)
Example failing_move_then_discard :
  runSample 5 (writeNew ++ [EvRequest (MoveFilesystemEntryRequest "missing" "docs/new")] ++
               query (ApplySandboxModificationsRequest false) ++ [EvBackground; EvSession]) = Stop AssertFailure.
Proof. vm_compute. reflexivity. Qed.

(** The trees share their nodes, and a discarded one leaves its links: after a call
    that turns two folders inside out and is discarded, the next one recurses for
    ever when it sets the links of the same folders. *)
Example discarded_links_crash :
  let moveOut := query (MoveFilesystemEntryRequest "docs/img" "img") in
  let moveIn := query (MoveFilesystemEntryRequest "docs" "img/docs") in
  let discard := query (ApplySandboxModificationsRequest false) ++ [EvBackground; EvSession] in
  match runSample 5 (EvRequest (InitiateSandboxModifications []) :: moveOut ++ moveIn ++ discard) with
  | Ret (out, s) =>
      out = [InitiateSandboxModificationsResponse; MoveFilesystemEntryResponse true;
             MoveFilesystemEntryResponse true; ApplySandboxModificationsResponse false] /\
      run 5000 true 5 sumHash (fun c => Z.of_nat (length c)) (fun _ => 4242) 99
        [EvRequest (InitiateSandboxModifications [])] s = Stop NonTermination
  | Stop _ => False
  end.
Proof. vm_compute. split; reflexivity. Qed.

(** ** Witnesses *)

Lemma manual_answers_witness :
  exists out s, runSample 5 wholeCall = Ret (out, s) /\ (length out + owed s = 8)%nat /\ (owed s <= 1)%nat.
Proof.
  destruct (runSample 5 wholeCall) as [[out s]|f] eqn:E; [|vm_compute in E; discriminate E].
  exists out, s. split; [reflexivity|].
  pose proof (manual_answers 5000 true 5 sumHash (fun c => Z.of_nat (length c)) (fun _ => 4242) 99
                sampleDrive sampleNodes wholeCall out s eq_refl ltac:(vm_compute; repeat split) E) as (H & H1 & _).
  split; [exact H | exact H1].
Defined.

Definition openThenTerminate : list ManualEvent :=
  [EvRequest (InitiateSandboxModifications []); EvRequest (OpenFileRequest (500, 501) WRITE "a"); EvTerminate].

Definition sixTurns : list ManualEvent :=
  [EvBackground; EvSession; EvBackground; EvSession; EvBackground; EvSession].

Lemma manual_ends_witness :
  exists out s s', runSample 5 openThenTerminate = Ret (out, s) /\ (length sixTurns <= work s)%nat /\
    m_runNextTask (mm_control s') = true /\ no_files (mm_handles s').
Proof.
  destruct (runSample 5 openThenTerminate) as [[out s]|f] eqn:E; [|vm_compute in E; discriminate E].
  destruct (run 5000 true 5 sumHash (fun c => Z.of_nat (length c)) (fun _ => 4242) 99 sixTurns s)
    as [[out' s']|f] eqn:E'; vm_compute in E; injection E as <- <-; [|vm_compute in E'; discriminate E'].
  eexists _, _, s'. split; [reflexivity|].
  pose proof (manual_ends 5000 true 5 sumHash (fun c => Z.of_nat (length c)) (fun _ => 4242) 99
                sampleDrive sampleNodes openThenTerminate _ _ eq_refl ltac:(vm_compute; repeat split)
                ltac:(vm_compute; reflexivity) eq_refl sixTurns out' s'
                ltac:(vm_compute; repeat split; first [left; split; [reflexivity | discriminate] |
                                                       right; split; [reflexivity | discriminate]]) E') as [H1 H2].
  split; [exact H1|]. vm_compute in E'. injection E' as <- <-. exact (H2 eq_refl eq_refl).
Defined.

Lemma sandbox_within_limit_witness :
  exists out s, runSample 5 writeNew = Ret (out, s) /\ 0 <= m_upperSandboxFilesSize (mm_sandbox s) <= 5000.
Proof.
  destruct (runSample 5 writeNew) as [[out s]|f] eqn:E; [|vm_compute in E; discriminate E].
  exists out, s. split; [reflexivity|].
  exact (proj1 (sandbox_within_limit 5000 true 5 sumHash (fun c => Z.of_nat (length c)) (fun _ => 4242) 99
                  sampleDrive sampleNodes writeNew out s (conj (Zle_bool_imp_le 0 5000 eq_refl) eq_refl) E)).
Defined.
