(* ===== verification/RcptSync.v ===== *)
(** * Synchronization of receipts ([src/drive/RcptSyncronizer.h], [src/drive/Replicator.cpp])

    A replicator that joins a channel asks the other replicators of the drive for
    the receipts they hold, until enough of them have answered.

    - A query and the part of a response that precedes the receipts are bytes; the
      archive of a response is a parameter: [encodeSync] writes the key, the channel
      and the receipts, [decodeSync] reads the key, the channel and as many receipts
      as it finds ([None] when reading the key or the channel throws).
    - [signature.size()] is 64; a signature that was not computed is zero.
    - The synchronizer holds the drive by a [shared_ptr]: a drive of the map of the
      replicator, or one that was closed since, with the replicators it had. *)

From S2P Require Import Prelude RcptMessage DownloadChannels.

(** ** The synchronizer *)

Inductive SyncDrive :=
  | LiveDrive (key : Z)
  | ClosedDrive (key : Z) (replicators : list Z).

Definition drivePublicKey (d : SyncDrive) : Z :=
  match d with LiveDrive k | ClosedDrive k _ => k end.

Record ChannelSyncInfo := mkSyncInfo {
  cs_drive : SyncDrive;
  cs_responseSet : gset Z;
  cs_consensusThreshould : Z;
  cs_syncTimeoutTimer : TimerState }.

Abbreviation SyncChannelMap := (gmap Z ChannelSyncInfo).

(** [std::map::lower_bound]: the first entry whose key is not less. *)
Definition lower_bound (k : Z) (m : SyncChannelMap) : option (Z * ChannelSyncInfo) :=
  List.find (fun p => k <=? p.1) (sorted_entries m).

(** The text of a query: replicator, drive and channel. *)
Definition syncQuery (replicatorKey driveKey channelId : Z) : list Z :=
  be_bytes 32 replicatorKey ++ be_bytes 32 driveKey ++ be_bytes 32 channelId.

(** ["get_dn_rcpts"] messages, with the receiver. *)
Abbreviation SyncMessages := (list (Z * list Z)).

Section Synchronizer.
  (** The key of this replicator, and what [getAllReplicators] of a drive returns. *)
  Context (ourKey : Z) (driveReplicators : Z -> list Z).

Definition getAllReplicators (d : SyncDrive) : list Z :=
  match d with LiveDrive k => driveReplicators k | ClosedDrive _ rs => rs end.

(** [requestOpinons]: the messages, and the entry with its new timer. *)
Definition requestOpinons (channelId : Z) (info : ChannelSyncInfo) : SyncMessages * ChannelSyncInfo :=
  (map (fun k => (k, syncQuery ourKey (drivePublicKey (cs_drive info)) channelId))
     (getAllReplicators (cs_drive info)),
   mkSyncInfo (cs_drive info) (cs_responseSet info) (cs_consensusThreshould info) Pending).

(** [startSync]; the entry that [lower_bound] finds may be another channel's. *)
Definition startSync (channelId driveKey consensusThreshould : Z) (m : SyncChannelMap)
    : SyncMessages * SyncChannelMap :=
  let '(id, info) :=
    match lower_bound channelId m with
    | Some entry => entry
    | None => (channelId, mkSyncInfo (LiveDrive driveKey) ∅ consensusThreshould NoTimer)
    end in
  let '(out, info') := requestOpinons id info in
  (out, <[id := info']> m).

(** The callback of the timer: it cancels the timer that [requestOpinons] has
    just started. *)
Definition syncTimerExpired (channelId : Z) (m : SyncChannelMap) : SyncMessages * SyncChannelMap :=
  match m !! channelId with
  | Some (mkSyncInfo d set threshould Pending) =>
      let '(out, info) := requestOpinons channelId (mkSyncInfo d set threshould Fired) in
      (out, <[channelId := mkSyncInfo (cs_drive info) (cs_responseSet info) (cs_consensusThreshould info) NoTimer]> m)
  | _ => ([], m)
  end.

End Synchronizer.

(** [accpeptOpinion]. *)
Definition accpeptOpinion (channelId replicatorKey : Z) (m : SyncChannelMap) : SyncChannelMap :=
  match m !! channelId with
  | None => m
  | Some info =>
      let set := {[replicatorKey]} ∪ cs_responseSet info in
      if cs_consensusThreshould info <=? Z.of_nat (size set) then delete channelId m
      else <[channelId := mkSyncInfo (cs_drive info) set (cs_consensusThreshould info)
                            (cs_syncTimeoutTimer info)]> m
  end.

(** The threshold that [asyncAddDownloadChannelInfo] passes. *)
Definition consensusThreshould (allReplicators : list Z) : Z :=
  Z.min (u64 (Z.of_nat (length allReplicators) * 3) / 2) 4.

(** ** Answering *)

Section Exchange.
  (** [crypto::Sign] with the key of this replicator, [crypto::Verify], and the
      archive of a response. *)
  Context (sign : list Z -> Z) (verify : Z -> list Z -> Z -> bool).
  Context (encodeSync : Z -> Z -> list RcptMessage -> list Z)
          (decodeSync : list Z -> option (Z * Z * list RcptMessage)).

(** The receipts of a channel in the order of the two maps. *)
Definition channelReceipts (ch : DownloadChannelInfo) : list RcptMessage :=
  flat_map sorted_values (sorted_values (m_clientReceiptMap ch)).

(** [createSyncRcpts]: its result, what is written and the signature. *)
Definition createSyncRcpts (driveIsKnown : bool) (channelId : Z) (s : DownloadLimiter) : bool * list Z * Z :=
  if driveIsKnown then
    match dl_dnChannelMap s !! channelId with
    | Some ch =>
        let str := encodeSync (dl_publicKey s) channelId (channelReceipts ch) in
        (true, str, sign str)
    | None => (true, [], 0)
    end
  else (false, encodeSync (dl_publicKey s) channelId [], 0).

(** The query ["get_dn_rcpts"] of [on_dht_request]: the fields ["ret"] and ["sign"]
    of the response, if any.  [knownDrive] looks the drive up. *)
Definition onGetDnRcpts (knownDrive : Z -> bool) (x sig : list Z) (s : DownloadLimiter) : option (list Z * list Z) :=
  if negb (length sig =? 64)%nat then None
  else if negb (length x =? 32 + 32 + 32)%nat then None
  else
    let senderKey := of_be (slice 0 32 x) in
    let driveKey := of_be (slice 32 32 x) in
    let channelId := of_be (slice 64 32 x) in
    if negb (verify senderKey x (of_be sig)) then None
    else
      let '(ok, ret, responseSignature) := createSyncRcpts (knownDrive driveKey) channelId s in
      if (ok : bool) then Some (ret, be_bytes 64 responseSignature) else None.

(** ** Receiving the answer *)

(** The loop of [onSyncRcptReceived]: it ends at the first receipt of a wrong size. *)
Fixpoint acceptAll (rands : list (list nat)) (msgs : list RcptMessage) (s : DownloadLimiter)
    : Outcome (list (Z * RcptMessage) * DownloadLimiter) :=
  match msgs with
  | [] => Ret ([], s)
  | msg :: msgs' =>
      if negb (isValidSize msg) then Ret ([], s)
      else
        '(sent1, s1) ← acceptReceiptFromAnotherReplicator verify (hd [] rands) msg s;
        '(sent2, s2) ← acceptAll (tl rands) msgs' s1;
        Ret (sent1 ++ sent2, s2)
  end.

(** [onSyncRcptReceived]: the receipts passed on, the synchronizer and the limiter. *)
Definition onSyncRcptReceived (rands : list (list nat)) (response sig : list Z) (m : SyncChannelMap)
    (s : DownloadLimiter) : Outcome (list (Z * RcptMessage) * SyncChannelMap * DownloadLimiter) :=
  match decodeSync response with
  | None => Ret ([], m, s)
  | Some (otherReplicatorKey, channelId, msgs) =>
      if negb (length sig =? 64)%nat then Ret ([], m, s)
      else if negb (verify otherReplicatorKey response (of_be sig)) then Ret ([], m, s)
      else
        '(sent, s') ← acceptAll rands msgs s;
        Ret (sent, accpeptOpinion channelId otherReplicatorKey m, s')
  end.

End Exchange.
