(* ===== verification/RcptSyncSpec.v ===== *)
(** * Properties of the synchronization of receipts

    One exchange merges the receipts of two replicators: of every pair of a
    replicator and a client the larger receipt is kept.  The examples at the end show
    what the synchronizer does with several channels, with few replicators, and with
    a receipt of size zero. *)

From S2P Require Import Prelude RcptMessage DownloadChannels DownloadChannelsSpec RcptSync.

(** ** The largest of some sizes *)





(** ** Receipts held and offered *)

(** The size of the saved receipt of a replicator and a client. *)
Definition saved_size (s : DownloadLimiter) (c rk ck : Z) : Z :=
  match dl_dnChannelMap s !! c with
  | Some ch => msg_downloadedSize (saved_receipt (m_clientReceiptMap ch) rk ck)
  | None => 0
  end.




Section Exchange.
  Context (verify : Z -> list Z -> Z -> bool).





End Exchange.

(** ** A whole exchange *)

Section Merge.
  Context (verify : Z -> list Z -> Z -> bool) (signA signB : list Z -> Z).
  Context (encodeSync : Z -> Z -> list RcptMessage -> list Z)
          (decodeSync : list Z -> option (Z * Z * list RcptMessage)).
  Context (decode_encode : forall k c msgs, decodeSync (encodeSync k c msgs) = Some (k, c, msgs))
          (signA_sig : forall x, is_sig (signA x)) (signB_sig : forall x, is_sig (signB x)).






End Merge.

(** ** Instances *)

(** An archive, and signatures that are always right. *)
Definition sampleEncode (k c : Z) (msgs : list RcptMessage) : list Z := [Zpos (encode (k, c, msgs))].
Definition sampleDecode (bytes : list Z) : option (Z * Z * list RcptMessage) :=
  match bytes with [Zpos p] => decode p | _ => None end.


Definition anyVerify : Z -> list Z -> Z -> bool := fun _ _ _ => true.
Definition zeroSign : list Z -> Z := fun _ => 0.

Definition asker : DownloadLimiter := mkLimiter 3 {[9 := sampleChannel]} ∅ (1024 * 1024) ∅ false false.




(** ** Where the synchronization does not do what it is for *)

(** A channel that was added to be synchronized is refused for ever: nothing resets
    [m_isSynchronizing], not even the answers of all replicators. *)
Example synchronized_channel_is_refused :
  let added := insertChannelInfo 9 100 50 [1; 2; 3] [7] true 0 (mkLimiter 3 ∅ ∅ 1000 ∅ false false) in
  let started := startSync 3 (fun _ => [1; 2; 4; 5]) 9 50 (consensusThreshould [1; 2; 4; 5]) ∅ in
  let answered := foldl (fun m k => accpeptOpinion 9 k m) started.2 [1; 2; 4; 5] in
  answered = ∅ /\
  match acceptAll anyVerify [] [sampleReceipt 3 60] added with
  | Ret (_, s) => (checkDownloadLimit 7 9 s).1 = (false, Some sirius_no_channel)
  | Stop _ => False
  end.
Proof. split; vm_compute; reflexivity. Qed.

(** Two or three other replicators cannot reach the threshold: all of them have
    answered, and the channel is still waiting. *)
Example few_replicators_never_finish :
  consensusThreshould [1; 2] = 3 /\ consensusThreshould [1; 2; 4] = 4 /\
  let started := startSync 3 (fun _ => [1; 2]) 9 50 (consensusThreshould [1; 2]) ∅ in
  (foldl (fun m k => accpeptOpinion 9 k m) started.2 [1; 2]) !! 9 =
    Some (mkSyncInfo (LiveDrive 50) {[1; 2]} 3 Pending).
Proof. split; [reflexivity|]. split; [reflexivity|]. vm_compute. reflexivity. Qed.

(** While a channel with a greater id is synchronized another one is not: its
    queries are those of the first. *)
Example second_channel_is_not_synchronized :
  let '(out1, m1) := startSync 3 (fun _ => [1]) 9 50 1 ∅ in
  let '(out2, m2) := startSync 3 (fun _ => [1]) 5 50 1 m1 in
  out2 = out1 /\ m2 !! 5 = None.
Proof. vm_compute. split; reflexivity. Qed.

(** The queries are repeated once: the callback cancels the timer it starts. *)
Example queries_are_repeated_once :
  let '(_, m1) := startSync 3 (fun _ => [1; 2]) 9 50 3 ∅ in
  let '(out2, m2) := syncTimerExpired 3 (fun _ => [1; 2]) 9 m1 in
  let '(out3, m3) := syncTimerExpired 3 (fun _ => [1; 2]) 9 m2 in
  length out2 = 2%nat /\ out3 = [] /\ m3 = m2.
Proof. vm_compute. split_and!; reflexivity. Qed.

(** A receipt of size zero is saved as an empty message, at which the reader of an
    answer stops: the receipts behind it are lost. *)
Example empty_receipt_hides_the_others :
  match acceptAll anyVerify [] [sampleReceipt 2 60; sampleReceipt 1 0] sampleLimiter with
  | Ret (_, sA) =>
      saved_size sA 9 2 7 = 60 /\
      match createSyncRcpts zeroSign sampleEncode true 9 sA with
      | (_, ret, _) =>
          match onSyncRcptReceived anyVerify sampleDecode [] ret (be_bytes 64 0) ∅ asker with
          | Ret (_, _, sB) => saved_size sB 9 2 7 = 0
          | Stop _ => False
          end
      end
  | Stop _ => False
  end.
Proof. vm_compute. split; reflexivity. Qed.
