(* ===== verification/Replicator.v ===== *)
(** * The replicator ([src/drive/Replicator.cpp])

    A replicator keeps its drives by their keys, the download channels, and the
    synchronization of their receipts.  Every transaction, request and message comes
    in here and is passed to the drive or the channel that it names; the handlers run
    on the session thread.

    - A drive is a [DriveNode]: the queue of [FlatDrive] with the verification that
      runs beside it, the owner and the lists of replicators.  The limiter of
      [DownloadChannels] sees the drives through [driveView]; its own [dl_driveMap] is
      not used here.
    - Archives and signatures are parameters: a decoder returns [None] when reading
      throws, and a message of a verification comes with its signature.
    - A message of an event handler ([ReplicatorEventHandler]) or to another
      replicator is an output. *)

From S2P Require Import Prelude RcptMessage DownloadChannels DownloadApproval ModifyOpinion ModifyApproval ActionList Verification FlatDrive RcptSync.

(** ** Drives *)

Record DriveNode (T : Type) := mkNode {
  nd_drive : DefaultFlatDrive T;
  nd_driveOwner : Z;
  nd_rootHash : Z;
  nd_allReplicators : list Z;
  nd_modifyDonatorShard : list Z;
  nd_modifyRecipientShard : list Z;
  nd_verification : option (VerificationRequest * VerificationTask) }.

#[global] Arguments mkNode {T}.
#[global] Arguments nd_drive {T} _.
#[global] Arguments nd_driveOwner {T} _.
#[global] Arguments nd_rootHash {T} _.
#[global] Arguments nd_allReplicators {T} _.
#[global] Arguments nd_modifyDonatorShard {T} _.
#[global] Arguments nd_modifyRecipientShard {T} _.
#[global] Arguments nd_verification {T} _.

Section NodeFields.
  Context {T : Type}.
Definition set_node_drive (v : DefaultFlatDrive T) (n : DriveNode T) : DriveNode T :=
  mkNode v (nd_driveOwner n) (nd_rootHash n) (nd_allReplicators n) (nd_modifyDonatorShard n)
    (nd_modifyRecipientShard n) (nd_verification n).
Definition set_node_rootHash (v : Z) (n : DriveNode T) : DriveNode T :=
  mkNode (nd_drive n) (nd_driveOwner n) v (nd_allReplicators n) (nd_modifyDonatorShard n)
    (nd_modifyRecipientShard n) (nd_verification n).
Definition set_node_verification (v : option (VerificationRequest * VerificationTask)) (n : DriveNode T) : DriveNode T :=
  mkNode (nd_drive n) (nd_driveOwner n) (nd_rootHash n) (nd_allReplicators n) (nd_modifyDonatorShard n)
    (nd_modifyRecipientShard n) v.

(** [setReplicators], [setShardDonator], [setShardRecipient]; a replicator of a shard
    that is not one of the drive is an error. *)
Definition setReplicators (v : list Z) (n : DriveNode T) : DriveNode T :=
  mkNode (nd_drive n) (nd_driveOwner n) (nd_rootHash n) v (nd_modifyDonatorShard n)
    (nd_modifyRecipientShard n) (nd_verification n).
Definition allKnown (v : list Z) (n : DriveNode T) : bool :=
  forallb (fun k => bool_decide (k ∈ nd_allReplicators n)) v.
Definition setShardDonator (v : list Z) (n : DriveNode T) : Outcome (DriveNode T) :=
  let n' := mkNode (nd_drive n) (nd_driveOwner n) (nd_rootHash n) (nd_allReplicators n) v
              (nd_modifyRecipientShard n) (nd_verification n) in
  if allKnown v n then Ret n' else log_err (Ret n').
Definition setShardRecipient (v : list Z) (n : DriveNode T) : Outcome (DriveNode T) :=
  let n' := mkNode (nd_drive n) (nd_driveOwner n) (nd_rootHash n) (nd_allReplicators n) (nd_modifyDonatorShard n)
              v (nd_verification n) in
  if allKnown v n then Ret n' else log_err (Ret n').
End NodeFields.

(** What comes out of a drive: its queue and its verification. *)
Inductive NodeOutput :=
  | FromDrive (o : DriveOutput)
  | FromVerification (o : VerifyOutput).

Section Node.
  Context {T : Type} `{DriveTask T}.
  (** The key of this replicator, its delay for verification codes, and [terminate]
      of the tasks. *)
  Context (ourKey verifyCodeTimerDelay : Z) (task_terminate : T -> T).
  Context (driveKey : Z).
  Notation Node := (DriveNode T).
  Notation NodeResult := (Outcome (list NodeOutput * Node)).

(** The verification tasks that a step of the drive creates. *)
Fixpoint createVerifications (out : list DriveOutput) (v : option (VerificationRequest * VerificationTask))
    : Outcome (option (VerificationRequest * VerificationTask)) :=
  match out with
  | [] => Ret v
  | VerificationStarted request opinions codes :: out' =>
      t ← createVerificationTask request ourKey driveKey true verifyCodeTimerDelay opinions codes;
      createVerifications out' (Some (request, t))
  | _ :: out' => createVerifications out' v
  end.

(** A step of the queue, with the verification it starts or releases. *)
Definition onDrive (f : DefaultFlatDrive T -> Outcome (list DriveOutput * DefaultFlatDrive T)) (n : Node) : NodeResult :=
  '(out, d) ← f (nd_drive n);
  v ← createVerifications out (if fd_verificationTask d then nd_verification n else None);
  Ret (map FromDrive out, set_node_verification v (set_node_drive d n)).

(** [onVerifyApprovalTransactionHasBeenPublished], and [cancelVerification]. *)
Definition onCancelVerification (n : Node) : NodeResult :=
  onDrive (fun d => Ret ([], cancelVerification d)) n.

(** [onVerificationOpinionReceived]. *)
Definition onVerificationOpinionReceived (info : VerifyApprovalTxInfo) (n : Node) : NodeResult :=
  let keep n := Ret ([], set_node_drive (keepVerificationOpinion info (nd_drive n)) n) in
  match nd_verification n with
  | None => keep n
  | Some (request, t) =>
      '(ok, t') ← processedVerificationOpinion request true info t;
      let n' := set_node_verification (Some (request, t')) n in
      if (ok : bool) then Ret ([], n') else keep n'
  end.

(** [onVerificationCodeReceived]; [ms] is the time since the verification started. *)
Definition onVerificationCodeReceived (ms : Z) (info : VerificationCodeInfo) (n : Node) : NodeResult :=
  let keep n := Ret ([], set_node_drive (keepVerificationCode info (nd_drive n)) n) in
  match nd_verification n with
  | None => keep n
  | Some (request, t) =>
      '(ok, out, t') ← processedVerificationCode request ourKey driveKey true verifyCodeTimerDelay ms info t;
      let n' := set_node_verification (Some (request, t')) n in
      if (ok : bool) then Ret (map FromVerification out, n') else keep n'
  end.

(** [FlatDrive::terminate]. *)
Definition terminateNode (n : Node) : Node :=
  set_node_verification None
    (set_node_drive (set_verificationTask None (set_task (task_terminate <$> fd_task (nd_drive n)) (nd_drive n))) n).

(** The drive as the limiter sees it. *)
Definition driveView (n : Node) : DriveView :=
  mkDriveView (nd_driveOwner n) (nd_rootHash n) (fd_blockedReplicators (nd_drive n))
    (bool_decide (getTaskType <$> fd_task (nd_drive n) = Some MODIFICATION_REQUEST))
    (length (fd_deferredModificationRequests (nd_drive n))) (nd_modifyRecipientShard n)
    (fd_modifyTraffic (nd_drive n)).
Definition set_node_traffic (m : gmap Z ModifyTraffic) (n : Node) : Node :=
  set_node_drive (set_modifyTraffic m (nd_drive n)) n.

(** [getDriveStatus]: the type of the task that runs, and whether the modification
    is among the deferred ones (streams are not looked at). *)
Definition getDriveStatus (interectedTaskTx : Z) (d : DefaultFlatDrive T) : option DriveTaskType * bool :=
  (getTaskType <$> fd_task d,
   existsb (fun r => match r with DeferredModification h _ => h =? interectedTaskTx | _ => false end)
     (fd_deferredModificationRequests d)).

End Node.

(** ** The replicator *)

Record AddDriveRequest := mkAddDrive {
  ad_driveSize : Z;
  ad_expectedCumulativeDownloadSize : Z;
  ad_completedModifications : list (Z * bool);
  ad_fullReplicatorList : list Z;
  ad_client : Z;
  ad_modifyDonatorShard : list Z;
  ad_modifyRecipientShard : list Z }.

(** The loop that takes the first occurrence of a key out of a list. *)
Fixpoint eraseKey (key : Z) (l : list Z) : list Z :=
  match l with
  | [] => []
  | k :: l' => if decide (k = key) then l' else k :: eraseKey key l'
  end.

Inductive ReplicatorOutput :=
  | DriveOut (driveKey : Z) (o : NodeOutput)
  | ChannelOut (o : ApprovalOutput)
  | ReceiptOut (to : Z) (msg : RcptMessage)
  | SyncOut (to : Z) (query : list Z)
  | ModifyOpinionHasBeenReceived (info : ApprovalTransactionInfo)
  | AnsweredEmpty (driveKey request : Z)
  | SandboxRequestOf (driveKey request : Z).

Record DefaultReplicator (T : Type) := mkReplicator {
  rp_limiter : DownloadLimiter;
  rp_driveMap : gmap Z (DriveNode T);
  rp_synchronizer : SyncChannelMap }.

#[global] Arguments mkReplicator {T}.
#[global] Arguments rp_limiter {T} _.
#[global] Arguments rp_driveMap {T} _.
#[global] Arguments rp_synchronizer {T} _.

(** The archives of the messages. *)
Record Archives := mkArchives {
  decodeOpinion : list Z -> option ApprovalTransactionInfo;
  decodeDownloadOpinion : list Z -> option DownloadApprovalTransactionInfo;
  decodeCode : list Z -> option (VerificationCodeInfo * Z);
  decodeVerifyOpinion : list Z -> option (VerifyApprovalTxInfo * Z);
  encodeSync : Z -> Z -> list RcptMessage -> list Z;
  decodeSync : list Z -> option (Z * Z * list RcptMessage) }.

(** The signatures: of raw bytes, of a verification code, of an opinion about a
    verification (with its transaction, drive and shard). *)
Record Signatures := mkSignatures {
  verifyBytes : Z -> list Z -> Z -> bool;
  signBytes : list Z -> Z;
  signLayout : Z -> Z -> list (Z * Z) -> Z;
  verifyCode : VerificationCodeInfo -> Z -> bool;
  verifyVerifyOpinion : Z -> Z -> Z -> VerifyOpinion -> Z -> bool }.

Section Replicator.
  Context {T : Type} `{DriveTask T}.
  Context (task_terminate : T -> T) (sg : Signatures) (ar : Archives)
          (minReplicators : nat) (verifyCodeTimerDelay : Z).
  Notation Node := (DriveNode T).
  Notation Replicator := (DefaultReplicator T).
  Notation Result := (Outcome (list ReplicatorOutput * Replicator)).

Definition set_limiter (v : DownloadLimiter) (r : Replicator) : Replicator :=
  mkReplicator v (rp_driveMap r) (rp_synchronizer r).
Definition set_driveMap (v : gmap Z Node) (r : Replicator) : Replicator :=
  mkReplicator (rp_limiter r) v (rp_synchronizer r).
Definition set_synchronizer (v : SyncChannelMap) (r : Replicator) : Replicator :=
  mkReplicator (rp_limiter r) (rp_driveMap r) v.

Definition publicKey (r : Replicator) : Z := dl_publicKey (rp_limiter r).
Definition isStopped (r : Replicator) : bool := dl_isDestructing (rp_limiter r).

(** [if ( m_isDestructing ) return;]. *)
Definition unlessStopped (k : Replicator -> Result) (r : Replicator) : Result :=
  if isStopped r then Ret ([], r) else k r.

(** A handler of the drive with the key, and what is done when there is none. *)
Definition withDriveOr (unknown : Result) (driveKey : Z) (f : Node -> Outcome (list NodeOutput * Node))
    (r : Replicator) : Result :=
  match rp_driveMap r !! driveKey with
  | None => unknown
  | Some n =>
      '(out, n') ← f n;
      Ret (map (DriveOut driveKey) out, set_driveMap (<[driveKey := n']> (rp_driveMap r)) r)
  end.

(** An unknown drive is passed over ([_LOG], [_LOG_WARN]), or an error ([_LOG_ERR]). *)
Definition withDrive (driveKey : Z) (f : Node -> Outcome (list NodeOutput * Node)) (r : Replicator) : Result :=
  withDriveOr (Ret ([], r)) driveKey f r.
Definition withKnownDrive (driveKey : Z) (f : Node -> Outcome (list NodeOutput * Node)) (r : Replicator) : Result :=
  withDriveOr (log_err (Ret ([], r))) driveKey f r.

Notation onDrive_ r driveKey := (onDrive (publicKey r) verifyCodeTimerDelay driveKey).

(** A step of the queue of a drive. *)
Definition driveStep (driveKey : Z) (f : DefaultFlatDrive T -> Outcome (list DriveOutput * DefaultFlatDrive T))
    (r : Replicator) : Result :=
  withDrive driveKey (onDrive_ r driveKey f) r.
Definition knownDriveStep (driveKey : Z) (f : DefaultFlatDrive T -> Outcome (list DriveOutput * DefaultFlatDrive T))
    (r : Replicator) : Result :=
  withKnownDrive driveKey (onDrive_ r driveKey f) r.

(** [createDefaultFlatDrive]: the constructor runs the initialization. *)
Definition newDrive (client expectedCumulativeDownload : Z) : DefaultFlatDrive T :=
  mkDrive None None None None None [] None None None [] 0 ∅ ∅ ∅
    (mkController client expectedCumulativeDownload (mkCumulative 0 ∅) (mkCumulative 0 ∅)) ∅ [].

(** [asyncAddDrive]; a drive that was added already is an error. *)
Definition asyncAddDrive (driveKey : Z) (request : AddDriveRequest) : Replicator -> Result :=
  unlessStopped (fun r =>
    match rp_driveMap r !! driveKey with
    | Some _ => log_err (Ret ([], r))
    | None =>
        let n := mkNode (newDrive (ad_client request) (ad_expectedCumulativeDownloadSize request))
                   (ad_client request) 0 (eraseKey (publicKey r) (ad_fullReplicatorList request))
                   (ad_modifyDonatorShard request) (ad_modifyRecipientShard request) None in
        '(out, n') ← onDrive_ r driveKey (runDriveInitializationTask (ad_completedModifications request)) n;
        Ret (map (DriveOut driveKey) out, set_driveMap (<[driveKey := n']> (rp_driveMap r)) r)
    end).

(** [asyncRemoveDrive] and [asyncCloseDrive]. *)
Definition asyncRemoveDrive (driveKey : Z) : Replicator -> Result :=
  unlessStopped (knownDriveStep driveKey (startDriveClosing false None)).
Definition asyncCloseDrive (driveKey transactionHash : Z) : Replicator -> Result :=
  unlessStopped (knownDriveStep driveKey (startDriveClosing false (Some transactionHash))).

(** The destructor of [DefaultFlatDrive] answers the requests that wait. *)
Definition destroyDrive (driveKey : Z) (d : DefaultFlatDrive T) : list ReplicatorOutput :=
  match fd_synchronizationRequest d with
  | Some request => [AnsweredEmpty driveKey (sy_modificationIdentifier request)]
  | None => []
  end ++
  match fd_deferredManualModificationRequest d with
  | Some request => [AnsweredEmpty driveKey request]
  | None => []
  end.

(** [finishDriveClosure].  When the synchronizer holds the drive, the destructor runs
    only after the synchronization; here its answers come at once. *)
Definition finishDriveClosure (driveKey : Z) (r : Replicator) : Result :=
  match rp_driveMap r !! driveKey with
  | None => Stop AssertFailure
  | Some n =>
      let release (info : ChannelSyncInfo) :=
        match cs_drive info with
        | LiveDrive k =>
            if decide (k = driveKey)
            then mkSyncInfo (ClosedDrive k (nd_allReplicators n)) (cs_responseSet info)
                   (cs_consensusThreshould info) (cs_syncTimeoutTimer info)
            else info
        | ClosedDrive _ _ => info
        end in
      Ret (destroyDrive driveKey (nd_drive n),
           mkReplicator (rp_limiter r) (delete driveKey (rp_driveMap r)) (release <$> rp_synchronizer r))
  end.

(** The lists of replicators; these handlers do not look at [m_isDestructing]. *)
Definition asyncSetReplicators (driveKey : Z) (replicatorKeys : list Z) (r : Replicator) : Result :=
  withKnownDrive driveKey (fun n => Ret ([], setReplicators (eraseKey (publicKey r) replicatorKeys) n)) r.
Definition asyncSetShardDonator (driveKey : Z) (replicatorKeys : list Z) (r : Replicator) : Result :=
  withKnownDrive driveKey (fun n => n' ← setShardDonator replicatorKeys n; Ret ([], n')) r.
Definition asyncSetShardRecipient (driveKey : Z) (replicatorKeys : list Z) (r : Replicator) : Result :=
  withKnownDrive driveKey (fun n => n' ← setShardRecipient replicatorKeys n; Ret ([], n')) r.

(** Modifications and streams. *)
Definition asyncModify (driveKey transactionHash maxDataSize : Z) : Replicator -> Result :=
  unlessStopped (driveStep driveKey (startModifyDrive false transactionHash maxDataSize)).
Definition asyncCancelModify (driveKey transactionHash : Z) : Replicator -> Result :=
  unlessStopped (driveStep driveKey (cancelModifyDrive transactionHash)).
Definition asyncStartStream (driveKey streamId maxSizeBytes : Z) : Replicator -> Result :=
  unlessStopped (driveStep driveKey (startStream false streamId maxSizeBytes)).

(** Verification. *)
Definition asyncStartDriveVerification (driveKey : Z) (request : VerificationRequest) (blocked : list Z)
    : Replicator -> Result :=
  unlessStopped (driveStep driveKey (startVerification request blocked)).
Definition asyncCancelDriveVerification (driveKey : Z) : Replicator -> Result :=
  unlessStopped (fun r => withDrive driveKey (onCancelVerification (publicKey r) verifyCodeTimerDelay driveKey) r).
Definition asyncVerifyApprovalTransactionHasBeenPublished (driveKey : Z) : Replicator -> Result :=
  unlessStopped (fun r => withKnownDrive driveKey (onCancelVerification (publicKey r) verifyCodeTimerDelay driveKey) r).

(** Transactions about modifications; the publication of a single approval changes nothing. *)
Definition asyncSingleApprovalTransactionHasBeenPublished (driveKey : Z) : Replicator -> Result :=
  unlessStopped (withKnownDrive driveKey (fun n => Ret ([], n))).
Definition asyncOnOpinionReceived (anOpinion : ApprovalTransactionInfo) : Replicator -> Result :=
  unlessStopped (knownDriveStep (ai_driveKey anOpinion) (onOpinionReceived anOpinion)).
Definition asyncApprovalTransactionHasBeenPublished (tx : PublishedApproval) : Replicator -> Result :=
  unlessStopped (knownDriveStep (pa_driveKey tx) (onApprovalTransactionHasBeenPublished false tx)).
Definition asyncApprovalTransactionHasFailedInvalidOpinions (driveKey transactionHash : Z) : Replicator -> Result :=
  unlessStopped (knownDriveStep driveKey
    (fun d => Ret ([], onApprovalTransactionHasFailedInvalidOpinions transactionHash d))).

(** [runNextTask] of a drive whose task has finished. *)
Definition driveTaskFinished (driveKey : Z) (r : Replicator) : Result :=
  driveStep driveKey (runNextTask (isStopped r)) r.

(** ** Download channels *)

Definition channels (f : DownloadLimiter -> Outcome (list ApprovalOutput * DownloadLimiter)) (r : Replicator) : Result :=
  '(out, l) ← f (rp_limiter r); Ret (map ChannelOut out, set_limiter l r).

(** [asyncAddDownloadChannelInfo]; [now] is the time. *)
Definition asyncAddDownloadChannelInfo (driveKey channelKey prepaidDownloadSize : Z) (replicators clients : list Z)
    (mustBeSyncronized : bool) (now : Z) : Replicator -> Result :=
  unlessStopped (fun r =>
    l ← addChannelInfo channelKey prepaidDownloadSize driveKey replicators clients mustBeSyncronized now (rp_limiter r);
    let r1 := set_limiter l r in
    if mustBeSyncronized then
      match rp_driveMap r !! driveKey with
      | None => Ret ([], r1)
      | Some n =>
          let '(out, m) := startSync (publicKey r)
                             (fun k => default [] (nd_allReplicators <$> (rp_driveMap r !! k)))
                             channelKey driveKey (consensusThreshould (nd_allReplicators n)) (rp_synchronizer r) in
          Ret (map (fun p => SyncOut p.1 p.2) out, set_synchronizer m r1)
      end
    else Ret ([], r1)).

(** The timer of the synchronizer. *)
Definition synchronizerTimer (channelId : Z) (r : Replicator) : Result :=
  let '(out, m) := syncTimerExpired (publicKey r) (fun k => default [] (nd_allReplicators <$> (rp_driveMap r !! k)))
                     channelId (rp_synchronizer r) in
  Ret (map (fun p => SyncOut p.1 p.2) out, set_synchronizer m r).

Definition asyncIncreaseDownloadChannelSize (channelId size : Z) (r : Replicator) : Result :=
  l ← increaseChannelSize channelId size (rp_limiter r); Ret ([], set_limiter l r).
Definition asyncRemoveDownloadChannelInfo (channelId : Z) (r : Replicator) : Result :=
  Ret ([], set_limiter (removeChannelInfo channelId (rp_limiter r)) r).
Definition asyncSetChanelShard (channelId : Z) (replicatorKeys : list Z) (r : Replicator) : Result :=
  l ← setChanelShard channelId replicatorKeys (rp_limiter r); Ret ([], set_limiter l r).

(** The opinions about downloads, with the expiries of their two timers. *)
Definition asyncOnDownloadOpinionReceived (now : Z) (anOpinion : DownloadApprovalTransactionInfo) : Replicator -> Result :=
  channels (fun l => l' ← onDownloadOpinionReceived minReplicators now anOpinion l; Ret ([], l')).
Definition asyncInitiateDownloadApproval (now blockHash channelId : Z) : Replicator -> Result :=
  channels (initiateDownloadApproval (signLayout sg) minReplicators now blockHash channelId).
Definition asyncDownloadApprovalHasFailed (eventHash channelId : Z) : Replicator -> Result :=
  channels (approvalHasFailed eventHash channelId).
Definition asyncDownloadApprovalHasBeenPublished (eventHash channelId : Z) (channelMustBeClosed : bool)
    : Replicator -> Result :=
  channels (fun l => l' ← approvalHasBeenPublished eventHash channelId channelMustBeClosed l; Ret ([], l')).
Definition downloadApprovalTimer (channelId blockHash : Z) : Replicator -> Result :=
  channels (onDownloadApprovalTimeExpired channelId blockHash).
Definition downloadOpinionShareTimer (channelId blockHash : Z) : Replicator -> Result :=
  channels (shareDownloadOpinion channelId blockHash).

(** [closeDriveChannels], which the closing task calls. *)
Definition driveChannelsClosed (now blockHash driveKey : Z) : Replicator -> Result :=
  channels (closeDriveChannels (signLayout sg) minReplicators now blockHash driveKey).

(** The pieces of the session: the traffic of a drive is kept by the drive. *)
Definition limiterView (r : Replicator) : DownloadLimiter :=
  set_drives (driveView <$> rp_driveMap r) (rp_limiter r).
Definition putTraffic (l : DownloadLimiter) (r : Replicator) : Replicator :=
  mkReplicator (set_drives (dl_driveMap (rp_limiter r)) l)
    (map_imap (fun k n => Some (match dl_driveMap l !! k with
                                | Some v => set_node_traffic (dv_modifyTrafficMap v) n
                                | None => n
                                end)) (rp_driveMap r))
    (rp_synchronizer r).
Definition pieceRequested (driveKey receiverPublicKey pieceSize : Z) (r : Replicator) : bool * Replicator :=
  let '(ok, l) := onPieceRequestReceivedFromReplicator driveKey receiverPublicKey pieceSize (limiterView r) in
  (ok, putTraffic l r).
Definition pieceReceived (driveKey senderPublicKey pieceSize : Z) (r : Replicator) : Replicator :=
  putTraffic (onPieceReceived driveKey senderPublicKey pieceSize (limiterView r)) r.
Definition pieceSent (txHash receiverPublicKey pieceSize : Z) (r : Replicator) : Replicator :=
  set_limiter (onPieceSent txHash receiverPublicKey pieceSize (rp_limiter r)) r.

(** ** Messages *)

(** [processVerificationCode] and [processVerificationOpinion]. *)
Definition processVerificationCode (ms : Z) (info : VerificationCodeInfo) (signature : Z) (r : Replicator) : Result :=
  if negb (verifyCode sg info signature) then Ret ([], r)
  else withDrive (vc_driveKey info)
         (onVerificationCodeReceived (publicKey r) verifyCodeTimerDelay (vc_driveKey info) ms info) r.

Definition processVerificationOpinion (info : VerifyApprovalTxInfo) (signature : Z) (r : Replicator) : Result :=
  match va_opinions info with
  | [o] =>
      if negb (verifyVerifyOpinion sg (va_tx info) (va_driveKey info) (va_shardId info) o signature) then Ret ([], r)
      else withDrive (va_driveKey info) (onVerificationOpinionReceived info) r
  | _ => Ret ([], r)
  end.

(** [onMessageReceived], but the messages about addresses, which are in Endpoints, and
    those about the chunks of a stream.  An exception of an archive is caught in the
    branch of its message, which drops it ([_LOG_WARN] at most); the outer handler, which
    is an error, is for what the other branches throw. *)
Definition onMessageReceived (ms : Z) (query : string) (message : list Z) (r : Replicator) : Result :=
  if String.eqb query "opinion" then
    match decodeOpinion ar message with
    | Some info => Ret ([ModifyOpinionHasBeenReceived info], r)
    | None => Ret ([], r)
    end
  else if String.eqb query "dn_opinion" then
    match decodeDownloadOpinion ar message with
    | Some info => Ret ([ChannelOut (OpinionHasBeenReceived info)], r)
    | None => Ret ([], r)
    end
  else if String.eqb query "code_verify" then
    match decodeCode ar message with
    | Some (info, signature) => processVerificationCode ms info signature r
    | None => Ret ([], r)
    end
  else if String.eqb query "verify_opinion" then
    match decodeVerifyOpinion ar message with
    | Some (info, signature) => processVerificationOpinion info signature r
    | None => Ret ([], r)
    end
  else Ret ([], r).

(** The fields of a response. *)
Inductive Response :=
  | NotHandled            (* the result is [false] *)
  | NoResponse
  | Ok
  | Receipts (ret sign : list Z).

(** [on_dht_request], but the queries of viewers and about a stream, and those about a
    channel or a modification, which are in StatusQueries. *)
Definition on_dht_request (ms : Z) (rands : list nat) (query : string) (x sign : list Z) (r : Replicator)
    : Outcome (Response * list ReplicatorOutput * Replicator) :=
  if isStopped r then Ret (NotHandled, [], r)
  else if decide (query ∈ ["opinion"; "dn_opinion"; "code_verify"; "verify_opinion"]%string) then
    '(out, r') ← onMessageReceived ms query x r; Ret (Ok, out, r')
  else if String.eqb query "get_dn_rcpts" then
    Ret (match onGetDnRcpts (signBytes sg) (verifyBytes sg) (encodeSync ar)
                 (fun k => bool_decide (is_Some (rp_driveMap r !! k))) x sign (rp_limiter r) with
         | Some (ret, s) => Receipts ret s
         | None => NoResponse
         end, [], r)
  else if String.eqb query "rcpt" then
    '(ok, sent, l) ← onRcptQuery (verifyBytes sg) rands x (rp_limiter r);
    Ret (if (ok : bool) then Ok else NotHandled, map (fun p => ReceiptOut p.1 p.2) sent, set_limiter l r)
  else Ret (NotHandled, [], r).

(** [handleDhtResponse]. *)
Definition handleDhtResponse (rands : list (list nat)) (query : string) (ret sign : list Z) (r : Replicator) : Result :=
  if String.eqb query "get_dn_rcpts" then
    '(sent, m, l) ← onSyncRcptReceived (verifyBytes sg) (decodeSync ar) rands ret sign
                      (rp_synchronizer r) (rp_limiter r);
    Ret (map (fun p => ReceiptOut p.1 p.2) sent, mkReplicator l (rp_driveMap r) m)
  else Ret ([], r).

(** ** The storage server *)

(** [initiateManualModifications] and [manualSynchronize]; a request is its number. *)
Definition rp_initiateManualModifications (driveKey request : Z) : Replicator -> Result :=
  unlessStopped (fun r =>
    match rp_driveMap r !! driveKey with
    | None => Ret ([AnsweredEmpty driveKey request], r)
    | Some _ => driveStep driveKey (initiateManualModifications false request) r
    end).
Definition rp_manualSynchronize (driveKey : Z) (request : SynchronizationRequest) : Replicator -> Result :=
  unlessStopped (fun r =>
    match rp_driveMap r !! driveKey with
    | None => Ret ([AnsweredEmpty driveKey (sy_modificationIdentifier request)], r)
    | Some _ => driveStep driveKey (manualSynchronize false request) r
    end).

(** The other requests, which the drive passes to its task. *)
Definition sandboxRequest (driveKey request : Z) : Replicator -> Result :=
  unlessStopped (fun r =>
    match rp_driveMap r !! driveKey with
    | None => Ret ([AnsweredEmpty driveKey request], r)
    | Some _ => Ret ([SandboxRequestOf driveKey request], r)
    end).

(** ** Start and stop *)

(** [stop]: the drives are terminated and the timers cancelled. *)
Definition stopChannel (ch : DownloadChannelInfo) : DownloadChannelInfo :=
  DownloadChannels.set_opinions ((fun e => set_om_shareTimer false (set_om_timer false e)) <$> m_downloadOpinionMap ch) ch.
Definition stop (r : Replicator) : Replicator :=
  let l := rp_limiter r in
  mkReplicator
    (mkLimiter (dl_publicKey l) (stopChannel <$> dl_dnChannelMap l) (dl_dnChannelMapBackup l)
       (dl_receiptLimit l) (dl_driveMap l) true true)
    (terminateNode task_terminate <$> rp_driveMap r) ∅.

(** [removeUnusedDrives]: the directories to remove, of the entries (name, is a
    directory) in the order of the iterator; a name that is not a key throws. *)
Fixpoint removeUnusedDrives (entries : list (string * bool)) (r : Replicator) : list string :=
  match entries with
  | [] => []
  | (name, false) :: entries' => removeUnusedDrives entries' r
  | (name, true) :: entries' =>
      match stringToByteArray name with
      | None => []
      | Some driveKey =>
          match rp_driveMap r !! driveKey with
          | Some _ => removeUnusedDrives entries' r
          | None => name :: removeUnusedDrives entries' r
          end
      end
  end.

End Replicator.
