(* ===== verification/ReplicatorSpec.v ===== *)
(** * The replicator as the product of its drives

    Everything that reaches a replicator is an event.  [project] is the machine of
    one key: the drive that was added with it, which sees the events [addressed] to it
    and nothing else.  [replicator_refines_drives] shows that a run of the replicator
    is, for every key at once, the run of that machine; what is proved of one drive
    therefore holds of all drives of a replicator. *)

From S2P Require Import Prelude RcptMessage DownloadChannels DownloadApproval ModifyOpinion ModifyApproval Verification VerificationSpec FlatDrive DriveTasks FlatDriveSpec RcptSync Replicator.

(** ** Events *)

Section Events.
  Context {T : Type}.

Inductive ReplicatorEvent :=
  (* transactions and lists of replicators *)
  | RAddDrive (k : Z) (request : AddDriveRequest)
  | RRemoveDrive (k : Z)
  | RCloseDrive (k tx : Z)
  | RSetReplicators (k : Z) (l : list Z)
  | RSetShardDonator (k : Z) (l : list Z)
  | RSetShardRecipient (k : Z) (l : list Z)
  | RModify (k h size : Z)
  | RCancelModify (k h : Z)
  | RStartStream (k h size : Z)
  | RStartVerification (k : Z) (request : VerificationRequest) (blocked : list Z)
  | RCancelVerification (k : Z)
  | RVerificationPublished (k : Z)
  | RSingleApprovalPublished (k : Z)
  | ROpinion (info : ApprovalTransactionInfo)
  | RApprovalPublished (tx : PublishedApproval)
  | RApprovalFailed (k h : Z)
  (* the storage server *)
  | RInitiateManual (k request : Z)
  | RManualSynchronize (k : Z) (request : SynchronizationRequest)
  | RSandbox (k request : Z)
  (* the tasks and the verifications of the drives *)
  | RTaskStep (k : Z) (f : T -> T) (lastApproved : Z) (c : ModifyOpinionController) (rootHash : Z)
  | RTaskFinished (k : Z)
  | RFinishClosure (k : Z)
  | RVerify (k : Z) (ev : VerifyEvent)
  (* download channels *)
  | RAddChannel (k channel size : Z) (replicators clients : list Z) (sync : bool) (now : Z)
  | RIncreaseChannel (channel size : Z)
  | RRemoveChannel (channel : Z)
  | RChannelShard (channel : Z) (l : list Z)
  | RSyncTimer (channel : Z)
  | RPieceRequested (k receiver size : Z)
  | RPieceReceived (k sender size : Z)
  | RPieceSent (channel receiver size : Z)
  | RDownloadOpinion (now : Z) (info : DownloadApprovalTransactionInfo)
  | RDownloadInitiate (now blockHash channel : Z)
  | RDownloadFailed (blockHash channel : Z)
  | RDownloadPublished (blockHash channel : Z) (closed : bool)
  | RDownloadTimer (channel blockHash : Z)
  | RDownloadShareTimer (channel blockHash : Z)
  | RChannelsClosed (now blockHash k : Z)
  (* messages *)
  | RDhtRequest (ms : Z) (rands : list nat) (query : string) (x sign : list Z)
  | RDhtResponse (rands : list (list nat)) (query : string) (ret sign : list Z)
  | RStop.

(** What reaches one drive. *)
Inductive NodeEvent :=
  | NDrive (e : DriveEvent (T := T))
  | NStoppedTaskFinished
  | NRootHash (h : Z)
  | NCancelVerification
  | NVerificationOpinion (info : VerifyApprovalTxInfo)
  | NVerificationCode (ms : Z) (info : VerificationCodeInfo)
  | NVerify (ev : VerifyEvent)
  | NReplicators (l : list Z)
  | NShardDonator (l : list Z)
  | NShardRecipient (l : list Z)
  | NPieceRequested (receiver size : Z)
  | NPieceReceived (sender size : Z)
  | NTerminate.

End Events.
#[global] Arguments ReplicatorEvent T : clear implicits.
#[global] Arguments NodeEvent T : clear implicits.

(** The events of a verification that are not messages. *)
Definition internal (ev : VerifyEvent) : bool :=
  match ev with CodeReceived _ _ | VerifyOpinionReceived _ | CancelVerification => false | _ => true end.

(** The thread computes one code per replicator of the request. *)
Definition computed (request : VerificationRequest) (ev : VerifyEvent) : bool :=
  match ev with
  | CodesCompleted _ codes => (length codes =? length (vr_replicators request))%nat
  | _ => true
  end.

Section Run.
  Context {T : Type} `{DriveTask T}.
  Context (task_terminate : T -> T) (sg : Signatures) (ar : Archives)
          (minReplicators : nat) (verifyCodeTimerDelay : Z).
  Notation Node := (DriveNode T).
  Notation Rep := (DefaultReplicator T).

(** ** One drive *)

Definition bumpTraffic (received : bool) (key size : Z) (n : Node) : Node :=
  let m := fd_modifyTraffic (nd_drive n) in
  let t := default noTraffic (m !! key) in
  set_node_traffic (<[key := if received then mkTraffic (u64_add (m_receivedSize t) size) (m_requestedSize t)
                             else mkTraffic (m_receivedSize t) (u64_add (m_requestedSize t) size)]> m) n.

Definition node_step (ourKey k : Z) (e : NodeEvent T) (n : Node) : Outcome (list NodeOutput * Node) :=
  match e with
  | NDrive e => onDrive ourKey verifyCodeTimerDelay k (FlatDriveSpec.handle e) n
  | NStoppedTaskFinished => onDrive ourKey verifyCodeTimerDelay k (runNextTask true) n
  | NRootHash h => Ret ([], set_node_rootHash h n)
  | NCancelVerification => onCancelVerification ourKey verifyCodeTimerDelay k n
  | NVerificationOpinion info => onVerificationOpinionReceived info n
  | NVerificationCode ms info => onVerificationCodeReceived ourKey verifyCodeTimerDelay k ms info n
  | NVerify ev =>
      match nd_verification n with
      | Some (request, t) =>
          if computed request ev then
            '(out, t') ← verify_step request ourKey k true verifyCodeTimerDelay ev t;
            Ret (map FromVerification out, set_node_verification (Some (request, t')) n)
          else Ret ([], n)
      | None => Ret ([], n)
      end
  | NReplicators l => Ret ([], setReplicators (eraseKey ourKey l) n)
  | NShardDonator l => n' ← setShardDonator l n; Ret ([], n')
  | NShardRecipient l => n' ← setShardRecipient l n; Ret ([], n')
  | NPieceRequested key size => Ret ([], bumpTraffic false key size n)
  | NPieceReceived key size => Ret ([], bumpTraffic true key size n)
  | NTerminate => Ret ([], terminateNode task_terminate n)
  end.

Fixpoint node_steps (ourKey k : Z) (es : list (NodeEvent T)) (n : Node) : Outcome (list NodeOutput * Node) :=
  match es with
  | [] => Ret ([], n)
  | e :: es' =>
      '(out1, n1) ← node_step ourKey k e n;
      '(out2, n2) ← node_steps ourKey k es' n1;
      Ret (out1 ++ out2, n2)
  end.

(** A drive that is added. *)
Definition new_node (ourKey k : Z) (request : AddDriveRequest) : Outcome (list NodeOutput * Node) :=
  onDrive ourKey verifyCodeTimerDelay k (runDriveInitializationTask (ad_completedModifications request))
    (mkNode (newDrive (ad_client request) (ad_expectedCumulativeDownloadSize request)) (ad_client request) 0
       (eraseKey ourKey (ad_fullReplicatorList request)) (ad_modifyDonatorShard request)
       (ad_modifyRecipientShard request) None).

(** ** What an event is for a drive *)

Definition for_key {A} (k k' : Z) (l : list A) : list A := if decide (k' = k) then l else [].

(** Of a message, when it passes the checks: the drive it is for, and the event. *)
Definition message_for (ms : Z) (query : string) (x : list Z) : option (Z * NodeEvent T) :=
  if String.eqb query "code_verify" then
    '(info, s) ← decodeCode ar x;
    if verifyCode sg info s then Some (vc_driveKey info, NVerificationCode ms info) else None
  else if String.eqb query "verify_opinion" then
    '(info, s) ← decodeVerifyOpinion ar x;
    match va_opinions info with
    | [o] => if verifyVerifyOpinion sg (va_tx info) (va_driveKey info) (va_shardId info) o s
             then Some (va_driveKey info, NVerificationOpinion info) else None
    | _ => None
    end
  else None.

Definition addressed (stopped : bool) (k : Z) (e : ReplicatorEvent T) : list (NodeEvent T) :=
  match e with
  | RSetReplicators k' l => for_key k k' [NReplicators l]
  | RSetShardDonator k' l => for_key k k' [NShardDonator l]
  | RSetShardRecipient k' l => for_key k k' [NShardRecipient l]
  | RTaskStep k' f l c h => for_key k k' [NDrive (EvTaskStep f l c); NRootHash h]
  | RTaskFinished k' => for_key k k' [if stopped then NStoppedTaskFinished else NDrive EvTaskFinished]
  | RVerify k' ev => if internal ev then for_key k k' [NVerify ev] else []
  | RStop => [NTerminate]
  | _ =>
      if stopped then []
      else
        match e with
        | RRemoveDrive k' => for_key k k' [NDrive (EvStartDriveClosing None)]
        | RCloseDrive k' tx => for_key k k' [NDrive (EvStartDriveClosing (Some tx))]
        | RModify k' h s => for_key k k' [NDrive (EvStartModifyDrive h s)]
        | RCancelModify k' h => for_key k k' [NDrive (EvCancelModifyDrive h)]
        | RStartStream k' h s => for_key k k' [NDrive (EvStartStream h s)]
        | RStartVerification k' rq bl => for_key k k' [NDrive (EvStartVerification rq bl)]
        | RCancelVerification k' | RVerificationPublished k' => for_key k k' [NCancelVerification]
        | ROpinion info => for_key k (ai_driveKey info) [NDrive (EvOpinion info)]
        | RApprovalPublished tx => for_key k (pa_driveKey tx) [NDrive (EvPublished tx)]
        | RApprovalFailed k' h => for_key k k' [NDrive (EvFailed h)]
        | RInitiateManual k' rq => for_key k k' [NDrive (EvInitiateManualModifications rq)]
        | RManualSynchronize k' rq => for_key k k' [NDrive (EvManualSynchronize rq)]
        | RPieceRequested k' key size => for_key k k' [NPieceRequested key size]
        | RPieceReceived k' key size => for_key k k' [NPieceReceived key size]
        | RDhtRequest ms _ query x _ =>
            match message_for ms query x with Some (k', ne) => for_key k k' [ne] | None => [] end
        | _ => []
        end
  end.

(** The machine of one key. *)
Definition project (ourKey k : Z) (stopped : bool) (e : ReplicatorEvent T) (o : option Node)
    : Outcome (list NodeOutput * option Node) :=
  match o, e with
  | None, RAddDrive k' request =>
      if decide (k' = k /\ stopped = false)
      then '(out, n) ← new_node ourKey k request; Ret (out, Some n) else Ret ([], None)
  | None, _ => Ret ([], None)
  | Some n, RFinishClosure k' => Ret ([], if decide (k' = k) then None else Some n)
  | Some n, _ => '(out, n') ← node_steps ourKey k (addressed stopped k e) n; Ret (out, Some n')
  end.

Definition stops (stopped : bool) (e : ReplicatorEvent T) : bool :=
  match e with RStop => true | _ => stopped end.

Fixpoint project_run (ourKey k : Z) (stopped : bool) (es : list (ReplicatorEvent T)) (o : option Node)
    : Outcome (list NodeOutput * option Node) :=
  match es with
  | [] => Ret ([], o)
  | e :: es' =>
      '(out1, o1) ← project ourKey k stopped e o;
      '(out2, o2) ← project_run ourKey k (stops stopped e) es' o1;
      Ret (out1 ++ out2, o2)
  end.

(** ** The replicator *)

(** A timer of an opinion entry. *)
Definition timer_of (f : DownloadOpinionMapValue -> bool) (channel blockHash : Z) (r : Rep) : bool :=
  match dl_dnChannelMap (rp_limiter r) !! channel ≫= fun ch => m_downloadOpinionMap ch !! blockHash with
  | Some e => f e
  | None => false
  end.

Definition rp_step (e : ReplicatorEvent T) (r : Rep) : Outcome (list ReplicatorOutput * Rep) :=
  match e with
  | RAddDrive k request => asyncAddDrive verifyCodeTimerDelay k request r
  | RRemoveDrive k => asyncRemoveDrive verifyCodeTimerDelay k r
  | RCloseDrive k tx => asyncCloseDrive verifyCodeTimerDelay k tx r
  | RSetReplicators k l => asyncSetReplicators k l r
  | RSetShardDonator k l => asyncSetShardDonator k l r
  | RSetShardRecipient k l => asyncSetShardRecipient k l r
  | RModify k h s => asyncModify verifyCodeTimerDelay k h s r
  | RCancelModify k h => asyncCancelModify verifyCodeTimerDelay k h r
  | RStartStream k h s => asyncStartStream verifyCodeTimerDelay k h s r
  | RStartVerification k rq bl => asyncStartDriveVerification verifyCodeTimerDelay k rq bl r
  | RCancelVerification k => asyncCancelDriveVerification verifyCodeTimerDelay k r
  | RSingleApprovalPublished k => asyncSingleApprovalTransactionHasBeenPublished k r
  | RVerificationPublished k => asyncVerifyApprovalTransactionHasBeenPublished verifyCodeTimerDelay k r
  | ROpinion info => asyncOnOpinionReceived verifyCodeTimerDelay info r
  | RApprovalPublished tx => asyncApprovalTransactionHasBeenPublished verifyCodeTimerDelay tx r
  | RApprovalFailed k h => asyncApprovalTransactionHasFailedInvalidOpinions verifyCodeTimerDelay k h r
  | RInitiateManual k rq => rp_initiateManualModifications verifyCodeTimerDelay k rq r
  | RManualSynchronize k rq => rp_manualSynchronize verifyCodeTimerDelay k rq r
  | RSandbox k rq => sandboxRequest k rq r
  | RTaskStep k f l c h =>
      withDrive k (fun n => '(out, n') ← onDrive (publicKey r) verifyCodeTimerDelay k
                                (FlatDriveSpec.handle (EvTaskStep f l c)) n;
                            Ret (out, set_node_rootHash h n')) r
  | RTaskFinished k => driveTaskFinished verifyCodeTimerDelay k r
  | RFinishClosure k => finishDriveClosure k r
  | RVerify k ev =>
      if internal ev then withDrive k (node_step (publicKey r) k (NVerify ev)) r else Ret ([], r)
  | RAddChannel k c size rs cl sync now => asyncAddDownloadChannelInfo k c size rs cl sync now r
  | RIncreaseChannel c size => asyncIncreaseDownloadChannelSize c size r
  | RRemoveChannel c => asyncRemoveDownloadChannelInfo c r
  | RChannelShard c l => asyncSetChanelShard c l r
  | RSyncTimer c => synchronizerTimer c r
  | RPieceRequested k key size => Ret ([], (pieceRequested k key size r).2)
  | RPieceReceived k key size => Ret ([], pieceReceived k key size r)
  | RPieceSent c key size => Ret ([], pieceSent c key size r)
  | RDownloadOpinion now info => asyncOnDownloadOpinionReceived minReplicators now info r
  | RDownloadInitiate now b c => asyncInitiateDownloadApproval sg minReplicators now b c r
  | RDownloadFailed b c => asyncDownloadApprovalHasFailed b c r
  | RDownloadPublished b c closed => asyncDownloadApprovalHasBeenPublished b c closed r
  | RDownloadTimer c b => if timer_of om_timer c b r then downloadApprovalTimer c b r else Ret ([], r)
  | RDownloadShareTimer c b =>
      if timer_of om_opinionShareTimer c b r then downloadOpinionShareTimer c b r else Ret ([], r)
  | RChannelsClosed now b k => driveChannelsClosed sg minReplicators now b k r
  | RDhtRequest ms rands query x s =>
      '(_, out, r') ← on_dht_request sg ar verifyCodeTimerDelay ms rands query x s r; Ret (out, r')
  | RDhtResponse rands query ret s => handleDhtResponse sg ar rands query ret s r
  | RStop => Ret ([], stop task_terminate r)
  end.

Fixpoint rp_run (es : list (ReplicatorEvent T)) (r : Rep) : Outcome (list ReplicatorOutput * Rep) :=
  match es with
  | [] => Ret ([], r)
  | e :: es' =>
      '(out1, r1) ← rp_step e r;
      '(out2, r2) ← rp_run es' r1;
      Ret (out1 ++ out2, r2)
  end.

(** What came out of the drive with the key. *)
Definition outputs_of (k : Z) (out : list ReplicatorOutput) : list NodeOutput :=
  omap (fun o => match o with DriveOut k' o => if decide (k' = k) then Some o else None | _ => None end) out.

(** ** The limiter keeps who it is *)

Definition same_session (l l' : DownloadLimiter) : Prop :=
  dl_publicKey l' = dl_publicKey l /\ dl_isDestructing l' = dl_isDestructing l /\
  dl_sessionIsEnding l' = dl_sessionIsEnding l.

Lemma same_session_refl l : same_session l l.
Proof. done. Qed.

Lemma same_session_trans l1 l2 l3 : same_session l1 l2 -> same_session l2 l3 -> same_session l1 l3.
Proof. unfold same_session. intuition congruence. Qed.

#[local] Hint Resolve same_session_refl : core.

Lemma addChannelInfo_session c size k rs cl sync now l l' :
  addChannelInfo c size k rs cl sync now l = Ret l' -> same_session l l'.
Proof. intros [->|[_ ->]]%addChannelInfo_cases; [done|]. unfold insertChannelInfo. by case_match. Qed.

Lemma acceptReceiptImpl_session verify rands msg l :
  ensures (fun r => same_session l (rr_state r)) (acceptReceiptImpl verify rands msg l).
Proof. unfold acceptReceiptImpl. ensures_walk; done. Qed.

Lemma acceptFromAnother_session verify rands msg l :
  ensures (fun p => same_session l p.2) (acceptReceiptFromAnotherReplicator verify rands msg l).
Proof.
  unfold acceptReceiptFromAnotherReplicator. repeat case_match; [done..|].
  eapply ensures_bind; [apply acceptReceiptImpl_session|]. done.
Qed.

Lemma acceptAll_session verify rands msgs l : ensures (fun p => same_session l p.2) (acceptAll verify rands msgs l).
Proof.
  revert rands l. induction msgs as [|m msgs IH]; intros rands l; cbn; [done|]. case_match; [done|].
  eapply ensures_bind; [apply acceptFromAnother_session|]. intros [sent1 l1] H1. cbn in H1.
  eapply ensures_bind; [apply IH|]. intros [sent2 l2] H2. cbn in *. by eapply same_session_trans.
Qed.

Lemma addOpinion_session now info l : ensures (same_session l) (addOpinion minReplicators now info l).
Proof. unfold addOpinion. ensures_walk; done. Qed.

Lemma shareDownloadOpinion_session c b l : ensures (fun p => same_session l p.2) (shareDownloadOpinion c b l).
Proof. unfold shareDownloadOpinion. ensures_walk; done. Qed.

Lemma doInitiate_session sign now b c l :
  ensures (fun p => same_session l p.2) (doInitiateDownloadApproval sign minReplicators now b c l).
Proof.
  unfold doInitiateDownloadApproval. case_match; [|done].
  eapply ensures_bind; [apply addOpinion_session|]. intros l1 H1.
  eapply ensures_mono; [|apply shareDownloadOpinion_session]. intros p H2. by eapply same_session_trans.
Qed.

Lemma closeChannels_session sign now b ids l :
  ensures (fun p => same_session l p.2) (closeChannels sign minReplicators now b ids l).
Proof.
  revert l. induction ids as [|c ids IH]; intros l; cbn; [done|].
  eapply ensures_bind; [apply doInitiate_session|]. intros [out1 l1] H1. cbn in H1.
  eapply ensures_bind; [apply IH|]. intros [out2 l2] H2. cbn in *. by eapply same_session_trans.
Qed.

(** ** One event *)

(** The session ends when the replicator stops. *)
Definition session_ok (r : Rep) : Prop := dl_sessionIsEnding (rp_limiter r) = isStopped r.

Record stepped (e : ReplicatorEvent T) (r : Rep) (out : list ReplicatorOutput) (r' : Rep) : Prop := {
  st_key : publicKey r' = publicKey r;
  st_stopped : isStopped r' = stops (isStopped r) e;
  st_session : session_ok r';
  st_project k : project (publicKey r) k (isStopped r) e (rp_driveMap r !! k) =
    Ret (outputs_of k out, rp_driveMap r' !! k) }.

Definition ordinary (e : ReplicatorEvent T) : bool :=
  match e with RAddDrive _ _ | RFinishClosure _ | RStop => false | _ => true end.

Lemma project_ordinary our k stopped e (o : option Node) :
  ordinary e = true ->
  project our k stopped e o =
    match o with
    | None => Ret ([], None)
    | Some n => '(out, n') ← node_steps our k (addressed stopped k e) n; Ret (out, Some n')
    end.
Proof. by destruct e, o. Qed.

Lemma stops_ordinary stopped e : ordinary e = true -> stops stopped e = stopped.
Proof. by destruct e. Qed.

(** An event that is for no drive. *)
Lemma quiet_stepped e (r : Rep) out (r' : Rep) :
  session_ok r -> ordinary e = true -> (forall k, addressed (isStopped r) k e = []) ->
  (forall k, outputs_of k out = []) ->
  rp_driveMap r' = rp_driveMap r -> same_session (rp_limiter r) (rp_limiter r') -> stepped e r out r'.
Proof.
  intros Hs He Ha Ho Hd (S1 & S2 & S3). split; [exact S1 | | |].
  - rewrite stops_ordinary by done. exact S2.
  - unfold session_ok, isStopped in *. congruence.
  - intros k. rewrite project_ordinary, Ha, Ho, Hd by done. by destruct (rp_driveMap r !! k).
Qed.

Lemma outputs_of_other k k' out : k' <> k -> outputs_of k (map (DriveOut k') out) = [].
Proof. intros Hk. induction out as [|o out IH]; [done|]. cbn. by rewrite decide_False. Qed.

Lemma outputs_of_own k out : outputs_of k (map (DriveOut k) out) = out.
Proof. induction out as [|o out IH]; [done|]. cbn. rewrite decide_True by done. by f_equal. Qed.

Lemma outputs_of_app k out1 out2 : outputs_of k (out1 ++ out2) = outputs_of k out1 ++ outputs_of k out2.
Proof. apply omap_app. Qed.

Lemma outputs_of_none k {A} (f : A -> ReplicatorOutput) l :
  (forall a k' o, f a <> DriveOut k' o) -> outputs_of k (map f l) = [].
Proof.
  intros Hf. induction l as [|a l IH]; [done|]. cbn. destruct (f a) eqn:E; try done. by edestruct Hf.
Qed.

(** An event for one drive. *)
Lemma withDrive_stepped e k es f (r : Rep) out (r' : Rep) unknown :
  session_ok r -> ordinary e = true -> (forall k', addressed (isStopped r) k' e = for_key k' k es) ->
  (forall n, node_steps (publicKey r) k es n = f n) ->
  withDriveOr unknown k f r = Ret (out, r') -> (forall x, unknown = Ret x -> x = ([], r)) -> stepped e r out r'.
Proof.
  intros Hs He Ha Hf Hw Hun. unfold withDriveOr in Hw.
  destruct (rp_driveMap r !! k) as [n|] eqn:En.
  - destruct (f n) as [[outs n']|] eqn:Ef; [|discriminate Hw]. injection Hw as <- <-. split; [done | by rewrite stops_ordinary | done |].
    intros k'. rewrite project_ordinary, Ha by done. unfold for_key. cbn. case_decide as Hk.
    + subst k'. by rewrite En, Hf, Ef, outputs_of_own, lookup_insert_eq.
    + rewrite outputs_of_other, lookup_insert_ne by done. by destruct (rp_driveMap r !! k').
  - apply Hun in Hw as [= -> ->]. split; [done | by rewrite stops_ordinary | done |].
    intros k'. rewrite project_ordinary, Ha by done. unfold for_key. case_decide as Hk.
    + subst k'. by rewrite En.
    + by destruct (rp_driveMap r !! k').
Qed.

Lemma node_steps_one our k e (n : Node) : node_steps our k [e] n = node_step our k e n.
Proof. cbn. destruct (node_step our k e n) as [[out n']|]; [|done]. cbn. by rewrite app_nil_r. Qed.

(** The handlers that return when the replicator stops. *)
Lemma guarded_stepped e k (ne : NodeEvent T) f (r : Rep) out (r' : Rep) unknown :
  session_ok r -> ordinary e = true ->
  (forall k', addressed (isStopped r) k' e = if isStopped r then [] else for_key k' k [ne]) ->
  (forall n, node_step (publicKey r) k ne n = f n) ->
  (if (isStopped r : bool) then Ret ([], r) else withDriveOr unknown k f r) = Ret (out, r') ->
  (forall x, unknown = Ret x -> x = ([], r)) -> stepped e r out r'.
Proof.
  intros Hs He Ha Hf Hu Hun. destruct (isStopped r) eqn:Est.
  - injection Hu as <- <-. apply quiet_stepped; rewrite ?Est; done.
  - apply (withDrive_stepped e k [ne] f r out r' unknown); try done; [by rewrite Est|]. intros n. by rewrite node_steps_one.
Qed.

(** The traffic of the pieces. *)
Lemma putTraffic_lookup l (r : Rep) k :
  rp_driveMap (putTraffic l r) !! k =
    (fun n => match dl_driveMap l !! k with
              | Some v => set_node_traffic (dv_modifyTrafficMap v) n
              | None => n
              end) <$> rp_driveMap r !! k.
Proof. cbn. rewrite map_lookup_imap. by destruct (rp_driveMap r !! k). Qed.

Lemma view_traffic (n : Node) : set_node_traffic (dv_modifyTrafficMap (driveView n)) n = n.
Proof. by destruct n as [[] ? ? ? ? ? ?]. Qed.

Lemma view_lookup (r : Rep) k : dl_driveMap (limiterView r) !! k = driveView <$> rp_driveMap r !! k.
Proof. apply lookup_fmap. Qed.

Lemma putTraffic_view (r : Rep) : rp_driveMap (putTraffic (limiterView r) r) = rp_driveMap r.
Proof.
  apply map_eq. intros k. rewrite putTraffic_lookup, view_lookup.
  destruct (rp_driveMap r !! k) as [n|]; [|done]. exact (f_equal Some (view_traffic n)).
Qed.

(** A piece is counted for one drive. *)
Lemma traffic_stepped e k (received : bool) key size l (r : Rep) :
  session_ok r -> ordinary e = true ->
  (forall k', addressed (isStopped r) k' e =
     if (isStopped r : bool) then [] else for_key k' k [if received then NPieceReceived key size else NPieceRequested key size]) ->
  l = (if (isStopped r : bool) then limiterView r
       else match rp_driveMap r !! k with
            | Some n => set_drives (<[k := set_traffic (fd_modifyTraffic (nd_drive (bumpTraffic received key size n)))
                                             (driveView n)]> (driveView <$> rp_driveMap r)) (limiterView r)
            | None => limiterView r
            end) ->
  stepped e r [] (putTraffic l r).
Proof.
  intros Hs He Ha ->. destruct (isStopped r) eqn:Est.
  { apply quiet_stepped; rewrite ?Est; try done. apply putTraffic_view. }
  destruct (rp_driveMap r !! k) as [n|] eqn:En.
  - split; [done | by rewrite stops_ordinary | done |].
    intros k'. rewrite putTraffic_lookup, project_ordinary, Est, Ha by done. unfold for_key. cbn.
    case_decide as Hk; [subst k'; rewrite En, lookup_insert_eq; by destruct received|].
    rewrite lookup_insert_ne, lookup_fmap by done. destruct (rp_driveMap r !! k') as [n'|]; [|done].
    symmetry. exact (f_equal (fun n => Ret ([] : list NodeOutput, Some n)) (view_traffic n')).
  - split; [done | by rewrite stops_ordinary | done |].
    intros k'. rewrite putTraffic_view, project_ordinary, Est, Ha by done. unfold for_key.
    case_decide as Hk; [subst k'; by rewrite En|]. by destruct (rp_driveMap r !! k').
Qed.

Lemma pieceRequested_stepped k key size (r : Rep) :
  session_ok r -> stepped (RPieceRequested k key size) r [] (pieceRequested k key size r).2.
Proof.
  intros Hs. unfold pieceRequested, onPieceRequestReceivedFromReplicator.
  assert (dl_isDestructing (limiterView r) = isStopped r) as -> by done.
  assert (dl_sessionIsEnding (limiterView r) = isStopped r) as -> by done.
  rewrite view_lookup.
  destruct (isStopped r) eqn:Est; cbn [snd]; [|destruct (rp_driveMap r !! k) as [n|] eqn:En; cbn [snd fmap option_fmap option_map]];
    apply (traffic_stepped _ k false key size); try done; rewrite ?Est, ?En; done.
Qed.

Lemma pieceReceived_stepped k key size (r : Rep) :
  session_ok r -> stepped (RPieceReceived k key size) r [] (pieceReceived k key size r).
Proof.
  intros Hs. unfold pieceReceived, onPieceReceived.
  assert (dl_isDestructing (limiterView r) = isStopped r) as -> by done.
  assert (dl_sessionIsEnding (limiterView r) = isStopped r) as -> by done.
  rewrite view_lookup.
  destruct (isStopped r) eqn:Est; [|destruct (rp_driveMap r !! k) as [n|] eqn:En; cbn [fmap option_fmap option_map]];
    apply (traffic_stepped _ k true key size); try done; rewrite ?Est, ?En; done.
Qed.

(** Adding, closing and stopping. *)
Lemma project_add our k stopped k' request (o : option Node) :
  project our k stopped (RAddDrive k' request) o =
    match o with
    | Some n => Ret ([], Some n)
    | None => if decide (k' = k /\ stopped = false)
              then '(out, n) ← new_node our k request; Ret (out, Some n) else Ret ([], None)
    end.
Proof. destruct o; [|done]. by destruct stopped. Qed.

Lemma addDrive_stepped k request (r : Rep) out r' :
  session_ok r -> asyncAddDrive verifyCodeTimerDelay k request r = Ret (out, r') -> stepped (RAddDrive k request) r out r'.
Proof.
  intros Hs Ha. unfold asyncAddDrive, unlessStopped in Ha. destruct (isStopped r) eqn:Est.
  - injection Ha as <- <-. split; [done..|]. intros k'. rewrite Est, project_add, decide_False by (by intros [_ ?]).
    by destruct (rp_driveMap r !! k').
  - destruct (rp_driveMap r !! k) as [n|] eqn:En.
    + discriminate Ha.
    + destruct (onDrive _ _ _ _ _) as [[outs n']|] eqn:Ef in Ha; [|discriminate Ha]. injection Ha as <- <-.
      split; [done..|]. intros k'. rewrite Est, project_add. cbn [rp_driveMap set_driveMap].
      destruct (decide (k = k')) as [<-|Hk].
      * rewrite En, decide_True by done. unfold new_node. rewrite Ef. cbn. by rewrite outputs_of_own, lookup_insert_eq.
      * rewrite outputs_of_other, lookup_insert_ne, decide_False by (done || by intros [? _]).
        by destruct (rp_driveMap r !! k').
Qed.

Lemma destroyDrive_outputs k' k (d : DefaultFlatDrive T) : outputs_of k' (destroyDrive k d) = [].
Proof. unfold destroyDrive. by destruct (fd_synchronizationRequest d), (fd_deferredManualModificationRequest d). Qed.

Lemma project_finish our k stopped k' (o : option Node) :
  project our k stopped (RFinishClosure k') o = Ret ([], if decide (k' = k) then None else o).
Proof. destruct o; cbn; by destruct (decide _). Qed.

Lemma finishClosure_stepped k (r : Rep) out r' :
  session_ok r -> finishDriveClosure k r = Ret (out, r') -> stepped (RFinishClosure k) r out r'.
Proof.
  intros Hs Ha. unfold finishDriveClosure in Ha. destruct (rp_driveMap r !! k) as [n|] eqn:En; [|discriminate Ha].
  injection Ha as <- <-. split; [done..|]. intros k'. rewrite destroyDrive_outputs, project_finish. cbn [rp_driveMap].
  destruct (decide (k = k')) as [<-|Hk].
  - by rewrite lookup_delete_eq.
  - by rewrite lookup_delete_ne.
Qed.

Lemma stop_stepped (r : Rep) : stepped RStop r [] (stop task_terminate r).
Proof.
  split; [done..|]. intros k. cbn [rp_driveMap stop]. rewrite lookup_fmap. by destruct (rp_driveMap r !! k).
Qed.

(** An event for a drive that is not there. *)
Lemma absent_stepped e k es (r : Rep) out :
  session_ok r -> ordinary e = true -> (forall k', addressed (isStopped r) k' e = for_key k' k es) ->
  rp_driveMap r !! k = None -> (forall k', outputs_of k' out = []) -> stepped e r out r.
Proof.
  intros Hs He Ha Hn Ho. split; [done | by rewrite stops_ordinary | done |].
  intros k'. rewrite project_ordinary, Ha, Ho by done. unfold for_key. case_decide as Hk.
  - subst k'. by rewrite Hn.
  - by destruct (rp_driveMap r !! k').
Qed.

(** The handlers of the channels. *)
Lemma channels_stepped e f (r : Rep) out r' :
  session_ok r -> ordinary e = true -> (forall k, addressed (isStopped r) k e = []) ->
  ensures (fun p => same_session (rp_limiter r) p.2) (f (rp_limiter r)) ->
  channels f r = Ret (out, r') -> stepped e r out r'.
Proof.
  intros Hs He Ha Hf Hc. unfold channels in Hc. destruct (f (rp_limiter r)) as [[o l]|]; [|discriminate Hc].
  injection Hc as <- <-. apply quiet_stepped; try done. intros k. by apply outputs_of_none.
Qed.

Lemma limiter_stepped e l (r : Rep) :
  session_ok r -> ordinary e = true -> (forall k, addressed (isStopped r) k e = []) ->
  same_session (rp_limiter r) l -> stepped e r [] (set_limiter l r).
Proof. intros. by apply quiet_stepped. Qed.

Lemma opinion_session now info l :
  ensures (fun p => same_session l p.2)
    (l' ← onDownloadOpinionReceived minReplicators now info l; Ret (([] : list ApprovalOutput), l')).
Proof.
  unfold onDownloadOpinionReceived. repeat case_match; [done| |exact I].
  eapply ensures_bind; [apply addOpinion_session|]. done.
Qed.

Lemma initiate_session sign now b c l :
  ensures (fun p => same_session l p.2) (initiateDownloadApproval sign minReplicators now b c l).
Proof. unfold initiateDownloadApproval. case_match; [done|]. apply doInitiate_session. Qed.

Lemma failed_session b c l : ensures (fun p => same_session l p.2) (approvalHasFailed b c l).
Proof. unfold approvalHasFailed. repeat case_match; done. Qed.

Lemma published_session b c closed l :
  ensures (fun p => same_session l p.2) (l' ← approvalHasBeenPublished b c closed l; Ret (([] : list ApprovalOutput), l')).
Proof. unfold approvalHasBeenPublished. repeat case_match; done. Qed.

Lemma approvalTimer_session c b l : ensures (fun p => same_session l p.2) (onDownloadApprovalTimeExpired c b l).
Proof. unfold onDownloadApprovalTimeExpired. ensures_walk; done. Qed.

Lemma addChannel_stepped k c size rs cl sync now (r : Rep) out r' :
  session_ok r -> asyncAddDownloadChannelInfo k c size rs cl sync now r = Ret (out, r') ->
  stepped (RAddChannel k c size rs cl sync now) r out r'.
Proof.
  intros Hs Ha. unfold asyncAddDownloadChannelInfo, unlessStopped in Ha.
  destruct (isStopped r) eqn:Est; [injection Ha as <- <-; apply quiet_stepped; rewrite ?Est; done|].
  apply bind_ret_inv in Ha as (l & Hl%addChannelInfo_session & Ha). destruct sync; [destruct (rp_driveMap r !! k) as [n|]; [destruct (startSync _ _ _ _ _ _) as [o m]|]|];
    injection Ha as <- <-; apply quiet_stepped; rewrite ?Est; try done.
  intros k'. by apply outputs_of_none.
Qed.

Lemma syncTimer_stepped c (r : Rep) out r' :
  session_ok r -> synchronizerTimer c r = Ret (out, r') -> stepped (RSyncTimer c) r out r'.
Proof.
  intros Hs Ha. unfold synchronizerTimer in Ha. destruct (syncTimerExpired _ _ _ _) as [o m].
  injection Ha as <- <-. apply quiet_stepped; try done; intros k'; [cbn; by destruct (isStopped r)|]. by apply outputs_of_none.
Qed.

(** Messages. *)
Lemma dhtRequest_stepped ms rands query x sign (r : Rep) res out r' :
  session_ok r -> on_dht_request sg ar verifyCodeTimerDelay ms rands query x sign r = Ret (res, out, r') ->
  stepped (RDhtRequest ms rands query x sign) r out r'.
Proof.
  intros Hs Ha. unfold on_dht_request in Ha. destruct (isStopped r) eqn:Est.
  { injection Ha as <- <- <-. apply quiet_stepped; rewrite ?Est; done. }
  assert (forall k, addressed false k (RDhtRequest ms rands query x sign) =
    match message_for ms query x with Some (k', ne) => for_key k k' [ne] | None => [] end) as Hadd by done.
  destruct (decide _) as [Hq|Hq].
  - destruct (onMessageReceived _ _ _ _ _ _ _) as [[o r1]|] eqn:Em in Ha; [|discriminate Ha].
    injection Ha as <- <- <-. unfold onMessageReceived in Em. unfold message_for in Hadd.
    destruct (String.eqb query "opinion") eqn:E1.
    { apply String.eqb_eq in E1. subst. repeat case_match; simplify_eq; apply quiet_stepped; rewrite ?Est; try done. }
    destruct (String.eqb query "dn_opinion") eqn:E2.
    { apply String.eqb_eq in E2. subst. repeat case_match; simplify_eq; apply quiet_stepped; rewrite ?Est; try done. }
    destruct (String.eqb query "code_verify") eqn:E3.
    + destruct (decodeCode ar x) as [[info s]|] eqn:Ed; cbn in Hadd;
        [|simplify_eq; apply quiet_stepped; rewrite ?Est; done].
      unfold processVerificationCode in Em. destruct (verifyCode sg info s) eqn:Ev; cbn [negb] in Em;
        [|simplify_eq; apply quiet_stepped; rewrite ?Est; done].
      eapply (withDrive_stepped _ _ [NVerificationCode ms info]); [done | done | by rewrite Est | | exact Em|];
      [intros n; by rewrite node_steps_one | by intros ? [= <-]].
    + destruct (String.eqb query "verify_opinion") eqn:E4;
        [|simplify_eq; apply quiet_stepped; rewrite ?Est; done].
      destruct (decodeVerifyOpinion ar x) as [[info s]|] eqn:Ed; cbn in Hadd;
        [|simplify_eq; apply quiet_stepped; rewrite ?Est; done].
      unfold processVerificationOpinion in Em.
      destruct (va_opinions info) as [|op [|]] eqn:Eo;
        [simplify_eq; apply quiet_stepped; rewrite ?Est; done| |simplify_eq; apply quiet_stepped; rewrite ?Est; done].
      destruct (verifyVerifyOpinion _ _ _ _ _ _) eqn:Ev; cbn [negb] in Em;
        [|simplify_eq; apply quiet_stepped; rewrite ?Est; done].
      eapply (withDrive_stepped _ _ [NVerificationOpinion info]); [done | done | by rewrite Est | | exact Em|];
      [intros n; by rewrite node_steps_one | by intros ? [= <-]].
  - assert (forall k, addressed (isStopped r) k (RDhtRequest ms rands query x sign) = []) as Hno.
    { intros k. rewrite Est, Hadd. unfold message_for.
      destruct (String.eqb_spec query "code_verify") as [->|]; [destruct Hq; rewrite !elem_of_cons; auto|].
      destruct (String.eqb_spec query "verify_opinion") as [->|]; [destruct Hq; rewrite !elem_of_cons; auto|]. done. }
    destruct (String.eqb query "get_dn_rcpts"); [injection Ha as _ <- <-; by apply quiet_stepped|].
    destruct (String.eqb query "rcpt"); [|injection Ha as _ <- <-; by apply quiet_stepped].
    pose proof (ensures_ret (fun p => same_session (rp_limiter r) p.2)
      (onRcptQuery (verifyBytes sg) rands x (rp_limiter r))) as He.
    destruct (onRcptQuery _ _ _ _) as [[[ok sent] l]|] eqn:Eq in Ha; [|discriminate Ha]. injection Ha as <- <- <-.
    apply quiet_stepped; try done; [intros k; by apply outputs_of_none|].
    refine (He _ _ Eq). unfold onRcptQuery. destruct (negb (isValidSize x)); [cbn; apply same_session_refl|].
    eapply ensures_bind; [apply acceptFromAnother_session|]. by intros [].
Qed.

Lemma dhtResponse_stepped rands query ret sign (r : Rep) out r' :
  session_ok r -> handleDhtResponse sg ar rands query ret sign r = Ret (out, r') ->
  stepped (RDhtResponse rands query ret sign) r out r'.
Proof.
  intros Hs Ha. unfold handleDhtResponse in Ha.
  assert (forall k, addressed (isStopped r) k (RDhtResponse rands query ret sign) = []) as Hno
    by (intros k; cbn; by destruct (isStopped r)).
  destruct (String.eqb query "get_dn_rcpts"); [|simplify_eq; by apply quiet_stepped].
  unfold onSyncRcptReceived in Ha. destruct (decodeSync ar ret) as [[[other c] msgs]|];
    [|simplify_eq/=; by apply quiet_stepped].
  destruct (negb (length sign =? 64)%nat); [simplify_eq/=; by apply quiet_stepped|].
  destruct (negb (verifyBytes sg _ _ _)); [simplify_eq/=; by apply quiet_stepped|].
  pose proof (acceptAll_session (verifyBytes sg) rands msgs (rp_limiter r)) as He.
  destruct (acceptAll _ _ _ _) as [[sent l]|] eqn:Eq; [|discriminate Ha]. injection Ha as <- <-. cbn in He.
  apply quiet_stepped; try done. intros k; by apply outputs_of_none.
Qed.

Ltac guarded ne :=
  eapply (guarded_stepped _ _ ne);
  [done | done | intros ?; cbn; by destruct (isStopped _) | intros ?; reflexivity | eassumption
  | unfold log_err; cbn; first [by intros ? [=] | by intros ? [= <-]]].

Lemma rp_step_stepped e (r : Rep) out r' :
  session_ok r -> rp_step e r = Ret (out, r') -> stepped e r out r'.
Proof.
  intros Hs Hr. destruct e; cbn [rp_step] in Hr.
  - by apply addDrive_stepped.
  - guarded (NDrive (T := T) (EvStartDriveClosing None)).
  - guarded (NDrive (T := T) (EvStartDriveClosing (Some tx))).
  - eapply (withDrive_stepped _ _ [NReplicators l]); [done | done | done | | exact Hr | by intros ? [=]].
    intros n. by rewrite node_steps_one.
  - eapply (withDrive_stepped _ _ [NShardDonator l]); [done | done | done | | exact Hr | by intros ? [=]].
    intros n. by rewrite node_steps_one.
  - eapply (withDrive_stepped _ _ [NShardRecipient l]); [done | done | done | | exact Hr | by intros ? [=]].
    intros n. by rewrite node_steps_one.
  - guarded (NDrive (T := T) (EvStartModifyDrive h size)).
  - guarded (NDrive (T := T) (EvCancelModifyDrive h)).
  - guarded (NDrive (T := T) (EvStartStream h size)).
  - guarded (NDrive (T := T) (EvStartVerification request blocked)).
  - unfold asyncCancelDriveVerification, unlessStopped, withDrive in Hr. guarded (NCancelVerification (T := T)).
  - unfold asyncVerifyApprovalTransactionHasBeenPublished, unlessStopped, withKnownDrive in Hr. guarded (NCancelVerification (T := T)).
  - unfold asyncSingleApprovalTransactionHasBeenPublished, unlessStopped in Hr.
    assert (forall k', addressed (isStopped r) k' (RSingleApprovalPublished k) = []) as Ha
      by (intros ?; cbn; by destruct (isStopped r)).
    destruct (isStopped r) eqn:Est; [injection Hr as <- <-; apply quiet_stepped; rewrite ?Est; done|].
    eapply (withDrive_stepped _ _ []); [done | done | | | exact Hr | by intros ? [=]]; [|done].
    intros k'. rewrite Est, Ha. unfold for_key. by case_decide.
  - guarded (NDrive (T := T) (EvOpinion info)).
  - guarded (NDrive (T := T) (EvPublished tx)).
  - guarded (NDrive (T := T) (EvFailed h)).
  - unfold rp_initiateManualModifications, unlessStopped in Hr.
    assert (forall k', addressed (isStopped r) k' (RInitiateManual k request) =
      if isStopped r then [] else for_key k' k [NDrive (T := T) (EvInitiateManualModifications request)]) as Ha
      by (intros ?; cbn; by destruct (isStopped r)).
    destruct (isStopped r) eqn:Est; [injection Hr as <- <-; apply quiet_stepped; rewrite ?Est; done|].
    destruct (rp_driveMap r !! k) eqn:En.
    + eapply (withDrive_stepped _ _ [NDrive (T := T) (EvInitiateManualModifications request)]);
        [done | done | rewrite Est; exact Ha | | exact Hr | by intros ? [= <-]]. intros n. by rewrite node_steps_one.
    + injection Hr as <- <-. eapply absent_stepped; [done | done | rewrite Est; exact Ha | done | done].
  - unfold rp_manualSynchronize, unlessStopped in Hr.
    assert (forall k', addressed (isStopped r) k' (RManualSynchronize k request) =
      if isStopped r then [] else for_key k' k [NDrive (T := T) (EvManualSynchronize request)]) as Ha
      by (intros ?; cbn; by destruct (isStopped r)).
    destruct (isStopped r) eqn:Est; [injection Hr as <- <-; apply quiet_stepped; rewrite ?Est; done|].
    destruct (rp_driveMap r !! k) eqn:En.
    + eapply (withDrive_stepped _ _ [NDrive (T := T) (EvManualSynchronize request)]);
        [done | done | rewrite Est; exact Ha | | exact Hr | by intros ? [= <-]]. intros n. by rewrite node_steps_one.
    + injection Hr as <- <-. eapply absent_stepped; [done | done | rewrite Est; exact Ha | done | done].
  - unfold sandboxRequest, unlessStopped in Hr.
    assert (forall k', addressed (isStopped r) k' (RSandbox k request) = []) as Ha
      by (intros ?; cbn; by destruct (isStopped r)).
    destruct (isStopped r) eqn:Est; [|destruct (rp_driveMap r !! k)]; injection Hr as <- <-;
      apply quiet_stepped; rewrite ?Est; done.
  - eapply (withDrive_stepped _ _ [NDrive (EvTaskStep f lastApproved c); NRootHash rootHash]);
      [done | done | done | | exact Hr | by intros ? [= <-]].
    intros n. cbn -[onDrive].
    destruct (onDrive (publicKey r) verifyCodeTimerDelay k (FlatDriveSpec.handle (EvTaskStep f lastApproved c)) n)
      as [[o n']|]; [|done]. cbn. by rewrite app_nil_r.
  - eapply (withDrive_stepped _ _ [if isStopped r then NStoppedTaskFinished else NDrive EvTaskFinished]);
      [done | done | done | | exact Hr | by intros ? [= <-]].
    intros n. rewrite node_steps_one. by destruct (isStopped r).
  - by apply finishClosure_stepped.
  - destruct (internal ev) eqn:Ei.
    + eapply (withDrive_stepped _ _ [NVerify ev]); [done | done | intros ?; cbn; by rewrite Ei | | exact Hr | by intros ? [= <-]].
      intros n. by rewrite node_steps_one.
    + injection Hr as <- <-. apply quiet_stepped; try done. intros ?. cbn. by rewrite Ei.
  - by apply addChannel_stepped.
  - apply bind_ret_inv in Hr as (l & Hl & [= <- <-]). apply limiter_stepped; [done | done | intros ?; cbn; by destruct (isStopped r) |].
    by apply increaseChannelSize_cases in Hl as [->|(ch & _ & ->)].
  - injection Hr as <- <-. apply limiter_stepped; [done | done | intros ?; cbn; by destruct (isStopped r) |].
    unfold removeChannelInfo. case_match; done.
  - apply bind_ret_inv in Hr as (l' & Hl & [= <- <-]). apply limiter_stepped; [done | done | intros ?; cbn; by destruct (isStopped r) |].
    by apply setChanelShard_cases in Hl as (ch & _ & ->).
  - by apply syncTimer_stepped.
  - injection Hr as <- <-. by apply pieceRequested_stepped.
  - injection Hr as <- <-. by apply pieceReceived_stepped.
  - injection Hr as <- <-. apply limiter_stepped; [done | done | intros ?; cbn; by destruct (isStopped r) |].
    unfold onPieceSent. repeat case_match; done.
  - eapply channels_stepped; [done | done | intros ?; cbn; by destruct (isStopped r) | | exact Hr]. apply opinion_session.
  - eapply channels_stepped; [done | done | intros ?; cbn; by destruct (isStopped r) | | exact Hr]. apply initiate_session.
  - eapply channels_stepped; [done | done | intros ?; cbn; by destruct (isStopped r) | | exact Hr]. cbn. apply failed_session.
  - eapply channels_stepped; [done | done | intros ?; cbn; by destruct (isStopped r) | | exact Hr]. cbn. apply published_session.
  - destruct (timer_of _ _ _ _).
    + eapply channels_stepped; [done | done | intros ?; cbn; by destruct (isStopped r) | | exact Hr].
      apply approvalTimer_session.
    + injection Hr as <- <-. apply quiet_stepped; try done. intros ?. cbn. by destruct (isStopped r).
  - destruct (timer_of _ _ _ _).
    + eapply channels_stepped; [done | done | intros ?; cbn; by destruct (isStopped r) | | exact Hr].
      apply shareDownloadOpinion_session.
    + injection Hr as <- <-. apply quiet_stepped; try done. intros ?. cbn. by destruct (isStopped r).
  - eapply channels_stepped; [done | done | intros ?; cbn; by destruct (isStopped r) | | exact Hr]. apply closeChannels_session.
  - destruct (on_dht_request _ _ _ _ _ _ _ _ _) as [[[res o] r1]|] eqn:Eq; [|discriminate Hr].
    injection Hr as <- <-. by eapply dhtRequest_stepped.
  - by apply dhtResponse_stepped.
  - injection Hr as <- <-. apply stop_stepped.
Qed.

(** C4: a replicator is the product of its drives: over any sequence of events --
    transactions, messages of other replicators, requests of the storage server,
    the steps of the tasks, the pieces of the session, receipts and channels, the
    stop -- what happens to the drive of a key, and what comes out of it, is what
    the machine of that key does with the events addressed to it.  No drive ever
    acts on an event of another one, on a message whose signature was not checked,
    or, once the replicator stops, on a request. *)
Theorem replicator_refines_drives es (r : Rep) out r' :
  session_ok r -> rp_run es r = Ret (out, r') ->
  forall k, project_run (publicKey r) k (isStopped r) es (rp_driveMap r !! k) =
            Ret (outputs_of k out, rp_driveMap r' !! k).
Proof.
  revert r out. induction es as [|e es IH]; intros r out Hs Hr k; cbn in Hr.
  { injection Hr as <- <-. done. }
  destruct (rp_step e r) as [[out1 r1]|] eqn:E1; [|discriminate Hr]. cbn in Hr.
  destruct (rp_run es r1) as [[out2 r2]|] eqn:E2; [|discriminate Hr]. injection Hr as <- <-.
  destruct (rp_step_stepped e r out1 r1 Hs E1) as [Hk Hst Hs1 Hp]. cbn. rewrite Hp. cbn.
  specialize (IH r1 out2 Hs1 E2 k). rewrite Hk, Hst in IH. rewrite IH. cbn. by rewrite outputs_of_app.
Qed.

End Run.

(** ** A concrete replicator *)

#[local] Existing Instance any_task.

Definition sampleArchives : Archives :=
  mkArchives (fun _ => None) (fun _ => None)
    (fun x => match x with
              | [tx; rk; dk; code; s] => Some (mkVerificationCodeInfo tx rk dk code, s)
              | _ => None
              end)
    (fun _ => None) (fun _ _ _ => []) (fun _ => None).

(** A signature of a code is right when it is the replicator's key. *)
Definition sampleSignatures : Signatures :=
  mkSignatures (fun _ _ _ => true) (fun _ => 0) (fun _ _ _ => 0)
    (fun info s => s =? vc_replicatorKey info) (fun _ _ _ o s => s =? vo_publicKey o).

Definition freshReplicator : DefaultReplicator AnyTask :=
  mkReplicator (mkLimiter 1 ∅ ∅ 1000 ∅ false false) ∅ ∅.

Definition sampleRequest : AddDriveRequest := mkAddDrive 1000 0 [] [1; 2; 3] 9 [2; 3] [2; 3].

Definition sampleEvents : list (ReplicatorEvent AnyTask) :=
  [RAddDrive 50 sampleRequest; RAddDrive 51 sampleRequest; RTaskFinished 50;
   RDhtRequest 0 [] "code_verify" [700; 2; 50; 13; 2] []; RDhtRequest 0 [] "code_verify" [700; 3; 51; 13; 2] [];
   RModify 50 600 10; RModify 51 601 10; RPieceReceived 50 2 100; RStop; RModify 50 602 10].

Definition sampleRun := rp_run (T := AnyTask) (H := any_task sampleParams) id sampleSignatures sampleArchives 4 0.
Definition sampleProject := project_run (T := AnyTask) (H := any_task sampleParams) id sampleSignatures sampleArchives 0.

(** Drive 51 keeps its modification behind the initialization; drive 50 runs its
    own, and holds the code that was signed by its author. *)
Lemma replicator_refines_drives_witness : exists out r',
  sampleRun sampleEvents freshReplicator = Ret (out, r') /\
  sampleProject 1 51 false sampleEvents None = Ret (outputs_of 51 out, rp_driveMap r' !! 51) /\
  outputs_of 51 out = [FromDrive (Started DRIVE_INITIALIZATION 0)] /\
  outputs_of 50 out = [FromDrive (Started DRIVE_INITIALIZATION 0); FromDrive (Started MODIFICATION_REQUEST 600)] /\
  (fun n => fd_unknownVerificationCodeQueue (nd_drive n)) <$> rp_driveMap r' !! 50 =
    Some {[700 := [mkVerificationCodeInfo 700 2 50 13]]}.
Proof.
  destruct (sampleRun sampleEvents freshReplicator) as [[out r']|] eqn:E; [|vm_compute in E; discriminate E].
  exists out, r'. split; [reflexivity|].
  split; [exact (replicator_refines_drives (H := any_task sampleParams) id sampleSignatures sampleArchives 4 0
                   sampleEvents freshReplicator out r' eq_refl E 51)|].
  vm_compute in E. injection E as <- <-. vm_compute. repeat split; reflexivity.
Defined.
