(* ===== verification/ReplicatorVerification.v ===== *)
(** * The verification transactions of a replicator

    From the messages on the wire to the transaction: every opinion of a transaction
    was formed by this replicator or carries the signature of its author for this
    verification, drive and shard; the authors are different members of the shard and
    more than two thirds of it; and no message of another replicator can stop the
    program. *)

From S2P Require Import Prelude RcptMessage DownloadChannels DownloadChannelsSpec ModifyOpinion ModifyApproval Verification VerificationSpec FlatDrive DriveTasks FlatDriveSpec RcptSync RcptSyncSpec Replicator ReplicatorSpec.

(** ** The opinions of a task *)

Section Task.
  Context (P : VerifyOpinion -> Prop) (request : VerificationRequest) (replicatorKey driveKey : Z)
          (session : bool) (verifyCodeTimerDelay : Z).
  Context (P_own : forall os, P (mkVerifyOpinion replicatorKey os)).

Definition collected (t : VerificationTask) : Prop :=
  forall tx, vt_approvalTxInfo t = Some tx -> Forall P (va_opinions tx).

Definition sent_ok (o : VerifyOutput) : Prop :=
  match o with VerificationTransactionIsReady tx => Forall P (va_opinions tx) | _ => True end.

(** What a handler keeps: the opinions collected are of the right kind, so are
    those it sends, and it does not interrupt the task. *)
Definition keeps (t : VerificationTask) (p : list VerifyOutput * VerificationTask) : Prop :=
  collected p.2 /\ vt_mustBeInterrupted p.2 = vt_mustBeInterrupted t /\ Forall sent_ok p.1.

Lemma process_keeps info o t :
  va_opinions info = [o] -> (va_tx info = vr_tx request -> va_shardId info = vr_shardId request -> P o) ->
  collected t ->
  ensures (fun p => collected p.2 /\ vt_mustBeInterrupted p.2 = vt_mustBeInterrupted t /\
                    (p.1 = false -> p.2 = t))
    (processedVerificationOpinion request session info t).
Proof.
  intros Ho HP Hc. unfold processedVerificationOpinion. rewrite Ho.
  case_decide as H1; [done|]. case_decide as H2; [done|].
  specialize (HP (eq_sym H1) (eq_sym H2)).
  case_decide; [done|]. case_decide; [done|].
  set (t1 := match vt_approvalTxInfo t with None => _ | Some _ => t end).
  assert (collected t1 /\ vt_mustBeInterrupted t1 = vt_mustBeInterrupted t) as [Hc1 Hi1].
  { unfold t1. destruct (vt_approvalTxInfo t) eqn:E; [done|]. split; [|done].
    intros tx [= <-]. rewrite Ho. by constructor. }
  destruct (vt_approvalTxInfo t1) as [tx|] eqn:Et; [|done]. apply ensures_assert. intros _.
  case_decide; [done|].
  set (t2 := set_approvalTxInfo _ t1).
  assert (collected t2 /\ vt_mustBeInterrupted t2 = vt_mustBeInterrupted t) as [Hc2 Hi2].
  { split; [|done]. intros tx' [= <-]. cbn. apply Forall_app. split; [by apply Hc1|by constructor]. }
  repeat case_match; done.
Qed.

Lemma shareCode_keeps t : collected t -> ensures (keeps t) (shareVerifyCode request replicatorKey session t).
Proof.
  intros Hc. unfold shareVerifyCode. case_match; [|done]. cbn. split_and!; [by destruct session..|].
  by apply Forall_map, Forall_forall.
Qed.

Lemma shareOpinion_keeps t : collected t -> ensures (keeps t) (shareVerifyOpinion request replicatorKey session t).
Proof.
  intros Hc. unfold shareVerifyOpinion. case_match; [|done]. cbn. split_and!; [by destruct session..|].
  by apply Forall_map, Forall_forall.
Qed.

Lemma codeExpired_keeps t : collected t -> ensures (keeps t) (verifyCodeTimerExpired request replicatorKey driveKey session t).
Proof.
  intros Hc. unfold verifyCodeTimerExpired. do 3 (apply ensures_assert; intros _).
  apply ensures_any. intros os.
  eapply ensures_bind; [by apply shareOpinion_keeps|]. intros [out t1] (H1 & H2 & H3). cbn in H1, H2, H3.
  eapply ensures_bind; [by apply (process_keeps _ (mkVerifyOpinion replicatorKey os))|].
  intros [ok t2] (H4 & H5 & _). cbn in H4, H5. apply ensures_assert. intros _.
  unfold keeps. cbn. split_and!; [done|congruence|done].
Qed.

Lemma checkNumber_keeps ms t :
  collected t -> ensures (keeps t) (checkVerifyCodeNumber request replicatorKey driveKey session verifyCodeTimerDelay ms t).
Proof.
  intros Hc. unfold checkVerifyCodeNumber. apply ensures_assert. intros _.
  case_match; [done|]. case_decide; [by apply (codeExpired_keeps (set_codeTimer NoTimer t))|].
  repeat case_match; repeat split; try done; by repeat constructor.
Qed.

Lemma code_keeps ms info t :
  collected t ->
  ensures (fun p => keeps t (p.1.2, p.2) /\ (p.1.1 = false -> p.2 = t))
    (processedVerificationCode request replicatorKey driveKey session verifyCodeTimerDelay ms info t).
Proof.
  intros Hc. unfold processedVerificationCode.
  case_decide; [by repeat split|]. case_decide; [by repeat split|].
  case_match; [by repeat split|]. case_match; [|by repeat split].
  eapply ensures_bind; [by apply checkNumber_keeps|]. intros [out t2] Hk. cbn. split; [exact Hk|done].
Qed.

Lemma verify_step_keeps ev t :
  internal ev = true -> collected t ->
  ensures (keeps t) (verify_step request replicatorKey driveKey session verifyCodeTimerDelay ev t).
Proof.
  intros Hev Hc. unfold verify_step. case_match; [by repeat split|].
  destruct ev; try done; case_match; try (by repeat split).
  - unfold verificationCodesCompleted. case_match; [by repeat split|]. case_match; [|done].
    eapply ensures_bind; [by apply shareCode_keeps|]. intros [out1 t2] (K1 & K2 & K3). cbn in K1, K2, K3.
    eapply ensures_bind; [by apply checkNumber_keeps|]. intros [out2 t3] (K4 & K5 & K6). cbn in K4, K5, K6.
    unfold keeps. cbn. split_and!; [done|congruence|]. by apply Forall_app.
  - by apply (codeExpired_keeps (set_codeTimer Fired t)).
  - unfold verifyOpinionTimerExpired. apply ensures_assert. intros _. case_match eqn:Et; [|done].
    cbn. split_and!; [done|done|]. constructor; [|done]. by apply Hc.
  - by apply shareCode_keeps.
  - by apply shareOpinion_keeps.
Qed.

(** A new task: the opinions that came before. *)
Lemma create_keeps opinions codes :
  Forall (fun info => exists o, va_opinions info = [o] /\
            (va_tx info = vr_tx request -> va_shardId info = vr_shardId request -> P o)) opinions ->
  ensures (fun t => collected t /\ vt_mustBeInterrupted t = false)
    (createVerificationTask request replicatorKey driveKey session verifyCodeTimerDelay opinions codes).
Proof.
  intros Hos. unfold createVerificationTask.
  apply (ensures_bind (fun t => collected t /\ vt_mustBeInterrupted t = false)).
  - assert (collected newVerificationTask /\ vt_mustBeInterrupted newVerificationTask = false) as H0 by done.
    revert H0. generalize newVerificationTask. induction Hos as [|info os (o & Ho & HP) _ IH]; intros t [Hc Hi]; [done|].
    cbn. eapply ensures_bind; [by apply (process_keeps info o t)|]. intros [ok t1] (H1 & H2 & _). cbn in H1, H2.
    apply ensures_assert. intros _. apply IH. split; [done|congruence].
  - clear Hos opinions. intros t Ht. revert t Ht. induction codes as [|c cs IH]; intros t [Hc Hi]; [done|].
    cbn. eapply ensures_bind; [by apply (code_keeps 0 c t)|]. intros [[ok out] t1] [(H1 & H2 & _) _]. cbn in H1, H2.
    apply ensures_assert. intros _. apply IH. split; [done|congruence].
Qed.

End Task.

(** ** What a drive keeps of the messages that came early *)

Section Drive.
  Context {T : Type} `{DriveTask T}.
  Context (A : VerifyApprovalTxInfo -> Prop) (B : VerificationCodeInfo -> Prop) (R : VerificationRequest -> Prop).
  Notation Drive := (DefaultFlatDrive T).

Record early_ok (d : Drive) : Prop := {
  eo_opinions tx l : fd_unknownVerificationOpinions d !! tx = Some l -> Forall (fun i => va_tx i = tx /\ A i) l;
  eo_codes tx l : fd_unknownVerificationCodeQueue d !! tx = Some l -> Forall (fun i => vc_tx i = tx /\ B i) l;
  eo_deferred rq bl : fd_deferredVerificationRequest d = Some (rq, bl) -> R rq }.

(** A verification is started on a request of the right kind, with the messages of
    its transaction. *)
Definition start_ok (o : DriveOutput) : Prop :=
  match o with
  | VerificationStarted rq os cs =>
      R rq /\ Forall (fun i => va_tx i = vr_tx rq /\ A i) os /\ Forall (fun i => vc_tx i = vr_tx rq /\ B i) cs
  | _ => True
  end.

Definition early_result (p : list DriveOutput * Drive) : Prop := Forall start_ok p.1 /\ early_ok p.2.

(** The other steps leave the messages and the request alone. *)
Definition same_early (d d' : Drive) : Prop :=
  fd_unknownVerificationOpinions d' = fd_unknownVerificationOpinions d /\
  fd_unknownVerificationCodeQueue d' = fd_unknownVerificationCodeQueue d /\
  fd_deferredVerificationRequest d' = fd_deferredVerificationRequest d.

Lemma same_early_ok d d' : same_early d d' -> early_ok d -> early_ok d'.
Proof. intros (E1 & E2 & E3) [H1 H2 H3]. split; [rewrite E1|rewrite E2|rewrite E3]; assumption. Qed.

Lemma startTask_early ty id t d : early_ok d -> ensures early_result (startTask ty id t d).
Proof.
  intros Hd. apply ensures_assert. intros _. split; [by repeat constructor|]. by apply (same_early_ok d).
Qed.

Lemma early_nil d d' : same_early d d' -> early_ok d -> early_result ([], d').
Proof. intros Hs Hd. split; [constructor|]. by apply (same_early_ok d). Qed.

Lemma refuseManual_early d : early_ok d -> early_result (refuseManual d).
Proof. intros Hd. unfold refuseManual. case_match; (split; [by repeat constructor|]); [by apply (same_early_ok d)|done]. Qed.

Lemma refuse_start_early ty id t (f : Drive -> Drive) d :
  early_ok d -> (forall d, same_early d (f d)) ->
  ensures early_result (let '(out1, d1) := refuseManual d in
                        '(out2, d2) ← startTask ty id t (f d1); Ret (out1 ++ out2, d2)).
Proof.
  intros Hd Hf. pose proof (refuseManual_early d Hd) as [H1 H2].
  destruct (refuseManual d) as [out1 d1]. cbn in H1, H2.
  eapply ensures_bind; [apply startTask_early; by eapply same_early_ok|].
  intros [out2 d2] [H3 H4]. cbn in H3, H4. split; [by apply Forall_app|done].
Qed.

Lemma modification_early h s d : early_ok d -> ensures early_result (runModificationTask h s d).
Proof. intros Hd. apply ensures_assert. intros _. apply startTask_early. by apply (same_early_ok d). Qed.

Lemma deferred_early d : early_ok d -> ensures early_result (runDeferredModificationTask d).
Proof.
  intros Hd. apply ensures_assert. intros _. case_match; [done|]. case_match.
  - apply modification_early. by apply (same_early_ok d).
  - apply ensures_assert. intros _. apply startTask_early. by apply (same_early_ok d).
Qed.

Lemma catchingUp_early r d : early_ok d -> ensures early_result (runCatchingUpTask r d).
Proof.
  intros Hd. apply ensures_assert. intros _. apply refuse_start_early; [|done].
  case_match; [|done]. case_match. by apply (same_early_ok d).
Qed.

Lemma firstRequest_early d : early_ok d -> ensures early_result (runFirstRequest d).
Proof.
  intros Hd. unfold runFirstRequest. case_match.
  { apply ensures_assert. intros _. apply startTask_early. by apply (same_early_ok d). }
  case_match; [by apply catchingUp_early|].
  case_match; [apply ensures_assert; intros _; by apply refuse_start_early|].
  case_match; [|by apply deferred_early].
  case_match; [apply startTask_early; by apply (same_early_ok d)|]. by apply (early_nil d).
Qed.

(** Starting a verification. *)
Lemma verification_early rq bl d : early_ok d -> R rq -> ensures early_result (runVerificationTask rq bl d).
Proof.
  intros [H1 H2 H3] Hrq. apply ensures_assert. intros _. split.
  - constructor; [|constructor]. cbn. split; [done|]. split.
    + destruct (fd_unknownVerificationOpinions d !! vr_tx rq) eqn:E; [by apply (H1 _ _ E)|constructor].
    + destruct (fd_unknownVerificationCodeQueue d !! vr_tx rq) eqn:E; [by apply (H2 _ _ E)|constructor].
  - split; cbn; [| |done].
    + intros tx l. rewrite delete_delete_eq. intros [_ E]%lookup_delete_Some. by apply H1.
    + intros tx l [[<- <-]|[_ E]]%lookup_insert_Some; [constructor|by apply H2].
Qed.

Lemma deferredVerification_early d : early_ok d -> ensures early_result (runDeferredVerification d).
Proof.
  intros Hd. unfold runDeferredVerification. case_match eqn:E; [|by apply (early_nil d)]. case_match.
  case_decide; [|by apply (early_nil d)]. subst. apply verification_early; [done|]. by eapply eo_deferred.
Qed.

Lemma nextTask_early stopped d : early_ok d -> ensures early_result (runNextTask stopped d).
Proof.
  intros Hd. unfold runNextTask. case_match; [by apply (early_nil d)|].
  assert (early_ok (set_task None d)) as Hn by (by apply (same_early_ok d)). case_match.
  { apply ensures_assert. intros _. apply startTask_early. by apply (same_early_ok (set_task None d)). }
  eapply ensures_bind; [by apply deferredVerification_early|]. intros [out1 d1] [K1 K2]. cbn in K1, K2.
  eapply ensures_bind; [by apply firstRequest_early|]. intros [out2 d2] [K3 K4]. cbn in K3, K4.
  split; [by apply Forall_app|done].
Qed.

Lemma ifIdle_early stopped d : early_ok d -> ensures early_result (runIfIdle stopped d).
Proof. intros Hd. unfold runIfIdle. case_match; [by apply (early_nil d)|]. by apply nextTask_early. Qed.

Lemma cancelVerification_early d : early_ok d -> early_ok (cancelVerification d).
Proof. intros [H1 H2 H3]. split; [exact H1|exact H2|done]. Qed.

(** Telling the task of an event. *)
Lemma told_early (f : T -> Outcome T) (k : Drive -> Outcome (list DriveOutput * Drive)) d :
  early_ok d -> (forall d', early_ok d' -> ensures early_result (k d')) ->
  ensures early_result
    (d1 ← (match fd_task d with Some task => task' ← f task; Ret (set_task (Some task') d) | None => Ret d end); k d1).
Proof.
  intros Hd Hk. eapply (ensures_bind early_ok); [|exact Hk].
  case_match; [apply ensures_any; intros t'; by apply (same_early_ok d)|done].
Qed.

(** Every event of a drive. *)
Lemma handle_early e d :
  early_ok d -> (forall rq bl, e = EvStartVerification rq bl -> R rq) ->
  ensures early_result (FlatDriveSpec.handle e d).
Proof.
  intros Hd HR. destruct e; cbn [FlatDriveSpec.handle].
  - apply told_early; [done|]. intros d' Hd'. apply ifIdle_early. by apply (same_early_ok d').
  - apply told_early; [done|]. intros d' Hd'. apply ifIdle_early. by apply (same_early_ok d').
  - unfold cancelModifyDrive. apply (ensures_bind (fun p => early_ok p.2)).
    { case_match; [|done]. apply ensures_any. intros [b t']. by apply (same_early_ok d). }
    intros [b d1] Hd1. cbn in Hd1. repeat case_match; try done; by apply (early_nil d1).
  - apply ensures_assert. intros _. apply told_early; [done|]. intros d' Hd'. apply ifIdle_early. by apply (same_early_ok d').
  - unfold manualSynchronize. case_match; [|apply ifIdle_early; by apply (same_early_ok d)].
    case_match. case_match; [apply ifIdle_early; by apply (same_early_ok d)|].
    split; [by repeat constructor|by apply (same_early_ok d)].
  - unfold startVerification. specialize (HR _ _ eq_refl).
    assert (early_ok (set_deferredVerification (Some (request, blocked)) d)) as Hr.
    { destruct Hd. split; [done|done|]. by intros ? ? [= <- <-]. }
    case_bool_decide; [by split|]. destruct (fd_verificationTask _); [exact I|].
    case_decide; [by apply verification_early|by split].
  - unfold startDriveClosing. case_match; [done|]. apply nextTask_early, cancelVerification_early. by apply (same_early_ok d).
  - unfold onOpinionReceived. cbv zeta.
    assert (forall d', early_ok d' -> ensures early_result
      (match ai_opinions anOpinion with
       | [] => Stop UndefinedBehaviour
       | o :: _ =>
           Ret ([], set_unknownOpinions (<[ai_modifyTransactionHash anOpinion :=
             <[so_replicatorKey o := anOpinion]> (default ∅ (fd_unknownModificationOpinions d' !!
               ai_modifyTransactionHash anOpinion))]> (fd_unknownModificationOpinions d')) d')
       end)) as Hk by (intros d' Hd'; case_match; [done|by apply (early_nil d')]).
    destruct (fd_task d) as [t|]; [|by apply Hk]. apply ensures_any. intros [[] t']; [by apply (early_nil d)|].
    apply Hk. by apply (same_early_ok d).
  - apply ensures_assert. intros _.
    assert (early_ok (cancelVerification d)) as H1 by (by apply cancelVerification_early).
    cbv zeta. destruct (fd_task (cancelVerification d)) as [t|];
      [|apply nextTask_early; by apply (same_early_ok (cancelVerification d))].
    apply ensures_any. intros [b t']. case_match; by apply (early_nil (cancelVerification d)).
  - apply (early_nil d); [|done]. unfold onApprovalTransactionHasFailedInvalidOpinions. by case_match.
  - by apply (early_nil d).
  - by apply nextTask_early.
Qed.

End Drive.

(** ** The verification of one drive *)

Section Node.
  Context {T : Type} `{DriveTask T}.
  Context (task_terminate : T -> T) (sg : Signatures) (ourKey verifyCodeTimerDelay k : Z).
  Notation Node := (DriveNode T).

(** An opinion of this replicator, or signed by its author. *)
Definition signed (tx shard : Z) (o : VerifyOpinion) : Prop :=
  vo_publicKey o = ourKey \/ exists s, verifyVerifyOpinion sg tx k shard o s = true.
Definition opinion_signed (info : VerifyApprovalTxInfo) : Prop :=
  exists o, va_opinions info = [o] /\ signed (va_tx info) (va_shardId info) o.
Definition code_signed (info : VerificationCodeInfo) : Prop := exists s, verifyCode sg info s = true.
Definition names_us (rq : VerificationRequest) : Prop := ourKey ∈ vr_replicators rq.

Definition task_ok (p : VerificationRequest * VerificationTask) : Prop :=
  names_us p.1 /\ verify_inv p.1 ourKey p.2 /\ collected (signed (vr_tx p.1) (vr_shardId p.1)) p.2 /\
  vt_mustBeInterrupted p.2 = false.

Record node_ok (n : Node) : Prop := {
  no_early : early_ok opinion_signed code_signed names_us (nd_drive n);
  no_task p : nd_verification n = Some p -> task_ok p }.

(** A transaction: more than two thirds of the shard, different members, this
    replicator among them, every opinion its own or signed. *)
Definition transaction_ok (tx : VerifyApprovalTxInfo) : Prop :=
  exists rq, names_us rq /\ collected_ok rq tx /\ enough rq tx /\ mine_in ourKey tx /\
    Forall (signed (va_tx tx) (va_shardId tx)) (va_opinions tx).

Definition out_ok (o : NodeOutput) : Prop :=
  match o with FromVerification (VerificationTransactionIsReady tx) => transaction_ok tx | _ => True end.

Definition node_result (p : list NodeOutput * Node) : Prop := Forall out_ok p.1 /\ node_ok p.2.

Lemma own_signed tx shard os : signed tx shard (mkVerifyOpinion ourKey os).
Proof. by left. Qed.

Lemma outputs_ok rq out :
  names_us rq -> Forall (tx_ok rq ourKey) (ready_txs out) ->
  Forall (sent_ok (signed (vr_tx rq) (vr_shardId rq))) out -> Forall out_ok (map FromVerification out).
Proof.
  intros Hrq Ht Hs. apply Forall_map, Forall_forall. intros o Ho.
  rewrite Forall_forall in Ht, Hs. specialize (Hs o Ho). destruct o as [| | |tx]; try done.
  destruct (Ht (VerificationTransactionIsReady tx)) as (tx' & [= <-] & H1 & H2 & H3).
  { apply list_elem_of_In, filter_In. split; [by apply list_elem_of_In|done]. }
  cbn. exists rq. split_and!; try done. destruct H1 as (-> & -> & _). exact Hs.
Qed.

(** Creating the task of a request. *)
Lemma createVerifications_ok out v :
  Forall (start_ok opinion_signed code_signed names_us) out -> (forall p, v = Some p -> task_ok p) ->
  exists v', createVerifications ourKey verifyCodeTimerDelay k out v = Ret v' /\ forall p, v' = Some p -> task_ok p.
Proof.
  intros Hout. revert v. induction Hout as [|o out Ho _ IH]; intros v Hv; [by exists v|].
  destruct o as [|rq os cs| |]; cbn; try by apply IH. destruct Ho as (Hrq & Hos & Hcs).
  destruct (create_ok rq ourKey k true verifyCodeTimerDelay os cs) as (t & Et & Hinv & Hi & _).
  { eapply Forall_impl; [exact Hos|]. intros i (? & o & ? & _). eauto. }
  { eapply Forall_impl; [exact Hcs|]. by intros i []. }
  pose proof (create_keeps (signed (vr_tx rq) (vr_shardId rq)) rq ourKey k true verifyCodeTimerDelay
    (own_signed _ _) os cs) as Hk.
  assert (Forall (fun info => exists o, va_opinions info = [o] /\
    (va_tx info = vr_tx rq -> va_shardId info = vr_shardId rq -> signed (vr_tx rq) (vr_shardId rq) o)) os) as Ho'.
  { eapply Forall_impl; [exact Hos|]. intros i (E & o & ? & Hs). exists o. split; [done|]. intros _ <-. by rewrite <- E. }
  specialize (Hk Ho'). rewrite Et in Hk. cbn in Hk. destruct Hk as [Hc _].
  rewrite Et. cbn. apply IH. intros p [= <-]. by split_and!.
Qed.

Lemma onDrive_ok f n :
  node_ok n -> ensures (early_result opinion_signed code_signed names_us) (f (nd_drive n)) ->
  ensures node_result (onDrive ourKey verifyCodeTimerDelay k f n).
Proof.
  intros [He Ht] Hf. unfold onDrive. eapply ensures_bind; [exact Hf|]. intros [out d] [Ho Hd]. cbn in Ho, Hd.
  destruct (createVerifications_ok out (if fd_verificationTask d then nd_verification n else None) Ho) as (v' & -> & Hv).
  { intros p. case_match; [apply Ht|done]. }
  cbn. split; [|by split]. by apply Forall_map, Forall_forall.
Qed.

(** Messages: they are taken without a fault. *)
Lemma opinionReceived_ok info n :
  node_ok n -> opinion_signed info ->
  exists p, onVerificationOpinionReceived info n = Ret p /\ node_result p.
Proof.
  intros Hn Hi. unfold onVerificationOpinionReceived.
  assert (forall n', nd_drive n' = nd_drive n -> node_ok n' ->
    node_result ([], set_node_drive (keepVerificationOpinion info (nd_drive n')) n')) as Hkeep.
  { intros n' E [[H1 H2 H3] Ht]. split; [constructor|]. split; [|done]. split; [|done|done].
    cbn. intros tx l [[<- <-]|[_ E']]%lookup_insert_Some; [|by apply H1].
    apply Forall_app. split; [|by repeat constructor].
    destruct (fd_unknownVerificationOpinions _ !! _) eqn:E'; [by apply H1|constructor]. }
  destruct (nd_verification n) as [[rq t]|] eqn:En; [|eexists; split; [done|by apply Hkeep]].
  destruct (no_task n Hn _ En) as (Hrq & Hinv & Hc & Hint). cbn in *.
  destruct Hi as (o & Ho & Hs).
  destruct (process_spec rq true info o t Ho (vi_tx _ _ _ Hinv)) as (ok & A & Tm & E & Eff).
  assert (va_tx info = vr_tx rq -> va_shardId info = vr_shardId rq ->
    signed (vr_tx rq) (vr_shardId rq) o) as Hso by (by intros <- <-).
  pose proof (process_keeps (signed (vr_tx rq) (vr_shardId rq)) rq true info o t Ho Hso Hc) as Hk.
  rewrite E in Hk |- *. destruct Hk as (K1 & K2 & _). cbn in K1, K2.
  assert (node_ok (set_node_verification (Some (rq, with_opinions A Tm t)) n)) as Hn'.
  { split; [apply Hn|]. cbn. intros p [= <-]. split_and!; cbn; [done|by eapply inv_with_opinions|done|congruence]. }
  cbn -[with_opinions]. destruct ok; eexists; (split; [done|]); [split; [by apply Forall_nil|done]|exact (Hkeep (set_node_verification _ n) eq_refl Hn')].
Qed.

Lemma codeReceived_ok ms info n :
  node_ok n -> code_signed info ->
  exists p, onVerificationCodeReceived ourKey verifyCodeTimerDelay k ms info n = Ret p /\ node_result p.
Proof.
  intros Hn Hi. unfold onVerificationCodeReceived.
  assert (forall n', nd_drive n' = nd_drive n -> node_ok n' ->
    node_result ([], set_node_drive (keepVerificationCode info (nd_drive n')) n')) as Hkeep.
  { intros n' E [[H1 H2 H3] Ht]. split; [constructor|]. split; [|done]. split; [done| |done].
    cbn. intros tx l [[<- <-]|[_ E']]%lookup_insert_Some; [|by apply H2].
    apply Forall_app. split; [|by repeat constructor].
    destruct (fd_unknownVerificationCodeQueue _ !! _) eqn:E'; [by apply H2|constructor]. }
  destruct (nd_verification n) as [[rq t]|] eqn:En; [|eexists; split; [done|by apply Hkeep]].
  destruct (no_task n Hn _ En) as (Hrq & Hinv & Hc & Hint). cbn in Hrq, Hinv, Hc, Hint.
  destruct (step_code rq ourKey k true verifyCodeTimerDelay Hrq ms info t Hinv Hint) as (out & t' & E & Q1 & Q2 & _ & _).
  apply bind_ret_inv in E as ([[ok out'] t''] & E & [= -> ->]).
  pose proof (code_keeps (signed (vr_tx rq) (vr_shardId rq)) rq ourKey k true verifyCodeTimerDelay (own_signed _ _) ms info t Hc) as Hk.
  rewrite E in *. destruct Hk as [(K1 & K2 & K3) _]. cbn in K1, K2, K3.
  assert (node_ok (set_node_verification (Some (rq, t')) n)) as Hn'.
  { split; [apply Hn|]. cbn. intros p [= <-]. split_and!; try done. cbn. congruence. }
  cbn. destruct ok; eexists; (split; [done|]); [|exact (Hkeep (set_node_verification _ n) eq_refl Hn')].
  split; [|done]. apply (outputs_ok rq); [done| |done]. by rewrite Q2.
Qed.

(** What is guaranteed of an event. *)
Definition node_event_ok (e : NodeEvent T) : Prop :=
  match e with
  | NDrive (EvStartVerification rq _) => names_us rq
  | NVerificationOpinion info => opinion_signed info
  | NVerificationCode _ info => code_signed info
  | NVerify ev => internal ev = true
  | _ => True
  end.

Lemma node_result_nil n : node_ok n -> node_result ([], n).
Proof. intros Hn. split; [by apply Forall_nil|done]. Qed.

#[local] Hint Resolve node_result_nil : core.

(** A step of the verification. *)
Lemma verify_returns ev n :
  internal ev = true -> node_ok n ->
  exists p, node_step task_terminate verifyCodeTimerDelay ourKey k (NVerify ev) n = Ret p /\ node_result p.
Proof.
  intros He Hn. cbn [node_step].
  destruct (nd_verification n) as [[rq t]|] eqn:En; [|by exists ([], n)].
  destruct (computed rq ev) eqn:Ec; [|by exists ([], n)].
  destruct (no_task n Hn _ En) as (Hrq & Hinv & Hc & Hint). cbn in Hrq, Hinv, Hc, Hint.
  destruct (verify_step_ok rq ourKey k true verifyCodeTimerDelay Hrq ev t) as (out & t' & E & V1 & V2 & _); [|done|].
  { destruct ev; try done. by apply Nat.eqb_eq. }
  pose proof (verify_step_keeps (signed (vr_tx rq) (vr_shardId rq)) rq ourKey k true verifyCodeTimerDelay
    (own_signed _ _) ev t He Hc) as Hk.
  rewrite E in *. destruct Hk as (K1 & K2 & K3). cbn in K1, K2, K3. eexists. split; [done|].
  split; [by apply (outputs_ok rq)|]. split; [apply Hn|]. cbn. intros p [= <-]. split_and!; try done. cbn. congruence.
Qed.

Lemma node_step_ok e n :
  node_event_ok e -> node_ok n ->
  ensures node_result (node_step task_terminate verifyCodeTimerDelay ourKey k e n).
Proof.
  intros He Hn. assert (forall n', nd_verification n' = nd_verification n ->
    same_early (nd_drive n) (nd_drive n') -> node_result ([], n')) as Hsame.
  { intros n' Ev Es. split; [constructor|]. destruct Hn as [H1 H2]. split; [by eapply same_early_ok|].
    cbn. intros p. rewrite Ev. apply H2. }
  assert (forall ev, internal ev = true ->
    ensures node_result (node_step task_terminate verifyCodeTimerDelay ourKey k (NVerify ev) n)) as Hv.
  { intros ev Hev. destruct (verify_returns ev n Hev Hn) as (p & -> & Hp). exact Hp. }
  destruct e; cbn [node_step]; try by apply Hsame.
  - apply onDrive_ok; [done|]. apply handle_early; [apply Hn|]. by intros rq bl ->.
  - apply onDrive_ok; [done|]. apply nextTask_early, Hn.
  - apply onDrive_ok; [done|]. split; [constructor|]. apply cancelVerification_early, Hn.
  - destruct (opinionReceived_ok info n Hn He) as (p & -> & Hp). exact Hp.
  - destruct (codeReceived_ok ms info n Hn He) as (p & -> & Hp). exact Hp.
  - exact (Hv ev He).
  - unfold setShardDonator. destruct (allKnown l n); [by apply Hsame|exact I].
  - unfold setShardRecipient. destruct (allKnown l n); [by apply Hsame|exact I].
  - split; [constructor|]. split; [|done]. apply (same_early_ok _ _ _ (nd_drive n)); [done|apply Hn].
Qed.

End Node.

(** ** The replicator *)

Section Replicator.
  Context {T : Type} `{DriveTask T}.
  Context (task_terminate : T -> T) (sg : Signatures) (ar : Archives)
          (minReplicators : nat) (verifyCodeTimerDelay : Z).
  Notation Node := (DriveNode T).
  Notation Rep := (DefaultReplicator T).

(** A verification is asked of its members. *)
Definition event_ok (ourKey : Z) (e : ReplicatorEvent T) : Prop :=
  match e with RStartVerification _ request _ => ourKey ∈ vr_replicators request | _ => True end.

Definition nodes_ok (r : Rep) : Prop :=
  map_Forall (fun k n => node_ok sg (publicKey r) k n) (rp_driveMap r).

Lemma for_key_ok (Q : NodeEvent T -> Prop) k k' l : (k' = k -> Forall Q l) -> Forall Q (for_key k k' l).
Proof. intros Hl. unfold for_key. case_decide; [by apply Hl|constructor]. Qed.

Lemma message_ok our k ms query x k' ne :
  message_for sg ar ms query x = Some (k', ne) -> k' = k -> node_event_ok sg our k (T := T) ne.
Proof.
  unfold message_for. intros Hm <-. destruct (String.eqb query "code_verify").
  { destruct (decodeCode ar x) as [[info s]|]; [|discriminate Hm]. cbn in Hm.
    destruct (verifyCode sg info s) eqn:E; [|discriminate Hm]. injection Hm as <- <-. by exists s. }
  destruct (String.eqb query "verify_opinion"); [|discriminate Hm].
  destruct (decodeVerifyOpinion ar x) as [[info s]|]; [|discriminate Hm]. cbn in Hm.
  destruct (va_opinions info) as [|o [|]] eqn:Eo; [discriminate Hm| |discriminate Hm].
  destruct (verifyVerifyOpinion _ _ _ _ _ _) eqn:E; [|discriminate Hm]. injection Hm as <- <-.
  exists o. split; [done|]. right. by exists s.
Qed.

(** What reaches a drive: checked messages, and the steps of its own. *)
Lemma addressed_ok our k stopped e :
  event_ok our e -> Forall (node_event_ok sg our k) (addressed (T := T) sg ar stopped k e).
Proof.
  intros He. destruct e; cbn [addressed]; try (destruct stopped; [by constructor|]);
    try (apply for_key_ok; intros _; by repeat constructor); try (by repeat constructor).
  - apply for_key_ok. intros _. apply Forall_singleton. by destruct stopped.
  - destruct (internal ev) eqn:Ei; [|constructor]. apply for_key_ok. intros _. by repeat constructor.
  - destruct (message_for sg ar ms query x) as [[k' ne]|] eqn:Em; [|constructor].
    apply for_key_ok. intros Hk. constructor; [|constructor]. by eapply message_ok.
Qed.

Lemma node_steps_ok our k es (n : Node) :
  Forall (node_event_ok sg our k) es -> node_ok sg our k n ->
  ensures (node_result sg our k) (node_steps task_terminate verifyCodeTimerDelay our k es n).
Proof.
  intros Hes. revert n. induction Hes as [|e es He _ IH]; intros n Hn; cbn; [by split; [constructor|]|].
  eapply ensures_bind; [by apply node_step_ok|]. intros [out1 n1] [H1 H2]. cbn in H1, H2.
  eapply ensures_bind; [by apply IH|]. intros [out2 n2] [H3 H4]. cbn in H3, H4.
  split; [by apply Forall_app|done].
Qed.

Lemma new_node_ok our k request :
  ensures (node_result sg our k) (new_node (T := T) verifyCodeTimerDelay our k request).
Proof.
  apply onDrive_ok; [by split|]. cbn. apply startTask_early. by split.
Qed.

Lemma project_ok our k stopped e (o : option Node) :
  event_ok our e -> (forall n, o = Some n -> node_ok sg our k n) ->
  ensures (fun p => Forall (out_ok sg our k) p.1 /\ forall n, p.2 = Some n -> node_ok sg our k n)
    (project task_terminate sg ar verifyCodeTimerDelay our k stopped e o).
Proof.
  intros He Ho. destruct (ordinary e) eqn:Eo.
  - rewrite project_ordinary by done. destruct o as [n|]; [|by split].
    eapply ensures_bind; [apply node_steps_ok; [by apply addressed_ok|by apply Ho]|].
    intros [out n'] [H1 H2]. split; [done|]. by intros ? [= <-].
  - destruct e; try done.
    + rewrite project_add. destruct o as [n|]; [by split; [constructor|]|]. case_decide; [|by split].
      eapply ensures_bind; [apply new_node_ok|]. intros [out n'] [H1 H2]. split; [done|]. by intros ? [= <-].
    + rewrite project_finish. split; [by constructor|]. cbn. case_decide; [done|exact Ho].
    + destruct o as [n|]; [|by split]. cbn [project addressed].
      eapply ensures_bind; [apply node_steps_ok; [by repeat constructor|by apply Ho]|].
      intros [out n'] [H1 H2]. split; [done|]. by intros ? [= <-].
Qed.

(** One event. *)
Lemma rp_step_nodes_ok e (r : Rep) out r' :
  session_ok r -> event_ok (publicKey r) e -> nodes_ok r ->
  rp_step task_terminate sg ar minReplicators verifyCodeTimerDelay e r = Ret (out, r') ->
  nodes_ok r' /\ forall k, Forall (out_ok sg (publicKey r) k) (outputs_of k out).
Proof.
  intros Hs He Hn Hr.
  destruct (rp_step_stepped task_terminate sg ar minReplicators verifyCodeTimerDelay e r out r' Hs Hr) as [Hk _ _ Hp].
  assert (forall k, Forall (out_ok sg (publicKey r) k) (outputs_of k out) /\
    forall n, rp_driveMap r' !! k = Some n -> node_ok sg (publicKey r) k n) as Hall.
  { intros k. pose proof (project_ok (publicKey r) k (isStopped r) e (rp_driveMap r !! k) He (Hn k)) as Hok.
    rewrite Hp in Hok. exact Hok. }
  split; [|intros k; apply Hall]. intros k n Hkn. rewrite Hk. by apply Hall.
Qed.

Lemma outputs_of_elem k o out : DriveOut k o ∈ out -> o ∈ outputs_of k out.
Proof. intros Hin. apply list_elem_of_omap. exists (DriveOut k o). split; [done|]. by rewrite decide_True. Qed.

(** C5: verification, from the wire to the transaction.  Whatever a replicator has
    received since it started with no drives -- messages of anybody, in any order,
    for any drives -- a verification transaction that it sends for a drive has the
    opinions of different members of the shard of one request, this replicator among
    them, more than two thirds of the shard; and every opinion is its own or carries
    a valid signature of its author for this transaction, drive and shard. *)
Theorem replicator_verification es (r : Rep) out r' k tx :
  session_ok r -> rp_driveMap r = ∅ -> Forall (event_ok (publicKey r)) es ->
  rp_run task_terminate sg ar minReplicators verifyCodeTimerDelay es r = Ret (out, r') ->
  DriveOut k (FromVerification (VerificationTransactionIsReady tx)) ∈ out ->
  transaction_ok sg (publicKey r) k tx.
Proof.
  intros Hs Hd Hes Hr Hin. assert (nodes_ok r) as Hn by (unfold nodes_ok; rewrite Hd; apply map_Forall_empty).
  clear Hd. revert r out Hs Hes Hr Hin Hn. induction es as [|e es IH]; intros r out Hs Hes Hr Hin Hn; cbn in Hr.
  { injection Hr as <- <-. by apply not_elem_of_nil in Hin. }
  apply Forall_cons in Hes as [He Hes].
  destruct (rp_step _ _ _ _ _ e r) as [[out1 r1]|] eqn:E1; [|discriminate Hr]. cbn in Hr.
  destruct (rp_run _ _ _ _ _ es r1) as [[out2 r2]|] eqn:E2; [|discriminate Hr]. injection Hr as <- <-.
  destruct (rp_step_stepped _ _ _ _ _ e r out1 r1 Hs E1) as [Hk _ Hs1 _].
  destruct (rp_step_nodes_ok e r out1 r1 Hs He Hn E1) as [Hn1 Ho].
  apply elem_of_app in Hin as [Hin|Hin].
  - specialize (Ho k). rewrite Forall_forall in Ho. by apply (Ho _ (outputs_of_elem k _ _ Hin)).
  - rewrite <- Hk in *. by apply (IH r1 out2).
Qed.

End Replicator.

(** ** A concrete run *)

#[local] Existing Instance any_task.

(** An opinion is read as its transaction, drive, shard, author, signature and values. *)
Definition verifyArchives : Archives :=
  mkArchives (fun _ => None) (fun _ => None) (decodeCode sampleArchives)
    (fun x => match x with
              | tx :: dk :: shard :: key :: s :: os =>
                  Some (mkVerifyApprovalTxInfo tx dk shard [mkVerifyOpinion key os], s)
              | _ => None
              end)
    (fun _ _ _ => []) (fun _ => None).

Definition verifyRequest : VerificationRequest := mkVerificationRequest 1000 0 0 [1; 2; 3] 60000.

(** The opinion of 2 comes before the request; one with the signature of another for 3
    is dropped, and so is the opinion of 9, who is not of the shard. *)
Definition verifyEvents : list (ReplicatorEvent AnyTask) :=
  [RAddDrive 50 sampleRequest; RTaskFinished 50;
   RDhtRequest 0 [] "verify_opinion" [1000; 50; 0; 2; 2; 1; 1; 0] [];
   RStartVerification 50 verifyRequest [];
   RDhtRequest 0 [] "verify_opinion" [1000; 50; 0; 3; 2; 0; 0; 0] [];
   RDhtRequest 0 [] "verify_opinion" [1000; 50; 0; 9; 9; 1; 1; 1] [];
   RVerify 50 (CodesCompleted 5 [11; 12; 13]);
   RDhtRequest 6 [] "code_verify" [1000; 2; 50; 12; 2] [];
   RDhtRequest 7 [] "code_verify" [1000; 3; 50; 99; 3] [];
   RDhtRequest 8 [] "verify_opinion" [1000; 50; 0; 3; 3; 1; 1; 1] [];
   RVerify 50 VerifyOpinionTimer].

Definition verifyRun :=
  rp_run (T := AnyTask) (H := any_task sampleParams) id sampleSignatures verifyArchives 4 1000 verifyEvents freshReplicator.

Definition verifyTx : VerifyApprovalTxInfo :=
  mkVerifyApprovalTxInfo 1000 50 0
    [mkVerifyOpinion 2 [1; 1; 0]; mkVerifyOpinion 1 [1; 1; 0]; mkVerifyOpinion 3 [1; 1; 1]].

Lemma replicator_verification_witness : exists out r',
  verifyRun = Ret (out, r') /\ DriveOut 50 (FromVerification (VerificationTransactionIsReady verifyTx)) ∈ out /\
  transaction_ok sampleSignatures 1 50 verifyTx.
Proof.
  destruct verifyRun as [[out r']|] eqn:E; [|vm_compute in E; discriminate E].
  exists out, r'. split; [reflexivity|].
  assert (DriveOut 50 (FromVerification (VerificationTransactionIsReady verifyTx)) ∈ out) as Hin.
  { vm_compute in E. injection E as <- <-. apply list_elem_of_In. vm_compute. tauto. }
  split; [exact Hin|].
  apply (replicator_verification (H := any_task sampleParams) id sampleSignatures verifyArchives 4 1000
    verifyEvents freshReplicator out r' 50 verifyTx).
  - reflexivity.
  - reflexivity.
  - repeat constructor.
  - exact E.
  - exact Hin.
Defined.
