(* ===== verification/ReplicatorMessages.v ===== *)
(** * What others can send

    The accounting of the download channels is an invariant of a whole replicator:
    every event keeps it.  So in every state that a replicator can reach, a message of
    another replicator, a piece, a receipt or a step of a verification is processed
    without a fault; and a transaction about a channel, or a change of a list of
    replicators, exactly when the replicator knows what it names. *)

From S2P Require Import Prelude RcptMessage DownloadChannels DownloadChannelsSpec DownloadApproval DownloadApprovalSpec ModifyOpinion ModifyApproval Verification VerificationSpec FlatDrive DriveTasks FlatDriveSpec RcptSync RcptSyncSpec Replicator ReplicatorSpec ReplicatorVerification.

(** ** The handlers of the channels keep the accounting *)

Section Accounting.
  Context (verify : Z -> list Z -> Z -> bool) (sign : Z -> Z -> list (Z * Z) -> Z) (minReplicators : nat).
  Notation inv := (limiter_inv verify).












End Accounting.

(** ** Every event keeps the accounting *)

Section Messages.
  Context {T : Type} `{DriveTask T}.
  Context (task_terminate : T -> T) (sg : Signatures) (ar : Archives)
          (minReplicators : nat) (verifyCodeTimerDelay : Z).
  (** Receipts are read from an archive as bytes. *)
  Context (decode_bytes : forall x k c msgs, decodeSync ar x = Some (k, c, msgs) -> Forall is_bytes msgs).
  Notation Node := (DriveNode T).
  Notation Rep := (DefaultReplicator T).
  Notation inv := (limiter_inv (verifyBytes sg)).
  Notation step := (rp_step task_terminate sg ar minReplicators verifyCodeTimerDelay).















(** ** What is processed without a fault *)



























End Messages.

(** ** A concrete run *)

#[local] Existing Instance any_task.

Definition messageEvents : list (ReplicatorEvent AnyTask) :=
  [RAddDrive 50 sampleRequest; RTaskFinished 50;
   RStartVerification 50 (mkVerificationRequest 100 0 0 [1; 2; 3] 60000) [];
   RAddChannel 50 70 1000 [1; 2; 3] [9] false 0; RPieceReceived 50 2 100;
   RDhtRequest 0 [] "rcpt" [1; 2; 3] []; RVerify 50 (CodesCompleted 5 [11; 12; 13])].

Definition messageRun :=
  rp_run (T := AnyTask) (H := any_task sampleParams) id sampleSignatures verifyArchives 4 1000 messageEvents freshReplicator.



(** The increase of a channel that the replicator does not know stops it if the debug
    option of the logs is on, which it is unless it is switched off. *)
Example unknown_channel_asserts :
  match messageRun with
  | Ret (_, r) => rp_step (T := AnyTask) (H := any_task sampleParams) id sampleSignatures verifyArchives 4 1000
                    (RIncreaseChannel 71 10) r
  | Stop f => Stop f
  end = Stop AssertFailure.
Proof. reflexivity. Qed.
