(* ===== verification/Playlist.v ===== *)
(** * Playlists of streams

    The text that a replicator writes into the folder of a finished stream
    ([src/drive/StreamTask.cpp]) and a viewer writes for its player
    ([src/drive/ViewerSession.cpp]), and how the viewer reads the first one.
    [playlist_roundtrip]: it reads the chunks that were written, in their order. *)

From stdpp Require Import pretty.
From S2P Require Import Prelude RcptMessage ActionList.
#[local] Open Scope Z_scope.

(** ** Streams of characters *)

Definition newline : Ascii.ascii := Ascii.ascii_of_nat 10.

(** [line << std::endl]. *)
Definition endl (line : string) : string := line +:+ String newline EmptyString.

(** What repeated [std::getline] reads. *)
Fixpoint getlines_from (acc : string) (s : string) : list string :=
  match s with
  | EmptyString => if decide (acc = "") then [] else [acc]
  | String c s' =>
      if decide (c = newline) then acc :: getlines_from "" s'
      else getlines_from (acc +:+ String c EmptyString) s'
  end.
Definition getlines (s : string) : list string := getlines_from "" s.

(** A [std::array] printed by [operator<<] of [Key]: hexadecimal digits in upper case. *)
Definition upperDigit (d : Z) : Ascii.ascii := Z_ascii (if d <? 10 then 48 + d else 65 + (d - 10)).
Fixpoint upperHex (bytes : list Z) : string :=
  match bytes with
  | [] => ""
  | b :: bytes' => String (upperDigit (b / 16)) (String (upperDigit (b mod 16)) (upperHex bytes'))
  end.
Definition printKey (hash : Z) : string := upperHex (be_bytes 32 hash).

(** [std::stoi]: blanks, a sign, digits, and what follows them is not read; no digits
    or a value out of the range of [int] throws. *)
Definition is_digit (c : Ascii.ascii) : bool := (48 <=? ascii_Z c) && (ascii_Z c <=? 57).
Fixpoint digits (acc : Z) (s : string) : Z :=
  match s with
  | String c s' => if is_digit c then digits (acc * 10 + (ascii_Z c - 48)) s' else acc
  | EmptyString => acc
  end.
Fixpoint skip_blanks (s : string) : string :=
  match s with
  | String c s' => if (ascii_Z c =? 32) || ((9 <=? ascii_Z c) && (ascii_Z c <=? 13)) then skip_blanks s' else s
  | EmptyString => s
  end.
Definition in_int (z : Z) : option Z := if (-2147483648 <=? z) && (z <=? 2147483647) then Some z else None.
Definition stoi (s : string) : option Z :=
  match skip_blanks s with
  | String c s' =>
      if is_digit c then in_int (digits 0 (String c s'))
      else if (ascii_Z c =? 45) || (ascii_Z c =? 43) then
        match s' with
        | String c' _ => if is_digit c' then in_int (if ascii_Z c =? 45 then - digits 0 s' else digits 0 s') else None
        | EmptyString => None
        end
      else None
  | EmptyString => None
  end.

(** [memcmp( line.c_str(), prefix, sizeof )] is [0]; the rest is [line.substr]. *)
Fixpoint after (prefix line : string) : option string :=
  match prefix, line with
  | EmptyString, _ => Some line
  | String a p', String b l' => if decide (a = b) then after p' l' else None
  | String _ _, EmptyString => None
  end.

(** ** Writing *)

(** An entry: the parts of the duration before and after the point, and the chunk. *)
Record PlaylistEntry := mkEntry { pe_seconds : Z; pe_fraction : Z; pe_hash : Z }.

Definition number (z : Z) : string := pretty (Z.to_N z).

(** [#EXTINF:<seconds>.<fraction>]: the fraction is printed as a number. *)
Definition printEntry (e : PlaylistEntry) : string :=
  endl ("#EXTINF:" +:+ number (pe_seconds e) +:+ "." +:+ number (pe_fraction e)) +:+ endl (printKey (pe_hash e)).

Definition printPlaylist (targetDuration mediaSequence : Z) (entries : list PlaylistEntry) : string :=
  endl "#EXTM3U" +:+ endl "#EXT-X-VERSION:3" +:+
  endl ("#EXT-X-TARGETDURATION:" +:+ number targetDuration) +:+
  endl ("#EXT-X-MEDIA-SEQUENCE:" +:+ number mediaSequence) +:+
  foldr (fun e text => printEntry e +:+ text) "" entries.

Definition two32 : Z := 4294967296.
Definition u32 (z : Z) : Z := z mod two32.

(** [maxDuration], in [uint32_t]. *)
Definition targetDuration (durationsMks : list Z) : Z :=
  foldl (fun maxDuration d => let seconds := u32 (d + 100000 - 1) / 1000000 in
                              if maxDuration <? seconds then seconds else maxDuration) 1 durationsMks.

(** ** Reading *)

(** The loop of [DefaultViewerSession::downloadChunks]: the chunks that are read, and
    [false] when it returns or throws before they are downloaded.  A number of the
    first chunk that cannot be read is an error that is logged.  [std::stof] of a
    duration may throw too, which is caught and changes nothing. *)
Fixpoint readChunks (lines : list string) (chunks : list Z) : Outcome (bool * list Z) :=
  match lines with
  | [] => Ret (true, chunks)
  | line :: lines' =>
      match after "#EXT-X-VERSION:" line with
      | Some version =>
          match stoi version with
          | Some v => if (v =? 3) || (v =? 4) then readChunks lines' chunks else Ret (false, chunks)
          | None => Ret (false, chunks)
          end
      | None =>
          match after "#EXT-X-TARGETDURATION:" line with
          | Some _ => readChunks lines' chunks
          | None =>
              match after "#EXT-X-MEDIA-SEQUENCE:" line with
              | Some sequence =>
                  match stoi sequence with
                  | Some _ => readChunks lines' chunks
                  | None => log_err (Ret (false, chunks))
                  end
              | None =>
                  match after "#EXTINF:" line with
                  | Some _ =>
                      match lines' with
                      | [] => Ret (true, chunks)
                      | name :: lines'' =>
                          match stringToByteArray name with
                          | Some hash => readChunks lines'' (chunks ++ [hash])
                          | None => Ret (false, chunks)
                          end
                      end
                  | None => readChunks lines' chunks
                  end
              end
          end
      end
  end.

(** The first line is only compared, to be logged. *)
Definition downloadChunks (text : string) : Outcome (bool * list Z) := readChunks (tl (getlines text)) [].

(** Every line that numbers the first chunk has a number. *)
Definition sequence_readable (line : string) : Prop :=
  forall sequence, after "#EXT-X-MEDIA-SEQUENCE:" line = Some sequence -> is_Some (stoi sequence).

Definition sequences_readable (text : string) : Prop := Forall sequence_readable (tl (getlines text)).

Lemma readChunks_returns lines chunks :
  Forall sequence_readable lines -> exists r, readChunks lines chunks = Ret r.
Proof.
  remember (length lines) as n eqn:En. revert lines chunks En.
  induction (lt_wf n) as [n _ IH]. intros lines chunks -> Hl.
  assert (forall l c, (length l < length lines)%nat -> Forall sequence_readable l -> exists r, readChunks l c = Ret r) as Hr
    by (intros l c K; by apply (IH _ K l c)).
  destruct Hl as [|line lines Hs Hl]; [by eexists|]. cbn [readChunks].
  destruct (after "#EXT-X-VERSION:" line).
  { case_match; [|by eexists]. case_match; [apply Hr; [cbn; lia|done]|by eexists]. }
  destruct (after "#EXT-X-TARGETDURATION:" line); [apply Hr; [cbn; lia|done]|].
  destruct (after "#EXT-X-MEDIA-SEQUENCE:" line) as [q|] eqn:Eq.
  { destruct (Hs q Eq) as [v ->]. apply Hr; [cbn; lia|done]. }
  destruct (after "#EXTINF:" line); [|apply Hr; [cbn; lia|done]].
  destruct Hl as [|name lines Hn Hl]; [by eexists|].
  destruct (stringToByteArray name); [|by eexists]. apply Hr; [cbn; lia|done].
Qed.

(** ** Lines *)

Fixpoint no_newline (s : string) : Prop :=
  match s with EmptyString => True | String c s' => c <> newline /\ no_newline s' end.

Lemma no_newline_app s t : no_newline s -> no_newline t -> no_newline (s +:+ t).
Proof. induction s as [|c s IH]; cbn; [done|]. intros [? ?] ?. split; [done|by apply IH]. Qed.

Lemma string_app_cons s c t : s +:+ String c t = (s +:+ String c EmptyString) +:+ t.
Proof. induction s as [|a s IH]; [done|]. exact (f_equal (String a) IH). Qed.

Lemma string_app_nil s : s +:+ "" = s.
Proof. induction s as [|a s IH]; [done|]. exact (f_equal (String a) IH). Qed.

Lemma getlines_from_char acc c s :
  c <> newline -> getlines_from acc (String c s) = getlines_from (acc +:+ String c EmptyString) s.
Proof. intros Hc. cbn [getlines_from]. by rewrite decide_False. Qed.

Lemma endl_cons c line rest : endl (String c line) +:+ rest = String c (endl line +:+ rest).
Proof. done. Qed.

Lemma getlines_from_endl acc line rest :
  no_newline line -> getlines_from acc (endl line +:+ rest) = (acc +:+ line) :: getlines_from "" rest.
Proof.
  revert acc. induction line as [|c line IH]; intros acc.
  - intros _. rewrite string_app_nil. reflexivity.
  - intros [Hc Hl]. rewrite endl_cons, getlines_from_char, IH, <- string_app_cons by done. done.
Qed.

Lemma getlines_endl line rest : no_newline line -> getlines (endl line +:+ rest) = line :: getlines rest.
Proof. intros H. unfold getlines. by rewrite getlines_from_endl. Qed.

(** Numbers and keys are printed on one line. *)
Lemma pretty_N_char_no_newline x : pretty_N_char x <> newline.
Proof. unfold pretty_N_char. repeat case_match; discriminate. Qed.

Lemma pretty_go_no_newline x s : no_newline s -> no_newline (pretty_N_go x s).
Proof.
  revert s. induction (N.lt_wf_0 x) as [x _ IH]; intros s Hs.
  destruct (decide (x = 0)%N) as [->|Hx]; [by rewrite pretty_N_go_0|].
  rewrite pretty_N_go_step by lia. apply IH; [apply N.div_lt; lia|].
  split; [apply pretty_N_char_no_newline|done].
Qed.

Lemma number_no_newline z : no_newline (number z).
Proof.
  unfold number, pretty, pretty_N. case_decide; [by split|]. by apply pretty_go_no_newline.
Qed.

Lemma upperDigit_cases d : 0 <= d < 16 ->
  charToInt (upperDigit d) = Some d /\ upperDigit d <> newline.
Proof.
  intros H. rewrite <- (Z2Nat.id d) by lia. assert (Z.to_nat d < 16)%nat as Hn by lia.
  revert Hn. generalize (Z.to_nat d). clear. intros n Hn.
  do 16 (destruct n as [|n]; [split; [reflexivity|discriminate]|]). lia.
Qed.

Lemma nibbles b : 0 <= b < 256 -> 0 <= b / 16 < 16 /\ 0 <= b mod 16 < 16.
Proof. intros H. split; [split; [apply Z.div_pos|apply Z.div_lt_upper_bound]|apply Z.mod_pos_bound]; lia. Qed.

Lemma upperHex_no_newline bytes : is_bytes bytes -> no_newline (upperHex bytes).
Proof.
  induction 1 as [|b bytes Hb _ IH]; [done|]. destruct (nibbles b Hb). cbn.
  split; [by apply upperDigit_cases|]. split; [by apply upperDigit_cases|done].
Qed.

Lemma hexBytes_upperHex bytes : is_bytes bytes -> hexBytes (upperHex bytes) = Some bytes.
Proof.
  induction 1 as [|b bytes Hb _ IH]; [done|]. destruct (nibbles b Hb) as [H1 H2]. cbn [upperHex hexBytes].
  rewrite (proj1 (upperDigit_cases _ H1)), (proj1 (upperDigit_cases _ H2)). cbn [mbind option_bind].
  rewrite IH. cbn. do 2 f_equal. rewrite Z.shiftl_mul_pow2 by lia. change (2 ^ 4) with 16.
  rewrite (Z.div_mod b 16) at 3 by lia. lia.
Qed.

Lemma upperHex_length bytes : String.length (upperHex bytes) = (2 * length bytes)%nat.
Proof. induction bytes as [|b bytes IH]; [done|]. cbn. rewrite IH. lia. Qed.

(** The viewer reads what [operator<<] prints, although files are named in lower case. *)
Lemma stringToByteArray_printKey hash : 0 <= hash < 256 ^ 32 -> stringToByteArray (printKey hash) = Some hash.
Proof.
  intros H. unfold stringToByteArray, printKey.
  pose proof (length_be_bytes 32 hash) as Hl.
  rewrite decide_False by (rewrite upperHex_length, Hl; by intros []).
  rewrite hexBytes_upperHex by apply be_bytes_is_bytes.
  change (Some (of_be (be_bytes 32 hash)) = Some hash). by rewrite of_be_bytes.
Qed.

(** ** What is written is read *)

(** Prefixes. *)
Lemma after_app p s : after p (p +:+ s) = Some s.
Proof.
  induction p as [|c p IH]; [by destruct s|]. change (String c p +:+ s) with (String c (p +:+ s)).
  cbn [after]. by case_decide.
Qed.

Definition is_hash (h : Z) : Prop := 0 <= h < 256 ^ 32.

Lemma readChunks_entry e lines chunks :
  is_hash (pe_hash e) ->
  readChunks (("#EXTINF:" +:+ number (pe_seconds e) +:+ "." +:+ number (pe_fraction e)) :: printKey (pe_hash e) :: lines) chunks =
  readChunks lines (chunks ++ [pe_hash e]).
Proof.
  intros Hh. cbn [readChunks].
  set (d := number (pe_seconds e) +:+ "." +:+ number (pe_fraction e)).
  change (after "#EXT-X-VERSION:" ("#EXTINF:" +:+ d)) with (@None string).
  change (after "#EXT-X-TARGETDURATION:" ("#EXTINF:" +:+ d)) with (@None string).
  change (after "#EXT-X-MEDIA-SEQUENCE:" ("#EXTINF:" +:+ d)) with (@None string).
  rewrite after_app. cbv iota. by rewrite (stringToByteArray_printKey _ Hh).
Qed.

Lemma string_app_assoc s t u : (s +:+ t) +:+ u = s +:+ (t +:+ u).
Proof. induction s as [|a s IH]; [done|]. exact (f_equal (String a) IH). Qed.

Lemma extinf_no_newline e : no_newline ("#EXTINF:" +:+ number (pe_seconds e) +:+ "." +:+ number (pe_fraction e)).
Proof. repeat apply no_newline_app; try apply number_no_newline; by repeat split. Qed.

Lemma printKey_no_newline h : no_newline (printKey h).
Proof. apply upperHex_no_newline, be_bytes_is_bytes. Qed.

Lemma getlines_entry e rest :
  getlines (printEntry e +:+ rest) =
  ("#EXTINF:" +:+ number (pe_seconds e) +:+ "." +:+ number (pe_fraction e)) :: printKey (pe_hash e) :: getlines rest.
Proof.
  unfold printEntry. rewrite string_app_assoc, getlines_endl by apply extinf_no_newline.
  by rewrite getlines_endl by apply printKey_no_newline.
Qed.

Lemma readChunks_entries entries chunks :
  Forall (fun e => is_hash (pe_hash e)) entries ->
  readChunks (getlines (foldr (fun e text => printEntry e +:+ text) "" entries)) chunks =
  Ret (true, chunks ++ map pe_hash entries).
Proof.
  intros He. revert chunks. induction He as [|e entries Hh _ IH]; intros chunks; cbn [foldr map].
  - by rewrite app_nil_r.
  - rewrite getlines_entry, readChunks_entry, IH by done. by rewrite <- app_assoc.
Qed.

(** Numbers are read as they are printed. *)
Lemma pretty_N_char_digit x :
  (x < 10)%N -> is_digit (pretty_N_char x) = true /\ ascii_Z (pretty_N_char x) - 48 = Z.of_N x.
Proof.
  intros H. assert (N.to_nat x < 10)%nat as Hn by lia. rewrite <- (N2Nat.id x). revert Hn. generalize (N.to_nat x). clear.
  intros n Hn. do 10 (destruct n as [|n]; [by split|]). lia.
Qed.

Lemma digits_cons acc c s : is_digit c = true -> digits acc (String c s) = digits (acc * 10 + (ascii_Z c - 48)) s.
Proof. intros H. cbn [digits]. by rewrite H. Qed.

Lemma digits_pretty x s : digits 0 (pretty_N_go x s) = digits (Z.of_N x) s.
Proof.
  revert s. induction (N.lt_wf_0 x) as [x _ IH]; intros s.
  destruct (decide (x = 0)%N) as [->|Hx]; [by rewrite pretty_N_go_0|].
  rewrite pretty_N_go_step by lia. rewrite IH by (apply N.div_lt; lia).
  destruct (pretty_N_char_digit (x mod 10)) as [Hd Hv]; [by apply N.mod_lt|].
  rewrite digits_cons, Hv by done. f_equal. rewrite N2Z.inj_div, N2Z.inj_mod. pose proof (Z.div_mod (Z.of_N x) 10). lia.
Qed.

Lemma pretty_go_digit x s : x <> 0%N \/ (exists c s', s = String c s' /\ is_digit c = true) ->
  exists c s', pretty_N_go x s = String c s' /\ is_digit c = true.
Proof.
  revert s. induction (N.lt_wf_0 x) as [x _ IH]; intros s H.
  destruct (decide (x = 0)%N) as [->|Hx]; [rewrite pretty_N_go_0; by destruct H|].
  rewrite pretty_N_go_step by lia. apply IH; [apply N.div_lt; lia|]. right.
  do 2 eexists. split; [done|]. by apply pretty_N_char_digit, N.mod_lt.
Qed.

Lemma skip_digit c s : is_digit c = true -> skip_blanks (String c s) = String c s.
Proof.
  unfold is_digit. intros [H1 H2]%andb_prop. apply Z.leb_le in H1, H2. cbn [skip_blanks].
  destruct (Z.eqb_spec (ascii_Z c) 32); [lia|]. destruct (Z.leb_spec 9 (ascii_Z c)); [|done].
  destruct (Z.leb_spec (ascii_Z c) 13); [lia|done].
Qed.

Lemma stoi_number n : 0 <= n <= 2147483647 -> stoi (number n) = Some n.
Proof.
  intros Hn. unfold stoi, number, pretty, pretty_N.
  destruct (decide (Z.to_N n = 0%N)) as [E|E]; [by assert (n = 0) as -> by lia|].
  destruct (pretty_go_digit (Z.to_N n) "") as (c & s & Es & Hc); [by left|].
  pose proof (digits_pretty (Z.to_N n) "") as Hd. rewrite Es in *. rewrite skip_digit, Hc by done. rewrite Hd.
  cbn [digits]. rewrite Z2N.id by lia. unfold in_int.
  destruct (Z.leb_spec (-2147483648) n); [|lia]. by destruct (Z.leb_spec n 2147483647); [|lia].
Qed.

Lemma downloadChunks_printPlaylist target sequence entries :
  0 <= sequence <= 2147483647 -> Forall (fun e => is_hash (pe_hash e)) entries ->
  downloadChunks (printPlaylist target sequence entries) = Ret (true, map pe_hash entries).
Proof.
  intros Hs He. unfold downloadChunks, printPlaylist.
  rewrite !getlines_endl;
    try (by repeat split); try (apply no_newline_app; [by repeat split|apply number_no_newline]).
  cbn [tl]. set (t := number target). set (lines := getlines _).
  set (q := number sequence).
  change (readChunks ("#EXT-X-VERSION:3" :: ("#EXT-X-TARGETDURATION:" +:+ t) :: ("#EXT-X-MEDIA-SEQUENCE:" +:+ q) :: lines) [])
    with (match stoi q with Some _ => readChunks lines [] | None => log_err (Ret (false, [])) end).
  subst q. rewrite (stoi_number _ Hs). by apply readChunks_entries.
Qed.

(** A playlist that was written is read as its chunks, in their order, for
    every duration, every hash, and every number of the first chunk that fits into
    an [int]. *)
Lemma playlist_roundtrip target sequence entries :
  0 <= sequence <= 2147483647 -> Forall (fun e => is_hash (pe_hash e)) entries ->
  downloadChunks (printPlaylist target sequence entries) = Ret (true, map pe_hash entries).
Proof. apply downloadChunks_printPlaylist. Qed.

(** ** Concrete playlists *)

Lemma playlist_roundtrip_witness :
  downloadChunks (printPlaylist 5 12 [mkEntry 4 50000 7; mkEntry 0 1 171]) = Ret (true, [7; 171]).
Proof.
  apply (playlist_roundtrip 5 12 [mkEntry 4 50000 7; mkEntry 0 1 171]); [lia|].
  repeat constructor; by vm_compute.
Defined.

(** A duration of 2.05 seconds is written as 2.5: the fraction has no leading zeros. *)
Example fraction_is_not_padded :
  printEntry (mkEntry (2050000 / 1000000) (2050000 mod 1000000) 0) =
  endl "#EXTINF:2.50000" +:+ endl (printKey 0).
Proof. vm_compute. reflexivity. Qed.

(** 1.9 seconds do not fit into the target duration: 100000 is added for 1000000. *)
Example target_duration_is_too_short : targetDuration [1900000] = 1.
Proof. vm_compute. reflexivity. Qed.

(** A playlist names a chunk in upper case; the file of the chunk is in lower case. *)
Example playlist_names_other_files : printKey 171 <> hashToFileName 171.
Proof. vm_compute. discriminate. Qed.

(** A number of the first chunk that is none stops the program. *)
Example unreadable_sequence_asserts :
  downloadChunks (endl "#EXTM3U" +:+ endl "#EXT-X-MEDIA-SEQUENCE:first") = Stop AssertFailure.
Proof. vm_compute. reflexivity. Qed.
