(* ===== verification/Streaming.v ===== *)
(** * Streams ([include/drive/Streaming.h], [src/drive/StreamTask.cpp])

    A streamer announces the chunks of a live stream one by one; the replicators of
    the drive download them in their order and pass the announcements on to the
    viewers.  When the streamer finishes, a file that lists all chunks is downloaded,
    and when everything it lists is there the folder of the stream is added to the
    file structure.  The approval of the result is in [ModifyApproval.StreamTask].

    - The task runs on two threads; each has a queue of jobs here, which are executed
      in order, and an event executes the next one.  A handler between two
      posts is atomic (the code locks a mutex, though not everywhere).
    - [m_downloadingChunkInfoIt] is the position it was set to.  It is an iterator of
      a [std::deque] that grows, so by the standard it is not valid any more when it
      is used; a valid one is modelled.
    - The disk, the endpoint of the streamer and the finish file enter with the job
      that reads them. *)

From S2P Require Import Prelude RcptMessage OrderedMap FsPath FsStatistics FsTree ModifyOpinion ModifyApproval ActionList ModifyDrive Playlist.

(** ** Data *)

Record ChunkInfo := mkChunkInfo {
  ch_streamId : Z; ch_chunkIndex : Z; ch_chunkInfoHash : Z; ch_durationMks : Z; ch_sizeBytes : Z; ch_sign : Z }.

Record FinishStreamChunkInfo := mkFinishChunk {
  fc_chunkIndex : Z; fc_chunkInfoHash : Z; fc_durationMks : Z; fc_sizeBytes : Z; fc_saveOnDrive : bool }.

Record StreamRequest := mkStreamRequest {
  sq_streamId : Z; sq_streamerKey : Z; sq_folder : string; sq_maxSizeBytes : Z }.

(** What a chunk's signature covers. *)
Definition signedData (c : ChunkInfo) : Z * Z * Z * Z * Z :=
  (ch_streamId c, ch_chunkIndex c, ch_chunkInfoHash c, ch_durationMks c, ch_sizeBytes c).

(** [ChunkInfo::Verify]; [verify key data signature] is [crypto::Verify]. *)
Definition Verify (verify : Z -> Z * Z * Z * Z * Z -> Z -> bool) (streamerKey : Z) (c : ChunkInfo) : bool :=
  verify streamerKey (signedData c) (ch_sign c).

(** What [executeOnSessionThread] and [executeOnBackgroundThread] were given. *)
Inductive SessionJob := TryDownloadNextChunk | RequestFinishChunk | AddPlaylist (hash : Z).
Inductive BackgroundJob := ParseFinishInfoFile | CheckFinishCondition.

Record StreamData := mkStreamData {
  sd_chunkInfoList : list (option ChunkInfo);
  sd_downloadingIt : option nat;          (* m_downloadingChunkInfoIt, when it was set *)
  sd_downloadingItSize : nat;             (* the size of m_chunkInfoList at that time *)
  sd_downloadingLtHandle : option Z;      (* the chunk that is downloaded *)
  sd_streamerEndpoint : option Z;
  sd_finishInfoHash : option Z;
  sd_finishDownloading : bool;            (* the finish file is downloaded *)
  sd_finishInfo : list FinishStreamChunkInfo;
  sd_finishStreamIt : nat;
  sd_torrentHandleMap : TorrentMap;
  sd_sandboxFsTree : option Folder;
  sd_sandboxRootHash : option Z;
  sd_nodes : StatStore;
  sd_taskIsInterrupted : bool;
  sd_session : list SessionJob;
  sd_background : list BackgroundJob }.

Definition newStream (torrents : TorrentMap) (nodes : StatStore) : StreamData :=
  mkStreamData [] None 0 None None None false [] 0 torrents None None nodes false [] [].

Definition set_chunks v s := mkStreamData v (sd_downloadingIt s) (sd_downloadingItSize s) (sd_downloadingLtHandle s) (sd_streamerEndpoint s)
  (sd_finishInfoHash s) (sd_finishDownloading s) (sd_finishInfo s) (sd_finishStreamIt s) (sd_torrentHandleMap s)
  (sd_sandboxFsTree s) (sd_sandboxRootHash s) (sd_nodes s) (sd_taskIsInterrupted s) (sd_session s) (sd_background s).
Definition set_downloadingIt v s := mkStreamData (sd_chunkInfoList s) v (length (sd_chunkInfoList s)) (sd_downloadingLtHandle s) (sd_streamerEndpoint s)
  (sd_finishInfoHash s) (sd_finishDownloading s) (sd_finishInfo s) (sd_finishStreamIt s) (sd_torrentHandleMap s)
  (sd_sandboxFsTree s) (sd_sandboxRootHash s) (sd_nodes s) (sd_taskIsInterrupted s) (sd_session s) (sd_background s).
Definition set_ltHandle v s := mkStreamData (sd_chunkInfoList s) (sd_downloadingIt s) (sd_downloadingItSize s) v (sd_streamerEndpoint s)
  (sd_finishInfoHash s) (sd_finishDownloading s) (sd_finishInfo s) (sd_finishStreamIt s) (sd_torrentHandleMap s)
  (sd_sandboxFsTree s) (sd_sandboxRootHash s) (sd_nodes s) (sd_taskIsInterrupted s) (sd_session s) (sd_background s).
Definition set_streamerEndpoint v s := mkStreamData (sd_chunkInfoList s) (sd_downloadingIt s) (sd_downloadingItSize s) (sd_downloadingLtHandle s) v
  (sd_finishInfoHash s) (sd_finishDownloading s) (sd_finishInfo s) (sd_finishStreamIt s) (sd_torrentHandleMap s)
  (sd_sandboxFsTree s) (sd_sandboxRootHash s) (sd_nodes s) (sd_taskIsInterrupted s) (sd_session s) (sd_background s).
Definition set_finishHash v downloading s := mkStreamData (sd_chunkInfoList s) (sd_downloadingIt s) (sd_downloadingItSize s) (sd_downloadingLtHandle s)
  (sd_streamerEndpoint s) v downloading (sd_finishInfo s) (sd_finishStreamIt s) (sd_torrentHandleMap s)
  (sd_sandboxFsTree s) (sd_sandboxRootHash s) (sd_nodes s) (sd_taskIsInterrupted s) (sd_session s) (sd_background s).
Definition set_finishInfo v it s := mkStreamData (sd_chunkInfoList s) (sd_downloadingIt s) (sd_downloadingItSize s) (sd_downloadingLtHandle s)
  (sd_streamerEndpoint s) (sd_finishInfoHash s) (sd_finishDownloading s) v it (sd_torrentHandleMap s)
  (sd_sandboxFsTree s) (sd_sandboxRootHash s) (sd_nodes s) (sd_taskIsInterrupted s) (sd_session s) (sd_background s).
Definition set_torrents v s := mkStreamData (sd_chunkInfoList s) (sd_downloadingIt s) (sd_downloadingItSize s) (sd_downloadingLtHandle s)
  (sd_streamerEndpoint s) (sd_finishInfoHash s) (sd_finishDownloading s) (sd_finishInfo s) (sd_finishStreamIt s) v
  (sd_sandboxFsTree s) (sd_sandboxRootHash s) (sd_nodes s) (sd_taskIsInterrupted s) (sd_session s) (sd_background s).
Definition set_sandbox tree nodes s := mkStreamData (sd_chunkInfoList s) (sd_downloadingIt s) (sd_downloadingItSize s) (sd_downloadingLtHandle s)
  (sd_streamerEndpoint s) (sd_finishInfoHash s) (sd_finishDownloading s) (sd_finishInfo s) (sd_finishStreamIt s)
  (sd_torrentHandleMap s) (Some tree) (sd_sandboxRootHash s) nodes (sd_taskIsInterrupted s) (sd_session s) (sd_background s).
Definition set_sandboxHash v s := mkStreamData (sd_chunkInfoList s) (sd_downloadingIt s) (sd_downloadingItSize s) (sd_downloadingLtHandle s)
  (sd_streamerEndpoint s) (sd_finishInfoHash s) (sd_finishDownloading s) (sd_finishInfo s) (sd_finishStreamIt s)
  (sd_torrentHandleMap s) (sd_sandboxFsTree s) v (sd_nodes s) (sd_taskIsInterrupted s) (sd_session s) (sd_background s).
Definition set_stream_interrupted s := mkStreamData (sd_chunkInfoList s) (sd_downloadingIt s) (sd_downloadingItSize s) (sd_downloadingLtHandle s)
  (sd_streamerEndpoint s) (sd_finishInfoHash s) (sd_finishDownloading s) (sd_finishInfo s) (sd_finishStreamIt s)
  (sd_torrentHandleMap s) (sd_sandboxFsTree s) (sd_sandboxRootHash s) (sd_nodes s) true (sd_session s) (sd_background s).
Definition set_jobs session background s := mkStreamData (sd_chunkInfoList s) (sd_downloadingIt s) (sd_downloadingItSize s) (sd_downloadingLtHandle s)
  (sd_streamerEndpoint s) (sd_finishInfoHash s) (sd_finishDownloading s) (sd_finishInfo s) (sd_finishStreamIt s)
  (sd_torrentHandleMap s) (sd_sandboxFsTree s) (sd_sandboxRootHash s) (sd_nodes s) (sd_taskIsInterrupted s) session background.

Definition executeOnSessionThread (j : SessionJob) (s : StreamData) : StreamData :=
  set_jobs (sd_session s ++ [j]) (sd_background s) s.
Definition executeOnBackgroundThread (j : BackgroundJob) (s : StreamData) : StreamData :=
  set_jobs (sd_session s) (sd_background s ++ [j]) s.

Inductive StreamOutput :=
  | StartChunkDownload (hash : Z)
  | StartFinishDownload (hash : Z)
  | GetChunkInfo (endpoint chunkIndex : Z)      (* "get-chunk-info" to the streamer *)
  | PlaylistAdded (hash : Z)
  | MyRootHashIsCalculated (rootHash : Z)
  | StreamDownloadRemoved (hash : Z)            (* afterwards the task is finished *)
  | StreamTaskFinished.

(** ** The answer to a viewer *)

Inductive ChunksReply :=
  | StreamIsEnded                               (* 0xffffFFFF *)
  | StreamIsNotStarted                          (* 0xffffFFF0 *)
  | NoChunksReply                               (* an empty string: nothing is sent *)
  | Chunks (requestedIndex chunkNumber : Z) (infos : list ChunkInfo).

Definition MAX_SEQUENCE_SIZE : Z := 5.
Definition MAX_CHUNKS_DURATION_MS : Z := 10000.

(** The loop that looks for the end of the sequence; [n] is [endIndex - beginIndex]. *)
Fixpoint chunkSequence (n durationMks : Z) (rest : list (option ChunkInfo)) : list ChunkInfo :=
  match rest with
  | [] => []
  | cell :: rest' =>
      if MAX_SEQUENCE_SIZE <? n then []
      else
        match cell with
        | None => []
        | Some info =>
            let durationMks' := u32 (durationMks + ch_durationMks info) in
            if MAX_CHUNKS_DURATION_MS <? durationMks' then []
            else info :: chunkSequence (n + 1) durationMks' rest'
        end
  end.

Section Task.
  Context (verify : Z -> Z * Z * Z * Z * Z -> Z -> bool) (request : StreamRequest).
  (** [m_drive.m_session] is alive; [m_drive.m_fsTree]; [m_drive.m_maxSize]. *)
  Context (session : bool) (m_fsTree : Folder) (m_maxSize : Z).
  (** The hash of a playlist's text and of a file structure ([createTorrentFile]). *)
  Context (playlistHash : string -> Z) (fsTreeHash : Folder -> Z).
  Notation Result := (Outcome (list StreamOutput * StreamData)).

(** [acceptGetChunksInfoMessage]; [streamMap] are the streams that are saved. *)
Definition acceptGetChunksInfoMessage (streamMap : gset Z) (streamId : Z) (requestedIndex : nat) (s : StreamData)
    : Outcome ChunksReply :=
  if decide (sq_streamId request <> streamId)
  then Ret (if decide (streamId ∈ streamMap) then StreamIsEnded else StreamIsNotStarted)
  else
    match sd_chunkInfoList s !! requestedIndex with
    | None | Some None => Ret NoChunksReply
    | Some (Some info) =>
        guard_assert (ch_chunkIndex info =? Z.of_nat requestedIndex)
          (let infos := info :: chunkSequence 1 0 (drop (S requestedIndex) (sd_chunkInfoList s)) in
           Ret (Chunks (Z.of_nat requestedIndex) (Z.of_nat (length infos)) infos))
    end.

(** ** Chunks *)

(** [tryDownloadNextChunk]: the rest is posted. *)
Definition tryDownloadNextChunk (s : StreamData) : StreamData :=
  match sd_downloadingLtHandle s with
  | Some _ => s
  | None => executeOnSessionThread TryDownloadNextChunk s
  end.

(** [acceptChunkInfoMessage]. *)
Definition acceptChunkInfoMessage (info : ChunkInfo) (s : StreamData) : StreamData :=
  if decide (ch_streamId info <> sq_streamId request) then s
  else if negb (Verify verify (sq_streamerKey request) info) then s
  else
    let i := Z.to_nat (ch_chunkIndex info) in
    let l := sd_chunkInfoList s in
    let l' := if (i <? length l)%nat then <[i := Some info]> l
              else l ++ replicate (i - length l) None ++ [Some info] in
    tryDownloadNextChunk (set_chunks l' s).

(** [requestMissingChunkInfo]; [mainThread] is what [DBG_MAIN_THREAD] asserts, and
    [endpoint] what the endpoints manager knows of the streamer. *)
Definition requestMissingChunkInfo (mainThread : bool) (endpoint : option Z) (chunkIndex : Z) (s : StreamData) : Result :=
  guard_assert mainThread
    (let s1 := match sd_streamerEndpoint s with
               | Some _ => s
               | None => set_streamerEndpoint endpoint s
               end in
     match sd_streamerEndpoint s1 with
     | None => Ret ([], s1)
     | Some e => Ret (if session then [GetChunkInfo e chunkIndex] else [], s1)
     end).

(** [emplace_back] invalidates the iterators of a [std::deque]: the one that was kept
    can be used only while the list has the size that it had then. *)
Definition iteratorIsStale (s : StreamData) : bool :=
  negb (Nat.eqb (sd_downloadingItSize s) (length (sd_chunkInfoList s))).

(** The posted part of [tryDownloadNextChunk]. *)
Definition startChunk (i : nat) (info : ChunkInfo) (s : StreamData) : Result :=
  let s1 := set_downloadingIt (Some i) s in
  if session then
    let hash := ch_chunkInfoHash info in
    match sd_torrentHandleMap s1 !! hash with
    | Some t => guard_assert (m_ltHandle_valid t) (Ret ([], tryDownloadNextChunk s1))
    | None =>
        Ret ([StartChunkDownload hash],
             set_torrents (<[hash := mkTorrentInfo true false]> (sd_torrentHandleMap s1))
               (set_ltHandle (Some hash) s1))
    end
  else Ret ([], s1).

Definition downloadNextChunk (endpoint : option Z) (s : StreamData) : Result :=
  match sd_downloadingLtHandle s with
  | Some _ => Ret ([], s)
  | None =>
      match sd_downloadingIt s with
      | None =>
          match sd_chunkInfoList s with
          | [] => Stop AssertFailure
          | None :: _ => requestMissingChunkInfo true endpoint 0 s
          | Some info :: _ => startChunk 0 info s
          end
      | Some i =>
          if iteratorIsStale s then Stop UndefinedBehaviour
          else
            match sd_chunkInfoList s !! S i with
            | None => Ret ([], s)
            | Some None =>
                match sd_chunkInfoList s !! i with
                | Some (Some info) => requestMissingChunkInfo true endpoint (u32 (ch_chunkIndex info + 1)) s
                | _ => Stop UndefinedBehaviour
                end
            | Some (Some info) => startChunk (S i) info s
            end
      end
  end.

(** A chunk is downloaded: the callback of the session. *)
Definition chunkDownloaded (s : StreamData) : Result :=
  match sd_downloadingLtHandle s with
  | None => Ret ([], s)
  | Some _ =>
      guard_assert (negb (sd_taskIsInterrupted s))
        (let s1 := tryDownloadNextChunk (set_ltHandle None s) in
         Ret ([], match sd_finishInfoHash s1 with
                  | Some _ => executeOnBackgroundThread CheckFinishCondition s1
                  | None => s1
                  end))
  end.

(** ** The finish of a stream *)

(** [acceptFinishStreamTx]. *)
Definition acceptFinishStreamTx (streamId finishDataInfoHash : Z) (s : StreamData) : Result :=
  match sd_finishInfoHash s with
  | Some _ => Ret ([], s)
  | None =>
      if decide (streamId <> sq_streamId request) then Ret ([], s)
      else
        match sd_torrentHandleMap s !! finishDataInfoHash with
        | Some t =>
            guard_assert (m_ltHandle_valid t)
              (Ret ([], executeOnBackgroundThread ParseFinishInfoFile (set_finishHash (Some finishDataInfoHash) false s)))
        | None =>
            if session then
              Ret ([StartFinishDownload finishDataInfoHash],
                   set_torrents (<[finishDataInfoHash := mkTorrentInfo true false]> (sd_torrentHandleMap s))
                     (set_finishHash (Some finishDataInfoHash) true s))
            else Ret ([], set_finishHash (Some finishDataInfoHash) false s)
        end
  end.

(** The finish file is downloaded. *)
Definition finishDownloaded (s : StreamData) : Result :=
  if sd_finishDownloading s then
    guard_assert (negb (sd_taskIsInterrupted s))
      (Ret ([], executeOnBackgroundThread ParseFinishInfoFile (set_finishHash (sd_finishInfoHash s) false s)))
  else Ret ([], s).

(** [std::map::emplace] of a file with a new node. *)
Definition emplaceFile (name : string) (hash size : Z) (fd : Folder) (st : StatStore) : Folder * StatStore :=
  let '(i, st1) := new_file_node st in
  match omap_find name (childs fd) with
  | Some _ => (fd, drop_file_node i st1)
  | None => (set_childs (omap_emplace name (inr (newFile name hash size false i)) (childs fd)) fd, st1)
  end.

(** The loop over [m_finishInfo] that adds the files. *)
Fixpoint addChunkFiles (infos : list FinishStreamChunkInfo) (fd : Folder) (st : StatStore) : Folder * StatStore :=
  match infos with
  | [] => (fd, st)
  | info :: infos' =>
      if fc_saveOnDrive info then
        let '(fd1, st1) := emplaceFile (hashToFileName (fc_chunkInfoHash info)) (fc_chunkInfoHash info)
                             (fc_sizeBytes info) fd st in
        addChunkFiles infos' fd1 st1
      else addChunkFiles infos' fd st
  end.

(** The playlist of the finished stream. *)
Definition finishPlaylist (infos : list FinishStreamChunkInfo) : string :=
  printPlaylist (targetDuration (map fc_durationMks infos)) 0
    (map (fun c => mkEntry (fc_durationMks c / 1000000) (fc_durationMks c mod 1000000) (fc_chunkInfoHash c)) infos).

Definition PLAYLIST_FILE_NAME : string := "playlist.m3u8".

Definition markStream (streamId : Z) (fd : Folder) : Folder :=
  match fd with MkFolder n cs _ _ m st => MkFolder n cs true streamId m st end.

(** What the background thread reads of the disk. *)
Record Disk := mkDisk {
  dk_driveFileSize : Z -> option Z;
  dk_torrentFileSize : Z -> option Z;
  dk_fsTreeSizes : Folder -> Z * Z }.

(** [completeStreamFinishing]. *)
Definition completeStreamFinishing (disk : Disk) (s : StreamData) : Outcome StreamData :=
  let '(copy, st) := copyTree m_fsTree (sd_nodes s) in
  let st0 := match sd_sandboxFsTree s with Some old => drop_folder old st | None => st end in
  '(_, t1, st1) ← addFolder (sq_folder request) copy st0;
  let '(ptr, t2, st2) := getFolderPtr (path_of_string (sq_folder request)) false t1 st1 in
  match ptr with
  | None => Ret (set_sandbox t2 st2 s)
  | Some p =>
      streamFolder ← deref p t2;
      let '(fd1, st3) := addChunkFiles (sd_finishInfo s) streamFolder st2 in
      let playlistTxt := finishPlaylist (sd_finishInfo s) in
      let hash := playlistHash playlistTxt in
      let '(fd2, st4) := emplaceFile PLAYLIST_FILE_NAME hash (Z.of_nat (String.length playlistTxt)) fd1 st3 in
      let t3 := update_at p (fun _ => markStream (sq_streamId request) fd2) t2 in
      let s1 := set_sandboxHash (Some (fsTreeHash t3)) (set_sandbox t3 st4 s) in
      let '(torrentSize, fileSize) := dk_fsTreeSizes disk t3 in
      '(meta, drive) ← getSandboxDriveSizes (dk_driveFileSize disk) (dk_torrentFileSize disk) torrentSize fileSize t3;
      if m_maxSize <? u64_add (u64_add meta drive) fileSize then Ret s1
      else Ret (executeOnSessionThread (AddPlaylist hash) s1)
  end.

(** [checkFinishCondition]: the missing announcements are requested. *)
Fixpoint requestMissingInfos (endpoint : option Z) (i : nat) (cells : list (option ChunkInfo)) (s : StreamData)
    : Outcome (bool * list StreamOutput * StreamData) :=
  match cells with
  | [] => Ret (true, [], s)
  | Some _ :: cells' => requestMissingInfos endpoint (S i) cells' s
  | None :: cells' =>
      '(out1, s1) ← requestMissingChunkInfo false endpoint (Z.of_nat i) s;
      '(_, out2, s2) ← requestMissingInfos endpoint (S i) cells' s1;
      Ret (false, out1 ++ out2, s2)
  end.

(** The chunks are in the torrents, and they are those of the finish file. *)
Fixpoint allChunksReceived (cells : list (option ChunkInfo)) (infos : list FinishStreamChunkInfo) (torrents : TorrentMap)
    : Outcome bool :=
  match cells, infos with
  | [], _ => Ret true
  | Some info :: cells', fin :: infos' =>
      if decide (torrents !! ch_chunkInfoHash info = None) then Ret false
      else if decide (ch_chunkInfoHash info <> fc_chunkInfoHash fin) then Ret false
      else allChunksReceived cells' infos' torrents
  | _, _ => Stop UndefinedBehaviour
  end.

Definition checkFinishCondition (endpoint : option Z) (disk : Disk) (s : StreamData) : Result :=
  let l := sd_chunkInfoList s in
  let infos := sd_finishInfo s in
  if (length infos =? 0)%nat then Ret ([], s)
  else if (length l <? length infos)%nat then Ret ([], s)
  else if (length infos <? length l)%nat then Ret ([], s)
  else
    '(allChunkInfoReceived, out, s1) ← requestMissingInfos endpoint 0 l s;
    if (allChunkInfoReceived : bool) then
      ok ← allChunksReceived l infos (sd_torrentHandleMap s1);
      if (ok : bool) then s2 ← completeStreamFinishing disk s1; Ret (out, s2) else Ret (out, s1)
    else Ret (out, s1).

(** [continueFinishStream]: the first chunk of the finish file that is not there. *)
Fixpoint missingChunk (i : nat) (infos : list FinishStreamChunkInfo) (torrents : TorrentMap) : option nat :=
  match infos with
  | [] => None
  | info :: infos' =>
      if decide (torrents !! fc_chunkInfoHash info = None) then Some i else missingChunk (S i) infos' torrents
  end.

Definition continueFinishStream (endpoint : option Z) (disk : Disk) (s : StreamData) : Result :=
  let infos := sd_finishInfo s in
  if (sd_finishStreamIt s =? length infos)%nat then Ret ([], s)
  else
    match missingChunk (sd_finishStreamIt s) (drop (sd_finishStreamIt s) infos) (sd_torrentHandleMap s) with
    | Some i => Ret ([], executeOnSessionThread RequestFinishChunk (set_finishInfo infos i s))
    | None => checkFinishCondition endpoint disk (set_finishInfo infos (length infos) s)
    end.

(** [parseFinishInfoFile]; [ok] is whether reading succeeds, [file] what was read. *)
Definition parseFinishInfoFile (endpoint : option Z) (disk : Disk) (ok : bool) (file : list FinishStreamChunkInfo)
    (s : StreamData) : Result :=
  if ok then continueFinishStream endpoint disk (set_finishInfo file 0 s)
  else Ret ([], set_finishInfo file (sd_finishStreamIt s) s).

(** ** The two threads *)

(** The posted part of [continueFinishStream], and the end of [completeStreamFinishing]. *)
Definition requestFinishChunk (endpoint : option Z) (s : StreamData) : Result :=
  match sd_finishInfo s !! sd_finishStreamIt s with
  | Some info => requestMissingChunkInfo true endpoint (fc_chunkIndex info) s
  | None => Stop UndefinedBehaviour
  end.

Definition addPlaylist (hash : Z) (s : StreamData) : Result :=
  match sd_sandboxFsTree s, sd_sandboxRootHash s with
  | Some _, Some rootHash =>
      Ret ((if session then [PlaylistAdded hash] else []) ++
           [if sd_taskIsInterrupted s then StreamTaskFinished else MyRootHashIsCalculated rootHash], s)
  | _, _ => Stop AssertFailure
  end.

Definition runSessionJob (endpoint : option Z) (s : StreamData) : Result :=
  match sd_session s with
  | [] => Ret ([], s)
  | job :: jobs =>
      let s1 := set_jobs jobs (sd_background s) s in
      match job with
      | TryDownloadNextChunk => downloadNextChunk endpoint s1
      | RequestFinishChunk => requestFinishChunk endpoint s1
      | AddPlaylist hash => addPlaylist hash s1
      end
  end.

Definition runBackgroundJob (endpoint : option Z) (disk : Disk) (ok : bool) (file : list FinishStreamChunkInfo)
    (s : StreamData) : Result :=
  match sd_background s with
  | [] => Ret ([], s)
  | job :: jobs =>
      let s1 := set_jobs (sd_session s) jobs s in
      match job with
      | ParseFinishInfoFile => parseFinishInfoFile endpoint disk ok file s1
      | CheckFinishCondition => checkFinishCondition endpoint disk s1
      end
  end.

(** [breakTorrentDownloadAndRunNextTask] and [tryBreakTask]: a cancelled stream, a drive
    that is closed, a replicator that stops. *)
Definition breakStream (sandboxCalculated modifyApproveTxReceived : bool) (s : StreamData)
    : list StreamOutput * StreamData :=
  let s1 := set_stream_interrupted s in
  match sd_downloadingLtHandle s1 with
  | Some hash => if session then ([StreamDownloadRemoved hash], set_ltHandle None s1) else ([], s1)
  | None => (if sandboxCalculated && negb modifyApproveTxReceived then [StreamTaskFinished] else [], s1)
  end.

End Task.

(** ** The streams of a drive *)

(** [DriveParams::updateStreamMap]: the playlist of each stream, by its id. *)
Definition playlistOf (fd : Folder) : option Z :=
  (iterate (fun f acc => if decide (file_name f = PLAYLIST_FILE_NAME) then (true, Some (file_hash f)) else (false, acc))
     fd None).2.

Definition updateStreamMap (m_fsTree : Folder) : gmap Z Z :=
  iterateAllFolders (fun fd m =>
    if isaStream fd then
      match playlistOf fd with Some hash => <[streamId fd := hash]> m | None => m end
    else m) m_fsTree ∅.

(** [acceptGetPlaylistHashRequest]: the stream and the hash, or an empty answer. *)
Definition acceptGetPlaylistHashRequest (m_fsTree : Folder) (id : Z) : option (Z * Z) :=
  match findStreamFolder id m_fsTree with
  | None => None
  | Some fd => (fun hash => (id, hash)) <$> playlistOf fd
  end.
