(* ===== verification/StreamingSpec.v ===== *)
(** * What a stream task does

    Over any sequence of events -- announcements of anybody, finish transactions,
    downloads, the jobs of the two threads -- the announced chunks are those that the
    streamer signed, each at its index ([stream_serves_signed_chunks]), and when the
    stream is completed its folder holds what the finish file says
    ([stream_completion_correct]). *)

From S2P Require Import Prelude RcptMessage OrderedMap FsPath FsStatistics FsTree FsTreeFacts FsTreeSpec FsTreeLinks ModifyOpinion ModifyApproval ActionList ModifyDrive Playlist Streaming.

(** A post changes a queue. *)
Lemma snoc_neq {A} (l : list A) x : l <> l ++ [x].
Proof. intros E. apply (f_equal length) in E. rewrite length_app in E. cbn in E. lia. Qed.

Section Spec.
  Context (verify : Z -> Z * Z * Z * Z * Z -> Z -> bool) (request : StreamRequest).
  Context (session : bool) (m_fsTree : Folder) (m_maxSize : Z).
  Context (playlistHash : string -> Z) (fsTreeHash : Folder -> Z).
  Notation verified := (Verify verify (sq_streamerKey request)).

(** ** Events *)

Inductive StreamEvent :=
  | EvChunkInfo (info : ChunkInfo)
  | EvFinishStream (streamId hash : Z)
  | EvSession (endpoint : option Z)
  | EvBackground (endpoint : option Z) (disk : Disk) (ok : bool) (file : list FinishStreamChunkInfo)
  | EvChunkDownloaded
  | EvFinishDownloaded
  | EvBreak (sandboxCalculated modifyApproveTxReceived : bool).

Definition stream_step (ev : StreamEvent) (s : StreamData) : Outcome (list StreamOutput * StreamData) :=
  match ev with
  | EvChunkInfo info => Ret ([], acceptChunkInfoMessage verify request info s)
  | EvFinishStream id hash => acceptFinishStreamTx request session id hash s
  | EvSession endpoint => runSessionJob session endpoint s
  | EvBackground endpoint disk ok file =>
      runBackgroundJob request session m_fsTree m_maxSize playlistHash fsTreeHash endpoint disk ok file s
  | EvChunkDownloaded => chunkDownloaded s
  | EvFinishDownloaded => finishDownloaded s
  | EvBreak calculated received => Ret (breakStream session calculated received s)
  end.

Fixpoint stream_run (evs : list StreamEvent) (s : StreamData) : Outcome (list StreamOutput * StreamData) :=
  match evs with
  | [] => Ret ([], s)
  | ev :: evs' =>
      '(out1, s1) ← stream_step ev s;
      '(out2, s2) ← stream_run evs' s1;
      Ret (out1 ++ out2, s2)
  end.

(** The index of a chunk is a [uint32_t]. *)
Definition stream_event_ok (ev : StreamEvent) : Prop :=
  match ev with EvChunkInfo info => 0 <= ch_chunkIndex info < two32 | _ => True end.

(** ** The announced chunks *)

Definition cell_ok (i : nat) (info : ChunkInfo) : Prop :=
  ch_chunkIndex info = Z.of_nat i /\ ch_streamId info = sq_streamId request /\ verified info = true.

Definition cells_ok (l : list (option ChunkInfo)) : Prop :=
  forall i info, l !! i = Some (Some info) -> cell_ok i info.

(** Everything up to the chunk that is downloaded is announced. *)
Definition announced (it : option nat) (l : list (option ChunkInfo)) : Prop :=
  forall i j, it = Some i -> (j <= i)%nat -> exists info, l !! j = Some (Some info).

Lemma accept_lookup i info (l : list (option ChunkInfo)) j :
  (if (i <? length l)%nat then <[i := Some info]> l else l ++ replicate (i - length l) None ++ [Some info]) !! j =
  if decide (j = i) then Some (Some info)
  else if decide (j < i)%nat then Some (default None (l !! j)) else l !! j.
Proof.
  destruct (Nat.ltb_spec i (length l)) as [Hi|Hi].
  - case_decide as Hj; [subst; by apply list_lookup_insert_eq|]. rewrite list_lookup_insert_ne by done.
    case_decide; [|done]. destruct (lookup_lt_is_Some_2 l j) as [c ->]; [lia|done].
  - case_decide as Hj.
    + subst. rewrite lookup_app_r, lookup_app_r by (rewrite ?length_replicate; lia).
      rewrite length_replicate. by replace (i - length l - (i - length l))%nat with 0%nat by lia.
    + case_decide as Hj2.
      * destruct (decide (j < length l)%nat).
        { rewrite lookup_app_l by done. destruct (lookup_lt_is_Some_2 l j) as [c ->]; [lia|done]. }
        rewrite lookup_app_r, lookup_app_l, lookup_replicate_2 by (rewrite ?length_replicate; lia).
        by rewrite lookup_ge_None_2 by lia.
      * rewrite (lookup_ge_None_2 l) by lia. apply lookup_ge_None_2.
        rewrite !length_app, length_replicate. cbn. lia.
Qed.

Record stream_inv (s : StreamData) : Prop := {
  si_cells : cells_ok (sd_chunkInfoList s);
  si_announced : announced (sd_downloadingIt s) (sd_chunkInfoList s) }.

(** Only an announcement and the choice of a chunk change them. *)
Definition same_chunks (s s' : StreamData) : Prop :=
  sd_chunkInfoList s' = sd_chunkInfoList s /\ sd_downloadingIt s' = sd_downloadingIt s.

Lemma inv_same s s' : same_chunks s s' -> stream_inv s -> stream_inv s'.
Proof. intros [E1 E2] [H1 H2]. split; [by rewrite E1|by rewrite E1, E2]. Qed.

Lemma same_chunks_refl s : same_chunks s s.
Proof. done. Qed.

Lemma tryDownload_same s : same_chunks s (tryDownloadNextChunk s).
Proof. unfold tryDownloadNextChunk. by case_match. Qed.

Lemma requestMissing_same main endpoint i s :
  ensures (fun p => same_chunks s p.2) (requestMissingChunkInfo session main endpoint i s).
Proof. unfold requestMissingChunkInfo. apply ensures_assert. intros _. cbv zeta. repeat case_match; done. Qed.

Lemma accept_inv info s :
  0 <= ch_chunkIndex info -> stream_inv s -> stream_inv (acceptChunkInfoMessage verify request info s).
Proof.
  intros Hi [H1 H2]. unfold acceptChunkInfoMessage. case_decide as Hs; [by split|].
  destruct (verified info) eqn:Hv; cbn [negb]; [|by split].
  eapply inv_same; [apply tryDownload_same|]. split; cbn [sd_chunkInfoList set_chunks sd_downloadingIt].
  - intros j c. rewrite accept_lookup. case_decide as Hj.
    + intros [= <-]. subst. split_and!; [lia|done|done].
    + case_decide; [|apply H1]. intros [= E]. apply H1. by destruct (sd_chunkInfoList s !! j) as [[c'|]|]; simplify_eq/=.
  - intros i j Ei Hj. destruct (H2 i j Ei Hj) as [c Hc]. rewrite accept_lookup, Hc. cbn.
    case_decide; [by eexists|]. case_decide; by eexists.
Qed.

Lemma startChunk_inv i info s :
  sd_chunkInfoList s !! i = Some (Some info) -> (forall j, (j < i)%nat -> exists c, sd_chunkInfoList s !! j = Some (Some c)) ->
  stream_inv s -> ensures (fun p => stream_inv p.2) (startChunk session i info s).
Proof.
  intros Hi Hb [H1 H2]. unfold startChunk. set (s1 := set_downloadingIt (Some i) s).
  assert (stream_inv s1) as Hs1.
  { split; [exact H1|]. intros i' j [= <-] Hj. destruct (decide (j = i)) as [->|]; [by eexists|]. apply Hb. lia. }
  destruct session; [|exact Hs1]. case_match.
  - apply ensures_assert. intros _. eapply inv_same; [apply tryDownload_same|exact Hs1].
  - by apply (inv_same s1).
Qed.

Lemma downloadNext_inv endpoint s :
  stream_inv s -> ensures (fun p => stream_inv p.2) (downloadNextChunk session endpoint s).
Proof.
  intros Hs. unfold downloadNextChunk. destruct (sd_downloadingLtHandle s); [done|].
  assert (forall m i, ensures (fun p => stream_inv p.2) (requestMissingChunkInfo session m endpoint i s)) as Hr.
  { intros m i. eapply ensures_mono; [|apply requestMissing_same]. intros p Hp. exact (inv_same _ _ Hp Hs). }
  destruct (sd_downloadingIt s) as [i|] eqn:Ei.
  - destruct (iteratorIsStale s); [done|]. destruct (sd_chunkInfoList s !! S i) as [[info|]|] eqn:El; [| |done].
    + apply startChunk_inv; [done| |done]. intros j Hj. apply (si_announced s Hs i); [done|lia].
    + case_match; [|done]. case_match; [apply Hr|done].
  - destruct (sd_chunkInfoList s) as [|[info|] l] eqn:El; [done| |apply Hr].
    apply startChunk_inv; [by rewrite El|intros j Hj; lia|done].
Qed.

Lemma complete_same disk s :
  ensures (same_chunks s) (completeStreamFinishing request m_fsTree m_maxSize playlistHash fsTreeHash disk s).
Proof.
  unfold completeStreamFinishing. destruct (copyTree m_fsTree (sd_nodes s)) as [copy st]. cbv zeta.
  apply ensures_any. intros [[_ t1] st1]. destruct (getFolderPtr _ _ _ _) as [[ptr t2] st2].
  case_match; [|done]. apply ensures_any. intros fd. destruct (addChunkFiles _ _ _) as [fd1 st3].
  destruct (emplaceFile _ _ _ _ _) as [fd2 st4]. case_match. apply ensures_any. intros [meta drive]. by case_match.
Qed.

Lemma requestInfos_same endpoint i cells s :
  ensures (fun p => same_chunks s p.2) (requestMissingInfos session endpoint i cells s).
Proof.
  revert i s. induction cells as [|[c|] cells IH]; intros i s; [done|apply IH|exact I].
Qed.

Lemma check_same endpoint disk s :
  ensures (fun p => same_chunks s p.2)
    (checkFinishCondition request session m_fsTree m_maxSize playlistHash fsTreeHash endpoint disk s).
Proof.
  unfold checkFinishCondition. cbv zeta. do 3 (case_match; [done|]).
  eapply ensures_bind; [apply requestInfos_same|]. intros [[b o] s1] K1. cbn in K1. destruct b; [|done].
  apply ensures_any. intros [|]; [|done]. eapply ensures_bind; [apply complete_same|].
  intros s2 [K2 K3]. destruct K1. split; cbn; congruence.
Qed.

Lemma background_same endpoint disk ok file s :
  ensures (fun p => same_chunks s p.2)
    (runBackgroundJob request session m_fsTree m_maxSize playlistHash fsTreeHash endpoint disk ok file s).
Proof.
  unfold runBackgroundJob, parseFinishInfoFile, continueFinishStream. case_match; [done|].
  repeat case_match; try done; eapply ensures_mono; try apply check_same; by intros p [].
Qed.

Lemma step_inv ev s :
  stream_event_ok ev -> stream_inv s -> ensures (fun p => stream_inv p.2) (stream_step ev s).
Proof.
  intros He Hs. destruct ev; cbn [stream_step stream_event_ok] in *.
  - apply accept_inv; [apply He|done].
  - unfold acceptFinishStreamTx. repeat case_match; try done; try apply ensures_assert; intros; by apply (inv_same s).
  - unfold runSessionJob. case_match; [done|]. set (s1 := set_jobs _ _ s).
    assert (stream_inv s1) as Hs1 by (by apply (inv_same s)). case_match.
    + by apply downloadNext_inv.
    + unfold requestFinishChunk. case_match; [|done].
      eapply ensures_mono; [|apply requestMissing_same]. intros p Hp. exact (inv_same _ _ Hp Hs1).
    + unfold addPlaylist. repeat case_match; done.
  - eapply ensures_mono; [|apply background_same]. intros p Hp. exact (inv_same _ _ Hp Hs).
  - unfold chunkDownloaded. case_match; [|done]. apply ensures_assert. intros _. cbv zeta.
    assert (stream_inv (tryDownloadNextChunk (set_ltHandle None s))) as H1
      by (apply (inv_same _ _ (tryDownload_same _)); by apply (inv_same s)).
    case_match; [by apply (inv_same (tryDownloadNextChunk (set_ltHandle None s)))|done].
  - unfold finishDownloaded. case_match; [|done]. apply ensures_assert. intros _. by apply (inv_same s).
  - unfold breakStream. repeat case_match; by apply (inv_same s).
Qed.

Lemma run_inv evs s :
  Forall stream_event_ok evs -> stream_inv s -> ensures (fun p => stream_inv p.2) (stream_run evs s).
Proof.
  intros Hevs. revert s. induction Hevs as [|ev evs He _ IH]; intros s Hs; cbn; [done|].
  eapply ensures_bind; [by apply step_inv|]. intros [o1 s1] H1. cbn in H1.
  eapply ensures_bind; [by apply IH|]. intros [o2 s2] H2. exact H2.
Qed.

Lemma newStream_inv torrents nodes : stream_inv (newStream torrents nodes).
Proof. split; [by intros i info H|by intros i j [=]]. Qed.

(** ** The answers to viewers *)

Lemma chunkSequence_lookup n d rest k info :
  chunkSequence n d rest !! k = Some info -> rest !! k = Some (Some info).
Proof.
  revert n d k. induction rest as [|c rest IH]; intros n d k; cbn; [done|].
  case_match; [done|]. destruct c as [c|]; [|done]. case_match; [done|].
  destruct k as [|k]; cbn; [by intros [= ->]|apply IH].
Qed.

Lemma chunkSequence_length n d rest : 0 <= n <= 6 -> Z.of_nat (length (chunkSequence n d rest)) <= 6 - n.
Proof.
  revert n d. induction rest as [|c rest IH]; intros n d Hn; cbn; [lia|].
  unfold MAX_SEQUENCE_SIZE. destruct (Z.ltb_spec 5 n); [cbn; lia|]. destruct c as [c|]; [|cbn; lia].
  case_match; [cbn; lia|]. cbn [length]. specialize (IH (n + 1) (u32 (d + ch_durationMks c)) ltac:(lia)). lia.
Qed.

(** C15: what a replicator tells the viewers of a live stream.  Whatever it was sent,
    by anybody, a request for chunks is answered without a fault, and an answer has
    one to six announcements: of this stream, signed by its streamer, with
    consecutive indices from the requested one. *)
Theorem stream_serves_signed_chunks torrents nodes evs out s streamMap id i :
  Forall stream_event_ok evs -> stream_run evs (newStream torrents nodes) = Ret (out, s) ->
  exists reply, acceptGetChunksInfoMessage request streamMap id i s = Ret reply /\
    match reply with
    | Chunks first number infos =>
        id = sq_streamId request /\ first = Z.of_nat i /\ number = Z.of_nat (length infos) /\ 1 <= number <= 6 /\
        forall k info, infos !! k = Some info -> cell_ok (i + k) info
    | StreamIsEnded => id <> sq_streamId request /\ id ∈ streamMap
    | StreamIsNotStarted => id <> sq_streamId request /\ id ∉ streamMap
    | NoChunksReply => forall info, sd_chunkInfoList s !! i <> Some (Some info)
    end.
Proof.
  intros Hevs Hrun. pose proof (ensures_ret _ _ _ (run_inv evs _ Hevs (newStream_inv torrents nodes)) Hrun) as [Hc _].
  cbn in Hc. unfold acceptGetChunksInfoMessage. case_decide as Hid.
  { eexists. split; [done|]. case_decide; by split. }
  destruct (sd_chunkInfoList s !! i) as [[info|]|] eqn:Ei; [|by eexists..].
  destruct (Hc i info Ei) as (Hidx & Hs & Hv). rewrite Hidx, Z.eqb_refl. cbn [guard_assert].
  eexists. split; [done|]. split_and!; [by symmetry|done|done|cbn; lia| |].
  - pose proof (chunkSequence_length 1 0 (drop (S i) (sd_chunkInfoList s)) ltac:(lia)). cbn [length]. lia.
  - intros [|k] c; cbn; [intros [= <-]; rewrite Nat.add_0_r; by split_and!|].
    intros Hk%chunkSequence_lookup. rewrite lookup_drop in Hk. apply Hc. rewrite <- Hk. f_equal. lia.
Qed.

(** ** The folder of a finished stream *)

(** The first chunk of the finish file that is saved under a name. *)
Fixpoint savedChunk (name : string) (infos : list FinishStreamChunkInfo) : option FinishStreamChunkInfo :=
  match infos with
  | [] => None
  | info :: infos' =>
      if decide (fc_saveOnDrive info = true /\ hashToFileName (fc_chunkInfoHash info) = name) then Some info
      else savedChunk name infos'
  end.

Definition is_file (name : string) (hash size : Z) (c : option Child) : Prop :=
  exists f, c = Some (inr f) /\ file_name f = name /\ file_hash f = hash /\ file_size f = size.

(** What stands under a name, of the entries that were there and the files to add. *)
Definition added (name : string) (before : option Child) (file : option (Z * Z)) (now : option Child) : Prop :=
  match before, file with
  | Some c, _ => now = Some c
  | None, Some (hash, size) => is_file name hash size now
  | None, None => now = None
  end.

Lemma wf_set_file f fd :
  wf_folder fd -> wf_folder (set_childs (omap_set (file_name f) (inr f) (childs fd)) fd).
Proof.
  intros Hwf. inversion Hwf as [? Hs Hn Hss]; subst. constructor; autorewrite with fstree.
  - by apply omap_sorted_set.
  - intros k c. destruct (decide (k = file_name f)) as [->|].
    + rewrite omap_find_set_eq. by intros [= <-].
    + rewrite omap_find_set_ne by congruence. apply Hn.
  - intros k s. destruct (decide (k = file_name f)) as [->|].
    + by rewrite omap_find_set_eq.
    + rewrite omap_find_set_ne by congruence. apply Hss.
Qed.

Lemma emplaceFile_spec name hash size fd st fd' st' :
  emplaceFile name hash size fd st = (fd', st') -> wf_folder fd ->
  wf_folder fd' /\ exists cs, fd' = set_childs cs fd /\
  forall x, added x (omap_find x (childs fd)) (if decide (x = name) then Some (hash, size) else None) (omap_find x cs).
Proof.
  unfold emplaceFile. destruct (new_file_node st) as [i st1]. intros E Hwf.
  destruct (omap_find name (childs fd)) as [c|] eqn:Ef; injection E as <- <-.
  - split; [done|]. exists (childs fd). split; [by rewrite set_childs_id|]. intros x. unfold added.
    case_decide as Hx; [subst; by rewrite Ef|]. by destruct (omap_find x (childs fd)).
  - rewrite (omap_find_emplace_new _ _ _ Ef). split; [by apply (wf_set_file (newFile name hash size false i))|].
    eexists. split; [done|]. intros x. unfold added. case_decide as Hx.
    + subst. rewrite Ef, omap_find_set_eq. eexists. by split_and!.
    + rewrite omap_find_set_ne by done. by destruct (omap_find x (childs fd)).
Qed.

Lemma addChunkFiles_spec infos fd st fd' st' :
  addChunkFiles infos fd st = (fd', st') -> wf_folder fd ->
  wf_folder fd' /\ exists cs, fd' = set_childs cs fd /\
  forall x, added x (omap_find x (childs fd))
              ((fun c => (fc_chunkInfoHash c, fc_sizeBytes c)) <$> savedChunk x infos) (omap_find x cs).
Proof.
  revert fd st. induction infos as [|info infos IH]; intros fd st; cbn [addChunkFiles savedChunk].
  - intros [= <- <-] Hwf. split; [done|]. exists (childs fd). split; [by rewrite set_childs_id|].
    intros x. unfold added. by destruct (omap_find x (childs fd)).
  - intros E Hwf. destruct (fc_saveOnDrive info) eqn:Es.
    + destruct (emplaceFile _ _ _ fd st) as [fd1 st1] eqn:Ee.
      apply emplaceFile_spec in Ee as (Hwf1 & cs1 & -> & H1); [|done].
      destruct (IH _ _ E Hwf1) as (Hwf' & cs & -> & H2). split; [done|]. exists cs. rewrite childs_set_childs in H2.
      split; [by destruct fd|]. intros x. specialize (H1 x). specialize (H2 x). unfold added in *.
      destruct (omap_find x (childs fd)) as [c|] eqn:Ex; [by rewrite H1 in H2|].
      case_decide as Hx; [subst x|].
      * destruct H1 as (f & E1 & F). rewrite E1 in H2. rewrite decide_True by done. cbn. exists f. by split.
      * rewrite H1 in H2. rewrite decide_False by (intros [_ ?]; congruence). exact H2.
    + destruct (IH _ _ E Hwf) as (Hwf' & cs & -> & H2). split; [done|]. exists cs. split; [done|].
      intros x. rewrite decide_False by (by intros [? _]). apply H2.
Qed.

(** The file structure with the folder of the stream: its position is created when it
    is not there; below it there are the entries that were there, the saved chunks
    and the playlist; nothing else is changed. *)
Definition stream_tree (infos : list FinishStreamChunkInfo) (t : Folder) : Prop :=
  let p := path_of_string (sq_folder request) in
  let text := finishPlaylist infos in
  exists t2 before f, created_along p m_fsTree t2 /\ folder_at p t2 = Some before /\ folder_at p t = Some f /\
    isaStream f = true /\ streamId f = sq_streamId request /\
    (forall q, ~ p `prefix_of` q -> view t q = view t2 q) /\
    forall x, added x (omap_find x (childs before))
      (match savedChunk x infos with
       | Some c => Some (fc_chunkInfoHash c, fc_sizeBytes c)
       | None => if decide (x = PLAYLIST_FILE_NAME) then Some (playlistHash text, Z.of_nat (String.length text)) else None
       end) (omap_find x (childs f)).

Lemma markStream_childs id fd : childs (markStream id fd) = childs fd.
Proof. by destruct fd. Qed.

Notation complete := (completeStreamFinishing request m_fsTree m_maxSize playlistHash fsTreeHash).

Lemma complete_spec disk s s' h :
  wf_folder m_fsTree -> complete disk s = Ret s' -> sd_session s' = sd_session s ++ [AddPlaylist h] ->
  exists t, sd_sandboxFsTree s' = Some t /\ sd_sandboxRootHash s' = Some (fsTreeHash t) /\
    stream_tree (sd_finishInfo s) t /\ h = playlistHash (finishPlaylist (sd_finishInfo s)) /\
    sd_finishInfo s' = sd_finishInfo s.
Proof.
  intros Hwf Hc Hj. unfold completeStreamFinishing in Hc.
  change (copyTree m_fsTree (sd_nodes s)) with (m_fsTree, (copyTree m_fsTree (sd_nodes s)).2) in Hc. cbv zeta iota in Hc.
  apply bind_ret_inv in Hc as ([[ok t1] st1] & Ea & Hc). apply addFolder_path_inv in Ea as [Hwf1 Ha]; [|done].
  rewrite getFolderPtr_find in Hc by done.
  case_decide as Hp; [|injection Hc as <-; by apply snoc_neq in Hj].
  destruct Hp as [before Hb]. destruct ok.
  2: { destruct Ha as (-> & _ & Hbl). by destruct (blocked_no_folder _ _ _ Hb). }
  destruct Ha as (_ & Hcr & _). rewrite (deref_some _ _ _ Hb) in Hc. cbn [mbind outcome_bind] in Hc.
  destruct (addChunkFiles _ before st1) as [fd1 st3] eqn:E1.
  apply addChunkFiles_spec in E1 as (Hw1 & cs1 & -> & H1); [|by eapply wf_folder_at].
  destruct (emplaceFile _ _ _ _ st3) as [fd2 st4] eqn:E2.
  apply emplaceFile_spec in E2 as (_ & cs2 & -> & H2); [|done]. rewrite childs_set_childs in H2.
  set (t3 := update_at _ _ t1) in Hc. destruct (dk_fsTreeSizes disk t3) as [ts fs].
  apply bind_ret_inv in Hc as ([meta drive] & _ & Hc). case_match; injection Hc as <-; [by apply snoc_neq in Hj|].
  cbn in Hj. apply app_inv_head in Hj. injection Hj as <-.
  exists t3. split_and!; try done. exists t1, before. eexists. split_and!; [done|done|by apply folder_at_update|..].
  - by destruct before.
  - by destruct before.
  - intros q Hq. by apply view_update_out.
  - intros x. rewrite markStream_childs, childs_set_childs. specialize (H1 x). specialize (H2 x). unfold added in *.
    destruct (omap_find x (childs before)) as [c|]; [by rewrite H1 in H2|].
    destruct (savedChunk x (sd_finishInfo s)) as [c|]; cbn in H1 |- *; [|by rewrite H1 in H2].
    destruct H1 as (f & E & F). rewrite E in H2. exists f. by split.
Qed.

Lemma requestInfos_inv endpoint i cells s b out s' :
  requestMissingInfos session endpoint i cells s = Ret (b, out, s') ->
  b = true /\ out = [] /\ s' = s /\ exists chunks, cells = map Some chunks.
Proof.
  revert i. induction cells as [|[c|] cells IH]; intros i E; cbn in E.
  - injection E as <- <- <-. split_and!; try done. by exists [].
  - apply IH in E as (-> & -> & -> & chunks & ->). split_and!; try done. by exists (c :: chunks).
  - discriminate E.
Qed.

Lemma allChunks_inv chunks infos torrents :
  length chunks = length infos -> allChunksReceived (map Some chunks) infos torrents = Ret true ->
  map ch_chunkInfoHash chunks = map fc_chunkInfoHash infos /\
  Forall (fun c => is_Some (torrents !! ch_chunkInfoHash c)) chunks.
Proof.
  revert infos. induction chunks as [|c chunks IH]; intros [|info infos] Hl E; try discriminate Hl; [by split|].
  cbn in E. case_decide as Ht; [discriminate E|]. case_decide as Hh; [discriminate E|].
  injection Hl as Hl. destruct (IH infos Hl E) as [H1 H2]. split; [cbn; by f_equal|].
  constructor; [|done]. by apply not_eq_None_Some.
Qed.

(** The completion of a stream: what the check has established. *)
Definition stream_completed (s s' : StreamData) (h : Z) : Prop :=
  exists chunks t, sd_chunkInfoList s = map Some chunks /\ chunks <> [] /\
    map ch_chunkInfoHash chunks = map fc_chunkInfoHash (sd_finishInfo s') /\
    Forall (fun c => is_Some (sd_torrentHandleMap s !! ch_chunkInfoHash c)) chunks /\
    sd_sandboxFsTree s' = Some t /\ sd_sandboxRootHash s' = Some (fsTreeHash t) /\
    stream_tree (sd_finishInfo s') t /\ h = playlistHash (finishPlaylist (sd_finishInfo s')).

Lemma check_completes endpoint disk s out s' h :
  wf_folder m_fsTree ->
  checkFinishCondition request session m_fsTree m_maxSize playlistHash fsTreeHash endpoint disk s = Ret (out, s') ->
  sd_session s' = sd_session s ++ [AddPlaylist h] -> stream_completed s s' h.
Proof.
  intros Hwf E Hj.
  unfold checkFinishCondition in E. cbv zeta in E.
  destruct (Nat.eqb_spec (length (sd_finishInfo s)) 0) as [|H0]; [injection E as <- <-; by apply snoc_neq in Hj|].
  destruct (Nat.ltb_spec (length (sd_chunkInfoList s)) (length (sd_finishInfo s))) as [|K1];
    [injection E as <- <-; by apply snoc_neq in Hj|].
  destruct (Nat.ltb_spec (length (sd_finishInfo s)) (length (sd_chunkInfoList s))) as [|K2];
    [injection E as <- <-; by apply snoc_neq in Hj|].
  apply bind_ret_inv in E as ([[b o] s1] & Er & E). apply requestInfos_inv in Er as (-> & -> & -> & chunks & Ec).
  apply bind_ret_inv in E as (ok & Ea & E). destruct ok; [|injection E as <- <-; by apply snoc_neq in Hj].
  apply bind_ret_inv in E as (s2 & E2 & E). injection E as <- <-.
  destruct (complete_spec disk s s2 h Hwf E2 Hj) as (t & T1 & T2 & T3 & T4 & T5).
  rewrite Ec in *. rewrite length_map in *. apply allChunks_inv in Ea as [A1 A2]; [|lia].
  exists chunks, t. rewrite T5. split_and!; try done. intros ->. cbn in *. lia.
Qed.

(** C13: the completion of a stream.  In every state that a stream task reaches, a job
    of the background thread completes the stream only when the finish file lists
    the hashes of the announced chunks, one by one, and each of them is in the
    session.  The file structure that is put to the vote is then the drive's with the
    folder of the stream: the chunks that are to be saved, the playlist of all of
    them, the mark and the id of the stream; and nothing else of the drive is
    touched. *)
Theorem stream_completion_correct torrents nodes evs out s endpoint disk ok file out' s' h :
  wf_folder m_fsTree -> Forall stream_event_ok evs ->
  stream_run evs (newStream torrents nodes) = Ret (out, s) ->
  stream_step (EvBackground endpoint disk ok file) s = Ret (out', s') ->
  sd_session s' = sd_session s ++ [AddPlaylist h] ->
  stream_completed s s' h /\ cells_ok (sd_chunkInfoList s).
Proof.
  intros Hwf Hevs Hrun E Hj.
  pose proof (ensures_ret _ _ _ (run_inv evs _ Hevs (newStream_inv torrents nodes)) Hrun) as [Hc _]. cbn in Hc.
  split; [|exact Hc]. clear Hc Hrun Hevs.
  cbn [stream_step] in E. unfold runBackgroundJob in E. destruct (sd_background s) as [|job jobs];
    [injection E as <- <-; by apply snoc_neq in Hj|].
  assert (forall s1 s2, sd_chunkInfoList s1 = sd_chunkInfoList s -> sd_torrentHandleMap s1 = sd_torrentHandleMap s ->
    stream_completed s1 s2 h -> stream_completed s s2 h) as Hframe.
  { intros s1 s2 E1 E2. unfold stream_completed. by rewrite E1, E2. }
  destruct job.
  - unfold parseFinishInfoFile, continueFinishStream in E. destruct ok; [|injection E as <- <-; by apply snoc_neq in Hj].
    case_match; [injection E as <- <-; by apply snoc_neq in Hj|]. case_match.
    + injection E as <- <-. cbn in Hj. by apply app_inv_head in Hj.
    + eapply Hframe; [| |by eapply check_completes]; done.
  - eapply Hframe; [| |by eapply check_completes]; done.
Qed.

End Spec.

(** ** A concrete stream *)

Definition sampleVerify (key : Z) (_ : Z * Z * Z * Z * Z) (sign : Z) : bool := sign =? key.
Definition sampleRequest : StreamRequest := mkStreamRequest 5 1 "live" 1000.
Definition sampleChunk (i hash : Z) : ChunkInfo := mkChunkInfo 5 i hash 2000 100 1.
Definition sampleFile : list FinishStreamChunkInfo :=
  [mkFinishChunk 0 10 2000000 100 true; mkFinishChunk 1 20 2000000 100 true].
Definition sampleDisk : Disk := mkDisk (fun _ => Some 100) (fun _ => Some 10) (fun _ => (10, 100)).
Definition sampleRoot : Folder := MkFolder "/" [] false 0 0 None.
Definition sampleTextHash (s : string) : Z := Z.of_nat (String.length s).
Definition sampleTreeHash (fd : Folder) : Z := Z.of_nat (length (childs fd)).

(** The second chunk is announced first, and another one with a wrong signature. *)
Definition sampleEvents : list StreamEvent :=
  [EvChunkInfo (sampleChunk 1 20); EvSession None; EvChunkInfo (sampleChunk 0 10);
   EvChunkInfo (mkChunkInfo 5 2 30 2000000 100 7); EvSession None;
   EvChunkDownloaded; EvSession None; EvChunkDownloaded; EvSession None;
   EvFinishStream 5 99; EvFinishDownloaded].
Notation sampleRun evs :=
  (stream_run sampleVerify sampleRequest true sampleRoot 5000 sampleTextHash sampleTreeHash evs (newStream ∅ empty_store)).
Notation sampleStep ev s :=
  (stream_step sampleVerify sampleRequest true sampleRoot 5000 sampleTextHash sampleTreeHash ev s).
Definition sampleState : StreamData :=
  match sampleRun sampleEvents with Ret p => p.2 | Stop _ => newStream ∅ empty_store end.

Lemma wf_sampleRoot : wf_folder sampleRoot.
Proof. constructor; [apply SSorted_nil|done|done]. Qed.

Lemma stream_serves_signed_chunks_witness :
  exists reply, acceptGetChunksInfoMessage sampleRequest ∅ 5 0 sampleState = Ret reply /\
    reply = Chunks 0 2 [sampleChunk 0 10; sampleChunk 1 20] /\ cell_ok sampleVerify sampleRequest 1 (sampleChunk 1 20).
Proof.
  destruct (stream_serves_signed_chunks sampleVerify sampleRequest true sampleRoot 5000 sampleTextHash sampleTreeHash
              ∅ empty_store sampleEvents [StartChunkDownload 10; StartChunkDownload 20; StartFinishDownload 99]
              sampleState ∅ 5 0) as (reply & E & H).
  - repeat apply Forall_cons_2; try apply Forall_nil_2; cbn; unfold two32; lia.
  - vm_compute. reflexivity.
  - exists reply. split; [exact E|]. pose proof E as E'. vm_compute in E'. injection E' as <-.
    split; [reflexivity|]. destruct H as (_ & _ & _ & _ & H). exact (H 1%nat _ eq_refl).
Defined.

Lemma stream_completion_correct_witness :
  exists s' h, sampleStep (EvBackground None sampleDisk true sampleFile) sampleState = Ret ([], s') /\
    sampleRequest.(sq_streamId) = 5 /\
    stream_completed sampleRequest sampleRoot sampleTextHash sampleTreeHash sampleState s' h.
Proof.
  destruct (sampleStep (EvBackground None sampleDisk true sampleFile) sampleState) as [[out' s']|] eqn:E;
    vm_compute in E; [|discriminate E]. injection E as <- <-.
  eexists _, _. split; [vm_compute; reflexivity|]. split; [reflexivity|].
  eapply (stream_completion_correct sampleVerify sampleRequest true sampleRoot 5000 sampleTextHash sampleTreeHash
            ∅ empty_store sampleEvents [StartChunkDownload 10; StartChunkDownload 20; StartFinishDownload 99]
            sampleState None sampleDisk true sampleFile [] _ (sampleTextHash (finishPlaylist sampleFile)) wf_sampleRoot).
  - repeat apply Forall_cons_2; try apply Forall_nil_2; cbn; unfold two32; lia.
  - vm_compute. reflexivity.
  - vm_compute. reflexivity.
  - vm_compute. reflexivity.
Defined.

(** The limit of an answer is in milliseconds, the durations are in microseconds: of
    chunks that last two seconds only one is sent. *)
Example one_chunk_at_a_time :
  chunkSequence 1 0 [Some (mkChunkInfo 5 1 20 2000000 100 1)] = [].
Proof. reflexivity. Qed.

(** An announcement is lost and the chunk before it is downloaded after the finish
    file: the background thread asks for the announcement, which asserts that it is
    on the main thread. *)
Example hole_at_the_end_asserts :
  sampleRun [EvChunkInfo (sampleChunk 0 10); EvSession None; EvChunkInfo (sampleChunk 2 30);
             EvFinishStream 5 99; EvFinishDownloaded;
             EvBackground None sampleDisk true (sampleFile ++ [mkFinishChunk 2 30 2000000 100 true]);
             EvChunkDownloaded; EvBackground None sampleDisk true []] = Stop AssertFailure.
Proof. vm_compute. reflexivity. Qed.

(** The last chunk counts as received when its download has only started: the drive's
    tree with the stream is put to the vote, and once more when it is downloaded. *)
Example completed_twice :
  exists s rootHash, sampleRun [EvChunkInfo (sampleChunk 0 10); EvSession None; EvFinishStream 5 99; EvFinishDownloaded;
             EvBackground None sampleDisk true [mkFinishChunk 0 10 2000000 100 true]; EvSession None;
             EvChunkDownloaded; EvBackground None sampleDisk true []; EvSession None; EvSession None] =
    Ret ([StartChunkDownload 10; StartFinishDownload 99; PlaylistAdded (sampleTextHash (finishPlaylist [mkFinishChunk 0 10 2000000 100 true]));
          MyRootHashIsCalculated rootHash; PlaylistAdded (sampleTextHash (finishPlaylist [mkFinishChunk 0 10 2000000 100 true]));
          MyRootHashIsCalculated rootHash], s).
Proof. do 2 eexists. vm_compute. reflexivity. Qed.

(** A stream that is cancelled while nothing is downloaded is not finished, and the
    next chunk that arrives fails an assertion. *)
Example cancelled_stream_asserts :
  sampleRun [EvChunkInfo (sampleChunk 0 10); EvBreak false false; EvSession None; EvChunkDownloaded] = Stop AssertFailure.
Proof. vm_compute. reflexivity. Qed.
