(* ===== verification/StreamingProgress.v ===== *)
(** * A stream is completed

    [stream_is_completed]: for an honest streamer, in whatever order the announcements,
    the finish transaction, the downloads and the jobs of the two threads come, when
    nothing is left to do the tree with the stream has been put to the vote.
    [stream_settles]: there is only so much to do.
    [orderly_stream_returns]: what stops such a stream is only the iterator that
    [tryDownloadNextChunk] keeps of a list that grows. *)

From S2P Require Import Prelude RcptMessage OrderedMap FsPath FsStatistics FsTree FsTreeFacts FsTreeSpec FsTreeLinks ModifyOpinion ModifyApproval ActionList ModifyDrive Playlist Streaming StreamingSpec.

(** ** What is left to do *)

(** A job that waits, or a download that is under way. *)
Definition enabled (ev : StreamEvent) (s : StreamData) : bool :=
  match ev with
  | EvSession _ => match sd_session s with [] => false | _ => true end
  | EvBackground _ _ _ _ => match sd_background s with [] => false | _ => true end
  | EvChunkDownloaded => match sd_downloadingLtHandle s with None => false | _ => true end
  | EvFinishDownloaded => sd_finishDownloading s
  | _ => false
  end.

Definition next_index (s : StreamData) : nat := match sd_downloadingIt s with None => 0%nat | Some i => S i end.

(** A bound on it. *)
Definition jobs_work (l : list BackgroundJob) : nat :=
  sum_list_with (fun j => match j with ParseFinishInfoFile => 5%nat | CheckFinishCondition => 3%nat end) l.
Definition work (s : StreamData) : nat :=
  (10 * (length (sd_chunkInfoList s) - next_index s) + match sd_downloadingLtHandle s with None => 0 | _ => 6 end +
   (if sd_finishDownloading s then 8 else 0) + length (sd_session s) + jobs_work (sd_background s))%nat.

#[local] Arguments Nat.mul : simpl never.
#[local] Arguments jobs_work : simpl never.

Section Settle.
  Context (verify : Z -> Z * Z * Z * Z * Z -> Z -> bool) (request : StreamRequest) (session : bool).
  Context (m_fsTree : Folder) (m_maxSize : Z) (playlistHash : string -> Z) (fsTreeHash : Folder -> Z).
  Notation step := (stream_step verify request session m_fsTree m_maxSize playlistHash fsTreeHash).
  Notation run := (stream_run verify request session m_fsTree m_maxSize playlistHash fsTreeHash).

(** Only what was left to do is done. *)
Fixpoint enabled_run (evs : list StreamEvent) (s : StreamData) : Prop :=
  match evs with
  | [] => True
  | ev :: evs' => enabled ev s = true /\ forall o s1, step ev s = Ret (o, s1) -> enabled_run evs' s1
  end.

Lemma jobs_work_snoc l j :
  jobs_work (l ++ [j]) = (jobs_work l + match j with ParseFinishInfoFile => 5 | CheckFinishCondition => 3 end)%nat.
Proof. unfold jobs_work. rewrite sum_list_with_app. cbn. lia. Qed.

Lemma jobs_work_cons j l : (3 + jobs_work l <= jobs_work (j :: l))%nat.
Proof. unfold jobs_work. cbn. destruct j; lia. Qed.

Lemma requestMissing_work main endpoint i s :
  ensures (fun p => work p.2 = work s) (requestMissingChunkInfo session main endpoint i s).
Proof. unfold requestMissingChunkInfo. apply ensures_assert. intros _. cbv zeta. repeat case_match; done. Qed.

Lemma complete_work disk s :
  ensures (fun s' => work s' <= S (work s))%nat (completeStreamFinishing request m_fsTree m_maxSize playlistHash fsTreeHash disk s).
Proof.
  unfold completeStreamFinishing. destruct (copyTree m_fsTree (sd_nodes s)) as [copy st]. cbv zeta.
  apply ensures_any. intros [[_ t1] st1]. destruct (getFolderPtr _ _ _ _) as [[ptr t2] st2].
  case_match; [|unfold work, next_index; cbn; lia]. apply ensures_any. intros fd. destruct (addChunkFiles _ _ _) as [fd1 st3].
  destruct (emplaceFile _ _ _ _ _) as [fd2 st4]. case_match. apply ensures_any. intros [meta drive].
  case_match; unfold work, next_index; cbn; rewrite ?length_app; cbn; lia.
Qed.

Lemma check_work endpoint disk s :
  ensures (fun p => work p.2 <= S (work s))%nat
    (checkFinishCondition request session m_fsTree m_maxSize playlistHash fsTreeHash endpoint disk s).
Proof.
  unfold checkFinishCondition. cbv zeta. do 3 (case_match; [cbn; lia|]).
  destruct (requestMissingInfos _ _ _ _ _) as [[[b o] s1]|f] eqn:E; [|done].
  apply requestInfos_inv in E as (-> & -> & -> & _). cbn [mbind outcome_bind].
  apply ensures_any. intros [|]; [|cbn; lia]. eapply ensures_bind; [apply complete_work|]. by intros s2 K.
Qed.

Lemma startChunk_work i info s :
  next_index s = i -> sd_downloadingLtHandle s = None -> (i < length (sd_chunkInfoList s))%nat ->
  ensures (fun p => work p.2 <= work s)%nat (startChunk session i info s).
Proof.
  intros Hi Eh Hl. unfold startChunk, tryDownloadNextChunk. cbn [sd_downloadingLtHandle set_downloadingIt].
  destruct session; [destruct (sd_torrentHandleMap _ !! _); [apply ensures_assert; intros _|]|];
    unfold work; rewrite Hi, Eh; unfold next_index; cbn; rewrite ?Eh, ?length_app; cbn; lia.
Qed.

Lemma downloadNext_work endpoint s :
  ensures (fun p => work p.2 <= work s)%nat (downloadNextChunk session endpoint s).
Proof.
  assert (forall m i, ensures (fun p => work p.2 <= work s)%nat (requestMissingChunkInfo session m endpoint i s)) as Hr.
  { intros m i. eapply ensures_mono; [|apply requestMissing_work]. cbn. lia. }
  unfold downloadNextChunk. destruct (sd_downloadingLtHandle s) eqn:Eh; [cbn; lia|].
  destruct (sd_downloadingIt s) as [i|] eqn:Ei.
  - destruct (iteratorIsStale s); [exact I|]. destruct (sd_chunkInfoList s !! S i) as [[info|]|] eqn:El; [| |cbn; lia].
    + apply startChunk_work; [by unfold next_index; rewrite Ei|done|by eapply lookup_lt_Some].
    + repeat case_match; done || apply Hr.
  - destruct (sd_chunkInfoList s) as [|[info|] l] eqn:El; [done| |apply Hr].
    apply startChunk_work; [by unfold next_index; rewrite Ei|done|rewrite El; cbn; lia].
Qed.

(** Every step that was due leaves less to do. *)
Lemma enabled_work ev s : enabled ev s = true -> ensures (fun p => work p.2 < work s)%nat (step ev s).
Proof.
  destruct ev as [| |endpoint|endpoint disk ok f| | |b1 b2]; cbn [enabled stream_step]; try done.
  - unfold runSessionJob. destruct (sd_session s) as [|job jobs] eqn:Es; [done|]. intros _. cbv zeta.
    set (s1 := set_jobs jobs (sd_background s) s).
    assert (S (work s1) = work s) as Hw by (unfold work, next_index; cbn; rewrite Es; cbn; lia).
    rewrite <- Hw. destruct job.
    + eapply ensures_mono; [|apply downloadNext_work]. cbn. lia.
    + unfold requestFinishChunk. case_match; [|done]. eapply ensures_mono; [|apply requestMissing_work]. cbn. lia.
    + unfold addPlaylist. repeat case_match; cbn; lia || done.
  - unfold runBackgroundJob. destruct (sd_background s) as [|job jobs] eqn:Eb; [done|]. intros _. cbv zeta.
    set (s1 := set_jobs (sd_session s) jobs s).
    assert (S (S (S (work s1))) <= work s)%nat as Hw
      by (pose proof (jobs_work_cons job jobs); unfold work, next_index; cbn; rewrite Eb; lia).
    assert (forall s2, work s2 = work s1 -> ensures (fun p => work p.2 < work s)%nat
      (checkFinishCondition request session m_fsTree m_maxSize playlistHash fsTreeHash endpoint disk s2)) as Hc.
    { intros s2 E. eapply ensures_mono; [|apply check_work]. cbn. lia. }
    destruct job; [|by apply Hc]. unfold parseFinishInfoFile, continueFinishStream. cbv zeta.
    destruct ok; [|change (work s1 < work s)%nat; lia]. cbn [sd_finishStreamIt sd_finishInfo set_finishInfo].
    destruct (Nat.eqb 0 (length f)); [change (work s1 < work s)%nat; lia|].
    destruct (missingChunk 0 _ _) as [i|]; [|by apply Hc].
    cut (S (work s1) < work s)%nat; [|lia]. unfold work, next_index. cbn. rewrite length_app. cbn. lia.
  - unfold chunkDownloaded. destruct (sd_downloadingLtHandle s) eqn:Eh; [|done]. intros _. apply ensures_assert. intros _.
    unfold work, next_index. rewrite Eh. cbn.
    destruct (sd_finishInfoHash s); cbn; rewrite ?jobs_work_snoc, ?length_app; cbn; lia.
  - intros Ed. unfold finishDownloaded. rewrite Ed. apply ensures_assert. intros _.
    unfold work. rewrite Ed. unfold next_index. cbn. rewrite jobs_work_snoc. cbn. lia.
Qed.

(** A stream settles: from any state, in whatever order, there are no more steps
    than the work that is left. *)
Lemma stream_settles evs s out s' :
  enabled_run evs s -> run evs s = Ret (out, s') -> (length evs + work s' <= work s)%nat.
Proof.
  revert s out. induction evs as [|ev evs IH]; intros s out; cbn.
  - intros _ [= _ ->]. lia.
  - intros [He Hr] E. apply bind_ret_inv in E as ([o1 s1] & E1 & E). apply bind_ret_inv in E as ([o2 s2] & E2 & E).
    injection E as <- <-. pose proof (ensures_ret _ _ _ (enabled_work ev s He) E1) as Hw. cbn in Hw.
    specialize (IH s1 o2 (Hr _ _ E1) E2). lia.
Qed.

End Settle.

Section Honest.
  Context (verify : Z -> Z * Z * Z * Z * Z -> Z -> bool) (request : StreamRequest).
  Context (m_fsTree : Folder) (m_maxSize : Z) (playlistHash : string -> Z) (fsTreeHash : Folder -> Z).
  Notation verified := (Verify verify (sq_streamerKey request)).
  Notation step := (stream_step verify request true m_fsTree m_maxSize playlistHash fsTreeHash).
  Notation run := (stream_run verify request true m_fsTree m_maxSize playlistHash fsTreeHash).
  Notation complete := (completeStreamFinishing request m_fsTree m_maxSize playlistHash fsTreeHash).

  (** What the streamer announces and lists: the chunks differ, and only they are signed. *)
  Context (chunks : list ChunkInfo) (finishHash : Z) (file : list FinishStreamChunkInfo).
  Context (chunks_ok : forall i c, chunks !! i = Some c -> cell_ok verify request i c).
  Context (chunks_signed : forall info, ch_streamId info = sq_streamId request -> verified info = true ->
             0 <= ch_chunkIndex info -> chunks !! Z.to_nat (ch_chunkIndex info) = Some info).
  Context (chunks_some : chunks <> []).
  Context (hashes_differ : NoDup (finishHash :: map ch_chunkInfoHash chunks)).
  Context (file_lists : map fc_chunkInfoHash file = map ch_chunkInfoHash chunks).

  (** The folder can be made, and the drive is not full. *)
  Context (folder_free : ~ blocked (path_of_string (sq_folder request)) m_fsTree).
  Context (tree_wf : wf_folder m_fsTree).
Definition disk_fits (disk : Disk) : Prop :=
  forall t meta drive, getSandboxDriveSizes (dk_driveFileSize disk) (dk_torrentFileSize disk)
                         (dk_fsTreeSizes disk t).1 (dk_fsTreeSizes disk t).2 t = Ret (meta, drive) ->
    u64_add (u64_add meta drive) (dk_fsTreeSizes disk t).2 <= m_maxSize.

(** Anybody may send announcements; the finish file is the streamer's. *)
Definition honest_event (ev : StreamEvent) : Prop :=
  match ev with
  | EvChunkInfo info => 0 <= ch_chunkIndex info < two32
  | EvFinishStream id hash => id = sq_streamId request -> hash = finishHash
  | EvBackground _ disk ok f => disk_fits disk /\ ok = true /\ f = file
  | EvBreak _ _ => False
  | _ => True
  end.

Notation n := (length chunks).
(** What always holds of the chunks and of the finish file. *)
Record progress (s : StreamData) : Prop := {
  pg_cells i c : sd_chunkInfoList s !! i = Some (Some c) -> chunks !! i = Some c;
  pg_length : (length (sd_chunkInfoList s) <= n)%nat;
  pg_started j : (j < next_index s)%nat -> exists c, sd_chunkInfoList s !! j = Some (Some c);
  pg_torrents j c : chunks !! j = Some c -> is_Some (sd_torrentHandleMap s !! ch_chunkInfoHash c) <-> (j < next_index s)%nat;
  pg_file : sd_finishInfo s = [] \/ (sd_finishInfo s = file /\ is_Some (sd_finishInfoHash s));
  pg_hash h : sd_finishInfoHash s = Some h ->
              sd_finishDownloading s = true \/ ParseFinishInfoFile ∈ sd_background s \/ sd_finishInfo s = file;
  pg_due : sd_finishDownloading s = true \/ ParseFinishInfoFile ∈ sd_background s -> is_Some (sd_finishInfoHash s);
  pg_interrupted : sd_taskIsInterrupted s = false }.

(** When the next chunk is announced, its download is due or another one under way. *)
Definition asks (s : StreamData) : Prop :=
  sd_downloadingLtHandle s = None -> (exists c, sd_chunkInfoList s !! next_index s = Some (Some c)) ->
  TryDownloadNextChunk ∈ sd_session s.

(** When everything is there, the completion is due, under way or done. *)
Definition completes (out : list StreamOutput) (s : StreamData) : Prop :=
  sd_finishInfo s = file -> next_index s = n -> sd_downloadingLtHandle s = None ->
  CheckFinishCondition ∈ sd_background s \/ (exists h, AddPlaylist h ∈ sd_session s) \/
  (exists h, MyRootHashIsCalculated h ∈ out).

(** What is put to the vote is the drive with the folder of the stream. *)
Definition stream_root (h : Z) : Prop := exists t, h = fsTreeHash t /\ stream_tree request m_fsTree playlistHash file t.
Definition votes (out : list StreamOutput) (s : StreamData) : Prop :=
  (forall h, sd_sandboxRootHash s = Some h -> stream_root h) /\ (forall h, MyRootHashIsCalculated h ∈ out -> stream_root h).

Lemma file_some : file <> [].
Proof. intros E. rewrite E in file_lists. by destruct chunks. Qed.

Lemma file_length : length file = n.
Proof. by rewrite <- (length_map fc_chunkInfoHash), file_lists, length_map. Qed.

Lemma hash_inj i j c d :
  chunks !! i = Some c -> chunks !! j = Some d -> ch_chunkInfoHash c = ch_chunkInfoHash d -> i = j.
Proof.
  intros Hc Hd E. apply NoDup_cons in hashes_differ as [_ Hn].
  refine (NoDup_lookup _ i j (ch_chunkInfoHash c) Hn _ _); rewrite list_lookup_fmap; [by rewrite Hc|by rewrite Hd, E].
Qed.

Lemma hash_not_finish i c : chunks !! i = Some c -> ch_chunkInfoHash c <> finishHash.
Proof.
  intros Hc E. apply NoDup_cons in hashes_differ as [Hn _]. apply Hn. rewrite <- E.
  apply list_elem_of_fmap. exists c. split; [done|by eapply list_elem_of_lookup_2].
Qed.

(** A handler that changes only the jobs, and what is not modelled as progress. *)
Record only_jobs (s s' : StreamData) : Prop := {
  oj_chunks : same_chunks s s';
  oj_handle : sd_downloadingLtHandle s' = sd_downloadingLtHandle s;
  oj_torrents : sd_torrentHandleMap s' = sd_torrentHandleMap s;
  oj_info : sd_finishInfo s' = sd_finishInfo s;
  oj_hash : sd_finishInfoHash s' = sd_finishInfoHash s;
  oj_downloading : sd_finishDownloading s' = sd_finishDownloading s;
  oj_interrupted : sd_taskIsInterrupted s' = sd_taskIsInterrupted s }.

Lemma only_jobs_trans s1 s2 s3 : only_jobs s1 s2 -> only_jobs s2 s3 -> only_jobs s1 s3.
Proof. intros [[? ?] ? ? ? ? ? ?] [[? ?] ? ? ? ? ? ?]. split; [split|..]; congruence. Qed.

Lemma only_jobs_index s s' : only_jobs s s' -> next_index s' = next_index s.
Proof. intros [[_ E] _ _ _ _ _ _]. unfold next_index. by rewrite E. Qed.

Lemma progress_frame s s' :
  only_jobs s s' -> progress s ->
  (ParseFinishInfoFile ∈ sd_background s -> ParseFinishInfoFile ∈ sd_background s' \/ sd_finishInfo s = file) ->
  (ParseFinishInfoFile ∈ sd_background s' -> ParseFinishInfoFile ∈ sd_background s) ->
  progress s'.
Proof.
  intros Hj [P1 P2 P3 P4 P6 P7 P8 P9] Hp Hq. pose proof (only_jobs_index _ _ Hj) as En.
  destruct Hj as [[E1 E2] E3 E4 E5 E6 E7 E8].
  split; rewrite ?En, ?E1, ?E4, ?E5, ?E6, ?E7, ?E8; try done.
  - intros h Hh. destruct (P7 h Hh) as [?|[K|?]]; [by left| |by (right; right)].
    destruct (Hp K); [by (right; left)|by (right; right)].
  - intros [K|K]; apply P8; auto.
Qed.

Lemma asks_frame s s' :
  only_jobs s s' -> asks s ->
  (TryDownloadNextChunk ∈ sd_session s -> TryDownloadNextChunk ∈ sd_session s') -> asks s'.
Proof.
  intros Hj Ha Ht. pose proof (only_jobs_index _ _ Hj) as En. destruct Hj as [[E1 E2] E3 _ _ _ _ _].
  unfold asks. rewrite En, E1, E3. auto.
Qed.

Lemma completes_frame out out' s s' :
  only_jobs s s' -> completes out s ->
  (CheckFinishCondition ∈ sd_background s -> CheckFinishCondition ∈ sd_background s') ->
  (forall h, AddPlaylist h ∈ sd_session s -> AddPlaylist h ∈ sd_session s' \/ exists h', MyRootHashIsCalculated h' ∈ out') ->
  (forall h, MyRootHashIsCalculated h ∈ out -> MyRootHashIsCalculated h ∈ out') -> completes out' s'.
Proof.
  intros Hj Hc H1 H2 H3. pose proof (only_jobs_index _ _ Hj) as En. destruct Hj as [_ E3 _ E5 _ _ _].
  unfold completes. rewrite En, E3, E5. intros K1 K2 K3. destruct (Hc K1 K2 K3) as [K|[[h K]|[h K]]]; [by left; auto| |].
  - destruct (H2 h K); [right; left; by eexists|by (right; right)].
  - right. right. exists h. auto.
Qed.

Lemma accept_progress info s :
  0 <= ch_chunkIndex info -> progress s -> asks s ->
  let s' := acceptChunkInfoMessage verify request info s in
  progress s' /\ asks s' /\ (forall out, completes out s -> completes out s').
Proof.
  intros Hi Hs Ha. unfold acceptChunkInfoMessage. case_decide as Hid; [done|].
  destruct (verified info) eqn:Hv; cbn [negb]; [|done].
  assert (chunks !! Z.to_nat (ch_chunkIndex info) = Some info) as Hc.
  { apply chunks_signed; [|done..]. by destruct (decide (ch_streamId info = sq_streamId request)). }
  set (i := Z.to_nat _) in *. cbv zeta.
  match goal with |- context [set_chunks ?l s] => set (l' := l) end.
  assert (forall j, l' !! j = if decide (j = i) then Some (Some info)
    else if decide (j < i)%nat then Some (default None (sd_chunkInfoList s !! j)) else sd_chunkInfoList s !! j) as Hl
    by (intros j; apply accept_lookup).
  destruct Hs as [P1 P2 P3 P4 P6 P7 P8 P9].
  assert (forall j c, l' !! j = Some (Some c) -> chunks !! j = Some c) as Q1.
  { intros j c. rewrite Hl. case_decide as Hj; [intros [= <-]; by subst|]. case_decide; [|apply P1].
    intros [= E]. apply P1. by destruct (sd_chunkInfoList s !! j) as [[c'|]|]; simplify_eq/=. }
  assert (length l' <= n)%nat as Q2.
  { subst l'. apply lookup_lt_Some in Hc. destruct (Nat.ltb_spec i (length (sd_chunkInfoList s))).
    - by rewrite length_insert.
    - rewrite !length_app, length_replicate. cbn. lia. }
  assert (forall j, (j < next_index s)%nat -> exists c, l' !! j = Some (Some c)) as Q3.
  { intros j Hj. destruct (P3 j Hj) as [c E]. rewrite Hl, E. cbn. repeat case_decide; by eexists. }
  unfold tryDownloadNextChunk. cbn [sd_downloadingLtHandle set_chunks].
  destruct (sd_downloadingLtHandle s) eqn:Eh; (split_and!; [split; cbn; try done| |]).
  - intros K. cbn in K. by rewrite Eh in K.
  - done.
  - intros _ _. apply elem_of_app. right. by left.
  - intros out Hco K1 K2 K3. destruct (Hco K1 K2 K3) as [K|[[h K]|K]]; [by left| |by (right; right)].
    right. left. exists h. by apply elem_of_app; left.
Qed.

Lemma requestMissing_jobs main endpoint i s o s' :
  requestMissingChunkInfo true main endpoint i s = Ret (o, s') ->
  only_jobs s s' /\ sd_session s' = sd_session s /\ sd_background s' = sd_background s.
Proof.
  unfold requestMissingChunkInfo. intros E. apply guard_assert_inv in E as [_ E]. cbv zeta in E.
  repeat case_match; simplify_eq/=; done.
Qed.

Lemma startChunk_progress i info s o s' :
  progress s -> next_index s = i -> sd_downloadingLtHandle s = None -> sd_chunkInfoList s !! i = Some (Some info) ->
  startChunk true i info s = Ret (o, s') -> 
  progress s' /\ is_Some (sd_downloadingLtHandle s') /\ sd_background s' = sd_background s /\
  sd_session s' = sd_session s /\ sd_finishInfo s' = sd_finishInfo s.
Proof.
  intros [P1 P2 P3 P4 P6 P7 P8 P9] <- Eh Hi. unfold startChunk. cbn.
  pose proof (P1 _ _ Hi) as Hc. destruct (sd_torrentHandleMap s !! ch_chunkInfoHash info) eqn:Et.
  { assert (is_Some (sd_torrentHandleMap s !! ch_chunkInfoHash info)) as K by (by rewrite Et).
    apply (P4 _ _ Hc) in K. lia. }
  intros [= <- <-]. split; [|split_and!; [by eexists|done..]]. split; cbn; try done.
  - intros j Hj. destruct (decide (j = next_index s)) as [->|]; [by eexists|]. apply P3. lia.
  - intros j c Hj. destruct (decide (j = next_index s)) as [->|Hne].
    + rewrite Hc in Hj. injection Hj as <-. rewrite lookup_insert_eq. split; [lia|by eexists].
    + rewrite lookup_insert_ne by (intros E; apply Hne; symmetry; by eapply hash_inj). rewrite (P4 j c Hj). lia.
Qed.

Lemma downloadNext_progress endpoint s o s' :
  progress s -> downloadNextChunk true endpoint s = Ret (o, s') ->
  progress s' /\ asks s' /\ (forall out, completes out s -> completes out s').
Proof.
  intros Hs. unfold downloadNextChunk. destruct (sd_downloadingLtHandle s) eqn:Eh.
  { intros [= <- <-]. split_and!; try done. intros K. by rewrite Eh in K. }
  assert (forall i c, next_index s = i -> sd_chunkInfoList s !! i = Some (Some c) -> startChunk true i c s = Ret (o, s') ->
    progress s' /\ asks s' /\ (forall out, completes out s -> completes out s')) as Hstart.
  { intros i c Hi Hl E. destruct (startChunk_progress _ _ _ _ _ Hs Hi Eh Hl E) as (H1 & [h Hh] & H3 & H4 & H5).
    split_and!; [done| |intros out _ _ _]; intros K; by rewrite Hh in K. }
  assert (forall i j, next_index s = i -> (forall c, sd_chunkInfoList s !! i <> Some (Some c)) ->
    requestMissingChunkInfo true true endpoint j s = Ret (o, s') ->
    progress s' /\ asks s' /\ (forall out, completes out s -> completes out s')) as Hreq.
  { intros i j Hi Hl E. apply requestMissing_jobs in E as (Hj & E1 & E2). split_and!; try done.
    - apply (progress_frame s); [done..| |]; rewrite E2; [by left|done].
    - pose proof (only_jobs_index _ _ Hj). destruct Hj as [[K1 _] _ _ _ _ _ _]. intros _ [c Hc].
      exfalso. apply (Hl c). congruence.
    - intros out Hc. apply (completes_frame out out s); try done; rewrite ?E1, ?E2; by eauto. }
  unfold next_index in Hstart, Hreq. destruct (sd_downloadingIt s) as [i|] eqn:Ei.
  - destruct (iteratorIsStale s); [discriminate|]. destruct (sd_chunkInfoList s !! S i) as [[c|]|] eqn:El.
    + by apply Hstart.
    + destruct (sd_chunkInfoList s !! i) as [[c|]|]; [|done..]. apply (Hreq (S i)); [done|by rewrite El].
    + intros [= <- <-]. split_and!; try done. intros _ [c Hc]. unfold next_index in Hc. rewrite Ei, El in Hc. done.
  - destruct (sd_chunkInfoList s) as [|[c|] l] eqn:El; [done| |].
    + apply (Hstart 0%nat c); [done|]. done.
    + apply (Hreq 0%nat); [done|]. done.
Qed.

(** ** The completion *)

Lemma complete_posts disk s s' :
  disk_fits disk -> complete disk s = Ret s' ->
  exists h, only_jobs s s' /\ sd_session s' = sd_session s ++ [AddPlaylist h] /\ sd_background s' = sd_background s.
Proof.
  intros Hd Hc. unfold completeStreamFinishing in Hc.
  change (copyTree m_fsTree (sd_nodes s)) with (m_fsTree, (copyTree m_fsTree (sd_nodes s)).2) in Hc. cbv zeta iota in Hc.
  apply bind_ret_inv in Hc as ([[ok t1] st1] & Ea & Hc). apply addFolder_path_inv in Ea as [Hwf1 Ha]; [|done].
  destruct ok; [|by destruct Ha as (_ & _ & ?)]. destruct Ha as (Hf & _ & _).
  rewrite getFolderPtr_find in Hc by done. rewrite decide_True in Hc by done.
  apply bind_ret_inv in Hc as (fd & _ & Hc). destruct (addChunkFiles _ fd st1) as [fd1 st3].
  destruct (emplaceFile _ _ _ _ st3) as [fd2 st4]. set (t3 := update_at _ _ t1) in Hc.
  destruct (dk_fsTreeSizes disk t3) as [ts fs] eqn:Es.
  apply bind_ret_inv in Hc as ([meta drive] & Eg & Hc).
  specialize (Hd t3 meta drive). rewrite Es in Hd. specialize (Hd Eg). cbn in Hd.
  destruct (Z.ltb_spec m_maxSize (u64_add (u64_add meta drive) fs)); [lia|]. injection Hc as <-.
  eexists. split_and!; [|done..]. by split.
Qed.

Lemma requestInfos_some (l : list ChunkInfo) endpoint i s :
  requestMissingInfos true endpoint i (map Some l) s = Ret (true, [], s).
Proof. revert i. induction l as [|c l IH]; intros i; [done|]. apply IH. Qed.

Lemma allChunks_true torrents (l : list ChunkInfo) infos :
  map fc_chunkInfoHash infos = map ch_chunkInfoHash l ->
  Forall (fun c => is_Some (torrents !! ch_chunkInfoHash c)) l -> allChunksReceived (map Some l) infos torrents = Ret true.
Proof.
  revert infos. induction l as [|c l IH]; intros [|info infos] E Hl; try discriminate E; [done|].
  cbn in E |- *. injection E as E1 E2. apply Forall_cons in Hl as [[t Ht] Hl].
  rewrite decide_False by (by rewrite Ht). rewrite decide_False by (intros K; by apply K). by apply IH.
Qed.

(** All cells are filled when all chunks are started. *)
Lemma all_cells s : progress s -> next_index s = n -> sd_chunkInfoList s = map Some chunks.
Proof.
  intros Hs Hn. apply list_eq. intros i. rewrite list_lookup_fmap.
  destruct (chunks !! i) as [c|] eqn:Hc; cbn.
  - pose proof (lookup_lt_Some _ _ _ Hc). destruct (pg_started s Hs i) as [d Hd]; [lia|].
    rewrite Hd. pose proof (pg_cells s Hs _ _ Hd). congruence.
  - apply lookup_ge_None_2. apply lookup_ge_None_1 in Hc. pose proof (pg_length s Hs). lia.
Qed.

Lemma check_progress endpoint disk s o s' :
  disk_fits disk -> progress s -> sd_finishInfo s = file ->
  checkFinishCondition request true m_fsTree m_maxSize playlistHash fsTreeHash endpoint disk s = Ret (o, s') ->
  only_jobs s s' /\ sd_background s' = sd_background s /\ (forall j, j ∈ sd_session s -> j ∈ sd_session s') /\
  (next_index s = n -> exists h, AddPlaylist h ∈ sd_session s') /\ o = [].
Proof.
  intros Hd Hs Hf E. unfold checkFinishCondition in E. cbv zeta in E. rewrite Hf, file_length in E.
  destruct (Nat.eqb_spec n 0) as [K|_]; [by destruct chunks|].
  assert (next_index s = n -> length (sd_chunkInfoList s) = n) as Hl
    by (intros Hn; rewrite (all_cells s Hs Hn); apply length_map).
  destruct (Nat.ltb_spec (length (sd_chunkInfoList s)) n) as [|K1].
  { injection E as <- <-. split_and!; try done. intros Hn. apply Hl in Hn. lia. }
  destruct (Nat.ltb_spec n (length (sd_chunkInfoList s))) as [|K2]; [pose proof (pg_length s Hs); lia|].
  apply bind_ret_inv in E as ([[b o1] s1] & Er & E). apply requestInfos_inv in Er as (-> & -> & -> & l & El).
  apply bind_ret_inv in E as (ok & Ek & E). rewrite El in Ek. destruct ok.
  - apply bind_ret_inv in E as (s2 & Ec & E). injection E as <- <-.
    apply complete_posts in Ec as (h & Hj & Eh & Eb); [|done]. split_and!; try done.
    + intros j Hj'. rewrite Eh. apply elem_of_app. by left.
    + intros _. exists h. rewrite Eh. apply elem_of_app. right. by left.
  - injection E as <- <-. split_and!; try done. intros Hn. exfalso.
    rewrite (all_cells s Hs Hn) in El. apply (inj (map Some)) in El as <-.
    rewrite allChunks_true in Ek; [discriminate Ek|done|].
    apply Forall_lookup. intros i c Hc. apply (pg_torrents s Hs i c Hc). rewrite Hn. by apply lookup_lt_Some in Hc.
Qed.

Lemma missing_none i infos torrents :
  missingChunk i infos torrents = None <-> Forall (fun c => is_Some (torrents !! fc_chunkInfoHash c)) infos.
Proof.
  revert i. induction infos as [|c infos IH]; intros i; cbn; [by split; [constructor|]|].
  rewrite Forall_cons, <- (IH (S i)). case_decide as K; [|by rewrite not_eq_None_Some in K; tauto].
  split; [done|]. rewrite K. by intros [[? [=]] _].
Qed.

(** ** The steps *)

Definition invariant (out : list StreamOutput) (s : StreamData) : Prop := progress s /\ asks s /\ completes out s.

Lemma elem_cons_ne {A} (x y : A) l : x ∈ y :: l -> x <> y -> x ∈ l.
Proof. by intros [->|]%elem_of_cons. Qed.

Lemma pop_background j jobs s :
  sd_background s = j :: jobs -> progress s -> (j = ParseFinishInfoFile -> sd_finishInfo s = file) ->
  progress (set_jobs (sd_session s) jobs s).
Proof.
  intros Eb Hs Hj. apply (progress_frame s); [by split|done|..]; cbn; rewrite Eb.
  - intros [<-|]%elem_of_cons; [right; by apply Hj|by left].
  - intros K. by apply elem_of_cons; right.
Qed.

Lemma background_invariant endpoint disk out s o s' :
  disk_fits disk -> invariant out s ->
  runBackgroundJob request true m_fsTree m_maxSize playlistHash fsTreeHash endpoint disk true file s = Ret (o, s') ->
  invariant (out ++ o) s'.
Proof.
  intros Hd (Hs & Ha & Hc) E. unfold runBackgroundJob in E. destruct (sd_background s) as [|job jobs] eqn:Eb.
  { injection E as <- <-. by rewrite app_nil_r. }
  (* what follows from a check of the finish condition *)
  assert (forall s2, progress s2 -> sd_finishInfo s2 = file -> asks s2 ->
    checkFinishCondition request true m_fsTree m_maxSize playlistHash fsTreeHash endpoint disk s2 = Ret (o, s') ->
    invariant (out ++ o) s') as Hcheck.
  { intros s2 H2 Hf Ha2 E2. apply check_progress in E2 as (Hj & E3 & E4 & E5 & ->); [|done..]. split_and!.
    - apply (progress_frame s2); [done..| |]; rewrite E3; [by left|done].
    - apply (asks_frame s2); [done..|]. by apply E4.
    - intros _ Hn _. right. left. apply E5. by rewrite <- (only_jobs_index _ _ Hj). }
  assert (forall i, ParseFinishInfoFile ∈ sd_background s ->
    progress (set_finishInfo file i (set_jobs (sd_session s) jobs s))) as Hparsed.
  { intros i K. destruct Hs as [P1 P2 P3 P4 P6 P7 P8 P9]. split; cbn; try done.
    - right. split; [done|]. apply P8. by right.
    - intros h _. by (right; right).
    - intros _. apply P8. by right. }
  destruct job.
  - unfold parseFinishInfoFile, continueFinishStream in E. cbn in E. rewrite file_length, drop_0 in E.
    assert (ParseFinishInfoFile ∈ sd_background s) as Hin by (rewrite Eb; by left).
    destruct n as [|m] eqn:En; [by destruct chunks|]. cbn [Nat.eqb] in E.
    destruct (missingChunk 0 file _) as [i|] eqn:Em.
    + injection E as <- <-. rewrite app_nil_r. split_and!.
      * by apply (progress_frame (set_finishInfo file i (set_jobs (sd_session s) jobs s))); [split|auto|left|].
      * intros K1 K2. cbn. apply elem_of_app. left. by apply Ha.
      * intros _ Hn _. exfalso. cut (missingChunk 0 file (sd_torrentHandleMap s) = None); [by rewrite Em|].
        apply missing_none, (Forall_fmap fc_chunkInfoHash (fun h => is_Some (sd_torrentHandleMap s !! h))).
        replace (fc_chunkInfoHash <$> file) with (ch_chunkInfoHash <$> chunks) by (symmetry; exact file_lists).
        apply Forall_fmap, Forall_lookup. intros j c Hj. apply (pg_torrents s Hs j c Hj).
        change (next_index s = n) in Hn. rewrite Hn. by apply lookup_lt_Some in Hj.
    + apply (Hcheck (set_finishInfo file (length file) (set_jobs (sd_session s) jobs s))); [by apply Hparsed|done|exact Ha|].
      by rewrite file_length, En.
  - assert (progress (set_jobs (sd_session s) jobs s)) as H1 by (by apply (pop_background CheckFinishCondition)).
    destruct (pg_file s Hs) as [Hf|[Hf _]]; [|by apply (Hcheck (set_jobs (sd_session s) jobs s))].
    unfold checkFinishCondition in E. cbn in E. rewrite Hf in E. injection E as <- <-. rewrite app_nil_r.
    split_and!; [exact H1|exact Ha|]. intros K. cbn in K. rewrite Hf in K. by destruct file_some.
Qed.

Lemma session_invariant endpoint out s o s' :
  invariant out s -> runSessionJob true endpoint s = Ret (o, s') -> invariant (out ++ o) s'.
Proof.
  intros (Hs & Ha & Hc) E. unfold runSessionJob in E. destruct (sd_session s) as [|job jobs] eqn:Es.
  { injection E as <- <-. by rewrite app_nil_r. }
  set (s1 := set_jobs jobs (sd_background s) s) in E.
  assert (only_jobs s s1) as Hj by by split.
  assert (progress s1) as H1 by (by apply (progress_frame s); [| |left|]).
  assert (job <> TryDownloadNextChunk -> asks s1) as Ha1.
  { intros Hne. apply (asks_frame s); [done..|]. rewrite Es. intros K. by apply (elem_cons_ne _ job). }
  assert (forall out', (forall h, job = AddPlaylist h -> exists h', MyRootHashIsCalculated h' ∈ out') ->
    (forall h, MyRootHashIsCalculated h ∈ out -> MyRootHashIsCalculated h ∈ out') -> completes out' s1) as Hc1.
  { intros out' Ho Hout. apply (completes_frame out out' s); [done..| |done].
    rewrite Es. intros h [K|K]%elem_of_cons; [right; by apply (Ho h)|by left]. }
  destruct job as [| |hash].
  - apply downloadNext_progress in E as (H2 & Ha2 & Hc2); [|done]. split_and!; [done..|].
    apply Hc2, Hc1; [done|]. intros h K. by apply elem_of_app; left.
  - unfold requestFinishChunk in E. destruct (sd_finishInfo s1 !! sd_finishStreamIt s1); [|discriminate E].
    apply requestMissing_jobs in E as (Hj2 & E1 & E2). split_and!.
    + apply (progress_frame s1); [done..| |]; rewrite E2; [by left|done].
    + apply (asks_frame s1); [done|by apply Ha1|by rewrite E1].
    + apply (completes_frame (out ++ o) (out ++ o) s1); [done| |by rewrite E2|rewrite E1; by left|done].
      apply Hc1; [done|]. intros h K. by apply elem_of_app; left.
  - unfold addPlaylist in E. destruct (sd_sandboxFsTree s1); [|discriminate E].
    destruct (sd_sandboxRootHash s1) as [r|]; [|discriminate E].
    rewrite (pg_interrupted _ H1) in E. injection E as <- <-. split_and!; [done|by apply Ha1|].
    apply Hc1; [|intros h K; by apply elem_of_app; left]. intros _ _. exists r.
    apply elem_of_app. right. apply elem_of_cons. right. by left.
Qed.

Lemma finishTx_invariant id hash out s o s' :
  (id = sq_streamId request -> hash = finishHash) -> invariant out s ->
  acceptFinishStreamTx request true id hash s = Ret (o, s') -> invariant (out ++ o) s'.
Proof.
  intros Hid (Hs & Ha & Hc) E. unfold acceptFinishStreamTx in E.
  assert (invariant out s -> invariant out s) as Hsame by done.
  destruct (sd_finishInfoHash s) as [h|] eqn:Eh; [injection E as <- <-; rewrite app_nil_r; by split_and!|].
  case_decide as Hne; [injection E as <- <-; rewrite app_nil_r; by split_and!|].
  assert (hash = finishHash) as -> by (apply Hid; by destruct (decide (id = sq_streamId request))). clear Hid Hne.
  destruct Hs as [P1 P2 P3 P4 P6 P7 P8 P9].
  assert (sd_finishInfo s = []) as Ef by (destruct P6 as [|[_ [? K]]]; [done|by rewrite Eh in K]).
  assert (forall out' s2, sd_finishInfo s2 = [] -> completes out' s2) as Hvac.
  { intros out' s2 E2 K. rewrite E2 in K. by destruct file_some. }
  destruct (sd_torrentHandleMap s !! finishHash).
  - apply guard_assert_inv in E as [_ E]. injection E as <- <-.
    split_and!; [split; cbn; try done|exact Ha|by apply Hvac].
    + by left.
    + intros _ _. right. left. apply elem_of_app. right. by left.
  - injection E as <- <-. split_and!; [split; cbn; try done|exact Ha|by apply Hvac].
    + intros j c Hj. rewrite lookup_insert_ne by (intros K; by apply (hash_not_finish _ _ Hj)). by apply P4.
    + by left.
    + intros _ _. by left.
Qed.

Lemma chunkDownloaded_invariant out s o s' :
  invariant out s -> chunkDownloaded s = Ret (o, s') -> invariant (out ++ o) s'.
Proof.
  intros (Hs & Ha & Hc) E. unfold chunkDownloaded in E. destruct (sd_downloadingLtHandle s) eqn:Eh.
  2: { injection E as <- <-. rewrite app_nil_r. by split_and!. }
  apply guard_assert_inv in E as [_ E]. cbv zeta in E. injection E as <- <-. rewrite app_nil_r.
  pose proof Hs as [P1 P2 P3 P4 P6 P7 P8 P9]. cbn. destruct (sd_finishInfoHash s) as [h|] eqn:Ef.
  - split_and!; [split; cbn; try done| |].
    + by rewrite Ef.
    + rewrite Ef. intros h' K. destruct (P7 h' K) as [|[|]]; [by left| |by (right; right)].
      right. left. apply elem_of_app. by left.
    + intros _ _. apply elem_of_app. right. by left.
    + intros _ _ _. left. apply elem_of_app. right. by left.
  - split_and!; [split; cbn; by rewrite ?Ef| |].
    + intros _ _. apply elem_of_app. right. by left.
    + intros K. cbn in K. destruct P6 as [K2|[_ [h K2]]]; [|discriminate K2].
      rewrite K2 in K. by destruct file_some.
Qed.

Lemma finishDownloaded_invariant out s o s' :
  invariant out s -> finishDownloaded s = Ret (o, s') -> invariant (out ++ o) s'.
Proof.
  intros (Hs & Ha & Hc) E. unfold finishDownloaded in E. destruct (sd_finishDownloading s) eqn:Ed.
  2: { injection E as <- <-. rewrite app_nil_r. by split_and!. }
  apply guard_assert_inv in E as [_ E]. injection E as <- <-. rewrite app_nil_r.
  pose proof Hs as [P1 P2 P3 P4 P6 P7 P8 P9]. split_and!; [split; cbn; try done|exact Ha|].
  - intros _ _. right. left. apply elem_of_app. right. by left.
  - intros _. apply P8. by left.
  - intros K1 K2 K3. destruct (Hc K1 K2 K3) as [K|[[h K]|[h K]]]; [left|right; left; by exists h|right; right; by exists h].
    apply elem_of_app. by left.
Qed.

Lemma step_invariant ev out s o s' :
  honest_event ev -> invariant out s -> step ev s = Ret (o, s') -> invariant (out ++ o) s'.
Proof.
  intros He Hi E. destruct ev as [info|id hash|endpoint|endpoint disk ok f| | |b1 b2]; cbn [stream_step] in E.
  - injection E as <- <-. rewrite app_nil_r. destruct Hi as (Hs & Ha & Hc).
    destruct (accept_progress info s ltac:(apply He) Hs Ha) as (H1 & H2 & H3). split_and!; auto.
  - by eapply finishTx_invariant.
  - by eapply session_invariant.
  - destruct He as (Hd & -> & ->). by eapply background_invariant.
  - by eapply chunkDownloaded_invariant.
  - by eapply finishDownloaded_invariant.
  - done.
Qed.

(** ** What was received *)

Definition keeps (s s' : StreamData) : Prop :=
  sd_chunkInfoList s' = sd_chunkInfoList s /\ sd_finishInfoHash s' = sd_finishInfoHash s.

Lemma complete_keeps disk s : ensures (keeps s) (complete disk s).
Proof.
  unfold completeStreamFinishing. destruct (copyTree m_fsTree (sd_nodes s)) as [copy st]. cbv zeta.
  apply ensures_any. intros [[_ t1] st1]. destruct (getFolderPtr _ _ _ _) as [[ptr t2] st2].
  case_match; [|done]. apply ensures_any. intros fd. destruct (addChunkFiles _ _ _) as [fd1 st3].
  destruct (emplaceFile _ _ _ _ _) as [fd2 st4]. case_match. apply ensures_any. intros [meta drive]. by case_match.
Qed.

Lemma requestMissing_keeps main endpoint i s :
  ensures (fun p => keeps s p.2) (requestMissingChunkInfo true main endpoint i s).
Proof. unfold requestMissingChunkInfo. apply ensures_assert. intros _. cbv zeta. repeat case_match; done. Qed.

Lemma check_keeps endpoint disk s :
  ensures (fun p => keeps s p.2)
    (checkFinishCondition request true m_fsTree m_maxSize playlistHash fsTreeHash endpoint disk s).
Proof.
  unfold checkFinishCondition. cbv zeta. do 3 (case_match; [done|]).
  destruct (requestMissingInfos _ _ _ _ _) as [[[b o] s1]|f] eqn:E; [|done].
  apply requestInfos_inv in E as (-> & -> & -> & _). cbn [mbind outcome_bind].
  apply ensures_any. intros [|]; [|done]. eapply ensures_bind; [apply complete_keeps|]. by intros s2 K.
Qed.

(** Jobs and downloads change neither. *)
Lemma job_keeps ev s :
  match ev with EvChunkInfo _ | EvFinishStream _ _ => False | _ => True end -> ensures (fun p => keeps s p.2) (step ev s).
Proof.
  destruct ev as [| |endpoint|endpoint disk ok f| | |b1 b2]; intros K; try done; cbn [stream_step].
  - unfold runSessionJob. case_match; [done|]. cbv zeta. case_match.
    + unfold downloadNextChunk, startChunk, tryDownloadNextChunk. cbv zeta.
      repeat first [done|apply ensures_assert; intros _; cbv zeta|case_match].
    + unfold requestFinishChunk. case_match; [|done].
      eapply ensures_mono; [|apply requestMissing_keeps]. intros p Kp. exact Kp.
    + unfold addPlaylist. repeat case_match; done.
  - unfold runBackgroundJob, parseFinishInfoFile, continueFinishStream. cbv zeta.
    repeat first [done|eapply ensures_mono; [|apply check_keeps]; intros p Kp; exact Kp|case_match].
  - unfold chunkDownloaded, tryDownloadNextChunk. case_match; [|done]. apply ensures_assert. intros _. cbn. by case_match.
  - unfold finishDownloaded. case_match; [|done]. apply ensures_assert. by intros _.
  - unfold breakStream. cbn. repeat case_match; done.
Qed.

Definition filled (s : StreamData) (i : nat) : Prop := exists c, sd_chunkInfoList s !! i = Some (Some c).

(** What was announced or finished by the events so far. *)
Definition received (evs : list StreamEvent) (s : StreamData) : Prop :=
  (forall i c, chunks !! i = Some c -> EvChunkInfo c ∈ evs -> filled s i) /\
  (EvFinishStream (sq_streamId request) finishHash ∈ evs -> is_Some (sd_finishInfoHash s)).

Lemma accept_filled info s i : filled s i -> filled (acceptChunkInfoMessage verify request info s) i.
Proof.
  intros [c Hc]. unfold acceptChunkInfoMessage. case_decide; [by exists c|]. case_match; [by exists c|]. cbv zeta.
  set (s1 := set_chunks _ s). destruct (tryDownload_same s1) as [E _]. unfold filled. rewrite E. subst s1.
  cbn [sd_chunkInfoList set_chunks]. rewrite accept_lookup, Hc. cbn. repeat case_decide; by eexists.
Qed.

Lemma accept_fills i c s : chunks !! i = Some c -> filled (acceptChunkInfoMessage verify request c s) i.
Proof.
  intros Hc. destruct (chunks_ok i c Hc) as (E1 & E2 & E3). unfold acceptChunkInfoMessage.
  rewrite decide_False by (intros K; by apply K). rewrite E3. cbn [negb]. cbv zeta.
  set (s1 := set_chunks _ s). destruct (tryDownload_same s1) as [E _]. unfold filled. rewrite E. subst s1.
  cbn [sd_chunkInfoList set_chunks]. rewrite accept_lookup, decide_True by lia. by eexists.
Qed.

Lemma event_received evs ev s o s' : received evs s -> step ev s = Ret (o, s') -> received (evs ++ [ev]) s'.
Proof.
  intros [H1 H2] E.
  assert ((forall i, filled s i -> filled s' i) /\ (is_Some (sd_finishInfoHash s) -> is_Some (sd_finishInfoHash s'))) as [M1 M2].
  { assert (match ev with EvChunkInfo _ | EvFinishStream _ _ => False | _ => True end ->
      (forall i, filled s i -> filled s' i) /\ (is_Some (sd_finishInfoHash s) -> is_Some (sd_finishInfoHash s'))) as Hk.
    { intros K. pose proof (ensures_ret _ _ _ (job_keeps ev s K) E) as [K1 K2]. cbn in K1, K2.
      split; [intros i; unfold filled; by rewrite K1|by rewrite K2]. }
    destruct ev as [info|id hash| | | | |]; try (by apply Hk).
    - injection E as _ <-. split; [intros i; apply accept_filled|]. unfold acceptChunkInfoMessage, tryDownloadNextChunk.
      by repeat case_match.
    - cbn in E. unfold acceptFinishStreamTx in E. destruct (sd_finishInfoHash s) eqn:Eh; [injection E as _ <-; by rewrite Eh|].
      case_decide; [injection E as _ <-; by rewrite Eh|].
      case_match; [apply guard_assert_inv in E as [_ E]|]; by injection E as _ <-. }
  split.
  - intros i c Hc [K|<-%list_elem_of_singleton]%elem_of_app; [by eapply M1, H1|].
    injection E as _ <-. by apply accept_fills.
  - intros [K|<-%list_elem_of_singleton]%elem_of_app; [by apply M2, H2|].
    cbn in E. unfold acceptFinishStreamTx in E. destruct (sd_finishInfoHash s) eqn:Eh; [injection E as _ <-; by rewrite Eh|].
    rewrite decide_False in E by (intros K2; by apply K2).
    case_match; [apply guard_assert_inv in E as [_ E]|]; injection E as _ <-; by eexists.
Qed.

(** ** What is put to the vote *)

(** Only the background thread builds a tree, and only its hash is voted for. *)
Lemma other_votes ev s :
  match ev with EvBackground _ _ _ _ => False | _ => True end ->
  ensures (fun p => sd_sandboxRootHash p.2 = sd_sandboxRootHash s /\
                    forall h, MyRootHashIsCalculated h ∈ p.1 -> sd_sandboxRootHash s = Some h) (step ev s).
Proof.
  assert (forall h, MyRootHashIsCalculated h ∈ @nil StreamOutput -> sd_sandboxRootHash s = Some h) as Hnil.
  { intros h K. by apply not_elem_of_nil in K. }
  assert (forall h e i, MyRootHashIsCalculated h ∈ [GetChunkInfo e i] -> sd_sandboxRootHash s = Some h) as Hget.
  { intros h e i K. by apply list_elem_of_singleton in K. }
  assert (forall h x, MyRootHashIsCalculated h ∈ [StartChunkDownload x] -> sd_sandboxRootHash s = Some h) as Hst.
  { intros h x K. by apply list_elem_of_singleton in K. }
  assert (forall h x, MyRootHashIsCalculated h ∈ [StartFinishDownload x] -> sd_sandboxRootHash s = Some h) as Hsf.
  { intros h x K. by apply list_elem_of_singleton in K. }
  destruct ev as [info|id hash|endpoint|endpoint disk ok f| | |b1 b2]; intros K; try done; cbn [stream_step].
  - split; [|done]. unfold acceptChunkInfoMessage, tryDownloadNextChunk. by repeat case_match.
  - unfold acceptFinishStreamTx. repeat first [done|apply ensures_assert; intros _|case_match|split; [done|]; intros h; apply Hsf].
  - unfold runSessionJob. case_match; [done|]. cbv zeta. case_match.
    + unfold downloadNextChunk, startChunk, requestMissingChunkInfo, tryDownloadNextChunk. cbv zeta.
      repeat first [done|apply ensures_assert; intros _; cbv zeta|case_match|split; [done|]; intros h; apply Hget
                   |split; [done|]; intros h; apply Hst].
    + unfold requestFinishChunk, requestMissingChunkInfo.
      repeat first [done|apply ensures_assert; intros _; cbv zeta|case_match|split; [done|]; intros h; apply Hget].
    + unfold addPlaylist. cbn. destruct (sd_sandboxFsTree s); [|done]. destruct (sd_sandboxRootHash s) as [r|] eqn:E; [|done].
      split; [done|]. intros h Hh. cbn in Hh.
      apply elem_of_cons in Hh as [Hh|Hh]; [done|]. apply list_elem_of_singleton in Hh. case_match; [done|].
      by injection Hh as ->.
  - unfold chunkDownloaded, tryDownloadNextChunk. case_match; [|done]. apply ensures_assert. intros _. cbn. by case_match.
  - unfold finishDownloaded. case_match; [|done]. apply ensures_assert. by intros _.
  - unfold breakStream. cbn. repeat case_match; (split; [done|]); intros h; try (apply Hnil);
      intros Hh; by apply list_elem_of_singleton in Hh.
Qed.

Lemma check_votes endpoint disk s o s' :
  disk_fits disk -> sd_finishInfo s = file ->
  checkFinishCondition request true m_fsTree m_maxSize playlistHash fsTreeHash endpoint disk s = Ret (o, s') ->
  o = [] /\ (sd_sandboxRootHash s' = sd_sandboxRootHash s \/ exists h, sd_sandboxRootHash s' = Some h /\ stream_root h).
Proof.
  intros Hd Hf E. unfold checkFinishCondition in E. cbv zeta in E.
  do 3 (case_match; [injection E as <- <-; split; [done|by left]|]).
  apply bind_ret_inv in E as ([[b o1] s1] & Er & E). apply requestInfos_inv in Er as (-> & -> & -> & l & El).
  apply bind_ret_inv in E as (ok & Ek & E). destruct ok; [|injection E as <- <-; split; [done|by left]].
  apply bind_ret_inv in E as (s2 & Ec & E). injection E as <- <-. split; [done|right].
  destruct (complete_posts disk s s2 Hd Ec) as (h & _ & Eh & _).
  destruct (complete_spec request m_fsTree m_maxSize playlistHash fsTreeHash disk s s2 h tree_wf Ec Eh) as (t & _ & Et & Ht & _).
  exists (fsTreeHash t). split; [done|]. exists t. split; [done|]. by rewrite <- Hf.
Qed.

Lemma background_votes endpoint disk s o s' :
  disk_fits disk -> progress s ->
  runBackgroundJob request true m_fsTree m_maxSize playlistHash fsTreeHash endpoint disk true file s = Ret (o, s') ->
  o = [] /\ (sd_sandboxRootHash s' = sd_sandboxRootHash s \/ exists h, sd_sandboxRootHash s' = Some h /\ stream_root h).
Proof.
  intros Hd Hs E. unfold runBackgroundJob in E.
  destruct (sd_background s) as [|[] jobs] eqn:Eb; [injection E as <- <-; split; [done|by left]| |]; cbv zeta in E.
  - unfold parseFinishInfoFile, continueFinishStream in E. cbv zeta in E.
    do 2 (case_match; [injection E as <- <-; split; [done|by left]|]).
    match type of E with checkFinishCondition _ _ _ _ _ _ _ _ ?x = _ => exact (check_votes _ _ x _ _ Hd eq_refl E) end.
  - destruct (pg_file s Hs) as [Hf|[Hf _]].
    + unfold checkFinishCondition in E. cbn in E. rewrite Hf in E. injection E as <- <-. split; [done|by left].
    + match type of E with checkFinishCondition _ _ _ _ _ _ _ _ ?x = _ => exact (check_votes _ _ x _ _ Hd Hf E) end.
Qed.

Lemma step_votes ev out s o s' :
  honest_event ev -> progress s -> votes out s -> step ev s = Ret (o, s') -> votes (out ++ o) s'.
Proof.
  intros He Hs [V1 V2] E.
  assert (match ev with EvBackground _ _ _ _ => False | _ => True end -> votes (out ++ o) s') as Ho.
  { intros K. pose proof (ensures_ret _ _ _ (other_votes ev s K) E) as [K1 K2]. cbn in K1, K2.
    split; [by rewrite K1|]. intros h [Hh|Hh]%elem_of_app; auto. }
  destruct ev as [| | |endpoint disk ok f| | |]; try (by apply Ho). destruct He as (Hd & -> & ->). cbn [stream_step] in E.
  apply background_votes in E as [-> Hr]; [|done..]. rewrite app_nil_r. split; [|done].
  destruct Hr as [->|(h & -> & Hh)]; [done|]. by intros h' [= <-].
Qed.

Lemma run_invariant evs before out s out' s' :
  Forall honest_event evs -> invariant out s -> received before s -> votes out s -> run evs s = Ret (out', s') ->
  invariant (out ++ out') s' /\ received (before ++ evs) s' /\ votes (out ++ out') s'.
Proof.
  intros He. revert before out s out'. induction He as [|ev evs Hev _ IH]; intros before out s out' Hi Hr Hv E.
  - injection E as <- <-. by rewrite !app_nil_r.
  - cbn in E. apply bind_ret_inv in E as ([o1 s1] & E1 & E). apply bind_ret_inv in E as ([o2 s2] & E2 & E).
    injection E as <- <-. destruct (IH (before ++ [ev]) (out ++ o1) s1 o2) as (K1 & K2 & K3); [..|done|].
    + by eapply step_invariant.
    + by eapply event_received.
    + eapply step_votes; [done|apply Hi|done..].
    + rewrite <- !app_assoc in K1, K2, K3. by split_and!.
Qed.

Lemma new_invariant torrents nodes :
  (forall c, c ∈ chunks -> torrents !! ch_chunkInfoHash c = None) -> invariant [] (newStream torrents nodes).
Proof.
  intros Ht. split_and!; [split; cbn; try done|intros _ [c K]; discriminate K|].
  - lia.
  - intros j Hj. unfold next_index in Hj. cbn in Hj. lia.
  - intros j c Hc. rewrite Ht by (by eapply list_elem_of_lookup_2). split; [by intros []|]. unfold next_index. cbn. lia.
  - by left.
  - intros [|K]; [done|]. by apply not_elem_of_nil in K.
  - intros K. cbn in K. by destruct file_some.
Qed.

(** A stream is completed.  The streamer signs different chunks, and nothing else of
    this stream, and its finish file lists them; the folder of the stream can be
    made and the drive is not full.  Anybody may send any announcements, and all
    events come in any order.  When each announcement and the finish transaction
    came, and no job and no download is left, the tree with the stream has been put
    to the vote, and no other tree. *)
Lemma stream_completes torrents nodes evs out s :
  (forall c, c ∈ chunks -> torrents !! ch_chunkInfoHash c = None) -> Forall honest_event evs ->
  (forall c, c ∈ chunks -> EvChunkInfo c ∈ evs) -> EvFinishStream (sq_streamId request) finishHash ∈ evs ->
  run evs (newStream torrents nodes) = Ret (out, s) -> (forall ev, enabled ev s = false) ->
  (exists h, MyRootHashIsCalculated h ∈ out) /\ forall h, MyRootHashIsCalculated h ∈ out -> stream_root h.
Proof.
  intros Ht He Hall Hfin Hrun Hq.
  destruct (run_invariant evs [] [] (newStream torrents nodes) out s He) as ((Hs & Ha & Hc) & [Hr1 Hr2] & _ & Hv);
    [by apply new_invariant|by split; [intros i c _ K|intros K]; apply not_elem_of_nil in K
    |by split; [|intros h K; apply not_elem_of_nil in K]|done|].
  cbn [app] in *. split; [|exact Hv].
  pose proof (Hq (EvSession None)) as Q1. pose proof (Hq EvChunkDownloaded) as Q2. pose proof (Hq EvFinishDownloaded) as Q3.
  pose proof (Hq (EvBackground None (mkDisk (fun _ => None) (fun _ => None) (fun _ => (0, 0))) true [])) as Q4. cbn in Q1, Q2, Q3, Q4.
  destruct (sd_session s) eqn:Es; [|discriminate Q1]. destruct (sd_downloadingLtHandle s) eqn:Eh; [discriminate Q2|].
  destruct (sd_background s) eqn:Eb; [|discriminate Q4].
  assert (next_index s = n) as Hn.
  { destruct (decide (next_index s < n)%nat) as [Hlt|Hge].
    - destruct (lookup_lt_is_Some_2 chunks (next_index s) Hlt) as [c Hci].
      assert (TryDownloadNextChunk ∈ sd_session s) as K.
      { apply Ha; [done|]. apply (Hr1 _ c Hci), Hall. by eapply list_elem_of_lookup_2. }
      rewrite Es in K. by apply not_elem_of_nil in K.
    - destruct (decide (n < next_index s)%nat) as [Hgt|Hle]; [|lia].
      destruct (pg_started s Hs n Hgt) as [c K]. apply (pg_cells s Hs), lookup_lt_Some in K. lia. }
  destruct (Hr2 Hfin) as [h Hh].
  assert (sd_finishInfo s = file) as Hf.
  { destruct (pg_hash s Hs h Hh) as [K|[K|]]; [congruence| |done]. rewrite Eb in K. by apply not_elem_of_nil in K. }
  destruct (Hc Hf Hn Eh) as [K|[[h' K]|K]]; [| |done].
  - rewrite Eb in K. by apply not_elem_of_nil in K.
  - rewrite Es in K. by apply not_elem_of_nil in K.
Qed.

(** ** A stream that is finished in time *)

(** The finish transaction comes when the chunks are there. *)
Fixpoint orderly (evs : list StreamEvent) (s : StreamData) : Prop :=
  match evs with
  | [] => True
  | ev :: evs' =>
      match ev with
      | EvFinishStream id _ => id = sq_streamId request -> next_index s = n /\ sd_downloadingLtHandle s = None
      | _ => True
      end /\ forall o s1, step ev s = Ret (o, s1) -> orderly evs' s1
  end.

(** The posted download is the next job, and the iterator that it would use was kept
    while the list of the announced chunks became longer. *)
Definition uses_stale (ev : StreamEvent) (s : StreamData) : bool :=
  match ev, sd_session s, sd_downloadingLtHandle s, sd_downloadingIt s with
  | EvSession _, TryDownloadNextChunk :: _, None, Some _ => iteratorIsStale s
  | _, _, _, _ => false
  end.

Fixpoint iterator_valid (evs : list StreamEvent) (s : StreamData) : Prop :=
  match evs with
  | [] => True
  | ev :: evs' => uses_stale ev s = false /\ forall o s1, step ev s = Ret (o, s1) -> iterator_valid evs' s1
  end.

Lemma uses_stale_stops ev s : uses_stale ev s = true -> step ev s = Stop UndefinedBehaviour.
Proof.
  unfold uses_stale. destruct ev; try done. destruct (sd_session s) as [|[] jobs] eqn:Es; try done.
  destruct (sd_downloadingLtHandle s) eqn:Eh; [done|]. destruct (sd_downloadingIt s) as [i|] eqn:Ei; [|done].
  intros K. cbn [stream_step]. unfold runSessionJob. rewrite Es. cbv zeta. unfold downloadNextChunk.
  cbn [sd_downloadingLtHandle sd_downloadingIt set_jobs]. rewrite Eh, Ei.
  by change (iteratorIsStale (set_jobs jobs (sd_background s) s)) with (iteratorIsStale s); rewrite K.
Qed.

(** A run that returns never used such an iterator. *)
Lemma returned_valid evs : forall s out s', run evs s = Ret (out, s') -> iterator_valid evs s.
Proof.
  induction evs as [|ev evs IH]; intros s out s'; cbn; [done|]. intros E.
  apply bind_ret_inv in E as ([o1 s1] & E1 & E). apply bind_ret_inv in E as ([o2 s2] & E2 & _). split.
  - destruct (uses_stale ev s) eqn:K; [|done]. apply uses_stale_stops in K. by rewrite K in E1.
  - intros o s1'. rewrite E1. intros [= <- <-]. by eapply IH.
Qed.

(** The files that the tree names are on the disk. *)
Definition disk_has_files (disk : Disk) : Prop :=
  (forall h, is_Some (dk_driveFileSize disk h)) /\ (forall h, is_Some (dk_torrentFileSize disk h)).

Record ready (s : StreamData) : Prop := {
  rd_try : TryDownloadNextChunk ∈ sd_session s \/ is_Some (sd_downloadingLtHandle s) -> sd_chunkInfoList s <> [];
  rd_request : RequestFinishChunk ∉ sd_session s;
  rd_playlist h : AddPlaylist h ∈ sd_session s -> is_Some (sd_sandboxFsTree s) /\ is_Some (sd_sandboxRootHash s);
  rd_finish : is_Some (sd_finishInfoHash s) -> next_index s = n /\ sd_downloadingLtHandle s = None;
  rd_background : sd_background s = [] \/ sd_background s = [ParseFinishInfoFile] /\ sd_finishDownloading s = false;
  rd_tree : sd_finishInfoHash s = None \/ sd_finishDownloading s = true \/ sd_background s <> [] ->
            sd_sandboxFsTree s = None /\ linked m_fsTree (sd_nodes s);
  rd_valid h t : sd_torrentHandleMap s !! h = Some t -> m_ltHandle_valid t = true }.

Definition returns_ready (m : Outcome (list StreamOutput * StreamData)) : Prop :=
  exists o s', m = Ret (o, s') /\ ready s'.

Lemma sum_files_total size files acc : (forall h, is_Some (size h)) -> exists z, sum_files size files acc = Ret z.
Proof.
  intros Hs. revert acc. induction files as [|f files IH]; intros acc; cbn; [by eexists|].
  destruct (Hs f) as [z Hz]. unfold size_of. rewrite Hz. apply IH.
Qed.

Lemma complete_total disk s :
  disk_has_files disk -> sd_sandboxFsTree s = None -> linked m_fsTree (sd_nodes s) ->
  exists s', complete disk s = Ret s' /\ is_Some (sd_sandboxFsTree s') /\ is_Some (sd_sandboxRootHash s').
Proof.
  intros [Hd1 Hd2] Hs Hl. unfold completeStreamFinishing. apply linked_copyTree in Hl.
  change (copyTree m_fsTree (sd_nodes s)) with (m_fsTree, (copyTree m_fsTree (sd_nodes s)).2) in *. rewrite Hs. cbv zeta iota.
  destruct (addFolder_total (path_of_string (sq_folder request)) m_fsTree (copyTree m_fsTree (sd_nodes s)).2 tree_wf Hl)
    as (ok & t1 & st1 & E & _).
  unfold addFolder. rewrite E. cbn [mbind outcome_bind]. apply addFolder_path_inv in E as [Hwf1 Ha]; [|done].
  destruct ok; [|by destruct Ha as (_ & _ & ?)]. destruct Ha as ([f Hf] & _ & _).
  rewrite getFolderPtr_find by done. rewrite decide_True by (by exists f). rewrite (deref_some _ _ _ Hf). cbn [mbind outcome_bind].
  destruct (addChunkFiles _ f st1) as [fd1 st3]. destruct (emplaceFile _ _ _ _ st3) as [fd2 st4].
  set (t3 := update_at _ _ t1). destruct (dk_fsTreeSizes disk t3) as [ts fs].
  unfold getSandboxDriveSizes. destruct (sum_files_total (dk_torrentFileSize disk) (elements (getUniqueFiles t3 ∅)) ts Hd2) as [z1 ->].
  cbn [mbind outcome_bind]. destruct (sum_files_total (dk_driveFileSize disk) (elements (getUniqueFiles t3 ∅)) fs Hd1) as [z2 ->].
  cbn [mbind outcome_bind]. case_match; eexists; (split; [done|]); by split; eexists.
Qed.

(** Every chunk is there: the check completes the stream. *)
Lemma checkFinish_total endpoint disk s :
  disk_has_files disk -> progress s -> sd_finishInfo s = file -> next_index s = n ->
  sd_sandboxFsTree s = None -> linked m_fsTree (sd_nodes s) ->
  exists s', checkFinishCondition request true m_fsTree m_maxSize playlistHash fsTreeHash endpoint disk s = Ret ([], s') /\
    complete disk s = Ret s' /\ is_Some (sd_sandboxFsTree s') /\ is_Some (sd_sandboxRootHash s').
Proof.
  intros Hd Hs Hf Hn Ht Hl. destruct (complete_total disk s Hd Ht Hl) as (s' & Ec & H').
  exists s'. split; [|done]. unfold checkFinishCondition. cbv zeta.
  rewrite (all_cells s Hs Hn), Hf, length_map, file_length.
  destruct (Nat.eqb_spec n 0) as [K|_]; [by destruct chunks|]. rewrite !Nat.ltb_irrefl.
  rewrite requestInfos_some. cbn [mbind outcome_bind]. rewrite allChunks_true; [cbn [mbind outcome_bind]; by rewrite Ec|done|].
  apply Forall_lookup. intros i c Hc. apply (pg_torrents s Hs i c Hc). rewrite Hn. by apply lookup_lt_Some in Hc.
Qed.

Lemma requestMissing_ready endpoint i s : ready s -> returns_ready (requestMissingChunkInfo true true endpoint i s).
Proof.
  intros [R1 R2 R3 R4 R5 R6 R7]. unfold requestMissingChunkInfo. cbn [guard_assert]. cbv zeta.
  repeat case_match; do 2 eexists; (split; [done|by split]).
Qed.

Lemma startChunk_ready i info s :
  ready s -> sd_chunkInfoList s <> [] -> sd_finishInfoHash s = None -> sd_downloadingLtHandle s = None ->
  returns_ready (startChunk true i info s).
Proof.
  intros [R1 R2 R3 R4 R5 R6 R7] Hl Hf Eh. unfold startChunk, tryDownloadNextChunk. cbn.
  destruct (sd_torrentHandleMap s !! ch_chunkInfoHash info) as [t|] eqn:Et.
  - rewrite (R7 _ _ Et), Eh. cbn [guard_assert]. do 2 eexists. split; [done|]. split; cbn; try done.
    + intros [K|K]%elem_of_app; [done|]. by apply list_elem_of_singleton in K.
    + intros h [K|K]%elem_of_app; [by eapply R3|]. by apply list_elem_of_singleton in K.
    + rewrite Hf. by intros [].
  - do 2 eexists. split; [done|]. split; cbn; try done.
    + rewrite Hf. by intros [].
    + intros h t. destruct (decide (h = ch_chunkInfoHash info)) as [->|].
      * rewrite lookup_insert_eq. by intros [= <-].
      * rewrite lookup_insert_ne by done. apply R7.
Qed.

Lemma downloadNext_ready endpoint s :
  progress s -> ready s -> sd_chunkInfoList s <> [] ->
  (sd_downloadingLtHandle s = None -> is_Some (sd_downloadingIt s) -> iteratorIsStale s = false) ->
  returns_ready (downloadNextChunk true endpoint s).
Proof.
  intros Hs Hr Hl Hstale. unfold downloadNextChunk.
  assert (returns_ready (Ret ([], s))) as Hsame by (by do 2 eexists).
  destruct (sd_downloadingLtHandle s) eqn:Eh; [done|].
  assert (forall i c, next_index s = i -> sd_chunkInfoList s !! i = Some (Some c) -> sd_finishInfoHash s = None) as Hno.
  { intros i c Hi Hc. destruct (sd_finishInfoHash s) eqn:Ef; [|done].
    destruct (rd_finish s Hr) as [K _]; [by eexists|].
    apply (pg_cells s Hs), lookup_lt_Some in Hc. lia. }
  unfold next_index in Hno. destruct (sd_downloadingIt s) as [i|] eqn:Ei.
  - rewrite Hstale by (done || by eexists).
    destruct (sd_chunkInfoList s !! S i) as [[c|]|] eqn:El; [| |done].
    + apply startChunk_ready; try done. by eapply Hno.
    + destruct (pg_started s Hs i) as [d Hd]; [unfold next_index; rewrite Ei; lia|]. rewrite Hd. by apply requestMissing_ready.
  - destruct (sd_chunkInfoList s) as [|[c|] l] eqn:El; [done| |by apply requestMissing_ready].
    apply startChunk_ready; try done; [by rewrite El|]. by apply (Hno 0%nat c).
Qed.

Lemma accept_ready info s : ready s -> ready (acceptChunkInfoMessage verify request info s).
Proof.
  intros Hr. unfold acceptChunkInfoMessage. case_decide; [done|]. case_match; [done|]. cbv zeta.
  match goal with |- context [set_chunks ?l s] => set (l' := l) end.
  assert (l' <> []) as Hl.
  { subst l'. case_match; [|by destruct (sd_chunkInfoList s); [destruct (replicate _ _)|]].
    destruct (sd_chunkInfoList s); [done|]. by destruct (Z.to_nat _). }
  unfold tryDownloadNextChunk. cbn.
  destruct (sd_downloadingLtHandle s) eqn:Eh; destruct Hr as [R1 R2 R3 R4 R5 R6 R7]; split; cbn; try done.
  - intros [K|K]%elem_of_app; [done|]. by apply list_elem_of_singleton in K.
  - intros h [K|K]%elem_of_app; [by eapply R3|]. by apply list_elem_of_singleton in K.
Qed.

Lemma finishTx_ready id hash s :
  (id = sq_streamId request -> next_index s = n /\ sd_downloadingLtHandle s = None) ->
  progress s -> ready s -> returns_ready (acceptFinishStreamTx request true id hash s).
Proof.
  intros Ho Hs Hr. unfold acceptFinishStreamTx. assert (returns_ready (Ret ([], s))) as Hsame by (by do 2 eexists).
  destruct (sd_finishInfoHash s) eqn:Ef; [done|]. case_decide as Hid; [done|].
  destruct Ho as [Hn Hh]; [by destruct (decide (id = sq_streamId request))|].
  destruct Hr as [R1 R2 R3 R4 R5 R6 R7].
  assert (sd_background s = [] /\ sd_finishDownloading s = false) as [Eb Ed].
  { destruct (sd_finishDownloading s) eqn:Ed.
    - destruct (pg_due s Hs) as [h K]; [by left|]. by rewrite Ef in K.
    - split; [|done]. destruct R5 as [|[K _]]; [done|]. destruct (pg_due s Hs) as [h K2]; [right; rewrite K; by left|].
      by rewrite Ef in K2. }
  destruct (R6 ltac:(by left)) as [K1 K2]. destruct (sd_torrentHandleMap s !! hash) as [t|] eqn:Et.
  - rewrite (R7 _ _ Et). do 2 eexists. split; [done|]. split; cbn; try done. right. by rewrite Eb.
  - do 2 eexists. split; [done|]. split; cbn; try done; [by left|]. intros h t.
    destruct (decide (h = hash)) as [->|]; [rewrite lookup_insert_eq; by intros [= <-]|].
    rewrite lookup_insert_ne by done. apply R7.
Qed.

Lemma session_ready endpoint s :
  progress s -> ready s -> uses_stale (EvSession endpoint) s = false -> returns_ready (runSessionJob true endpoint s).
Proof.
  intros Hs Hr Hu. unfold uses_stale in Hu. unfold runSessionJob. destruct (sd_session s) as [|job jobs] eqn:Es; [by do 2 eexists|]. cbv zeta.
  set (s1 := set_jobs jobs (sd_background s) s).
  assert (progress s1) as Hs1 by (by apply (progress_frame s); [| |left|]).
  destruct Hr as [R1 R2 R3 R4 R5 R6 R7]. rewrite Es in *.
  assert (ready s1) as Hr1.
  { split; cbn; try done.
    - intros [K|K]; apply R1; [left; by apply elem_of_cons; right|by right].
    - intros K. apply R2. by apply elem_of_cons; right.
    - intros h K. apply (R3 h). by apply elem_of_cons; right. }
  destruct job.
  - apply downloadNext_ready; [done..| |]; [apply R1; left; by left|].
    intros K1 [i K2]. cbn in K1, K2. rewrite K1, K2 in Hu. exact Hu.
  - destruct R2. by left.
  - destruct (R3 hash) as [[t Ht] [r Hrt]]; [by left|]. unfold addPlaylist. cbn. rewrite Ht, Hrt.
    by do 2 eexists.
Qed.

Lemma background_ready endpoint disk s :
  disk_has_files disk -> disk_fits disk -> progress s -> ready s ->
  returns_ready (runBackgroundJob request true m_fsTree m_maxSize playlistHash fsTreeHash endpoint disk true file s).
Proof.
  intros Hd Hfit Hs Hr. unfold runBackgroundJob. destruct (sd_background s) as [|job jobs] eqn:Eb; [by do 2 eexists|].
  destruct Hr as [R1 R2 R3 R4 R5 R6 R7]. rewrite Eb in *. destruct R5 as [|[[= -> ->] Ed]]; [done|]. cbv zeta.
  destruct (R6 ltac:(by right; right)) as [Ht Hl]. destruct (pg_due s Hs) as [h Eh]; [right; rewrite Eb; by left|].
  destruct (R4 ltac:(by eexists)) as [Hn Hh].
  unfold parseFinishInfoFile, continueFinishStream. cbn [sd_finishStreamIt sd_finishInfo set_finishInfo]. rewrite file_length, drop_0.
  destruct (Nat.eqb_spec 0 n) as [K|_]; [by destruct chunks|].
  match goal with |- context [checkFinishCondition _ _ _ _ _ _ _ _ ?x] => set (s2 := x) end.
  assert (progress s2) as Hs2.
  { destruct Hs as [P1 P2 P3 P4 P6 P7 P8 P9]. split; cbn; try done.
    - right. split; [done|by eexists].
    - intros h' _. by (right; right). }
  replace (missingChunk 0 file _) with (@None nat); cycle 1.
  { symmetry. apply missing_none, (Forall_fmap fc_chunkInfoHash (fun h => is_Some (sd_torrentHandleMap s !! h))).
    replace (fc_chunkInfoHash <$> file) with (ch_chunkInfoHash <$> chunks) by (symmetry; exact file_lists).
    apply Forall_fmap, Forall_lookup. intros j c Hj. apply (pg_torrents s Hs j c Hj). rewrite Hn. by apply lookup_lt_Some in Hj. }
  destruct (checkFinish_total endpoint disk s2 Hd Hs2) as (s' & -> & Ec & S1 & S2); [done|done|exact Ht|exact Hl|].
  exists [], s'. split; [done|].
  destruct (complete_posts disk s2 s' Hfit Ec) as (h' & Hj & Es & Eb').
  pose proof (only_jobs_index _ _ Hj) as En. destruct Hj as [[E1 _] E3 E4 _ E6 E7 _]. cbn in *.
  split; rewrite ?Es, ?Eb', ?En, ?E1, ?E3, ?E4, ?E6, ?E7; try done.
  - intros [K|K]; apply R1; [|by right]. apply elem_of_app in K as [|K]; [by left|]. by apply list_elem_of_singleton in K.
  - intros [K|K]%elem_of_app; [done|]. by apply list_elem_of_singleton in K.
  - by left.
  - intros [K|[K|K]]; [|rewrite Ed in K|]; try done. by rewrite Eh in K.
Qed.

Lemma chunkDownloaded_ready s : progress s -> ready s -> returns_ready (chunkDownloaded s).
Proof.
  intros Hs Hr. unfold chunkDownloaded. destruct (sd_downloadingLtHandle s) eqn:Eh; [|by do 2 eexists].
  rewrite (pg_interrupted _ Hs). cbn.
  assert (sd_finishInfoHash s = None) as Ef.
  { destruct (sd_finishInfoHash s) eqn:Ef; [|done]. destruct (rd_finish s Hr) as [_ K]; [by eexists|]. by rewrite Eh in K. }
  assert (sd_chunkInfoList s <> []) as Hl by (apply (rd_try s Hr); right; by eexists).
  rewrite Ef. destruct Hr as [R1 R2 R3 R4 R5 R6 R7]. do 2 eexists. split; [done|]. split; cbn; try done.
  - intros [K|K]%elem_of_app; [done|]. by apply list_elem_of_singleton in K.
  - intros h [K|K]%elem_of_app; [by eapply R3|]. by apply list_elem_of_singleton in K.
  - rewrite Ef. by intros [].
Qed.

Lemma finishDownloaded_ready s : progress s -> ready s -> returns_ready (finishDownloaded s).
Proof.
  intros Hs Hr. unfold finishDownloaded. destruct (sd_finishDownloading s) eqn:Ed; [|by do 2 eexists].
  rewrite (pg_interrupted _ Hs). destruct Hr as [R1 R2 R3 R4 R5 R6 R7].
  assert (sd_background s = []) as Eb by (destruct R5 as [|[_ K]]; [done|by rewrite Ed in K]).
  do 2 eexists. split; [done|]. split; cbn; try done.
  - right. by rewrite Eb.
  - intros _. apply R6. by (right; left).
Qed.

(** C33: what can stop a stream that is finished in time.  The streamer signs different
    chunks that are not on the drive, and nothing else of this stream; its finish file
    lists them; the folder can be made and the drive is not full ([disk_fits]), with
    the files of the tree on the disk; the stream is neither cancelled nor closed, and
    its finish transaction comes after its chunks were downloaded ([orderly]).
    Whatever is announced then, and in whatever order the events come: every handler
    returns exactly when no posted download uses an iterator of the list of the chunks
    that an announcement has invalidated ([iterator_valid]).  Nothing else fails. *)
Theorem orderly_stream_returns torrents nodes evs :
  (forall c, c ∈ chunks -> torrents !! ch_chunkInfoHash c = None) ->
  (forall h t, torrents !! h = Some t -> m_ltHandle_valid t = true) -> linked m_fsTree nodes ->
  Forall honest_event evs ->
  Forall (fun ev => match ev with EvBackground _ disk _ _ => disk_has_files disk | _ => True end) evs ->
  orderly evs (newStream torrents nodes) ->
  (exists out s, run evs (newStream torrents nodes) = Ret (out, s)) <-> iterator_valid evs (newStream torrents nodes).
Proof.
  intros Ht Hv Hl He Hd Ho0. split; [intros (out & s & E); by eapply returned_valid|]. revert Ho0.
  pose proof (new_invariant torrents nodes Ht) as Hi.
  assert (ready (newStream torrents nodes)) as Hr.
  { split; cbn; try done.
    - intros [K|[h K]]; [by apply not_elem_of_nil in K|discriminate K].
    - apply not_elem_of_nil.
    - intros h K. by apply not_elem_of_nil in K.
    - by left. }
  revert Hi Hr. generalize (newStream torrents nodes) as s, (@nil StreamOutput) as out0.
  induction evs as [|ev evs IH]; intros s out0 Hi Hr Ho Hu; [by do 2 eexists|].
  apply Forall_cons in He as [Hev He]. apply Forall_cons in Hd as [Hdev Hd]. destruct Ho as [Ho1 Ho], Hu as [Hu1 Hu].
  pose proof Hi as [Hs _].
  assert (returns_ready (step ev s)) as (o & s1 & E & Hr1).
  { destruct ev as [info|id hash|endpoint|endpoint disk ok f| | |b1 b2]; cbn [stream_step honest_event] in *.
    - exists [], (acceptChunkInfoMessage verify request info s). split; [done|]. by apply accept_ready.
    - by apply finishTx_ready.
    - by apply session_ready.
    - destruct Hev as (Hf & -> & ->). by apply background_ready.
    - by apply chunkDownloaded_ready.
    - by apply finishDownloaded_ready.
    - done. }
  destruct (IH He Hd s1 (out0 ++ o)) as (out & s2 & E2); [by eapply step_invariant|done|by eapply Ho|by eapply Hu|].
  cbn. rewrite E. cbn [mbind outcome_bind]. rewrite E2. by do 2 eexists.
Qed.

End Honest.

(** ** A concrete stream *)

(** Only the two chunks are signed. *)
Definition strictVerify (key : Z) (data : Z * Z * Z * Z * Z) (sign : Z) : bool :=
  (sign =? key) && bool_decide (data = signedData (sampleChunk 0 10) \/ data = signedData (sampleChunk 1 20)).
Definition sampleChunks : list ChunkInfo := [sampleChunk 0 10; sampleChunk 1 20].
Definition sampleDrive : Folder := newFolder "/" 0.
Definition sampleNodes : StatStore := (new_folder_node empty_store).2.
Definition sampleHistory : list StreamEvent :=
  sampleEvents ++ [EvBackground None sampleDisk true sampleFile; EvSession None].
Notation strictRun evs :=
  (stream_run strictVerify sampleRequest true sampleDrive (two64 - 1) sampleTextHash sampleTreeHash evs (newStream ∅ sampleNodes)).
Notation honest := (honest_event sampleRequest (two64 - 1) 99 sampleFile).

Lemma sample_cells i c : sampleChunks !! i = Some c -> cell_ok strictVerify sampleRequest i c.
Proof. destruct i as [|[|i]]; intros E; [injection E as <-..|discriminate E]; split_and!; by vm_compute. Qed.

Lemma sample_signed info :
  ch_streamId info = sq_streamId sampleRequest -> Verify strictVerify (sq_streamerKey sampleRequest) info = true ->
  0 <= ch_chunkIndex info -> sampleChunks !! Z.to_nat (ch_chunkIndex info) = Some info.
Proof.
  unfold Verify, strictVerify. intros _ [Hs Hd]%andb_prop _. apply Z.eqb_eq in Hs. apply bool_decide_eq_true_1 in Hd.
  destruct info as [a b c d e f]. cbn in Hs. subst f. unfold signedData in Hd. cbn in Hd.
  destruct Hd as [Hd|Hd]; injection Hd as -> -> -> -> ->; reflexivity.
Qed.

Lemma sample_hashes : NoDup (99 :: map ch_chunkInfoHash sampleChunks).
Proof. apply (bool_decide_unpack (NoDup _)). by vm_compute. Qed.

Lemma sample_free : ~ blocked (path_of_string (sq_folder sampleRequest)) sampleDrive.
Proof. intros ([|x q] & f & _ & Hv); [discriminate Hv|]. unfold view in Hv. cbn in Hv. discriminate Hv. Qed.

Lemma sample_fits disk : disk_fits (two64 - 1) disk.
Proof. intros t meta drive _. pose proof (u64_range (u64_add meta drive + (dk_fsTreeSizes disk t).2)). unfold u64_add, is_u64 in *. lia. Qed.

Lemma sample_honest : Forall honest sampleHistory.
Proof.
  repeat apply Forall_cons_2; try apply Forall_nil_2; try exact I; cbn; try (unfold two32; lia); try done.
  split_and!; [apply sample_fits|done|done].
Qed.

Lemma stream_settles_witness : exists s', (length [EvSession None; EvSession None] + work s' <= work sampleState)%nat.
Proof.
  eexists. apply (stream_settles sampleVerify sampleRequest true sampleRoot 5000 sampleTextHash sampleTreeHash
            [EvBackground None sampleDisk true sampleFile; EvSession None] sampleState
            [PlaylistAdded (sampleTextHash (finishPlaylist sampleFile)); MyRootHashIsCalculated 1]).
  - split; [reflexivity|]. intros o s1 E. vm_compute in E. injection E as <- <-. split; [reflexivity|]. by intros.
  - vm_compute. reflexivity.
Defined.

Lemma orderly_stream_returns_witness : exists out s, strictRun sampleHistory = Ret (out, s).
Proof.
  apply (orderly_stream_returns strictVerify sampleRequest sampleDrive (two64 - 1) sampleTextHash sampleTreeHash
              sampleChunks 99 sampleFile sample_cells sample_signed ltac:(done) sample_hashes eq_refl sample_free
              (wf_newFolder _ _) ∅ sampleNodes sampleHistory); [done|done| |exact sample_honest| | |].
  - apply (linked_newFolder "/" empty_store bounded_empty).
  - repeat apply Forall_cons_2; try apply Forall_nil_2; try exact I. split; intros h; by eexists.
  - repeat (split; [done|]; intros ? ? E; vm_compute in E; injection E as <- <-). done.
  - repeat (split; [reflexivity|]; intros ? ? E; vm_compute in E; injection E as <- <-). exact I.
Defined.

(** The second chunk is announced while the first one is downloaded: the list becomes
    longer, and the iterator to its first element is used. *)
Example late_announcement_is_undefined :
  strictRun [EvChunkInfo (sampleChunk 0 10); EvSession None; EvChunkInfo (sampleChunk 1 20);
             EvChunkDownloaded; EvSession None] = Stop UndefinedBehaviour.
Proof. vm_compute. reflexivity. Qed.
