(* ===== verification/StreamSessions.v ===== *)
(** * The ends of a stream ([include/drive/StreamerSession.h], [src/drive/ViewerSession.cpp])

    The streamer follows the playlist that a recorder writes, signs every new chunk
    and announces it to the replicators.  A viewer asks the replicators for the
    announcements it does not have, downloads the chunks one by one and writes a
    playlist for its player; when the stream is finished it asks for the hash of the
    saved playlist and downloads what is missing.

    Hashes and sizes of media files, the file system and the clock enter as
    arguments; [std::stof] and the signature are parameters.  Messages are values: an
    archive whose start cannot be read changes nothing, one that ends among the
    announced chunks is a [Chunks] with fewer of them than its number. *)

From S2P Require Import Prelude RcptMessage ActionList Playlist Streaming.

(** ** The streamer *)

Record Streamer := mkStreamer {
  sr_streamId : option Z;
  sr_endPointList : gset Z;
  sr_chunkInfoMap : gmap Z ChunkInfo;
  sr_lastChunkIndex : Z;
  sr_totalChunkBytes : Z;
  sr_startSequenceNumber : Z;
  sr_lastSequenceNumber : Z }.

(** [m_totalChunkBytes] is not initialised; nothing reads it. *)
Definition newStreamer : Streamer := mkStreamer None ∅ ∅ 0 0 (-1) (-1).

Inductive StreamerOutput :=
  | AddTorrent (hash : Z)
  | SendChunkInfo (endpoints : gset Z) (info : ChunkInfo).

(** [initStream]. *)
Definition initStream (streamId : Z) (endPointList : list Z) (s : Streamer) : Outcome Streamer :=
  guard_assert (bool_decide (sr_streamId s = None))
    (guard_assert (negb (bool_decide (endPointList = [])))
       (Ret (mkStreamer (Some streamId) (list_to_set endPointList ∪ sr_endPointList s) ∅ (sr_lastChunkIndex s) 0
               (sr_startSequenceNumber s) (sr_lastSequenceNumber s)))).

Definition set_streamId v s := mkStreamer v (sr_endPointList s) (sr_chunkInfoMap s) (sr_lastChunkIndex s)
  (sr_totalChunkBytes s) (sr_startSequenceNumber s) (sr_lastSequenceNumber s).
Definition set_startSequence v s := mkStreamer (sr_streamId s) (sr_endPointList s) (sr_chunkInfoMap s) (sr_lastChunkIndex s)
  (sr_totalChunkBytes s) v (sr_lastSequenceNumber s).

(** [cancelStream]. *)
Definition cancelStream (s : Streamer) : Streamer := set_streamId None s.

(** What [addMediaToStream] finds: the file's size and hash, whether the chunk is
    already in its folder, and whether it can be copied there. *)
Record Media := mkMedia { md_size : option Z; md_hash : Z; md_exists : bool; md_copied : bool }.

Section Streamer.
  Context (sign : Z * Z * Z * Z * Z -> Z).

(** [addMediaToStream]. *)
Definition addMediaToStream (media : Media) (durationMs : Z) (s : Streamer) : Outcome (list StreamerOutput * Streamer) :=
  match md_size media with
  | None => Stop ThrownException
  | Some chunkSize =>
      if negb (md_exists media) && negb (md_copied media) then Ret ([], s)
      else
        match sr_streamId s with
        | None => Stop UndefinedBehaviour
        | Some id =>
            let i := sr_lastChunkIndex s in
            let info := mkChunkInfo id i (md_hash media) durationMs chunkSize 0 in
            let signed := mkChunkInfo id i (md_hash media) durationMs chunkSize (sign (signedData info)) in
            guard_assert (bool_decide (sr_chunkInfoMap s !! i = None))
              (Ret ((if md_exists media then [] else [AddTorrent (md_hash media)]) ++ [SendChunkInfo (sr_endPointList s) signed],
                    mkStreamer (Some id) (sr_endPointList s) (<[i := signed]> (sr_chunkInfoMap s)) (u32 (i + 1))
                      (if md_exists media then sr_totalChunkBytes s else u64_add (sr_totalChunkBytes s) chunkSize)
                      (sr_startSequenceNumber s) (sr_lastSequenceNumber s)))
        end
  end.

(** [addChunkToStream]; [media] is the new file with the chunk. *)
Definition addChunkToStream (media : Media) (durationMs : Z) (s : Streamer) : Outcome (list StreamerOutput * Streamer) :=
  match sr_streamId s with
  | None => log_err (Ret ([], s))
  | Some _ => addMediaToStream media durationMs s
  end.

Definition sendSingleChunkInfo (index endpoint : Z) (s : Streamer) : list StreamerOutput :=
  match sr_chunkInfoMap s !! index with
  | Some info => [SendChunkInfo {[ endpoint ]} info]
  | None => []
  end.

(** [on_dht_request] of ["get-chunk-info"]; [packet] is the index in it, [None] if it
    cannot be read. *)
Definition getChunkInfo (packet : option Z) (source : Z) (s : Streamer) : Outcome (list StreamerOutput) :=
  if decide (source ∈ sr_endPointList s) then
    match packet with
    | Some index => Ret (sendSingleChunkInfo index source s)
    | None => log_err (Ret [])
    end
  else Ret [].

(** [finishStream]: the list of the chunks and the size of those that are saved;
    [fileSize] and [torrentSize] are [None] on an error. *)
Fixpoint finishChunks (fuel : nat) (i timeMks startTimeSecods endTimeSecods streamSize : Z)
    (fileSize torrentSize : Z -> option Z) (m : gmap Z ChunkInfo) : Outcome (list FinishStreamChunkInfo * Z) :=
  match fuel with
  | O => Ret ([], streamSize)
  | S fuel' =>
      match m !! i with
      | None => Stop AssertFailure
      | Some c =>
          let time' := u64_add timeMks (ch_durationMks c) in
          let outside := (time' <? u64 (startTimeSecods * 1000000)) || (u64 (endTimeSecods * 1000000) <? timeMks) in
          let record := mkFinishChunk i (ch_chunkInfoHash c) (ch_durationMks c) (ch_sizeBytes c) (negb outside) in
          let size1 := if outside then streamSize else u64_add streamSize (default 0 (fileSize (ch_chunkInfoHash c))) in
          let size2 := if outside then size1 else u64_add size1 (default 0 (torrentSize (ch_chunkInfoHash c))) in
          '(rest, size) ← finishChunks fuel' (u32 (i + 1)) time' startTimeSecods endTimeSecods size2 fileSize torrentSize m;
          Ret (record :: rest, size)
      end
  end.

Definition finishStream (startTimeSecods endTimeSecods : Z) (fileSize torrentSize : Z -> option Z) (s : Streamer)
    : Outcome (list FinishStreamChunkInfo * Z * Streamer) :=
  match sr_streamId s with
  | None => Stop ThrownException
  | Some _ =>
      let m := sr_chunkInfoMap s in
      '(infos, size) ← finishChunks (size m) 0 0 startTimeSecods endTimeSecods 0 fileSize torrentSize m;
      Ret (infos, size, set_streamId None s)
  end.

(** ** The playlist of the recorder *)

Inductive ParseError :=
  | NoHeader | InvalidFormat | InvalidVersion | InvalidSequence | InvalidDuration.

(** [stof] gives the duration in microseconds, as it is converted to [uint32_t];
    [media] is what stands under a name in the media folder. *)
Context (stof : string -> option Z) (media : string -> Media).

Definition newSequence (sequenceNumber : Z) (s : Streamer) : Streamer :=
  if (sr_startSequenceNumber s =? -1) || (sequenceNumber <? sr_lastSequenceNumber s)
  then set_startSequence sequenceNumber s else s.

(** The loop of [parseM3u8Playlist]. *)
Fixpoint parseLines (lines : list string) (sequenceNumber mediaIndex : Z) (s : Streamer)
    : Outcome (option ParseError * list StreamerOutput * Streamer) :=
  match lines with
  | [] => Ret (None, [], s)
  | line :: lines' =>
      match after "#EXT-X-VERSION:" line with
      | Some version =>
          match stoi version with
          | None => Ret (Some InvalidFormat, [], s)
          | Some v => if (v =? 3) || (v =? 4) then parseLines lines' sequenceNumber mediaIndex s
                      else Ret (Some InvalidVersion, [], s)
          end
      | None =>
          match after "#EXT-X-TARGETDURATION:" line with
          | Some _ => parseLines lines' sequenceNumber mediaIndex s
          | None =>
              match after "#EXT-X-MEDIA-SEQUENCE:" line with
              | Some sequence =>
                  match stoi sequence with
                  | None => Ret (Some InvalidSequence, [], s)
                  | Some number => parseLines lines' number mediaIndex (newSequence number s)
                  end
              | None =>
                  match after "#EXTINF:" line with
                  | None => parseLines lines' sequenceNumber mediaIndex s
                  | Some text =>
                      match stof text with
                      | None => Ret (Some InvalidDuration, [], s)
                      | Some duration =>
                          match lines' with
                          | [] => Ret (None, [], s)
                          | name :: lines'' =>
                              let s1 := if sr_startSequenceNumber s <? 0 then set_startSequence sequenceNumber s else s in
                              let chunkIndex := u32 (sequenceNumber - sr_startSequenceNumber s1 + mediaIndex) in
                              '(out1, s2) ← (match sr_chunkInfoMap s1 !! chunkIndex with
                                             | None => addMediaToStream (media name) duration s1
                                             | Some _ => Ret ([], s1)
                                             end);
                              '(e, out2, s3) ← parseLines lines'' sequenceNumber (mediaIndex + 1) s2;
                              Ret (e, out1 ++ out2, s3)
                          end
                      end
                  end
              end
          end
      end
  end.

Definition parseM3u8Playlist (text : string) (s : Streamer) : Outcome (option ParseError * list StreamerOutput * Streamer) :=
  match getlines text with
  | [] => Ret (Some NoHeader, [], s)
  | line :: lines =>
      match after "#EXTM3U" line with
      | None => Ret (Some NoHeader, [], s)
      | Some _ => parseLines lines (-1) 0 s
      end
  end.

(** [onTick]: the result of the parser is dropped. *)
Definition onTick (text : string) (s : Streamer) : Outcome (list StreamerOutput * Streamer) :=
  match sr_streamId s with
  | None => Ret ([], s)
  | Some _ => '(_, out, s1) ← parseM3u8Playlist text s; Ret (out, s1)
  end.

End Streamer.

(** ** The viewer *)

Record ViewerChunkInfo := mkViewerChunk { vc_info : ChunkInfo; vc_offsetMs : Z; vc_isDownloaded : bool }.

(** What the torrent handle downloads. *)
Inductive Loading := LoadChunk | LoadPlaylist | LoadFinished.

#[export] Instance loading_eq_dec : EqDecision Loading.
Proof. solve_decision. Defined.

Record Viewer := mkViewer {
  vw_liveStreamId : option Z;
  vw_streamerKey : Z;
  vw_replicatorSet : gset Z;
  vw_chunkInfoList : list ViewerChunkInfo;
  vw_downloading : option Loading;
  vw_tobeDownloaded : nat;
  vw_playlistInfoHashMap : gmap Z Z;          (* by the endpoint that answered *)
  vw_playlistInfoHashReceived : bool;
  vw_downloadStreamPlaylist : option Z;
  vw_downloadStreamChunks : list Z;
  vw_downloadStreamChunkIndex : Z;
  vw_startPlayer : bool }.                    (* m_startPlayerMethod is set *)

Definition newViewer : Viewer := mkViewer None 0 ∅ [] None 0 ∅ false None [] 0 false.

Definition set_live v w := mkViewer v (vw_streamerKey w) (vw_replicatorSet w) (vw_chunkInfoList w) (vw_downloading w)
  (vw_tobeDownloaded w) (vw_playlistInfoHashMap w) (vw_playlistInfoHashReceived w) (vw_downloadStreamPlaylist w)
  (vw_downloadStreamChunks w) (vw_downloadStreamChunkIndex w) (vw_startPlayer w).
Definition set_list v w := mkViewer (vw_liveStreamId w) (vw_streamerKey w) (vw_replicatorSet w) v (vw_downloading w)
  (vw_tobeDownloaded w) (vw_playlistInfoHashMap w) (vw_playlistInfoHashReceived w) (vw_downloadStreamPlaylist w)
  (vw_downloadStreamChunks w) (vw_downloadStreamChunkIndex w) (vw_startPlayer w).
Definition set_loading v w := mkViewer (vw_liveStreamId w) (vw_streamerKey w) (vw_replicatorSet w) (vw_chunkInfoList w) v
  (vw_tobeDownloaded w) (vw_playlistInfoHashMap w) (vw_playlistInfoHashReceived w) (vw_downloadStreamPlaylist w)
  (vw_downloadStreamChunks w) (vw_downloadStreamChunkIndex w) (vw_startPlayer w).
Definition set_tobe v w := mkViewer (vw_liveStreamId w) (vw_streamerKey w) (vw_replicatorSet w) (vw_chunkInfoList w)
  (vw_downloading w) v (vw_playlistInfoHashMap w) (vw_playlistInfoHashReceived w) (vw_downloadStreamPlaylist w)
  (vw_downloadStreamChunks w) (vw_downloadStreamChunkIndex w) (vw_startPlayer w).
Definition set_votes v received w := mkViewer (vw_liveStreamId w) (vw_streamerKey w) (vw_replicatorSet w) (vw_chunkInfoList w)
  (vw_downloading w) (vw_tobeDownloaded w) v received (vw_downloadStreamPlaylist w)
  (vw_downloadStreamChunks w) (vw_downloadStreamChunkIndex w) (vw_startPlayer w).
Definition set_playlistHash v w := mkViewer (vw_liveStreamId w) (vw_streamerKey w) (vw_replicatorSet w) (vw_chunkInfoList w)
  (vw_downloading w) (vw_tobeDownloaded w) (vw_playlistInfoHashMap w) (vw_playlistInfoHashReceived w) v
  (vw_downloadStreamChunks w) (vw_downloadStreamChunkIndex w) (vw_startPlayer w).
Definition set_finished chunks i w := mkViewer (vw_liveStreamId w) (vw_streamerKey w) (vw_replicatorSet w) (vw_chunkInfoList w)
  (vw_downloading w) (vw_tobeDownloaded w) (vw_playlistInfoHashMap w) (vw_playlistInfoHashReceived w)
  (vw_downloadStreamPlaylist w) chunks i (vw_startPlayer w).
Definition set_player v w := mkViewer (vw_liveStreamId w) (vw_streamerKey w) (vw_replicatorSet w) (vw_chunkInfoList w)
  (vw_downloading w) (vw_tobeDownloaded w) (vw_playlistInfoHashMap w) (vw_playlistInfoHashReceived w)
  (vw_downloadStreamPlaylist w) (vw_downloadStreamChunks w) (vw_downloadStreamChunkIndex w) v.

Inductive ViewerOutput :=
  | GetChunksInfo (streamId chunkIndex : Z)     (* to every replicator whose endpoint is known *)
  | GetPlaylistHash (streamId : Z)
  | DownloadChunk (hash : Z)                    (* of the live stream *)
  | DownloadSavedChunk (hash : Z)               (* of the finished stream *)
  | DownloadPlaylist (hash : Z)
  | WritePlaylist (text : string)
  | Progress (chunkIndex chunkNumber : Z) (failed : bool)
  | StartPlayer.

(** [startWatchingLiveStream]. *)
Definition startWatchingLiveStream (streamId streamerKey : Z) (replicators : list Z) (w : Viewer) : Outcome Viewer :=
  guard_assert (bool_decide (vw_liveStreamId w = None))
    (Ret (mkViewer (Some streamId) streamerKey (list_to_set replicators ∪ vw_replicatorSet w) (vw_chunkInfoList w)
            (vw_downloading w) (vw_tobeDownloaded w) (vw_playlistInfoHashMap w) (vw_playlistInfoHashReceived w)
            (vw_downloadStreamPlaylist w) (vw_downloadStreamChunks w) (vw_downloadStreamChunkIndex w) true)).

(** [endWatching]. *)
Definition endWatching (w : Viewer) : Viewer := set_live None w.

(** [on_tick] and [requestChunkInfo]; [m_liveStreamFinished] is never set. *)
Definition on_tick (w : Viewer) : list ViewerOutput :=
  match vw_liveStreamId w with
  | None => []
  | Some id => [GetChunksInfo id (u32 (Z.of_nat (length (vw_chunkInfoList w))))]
  end.

(** [startPlayer]. *)
Definition startPlayer (w : Viewer) : list ViewerOutput * Viewer :=
  if vw_startPlayer w then ([StartPlayer], set_player false w) else ([], w).

(** The loop of [updatePlaylist] that goes back over the chunks: the first one and
    their number. *)
Fixpoint playlistWindow (fuel first total : nat) (l : list ViewerChunkInfo) : nat * nat :=
  match fuel with
  | O => (first, total)
  | S fuel' =>
      match first with
      | O => (first, total)
      | S first' =>
          match l !! first' with
          | Some c => if vc_isDownloaded c then playlistWindow fuel' first' (S total) l else (first', total)
          | None => (first', total)
          end
      end
  end.

(** The text: the fraction of a duration is taken from another chunk. *)
Definition viewerPlaylist (first total : nat) (l : list ViewerChunkInfo) : string :=
  let infos := vc_info <$> l in
  let shown := take total (drop first infos) in
  printPlaylist (targetDuration (map ch_durationMks shown)) (Z.of_nat first)
    (zip_with (fun c c' => mkEntry (ch_durationMks c / 1000000) (ch_durationMks c' mod 1000000) (ch_chunkInfoHash c))
       shown (take total infos)).

(** [updatePlaylist], with [maxChunkNumber] 7. *)
Definition updatePlaylist (lastChunkIndex : nat) (w : Viewer) : list ViewerOutput * Viewer :=
  let '(first, total) := playlistWindow 7 lastChunkIndex 1 (vw_chunkInfoList w) in
  let '(out, w1) := startPlayer w in
  (WritePlaylist (viewerPlaylist first total (vw_chunkInfoList w)) :: out, w1).

Section Viewer.
  Context (verify : Z -> Z * Z * Z * Z * Z -> Z -> bool).

(** [addChunkInfo]. *)
Definition addChunkInfo (info : ChunkInfo) (w : Viewer) : bool * Viewer :=
  let newIndex := u32 (Z.of_nat (length (vw_chunkInfoList w))) in
  if negb (newIndex =? ch_chunkIndex info) then (ch_chunkIndex info <? newIndex, w)
  else if negb (Verify verify (vw_streamerKey w) info) then (false, w)
  else
    let offsetMs := match last (vw_chunkInfoList w) with
                    | None => 0
                    | Some c => u32 (vc_offsetMs c + ch_durationMks (vc_info c))
                    end in
    (true, set_list (vw_chunkInfoList w ++ [mkViewerChunk info offsetMs false]) w).

Fixpoint addChunkInfos (infos : list ChunkInfo) (w : Viewer) : bool * Viewer :=
  match infos with
  | [] => (true, w)
  | info :: infos' =>
      let '(ok, w1) := addChunkInfo info w in
      if ok then addChunkInfos infos' w1 else (false, w1)
  end.

(** [downloadPlaylist]: the optional values are dereferenced. *)
Definition downloadPlaylist (w : Viewer) : Outcome (list ViewerOutput * Viewer) :=
  match vw_downloadStreamPlaylist w, vw_liveStreamId w with
  | Some hash, Some _ => Ret ([DownloadPlaylist hash], set_loading (Some LoadPlaylist) w)
  | _, _ => Stop UndefinedBehaviour
  end.

(** [tryLoadNextChunk]. *)
Definition tryLoadNextChunk (w : Viewer) : Outcome (list ViewerOutput * Viewer) :=
  '(out1, w1) ← (match vw_downloading w, vw_downloadStreamPlaylist w with
                 | None, Some _ => downloadPlaylist w
                 | _, _ => Ret ([], w)
                 end);
  match vw_downloading w1, vw_chunkInfoList w1 !! vw_tobeDownloaded w1 with
  | None, Some c =>
      guard_assert (Z.of_nat (vw_tobeDownloaded w1) =? ch_chunkIndex (vc_info c))
        (match vw_liveStreamId w1 with
         | None => Stop UndefinedBehaviour
         | Some _ =>
             Ret (out1 ++ [DownloadChunk (ch_chunkInfoHash (vc_info c))],
                  set_loading (Some LoadChunk) (set_tobe (S (vw_tobeDownloaded w1)) w1))
         end)
  | _, _ => Ret (out1, w1)
  end.

(** A chunk of the live stream is downloaded. *)
Definition liveChunkDownloaded (w : Viewer) : Outcome (list ViewerOutput * Viewer) :=
  match vw_tobeDownloaded w with
  | O => Stop UndefinedBehaviour
  | S i =>
      match vw_chunkInfoList w !! i with
      | None => Stop UndefinedBehaviour
      | Some c =>
          let w1 := set_list (<[i := mkViewerChunk (vc_info c) (vc_offsetMs c) true]> (vw_chunkInfoList w)) w in
          let '(out1, w2) := updatePlaylist i w1 in
          '(out2, w3) ← tryLoadNextChunk (set_loading None w2);
          Ret (out1 ++ [Progress (Z.of_nat i) (Z.of_nat (S i)) false] ++ out2, w3)
      end
  end.

(** Its download failed: the handle stays. *)
Definition liveChunkFailed (w : Viewer) : list ViewerOutput :=
  [Progress (Z.of_nat (vw_tobeDownloaded w) - 1) (Z.of_nat (vw_tobeDownloaded w)) true].

(** [handleDhtResponse] of ["get-chunks-info"].  An archive that ends before the number
    of chunks that it announces throws after the chunks in it were added. *)
Definition onChunksReply (reply : ChunksReply) (w : Viewer) : Outcome (list ViewerOutput * Viewer) :=
  match reply with
  | NoChunksReply | StreamIsNotStarted => Ret ([], w)
  | StreamIsEnded =>
      if vw_playlistInfoHashReceived w then Ret ([], w)
      else match vw_liveStreamId w with
           | None => Stop UndefinedBehaviour
           | Some id => Ret ([GetPlaylistHash id], w)
           end
  | Chunks _ chunkNumber infos =>
      let '(ok, w1) := addChunkInfos (take (Z.to_nat chunkNumber) infos) w in
      if ok && (chunkNumber <=? Z.of_nat (length infos)) then tryLoadNextChunk w1 else Ret ([], w1)
  end.

End Viewer.

(** ** The finished stream *)

(** [voteNumber >= (m_replicatorSet.size()*2)/3 + 1] of the counter before it is
    increased; the answers are visited in the order of their endpoints. *)
Fixpoint countVotes (threshold : nat) (votes : list Z) (counters : gmap Z nat) : option Z :=
  match votes with
  | [] => None
  | hash :: votes' =>
      let voteNumber := default 0%nat (counters !! hash) in
      if (threshold <=? voteNumber)%nat then Some hash
      else countVotes threshold votes' (<[hash := S voteNumber]> counters)
  end.

Definition votesNeeded (w : Viewer) : nat := ((size (vw_replicatorSet w) * 2) / 3 + 1)%nat.

(** [startDownloadFinishedStream]; the posted part is [true] in the result. *)
Definition onPlaylistHash (endpoint streamId hash : Z) (w : Viewer) : Outcome (bool * Viewer) :=
  if vw_playlistInfoHashReceived w then Ret (false, w)
  else
    match vw_liveStreamId w with
    | None => Stop AssertFailure
    | Some id =>
        if decide (streamId <> id) then Ret (false, w)
        else
          let votes := <[endpoint := hash]> (vw_playlistInfoHashMap w) in
          let w1 := set_votes votes false w in
          if (votesNeeded w <? size votes)%nat then
            match countVotes (votesNeeded w) (sorted_values votes) ∅ with
            | Some winner => Ret (true, set_playlistHash (Some winner) (set_votes votes true w))
            | None => Ret (false, w1)
            end
          else Ret (false, w1)
    end.

(** The posted part. *)
Definition startFinishedStream (w : Viewer) : Outcome (list ViewerOutput * Viewer) :=
  match vw_downloading w with
  | Some _ => Ret ([], w)
  | None => downloadPlaylist w
  end.

(** A chunk of the live stream that was downloaded. *)
Definition alreadyDownloaded (hash : Z) (w : Viewer) : bool :=
  match list_find (fun c => ch_chunkInfoHash (vc_info c) = hash) (vw_chunkInfoList w) with
  | Some (_, c) => vc_isDownloaded c
  | None => false
  end.

(** [continueDownloadChunks]; [todo] are the chunks from the iterator on. *)
Fixpoint continueDownloadChunks (i : Z) (todo : list Z) (w : Viewer) : Outcome (list ViewerOutput * Viewer) :=
  match todo with
  | [] => Ret ([Progress i (Z.of_nat (length (vw_downloadStreamChunks w))) false], set_finished (vw_downloadStreamChunks w) i w)
  | hash :: todo' =>
      if alreadyDownloaded hash w then continueDownloadChunks (i + 1) todo' w
      else
        match vw_liveStreamId w with
        | None => Stop UndefinedBehaviour
        | Some _ => Ret ([DownloadSavedChunk hash], set_loading (Some LoadFinished) (set_finished (vw_downloadStreamChunks w) i w))
        end
  end.

(** The playlist is downloaded, and read. *)
Definition playlistDownloaded (text : string) (w : Viewer) : Outcome (list ViewerOutput * Viewer) :=
  let w1 := set_playlistHash None (set_loading None w) in
  '(complete, chunks) ← downloadChunks text;
  if complete : bool then continueDownloadChunks 0 chunks (set_finished chunks (-1) w1)
  else Ret ([], set_finished chunks (vw_downloadStreamChunkIndex w) w1).

(** A chunk of it is downloaded. *)
Definition finishedChunkDownloaded (w : Viewer) : Outcome (list ViewerOutput * Viewer) :=
  let i := vw_downloadStreamChunkIndex w in
  let '(out1, w1) := startPlayer (set_loading None w) in
  '(out2, w2) ← continueDownloadChunks (i + 1) (drop (Z.to_nat (i + 1)) (vw_downloadStreamChunks w)) w1;
  Ret (Progress i (Z.of_nat (length (vw_downloadStreamChunks w))) false :: out1 ++ out2, w2).
