(* ===== verification/StreamSessionsSpec.v ===== *)
(** * What the ends of a stream do

    [stream_end_to_end]: the chunks that a streamer adds are those that its finish
    file lists, that the replicators put to the vote and that a viewer reads from the
    saved playlist.  [viewer_in_order]: a viewer has a prefix of the streamer's
    chunks, whoever answers it, and [viewer_catches_up] with a replicator that has
    them all.  [playlist_by_majority] and [finished_stream_downloads]: the finished
    stream. *)

From S2P Require Import Prelude RcptMessage OrderedMap FsPath FsStatistics FsTree FsTreeFacts FsTreeSpec FsTreeLinks ModifyOpinion ModifyApproval ActionList ModifyDrive Playlist Streaming StreamingSpec StreamingProgress StreamSessions.

(** ** The streamer *)

Section StreamerSpec.
  Context (sign : Z * Z * Z * Z * Z -> Z) (stof : string -> option Z).

(** What a streamer is asked to do while it streams. *)
Inductive StreamerEvent :=
  | SvAddMedia (media : Media) (durationMs : Z)
  | SvTick (media : string -> Media) (text : string)
  | SvAddChunk (media : Media) (durationMs : Z)
  | SvGetChunkInfo (packet : option Z) (source : Z).

Definition streamer_step (ev : StreamerEvent) (s : Streamer) : Outcome (list StreamerOutput * Streamer) :=
  match ev with
  | SvAddMedia media durationMs => addMediaToStream sign media durationMs s
  | SvTick media text => onTick sign stof media text s
  | SvAddChunk media durationMs => addChunkToStream sign media durationMs s
  | SvGetChunkInfo packet source => out ← getChunkInfo packet source s; Ret (out, s)
  end.

Fixpoint streamer_run (evs : list StreamerEvent) (s : Streamer) : Outcome (list StreamerOutput * Streamer) :=
  match evs with
  | [] => Ret ([], s)
  | ev :: evs' =>
      '(out1, s1) ← streamer_step ev s;
      '(out2, s2) ← streamer_run evs' s1;
      Ret (out1 ++ out2, s2)
  end.

(** The chunks of the stream. *)
Definition chunkCount (s : Streamer) : nat := size (sr_chunkInfoMap s).
Definition streamChunks (s : Streamer) : list ChunkInfo :=
  omap (fun i => sr_chunkInfoMap s !! Z.of_nat i) (seq 0 (chunkCount s)).

Definition chunk_signed (id i : Z) (c : ChunkInfo) : Prop :=
  ch_streamId c = id /\ ch_chunkIndex c = i /\ ch_sign c = sign (signedData c).

Record streaming (id : Z) (s : Streamer) : Prop := {
  sg_id : sr_streamId s = Some id;
  sg_last : sr_lastChunkIndex s = Z.of_nat (chunkCount s);
  sg_chunks i : match sr_chunkInfoMap s !! i with
                | Some c => 0 <= i < Z.of_nat (chunkCount s) /\ chunk_signed id i c
                | None => ~ 0 <= i < Z.of_nat (chunkCount s)
                end }.

(** It can be counted with 32 bits. *)
Definition small (s : Streamer) : Prop := Z.of_nat (chunkCount s) < two32.

(** A step keeps the chunks that were there, and sends chunks of the stream. *)
Record extends (id : Z) (out : list StreamerOutput) (s s' : Streamer) : Prop := {
  ex_streaming : small s' -> streaming id s';
  ex_count : (chunkCount s <= chunkCount s')%nat;
  ex_endpoints : sr_endPointList s' = sr_endPointList s;
  ex_keeps i c : small s' -> sr_chunkInfoMap s !! i = Some c -> sr_chunkInfoMap s' !! i = Some c;
  ex_sent i c : small s' -> sr_chunkInfoMap s' !! i = Some c -> sr_chunkInfoMap s !! i = None ->
                SendChunkInfo (sr_endPointList s) c ∈ out;
  ex_out eps c : small s' -> SendChunkInfo eps c ∈ out -> exists i, sr_chunkInfoMap s' !! i = Some c }.

Lemma extends_same id out s :
  streaming id s -> (forall eps c, SendChunkInfo eps c ∈ out -> exists i, sr_chunkInfoMap s !! i = Some c) -> extends id out s s.
Proof. intros Hs Ho. split; try done. - intros i c _ K1 K2. congruence. - intros eps c _. apply Ho. Qed.

Lemma extends_trans id o1 o2 s1 s2 s3 :
  extends id o1 s1 s2 -> extends id o2 s2 s3 -> extends id (o1 ++ o2) s1 s3.
Proof.
  intros [A1 A2 A3 A4 A5 A6] [B1 B2 B3 B4 B5 B6].
  assert (small s3 -> small s2) as Hs by (unfold small; lia).
  split; try done; [lia|congruence| | |].
  - intros i c K1 K2. apply B4, A4; auto.
  - intros i c K1 K2 K3. apply elem_of_app. destruct (sr_chunkInfoMap s2 !! i) as [d|] eqn:E.
    + left. apply (A5 i); [auto| |done]. pose proof (B4 i d K1 E). congruence.
    + right. rewrite <- A3. by apply (B5 i).
  - intros eps c K1 [K2|K2]%elem_of_app; [|by eapply B6].
    destruct (A6 eps c (Hs K1) K2) as [i Hi]. exists i. by apply B4.
Qed.

Lemma addMedia_extends id media d s :
  streaming id s -> small s -> ensures (fun p => extends id p.1 s p.2) (addMediaToStream sign media d s).
Proof.
  intros Hs Hsm. unfold addMediaToStream. destruct (md_size media) as [sz|]; [|done].
  destruct (negb (md_exists media) && negb (md_copied media)).
  { apply extends_same; [done|]. intros eps c K. by apply not_elem_of_nil in K. }
  rewrite (sg_id _ _ Hs). cbv zeta. set (c := mkChunkInfo id (sr_lastChunkIndex s) _ _ _ (sign _)).
  apply ensures_assert. intros Hn%bool_decide_eq_true_1. cbn [ensures fst snd].
  set (s' := mkStreamer _ _ _ _ _ _ _).
  assert (chunkCount s' = S (chunkCount s)) as Hc by (unfold chunkCount; cbn; by rewrite map_size_insert_None).
  pose proof (sg_last _ _ Hs) as El. split; try done.
  - intros Hsm'. unfold small in Hsm'. rewrite Hc in Hsm'. split; [done| |].
    + cbn [sr_lastChunkIndex s']. rewrite El, Hc. unfold u32. rewrite Z.mod_small by lia. lia.
    + intros i. cbn [sr_chunkInfoMap s']. rewrite Hc. destruct (decide (i = sr_lastChunkIndex s)) as [->|Hne].
      * rewrite lookup_insert_eq. split; [lia|]. by split_and!.
      * rewrite lookup_insert_ne by done. pose proof (sg_chunks _ _ Hs i) as K.
        destruct (sr_chunkInfoMap s !! i); [destruct K; split; [lia|done]|lia].
  - lia.
  - intros i c' _ K. cbn [sr_chunkInfoMap s']. rewrite lookup_insert_ne; [done|]. intros <-. congruence.
  - intros i c' _ K1 K2. cbn [sr_chunkInfoMap s'] in K1. destruct (decide (i = sr_lastChunkIndex s)) as [->|Hne].
    + rewrite lookup_insert_eq in K1. injection K1 as <-. apply elem_of_app. right. by left.
    + rewrite lookup_insert_ne in K1 by done. congruence.
  - intros eps c' _ K. exists (sr_lastChunkIndex s). cbn [sr_chunkInfoMap s']. rewrite lookup_insert_eq.
    apply elem_of_app in K as [K|K]; [destruct (md_exists media); [by apply not_elem_of_nil in K|by apply list_elem_of_singleton in K]|].
    apply list_elem_of_singleton in K. by injection K as _ ->.
Qed.

Lemma extends_sequence id v s : streaming id s -> extends id [] s (set_startSequence v s).
Proof.
  intros [H1 H2 H3]. split; try done; [by intros i c _ K1 K2; cbn in K1; congruence|].
  intros eps c _ K. by apply not_elem_of_nil in K.
Qed.

Lemma extends_small id out s s' : extends id out s s' -> small s' -> small s.
Proof. intros H. pose proof (ex_count _ _ _ _ H). unfold small. lia. Qed.

(** The bound is on the result, and so holds before. *)
Definition grows (id : Z) (s : Streamer) (out : list StreamerOutput) (s' : Streamer) : Prop :=
  (chunkCount s <= chunkCount s')%nat /\ (streaming id s -> small s' -> extends id out s s').

Lemma grows_refl id s : grows id s [] s.
Proof. split; [done|]. intros Hs _. apply extends_same; [done|]. intros eps c K. by apply not_elem_of_nil in K. Qed.

Lemma grows_trans id o1 o2 s1 s2 s3 : grows id s1 o1 s2 -> grows id s2 o2 s3 -> grows id s1 (o1 ++ o2) s3.
Proof.
  intros [A1 A2] [B1 B2]. split; [lia|]. intros Hs Hsm. assert (small s2) as H2 by (unfold small in *; lia).
  pose proof (A2 Hs H2) as A. eapply extends_trans; [exact A|]. apply B2; [by apply (ex_streaming _ _ _ _ A)|done].
Qed.

Lemma addMedia_grows id media d s :
  ensures (fun p => grows id s p.1 p.2) (addMediaToStream sign media d s).
Proof.
  destruct (addMediaToStream sign media d s) as [[out s']|f] eqn:E; [|done].
  assert (chunkCount s <= chunkCount s')%nat as Hc.
  { unfold addMediaToStream in E. destruct (md_size media); [|done]. case_match; [by injection E as _ <-|].
    destruct (sr_streamId s); [|done]. apply guard_assert_inv in E as [Hn E]. apply bool_decide_eq_true_1 in Hn.
    injection E as _ <-. unfold chunkCount. cbn. rewrite map_size_insert_None by done. lia. }
  split; [exact Hc|]. intros Hs Hsm. assert (small s) as H1 by (unfold small in *; cbn in *; lia).
  by apply (ensures_ret _ _ _ (addMedia_extends id media d s Hs H1) E).
Qed.

Lemma newSequence_grows id number s : grows id s [] (newSequence number s).
Proof.
  unfold newSequence. case_match; [|apply grows_refl]. split; [done|]. intros Hs _. by apply extends_sequence.
Qed.

Lemma parseLines_grows id media lines number index s :
  ensures (fun p => grows id s p.1.2 p.2) (parseLines sign stof media lines number index s).
Proof.
  remember (length lines) as n eqn:En. revert lines En number index s.
  induction (lt_wf n) as [n _ IH]; intros lines En number index s. destruct lines as [|line lines]; [apply grows_refl|].
  assert (forall number' index' s', ensures (fun p => grows id s' p.1.2 p.2) (parseLines sign stof media lines number' index' s')) as IH1.
  { intros. eapply IH; [|done]. subst. cbn. lia. }
  cbn [parseLines].
  destruct (after "#EXT-X-VERSION:" line).
  { destruct (stoi _); [case_match; [apply IH1|]|]; apply grows_refl. }
  destruct (after "#EXT-X-TARGETDURATION:" line); [apply IH1|].
  destruct (after "#EXT-X-MEDIA-SEQUENCE:" line).
  { destruct (stoi _) as [v|]; [|apply grows_refl]. eapply ensures_mono; [|apply IH1].
    intros p Hp. apply (grows_trans _ [] _ _ _ _ (newSequence_grows id v s) Hp). }
  destruct (after "#EXTINF:" line); [|apply IH1]. destruct (stof _) as [d|]; [|apply grows_refl].
  destruct lines as [|name lines]; [apply grows_refl|].
  set (s1 := if sr_startSequenceNumber s <? 0 then set_startSequence number s else s).
  assert (grows id s [] s1) as Hg1.
  { subst s1. case_match; [|apply grows_refl]. split; [done|]. intros Hs _. by apply extends_sequence. }
  eapply (ensures_bind (fun p => grows id s1 p.1 p.2)).
  { destruct (sr_chunkInfoMap s1 !! _); [apply grows_refl|apply addMedia_grows]. }
  intros [out1 s2] Hg2. eapply (ensures_bind (fun p => grows id s2 p.1.2 p.2)).
  { eapply IH; [|done]. subst. cbn. lia. }
  intros [[e out2] s3] Hg3. cbn in *. apply (grows_trans _ [] _ s s1); [exact Hg1|]. by eapply grows_trans.
Qed.

Lemma streamer_step_grows id ev s : ensures (fun p => grows id s p.1 p.2) (streamer_step ev s).
Proof.
  destruct ev as [media d|media text|media d|packet source]; cbn [streamer_step].
  - apply addMedia_grows.
  - unfold onTick, parseM3u8Playlist. destruct (sr_streamId s); [|apply grows_refl].
    destruct (getlines text) as [|line lines]; [apply grows_refl|]. destruct (after _ line); [|apply grows_refl].
    eapply ensures_bind; [apply parseLines_grows|]. intros [[e out] s1] Hg. exact Hg.
  - unfold addChunkToStream. destruct (sr_streamId s); [apply addMedia_grows|exact I].
  - unfold getChunkInfo. case_decide; [|apply grows_refl]. destruct packet as [index|]; [|exact I].
    split; [done|]. intros Hs _. apply extends_same; [done|]. intros eps c. cbn. unfold sendSingleChunkInfo.
    destruct (sr_chunkInfoMap s !! index) as [d|] eqn:E; [|intros K; by apply not_elem_of_nil in K].
    intros K%list_elem_of_singleton. injection K as _ ->. by exists index.
Qed.

Lemma streamer_run_grows id evs s : ensures (fun p => grows id s p.1 p.2) (streamer_run evs s).
Proof.
  revert s. induction evs as [|ev evs IH]; intros s; [apply grows_refl|]. cbn.
  eapply ensures_bind; [apply (streamer_step_grows id)|]. intros [o1 s1] H1. eapply ensures_bind; [apply IH|].
  intros [o2 s2] H2. by eapply grows_trans.
Qed.

(** The first stream of a session. *)
Lemma initStream_streaming id eps s : initStream id eps newStreamer = Ret s -> streaming id s /\ chunkCount s = 0%nat.
Proof.
  unfold initStream. intros E. apply guard_assert_inv in E as [_ E]. apply guard_assert_inv in E as [_ E].
  injection E as <-. split; [|done]. split; [done|done|]. intros i. cbn [sr_chunkInfoMap].
  rewrite lookup_empty. unfold chunkCount. cbn [sr_chunkInfoMap]. rewrite map_size_empty. lia.
Qed.

(** ** The list of the chunks, and the finish file *)

Lemma streamChunks_lookup id s i : streaming id s -> streamChunks s !! i = sr_chunkInfoMap s !! Z.of_nat i.
Proof.
  intros Hs. unfold streamChunks.
  assert (forall k m, (m + k = chunkCount s)%nat -> forall i, omap (fun j => sr_chunkInfoMap s !! Z.of_nat j) (seq m k) !! i =
    sr_chunkInfoMap s !! Z.of_nat (m + i)) as H.
  { induction k as [|k IH]; intros m Hm j.
    - cbn. pose proof (sg_chunks _ _ Hs (Z.of_nat (m + j))) as K. destruct (sr_chunkInfoMap s !! Z.of_nat (m + j)); [lia|done].
    - cbn. pose proof (sg_chunks _ _ Hs (Z.of_nat m)) as K. destruct (sr_chunkInfoMap s !! Z.of_nat m) as [c|] eqn:E; [|lia].
      destruct j as [|j]; cbn; [by rewrite Nat.add_0_r|]. rewrite IH by lia. f_equal. lia. }
  by rewrite (H (chunkCount s) 0%nat).
Qed.

Lemma streamChunks_length id s : streaming id s -> length (streamChunks s) = chunkCount s.
Proof.
  intros Hs. destruct (Nat.lt_trichotomy (length (streamChunks s)) (chunkCount s)) as [K|[K|K]]; [exfalso|done|exfalso].
  - pose proof (streamChunks_lookup id s (length (streamChunks s)) Hs) as E. rewrite lookup_ge_None_2 in E by lia.
    pose proof (sg_chunks _ _ Hs (Z.of_nat (length (streamChunks s)))) as K2. rewrite <- E in K2. lia.
  - destruct (lookup_lt_is_Some_2 (streamChunks s) (chunkCount s) K) as [c Hc].
    rewrite (streamChunks_lookup id s) in Hc by done. pose proof (sg_chunks _ _ Hs (Z.of_nat (chunkCount s))) as K2.
    rewrite Hc in K2. lia.
Qed.

(** The finish file of a list of chunks: a chunk is saved when it overlaps the times
    that were asked for, which are in seconds, its own in microseconds. *)
Fixpoint finishList (startTime endTime i time : Z) (l : list ChunkInfo) : list FinishStreamChunkInfo :=
  match l with
  | [] => []
  | c :: l' =>
      let time' := u64_add time (ch_durationMks c) in
      mkFinishChunk i (ch_chunkInfoHash c) (ch_durationMks c) (ch_sizeBytes c)
        (bool_decide (u64 (startTime * 1000000) <= time' /\ time <= u64 (endTime * 1000000)))
      :: finishList startTime endTime (i + 1) time' l'
  end.

Lemma finishList_hashes a b i time l : map fc_chunkInfoHash (finishList a b i time l) = map ch_chunkInfoHash l.
Proof. revert i time. induction l as [|c l IH]; intros i time; cbn; [done|]. by rewrite IH. Qed.

Lemma finishChunks_list l i time a b sz fileSize torrentSize (m : gmap Z ChunkInfo) :
  0 <= i -> i + Z.of_nat (length l) < two32 -> (forall k c, l !! k = Some c -> m !! (i + Z.of_nat k) = Some c) ->
  exists size, finishChunks (length l) i time a b sz fileSize torrentSize m = Ret (finishList a b i time l, size).
Proof.
  revert i time sz. induction l as [|c l IH]; intros i time sz Hi Hb Hm; cbn [finishChunks length finishList]; [by eexists|].
  cbn [length] in Hb. pose proof (Hm 0%nat c eq_refl) as Hc. rewrite Z.add_0_r in Hc. rewrite Hc. cbv zeta.
  assert (u32 (i + 1) = i + 1) as Eu by (unfold u32; apply Z.mod_small; lia).
  match goal with |- context [finishChunks _ _ ?t _ _ ?z] => destruct (IH (i + 1) t z) as (size & E) end; [lia|lia| |].
  { intros k d Hk. replace (i + 1 + Z.of_nat k) with (i + Z.of_nat (S k)) by lia. by apply Hm. }
  rewrite Eu, E. cbn [mbind outcome_bind]. eexists. do 4 f_equal.
  destruct (Z.ltb_spec (u64_add time (ch_durationMks c)) (u64 (a * 1000000)));
    destruct (Z.ltb_spec (u64 (b * 1000000)) time); case_bool_decide; cbn; done || lia.
Qed.

Lemma finishStream_list id s a b fileSize torrentSize :
  streaming id s -> small s ->
  exists size, finishStream a b fileSize torrentSize s =
    Ret (finishList a b 0 0 (streamChunks s), size, set_streamId None s).
Proof.
  intros Hs Hsm. unfold finishStream. rewrite (sg_id _ _ Hs). cbv zeta. fold (chunkCount s).
  rewrite <- (streamChunks_length id s Hs).
  destruct (finishChunks_list (streamChunks s) 0 0 a b 0 fileSize torrentSize (sr_chunkInfoMap s)) as [size E]; [lia| | |].
  - rewrite (streamChunks_length id s Hs). apply Hsm.
  - intros k c Hk. by rewrite (streamChunks_lookup id s) in Hk.
  - rewrite E. cbn. by eexists.
Qed.

End StreamerSpec.

(** ** From the streamer to the viewers of the finished stream *)

Section EndToEnd.
  Context (verify : Z -> Z * Z * Z * Z * Z -> Z -> bool) (sign : Z * Z * Z * Z * Z -> Z) (stof : string -> option Z).
  Context (request : StreamRequest) (m_fsTree : Folder) (m_maxSize : Z).
  Context (playlistHash : string -> Z) (fsTreeHash : Folder -> Z).
  Notation key := (sq_streamerKey request).
  Notation id := (sq_streamId request).

  (** What the streamer signs is accepted, and of this stream nothing else is. *)
Definition signatures (cs : list ChunkInfo) : Prop :=
  (forall c, c ∈ cs -> verify key (signedData c) (sign (signedData c)) = true) /\
  (forall info, ch_streamId info = id -> Verify verify key info = true -> 0 <= ch_chunkIndex info -> info ∈ cs).

Lemma streamer_cells s :
  signatures (streamChunks s) -> streaming sign id s ->
  (forall i c, streamChunks s !! i = Some c -> cell_ok verify request i c) /\
  (forall info, ch_streamId info = id -> Verify verify key info = true -> 0 <= ch_chunkIndex info ->
     streamChunks s !! Z.to_nat (ch_chunkIndex info) = Some info).
Proof.
  intros [Hs1 Hs2] Hs.
  assert (forall i c, streamChunks s !! i = Some c -> chunk_signed sign id (Z.of_nat i) c) as Hc.
  { intros i c Hi. rewrite (streamChunks_lookup sign id) in Hi by done. pose proof (sg_chunks _ _ _ Hs (Z.of_nat i)) as K.
    rewrite Hi in K. apply K. }
  split.
  - intros i c Hi. destruct (Hc i c Hi) as (E1 & E2 & E3). split_and!; [done|done|]. unfold Verify. rewrite E3.
    apply Hs1. by eapply list_elem_of_lookup_2.
  - intros info K1 K2 K3. apply Hs2 in K2; [|done..]. apply list_elem_of_lookup in K2 as [i Hi].
    destruct (Hc i info Hi) as (_ & E & _). by rewrite E, Nat2Z.id.
Qed.

(** C12: from the streamer to the viewers of the finished stream.  In the first stream
    of a session chunks are added and the recorder's playlist is followed, in any
    order; the chunks differ, are not on the drive yet, and only they are signed for
    this stream; the finish file lists them, each with the mark whether it is to be
    saved.  The folder of the stream can be made and the drive is not full.  When the
    announcements, which the streamer sent, and the finish transaction with the
    streamer's file have arrived at a replicator, among whatever else arrives there
    and in any order, but no cancellation or closing, the run has not stopped (see
    [orderly_stream_returns] for what can), and nothing is left to do there: it has
    put to the vote the drive with the folder of this stream, and nothing else; and a
    viewer reads from its playlist the streamer's chunks. *)
Theorem stream_end_to_end eps s0 added outs s a b fileSize torrentSize infos size s'
    finishHash torrents nodes evs out st :
  initStream id eps newStreamer = Ret s0 -> streamer_run sign stof added s0 = Ret (outs, s) -> small s ->
  finishStream a b fileSize torrentSize s = Ret (infos, size, s') ->
  signatures (streamChunks s) -> streamChunks s <> [] ->
  NoDup (finishHash :: map ch_chunkInfoHash (streamChunks s)) -> Forall (fun c => is_hash (ch_chunkInfoHash c)) (streamChunks s) ->
  ~ blocked (path_of_string (sq_folder request)) m_fsTree -> wf_folder m_fsTree ->
  (forall c, c ∈ streamChunks s -> torrents !! ch_chunkInfoHash c = None) ->
  Forall (honest_event request m_maxSize finishHash infos) evs ->
  (forall eps' c, SendChunkInfo eps' c ∈ outs -> EvChunkInfo c ∈ evs) -> EvFinishStream id finishHash ∈ evs ->
  stream_run verify request true m_fsTree m_maxSize playlistHash fsTreeHash evs (newStream torrents nodes) = Ret (out, st) ->
  (forall ev, enabled ev st = false) ->
  infos = finishList a b 0 0 (streamChunks s) /\
  (exists h, MyRootHashIsCalculated h ∈ out) /\
  (forall h, MyRootHashIsCalculated h ∈ out -> stream_root request m_fsTree playlistHash fsTreeHash infos h) /\
  downloadChunks (finishPlaylist infos) = Ret (true, map ch_chunkInfoHash (streamChunks s)).
Proof.
  intros Hinit Hadd Hsm Hfin Hsig Hne Hnd Hhash Hfree Hwf Ht He Hsent Htx Hrun Hq.
  destruct (initStream_streaming sign _ _ _ Hinit) as [Hs0 Hc0].
  destruct (ensures_ret _ _ _ (streamer_run_grows sign stof id added s0) Hadd) as [_ Hx].
  specialize (Hx Hs0 Hsm). cbn in Hx. pose proof (ex_streaming _ _ _ _ _ Hx Hsm) as Hs.
  destruct (finishStream_list sign id s a b fileSize torrentSize Hs Hsm) as [size' Ef].
  rewrite Hfin in Ef. injection Ef as -> _ _.
  destruct (streamer_cells s Hsig Hs) as [Hcell Hsigned].
  assert (forall c, c ∈ streamChunks s -> EvChunkInfo c ∈ evs) as Hall.
  { intros c Hc. apply list_elem_of_lookup in Hc as [i Hi]. rewrite (streamChunks_lookup sign id) in Hi by done.
    eapply Hsent. apply (ex_sent _ _ _ _ _ Hx (Z.of_nat i) c Hsm Hi).
    pose proof (sg_chunks _ _ _ Hs0 (Z.of_nat i)) as K. rewrite Hc0 in K.
    destruct (sr_chunkInfoMap s0 !! Z.of_nat i); [lia|done]. }
  destruct (stream_completes verify request m_fsTree m_maxSize playlistHash fsTreeHash (streamChunks s) finishHash
              (finishList a b 0 0 (streamChunks s)) Hcell Hsigned Hne Hnd (finishList_hashes _ _ _ _ _) Hfree Hwf
              torrents nodes evs out st Ht He Hall Htx Hrun Hq) as [H1 H2].
  split_and!; [done..|]. unfold finishPlaylist.
  rewrite downloadChunks_printPlaylist; [|lia|].
  - do 2 f_equal. rewrite map_map. cbn. apply finishList_hashes.
  - apply Forall_map. cbn.
    apply (Forall_map fc_chunkInfoHash is_hash). rewrite finishList_hashes. by apply Forall_map.
Qed.

End EndToEnd.

(** ** The viewer *)

Lemma drop_take_app {A} a b c (l : list A) :
  (a <= b <= c)%nat -> drop a (take b l) ++ drop b (take c l) = drop a (take c l).
Proof.
  intros H. rewrite <- (take_drop b (take c l)) at 2. rewrite take_take, Nat.min_l by lia.
  destruct (decide (a <= length (take b l))%nat) as [Hl|Hl]; [by rewrite drop_app_le|].
  rewrite length_take in Hl.
  rewrite (drop_ge (take b l)), (drop_ge (take c l)) by (rewrite length_take; lia).
  by rewrite !app_nil_r, drop_ge by (rewrite length_take; lia).
Qed.

Section ViewerSpec.
  Context (verify : Z -> Z * Z * Z * Z * Z -> Z -> bool).

Inductive ViewerEvent :=
  | VwChunksReply (reply : ChunksReply)
  | VwChunkDownloaded
  | VwChunkFailed
  | VwPlaylistHash (endpoint streamId hash : Z)
  | VwPlaylistDownloaded (text : string)
  | VwSavedChunkDownloaded.

(** The part that [startDownloadFinishedStream] posts runs next. *)
Definition viewer_step (ev : ViewerEvent) (w : Viewer) : Outcome (list ViewerOutput * Viewer) :=
  match ev with
  | VwChunksReply reply => onChunksReply verify reply w
  | VwChunkDownloaded => liveChunkDownloaded w
  | VwChunkFailed => Ret (liveChunkFailed w, w)
  | VwPlaylistHash endpoint streamId hash =>
      '(posted, w1) ← onPlaylistHash endpoint streamId hash w;
      if (posted : bool) then startFinishedStream w1 else Ret ([], w1)
  | VwPlaylistDownloaded text => playlistDownloaded text w
  | VwSavedChunkDownloaded => finishedChunkDownloaded w
  end.

(** A download ends only when it is under way; indices are [uint32_t]. *)
Definition viewer_permits (ev : ViewerEvent) (w : Viewer) : Prop :=
  match ev with
  | VwChunksReply (Chunks _ _ infos) => Forall (fun c => 0 <= ch_chunkIndex c) infos
  | VwChunkDownloaded | VwChunkFailed => vw_downloading w = Some LoadChunk
  | VwPlaylistDownloaded _ => vw_downloading w = Some LoadPlaylist
  | VwSavedChunkDownloaded => vw_downloading w = Some LoadFinished
  | _ => True
  end.

(** A playlist that was downloaded has a number wherever it numbers its first chunk. *)
Definition readable_event (ev : ViewerEvent) : Prop :=
  match ev with VwPlaylistDownloaded text => sequences_readable text | _ => True end.

Inductive viewer_run : list ViewerOutput -> Viewer -> Viewer -> Prop :=
  | viewer_done w : viewer_run [] w w
  | viewer_next ev w o w1 out w2 :
      viewer_permits ev w -> viewer_step ev w = Ret (o, w1) -> viewer_run out w1 w2 -> viewer_run (o ++ out) w w2.

Definition live_downloads (out : list ViewerOutput) : list Z :=
  omap (fun o => match o with DownloadChunk hash => Some hash | _ => None end) out.

Lemma live_downloads_app o1 o2 : live_downloads (o1 ++ o2) = live_downloads o1 ++ live_downloads o2.
Proof. apply omap_app. Qed.

(** ** What a viewer has *)

Context (chunks : list ChunkInfo) (id key : Z).
Context (chunks_index : forall i c, chunks !! i = Some c -> ch_chunkIndex c = Z.of_nat i).
Context (chunks_small : Z.of_nat (length chunks) < two32).
(** Of all that a viewer accepts from this streamer. *)
Context (chunks_only : forall info, Verify verify key info = true -> 0 <= ch_chunkIndex info ->
           chunks !! Z.to_nat (ch_chunkIndex info) = Some info).

Notation infos w := (vc_info <$> vw_chunkInfoList w).

Record watching (w : Viewer) : Prop := {
  wt_id : vw_liveStreamId w = Some id;
  wt_key : vw_streamerKey w = key;
  wt_prefix : infos w `prefix_of` chunks;
  wt_tobe : (vw_tobeDownloaded w <= length (vw_chunkInfoList w))%nat;
  wt_loading : vw_downloading w = Some LoadChunk -> vw_tobeDownloaded w <> 0%nat;
  wt_downloaded i c : vw_chunkInfoList w !! i = Some c ->
    vc_isDownloaded c = true <->
    (i < vw_tobeDownloaded w - if decide (vw_downloading w = Some LoadChunk) then 1 else 0)%nat }.

(** What a handler returns: the live downloads that it started are the next ones. *)
Definition continues (w : Viewer) (m : Outcome (list ViewerOutput * Viewer)) : Prop :=
  exists out w', m = Ret (out, w') /\ watching w' /\ (vw_tobeDownloaded w <= vw_tobeDownloaded w')%nat /\
    (length (vw_chunkInfoList w) <= length (vw_chunkInfoList w'))%nat /\
    live_downloads out =
      map ch_chunkInfoHash (drop (vw_tobeDownloaded w) (take (vw_tobeDownloaded w') chunks)).

Lemma continues_none w w' out :
  watching w' -> vw_tobeDownloaded w' = vw_tobeDownloaded w ->
  (length (vw_chunkInfoList w) <= length (vw_chunkInfoList w'))%nat -> live_downloads out = [] ->
  continues w (Ret (out, w')).
Proof.
  intros Hw Ht Hl Ho. exists out, w'. split_and!; [done|done|lia|done|].
  rewrite Ho, drop_ge; [done|]. rewrite length_take. lia.
Qed.

Lemma watching_chunk w i c : watching w -> vw_chunkInfoList w !! i = Some c -> chunks !! i = Some (vc_info c).
Proof.
  intros Hw Hi. destruct (wt_prefix w Hw) as [rest ->]. apply lookup_app_l_Some. by rewrite list_lookup_fmap, Hi.
Qed.

Lemma watching_length w : watching w -> (length (vw_chunkInfoList w) <= length chunks)%nat.
Proof. intros Hw. destruct (wt_prefix w Hw) as [rest E]. rewrite E, length_app, length_fmap. lia. Qed.

Lemma addChunkInfo_watching info w :
  watching w -> 0 <= ch_chunkIndex info ->
  let '(ok, w') := addChunkInfo verify info w in
  watching w' /\ vw_tobeDownloaded w' = vw_tobeDownloaded w /\
  (length (vw_chunkInfoList w) <= length (vw_chunkInfoList w'))%nat /\
  (chunks !! length (vw_chunkInfoList w) = Some info -> Verify verify key info = true ->
   ok = true /\ length (vw_chunkInfoList w') = S (length (vw_chunkInfoList w))).
Proof.
  intros Hw Hi. unfold addChunkInfo. pose proof (watching_length w Hw) as Hl. cbv zeta.
  assert (u32 (Z.of_nat (length (vw_chunkInfoList w))) = Z.of_nat (length (vw_chunkInfoList w))) as ->
    by (unfold u32; apply Z.mod_small; lia).
  destruct (Z.eqb_spec (Z.of_nat (length (vw_chunkInfoList w))) (ch_chunkIndex info)) as [E|E]; cbn [negb].
  2: { split_and!; [done..|]. intros K _. apply chunks_index in K. lia. }
  rewrite (wt_key w Hw). destruct (Verify verify key info) eqn:Hv; cbn [negb]; [|by split_and!].
  pose proof (chunks_only info Hv Hi) as Hc. rewrite <- E, Nat2Z.id in Hc.
  set (offset := match last _ with None => _ | Some _ => _ end).
  split_and!; [|done|cbn; rewrite length_app; lia|cbn; rewrite length_app; cbn; split; [done|lia]].
  destruct Hw as [W1 W2 W3 W4 W5 W6]. split; cbn; try done.
  - rewrite fmap_app. cbn. destruct W3 as [rest E3]. rewrite E3 in Hc.
    rewrite lookup_app_r in Hc by (rewrite length_fmap; lia). rewrite length_fmap, Nat.sub_diag in Hc.
    destruct rest as [|x rest]; [done|]. injection Hc as ->. exists rest. by rewrite E3, <- app_assoc.
  - rewrite length_app. lia.
  - intros i c [K|[K1 K2]]%lookup_app_Some; [by apply W6|].
    destruct (i - length (vw_chunkInfoList w))%nat; [|done]. injection K2 as <-. cbn.
    split; [done|]. intros K. case_decide; lia.
Qed.

Lemma addChunkInfos_watching l w :
  watching w -> Forall (fun c => 0 <= ch_chunkIndex c) l ->
  let '(ok, w') := addChunkInfos verify l w in
  watching w' /\ vw_tobeDownloaded w' = vw_tobeDownloaded w /\
  (length (vw_chunkInfoList w) <= length (vw_chunkInfoList w'))%nat /\
  (match l with
   | [] => True
   | info :: _ => chunks !! length (vw_chunkInfoList w) = Some info -> Verify verify key info = true ->
                  (length (vw_chunkInfoList w) < length (vw_chunkInfoList w'))%nat
   end).
Proof.
  intros Hw Hl. revert w Hw. induction Hl as [|info l Hi _ IH]; intros w Hw; [by split_and!|]. cbn [addChunkInfos].
  pose proof (addChunkInfo_watching info w Hw Hi) as H. destruct (addChunkInfo verify info w) as [ok w1].
  destruct H as (H1 & H2 & H3 & H4). destruct ok.
  - specialize (IH w1 H1). destruct (addChunkInfos verify l w1) as [ok2 w2]. destruct IH as (I1 & I2 & I3 & _).
    split_and!; [done|congruence|lia|]. intros K1 K2. destruct (H4 K1 K2) as [_ ?]. lia.
  - split_and!; [done..|]. intros K1 K2. by destruct (H4 K1 K2).
Qed.

Lemma watching_loading v w : v <> Some LoadChunk -> vw_downloading w <> Some LoadChunk -> watching w -> watching (set_loading v w).
Proof.
  intros Hv Hd [W1 W2 W3 W4 W5 W6]. split; cbn; try done.
  intros i c Hi. rewrite (W6 i c Hi). by rewrite !decide_False.
Qed.

Lemma tryLoadNext_continues w : watching w -> continues w (tryLoadNextChunk w).
Proof.
  intros Hw. unfold tryLoadNextChunk. destruct (vw_downloading w) as [d|] eqn:Ed.
  { cbn [mbind outcome_bind]. rewrite Ed. by apply continues_none. }
  destruct (vw_downloadStreamPlaylist w) as [hash|] eqn:Eh.
  { unfold downloadPlaylist. rewrite Eh, (wt_id w Hw). cbn [mbind outcome_bind]. cbn.
    apply continues_none; [|done..]. apply watching_loading; [done|by rewrite Ed|done]. }
  cbn [mbind outcome_bind]. rewrite Ed.
  destruct (vw_chunkInfoList w !! vw_tobeDownloaded w) as [c|] eqn:Ec; [|by apply continues_none].
  pose proof (watching_chunk w _ _ Hw Ec) as Hc. rewrite (chunks_index _ _ Hc), Z.eqb_refl. cbn [guard_assert].
  rewrite (wt_id w Hw). eexists _, _. split; [done|]. cbn. split_and!; [|lia|done|].
  - destruct Hw as [W1 W2 W3 W4 W5 W6]. split; cbn; try done.
    + by apply lookup_lt_Some in Ec.
    + intros i c' Hi. rewrite (W6 i c' Hi). rewrite decide_False by (by rewrite Ed). rewrite decide_True by done.
      split; lia.
  - rewrite (take_S_r _ _ _ Hc), drop_app_ge by (rewrite length_take; lia).
    rewrite length_take. apply lookup_lt_Some in Hc.
    replace (vw_tobeDownloaded w - vw_tobeDownloaded w `min` length chunks)%nat with 0%nat by lia. done.
Qed.

(** After something that starts no live download. *)
Lemma continues_after w w1 out1 m :
  vw_tobeDownloaded w1 = vw_tobeDownloaded w -> length (vw_chunkInfoList w1) = length (vw_chunkInfoList w) ->
  live_downloads out1 = [] -> continues w1 m -> forall mid, live_downloads mid = [] ->
  continues w ('(out2, w2) ← m; Ret (out1 ++ mid ++ out2, w2)).
Proof.
  intros Et El Eo (o & w' & -> & H1 & H2 & H3 & H4) mid Em. cbn. exists (out1 ++ mid ++ o), w'.
  split_and!; [done|done|lia|lia|]. by rewrite !live_downloads_app, Eo, Em, H4, Et.
Qed.

Lemma startPlayer_watching w :
  watching w -> watching (startPlayer w).2 /\ vw_tobeDownloaded (startPlayer w).2 = vw_tobeDownloaded w /\
  vw_chunkInfoList (startPlayer w).2 = vw_chunkInfoList w /\ vw_downloading (startPlayer w).2 = vw_downloading w /\
  live_downloads (startPlayer w).1 = [].
Proof. intros Hw. unfold startPlayer. destruct (vw_startPlayer w); [|done]. destruct Hw. by split_and!; [split|..]. Qed.

Lemma liveChunk_continues w : watching w -> vw_downloading w = Some LoadChunk -> continues w (liveChunkDownloaded w).
Proof.
  intros Hw Ed. unfold liveChunkDownloaded. destruct (vw_tobeDownloaded w) as [|i] eqn:Et; [by destruct (wt_loading w Hw Ed)|].
  pose proof (wt_tobe w Hw) as Htl. rewrite Et in Htl.
  destruct (lookup_lt_is_Some_2 (vw_chunkInfoList w) i) as [c Hc]; [lia|]. rewrite Hc. cbv zeta.
  set (w1 := set_list _ w). unfold updatePlaylist. destruct (playlistWindow _ _ _ _) as [first total].
  assert (watching (set_loading None w1)) as H1.
  { destruct Hw as [W1 W2 W3 W4 W5 W6]. split; cbn; try done.
    - by rewrite list_fmap_insert, list_insert_id by (by rewrite list_lookup_fmap, Hc).
    - rewrite length_insert. lia.
    - intros j c' Hj. rewrite Et, (decide_False (P := None = Some LoadChunk)) by done.
      destruct (decide (j = i)) as [->|Hne].
      + rewrite list_lookup_insert_eq in Hj by (by eapply lookup_lt_Some). injection Hj as <-. cbn. split; [lia|done].
      + rewrite list_lookup_insert_ne in Hj by done. rewrite (W6 j c' Hj), Et, decide_True by done. lia. }
  unfold startPlayer. destruct (vw_startPlayer w1).
  - apply (continues_after w (set_loading None (set_player false w1)) [WritePlaylist _; StartPlayer] _); try done.
    + cbn. by rewrite length_insert.
    + apply tryLoadNext_continues. destruct H1. by split.
  - apply (continues_after w (set_loading None w1) [WritePlaylist _] _); try done.
    + cbn. by rewrite length_insert.
    + by apply tryLoadNext_continues.
Qed.

Lemma continueDownload_continues i todo w :
  watching w -> vw_downloading w = None -> continues w (continueDownloadChunks i todo w).
Proof.
  intros Hw Ed. revert i. induction todo as [|hash todo IH]; intros i; cbn [continueDownloadChunks].
  - apply continues_none; try done. destruct Hw. by split.
  - case_match; [apply IH|]. rewrite (wt_id w Hw). apply continues_none; try done.
    apply (watching_loading (Some LoadFinished) (set_finished _ i w)); [done|cbn; by rewrite Ed|]. destruct Hw. by split.
Qed.

Lemma downloadPlaylist_continues w :
  watching w -> vw_downloading w = None -> is_Some (vw_downloadStreamPlaylist w) -> continues w (downloadPlaylist w).
Proof.
  intros Hw Ed [hash Eh]. unfold downloadPlaylist. rewrite Eh, (wt_id w Hw). apply continues_none; try done.
  apply watching_loading; [done|by rewrite Ed|done].
Qed.

(** A handler after a change that the list does not see. *)
Lemma continues_from w w1 m :
  vw_tobeDownloaded w1 = vw_tobeDownloaded w -> (length (vw_chunkInfoList w) <= length (vw_chunkInfoList w1))%nat ->
  continues w1 m -> continues w m.
Proof.
  intros Et El (o & w' & -> & H1 & H2 & H3 & H4). exists o, w'. split_and!; [done|done|lia|lia|]. by rewrite H4, Et.
Qed.

Lemma step_continues ev w :
  watching w -> viewer_permits ev w -> readable_event ev \/ (exists a, viewer_step ev w = Ret a) ->
  continues w (viewer_step ev w).
Proof.
  intros Hw Hp Hr. destruct ev as [reply| | |endpoint sid hash|text|]; cbn [viewer_step viewer_permits] in *.
  - unfold onChunksReply. destruct reply as [| | |first number l]; try (by apply continues_none).
    + case_match; [by apply continues_none|]. rewrite (wt_id w Hw). by apply continues_none.
    + pose proof (addChunkInfos_watching _ w Hw (Forall_take _ (Z.to_nat number) _ Hp)) as H.
      destruct (addChunkInfos verify _ w) as [ok w1].
      destruct H as (H1 & H2 & H3 & _). destruct (ok && _); [|by apply continues_none].
      apply (continues_from w w1); [done|lia|]. by apply tryLoadNext_continues.
  - by apply liveChunk_continues.
  - by apply continues_none.
  - unfold onPlaylistHash. destruct (vw_playlistInfoHashReceived w); [by apply continues_none|].
    rewrite (wt_id w Hw). case_decide; [by apply continues_none|]. cbv zeta.
    assert (forall m b, watching (set_votes m b w)) as Hv by (intros m b; destruct Hw; by split).
    case_match; [|by apply continues_none; [apply Hv|..]].
    destruct (countVotes _ _ _) as [winner|]; [|by apply continues_none; [apply Hv|..]]. cbn [mbind outcome_bind].
    match goal with |- continues w (startFinishedStream ?x) => set (w1 := x) end.
    assert (watching w1) as H1 by (destruct Hw; by split).
    apply (continues_from w w1); [done..|]. unfold startFinishedStream.
    destruct (vw_downloading w1) eqn:Ed; [by apply continues_none|]. by apply downloadPlaylist_continues.
  - unfold playlistDownloaded. cbv zeta.
    assert (watching (set_loading None w)) as H0 by (apply watching_loading; [done|by rewrite Hp|done]).
    assert (exists r, downloadChunks text = Ret r) as [[complete l] ->].
    { destruct Hr as [Hr|[a Hr]]; [by apply readChunks_returns|].
      cbn in Hr. unfold playlistDownloaded in Hr. destruct (downloadChunks text) as [r|]; [by exists r|discriminate Hr]. }
    cbn [mbind outcome_bind]. destruct complete.
    + apply (continues_from w (set_finished l (-1) (set_playlistHash None (set_loading None w)))); [done..|].
      apply continueDownload_continues; [|done]. destruct H0. by split.
    + apply continues_none; try done. destruct H0. by split.
  - unfold finishedChunkDownloaded. cbv zeta.
    assert (watching (set_loading None w)) as H0 by (apply watching_loading; [done|by rewrite Hp|done]).
    destruct (startPlayer_watching _ H0) as (P1 & P2 & P3 & P4 & P5).
    destruct (startPlayer (set_loading None w)) as [out1 w1]. cbn [fst snd] in P1, P2, P3, P4, P5.
    destruct (continueDownload_continues (vw_downloadStreamChunkIndex w + 1)
      (drop (Z.to_nat (vw_downloadStreamChunkIndex w + 1)) (vw_downloadStreamChunks w)) w1 P1 P4) as (o & w' & -> & H1 & H2 & H3 & H4).
    cbn. eexists _, w'. split; [done|]. rewrite P2 in *. rewrite P3 in *. split_and!; [done|done|done|].
    transitivity (live_downloads (out1 ++ o)); [done|]. by rewrite live_downloads_app, P5, H4.
Qed.

Lemma start_watching reps w :
  startWatchingLiveStream id key reps newViewer = Ret w -> watching w /\ vw_tobeDownloaded w = 0%nat /\ vw_chunkInfoList w = [].
Proof.
  unfold startWatchingLiveStream. intros E. apply guard_assert_inv in E as [_ E]. injection E as <-.
  split_and!; [split|..]; cbn; try done. apply prefix_nil.
Qed.

Lemma run_watching out w w' :
  viewer_run out w w' -> watching w ->
  watching w' /\ (vw_tobeDownloaded w <= vw_tobeDownloaded w')%nat /\
  live_downloads out = map ch_chunkInfoHash (drop (vw_tobeDownloaded w) (take (vw_tobeDownloaded w') chunks)).
Proof.
  induction 1 as [w|ev w o w1 out w2 Hp E _ IH]; intros Hw.
  - split_and!; [done..|]. rewrite drop_ge; [done|]. rewrite length_take. lia.
  - destruct (step_continues ev w Hw Hp) as (o' & w1' & E' & H1 & H2 & _ & H4); [by right; eexists|]. rewrite E in E'. injection E' as <- <-.
    destruct (IH H1) as (I1 & I2 & I3). split_and!; [done|lia|]. rewrite live_downloads_app, H4, I3, <- map_app. f_equal.
    by apply drop_take_app.
Qed.

(** ** The playlist of the player *)

Lemma playlistWindow_all fuel first total l :
  (forall j, (j < first)%nat -> exists c, l !! j = Some c /\ vc_isDownloaded c = true) ->
  playlistWindow fuel first total l = (first - fuel, total + first `min` fuel)%nat.
Proof.
  revert first total. induction fuel as [|fuel IH]; intros first total Hl; cbn [playlistWindow]; [f_equal; lia|].
  destruct first as [|first]; [f_equal; lia|].
  destruct (Hl first) as (c & Hc & Hd); [lia|]. rewrite Hc, Hd, IH; [f_equal; lia|]. intros j Hj. apply Hl. lia.
Qed.

Lemma viewerPlaylist_read first total l :
  Z.of_nat first <= 2147483647 -> (first + total <= length l)%nat -> Forall (fun c => is_hash (ch_chunkInfoHash (vc_info c))) l ->
  downloadChunks (viewerPlaylist first total l) = Ret (true, map ch_chunkInfoHash (take total (drop first (vc_info <$> l)))).
Proof.
  intros Hf Hl Hh. unfold viewerPlaylist. cbv zeta. set (shown := take total (drop first _)).
  assert (length shown = length (take total (vc_info <$> l))) as Hlen.
  { subst shown. rewrite !length_take, length_drop, length_fmap. lia. }
  assert (map pe_hash (zip_with (fun c c' => mkEntry (ch_durationMks c / 1000000) (ch_durationMks c' mod 1000000) (ch_chunkInfoHash c))
    shown (take total (vc_info <$> l))) = map ch_chunkInfoHash shown) as Hm.
  { revert Hlen. generalize (take total (vc_info <$> l)). induction shown as [|c shown IH]; intros [|c' l'] E; try done.
    cbn. f_equal. apply IH. by injection E. }
  rewrite downloadChunks_printPlaylist; [by rewrite Hm|lia|].
  apply (Forall_map pe_hash is_hash). rewrite Hm. apply Forall_map, Forall_forall. intros c Hc.
  rewrite Forall_forall in Hh. subst shown. apply elem_of_take in Hc as (i & Hi & _). rewrite lookup_drop in Hi.
  rewrite list_lookup_fmap in Hi. apply fmap_Some in Hi as (d & Hd & ->). apply Hh. by eapply list_elem_of_lookup_2.
Qed.

(** After the download of a chunk: at most eight, the last ones. *)
Lemma liveChunk_playlist w i :
  watching w -> vw_downloading w = Some LoadChunk -> vw_tobeDownloaded w = S i -> Z.of_nat i <= 2147483647 ->
  Forall (fun c => is_hash (ch_chunkInfoHash c)) chunks ->
  exists text out w', liveChunkDownloaded w = Ret (WritePlaylist text :: out, w') /\
    downloadChunks text = Ret (true, map ch_chunkInfoHash (drop (i - 7) (take (S i) chunks))).
Proof.
  intros Hw Ed Et Hi Hh. destruct (liveChunk_continues w Hw Ed) as (o & w' & E & _).
  unfold liveChunkDownloaded in E. rewrite Et in E. pose proof (wt_tobe w Hw) as Htl. rewrite Et in Htl.
  destruct (lookup_lt_is_Some_2 (vw_chunkInfoList w) i) as [c Hc]; [lia|]. rewrite Hc in E. cbv zeta in E.
  unfold liveChunkDownloaded. rewrite Et, Hc. cbv zeta. set (w1 := set_list _ w) in *.
  assert (vc_info <$> vw_chunkInfoList w1 = infos w) as Ei.
  { cbn. by rewrite list_fmap_insert, list_insert_id by (by rewrite list_lookup_fmap, Hc). }
  unfold updatePlaylist in *. rewrite playlistWindow_all in *.
  2,3: (intros j Hj; cbn; rewrite list_lookup_insert_ne by lia;
        destruct (lookup_lt_is_Some_2 (vw_chunkInfoList w) j) as [d Hd]; [lia|]; exists d; split; [done|];
        apply (wt_downloaded w Hw j d Hd); rewrite decide_True, Et by done; lia).
  destruct (startPlayer w1) as [o1 w2]. destruct (tryLoadNextChunk (set_loading None w2)) as [[o2 w3]|]; [|done].
  cbn in E. injection E as _ <-. eexists _, _, _. split; [done|].
  rewrite viewerPlaylist_read; [|lia|cbn; rewrite length_insert; lia|].
  - rewrite Ei. destruct (wt_prefix w Hw) as [rest ->]. do 3 f_equal.
    rewrite take_app_le by (rewrite length_fmap; lia). rewrite take_drop_commute. do 2 f_equal. lia.
  - apply (Forall_fmap vc_info (fun c => is_hash (ch_chunkInfoHash c))). rewrite Ei.
    destruct (wt_prefix w Hw) as [rest Er]. rewrite Er in Hh. by apply Forall_app in Hh as [? _].
Qed.

(** C14: a viewer has the streamer's chunks, in their order, when the streamer's key
    signs the chunks of this one stream only ([chunks_only]).  Whoever answers the
    viewer, with whatever announcements (also with an archive that ends among them),
    and in whatever order downloads end or fail: the announcements that the viewer has
    are the first ones of the stream, and the downloads that it started are those of
    the first chunks, each once.  Every handler returns, but for a downloaded playlist
    with an unreadable number of its first chunk, whose error fails an assertion.
    When a chunk is there the player is given a playlist of the last eight. *)
Theorem viewer_in_order reps w0 out w :
  Forall (fun c => is_hash (ch_chunkInfoHash c)) chunks -> Z.of_nat (length chunks) <= 2147483648 ->
  startWatchingLiveStream id key reps newViewer = Ret w0 -> viewer_run out w0 w ->
  infos w `prefix_of` chunks /\ (vw_tobeDownloaded w <= length (vw_chunkInfoList w))%nat /\
  live_downloads out = map ch_chunkInfoHash (take (vw_tobeDownloaded w) chunks) /\
  (forall ev, viewer_permits ev w -> readable_event ev -> exists o w', viewer_step ev w = Ret (o, w')) /\
  (vw_downloading w = Some LoadChunk -> exists text o w', viewer_step VwChunkDownloaded w = Ret (WritePlaylist text :: o, w') /\
     downloadChunks text =
       Ret (true, map ch_chunkInfoHash (drop (vw_tobeDownloaded w - 8) (take (vw_tobeDownloaded w) chunks)))).
Proof.
  intros Hh Hn H0 Hr. apply start_watching in H0 as (Hw0 & Et & _). apply run_watching in Hr as (Hw & _ & Ho); [|done].
  rewrite Et, drop_0 in Ho. split_and!; [apply Hw|apply Hw|done| |].
  - intros ev Hp Hv. destruct (step_continues ev w Hw Hp (or_introl Hv)) as (o & w' & E & _). by exists o, w'.
  - intros Ed. destruct (vw_tobeDownloaded w) as [|i] eqn:Ei; [by destruct (wt_loading w Hw Ed)|].
    pose proof (wt_tobe w Hw) as K. pose proof (watching_length w Hw). rewrite Ei in K.
    destruct (liveChunk_playlist w i Hw Ed Ei) as (text & o & w' & E & Hd); [lia|done|].
    exists text, o, w'. split; [done|]. by replace (S i - 8)%nat with (i - 7)%nat by lia.
Qed.

(** ** With a replicator *)

Context (request : StreamRequest) (request_id : sq_streamId request = id).
Context (chunks_verified : forall c, c ∈ chunks -> Verify verify key c = true).

(** The viewer asks for what it does not have, and is answered. *)
Fixpoint viewer_rounds (n : nat) (s : StreamData) (streamMap : gset Z) (w : Viewer) : Outcome (list ViewerOutput * Viewer) :=
  match n with
  | O => Ret ([], w)
  | S n' =>
      reply ← acceptGetChunksInfoMessage request streamMap id (length (vw_chunkInfoList w)) s;
      '(out1, w1) ← onChunksReply verify reply w;
      '(out2, w2) ← viewer_rounds n' s streamMap w1;
      Ret (out1 ++ out2, w2)
  end.

Lemma round_grows s streamMap w :
  sd_chunkInfoList s = map Some chunks -> watching w ->
  exists reply out w', acceptGetChunksInfoMessage request streamMap id (length (vw_chunkInfoList w)) s = Ret reply /\
    onChunksReply verify reply w = Ret (out, w') /\ watching w' /\
    (length chunks <= length (vw_chunkInfoList w') \/ length (vw_chunkInfoList w) < length (vw_chunkInfoList w'))%nat.
Proof.
  intros Hs Hw. unfold acceptGetChunksInfoMessage. rewrite request_id, decide_False by (intros K; by apply K). rewrite Hs.
  rewrite list_lookup_fmap. destruct (chunks !! length (vw_chunkInfoList w)) as [c|] eqn:Ec; cbn [fmap option_fmap option_map].
  2: { eexists _, _, w. split; [done|]. split; [done|]. split; [done|]. left. by apply lookup_ge_None_1. }
  rewrite (chunks_index _ _ Ec), Z.eqb_refl. cbn [guard_assert]. set (l := c :: _).
  exists (Chunks (Z.of_nat (length (vw_chunkInfoList w))) (Z.of_nat (length l)) l).
  assert (Forall (fun d => 0 <= ch_chunkIndex d) l) as Hl.
  { apply Forall_cons. split; [rewrite (chunks_index _ _ Ec); lia|]. apply Forall_forall. intros d Hd.
    apply list_elem_of_lookup in Hd as [k Hk]. apply chunkSequence_lookup in Hk.
    rewrite lookup_drop in Hk. change (map Some chunks) with (Some <$> chunks) in Hk. rewrite list_lookup_fmap in Hk.
    apply fmap_Some in Hk as (d' & Hd' & [= ->]). rewrite (chunks_index _ _ Hd'). lia. }
  pose proof (addChunkInfos_watching l w Hw Hl) as H. cbn [onChunksReply].
  rewrite Nat2Z.id, firstn_all, Z.leb_refl.
  destruct (addChunkInfos verify l w) as [ok w1] eqn:Ea. destruct H as (H1 & H2 & H3 & H4).
  assert (length (vw_chunkInfoList w) < length (vw_chunkInfoList w1))%nat as Hgrow.
  { apply H4; [done|]. apply chunks_verified. by eapply list_elem_of_lookup_2. }
  destruct ok.
  - destruct (tryLoadNext_continues w1 H1) as (o & w' & E & K1 & _ & K2 & _).
    exists o, w'. split; [done|]. cbn [andb]. rewrite E. split_and!; [done|done|right; lia].
  - exists [], w1. split; [done|]. cbn [andb]. split_and!; [done|done|by right].
Qed.

(** A viewer catches up.  From any state that it reaches, a replicator that has
    all announcements gives them to the viewer in at most as many answers as there
    are chunks, and no handler of either side fails. *)
Lemma viewer_catches_up reps w0 out0 w s streamMap :
  sd_chunkInfoList s = map Some chunks -> startWatchingLiveStream id key reps newViewer = Ret w0 -> viewer_run out0 w0 w ->
  exists out w', viewer_rounds (length chunks) s streamMap w = Ret (out, w') /\ infos w' = chunks.
Proof.
  intros Hs H0 Hr. apply start_watching in H0 as (Hw0 & _ & _). apply run_watching in Hr as (Hw & _ & _); [|done]. clear Hw0 out0 w0 reps.
  assert (forall n w, watching w -> (length chunks <= n + length (vw_chunkInfoList w))%nat ->
    exists out w', viewer_rounds n s streamMap w = Ret (out, w') /\ infos w' = chunks) as H.
  { clear w Hw. induction n as [|n IH]; intros w Hw Hn.
    - exists [], w. split; [done|]. destruct (wt_prefix w Hw) as [rest E]. pose proof (watching_length w Hw).
      assert (length chunks = length (vw_chunkInfoList w) + length rest)%nat as K by (by rewrite E, length_app, length_fmap).
      destruct rest; [by rewrite E, app_nil_r|cbn in *; lia].
    - destruct (round_grows s streamMap w Hs Hw) as (reply & o1 & w1 & E1 & E2 & Hw1 & Hg).
      destruct (IH w1 Hw1) as (o2 & w2 & E3 & E4); [lia|]. exists (o1 ++ o2), w2. cbn.
      rewrite E1. cbn [mbind outcome_bind]. rewrite E2. cbn [mbind outcome_bind]. by rewrite E3. }
  apply H; [done|lia].
Qed.

End ViewerSpec.

(** ** The vote on the playlist *)

Lemma countVotes_count threshold votes counters hash :
  countVotes threshold votes counters = Some hash ->
  (threshold < default 0%nat (counters !! hash) + length (filter (fun h => h = hash) votes))%nat.
Proof.
  revert counters. induction votes as [|h votes IH]; intros counters; cbn [countVotes]; [done|]. rewrite filter_cons.
  destruct (Nat.leb_spec threshold (default 0%nat (counters !! h))).
  - intros [= ->]. rewrite decide_True by done. cbn. lia.
  - intros H2%IH. destruct (decide (h = hash)) as [->|Hne].
    + rewrite lookup_insert_eq in H2. cbn in H2 |- *. lia.
    + by rewrite lookup_insert_ne in H2 by done.
Qed.

Lemma filter_values (m : gmap Z Z) hash :
  length (filter (fun h => h = hash) (sorted_values m)) = length (filter (fun p : Z * Z => p.2 = hash) (sorted_entries m)).
Proof.
  unfold sorted_values. induction (sorted_entries m) as [|[k h] l IH]; [done|].
  cbn [map snd]. rewrite !filter_cons. cbn [snd]. case_decide; cbn; by rewrite IH.
Qed.

(** A viewer downloads the playlist of a finished stream only when more than
    two thirds of the replicators plus one -- as many different endpoints -- have
    answered for the stream with its hash. *)
Lemma playlist_by_majority endpoint streamId hash w w' :
  onPlaylistHash endpoint streamId hash w = Ret (true, w') ->
  exists winner voters, vw_downloadStreamPlaylist w' = Some winner /\ vw_playlistInfoHashReceived w' = true /\
    vw_liveStreamId w = Some streamId /\
    vw_playlistInfoHashMap w' = <[endpoint := hash]> (vw_playlistInfoHashMap w) /\ NoDup voters /\
    (forall e, e ∈ voters -> vw_playlistInfoHashMap w' !! e = Some winner) /\
    (size (vw_replicatorSet w) * 2 / 3 + 1 < length voters)%nat.
Proof.
  unfold onPlaylistHash. intros E. destruct (vw_playlistInfoHashReceived w); [done|].
  destruct (vw_liveStreamId w) as [id|] eqn:Ei; [|done]. case_decide as Hid; [done|]. cbv zeta in E.
  set (m := <[endpoint := hash]> (vw_playlistInfoHashMap w)) in *.
  case_match; [|done]. destruct (countVotes _ _ _) as [winner|] eqn:Ev; [|done]. injection E as <-.
  apply countVotes_count in Ev. rewrite lookup_empty, filter_values in Ev. cbn in Ev.
  exists winner, (map fst (filter (fun p : Z * Z => p.2 = winner) (sorted_entries m))).
  split_and!; try done; cbn.
  - f_equal. by destruct (decide (id = streamId)) as [->|K]; [|destruct Hid].
  - pose proof (NoDup_sorted_keys m) as Hnd. unfold sorted_keys in Hnd.
    apply (NoDup_fmap_2_strong fst); [|by apply NoDup_filter, (NoDup_fmap_1 fst)].
    intros [k v] [k' v'] H1%list_elem_of_filter H2%list_elem_of_filter K. cbn in *. subst k'.
    destruct H1 as [-> _], H2 as [-> _]. done.
  - intros e He. apply list_elem_of_fmap in He as ([k v] & -> & Hp). apply list_elem_of_filter in Hp as [Hv Hp].
    cbn in *. subst v. by apply elem_of_sorted_entries in Hp.
  - rewrite length_map. unfold votesNeeded in Ev. lia.
Qed.

(** ** The finished stream *)

Definition saved_downloads (out : list ViewerOutput) : list Z :=
  omap (fun o => match o with DownloadSavedChunk hash => Some hash | _ => None end) out.

Definition missing (w : Viewer) (l : list Z) : list Z := filter (fun h => alreadyDownloaded h w = false) l.

(** The downloads end one after the other. *)
Fixpoint download_all (n : nat) (w : Viewer) : Outcome (list ViewerOutput * Viewer) :=
  match n with
  | O => Ret ([], w)
  | S n' =>
      '(out1, w1) ← finishedChunkDownloaded w;
      '(out2, w2) ← download_all n' w1;
      Ret (out1 ++ out2, w2)
  end.

(** What [continueDownloadChunks] needs of a viewer. *)
Definition alike (w w' : Viewer) : Prop :=
  vw_liveStreamId w' = vw_liveStreamId w /\ vw_chunkInfoList w' = vw_chunkInfoList w /\
  vw_downloadStreamChunks w' = vw_downloadStreamChunks w.

Lemma alike_missing w w' l : alike w w' -> missing w' l = missing w l.
Proof.
  intros (_ & E & _). unfold missing. apply list_filter_iff. intros h. unfold alreadyDownloaded. by rewrite E.
Qed.

Lemma startPlayer_alike w : alike w (startPlayer w).2 /\ saved_downloads (startPlayer w).1 = [].
Proof. unfold startPlayer. by destruct (vw_startPlayer w). Qed.

Lemma continue_missing todo i w :
  is_Some (vw_liveStreamId w) ->
  exists out w', continueDownloadChunks i todo w = Ret (out, w') /\ alike w w' /\
    match missing w todo with
    | [] => vw_downloading w' = vw_downloading w /\ saved_downloads out = [] /\
            Progress (i + Z.of_nat (length todo)) (Z.of_nat (length (vw_downloadStreamChunks w))) false ∈ out
    | hash :: rest => vw_downloading w' = Some LoadFinished /\ saved_downloads out = [hash] /\
                      exists skip todo', todo = skip ++ hash :: todo' /\ missing w todo' = rest /\
                        vw_downloadStreamChunkIndex w' = i + Z.of_nat (length skip)
    end.
Proof.
  intros [id Hid]. revert i. induction todo as [|hash todo IH]; intros i; cbn [continueDownloadChunks].
  - do 2 eexists. split; [done|]. split; [done|]. cbn. split_and!; [done..|]. rewrite Z.add_0_r. by left.
  - unfold missing. rewrite filter_cons. fold (missing w todo). destruct (alreadyDownloaded hash w) eqn:Ea.
    + rewrite decide_False by done. destruct (IH (i + 1)) as (out & w' & E & Hw & H). exists out, w'. split; [done|]. split; [done|].
      destruct (missing w todo) as [|h rest].
      * destruct H as (H1 & H2 & H3). split_and!; [done..|]. by replace (i + Z.of_nat (length (hash :: todo))) with (i + 1 + Z.of_nat (length todo)) by (cbn; lia).
      * destruct H as (H1 & H2 & skip & todo' & -> & H4 & H5). split_and!; [done..|]. exists (hash :: skip), todo'.
        split_and!; [done|done|]. rewrite H5. cbn. lia.
    + rewrite decide_True by done. rewrite Hid. do 2 eexists. split; [done|]. split; [by split_and!|]. split_and!; [done..|].
      exists [], todo. split_and!; [done..|]. cbn. lia.
Qed.

(** A chunk of the finished stream is being downloaded, and these come after it. *)
Definition saving (w : Viewer) (todo : list Z) : Prop :=
  is_Some (vw_liveStreamId w) /\ vw_downloading w = Some LoadFinished /\
  exists before hash, vw_downloadStreamChunks w = before ++ hash :: todo /\
    vw_downloadStreamChunkIndex w = Z.of_nat (length before).

Lemma finishedChunk_missing w todo :
  saving w todo ->
  exists out w', finishedChunkDownloaded w = Ret (out, w') /\ alike w w' /\
    match missing w todo with
    | [] => vw_downloading w' = None /\ saved_downloads out = [] /\
            let n := Z.of_nat (length (vw_downloadStreamChunks w)) in Progress n n false ∈ out
    | hash :: rest => saved_downloads out = [hash] /\ exists todo', saving w' todo' /\ missing w' todo' = rest
    end.
Proof.
  intros (Hl & Hd & before & hash & Ec & Ei). unfold finishedChunkDownloaded. cbv zeta. rewrite Ei, Ec.
  replace (Z.to_nat (Z.of_nat (length before) + 1)) with (length (before ++ [hash])) by (rewrite length_app; cbn; lia).
  change (before ++ hash :: todo) with (before ++ [hash] ++ todo). rewrite app_assoc, drop_app_length.
  destruct (startPlayer_alike (set_loading None w)) as [(A1 & A2 & A3) Ao].
  assert (vw_downloading (startPlayer (set_loading None w)).2 = None) as Ad
    by (unfold startPlayer; by destruct (vw_startPlayer _)).
  destruct (startPlayer (set_loading None w)) as [o1 w1]. cbn [fst snd] in *.
  cbn [vw_liveStreamId vw_chunkInfoList vw_downloadStreamChunks set_loading] in A1, A2, A3.
  assert (alike w w1) as Hw1 by (by split_and!).
  destruct (continue_missing todo (Z.of_nat (length before) + 1) w1) as (o2 & w2 & E & (B1 & B2 & B3) & H); [by rewrite A1|].
  rewrite E. cbn [mbind outcome_bind]. do 2 eexists. split; [done|]. split; [by split_and!; congruence|].
  rewrite (alike_missing _ _ _ Hw1) in H.
  assert (forall p q r, saved_downloads (Progress p q r :: o1 ++ o2) = saved_downloads o2) as Hs.
  { intros. transitivity (saved_downloads (o1 ++ o2)); [done|]. unfold saved_downloads. rewrite omap_app.
    fold (saved_downloads o1). by rewrite Ao. }
  rewrite Hs. destruct (missing w todo) as [|h rest].
  - destruct H as (H1 & H2 & H3). split_and!; [by rewrite H1|done|]. cbv zeta. apply elem_of_cons. right.
    apply elem_of_app. right. rewrite A3 in H3. cbn in H3. rewrite Ec in H3.
    rewrite !length_app in *. cbn [length] in *.
    replace (Z.of_nat (length before + 1 + length todo)) with (Z.of_nat (length before) + 1 + Z.of_nat (length todo)) by lia.
    replace (Z.of_nat (length before + S (length todo))) with (Z.of_nat (length before) + 1 + Z.of_nat (length todo)) in H3 by lia.
    exact H3.
  - destruct H as (H1 & H2 & skip & todo' & -> & H4 & H5). split; [done|]. exists todo'. split.
    + split_and!; [rewrite B1, A1; exact Hl|done|]. exists (before ++ hash :: skip), h. split.
      * rewrite B3, A3. cbn. rewrite Ec. by rewrite <- app_assoc.
      * rewrite H5, length_app. cbn. lia.
    + rewrite <- H4. apply (alike_missing w1 w2). by split_and!.
Qed.

Lemma download_all_missing n todo w :
  saving w todo -> length (missing w todo) = n ->
  exists out w', download_all (S n) w = Ret (out, w') /\ saved_downloads out = missing w todo /\
    vw_downloading w' = None /\
    let k := Z.of_nat (length (vw_downloadStreamChunks w)) in Progress k k false ∈ out.
Proof.
  revert w todo. induction n as [|n IH]; intros w todo Hw Hn; destruct (finishedChunk_missing w todo Hw) as (o & w1 & E & Ha & H).
  - destruct (missing w todo); [|done]. destruct H as (H1 & H2 & H3). exists (o ++ []), w1.
    cbn [download_all]. rewrite E. cbn [mbind outcome_bind]. split; [done|]. by rewrite app_nil_r.
  - destruct (missing w todo) as [|h rest] eqn:Em; [done|]. destruct H as (H1 & todo' & Hs & Hr).
    destruct (IH w1 todo' Hs) as (o2 & w2 & E2 & S2 & D2 & P2); [rewrite Hr; by injection Hn|].
    exists (o ++ o2), w2. cbn [download_all]. rewrite E. cbn [mbind outcome_bind].
    cbn [download_all] in E2. rewrite E2. split; [done|]. split_and!; [|done|].
    + unfold saved_downloads in *. rewrite omap_app, H1, S2, Hr. done.
    + destruct Ha as (_ & _ & Ha). rewrite <- Ha. cbv zeta in *. apply elem_of_app. by right.
Qed.

(** A viewer downloads a finished stream.  When its playlist is there, the chunks
    that it lists and that were not downloaded from the live stream are downloaded,
    one after the other and each once, and then the end is reported. *)
Lemma finished_stream_downloads text l w :
  is_Some (vw_liveStreamId w) -> downloadChunks text = Ret (true, l) ->
  exists out1 w1 out2 w2, playlistDownloaded text w = Ret (out1, w1) /\
    download_all (length (missing w l)) w1 = Ret (out2, w2) /\
    saved_downloads (out1 ++ out2) = missing w l /\ vw_downloading w2 = None /\
    Progress (Z.of_nat (length l)) (Z.of_nat (length l)) false ∈ out1 ++ out2.
Proof.
  intros Hid Hl. unfold playlistDownloaded. rewrite Hl. cbv zeta.
  cbn [mbind outcome_bind]. set (w0 := set_finished l (-1) (set_playlistHash None (set_loading None w))). assert (missing w0 l = missing w l) as Em by done.
  destruct (continue_missing l 0 w0 Hid) as (o & w1 & E & (A1 & A2 & A3) & H). rewrite E. rewrite Em in H.
  exists o, w1. destruct (missing w l) as [|h rest] eqn:Er.
  - destruct H as (H1 & H2 & H3). exists [], w1. cbn. rewrite app_nil_r. by split_and!; [..|rewrite H1|].
  - destruct H as (H1 & H2 & skip & todo & El & H4 & H5).
    destruct (download_all_missing (length rest) todo w1) as (o2 & w2 & E2 & S2 & D2 & P2).
    + split_and!; [by rewrite A1|done|]. exists skip, h. split; [by rewrite A3|]. rewrite H5. lia.
    + rewrite (alike_missing w0 w1) by done. by rewrite H4.
    + exists o2, w2. split; [done|]. split; [done|]. split_and!; [|done|].
      * unfold saved_downloads in *. rewrite omap_app, H2, S2, (alike_missing w0 w1), H4 by done. done.
      * apply elem_of_app. right. cbv zeta in P2. by rewrite A3 in P2.
Qed.

(** ** A concrete stream *)

Definition sampleSign (_ : Z * Z * Z * Z * Z) : Z := 1.
Definition sampleDuration (_ : string) : option Z := Some 2000.
Definition sampleMedia (hash : Z) : Media := mkMedia (Some 100) hash false true.
Definition sampleRecorder : string :=
  endl "#EXTM3U" +:+ endl "#EXT-X-MEDIA-SEQUENCE:0" +:+ endl "#EXTINF:0.002" +:+ endl "a.ts" +:+ endl "#EXTINF:0.002" +:+ endl "b.ts".

(** The first chunk is added, the second is found in the recorder's playlist. *)
Definition sampleAdded : list StreamerEvent :=
  [SvAddMedia (sampleMedia 10) 2000; SvGetChunkInfo (Some 0) 7; SvTick (fun _ => sampleMedia 20) sampleRecorder].
Definition sampleStart : Streamer := match initStream 5 [7; 8] newStreamer with Ret s => s | Stop _ => newStreamer end.
Definition sampleStreamer : Streamer :=
  match streamer_run sampleSign sampleDuration sampleAdded sampleStart with Ret p => p.2 | Stop _ => newStreamer end.
Definition sampleInfos : list FinishStreamChunkInfo := [mkFinishChunk 0 10 2000 100 true; mkFinishChunk 1 20 2000 100 true].
Definition sampleFinished : list StreamEvent := sampleEvents ++ [EvBackground None sampleDisk true sampleInfos; EvSession None].
Definition sampleVote : list StreamOutput * StreamData :=
  match strictRun sampleFinished with Ret p => p | Stop _ => ([], newStream ∅ sampleNodes) end.

Lemma sample_stream_chunks : streamChunks sampleStreamer = sampleChunks.
Proof. vm_compute. reflexivity. Qed.

Lemma sample_chunk_only info :
  Verify strictVerify 1 info = true -> 0 <= ch_chunkIndex info -> sampleChunks !! Z.to_nat (ch_chunkIndex info) = Some info.
Proof.
  intros Hv Hi. apply sample_signed; [|done..]. unfold Verify, strictVerify in Hv. apply andb_prop in Hv as [_ Hv].
  apply bool_decide_eq_true_1 in Hv. destruct info. cbn in *. by destruct Hv as [[= -> _]|[= -> _]].
Qed.

Lemma sample_signatures : signatures strictVerify sampleSign sampleRequest sampleChunks.
Proof.
  split.
  - intros c Hc. unfold sampleChunks in Hc. apply elem_of_cons in Hc as [->|Hc]; [|apply list_elem_of_singleton in Hc as ->];
      vm_compute; reflexivity.
  - intros info _ Hv Hi. eapply list_elem_of_lookup_2. by apply sample_chunk_only.
Qed.

Lemma stream_end_to_end_witness :
  (exists h, MyRootHashIsCalculated h ∈ sampleVote.1) /\ downloadChunks (finishPlaylist sampleInfos) = Ret (true, [10; 20]).
Proof.
  destruct (stream_end_to_end strictVerify sampleSign sampleDuration sampleRequest sampleDrive (two64 - 1) sampleTextHash sampleTreeHash
    [7; 8] sampleStart sampleAdded
    [AddTorrent 10; SendChunkInfo {[7; 8]} (sampleChunk 0 10); SendChunkInfo {[7]} (sampleChunk 0 10);
     AddTorrent 20; SendChunkInfo {[7; 8]} (sampleChunk 1 20)]
    sampleStreamer 0 (two64 - 1) (fun _ => None) (fun _ => Some 5) sampleInfos 10 (set_streamId None sampleStreamer)
    99 ∅ sampleNodes sampleFinished sampleVote.1 sampleVote.2) as (_ & H1 & _ & H2).
  - reflexivity.
  - vm_compute. reflexivity.
  - vm_compute. reflexivity.
  - vm_compute. reflexivity.
  - exact sample_signatures.
  - done.
  - exact sample_hashes.
  - repeat apply Forall_cons_2; try apply Forall_nil_2; by vm_compute.
  - exact sample_free.
  - apply wf_newFolder.
  - done.
  - repeat apply Forall_cons_2; try apply Forall_nil_2; try exact I; cbn; try (unfold two32; lia); try done.
    split_and!; [apply sample_fits|done|done].
  - intros eps c Hc. repeat (apply elem_of_cons in Hc as [Hc|Hc]; [try discriminate Hc; injection Hc as _ ->; apply list_elem_of_In; cbn; tauto|]).
    by apply not_elem_of_nil in Hc.
  - apply list_elem_of_In. cbn. tauto.
  - vm_compute. reflexivity.
  - intros []; vm_compute; reflexivity.
  - split; [exact H1|exact H2].
Defined.

Definition sampleViewer0 : Viewer :=
  match startWatchingLiveStream 5 1 [3; 4; 6; 9] newViewer with Ret w => w | Stop _ => newViewer end.
Definition sampleReply : ViewerEvent := VwChunksReply (Chunks 0 2 sampleChunks).
Definition viewerAfter (evs : list ViewerEvent) : Viewer :=
  foldl (fun w ev => match viewer_step strictVerify ev w with Ret p => p.2 | Stop _ => w end) sampleViewer0 evs.

Lemma sample_index i c : sampleChunks !! i = Some c -> ch_chunkIndex c = Z.of_nat i.
Proof. destruct i as [|[|i]]; intros E; [injection E as <-..|discriminate E]; done. Qed.

Lemma sample_viewer_run :
  viewer_run strictVerify ([DownloadChunk 10] ++ []) sampleViewer0 (viewerAfter [sampleReply]).
Proof.
  apply (viewer_next strictVerify sampleReply _ _ (viewerAfter [sampleReply])); [|vm_compute; reflexivity|apply viewer_done].
  repeat apply Forall_cons_2; try apply Forall_nil_2; cbn; lia.
Qed.

Lemma viewer_in_order_witness :
  exists text o w', viewer_step strictVerify VwChunkDownloaded (viewerAfter [sampleReply]) = Ret (WritePlaylist text :: o, w') /\
    downloadChunks text = Ret (true, [10]).
Proof.
  destruct (viewer_in_order strictVerify sampleChunks 5 1 sample_index ltac:(done) sample_chunk_only [3; 4; 6; 9]
              sampleViewer0 ([DownloadChunk 10] ++ []) (viewerAfter [sampleReply])) as (_ & _ & _ & _ & H); [|done|reflexivity|exact sample_viewer_run|].
  - repeat apply Forall_cons_2; try apply Forall_nil_2; by vm_compute.
  - apply H. vm_compute. reflexivity.
Defined.

Lemma viewer_catches_up_witness :
  exists out w', viewer_rounds strictVerify 5 sampleRequest 2 sampleVote.2 ∅ (viewerAfter [sampleReply]) = Ret (out, w') /\
    vc_info <$> vw_chunkInfoList w' = sampleChunks.
Proof.
  apply (viewer_catches_up strictVerify sampleChunks 5 1 sample_index ltac:(done) sample_chunk_only sampleRequest eq_refl) with
    (reps := [3; 4; 6; 9]) (w0 := sampleViewer0) (out0 := [DownloadChunk 10] ++ []).
  - intros c Hc. unfold sampleChunks in Hc. apply elem_of_cons in Hc as [->|Hc]; [|apply list_elem_of_singleton in Hc as ->];
      vm_compute; reflexivity.
  - vm_compute. reflexivity.
  - reflexivity.
  - exact sample_viewer_run.
Defined.

(** Four replicators give four answers. *)
Definition sampleVotes : list ViewerEvent := map (fun e => VwPlaylistHash e 5 77) [103; 104; 106].

Lemma playlist_by_majority_witness :
  exists w', onPlaylistHash 109 5 77 (viewerAfter sampleVotes) = Ret (true, w') /\ vw_downloadStreamPlaylist w' = Some 77.
Proof.
  destruct (onPlaylistHash 109 5 77 (viewerAfter sampleVotes)) as [[b w']|] eqn:E; [|vm_compute in E; discriminate E].
  assert (b = true) as -> by (vm_compute in E; by injection E).
  destruct (playlist_by_majority _ _ _ _ _ E) as (winner & voters & H1 & _). exists w'. split; [reflexivity|].
  rewrite H1. vm_compute in E. injection E as <-. vm_compute in H1. by rewrite H1.
Defined.

Lemma finished_stream_downloads_witness :
  exists out1 w1 out2 w2, playlistDownloaded (finishPlaylist sampleInfos) sampleViewer0 = Ret (out1, w1) /\
    download_all 2 w1 = Ret (out2, w2) /\ saved_downloads (out1 ++ out2) = [10; 20].
Proof.
  destruct (finished_stream_downloads (finishPlaylist sampleInfos) [10; 20] sampleViewer0) as (out1 & w1 & out2 & w2 & E1 & E2 & E3 & _).
  - by exists 5.
  - vm_compute. reflexivity.
  - exists out1, w1, out2, w2. split; [exact E1|]. split; [exact E2|exact E3].
Defined.

(** ** Where the code does not do what it means to *)

(** Three replicators cannot agree on a playlist: four answers are needed. *)
Example three_replicators_never_agree :
  let w := match startWatchingLiveStream 5 1 [3; 4; 6] newViewer with Ret w => w | Stop _ => newViewer end in
  let w1 := foldl (fun w e => match onPlaylistHash e 5 77 w with Ret p => p.2 | Stop _ => w end) w [103; 104] in
  fst <$> (match onPlaylistHash 106 5 77 w1 with Ret p => Some p | Stop _ => None end) = Some false.
Proof. vm_compute. reflexivity. Qed.

(** The chunk of an older stream of the same streamer is taken for one of this stream. *)
Example another_stream_is_accepted :
  let old := mkChunkInfo 4 0 66 2000 100 1 in
  (vc_info <$> vw_chunkInfoList (addChunkInfo sampleVerify old sampleViewer0).2) = [old].
Proof. vm_compute. reflexivity. Qed.

(** A reply that comes after [endWatching] uses the stream's id, which is not set. *)
Example reply_after_the_end :
  onChunksReply strictVerify (Chunks 0 2 sampleChunks) (endWatching sampleViewer0) = Stop UndefinedBehaviour.
Proof. vm_compute. reflexivity. Qed.

(** A second stream of a session begins with the index after the first one's last,
    and its finish fails an assertion. *)
Example second_stream_asserts :
  (s ← initStream 6 [7] (set_streamId None sampleStreamer);
   '(_, s1) ← addMediaToStream sampleSign (sampleMedia 30) 2000 s;
   finishStream 0 (two64 - 1) (fun _ => None) (fun _ => None) s1) = Stop AssertFailure.
Proof. vm_compute. reflexivity. Qed.

(** The recorder's playlist moves on and a chunk was missed: what is found is added
    under the next index, not found there again, and added anew with every tick. *)
Example missed_chunk_is_added_again :
  let moved := endl "#EXTM3U" +:+ endl "#EXT-X-MEDIA-SEQUENCE:5" +:+ endl "#EXTINF:0.002" +:+ endl "f.ts" in
  let tick s := match onTick sampleSign sampleDuration (fun _ => sampleMedia 60) moved s with Ret p => p.2 | Stop _ => s end in
  map ch_chunkInfoHash (streamChunks (tick (tick sampleStreamer))) = [10; 20; 60; 60].
Proof. vm_compute. reflexivity. Qed.

(** The fraction of a duration is another chunk's. *)
Example fraction_of_another_chunk :
  let chunk i d := mkViewerChunk (mkChunkInfo 5 i (10 + i) d 100 1) 0 true in
  viewerPlaylist 1 1 [chunk 0 1000007; chunk 1 2000000] =
  printPlaylist 2 1 [mkEntry 2 7 11].
Proof. vm_compute. reflexivity. Qed.

(** An archive that announces three chunks and ends after two: the two are added, and
    no download is started. *)
Example broken_reply_is_added :
  match onChunksReply strictVerify (Chunks 0 3 sampleChunks) sampleViewer0 with
  | Ret (out, w) => out = [] /\ vc_info <$> vw_chunkInfoList w = sampleChunks
  | Stop _ => False
  end.
Proof. vm_compute. by split. Qed.
