(* ===== verification/ClientSession.v ===== *)
(** * The session of a client ([include/drive/ClientSession.h])

    Two parts of the client: what it counts and signs for the replicators it
    downloads from, and how it turns a list of actions into torrents for the
    replicators of a drive.

    - [m_downloadChannelMap] is a map of maps; [operator\[\]] inserts a missing entry.
    - Of the disk the model has the folder of the torrents ([workFolder]), whose
      entries are files or links, and what stands under the other names
      ([local]), which the client only reads.
    - [createTorrentFile] is a function of the drive key and the contents: the hash
      does not depend on the name of the file, as the code asserts itself.
    - [std::error_code] is set by [fails]; the function then returns no hash. *)

From S2P Require Import Prelude OrderedMap FsPath RcptMessage ActionList ModifyDrive.

(** ** Download channels *)

Record DownloadChannel := mkDownloadChannel {
  m_downloadReplicatorList : list Z;
  cl_requestedSize : gmap Z Z;
  cl_receivedSize : gmap Z Z }.

Definition noChannel : DownloadChannel := mkDownloadChannel [] ∅ ∅.

Abbreviation DownloadChannelMap := (gmap Z DownloadChannel).

(** [m_downloadChannelMap\[id\]] and the sizes of a peer. *)
Definition channel_at (id : Z) (m : DownloadChannelMap) : DownloadChannel := default noChannel (m !! id).
Definition size_at (peer : Z) (sizes : gmap Z Z) : Z := default 0 (sizes !! peer).

Definition set_requested (peer v : Z) (ch : DownloadChannel) : DownloadChannel :=
  mkDownloadChannel (m_downloadReplicatorList ch) (<[peer := v]> (cl_requestedSize ch)) (cl_receivedSize ch).
Definition set_received (peer v : Z) (ch : DownloadChannel) : DownloadChannel :=
  mkDownloadChannel (m_downloadReplicatorList ch) (cl_requestedSize ch) (<[peer := v]> (cl_receivedSize ch)).

Definition addDownloadChannel (downloadChannelId : Z) (m : DownloadChannelMap) : DownloadChannelMap :=
  match m !! downloadChannelId with
  | Some _ => m
  | None => <[downloadChannelId := noChannel]> m
  end.

Definition setDownloadChannelReplicators (downloadChannelId : Z) (replicators : list Z) (m : DownloadChannelMap)
    : DownloadChannelMap :=
  match m !! downloadChannelId with
  | None => m
  | Some ch =>
      <[downloadChannelId := mkDownloadChannel replicators (cl_requestedSize ch) (cl_receivedSize ch)]> m
  end.

Definition onPieceRequestWrite (transactionHash senderPublicKey pieceSize : Z) (m : DownloadChannelMap)
    : DownloadChannelMap :=
  match m !! transactionHash with
  | None => m
  | Some ch =>
      <[transactionHash :=
          set_requested senderPublicKey (u64_add (size_at senderPublicKey (cl_requestedSize ch)) pieceSize) ch]> m
  end.

Definition onPieceReceived (transactionHash senderPublicKey pieceSize : Z) (m : DownloadChannelMap)
    : DownloadChannelMap :=
  match m !! transactionHash with
  | None => m
  | Some ch =>
      <[transactionHash :=
          set_received senderPublicKey (u64_add (size_at senderPublicKey (cl_receivedSize ch)) pieceSize) ch]> m
  end.

(** The two readers insert what is missing. *)
Definition requestedSize (transactionHash peerPublicKey : Z) (m : DownloadChannelMap) : Z * DownloadChannelMap :=
  let ch := channel_at transactionHash m in
  let v := size_at peerPublicKey (cl_requestedSize ch) in
  (v, <[transactionHash := set_requested peerPublicKey v ch]> m).

Definition receivedSize (transactionHash peerPublicKey : Z) (m : DownloadChannelMap) : Z * DownloadChannelMap :=
  let ch := channel_at transactionHash m in
  let v := size_at peerPublicKey (cl_receivedSize ch) in
  (v, <[transactionHash := set_received peerPublicKey v ch]> m).

Section Receipts.
  (** The key of the client, and [crypto::Sign], [crypto::Verify]. *)
  Context (publicKey : Z) (sign : list Z -> Z) (verify : Z -> list Z -> Z -> bool).

(** What a receipt is signed over. *)
Definition receiptBytes (downloadChannelId replicatorPublicKey downloadedSize : Z) : list Z :=
  be_bytes 32 downloadChannelId ++ be_bytes 32 publicKey ++ be_bytes 32 replicatorPublicKey ++
  le_bytes 8 downloadedSize.

Definition signReceipt (downloadChannelId replicatorPublicKey downloadedSize : Z) : Z :=
  sign (receiptBytes downloadChannelId replicatorPublicKey downloadedSize).

(** The last receipt that a replicator keeps, sent when a client connects. *)
Definition onLastMyReceipt (msg : RcptMessage) (channelId : option Z) (m : DownloadChannelMap)
    : Outcome DownloadChannelMap :=
  if negb (isValidSize msg) then Ret m
  else
    match channelId with
    | None => Stop AssertFailure
    | Some id =>
        if negb (msg_channelId msg =? id) then Ret m
        else if negb (verify publicKey (msg_signed msg) (msg_signature msg)) then Ret m
        else
          let '(requested, m1) := requestedSize (msg_channelId msg) (msg_replicatorKey msg) m in
          let ch := channel_at (msg_channelId msg) m1 in
          let ch1 := if requested <? msg_downloadedSize msg
                     then set_requested (msg_replicatorKey msg) (msg_downloadedSize msg) ch else ch in
          Ret (<[msg_channelId msg := set_received (msg_replicatorKey msg) 0 ch1]> m1)
    end.

End Receipts.

(** ** The local disk *)

(** The contents of a file: data of a user, or a list of actions. *)
Inductive Content := FileData (data : Z) | ListData (file : nat * list Field).

Inductive LocalStat := NotFound | LocalDir | LocalFile (c : Content).

(** An entry of [workFolder]: a file, or a link to a path. *)
Inductive SandboxEntry := Written (c : Content) | Link (target : string).

Abbreviation ClientFolder := (gmap string SandboxEntry).

(** The calls that can set [ec]. *)
Inductive FsCall :=
  | CreateDirectories
  | Exists (name : string)
  | IsDirectory (name : string)
  | Remove (name : string)
  | CreateSymlink (name : string)
  | Absolute (name : string)
  | FileSize
  | Rename.

(** A torrent of the session: its hash, the name of its file in [workFolder], and
    the contents that it serves. *)
Record Handle := mkHandle { h_infoHash : Z; h_name : string; h_content : Content }.

Record ModifyTorrentInfo := mkModifyTorrentInfo { m_ltHandle : Handle; mt_isUsed : bool }.

(** What the session is asked for. *)
Inductive ClientOutput :=
  | AddTorrent (infoHash driveKey modifyTx : Z)
  | RemoveTorrents (torrents : list Handle)
  | CopyLocalFile (name saveAs : string)          (* and the notification that it is complete *)
  | SessionDownload (infoHash channelId : Z) (saveAs : string) (replicators : list Z).

Record ClientState := mkClient {
  cl_sandbox : ClientFolder;
  m_modifyTorrentMap : gmap Z ModifyTorrentInfo;
  m_downloadChannelMap : DownloadChannelMap }.

Definition set_clientFolder (v : ClientFolder) (s : ClientState) : ClientState :=
  mkClient v (m_modifyTorrentMap s) (m_downloadChannelMap s).
Definition set_modifyTorrents (v : gmap Z ModifyTorrentInfo) (s : ClientState) : ClientState :=
  mkClient (cl_sandbox s) v (m_downloadChannelMap s).

Section Disk.
  (** The current directory and the folder of the torrents (absolute), and what
      stands under an absolute name. *)
  Context (cwd workFolder : string) (local : string -> LocalStat).

Definition localStat (name : string) : LocalStat := local (absolute cwd name).

(** A relative link is resolved in the folder it is in. *)
Definition entryStat (e : option SandboxEntry) : LocalStat :=
  match e with
  | None => NotFound
  | Some (Written c) => LocalFile c
  | Some (Link target) => local (absolute workFolder target)
  end.

Definition sandboxStat (name : string) (s : ClientFolder) : LocalStat := entryStat (s !! name).

Definition stat_exists (st : LocalStat) : bool := match st with NotFound => false | _ => true end.
Definition stat_isDirectory (st : LocalStat) : bool := match st with LocalDir => true | _ => false end.

Section Actions.
  Context (torrentHash : Z -> Content -> Z) (totalSize : Content -> Z) (drivePublicKey : Z)
    (fails : FsCall -> bool).

(** A file that cannot be read has no hash. *)
Definition createTorrentFile (st : LocalStat) : Z :=
  match st with LocalFile c => torrentHash drivePublicKey c | _ => 0 end.

(** The check of a [move]; [None] when it returns without a hash. *)
Definition checkMove (action : Action) : bool :=
  negb (fails (Absolute (m_param1 action))) && negb (fails (Absolute (m_param2 action))) &&
  negb (isPathInsideFolder cwd (m_param1 action) (m_param2 action)).

(** The link of an uploaded file, unless its torrent is in the session. *)
Definition linkFile (pathToFile name : string) (s : ClientFolder) : option ClientFolder :=
  if fails (Exists name) then None
  else if stat_exists (sandboxStat name s) then Some s
  else if fails (Remove name) then None
  else if fails (CreateSymlink name) then None
  else Some (<[name := Link pathToFile]> (delete name s)).

(** The branch of an upload in the first loop: the action as it is sent. *)
Definition prepareUpload (action : Action) (s : ClientState) : option (Action * ClientState) :=
  let pathToFile := m_param1 action in
  if fails (Exists pathToFile) then None
  else if negb (stat_exists (localStat pathToFile)) then None
  else if fails (IsDirectory pathToFile) then None
  else if stat_isDirectory (localStat pathToFile) then None
  else
    let infoHash := createTorrentFile (localStat pathToFile) in
    let name := hashToFileName infoHash in
    sandbox ← match m_modifyTorrentMap s !! infoHash with
              | Some _ => Some (cl_sandbox s)
              | None => linkFile pathToFile name (cl_sandbox s)
              end;
    Some (mkAction upload name (m_param2 action)
            (FsPath.filename (path_of_string pathToFile)) (m_isInvalid action),
          set_clientFolder sandbox s).

(** The first loop.  With an error the list is dropped, and what was done stays. *)
Fixpoint prepareActions (actionList : list Action) (s : ClientState) : option (list Action) * ClientState :=
  match actionList with
  | [] => (Some [], s)
  | action :: rest =>
      let prepared := match m_actionId action with
                      | upload => prepareUpload action s
                      | move => if checkMove action then Some (action, s) else None
                      | _ => Some (action, s)
                      end in
      match prepared with
      | None => (None, s)
      | Some (action', s1) =>
          let '(r, s2) := prepareActions rest s1 in ((fun l => action' :: l) <$> r, s2)
      end
  end.

(** A torrent is made of a file of [workFolder] and added to the session. *)
Definition addModifyTorrent (infoHash infoHash0 : Z) (name : string) (s : ClientState)
    : list ClientOutput * Z * ClientState :=
  match sandboxStat name (cl_sandbox s) with
  | LocalFile c =>
      ([AddTorrent infoHash infoHash0 drivePublicKey], totalSize c,
       set_modifyTorrents
         (<[infoHash := mkModifyTorrentInfo (mkHandle infoHash name c) false]> (m_modifyTorrentMap s)) s)
  | _ => ([], 0, s)
  end.

(** The second loop: the torrents of the files, whether it reached the end of the
    list, and the sizes. *)
Fixpoint addFileTorrents (infoHash0 : Z) (actionList : list Action) (total : Z) (s : ClientState)
    : Outcome (list ClientOutput * bool * Z * ClientState) :=
  match actionList with
  | [] => Ret ([], true, total, s)
  | action :: rest =>
      match m_actionId action with
      | upload =>
          match stringToByteArray (m_param1 action) with
          | None => Stop ThrownException
          | Some infoHash =>
              match m_modifyTorrentMap s !! infoHash with
              | Some _ => addFileTorrents infoHash0 rest total s
              | None =>
                  let infoHash2 := createTorrentFile (sandboxStat (m_param1 action) (cl_sandbox s)) in
                  guard_assert (infoHash =? infoHash2)
                    (let '(out, size, s1) := addModifyTorrent infoHash2 infoHash0 (m_param1 action) s in
                     '(outs, ok, total2, s2) ← addFileTorrents infoHash0 rest (u64_add total size) s1;
                     Ret (out ++ outs, ok, total2, s2))
              end
          end
      | move => if checkMove action then addFileTorrents infoHash0 rest total s else Ret ([], false, total, s)
      | _ => addFileTorrents infoHash0 rest total s
      end
  end.

Definition actionListName : string := "actionList.bin".

Record AddedList := mkAddedList {
  al_hash : Z;                 (* zero: the function returned without a hash *)
  al_totalModifySize : Z;
  al_outputs : list ClientOutput;
  al_client : ClientState }.

(** [addActionListToSession].  The result of [fs::file_size] is compared with zero
    before it is stored: the size of the list counts as one byte. *)
Definition addActionListToSession (actionList : list Action) (outTotal : Z) (s : ClientState) : Outcome AddedList :=
  let failed total out s := Ret (mkAddedList 0 total out s) in
  if fails CreateDirectories then failed outTotal [] s
  else
    let '(prepared, s1) := prepareActions actionList s in
    match prepared with
    | None => failed 0 [] s1
    | Some newActionList =>
        let content := ListData (actionList_serialize newActionList) in
        let s2 := set_clientFolder (<[actionListName := Written content]> (cl_sandbox s1)) s1 in
        if fails (Exists actionListName) then failed 0 [] s2
        else if fails FileSize then failed 0 [] s2
        else
          let total := 1 in
          let infoHash0 := torrentHash drivePublicKey content in
          let continue out total s :=
            '(outs, ok, total', s') ← addFileTorrents infoHash0 newActionList total s;
            Ret (mkAddedList (if ok : bool then infoHash0 else 0) total' (out ++ outs) s') in
          match m_modifyTorrentMap s2 !! infoHash0 with
          | Some _ => continue [] total s2
          | None =>
              if fails Rename then failed total [] s2
              else
                let name := hashToFileName infoHash0 in
                let s3 := set_clientFolder (<[name := Written content]> (delete actionListName (cl_sandbox s2))) s2 in
                let '(out, size, s4) := addModifyTorrent infoHash0 infoHash0 name s3 in
                continue out (u64_add total size) s4
          end
    end.

End Actions.

(** ** Downloads and the end *)

(** The replicators of the channel and those given, each of the latter twice when
    it is new: the loop adds it, and then all are appended. *)
Definition mergeReplicators (channelList replicatorList : list Z) : list Z :=
  foldl (fun l key => if decide (key ∈ l) then l else l ++ [key]) channelList replicatorList ++ replicatorList.

(** [download]; [copied] is whether [fs::copy] succeeds. *)
Definition download (infoHash downloadChannelId : Z) (saveAs : string) (copied : bool) (replicatorList : list Z)
    (s : ClientState) : Outcome (list ClientOutput) :=
  match m_downloadChannelMap s !! downloadChannelId with
  | None => Stop ThrownException
  | Some ch =>
      let start := [SessionDownload infoHash downloadChannelId saveAs
                      (mergeReplicators (m_downloadReplicatorList ch) replicatorList)] in
      match m_modifyTorrentMap s !! infoHash with
      | None => Ret start
      | Some info =>
          let name := h_name (m_ltHandle info) in
          match sandboxStat name (cl_sandbox s) with
          | LocalFile _ => Ret (if copied then [CopyLocalFile name saveAs] else start)
          | _ => Ret start
          end
      end
  end.

End Disk.

(** [removeTorrents()] and [removeTorrents( hashes )]. *)
Definition removeAllTorrents (s : ClientState) : list ClientOutput * ClientState :=
  ([RemoveTorrents (m_ltHandle <$> sorted_values (m_modifyTorrentMap s))], set_modifyTorrents ∅ s).

Fixpoint takeTorrents (hashes : list Z) (m : gmap Z ModifyTorrentInfo) : list Handle * gmap Z ModifyTorrentInfo :=
  match hashes with
  | [] => ([], m)
  | h :: hashes' =>
      match m !! h with
      | Some info => let '(l, m') := takeTorrents hashes' (delete h m) in (m_ltHandle info :: l, m')
      | None => takeTorrents hashes' m
      end
  end.

Definition removeTorrents (hashes : list Z) (s : ClientState) : list ClientOutput * ClientState :=
  let '(torrents, m) := takeTorrents hashes (m_modifyTorrentMap s) in
  ([RemoveTorrents torrents], set_modifyTorrents m s).

(** [getTorrentHandleHashes]. *)
Definition getTorrentHandleHashes (s : ClientState) : list Z := sorted_keys (m_modifyTorrentMap s).
