(* ===== verification/ClientSessionSpec.v ===== *)
(** * Properties of the session of a client

    The receipts: a client never signs for more than it asked for, whatever the
    replicators send it, and after a reconnection it goes on from the last receipt.
    The action lists: what a client sends is understood by the replicators of the
    drive, and everything the list names is served by the client. *)

From S2P Require Import Prelude OrderedMap FsPath RcptMessage DownloadChannels DownloadChannelsSpec ActionList ModifyDrive ClientSession.

(** ** The counters *)

Definition requested_of (m : DownloadChannelMap) (ch rk : Z) : Z := size_at rk (cl_requestedSize (channel_at ch m)).
Definition received_of (m : DownloadChannelMap) (ch rk : Z) : Z := size_at rk (cl_receivedSize (channel_at ch m)).

Lemma channel_at_insert id id' ch (m : DownloadChannelMap) :
  channel_at id' (<[id := ch]> m) = if decide (id' = id) then ch else channel_at id' m.
Proof. unfold channel_at. case_decide; by simplify_map_eq. Qed.

Lemma size_at_insert k k' v sizes : size_at k' (<[k := v]> sizes) = if decide (k' = k) then v else size_at k' sizes.
Proof. unfold size_at. case_decide; by simplify_map_eq. Qed.

Ltac counters :=
  repeat intro; unfold requested_of, received_of in *;
  repeat (progress (rewrite ?channel_at_insert, ?size_at_insert; cbn; try case_decide; destruct_and?; subst));
  try done; try tauto.

Lemma channel_at_Some id ch (m : DownloadChannelMap) : m !! id = Some ch -> channel_at id m = ch.
Proof. unfold channel_at. by intros ->. Qed.

Lemma requested_addDownloadChannel id m ch rk : requested_of (addDownloadChannel id m) ch rk = requested_of m ch rk.
Proof.
  unfold addDownloadChannel. destruct (m !! id) eqn:E; [done|]. counters. unfold channel_at. by rewrite E.
Qed.

Lemma requested_setReplicators id l m ch rk :
  requested_of (setDownloadChannelReplicators id l m) ch rk = requested_of m ch rk.
Proof.
  unfold setDownloadChannelReplicators. destruct (m !! id) eqn:E; [|done].
  counters. by rewrite (channel_at_Some _ _ _ E).
Qed.

Lemma requested_onPieceReceived tx peer n m ch rk :
  requested_of (ClientSession.onPieceReceived tx peer n m) ch rk = requested_of m ch rk.
Proof.
  unfold ClientSession.onPieceReceived. destruct (m !! tx) eqn:E; [|done].
  counters. by rewrite (channel_at_Some _ _ _ E).
Qed.

Lemma requested_onPieceRequestWrite tx peer n m ch rk :
  requested_of (onPieceRequestWrite tx peer n m) ch rk =
  if decide (is_Some (m !! tx) /\ ch = tx /\ rk = peer) then u64_add (requested_of m ch rk) n
  else requested_of m ch rk.
Proof.
  unfold onPieceRequestWrite. destruct (m !! tx) eqn:E.
  - rewrite <- (channel_at_Some _ _ _ E). counters; naive_solver.
  - rewrite decide_False by (intros ([? ?] & _); done). done.
Qed.

Lemma requestedSize_value tx peer m : (requestedSize tx peer m).1 = requested_of m tx peer.
Proof. done. Qed.

Lemma requestedSize_requested tx peer m ch rk : requested_of (requestedSize tx peer m).2 ch rk = requested_of m ch rk.
Proof. unfold requestedSize. counters. Qed.

Lemma requestedSize_received tx peer m ch rk : received_of (requestedSize tx peer m).2 ch rk = received_of m ch rk.
Proof. unfold requestedSize. counters. Qed.

(** ** The last receipt *)

Section Receipts.
  Context (publicKey : Z) (verify : Z -> list Z -> Z -> bool).

(** A message that the client takes as its last receipt of a channel. *)
Definition own_receipt (msg : RcptMessage) (id : Z) : bool :=
  isValidSize msg && (msg_channelId msg =? id) && verify publicKey (msg_signed msg) (msg_signature msg).

(** It raises the counter of its replicator to its size and clears what was
    received; anything else is ignored. *)
Lemma onLastMyReceipt_spec msg id m :
  exists m', onLastMyReceipt publicKey verify msg (Some id) m = Ret m' /\
  if own_receipt msg id then
    (forall ch rk, requested_of m' ch rk =
       if decide (ch = id /\ rk = msg_replicatorKey msg)
       then Z.max (requested_of m ch rk) (msg_downloadedSize msg) else requested_of m ch rk) /\
    (forall ch rk, received_of m' ch rk =
       if decide (ch = id /\ rk = msg_replicatorKey msg) then 0 else received_of m ch rk)
  else m' = m.
Proof.
  unfold onLastMyReceipt, own_receipt.
  destruct (isValidSize msg); cbn [negb andb]; [|by eexists].
  destruct (Z.eqb_spec (msg_channelId msg) id) as [->|Hne]; cbn [negb andb]; [|by eexists].
  destruct (verify publicKey (msg_signed msg) (msg_signature msg)); cbn [negb]; [|by eexists].
  pose proof (requestedSize_value id (msg_replicatorKey msg) m) as Ev.
  pose proof (requestedSize_requested id (msg_replicatorKey msg) m) as Eq.
  pose proof (requestedSize_received id (msg_replicatorKey msg) m) as Er.
  destruct (requestedSize id (msg_replicatorKey msg) m) as [v m1]. cbn [fst snd] in *. subst v.
  eexists. split; [done|]. split; intros ch rk; rewrite <- ?Eq, <- ?Er.
  - destruct (Z.ltb_spec (requested_of m1 id (msg_replicatorKey msg)) (msg_downloadedSize msg)); counters; lia.
  - destruct (_ <? _); counters.
Qed.

(** ** What the client signs *)

(** The client and, besides, how much it asked each replicator for and what it
    signed, over all its lives. *)
Record Paying := mkPaying {
  py_channels : DownloadChannelMap;
  py_asked : gmap (Z * Z) Z;
  py_signed : list (list Z) }.

Definition asked_of (s : Paying) (ch rk : Z) : Z := default 0 (py_asked s !! (ch, rk)).

Definition with_channels (v : DownloadChannelMap) (s : Paying) : Paying := mkPaying v (py_asked s) (py_signed s).

(** The calls of the session.  A last receipt is any message; what was not signed
    by the client has no valid signature of it. *)
Inductive paying_step : Paying -> Paying -> Prop :=
  | pay_add s id : paying_step s (with_channels (addDownloadChannel id (py_channels s)) s)
  | pay_replicators s id l : paying_step s (with_channels (setDownloadChannelReplicators id l (py_channels s)) s)
  | pay_request s ch rk n :
      0 <= n ->
      paying_step s (mkPaying (onPieceRequestWrite ch rk n (py_channels s))
                       (<[(ch, rk) := asked_of s ch rk + n]> (py_asked s)) (py_signed s))
  | pay_received s ch rk n : paying_step s (with_channels (ClientSession.onPieceReceived ch rk n (py_channels s)) s)
  | pay_sign s ch rk :
      is_key ch -> is_key rk ->
      paying_step s
        (mkPaying (requestedSize ch rk (py_channels s)).2 (py_asked s)
           (receiptBytes publicKey ch rk (requestedSize ch rk (py_channels s)).1 :: py_signed s))
  | pay_last s msg id m' :
      is_bytes msg ->
      (verify publicKey (msg_signed msg) (msg_signature msg) = true -> msg_signed msg ∈ py_signed s) ->
      onLastMyReceipt publicKey verify msg (Some id) (py_channels s) = Ret m' ->
      paying_step s (with_channels m' s)
  | pay_restart s : paying_step s (with_channels ∅ s).

(** Signed bytes name a channel, a replicator and a size. *)
Definition signed_size (s : Paying) (b : list Z) : Prop := exists ch rk size,
  is_key ch /\ is_key rk /\ is_u64 size /\ b = receiptBytes publicKey ch rk size /\ size <= asked_of s ch rk.

Record paying_inv (s : Paying) : Prop := {
  pi_requested ch rk : is_u64 (requested_of (py_channels s) ch rk);
  pi_asked ch rk : requested_of (py_channels s) ch rk <= asked_of s ch rk;
  pi_signed : Forall (signed_size s) (py_signed s) }.

Lemma slice_same off len (a b : list Z) : a = b -> slice off len a = slice off len b.
Proof. by intros ->. Qed.

Lemma length_slice off len (msg : list Z) : (off + len <= length msg)%nat -> length (slice off len msg) = len.
Proof. intros. unfold slice. rewrite length_take, length_drop. lia. Qed.

(** A message of the right size whose signed bytes are those of a receipt has its
    fields. *)
Lemma signed_fields msg ch rk size :
  isValidSize msg = true -> is_key ch -> is_key rk -> is_u64 size ->
  msg_signed msg = receiptBytes publicKey ch rk size ->
  msg_channelId msg = ch /\ msg_replicatorKey msg = rk /\ msg_downloadedSize msg = size.
Proof.
  intros Hv Hch Hrk Hs E. unfold isValidSize in Hv. apply Nat.eqb_eq in Hv. cbn in Hv.
  unfold msg_signed, receiptBytes in E.
  apply app_inj_1 in E as [E1 E]; [|rewrite length_be_bytes; apply length_slice; lia].
  apply app_inj_1 in E as [E2 E]; [|rewrite length_be_bytes; apply length_slice; lia].
  apply app_inj_1 in E as [E3 E4]; [|rewrite length_be_bytes; apply length_slice; lia].
  unfold msg_channelId, msg_replicatorKey, msg_downloadedSize.
  rewrite E1, E3, !of_be_bytes by done. split_and!; try done.
  destruct msg; [done|]. rewrite E4. by apply of_le_bytes.
Qed.

Lemma signed_size_more s s' b :
  (forall ch rk, asked_of s ch rk <= asked_of s' ch rk) -> signed_size s b -> signed_size s' b.
Proof.
  intros Hle (ch & rk & size & ? & ? & ? & ? & Hs). exists ch, rk, size. specialize (Hle ch rk). split_and!; try done. lia.
Qed.

(** A step that keeps the counters, what was asked and what was signed. *)
Lemma paying_inv_keep s m :
  (forall ch rk, requested_of m ch rk = requested_of (py_channels s) ch rk) ->
  paying_inv s -> paying_inv (with_channels m s).
Proof. intros E [H1 H2 H3]. split; [intros ch rk; cbn; by rewrite E ..|exact H3]. Qed.

Lemma u64_add_le a b : 0 <= a -> 0 <= b -> 0 <= u64_add a b <= a + b.
Proof. intros. unfold u64_add. apply u64_le. lia. Qed.

Lemma pay_request_inv s ch rk n :
  0 <= n -> paying_inv s ->
  paying_inv (mkPaying (onPieceRequestWrite ch rk n (py_channels s))
                (<[(ch, rk) := asked_of s ch rk + n]> (py_asked s)) (py_signed s)).
Proof.
  intros Hn [H1 H2 H3].
  set (s' := mkPaying _ _ _).
  assert (forall ch' rk', asked_of s' ch' rk' = asked_of s ch' rk' + (if decide ((ch', rk') = (ch, rk)) then n else 0)) as Ha.
  { intros ch' rk'. unfold s', asked_of. cbn. destruct (decide ((ch', rk') = (ch, rk))) as [E|E].
    - injection E as -> ->. by rewrite lookup_insert_eq.
    - rewrite lookup_insert_ne by congruence. fold (asked_of s ch' rk'). lia. }
  split.
  - intros ch' rk'. cbn. rewrite requested_onPieceRequestWrite. case_decide; [apply u64_range|apply H1].
  - intros ch' rk'. rewrite Ha. cbn. rewrite requested_onPieceRequestWrite. specialize (H2 ch' rk').
    specialize (H1 ch' rk') as [? _]. case_decide as Hd.
    + destruct Hd as (_ & -> & ->). rewrite decide_True by done.
      pose proof (u64_add_le (requested_of (py_channels s) ch rk) n ltac:(lia) Hn). lia.
    + case_decide; lia.
  - eapply Forall_impl; [exact H3|]. intros b. apply signed_size_more. intros. rewrite Ha. case_decide; lia.
Qed.

Lemma pay_sign_inv s ch rk :
  is_key ch -> is_key rk -> paying_inv s ->
  paying_inv (mkPaying (requestedSize ch rk (py_channels s)).2 (py_asked s)
                (receiptBytes publicKey ch rk (requestedSize ch rk (py_channels s)).1 :: py_signed s)).
Proof.
  intros Hch Hrk [H1 H2 H3]. split.
  - intros ch' rk'. cbn [py_channels]. rewrite requestedSize_requested. apply H1.
  - intros ch' rk'. cbn [py_channels]. rewrite requestedSize_requested. apply H2.
  - cbn [py_signed]. constructor; [|exact H3]. exists ch, rk, (requested_of (py_channels s) ch rk).
    exact (conj Hch (conj Hrk (conj (H1 ch rk) (conj eq_refl (H2 ch rk))))).
Qed.

Lemma pay_last_inv s msg id m' :
  is_bytes msg ->
  (verify publicKey (msg_signed msg) (msg_signature msg) = true -> msg_signed msg ∈ py_signed s) ->
  onLastMyReceipt publicKey verify msg (Some id) (py_channels s) = Ret m' ->
  paying_inv s -> paying_inv (with_channels m' s).
Proof.
  intros Hb Hunf E [H1 H2 H3]. destruct (onLastMyReceipt_spec msg id (py_channels s)) as (m0 & E0 & Hm).
  rewrite E in E0. injection E0 as <-. destruct (own_receipt msg id) eqn:Ho; [|by subst m'].
  unfold own_receipt in Ho. apply andb_true_iff in Ho as [Ho Hv]. apply andb_true_iff in Ho as [Hsize Hid].
  apply Z.eqb_eq in Hid. specialize (Hunf Hv). rewrite Forall_forall in H3.
  destruct (H3 _ Hunf) as (ch & rk & size & Kch & Krk & Ksize & Eb & Hle).
  destruct (signed_fields msg ch rk size Hsize Kch Krk Ksize Eb) as (F1 & F2 & F3).
  destruct Hm as [Hreq _]. split; [| |cbn; by apply Forall_forall].
  - intros ch' rk'. cbn. rewrite Hreq. case_decide; [|apply H1]. rewrite F3. specialize (H1 ch' rk'). unfold is_u64 in *. lia.
  - intros ch' rk'. cbn. rewrite Hreq. case_decide as Hd; [|apply H2]. destruct Hd as [-> ->].
    specialize (H2 id (msg_replicatorKey msg)). change (asked_of (with_channels m' s)) with (asked_of s).
    rewrite F2, F3 in *. subst id. rewrite F1 in *. lia.
Qed.

Lemma paying_step_inv s s' : paying_step s s' -> paying_inv s -> paying_inv s'.
Proof.
  intros [] Hinv.
  - apply paying_inv_keep; [|done]. intros. apply requested_addDownloadChannel.
  - apply paying_inv_keep; [|done]. intros. apply requested_setReplicators.
  - by apply pay_request_inv.
  - apply paying_inv_keep; [|done]. intros. apply requested_onPieceReceived.
  - by apply pay_sign_inv.
  - by eapply pay_last_inv.
  - destruct Hinv as [H1 H2 H3]. split; [intros ch rk ..|exact H3].
    + change (requested_of _ ch rk) with 0. by split.
    + change (requested_of _ ch rk) with 0. specialize (H1 ch rk) as [? _]. specialize (H2 ch rk).
      change (asked_of (with_channels ∅ s0)) with (asked_of s0). lia.
Qed.

Definition newcomer : Paying := mkPaying ∅ ∅ [].

Lemma paying_steps_inv s : rtc paying_step newcomer s -> paying_inv s.
Proof.
  intros Hs. cut (forall s0, rtc paying_step s0 s -> paying_inv s0 -> paying_inv s).
  - intros Hc. apply (Hc _ Hs). split; [intros ch rk; by split|done|constructor].
  - clear Hs. induction 1; eauto using paying_step_inv.
Qed.

(** C10: A client never signs for more than it asked for.  Whatever last receipts it
    is sent, by whatever replicator, and however often it is restarted: each
    signature is over a channel, a replicator and a size that is at most what the
    client asked this replicator for in this channel.  Hence no replicator, fed with
    any messages, books more for this client than the client asked the replicator
    that is paid -- as long as the client's signature is not forged. *)
Theorem client_never_overpays s :
  rtc paying_step newcomer s ->
  (forall b, b ∈ py_signed s -> exists ch rk size,
     b = receiptBytes publicKey ch rk size /\ 0 <= size <= asked_of s ch rk) /\
  (forall l0 l, fresh l0 -> rtc (limiter_step verify) l0 l ->
     (forall b g, verify publicKey b g = true -> b ∈ py_signed s) ->
     forall id ch rk, dl_dnChannelMap l !! id = Some ch -> largest_receipt ch rk publicKey <= asked_of s id rk).
Proof.
  intros Hs. destruct (paying_steps_inv s Hs) as [H1 H2 H3]. rewrite Forall_forall in H3. split.
  - intros b (ch & rk & size & _ & _ & [? _] & E & Hle)%H3. by exists ch, rk, size.
  - intros l0 l Hf Hl Hunf id ch rk Hch.
    destruct (limiter_steps_inv _ _ _ Hl (fresh_inv _ _ Hf)) as [Hinv _].
    destruct (Hinv _ _ Hch) as [_ _ Hm Hsig]. rewrite <- Hm.
    destruct (decide (saved_receipt (m_clientReceiptMap ch) rk publicKey = [])) as [->|Hne].
    { change (msg_downloadedSize []) with 0. specialize (H1 id rk) as [? _]. specialize (H2 id rk). lia. }
    destruct (Hsig rk publicKey Hne) as (E1 & _ & E3 & Hv & Hr). cbn zeta in *.
    apply Hunf, H3 in Hv as (ch' & rk' & size & Kch & Krk & Ks & Eb & Hle).
    destruct (signed_fields _ _ _ _ (proj2 Hr) Kch Krk Ks Eb) as (F1 & F2 & ->).
    by rewrite <- (eq_trans (eq_sym F1) E1), <- (eq_trans (eq_sym F2) E3).
Qed.

End Receipts.

(** ** Going on after a reconnection *)

Section Resume.
  Context (publicKey : Z) (sign : list Z -> Z) (verify : Z -> list Z -> Z -> bool).
  (** The client's signatures are signatures, and are accepted. *)
  Context (sign_sig : forall b, is_sig (sign b)) (sign_verify : forall b, verify publicKey b (sign b) = true).

(** The receipt of the client, as the replicator puts it together. *)
Lemma signed_receipt_accepted rands id our size l ch :
  limiter_inv verify l -> dl_isDestructing l = false -> dl_sessionIsEnding l = false -> dl_publicKey l = our ->
  is_key id -> is_key publicKey -> is_key our -> is_u64 size ->
  dl_dnChannelMap l !! id = Some ch -> publicKey ∈ dom (m_sentClientMap ch) ->
  exists r ch', acceptReceipt verify rands id publicKey size (signReceipt publicKey sign id our size) l = Ret r /\
    dl_dnChannelMap (rr_state r) !! id = Some ch' /\
    largest_receipt ch' our publicKey = Z.max (largest_receipt ch our publicKey) size /\
    rr_shouldBeDisconnected r = Some (bool_decide
      (largest_receipt ch our publicKey < size /\ m_prepaidDownloadSize ch < m_totalReceiptsSize ch')).
Proof.
  intros Hinv Hd He Ho Kid Kpk Kour Ks Hch Hc. unfold acceptReceipt. rewrite Hd, He, Ho.
  set (msg := mkRcptMessage _ _ _ _ _).
  destruct (rcpt_roundtrip id publicKey our size (signReceipt publicKey sign id our size)) as
    (_ & E1 & E2 & E3 & E4 & E5 & E6); [done|done|done|done|apply sign_sig|]. fold msg in E1, E2, E3, E4, E5, E6.
  assert (receipt_refusal verify msg l = None) as Hr.
  { unfold receipt_refusal. rewrite E1, E2, E5, E6, Hch, decide_True by done. unfold signReceipt, receiptBytes.
    by rewrite sign_verify. }
  destruct (acceptReceiptImpl_accept verify rands msg l Hinv Hd (mkRcptMessage_is_receipt _ _ _ _ _) Hr)
    as (ch0 & disc & ch1 & receipts & fwd & Ech & Hup & _ & _ & E).
  rewrite E1, Hch in Ech. injection Ech as <-. do 2 eexists. split; [exact E|].
  cbn [rr_state rr_shouldBeDisconnected put_channel set_channels dl_dnChannelMap].
  rewrite E1, lookup_insert_eq. split; [reflexivity|].
  change (largest_receipt (set_receipts receipts ch1)) with (largest_receipt ch1).
  rewrite (up_largest _ _ _ _ Hup), (up_disc _ _ _ _ Hup), E2, E3, E4, decide_True by done. done.
Qed.

(** A reconnection loses no traffic.  From whatever counters the client comes
    with (none, after its restart), the last receipt of a replicator brings the
    counter of this replicator to at least what the replicator has booked, clears
    what was received from it, and touches no other counter.  The receipt for the
    next piece is then larger than every booked one and is accepted with its full
    size; the connection is closed only if the channel is exhausted. *)
Lemma client_resumes rands id m n cm l0 l ch :
  fresh l0 -> rtc (limiter_step verify) l0 l -> dl_isDestructing l = false -> dl_sessionIsEnding l = false ->
  let our := dl_publicKey l in
  is_key id -> is_key publicKey -> is_key our ->
  dl_dnChannelMap l !! id = Some ch -> publicKey ∈ dom (m_sentClientMap ch) ->
  getLastClientReceipt id publicKey l = Some m -> m <> [] -> is_Some (cm !! id) ->
  exists cm', onLastMyReceipt publicKey verify m (Some id) cm = Ret cm' /\
    requested_of cm' id our = Z.max (requested_of cm id our) (largest_receipt ch our publicKey) /\
    received_of cm' id our = 0 /\
    (forall id' rk, (id', rk) <> (id, our) ->
       requested_of cm' id' rk = requested_of cm id' rk /\ received_of cm' id' rk = received_of cm id' rk) /\
    (0 <= requested_of cm id our -> 0 < n -> requested_of cm' id our + n < two64 ->
       let size := (requestedSize id our (onPieceRequestWrite id our n cm')).1 in
       size = requested_of cm' id our + n /\
       exists r ch', acceptReceipt verify rands id publicKey size (signReceipt publicKey sign id our size) l = Ret r /\
         dl_dnChannelMap (rr_state r) !! id = Some ch' /\
         largest_receipt ch our publicKey < size /\ largest_receipt ch' our publicKey = size /\
         rr_shouldBeDisconnected r = Some (bool_decide (m_prepaidDownloadSize ch < m_totalReceiptsSize ch'))).
Proof.
  intros Hf Hl Hd He our Kid Kpk Kour Hch Hc Hm Hne Hcm.
  pose proof (limiter_steps_inv _ _ _ Hl (fresh_inv _ _ Hf)) as Hinv.
  destruct (proj1 Hinv _ _ Hch) as [_ _ Hmatch Hsig]. unfold getLastClientReceipt in Hm. rewrite Hd, Hch in Hm.
  cbn in Hm. fold our in Hm.
  assert (saved_receipt (m_clientReceiptMap ch) our publicKey = m) as Es by (unfold saved_receipt; by rewrite Hm).
  specialize (Hsig our publicKey). specialize (Hmatch our publicKey). rewrite Es in *.
  destruct (Hsig Hne) as (E1 & E2 & E3 & Hv & Hr).
  destruct (onLastMyReceipt_spec publicKey verify m id cm) as (cm' & E & Hown).
  assert (own_receipt publicKey verify m id = true) as Ho.
  { unfold own_receipt. rewrite (proj2 Hr), E1, Z.eqb_refl. exact Hv. }
  rewrite Ho, E3, Hmatch in Hown. destruct Hown as [Hreq Hrec].
  exists cm'. split; [exact E|]. split; [by rewrite Hreq, decide_True|]. split; [by rewrite Hrec, decide_True|]. split.
  { intros id' rk Hpair. rewrite Hreq, Hrec, !decide_False by naive_solver. done. }
  rewrite Hreq, decide_True by done. intros Hpos Hn Hlt size.
  assert (is_Some (cm' !! id)) as Hcm'.
  { revert E. unfold onLastMyReceipt. repeat (case_match; try discriminate).
    all: intros [= <-]; try done. all: rewrite E1, lookup_insert_eq; by eexists. }
  assert (size = Z.max (requested_of cm id our) (largest_receipt ch our publicKey) + n) as Esize.
  { unfold size. rewrite requestedSize_value, requested_onPieceRequestWrite.
    rewrite (decide_True (P := is_Some _ /\ _)), Hreq, decide_True by done. apply u64_small. unfold is_u64. lia. }
  split; [exact Esize|].
  destruct (signed_receipt_accepted rands id our size l ch) as (r & ch' & A1 & A2 & A3 & A4);
    try done; [by split; lia|]. exists r, ch'. split; [exact A1|]. split; [exact A2|].
  split; [lia|]. split; [rewrite A3; lia|]. rewrite A4. f_equal. apply bool_decide_ext.
  split; [intros [_ ?]; assumption|]. intros ?. split; [lia|assumption].
Qed.

End Resume.

(** ** Instances *)

Definition oneVerify (k : Z) (b : list Z) (g : Z) : bool := bool_decide (k = 7 /\ b = receiptBytes 7 9 1 60 /\ g = 5).

(** The client asks replicator 1 for 60 bytes, signs for them, is restarted and sent
    its receipt; the replicator books it. *)
Definition paidRun : list Paying :=
  let s1 := with_channels (addDownloadChannel 9 ∅) newcomer in
  let s2 := mkPaying (onPieceRequestWrite 9 1 60 (py_channels s1)) (<[(9, 1) := 60]> ∅) [] in
  let s3 := mkPaying (requestedSize 9 1 (py_channels s2)).2 (py_asked s2) [receiptBytes 7 9 1 60] in
  [s1; s2; s3; with_channels ∅ s3].

Definition paidClient : Paying := List.last paidRun newcomer.

Lemma paidRun_steps : rtc (paying_step 7 oneVerify) newcomer paidClient.
Proof.
  eapply rtc_l; [apply (pay_add 7 oneVerify newcomer 9)|].
  eapply rtc_l; [apply (pay_request 7 oneVerify _ 9 1 60); lia|].
  eapply rtc_l; [apply (pay_sign 7 oneVerify _ 9 1); by split|].
  apply rtc_once, pay_restart.
Qed.

Lemma client_never_overpays_witness : exists r ch,
  acceptReceipt oneVerify [] 9 7 60 5 sampleAdd = Ret r /\
  dl_dnChannelMap (rr_state r) !! 9 = Some ch /\ largest_receipt ch 1 7 = 60 /\
  largest_receipt ch 1 7 <= asked_of paidClient 9 1.
Proof.
  destruct (acceptReceipt oneVerify [] 9 7 60 5 sampleAdd) as [r|] eqn:E; [|vm_compute in E; discriminate E].
  destruct (dl_dnChannelMap (rr_state r) !! 9) as [ch|] eqn:Ech;
    [|vm_compute in E; injection E as <-; vm_compute in Ech; discriminate Ech].
  exists r, ch. split; [reflexivity|]. split; [exact Ech|]. split.
  - vm_compute in E. injection E as <-. vm_compute in Ech. injection Ech as <-. vm_compute. reflexivity.
  - destruct (client_never_overpays 7 oneVerify paidClient paidRun_steps) as [_ H].
    apply (H freshLimiter (rr_state r)); [split; reflexivity | | | exact Ech].
    + eapply rtc_l; [apply step_call, (call_add _ freshLimiter 9 100 50 [1; 2; 3] [7] false 0 sampleAdd); reflexivity|].
      apply rtc_once, step_call. eapply call_receipt. exact E.
    + intros b g Hv. apply bool_decide_eq_true in Hv as (_ & -> & _). left.
Defined.

Lemma client_resumes_witness : exists r m cm' r',
  acceptReceipt (fun _ _ g => g =? 5) [] 9 7 60 5 sampleAdd = Ret r /\
  getLastClientReceipt 9 7 (rr_state r) = Some m /\
  onLastMyReceipt 7 (fun _ _ g => g =? 5) m (Some 9) (addDownloadChannel 9 ∅) = Ret cm' /\
  requested_of cm' 9 1 = 60 /\
  acceptReceipt (fun _ _ g => g =? 5) [] 9 7 70 5 (rr_state r) = Ret r' /\
  rr_shouldBeDisconnected r' = Some false.
Proof.
  destruct (acceptReceipt (fun _ _ g => g =? 5) [] 9 7 60 5 sampleAdd) as [r|] eqn:E; [|vm_compute in E; discriminate E].
  destruct (getLastClientReceipt 9 7 (rr_state r)) as [m|] eqn:Em;
    [|vm_compute in E; injection E as <-; vm_compute in Em; discriminate Em].
  destruct (dl_dnChannelMap (rr_state r) !! 9) as [ch|] eqn:Ech;
    [|vm_compute in E; injection E as <-; vm_compute in Ech; discriminate Ech].
  assert (rtc (limiter_step (fun _ _ g => g =? 5)) freshLimiter (rr_state r)) as Hl.
  { eapply rtc_l; [apply step_call, (call_add _ freshLimiter 9 100 50 [1; 2; 3] [7] false 0 sampleAdd); reflexivity|].
    apply rtc_once, step_call. eapply call_receipt. exact E. }
  assert (dl_publicKey (rr_state r) = 1 /\ dl_isDestructing (rr_state r) = false /\
    dl_sessionIsEnding (rr_state r) = false /\ largest_receipt ch 1 7 = 60 /\
    7 ∈ dom (m_sentClientMap ch) /\ m <> []) as (E1 & E2 & E3 & E4 & E5 & E6).
  { vm_compute in E. injection E as <-. vm_compute in Ech. injection Ech as <-. vm_compute in Em. injection Em as <-.
    split_and!; [reflexivity ..| |discriminate]. apply (bool_decide_unpack _). vm_compute. exact I. }
  destruct (client_resumes 7 (fun _ => 5) (fun _ _ g => g =? 5)) with (rands := @nil nat) (id := 9) (m := m) (n := 10)
    (cm := addDownloadChannel 9 ∅) (l0 := freshLimiter) (l := rr_state r) (ch := ch)
    as (cm' & A1 & A2 & _ & _ & A3); try assumption; try (rewrite E1); try (by split); try reflexivity.
  { by eexists. }
  rewrite E1, E4 in A2. rewrite E1 in A3. rewrite A2 in A3.
  destruct (A3 ltac:(by vm_compute) ltac:(lia) ltac:(by vm_compute)) as (A4 & r' & ch' & A5 & _ & _ & _ & A6).
  exists r, m, cm', r'. split; [reflexivity|]. split; [exact Em|]. split; [exact A1|].
  split; [rewrite A2; reflexivity|]. rewrite A4 in A5.
  change (requested_of (addDownloadChannel 9 ∅) 9 1 `max` 60 + 10) with 70 in A5. split; [exact A5|].
  vm_compute in E. injection E as <-. vm_compute in A5. injection A5 as <-. reflexivity.
Defined.

(** Asking for the counter of an unknown channel adds the channel, and a download
    in it is then no longer refused. *)
Example read_adds_channel :
  let s := mkClient ∅ ∅ ∅ in
  let s' := mkClient ∅ ∅ (requestedSize 9 1 ∅).2 in
  download "" (fun _ => NotFound) 5 9 "" true [] s = Stop ThrownException /\
  download "" (fun _ => NotFound) 5 9 "" true [] s' = Ret [SessionDownload 5 9 "" []].
Proof. split; reflexivity. Qed.

(** The replicators of a download are given twice. *)
Example replicators_twice : mergeReplicators [1] [2; 1] = [1; 2; 2; 1].
Proof. reflexivity. Qed.
