(* ===== verification/ClientActionsSpec.v ===== *)
(** * The action list of a client and the replicators of its drive

    What [addActionListToSession] sends, against what [ModifyDrive] does with it: the
    list is read back, the files it names are the torrents of the client, and the
    moves it lets through are not refused for nesting. *)

From S2P Require Import Prelude OrderedMap FsPath RcptMessage ActionList ModifyDrive ModifyDriveSpec ClientSession.

#[local] Arguments hashToFileName : simpl never.
#[local] Arguments stringToByteArray : simpl never.
#[local] Arguments sandboxStat : simpl never.

Section Served.
  Context (cwd workFolder : string) (local : string -> LocalStat).
  Context (torrentHash : Z -> Content -> Z) (totalSize : Content -> Z) (drivePublicKey : Z) (fails : FsCall -> bool).
  (** A hash has 32 bytes; a file has another than the zero hash. *)
  Context (hash_key : forall k c, is_key (torrentHash k c)) (hash_nonzero : forall k c, torrentHash k c <> 0).

(** Every torrent is kept under the hash of its contents. *)
Definition torrents_wf (s : ClientState) : Prop := forall h info,
  m_modifyTorrentMap s !! h = Some info ->
  h_infoHash (m_ltHandle info) = h /\ exists k, torrentHash k (h_content (m_ltHandle info)) = h.

(** The client serves contents with this hash. *)
Definition served (s : ClientState) (h : Z) : Prop := is_Some (m_modifyTorrentMap s !! h).

(** An action as it is sent: an upload names the hash of its local file, and the name
    of the file. *)
Definition sent_as (a a' : Action) : Prop :=
  match m_actionId a with
  | upload => exists c, localStat cwd local (m_param1 a) = LocalFile c /\
      a' = mkAction upload (hashToFileName (torrentHash drivePublicKey c)) (m_param2 a)
             (filename (path_of_string (m_param1 a))) (m_isInvalid a)
  | move => a' = a /\ isPathInsideFolder cwd (m_param1 a) (m_param2 a) = false
  | _ => a' = a
  end.

Lemma prepareUpload_spec a s a' s' :
  m_actionId a = upload -> prepareUpload cwd workFolder local torrentHash drivePublicKey fails a s = Some (a', s') ->
  sent_as a a' /\ m_modifyTorrentMap s' = m_modifyTorrentMap s.
Proof.
  intros Ha. unfold prepareUpload, sent_as. rewrite Ha.
  destruct (fails (Exists _)); [done|]. destruct (localStat cwd local (m_param1 a)) as [| |c]; cbn; [done| |].
  { by destruct (fails _). }
  destruct (fails (IsDirectory _)); [done|].
  intros (sb & Hsb & E)%bind_Some. injection E as <- <-. split; [by exists c|done].
Qed.

Lemma checkMove_inside a :
  checkMove cwd fails a = true -> isPathInsideFolder cwd (m_param1 a) (m_param2 a) = false.
Proof. unfold checkMove. intros [_ H]%andb_true_iff. by apply negb_true_iff. Qed.

Lemma prepareActions_spec l s l' s' :
  prepareActions cwd workFolder local torrentHash drivePublicKey fails l s = (Some l', s') ->
  Forall2 sent_as l l' /\ m_modifyTorrentMap s' = m_modifyTorrentMap s.
Proof.
  revert s l'. induction l as [|a l IH]; intros s l'; cbn [prepareActions]; [by intros [= <- <-]|].
  set (prepared := match m_actionId a with upload => _ | _ => _ end).
  assert (forall a' s1, prepared = Some (a', s1) ->
            sent_as a a' /\ m_modifyTorrentMap s1 = m_modifyTorrentMap s) as Hone.
  { unfold prepared. intros a' s1. destruct (m_actionId a) eqn:Ha.
    - by apply prepareUpload_spec.
    - intros [= <- <-]. unfold sent_as. by rewrite Ha.
    - destruct (checkMove cwd fails a) eqn:Hc; [|done]. intros [= <- <-]. unfold sent_as. rewrite Ha.
      split; [|done]. split; [done|]. by apply checkMove_inside.
    - intros [= <- <-]. unfold sent_as. by rewrite Ha. }
  destruct prepared as [[a' s1]|]; [|done]. destruct (Hone a' s1 eq_refl) as [Hs Hm].
  destruct (prepareActions _ _ _ _ _ _ l s1) as [[r|] s2] eqn:E; [|done].
  intros [= <- <-]. destruct (IH s1 r E) as [Hl Hm']. split; [by constructor|congruence].
Qed.

(** A torrent that is added. *)
Lemma addModifyTorrent_spec h h0 name s out size s' :
  createTorrentFile torrentHash drivePublicKey (sandboxStat workFolder local name (cl_sandbox s)) = h -> h <> 0 ->
  addModifyTorrent workFolder local totalSize drivePublicKey h h0 name s = (out, size, s') ->
  torrents_wf s ->
  torrents_wf s' /\ out = [AddTorrent h h0 drivePublicKey] /\
  exists info, m_modifyTorrentMap s' = <[h := info]> (m_modifyTorrentMap s).
Proof.
  unfold createTorrentFile, addModifyTorrent. intros Eh Hne.
  destruct (sandboxStat workFolder local name (cl_sandbox s)) as [| |c]; [congruence..|].
  intros [= <- _ <-] Hwf. split; [|split; [done|by eexists]].
  intros h' info'. cbn. destruct (decide (h' = h)) as [->|Hd].
  - rewrite lookup_insert_eq. intros [= <-]. split; [done|]. by exists drivePublicKey.
  - rewrite lookup_insert_ne by done. apply Hwf.
Qed.

(** From one state to another these torrents were added, each once. *)
Definition added_torrents (h0 : Z) (s s' : ClientState) (outs : list ClientOutput) : Prop := exists hs,
  outs = map (fun h => AddTorrent h h0 drivePublicKey) hs /\ NoDup hs /\
  (forall h, h ∈ hs <-> m_modifyTorrentMap s !! h = None /\ served s' h) /\
  (forall h info, m_modifyTorrentMap s !! h = Some info -> m_modifyTorrentMap s' !! h = Some info).

Lemma added_none h0 s s' : m_modifyTorrentMap s' = m_modifyTorrentMap s -> added_torrents h0 s s' [].
Proof.
  intros E. exists []. split; [done|]. split; [constructor|]. unfold served. rewrite E. split; [|done].
  intros h. rewrite elem_of_nil. split; [done|]. intros [-> [? ?]]. done.
Qed.

Lemma added_cons h0 h info s s1 s' outs :
  m_modifyTorrentMap s !! h = None -> m_modifyTorrentMap s1 = <[h := info]> (m_modifyTorrentMap s) ->
  added_torrents h0 s1 s' outs -> added_torrents h0 s s' (AddTorrent h h0 drivePublicKey :: outs).
Proof.
  intros Hn E (hs & -> & Hnd & Hin & Hkeep). exists (h :: hs). split; [done|]. rewrite E in Hin, Hkeep.
  split; [|split].
  - constructor; [|done]. rewrite Hin, lookup_insert_eq. by intros [? _].
  - intros h'. rewrite elem_of_cons, Hin. destruct (decide (h' = h)) as [->|Hd].
    + rewrite lookup_insert_eq. split; [|by left]. intros _. split; [done|]. eexists. apply Hkeep, lookup_insert_eq.
    + rewrite lookup_insert_ne by done. naive_solver.
  - intros h' info' Hs. apply Hkeep. rewrite lookup_insert_ne; [done|]. congruence.
Qed.

Lemma added_served h0 s s' outs h : added_torrents h0 s s' outs -> served s h -> served s' h.
Proof. intros (_ & _ & _ & _ & Hk) [info Hi]. exists info. by apply Hk. Qed.

Lemma addFileTorrents_spec h0 l total s outs total' s' :
  Forall uploadable l -> torrents_wf s ->
  addFileTorrents cwd workFolder local torrentHash totalSize drivePublicKey fails h0 l total s =
    Ret (outs, true, total', s') ->
  torrents_wf s' /\ added_torrents h0 s s' outs /\ forall h, uploads l h -> served s' h.
Proof.
  intros Hl. revert total s outs. induction Hl as [|a l Ha _ IH]; intros total s outs Hwf; cbn [addFileTorrents].
  { intros [= <- _ <-]. split; [done|]. split; [by apply added_none|].
    intros h (b & Hb & _). by apply elem_of_nil in Hb. }
  assert (forall total1 s1 outs1, torrents_wf s1 ->
    addFileTorrents cwd workFolder local torrentHash totalSize drivePublicKey fails h0 l total1 s1 =
      Ret (outs1, true, total', s') ->
    (m_actionId a = upload -> forall h, stringToByteArray (m_param1 a) = Some h -> served s1 h) ->
    torrents_wf s' /\ added_torrents h0 s1 s' outs1 /\ forall h, uploads (a :: l) h -> served s' h) as Hrest.
  { intros total1 s1 outs1 Hwf1 E Hthis. destruct (IH total1 s1 outs1 Hwf1 E) as (Hwf' & Hadd & Hup).
    split; [done|]. split; [done|]. intros h (b & [->|Hb]%elem_of_cons & Hi & Hu & Hh).
    - eapply added_served; [exact Hadd|]. by apply Hthis.
    - apply Hup. by exists b. }
  destruct (m_actionId a) eqn:Ei.
  - destruct (Ha Ei) as (h & Eh & Hne). rewrite Eh.
    destruct (m_modifyTorrentMap s !! h) as [info|] eqn:Em.
    { intros E. eapply Hrest; [done|exact E|]. intros _ h' Eh'. rewrite Eh in Eh'. injection Eh' as <-. by exists info. }
    intros [Heq E]%guard_assert_inv. apply Z.eqb_eq in Heq.
    destruct (addModifyTorrent _ _ _ _ _ _ _ _) as [[out size] s1] eqn:Eadd.
    apply bind_ret_inv in E as ([[[outs2 ok] total2] s2] & E2 & E). injection E as <- -> -> ->.
    destruct (addModifyTorrent_spec _ h0 (m_param1 a) s out size s1 eq_refl ltac:(by rewrite <- Heq) Eadd Hwf)
      as (Hwf1 & -> & info & E1). rewrite <- Heq in *.
    edestruct Hrest as (Hwf' & Hadd & Hup); [exact Hwf1|exact E2| |].
    { intros _ h' Eh'. rewrite Eh in Eh'. injection Eh' as <-. exists info. by rewrite E1, lookup_insert_eq. }
    split; [done|]. split; [by eapply added_cons|done].
  - intros E. by eapply Hrest; [done|exact E|].
  - destruct (checkMove cwd fails a); [|done]. intros E. by eapply Hrest; [done|exact E|].
  - intros E. by eapply Hrest; [done|exact E|].
Qed.

(** ** The list itself *)

Lemma sent_uploadable a a' : sent_as a a' -> uploadable a'.
Proof.
  unfold sent_as, uploadable. destruct (m_actionId a) eqn:Ha; [|by intros -> ?; congruence|
    by intros [-> _] ?; congruence|by intros -> ?; congruence].
  intros (c & _ & ->) _. eexists. split; [apply hash_of_fileName, hash_key|apply hash_nonzero].
Qed.

Lemma sent_tidy a a' : sent_as a a' -> action_tidy a -> action_tidy a'.
Proof.
  unfold sent_as. destruct (m_actionId a) eqn:Ha; [|by intros ->|by intros [-> _]|by intros ->].
  intros (c & _ & ->) [Hi _]. rewrite Hi. apply tidy_upload.
Qed.

Lemma Forall2_right {A B} (R : A -> B -> Prop) (P : A -> Prop) (Q : B -> Prop) l k :
  Forall2 R l k -> Forall P l -> (forall a b, R a b -> P a -> Q b) -> Forall Q k.
Proof.
  induction 1 as [|a b l k Hr _ IH]; intros HF HR; [constructor|]. apply Forall_cons in HF as [? ?].
  constructor; eauto.
Qed.

Lemma Forall2_always {A B} (R : A -> B -> Prop) (Q : B -> Prop) l k :
  Forall2 R l k -> (forall a b, R a b -> Q b) -> Forall Q k.
Proof. induction 1; intros ?; constructor; eauto. Qed.

(** A path below the current directory. *)
Lemma absolute_relative base s :
  is_absolute base = true -> is_absolute s = false -> s <> "" ->
  path_of_string (absolute base s) = ("/" :: filter (fun p => p <> "") (tail (split_slash base))) ++ path_of_string s.
Proof.
  intros Hb Hs Hne. unfold absolute. rewrite Hs. unfold path_of_string at 1. rewrite split_slash_join.
  destruct base as [|c base]; [done|]. cbn in Hb. apply bool_decide_eq_true in Hb as ->.
  change (split_slash (String slash base)) with ("" :: split_slash base). cbn [tail app].
  destruct (relative_pieces s Hs Hne) as [Hf Hp].
  destruct (split_slash base ++ split_slash s) as [|x xs] eqn:E.
  { apply app_nil in E as [E _]. by apply split_slash_ne in E. }
  rewrite <- E. rewrite decide_True by done. rewrite path_clean_app by done. by rewrite Hp.
Qed.

(** The client refuses, besides, what the drive refuses for nesting. *)
Lemma same_nesting driveCwd src dst :
  is_absolute cwd = true -> is_absolute driveCwd = true -> is_absolute src = false -> is_absolute dst = false ->
  src <> "" -> dst <> "" ->
  isPathInsideFolder driveCwd (under_root src) (under_root dst) = isPathInsideFolder cwd src dst.
Proof.
  intros Hcwd Hd Hs Ht Hs' Ht'. apply Bool.eq_iff_eq_true. rewrite isPathInsideFolder_comps by done.
  unfold isPathInsideFolder. rewrite !absolute_relative by done. rewrite diverge_app. symmetry. apply diverge_spec.
Qed.

Lemma added_after_first h0 s s1 s' outs :
  m_modifyTorrentMap s1 = m_modifyTorrentMap s -> added_torrents h0 s1 s' outs -> added_torrents h0 s s' outs.
Proof. intros E (hs & -> & Hnd & Hin & Hk). exists hs. rewrite E in Hin, Hk. done. Qed.

Lemma torrents_wf_same s s' :
  m_modifyTorrentMap s' = m_modifyTorrentMap s -> torrents_wf s -> torrents_wf s'.
Proof. unfold torrents_wf. by intros ->. Qed.

(** What a successful call did. *)
Lemma addActionListToSession_steps l total s r :
  addActionListToSession cwd workFolder local torrentHash totalSize drivePublicKey fails l total s = Ret r ->
  al_hash r <> 0 -> torrents_wf s ->
  exists sent, Forall2 sent_as l sent /\
    al_hash r = torrentHash drivePublicKey (ListData (actionList_serialize sent)) /\
    torrents_wf (al_client r) /\ added_torrents (al_hash r) s (al_client r) (al_outputs r) /\
    served (al_client r) (al_hash r) /\ (forall h, uploads sent h -> served (al_client r) h).
Proof.
  unfold addActionListToSession. intros E Hne Hwf.
  destruct (fails CreateDirectories); [injection E as <-; done|].
  destruct (prepareActions _ _ _ _ _ _ l s) as [[sent|] s1] eqn:Ep; [|injection E as <-; done].
  apply prepareActions_spec in Ep as [Hsent Em1]. exists sent. split; [done|].
  assert (Forall uploadable sent) as Hup by (eapply Forall2_always; [exact Hsent|apply sent_uploadable]).
  set (content := ListData (actionList_serialize sent)) in *. set (s2 := set_clientFolder _ s1) in E.
  assert (m_modifyTorrentMap s2 = m_modifyTorrentMap s) as Em2 by exact Em1.
  pose proof (torrents_wf_same s s2 Em2 Hwf) as Hwf2.
  destruct (fails (Exists actionListName)); [injection E as <-; done|].
  destruct (fails FileSize); [injection E as <-; done|].
  set (h0 := torrentHash drivePublicKey content) in *.
  assert (forall out0 total0 s0, torrents_wf s0 ->
    ('(outs, ok, total', s') ← addFileTorrents cwd workFolder local torrentHash totalSize drivePublicKey fails
                                 h0 sent total0 s0;
     Ret (mkAddedList (if ok : bool then h0 else 0) total' (out0 ++ outs) s')) = Ret r ->
    al_hash r = h0 /\ torrents_wf (al_client r) /\ (forall h, uploads sent h -> served (al_client r) h) /\
    exists outs, al_outputs r = out0 ++ outs /\ added_torrents h0 s0 (al_client r) outs) as Hend.
  { intros out0 total0 s0 Hwf0 E0. apply bind_ret_inv in E0 as ([[[outs ok] total'] s'] & E0 & Er).
    injection Er as <-. destruct ok; [|done].
    destruct (addFileTorrents_spec h0 sent total0 s0 outs total' s' Hup Hwf0 E0) as (Hwf' & Hadd & Hser).
    split; [done|]. split; [done|]. split; [done|]. by exists outs. }
  destruct (m_modifyTorrentMap s2 !! h0) as [info|] eqn:Eh.
  - destruct (Hend _ _ _ Hwf2 E) as (-> & Hwf' & Hser & outs & Eo & Hadd). cbn [app] in Eo. subst outs.
    split; [done|]. split; [done|]. split; [by eapply added_after_first|]. split; [|done].
    eapply added_served; [exact Hadd|]. by exists info.
  - destruct (fails Rename); [injection E as <-; done|].
    set (s3 := set_clientFolder _ s2) in E.
    destruct (addModifyTorrent _ _ _ _ _ _ _ s3) as [[out size] s4] eqn:Ea.
    assert (createTorrentFile torrentHash drivePublicKey (sandboxStat workFolder local (hashToFileName h0) (cl_sandbox s3)) = h0)
      as Ec by (unfold sandboxStat, s3; cbn; by rewrite lookup_insert_eq).
    destruct (addModifyTorrent_spec h0 h0 _ s3 out size s4 Ec (hash_nonzero _ _) Ea (torrents_wf_same s s3 Em2 Hwf))
      as (Hwf4 & -> & info & E4).
    destruct (Hend _ _ _ Hwf4 E) as (-> & Hwf' & Hser & outs & -> & Hadd).
    split; [done|]. split; [done|]. split.
    + apply (added_after_first h0 s s3); [exact Em2|]. by eapply added_cons.
    + split; [|done]. eapply added_served; [exact Hadd|]. exists info. by rewrite E4, lookup_insert_eq.
Qed.

(** C11: The replicators can do what a client sends them.  When the client gets a hash
    for its list, it serves a torrent of this hash; the file that it made for it is
    read back as the list with every upload renamed to the hash of its local file;
    reading the list, a drive finds a hash in every upload, none of them zero, and
    each file it will ask for is a torrent of the client, with contents of this hash.
    No move of the list is refused by the drive for nesting.  The session got one
    torrent for each new hash, and what it had before it still serves. *)
Theorem client_list_served l total s r :
  is_absolute cwd = true -> torrents_wf s -> Forall action_tidy l ->
  addActionListToSession cwd workFolder local torrentHash totalSize drivePublicKey fails l total s = Ret r ->
  al_hash r <> 0 ->
  torrents_wf (al_client r) /\ added_torrents (al_hash r) s (al_client r) (al_outputs r) /\
  served (al_client r) (al_hash r) /\
  exists file sent, al_hash r = torrentHash drivePublicKey (ListData file) /\
    actionList_deserialize file = Some sent /\ Forall2 sent_as l sent /\
    (exists missed, missedFiles sent [] = Ret missed /\
       forall h, h ∈ missed -> h <> 0 /\ served (al_client r) h) /\
    (forall a driveCwd, a ∈ sent -> m_actionId a = move -> is_absolute driveCwd = true ->
       is_absolute (m_param1 a) = false -> is_absolute (m_param2 a) = false -> m_param1 a <> "" -> m_param2 a <> "" ->
       isPathInsideFolder driveCwd (under_root (m_param1 a)) (under_root (m_param2 a)) = false).
Proof.
  intros Hcwd Hwf Htidy E Hne.
  destruct (addActionListToSession_steps l total s r E Hne Hwf) as (sent & Hsent & Eh & Hwf' & Hadd & H0 & Hup).
  split; [done|]. split; [done|]. split; [done|]. exists (actionList_serialize sent), sent. split; [done|].
  split; [apply actionList_roundtrip; eapply Forall2_right; [exact Hsent|exact Htidy|apply sent_tidy]|].
  split; [done|]. split.
  - destruct (missedFiles_total sent []) as (missed & Em & Hnz);
      [eapply Forall2_always; [exact Hsent|apply sent_uploadable]|constructor|].
    exists missed. split; [done|]. intros h Hh. rewrite Forall_forall in Hnz. split; [by apply Hnz|].
    apply Hup. apply (missedFiles_spec _ _ _ h Em) in Hh as [Hh|Hh]; [by apply elem_of_nil in Hh|done].
  - intros a driveCwd Ha Hm Hd R1 R2 N1 N2. rewrite same_nesting by done.
    assert (Forall (fun a => m_actionId a = move -> isPathInsideFolder cwd (m_param1 a) (m_param2 a) = false) sent) as Hall.
    { eapply Forall2_always; [exact Hsent|]. intros b b'. unfold sent_as. destruct (m_actionId b) eqn:Eb;
        [intros (c & _ & ->)|intros ->|intros [-> ?]|intros ->]; cbn; congruence. }
    rewrite Forall_forall in Hall. by apply Hall.
Qed.

(** ** The client gets its hash *)

(** What the client can send: local files by their full names, and no move into a
    folder of its source. *)
Definition acceptable (a : Action) : Prop :=
  match m_actionId a with
  | upload => is_absolute (m_param1 a) = true /\ exists c, local (m_param1 a) = LocalFile c
  | move => isPathInsideFolder cwd (m_param1 a) (m_param2 a) = false
  | _ => True
  end.

(** What stands under the name of a hash is nothing, or has this hash. *)
Definition folder_ok (sandbox : ClientFolder) : Prop := forall h, is_key h ->
  match sandboxStat workFolder local (hashToFileName h) sandbox with
  | NotFound => True
  | LocalDir => False
  | LocalFile c => torrentHash drivePublicKey c = h
  end.

Lemma fileName_inj h h' : is_key h -> is_key h' -> hashToFileName h = hashToFileName h' -> h = h'.
Proof. intros H H' E. apply hash_of_fileName in H, H'. rewrite E in H. congruence. Qed.

Lemma length_fileName h : String.length (hashToFileName h) = 64%nat.
Proof. unfold hashToFileName. by rewrite length_hexString, length_be_bytes. Qed.

Lemma listName_no_hash h : hashToFileName h <> actionListName.
Proof. intros E. apply (f_equal String.length) in E. by rewrite length_fileName in E. Qed.

Lemma sandboxStat_insert n n' e (sandbox : ClientFolder) :
  sandboxStat workFolder local n' (<[n := e]> sandbox) =
  if decide (n' = n) then entryStat workFolder local (Some e) else sandboxStat workFolder local n' sandbox.
Proof. unfold sandboxStat. case_decide; by simplify_map_eq. Qed.

Lemma sandboxStat_delete n n' (sandbox : ClientFolder) :
  n' <> n -> sandboxStat workFolder local n' (delete n sandbox) = sandboxStat workFolder local n' sandbox.
Proof. intros. unfold sandboxStat. by rewrite lookup_delete_ne. Qed.

(** Giving a name what has its hash. *)
Lemma folder_ok_put sandbox c e :
  folder_ok sandbox -> entryStat workFolder local (Some e) = LocalFile c ->
  folder_ok (<[hashToFileName (torrentHash drivePublicKey c) := e]> sandbox).
Proof.
  intros Hok He h Hh. rewrite sandboxStat_insert. case_decide as Hn; [|by apply Hok].
  rewrite He. apply fileName_inj in Hn; [done|done|apply hash_key].
Qed.

Lemma folder_ok_delete n sandbox : folder_ok sandbox -> folder_ok (delete n sandbox).
Proof.
  intros Hok h Hh. destruct (decide (hashToFileName h = n)) as [<-|Hne].
  - unfold sandboxStat. by rewrite lookup_delete_eq.
  - rewrite sandboxStat_delete by done. by apply Hok.
Qed.

Lemma folder_ok_list e sandbox : folder_ok sandbox -> folder_ok (<[actionListName := e]> sandbox).
Proof.
  intros Hok h Hh. rewrite sandboxStat_insert, decide_False by apply listName_no_hash. by apply Hok.
Qed.

(** The torrent of a hash is in the session, or its file is there. *)
Definition at_hand (s : ClientState) (h : Z) : Prop :=
  served s h \/ sandboxStat workFolder local (hashToFileName h) (cl_sandbox s) <> NotFound.

Definition ready (s : ClientState) (a : Action) : Prop :=
  m_actionId a = upload -> forall h, stringToByteArray (m_param1 a) = Some h -> at_hand s h.

(** More files, and the same torrents or more. *)
Definition grown (s s' : ClientState) : Prop :=
  (forall h, served s h -> served s' h) /\
  (forall h, sandboxStat workFolder local (hashToFileName h) (cl_sandbox s) <> NotFound ->
             sandboxStat workFolder local (hashToFileName h) (cl_sandbox s') <> NotFound).

Lemma ready_grown s s' l : grown s s' -> Forall (ready s) l -> Forall (ready s') l.
Proof.
  intros [G1 G2] Hl. eapply Forall_impl; [exact Hl|]. intros a Ha Hu h Hh.
  destruct (Ha Hu h Hh); [left|right]; auto.
Qed.

Context (no_failure : forall c, fails c = false).

Lemma prepareUpload_total a s :
  m_actionId a = upload -> acceptable a -> folder_ok (cl_sandbox s) ->
  exists a' s', prepareUpload cwd workFolder local torrentHash drivePublicKey fails a s = Some (a', s') /\
    folder_ok (cl_sandbox s') /\ grown s s' /\ ready s' a'.
Proof.
  intros Ha. unfold acceptable. rewrite Ha. intros (Habs & c & Hc) Hok. unfold prepareUpload.
  rewrite !no_failure. unfold localStat, absolute. rewrite Habs, Hc. cbn.
  set (h := torrentHash drivePublicKey c). pose proof (hash_key drivePublicKey c : is_key h) as Hh.
  assert (forall s' p2 f i, at_hand s' h -> ready s' (mkAction upload (hashToFileName h) p2 f i)) as Hready.
  { intros s' p2 f i Hat _ h' E. cbn [m_param1] in E. rewrite hash_of_fileName in E by done. by injection E as <-. }
  destruct (m_modifyTorrentMap s !! h) as [info|] eqn:Em; cbn.
  { do 2 eexists. split; [done|]. split; [done|]. split; [done|]. apply Hready. left. by exists info. }
  unfold linkFile. rewrite !no_failure. pose proof (Hok h Hh) as Hstat. revert Hstat.
  destruct (sandboxStat workFolder local (hashToFileName h) (cl_sandbox s)) as [| |c'] eqn:Es; cbn -[entryStat]; [|done|]; intros Hstat.
  - assert (entryStat workFolder local (Some (Link (m_param1 a))) = LocalFile c) as He
      by (cbn; unfold absolute; by rewrite Habs).
    do 2 eexists. split; [done|]. cbn. split; [by apply folder_ok_put; [apply folder_ok_delete|]|].
    split; [split; [done|]|].
    + intros h' Hne. cbn [cl_sandbox set_clientFolder]. rewrite sandboxStat_insert. case_decide; [by rewrite He|].
      by rewrite sandboxStat_delete.
    + apply Hready. right. cbn [cl_sandbox set_clientFolder]. by rewrite sandboxStat_insert, decide_True, He.
  - do 2 eexists. split; [done|]. split; [done|]. split; [done|]. apply Hready. right. cbn. by rewrite Es.
Qed.

Lemma prepareActions_total l s :
  Forall acceptable l -> folder_ok (cl_sandbox s) ->
  exists l' s', prepareActions cwd workFolder local torrentHash drivePublicKey fails l s = (Some l', s') /\
    folder_ok (cl_sandbox s') /\ grown s s' /\ Forall (ready s') l'.
Proof.
  intros Hl. revert s. induction Hl as [|a l Ha _ IH]; intros s Hok; cbn [prepareActions].
  { do 2 eexists. split; [done|]. split; [done|]. split; [done|constructor]. }
  assert (exists a' s1, match m_actionId a with
      | upload => prepareUpload cwd workFolder local torrentHash drivePublicKey fails a s
      | move => if checkMove cwd fails a then Some (a, s) else None
      | _ => Some (a, s) end = Some (a', s1) /\
    folder_ok (cl_sandbox s1) /\ grown s s1 /\ ready s1 a') as (a' & s1 & -> & Hok1 & Hg1 & Hr1).
  { destruct (m_actionId a) eqn:Ei.
    - by apply prepareUpload_total.
    - exists a, s. split; [done|]. split; [done|]. split; [done|]. intros ?. congruence.
    - unfold acceptable in Ha. rewrite Ei in Ha. unfold checkMove. rewrite !no_failure, Ha.
      exists a, s. split; [done|]. split; [done|]. split; [done|]. intros ?. congruence.
    - exists a, s. split; [done|]. split; [done|]. split; [done|]. intros ?. congruence. }
  destruct (IH s1 Hok1) as (l' & s2 & -> & Hok2 & [G1 G2] & Hr2).
  do 2 eexists. split; [done|]. split; [done|]. destruct Hg1 as [F1 F2]. split; [split; auto|].
  constructor; [|done]. intros Hu h Hh. destruct (Hr1 Hu h Hh); [left|right]; auto.
Qed.

Lemma sent_upload a a' h :
  sent_as a a' -> m_actionId a' = upload -> stringToByteArray (m_param1 a') = Some h -> is_key h /\ h <> 0 /\ m_param1 a' = hashToFileName h.
Proof.
  unfold sent_as. destruct (m_actionId a) eqn:Ha; [|by intros -> ?; congruence|
    by intros [-> _] ?; congruence|by intros -> ?; congruence].
  intros (c & _ & ->) _. cbn [m_param1]. rewrite hash_of_fileName by apply hash_key. intros [= <-].
  split; [apply hash_key|]. split; [apply hash_nonzero|done].
Qed.

Lemma addFileTorrents_total h0 l0 l total s :
  Forall2 sent_as l0 l -> Forall acceptable l0 -> folder_ok (cl_sandbox s) -> Forall (ready s) l ->
  exists outs total' s', addFileTorrents cwd workFolder local torrentHash totalSize drivePublicKey fails h0 l total s =
    Ret (outs, true, total', s').
Proof.
  intros Hsent. revert total s. induction Hsent as [|a0 a l0 l Ha _ IH]; intros total s Hacc Hok Hr; cbn [addFileTorrents].
  { by do 3 eexists. }
  apply Forall_cons in Hacc as [Ha0 Hacc]. apply Forall_cons in Hr as [Hra Hr].
  destruct (m_actionId a) eqn:Ei; [|by apply IH| |by apply IH].
  - destruct (sent_uploadable _ _ Ha Ei) as (h & Eh & Hne). rewrite Eh.
    destruct (sent_upload _ _ _ Ha Ei Eh) as (Hk & _ & En).
    destruct (m_modifyTorrentMap s !! h) as [info|] eqn:Em; [by apply IH|].
    destruct (Hra Ei h Eh) as [[? Hs]|Hs]; [congruence|]. specialize (Hok h Hk) as Hstat. rewrite <- En in Hstat, Hs.
    destruct (sandboxStat workFolder local (m_param1 a) (cl_sandbox s)) as [| |c] eqn:Es; [done..|].
    cbn [createTorrentFile]. rewrite Hstat, Z.eqb_refl. cbn [guard_assert].
    unfold addModifyTorrent. rewrite Es.
    edestruct IH as (outs & total' & s' & E); [exact Hacc| | |rewrite E; cbn; by do 3 eexists]; [exact Hok|].
    eapply ready_grown; [|exact Hr]. split; [|done]. intros h' [i Hi].
    destruct (decide (h' = h)) as [->|Hd]; [congruence|]. exists i. cbn. by rewrite lookup_insert_ne.
  - assert (checkMove cwd fails a = true) as ->; [|by apply IH].
    unfold checkMove. rewrite !no_failure. unfold sent_as in Ha. destruct (m_actionId a0) eqn:E0;
      [by destruct Ha as (c & _ & ->)|congruence|by destruct Ha as [-> ->]|congruence].
Qed.

(** A client that names its files by their full paths gets its hash: if every
    upload is of a local file, no move goes into a folder of its source, the disk
    does not fail, and nothing else stands under the names of hashes, then the call
    ends, no assertion fails, and the result is the hash of the list. *)
Lemma client_list_accepted l total s :
  Forall acceptable l -> folder_ok (cl_sandbox s) ->
  exists r, addActionListToSession cwd workFolder local torrentHash totalSize drivePublicKey fails l total s = Ret r /\
    al_hash r <> 0.
Proof.
  intros Hacc Hok. unfold addActionListToSession. rewrite !no_failure.
  destruct (prepareActions_total l s Hacc Hok) as (sent & s1 & E & Hok1 & _ & Hr). rewrite E.
  apply prepareActions_spec in E as [Hsent _].
  set (content := ListData (actionList_serialize sent)). set (s2 := set_clientFolder _ s1).
  assert (folder_ok (cl_sandbox s2)) as Hok2 by by apply folder_ok_list.
  assert (grown s1 s2) as Hg2.
  { split; [done|]. intros h Hne. cbn. by rewrite sandboxStat_insert, decide_False by apply listName_no_hash. }
  pose proof (ready_grown _ _ _ Hg2 Hr) as Hr2. set (h0 := torrentHash drivePublicKey content).
  assert (h0 <> 0) as Hne by apply hash_nonzero.
  destruct (m_modifyTorrentMap s2 !! h0) as [info|] eqn:Eh.
  - destruct (addFileTorrents_total h0 l sent 1 s2 Hsent Hacc Hok2 Hr2) as (outs & t' & s' & ->). cbn. by eexists.
  - set (s3 := set_clientFolder _ s2).
    destruct (addModifyTorrent _ _ _ _ _ _ _ s3) as [[out size] s4] eqn:Ea.
    assert (cl_sandbox s4 = cl_sandbox s3 /\ (forall h, served s3 h -> served s4 h)) as [E4 G4].
    { unfold addModifyTorrent in Ea. unfold sandboxStat in Ea. cbn in Ea. rewrite lookup_insert_eq in Ea. cbn in Ea.
      injection Ea as _ _ <-. split; [done|]. intros h [i Hi]. unfold served. cbn. destruct (decide (h = h0)) as [->|Hd].
      - rewrite lookup_insert_eq. by eexists.
      - rewrite lookup_insert_ne by done. by exists i. }
    assert (folder_ok (cl_sandbox s4)) as Hok4.
    { rewrite E4. by apply folder_ok_put; [apply folder_ok_delete|]. }
    assert (grown s2 s4) as Hg4.
    { split; [exact G4|]. rewrite E4. intros h Hh. cbn. rewrite sandboxStat_insert. case_decide; [done|].
      by rewrite sandboxStat_delete by apply listName_no_hash. }
    pose proof (ready_grown _ _ _ Hg4 Hr2) as Hr4.
    destruct (addFileTorrents_total h0 l sent (u64_add 1 size) s4 Hsent Hacc Hok4 Hr4) as (outs & t' & s' & E').
    rewrite E'. cbn. by eexists.
Qed.

End Served.

(** ** Instances *)

Definition sampleHash (k : Z) (c : Content) : Z :=
  match c with FileData d => 1 + (k + d) mod 1000 | ListData _ => 2000 end.
Definition sampleSize (c : Content) : Z := match c with FileData _ => 30 | ListData _ => 100 end.

Lemma sampleHash_range k c : 1 <= sampleHash k c <= 2000.
Proof. unfold sampleHash. destruct c; [|lia]. pose proof (Z.mod_pos_bound (k + data) 1000). lia. Qed.

Lemma sampleHash_key k c : is_key (sampleHash k c).
Proof.
  pose proof (sampleHash_range k c). unfold is_key.
  assert (2000 < 256 ^ 32) by (vm_compute; reflexivity). lia.
Qed.

Lemma sampleHash_nonzero k c : sampleHash k c <> 0.
Proof. pose proof (sampleHash_range k c). lia. Qed.

Definition noFailure (_ : FsCall) : bool := false.

(** Two files of a user. *)
Definition home (name : string) : LocalStat :=
  if decide (name = "/home/u/a.txt") then LocalFile (FileData 5)
  else if decide (name = "/home/u/b.txt") then LocalFile (FileData 6) else NotFound.

Definition newClient : ClientState := mkClient ∅ ∅ ∅.

Definition sampleList : list Action :=
  [Action_upload "/home/u/a.txt" "docs"; Action_newFolder "x"; Action_move "p" "q"; Action_upload "/home/u/b.txt" "docs/b"].

Definition sampleAdd : Outcome AddedList :=
  addActionListToSession "/home/u" "/tmp/sb" home sampleHash sampleSize 7 noFailure sampleList 0 newClient.

Lemma sampleList_acceptable : Forall (acceptable "/home/u" home) sampleList.
Proof.
  repeat constructor.
  - by exists (FileData 5).
  - by exists (FileData 6).
Qed.

Lemma client_list_accepted_witness : exists r, sampleAdd = Ret r /\ al_hash r <> 0 /\ al_hash r = 2000.
Proof.
  destruct (client_list_accepted "/home/u" "/tmp/sb" home sampleHash sampleSize 7 noFailure sampleHash_key
    sampleHash_nonzero (fun _ => eq_refl) sampleList 0 newClient sampleList_acceptable) as (r & E & Hne); [by intros h _|].
  exists r. split; [exact E|]. split; [exact Hne|]. vm_compute in E. injection E as <-. reflexivity.
Defined.

Lemma client_list_served_witness : exists r file sent,
  sampleAdd = Ret r /\ actionList_deserialize file = Some sent /\ missedFiles sent [] = Ret [13; 14] /\
  served (al_client r) 13 /\ served (al_client r) 14 /\ served (al_client r) 2000 /\ al_totalModifySize r = 161.
Proof.
  destruct sampleAdd as [r|f] eqn:E; [|vm_compute in E; discriminate E].
  destruct (client_list_served "/home/u" "/tmp/sb" home sampleHash sampleSize 7 noFailure sampleHash_key
    sampleHash_nonzero sampleList 0 newClient r) as (_ & _ & H0 & file & sent & _ & Hd & Hs & (missed & Hm & Hserved) & _);
    [reflexivity|by intros h info H| |exact E| |].
  - apply Forall_cons_2; [by split; [|intros [|]]|]. apply Forall_cons_2; [apply tidy_newFolder|].
    apply Forall_cons_2; [apply tidy_move|]. apply Forall_cons_2; [by split; [|intros [|]]|constructor].
  - vm_compute in E. injection E as <-. discriminate.
  - assert (al_hash r = 2000 /\ al_totalModifySize r = 161) as [Eh Et]
      by (vm_compute in E; injection E as <-; split; reflexivity).
    assert (missedFiles sent [] = Ret [13; 14]) as Em.
    { unfold sampleList in Hs. apply Forall2_cons_inv_l in Hs as (a1 & l1 & (c1 & L1 & ->) & Hs & ->).
      apply Forall2_cons_inv_l in Hs as (a2 & l2 & S2 & Hs & ->). cbn in S2. subst a2.
      apply Forall2_cons_inv_l in Hs as (a3 & l3 & [-> _] & Hs & ->).
      apply Forall2_cons_inv_l in Hs as (a4 & l4 & (c4 & L4 & ->) & Hs & ->). apply Forall2_nil_inv_l in Hs as ->.
      injection L1 as <-. injection L4 as <-. vm_compute. reflexivity. }
    rewrite Hm in Em. injection Em as ->.
    exists r, file, sent. split; [reflexivity|]. split; [exact Hd|]. split; [exact Hm|].
    split; [apply Hserved; by left|]. split; [apply Hserved; right; by left|]. rewrite <- Eh at 1. split; [exact H0|exact Et].
Defined.

(** A file that is named relative to the current directory: the link is resolved in
    the folder of the links, where there is no such file. *)
Example relative_upload_asserts :
  addActionListToSession "/home/u" "/tmp/sb" home sampleHash sampleSize 7 noFailure
    [Action_upload "a.txt" "docs"] 0 newClient = Stop AssertFailure.
Proof. vm_compute. reflexivity. Qed.

(** A link that was made for a file which has changed since is used for another file
    with the old contents. *)
Example stale_link_asserts :
  let s := mkClient {[hashToFileName (sampleHash 7 (FileData 5)) := Link "/home/u/b.txt"]} ∅ ∅ in
  addActionListToSession "/home/u" "/tmp/sb" home sampleHash sampleSize 7 noFailure
    [Action_upload "/home/u/a.txt" "docs"] 0 s = Stop AssertFailure.
Proof. vm_compute. reflexivity. Qed.

(** The total is that of the torrents and one more. *)
Example list_counts_once_more :
  match addActionListToSession "/home/u" "/tmp/sb" home sampleHash sampleSize 7 noFailure
          [Action_newFolder "x"] 0 newClient with
  | Ret r => al_totalModifySize r = 1 + sampleSize (ListData (0%nat, []))
  | Stop _ => False
  end.
Proof. vm_compute. reflexivity. Qed.

(** A move over an ancestor, which stops the replicators, is sent. *)
Example over_ancestor_is_sent :
  over_ancestor (Action_move "a/b" "a") /\
  match addActionListToSession "/home/u" "/tmp/sb" home sampleHash sampleSize 7 noFailure
          [Action_move "a/b" "a"] 0 newClient with
  | Ret r => al_hash r = 2000
  | Stop _ => False
  end.
Proof. split; [split; [reflexivity|split; [by exists ["b"]|discriminate]]|vm_compute; reflexivity]. Qed.

(** The drive key and the transaction are given to the session in each other's place. *)
Example keys_exchanged :
  match addActionListToSession "/home/u" "/tmp/sb" home sampleHash sampleSize 7 noFailure [] 0 newClient with
  | Ret r => al_outputs r = [AddTorrent 2000 2000 7]
  | Stop _ => False
  end.
Proof. vm_compute. reflexivity. Qed.
