(* ===== verification/StatusQueries.v ===== *)
(** * Queries about the state of a channel and of a modification

    The client's questions and what it makes of the answers
    ([include/drive/ClientSession.h]), and the answers of a replicator
    ([on_dht_request], [createChannelStatus] and [createModificationStatus] of
    [src/drive/Replicator.cpp], [findModifyInfo] of [src/drive/FlatDrive.cpp]).

    A message is the bytes of its archive.  What an archive keeps of a value is stated
    by [Archived], the interface to cereal; the fields of the dictionary around a
    message are those of [StatusResponse]. *)

From S2P Require Import Prelude RcptMessage DownloadChannels.

(** A type whose values can be archived: each value takes at least one byte, and is
    read back as [kept] has it. *)
Class Archived (A : Type) := {
  kept_value : A -> A;
  encode : A -> list Z;
  decode : list Z -> option (A * list Z);
  decode_encode a rest : decode (encode a ++ rest) = Some (kept_value a, rest);
  decode_shorter bytes a rest : decode bytes = Some (a, rest) -> (length rest < length bytes)%nat }.

(** The keys at the head of an answer. *)
Record HeadArchive := mkHeadArchive {
  encodeHead : Z -> Z -> list Z;
  decodeHead : list Z -> option (Z * Z * list Z);
  decode_head k id rest : is_key k -> is_key id -> decodeHead (encodeHead k id ++ rest) = Some (k, id, rest) }.

(** ** The modifications that a drive remembers *)

(** [ModifyTrafficInfo]. *)
Record ModifyTrafficInfo := mkTrafficInfo { ti_driveKey : Z; ti_modifyTrafficMap : gmap Z ModifyTraffic }.

Record ModifyInfos := mkModifyInfos {
  mi_oldModifications : list (Z * ModifyTrafficInfo);
  mi_currentModifyTx : option Z;
  mi_modifyInfo : ModifyTrafficInfo }.

Definition resetCurrentModifyInfo (d : ModifyInfos) : ModifyInfos :=
  let cleared := mkTrafficInfo (ti_driveKey (mi_modifyInfo d)) ∅ in
  match mi_currentModifyTx d with
  | Some tx =>
      let old := if (100 <=? length (mi_oldModifications d))%nat
                 then tail (mi_oldModifications d) else mi_oldModifications d in
      mkModifyInfos (old ++ [(tx, mi_modifyInfo d)]) (mi_currentModifyTx d) cleared
  | None => mkModifyInfos (mi_oldModifications d) None cleared
  end.

(** The information, and whether the modification is finished. *)
Definition findModifyInfo (tx : Z) (d : ModifyInfos) : option ModifyTrafficInfo * bool :=
  match List.find (fun m => m.1 =? tx) (mi_oldModifications d) with
  | Some (_, info) => (Some info, true)
  | None =>
      (match mi_currentModifyTx d with
       | Some currentTx => if currentTx =? tx then Some (mi_modifyInfo d) else None
       | None => None
       end, false)
  end.

(** ** The answers of a replicator *)

(** The dictionary of an answer. *)
Record StatusResponse := mkStatusResponse {
  sr_ret : list Z;
  sr_sign : list Z;
  sr_notFound : bool;
  sr_currentTask : string;
  sr_taskIsQueued : bool;
  sr_taskIsFinished : bool }.

Section Replicator.
  Context (replicatorKey : Z) (sign : list Z -> Z) (verify : Z -> list Z -> Z -> bool) (head : HeadArchive).
  Context `{Archived DownloadChannelInfo} `{Archived ModifyTrafficInfo}.

(** The three keys of a question, when it has the right size and is signed by the
    first of them. *)
Definition parseStatusQuery (x sig : list Z) : option (Z * Z) :=
  if negb (length sig =? 64)%nat then None
  else if negb (length x =? 96)%nat then None
  else if negb (verify (of_be (slice 0 32 x)) x (of_be sig)) then None
  else Some (of_be (slice 32 32 x), of_be (slice 64 32 x)).

(** What is written, and the signature: it stays zero when there is no channel. *)
Definition createChannelStatus (channelId : Z) (channels : gmap Z DownloadChannelInfo) : bool * list Z * Z :=
  match channels !! channelId with
  | Some info =>
      let str := encodeHead head replicatorKey channelId ++ encode info in (true, str, sign str)
  | None => (false, encodeHead head replicatorKey channelId, 0)
  end.

Definition createModificationStatus (driveKey modificationHash : Z) (drives : gmap Z ModifyInfos)
    : bool * bool * list Z * Z :=
  let '(found, isFinished) := match drives !! driveKey with
                              | Some d => findModifyInfo modificationHash d
                              | None => (None, false)
                              end in
  let str := encodeHead head replicatorKey modificationHash ++ from_option encode [] found in
  (bool_decide (is_Some found), isFinished, str, sign str).

(** ["get_channel_status"]. *)
Definition onGetChannelStatus (x sig : list Z) (channels : gmap Z DownloadChannelInfo) : option StatusResponse :=
  '(_, channelId) ← parseStatusQuery x sig;
  let '(found, ret, s) := createChannelStatus channelId channels in
  Some (mkStatusResponse ret (be_bytes 64 s) (negb found) "" false false).

(** ["get_modification_status"]; [status] is what [getDriveStatus] says of a drive. *)
Definition onGetModificationStatus (status : Z -> Z -> option string * bool) (x sig : list Z)
    (drives : gmap Z ModifyInfos) : option StatusResponse :=
  '(driveKey, modifyTx) ← parseStatusQuery x sig;
  let '(currentTask, isModificationQueued) :=
    match drives !! driveKey with Some _ => status driveKey modifyTx | None => (None, false) end in
  let '(found, isFinished, ret, s) := createModificationStatus driveKey modifyTx drives in
  Some (mkStatusResponse ret (be_bytes 64 s) (negb found) (default "" currentTask) isModificationQueued isFinished).

End Replicator.

(** ** The client *)

(** A call of the handler that the user of the client has set. *)
Record StatusCall (A : Type) := mkStatusCall {
  sc_replicatorKey : Z;
  sc_hash : Z;
  sc_msg : option A;
  sc_currentTask : string;
  sc_isQueued : bool;
  sc_isFinished : bool;
  sc_error : string }.
Arguments mkStatusCall {A}.
Arguments sc_replicatorKey {A}.
Arguments sc_hash {A}.
Arguments sc_msg {A}.
Arguments sc_error {A}.

Section Client.
  Context (publicKey : Z) (sign : list Z -> Z) (verify : Z -> list Z -> Z -> bool) (head : HeadArchive).

(** [sendChannelStatusRequestToReplicator] and
    [sendModificationStatusRequestToReplicator]: the bytes and the signature, unless
    the address of the replicator is not known. *)
Definition sendStatusRequest {E} (replicatorEndpoint : option E) (driveKey hash : Z) : option (E * list Z * list Z) :=
  endpoint ← replicatorEndpoint;
  let message := be_bytes 32 publicKey ++ be_bytes 32 driveKey ++ be_bytes 32 hash in
  Some (endpoint, message, be_bytes 64 (sign message)).

Definition statusError {A} (replicatorKey hash : Z) (error : string) : StatusCall A :=
  mkStatusCall replicatorKey hash None "" false false error.

(** The loop over the messages of an answer ends when one cannot be read. *)
Fixpoint readInfos {A} `{Archived A} (fuel : nat) (replicatorKey channelId : Z) (bytes : list Z)
    : Outcome (list (StatusCall A)) :=
  match decode bytes with
  | None => Ret []
  | Some (msg, rest) =>
      match fuel with
      | O => Stop NonTermination
      | S fuel' =>
          calls ← readInfos fuel' replicatorKey channelId rest;
          Ret (mkStatusCall replicatorKey channelId (Some msg) "" false false "" :: calls)
      end
  end.

(** The checks that both answers go through. *)
Definition checkStatusResponse {A} (notFound bad : string) (response : StatusResponse)
    : StatusCall A + Z * Z * list Z :=
  match decodeHead head (sr_ret response) with
  | None => inl (statusError 0 0 bad)
  | Some (replicatorKey, hash, rest) =>
      if negb (length (sr_sign response) =? 64)%nat then inl (statusError replicatorKey hash "invalid sign size")
      else if negb (verify replicatorKey (sr_ret response) (of_be (sr_sign response)))
           then inl (statusError replicatorKey hash "invalid sign")
      else if sr_notFound response then inl (statusError replicatorKey hash notFound)
      else inr (replicatorKey, hash, rest)
  end.

(** [handleDhtResponse] of ["get_channel_status"]. *)
Definition onChannelStatusResponse `{Archived DownloadChannelInfo} (response : StatusResponse)
    : Outcome (list (StatusCall DownloadChannelInfo)) :=
  match checkStatusResponse "channel not found" "bad 'get_channel_status' response" response with
  | inl call => Ret [call]
  | inr (replicatorKey, channelId, rest) => readInfos (length rest) replicatorKey channelId rest
  end.

(** [handleDhtResponse] of ["get_modification_status"]. *)
Definition onModificationStatusResponse `{Archived ModifyTrafficInfo} (response : StatusResponse)
    : list (StatusCall ModifyTrafficInfo) :=
  let bad := "bad 'get_modification_status' response"%string in
  match checkStatusResponse "not found" bad response with
  | inl call => [call]
  | inr (replicatorKey, modificationHash, rest) =>
      match decode rest with
      | None => [statusError 0 0 bad]
      | Some (msg, _) =>
          [mkStatusCall replicatorKey modificationHash (Some msg) (sr_currentTask response)
             (sr_taskIsQueued response) (sr_taskIsFinished response) ""]
      end
  end.

End Client.

(** ** The history of a drive *)

(** At most the last hundred modifications are remembered, and the last one is found
    as finished. *)
Lemma resetCurrentModifyInfo_bounded d :
  (length (mi_oldModifications d) <= 100)%nat ->
  (length (mi_oldModifications (resetCurrentModifyInfo d)) <= 100)%nat.
Proof.
  intros Hd. unfold resetCurrentModifyInfo. destruct (mi_currentModifyTx d); cbn [mi_oldModifications]; [|exact Hd].
  rewrite length_app. destruct (100 <=? length (mi_oldModifications d))%nat eqn:E.
  - apply Nat.leb_le in E. destruct (mi_oldModifications d); cbn [length tail] in *; lia.
  - apply Nat.leb_gt in E. cbn [length]. lia.
Qed.

Lemma find_app {A} (f : A -> bool) l k :
  List.find f (l ++ k) = match List.find f l with Some x => Some x | None => List.find f k end.
Proof. induction l as [|x l IH]; [done|]. cbn. by destruct (f x). Qed.

Lemma findModifyInfo_finished d tx :
  mi_currentModifyTx d = Some tx -> (forall m, m ∈ mi_oldModifications d -> m.1 <> tx) ->
  findModifyInfo tx (resetCurrentModifyInfo d) = (Some (mi_modifyInfo d), true).
Proof.
  intros Hc Hnew. unfold findModifyInfo, resetCurrentModifyInfo. rewrite Hc. cbn [mi_oldModifications].
  set (old := if (100 <=? _)%nat then _ else _).
  assert (List.find (fun m : Z * ModifyTrafficInfo => m.1 =? tx) old = None) as Hn.
  { destruct (List.find _ old) as [m|] eqn:E; [|done]. apply find_some in E as [Hin Heq].
    apply Z.eqb_eq in Heq. destruct (Hnew m); [|done]. apply list_elem_of_In. unfold old in Hin.
    destruct (_ <=? _)%nat; [|done]. destruct (mi_oldModifications d); [done|by right]. }
  rewrite find_app, Hn. cbn. by rewrite Z.eqb_refl.
Qed.

(** ** Questions and answers *)

Section Exchange.
  Context (clientKey replicatorKey : Z) (signC signR : list Z -> Z) (verify : Z -> list Z -> Z -> bool).
  Context (head : HeadArchive) `{Archived DownloadChannelInfo} `{Archived ModifyTrafficInfo}.
  Context (client_key : is_key clientKey) (replicator_key : is_key replicatorKey).
  Context (signC_sig : forall b, is_sig (signC b)) (signR_sig : forall b, is_sig (signR b)).
  Context (signC_verify : forall b, verify clientKey b (signC b) = true).
  Context (signR_verify : forall b, verify replicatorKey b (signR b) = true).

(** The question is taken apart as it was put together. *)
Lemma parseStatusQuery_sent {E} (endpoint : E) driveKey hash :
  is_key driveKey -> is_key hash ->
  exists x sig, sendStatusRequest clientKey signC (Some endpoint) driveKey hash = Some (endpoint, x, sig) /\
    parseStatusQuery verify x sig = Some (driveKey, hash).
Proof.
  intros Hd Hh. do 2 eexists. split; [done|]. unfold parseStatusQuery. rewrite length_be_bytes. cbn [Nat.eqb negb].
  set (x := be_bytes 32 clientKey ++ be_bytes 32 driveKey ++ be_bytes 32 hash).
  assert (length x = 96%nat) as Hx by (unfold x; by rewrite !length_app, !length_be_bytes).
  assert (slice 0 32 x = be_bytes 32 clientKey) as E1
    by (unfold x; by apply (slice_mid []); rewrite ?length_be_bytes).
  assert (slice 32 32 x = be_bytes 32 driveKey) as E2
    by (unfold x; by apply slice_mid; rewrite ?length_be_bytes).
  assert (slice 64 32 x = be_bytes 32 hash) as E3.
  { unfold x. rewrite app_assoc, <- (app_nil_r (be_bytes 32 hash)).
    by apply slice_mid; rewrite ?length_app, ?length_be_bytes. }
  rewrite Hx, E1, E2, E3, (of_be_bytes 64) by apply signC_sig. rewrite !of_be_bytes by done. by rewrite signC_verify.
Qed.

Lemma decode_nil {A} `{Archived A} : @decode A _ [] = None.
Proof. destruct (@decode A _ []) as [[a rest]|] eqn:E; [|done]. apply decode_shorter in E. cbn in E. lia. Qed.

(** The loop over an answer ends. *)
Lemma readInfos_returns {A} `{Archived A} k id n bytes :
  (length bytes <= n)%nat -> exists calls : list (StatusCall A), readInfos n k id bytes = Ret calls.
Proof.
  revert bytes. induction n as [|n IH]; intros bytes Hn; cbn [readInfos];
    destruct (decode bytes) as [[msg rest]|] eqn:E; try by eexists.
  - apply decode_shorter in E. lia.
  - apply decode_shorter in E. destruct (IH rest) as (calls & ->); [lia|]. by eexists.
Qed.

Lemma readInfos_one {A} `{Archived A} (a : A) k id :
  readInfos (length (encode a)) k id (encode a) = Ret [mkStatusCall k id (Some (kept_value a)) "" false false ""].
Proof.
  assert (decode (encode a) = Some (kept_value a, [])) as E by (rewrite <- (app_nil_r (encode a)); apply decode_encode).
  pose proof (decode_shorter _ _ _ E) as Hlen. destruct (length (encode a)) as [|n] eqn:En; [cbn in Hlen; lia|].
  cbn [readInfos]. rewrite E. destruct n; cbn [readInfos]; by rewrite decode_nil.
Qed.

(** What a client is told without an error is signed by the replicator it is told of. *)
Lemma status_authentic response calls call :
  onChannelStatusResponse verify head response = Ret calls -> call ∈ calls -> is_Some (sc_msg call) ->
  verify (sc_replicatorKey call) (sr_ret response) (of_be (sr_sign response)) = true.
Proof.
  unfold onChannelStatusResponse, checkStatusResponse. intros E Hc Hm.
  destruct (decodeHead head (sr_ret response)) as [[[k id] rest]|].
  2: { injection E as <-. apply list_elem_of_singleton in Hc as ->. by destruct Hm. }
  destruct (negb (length _ =? 64)%nat); [injection E as <-; apply list_elem_of_singleton in Hc as ->; by destruct Hm|].
  destruct (verify k (sr_ret response) _) eqn:Hv; cbn [negb] in E;
    [|injection E as <-; apply list_elem_of_singleton in Hc as ->; by destruct Hm].
  destruct (sr_notFound response); [injection E as <-; apply list_elem_of_singleton in Hc as ->; by destruct Hm|].
  enough (sc_replicatorKey call = k) as -> by done. revert E. generalize (length rest) as n. intros n.
  clear Hm. revert rest calls Hc. induction n as [|n IH]; intros rest calls Hc; cbn [readInfos];
    destruct (@decode DownloadChannelInfo _ rest) as [[msg rest']|]; try by (intros [= <-]; apply elem_of_nil in Hc).
  intros (calls' & E' & [= <-])%bind_ret_inv. apply elem_of_cons in Hc as [->|Hc]; [done|by eapply IH].
Qed.

(** C39: A client that asks a replicator about a channel or a modification is told what
    the replicator has.  The answer names the replicator and what was asked for; for a
    known channel the handler is called once, with what an archive keeps of the
    channel; for a modification that the drive performs or remembers it is called once
    with its traffic, the task, and whether it waits or is finished; for another
    modification with the error.  For an unknown channel the answer is not signed, and
    the handler is called with ["invalid sign"]. *)
Theorem status_answered {E} (endpoint : E) driveKey hash channels drives status :
  is_key driveKey -> is_key hash -> (forall b, verify replicatorKey b 0 = false) ->
  exists x sig, sendStatusRequest clientKey signC (Some endpoint) driveKey hash = Some (endpoint, x, sig) /\
  (exists response, onGetChannelStatus replicatorKey signR verify head x sig channels = Some response /\
     onChannelStatusResponse verify head response = Ret
       match channels !! hash with
       | Some info => [mkStatusCall replicatorKey hash (Some (kept_value info)) "" false false ""]
       | None => [statusError replicatorKey hash "invalid sign"]
       end) /\
  (exists response, onGetModificationStatus replicatorKey signR verify head status x sig drives = Some response /\
     onModificationStatusResponse verify head response =
       match drives !! driveKey ≫= fun d => (fun info => (d, info)) <$> (findModifyInfo hash d).1 with
       | Some (d, info) =>
           let '(task, queued) := status driveKey hash in
           [mkStatusCall replicatorKey hash (Some (kept_value info)) (default "" task) queued (findModifyInfo hash d).2 ""]
       | None => [statusError replicatorKey hash "not found"]
       end).
Proof.
  intros Hd Hh Hzero. destruct (parseStatusQuery_sent endpoint driveKey hash Hd Hh) as (x & sig & Es & Ep).
  exists x, sig. split; [exact Es|]. split.
  - unfold onGetChannelStatus. rewrite Ep. cbn [mbind option_bind]. unfold createChannelStatus.
    destruct (channels !! hash) as [info|]; eexists; (split; [reflexivity|]);
      unfold onChannelStatusResponse, checkStatusResponse; cbn [sr_ret sr_sign sr_notFound].
    + rewrite decode_head by done. rewrite length_be_bytes, of_be_bytes by apply signR_sig. rewrite signR_verify.
      apply readInfos_one.
    + rewrite <- (app_nil_r (encodeHead _ _ _)), decode_head by done.
      rewrite length_be_bytes, of_be_bytes by done. by rewrite Hzero.
  - unfold onGetModificationStatus. rewrite Ep. cbn [mbind option_bind]. unfold createModificationStatus.
    destruct (drives !! driveKey) as [d|]; cbn [mbind option_bind fmap option_map option_fmap].
    + destruct (status driveKey hash) as [task queued]. destruct (findModifyInfo hash d) as [[info|] finished] eqn:Ef;
        eexists; (split; [reflexivity|]); unfold onModificationStatusResponse, checkStatusResponse;
        cbn [sr_ret sr_sign sr_notFound from_option fst snd fmap option_fmap option_map];
        rewrite decode_head, length_be_bytes, of_be_bytes by (done || apply signR_sig); rewrite signR_verify.
      * cbn. by rewrite Ef, <- (app_nil_r (encode info)), decode_encode.
      * done.
    + eexists. split; [reflexivity|]. unfold onModificationStatusResponse, checkStatusResponse. cbn [sr_ret sr_sign sr_notFound].
      rewrite decode_head, length_be_bytes, of_be_bytes by (done || apply signR_sig). by rewrite signR_verify.
Qed.

End Exchange.

(** ** Instances *)

(** Archives that keep the sizes of a channel, and the drive of a traffic. *)
Definition sizesOnly (prepaid total : Z) : DownloadChannelInfo := mkChannel false prepaid total ∅ ∅ 0 [] ∅ ∅ false.

#[local] Instance sizesArchive : Archived DownloadChannelInfo.
Proof.
  refine {| kept_value ch := sizesOnly (m_prepaidDownloadSize ch) (m_totalReceiptsSize ch);
            encode ch := [m_prepaidDownloadSize ch; m_totalReceiptsSize ch];
            decode bytes := match bytes with
                            | prepaid :: total :: rest => Some (sizesOnly prepaid total, rest)
                            | _ => None
                            end |}.
  - done.
  - intros [|? [|? ?]] a rest; [done..|]. intros [= _ <-]. cbn. lia.
Defined.

#[local] Instance driveArchive : Archived ModifyTrafficInfo.
Proof.
  refine {| kept_value info := mkTrafficInfo (ti_driveKey info) ∅;
            encode info := [ti_driveKey info];
            decode bytes := match bytes with key :: rest => Some (mkTrafficInfo key ∅, rest) | [] => None end |}.
  - done.
  - intros [|? ?] a rest; [done|]. intros [= _ <-]. cbn. lia.
Defined.

Definition rawEncodeHead (k id : Z) : list Z := be_bytes 32 k ++ be_bytes 32 id.
Definition rawDecodeHead (bytes : list Z) : option (Z * Z * list Z) :=
  if (length bytes <? 64)%nat then None else Some (of_be (slice 0 32 bytes), of_be (slice 32 32 bytes), drop 64 bytes).

Lemma rawHead_decodes k id rest :
  is_key k -> is_key id -> rawDecodeHead (rawEncodeHead k id ++ rest) = Some (k, id, rest).
Proof.
  intros Hk Hid. unfold rawDecodeHead, rawEncodeHead. rewrite <- app_assoc.
  destruct (_ <? _)%nat eqn:E.
  { apply Nat.ltb_lt in E. rewrite !length_app, !length_be_bytes in E. lia. }
  assert (slice 0 32 (be_bytes 32 k ++ be_bytes 32 id ++ rest) = be_bytes 32 k) as ->
    by (by apply (slice_mid []); rewrite ?length_be_bytes).
  rewrite (slice_mid (be_bytes 32 k)) by (by rewrite ?length_be_bytes).
  rewrite !of_be_bytes by done. rewrite app_assoc, drop_app_length'; [done|].
  by rewrite length_app, !length_be_bytes.
Qed.

Definition rawHead : HeadArchive := mkHeadArchive rawEncodeHead rawDecodeHead rawHead_decodes.

Definition askedChannel : DownloadChannelInfo := mkChannel false 100 60 {[7 := 0]} ∅ 50 [1] ∅ ∅ false.
Definition askedDrive : ModifyInfos :=
  resetCurrentModifyInfo (mkModifyInfos [] (Some 9) (mkTrafficInfo 50 ∅)).

Lemma status_answered_witness : exists x sig response response',
  onGetChannelStatus 1 (fun _ => 5) (fun _ _ g => g =? 5) rawHead x sig {[9 := askedChannel]} = Some response /\
  onChannelStatusResponse (fun _ _ g => g =? 5) rawHead response =
    Ret [mkStatusCall 1 9 (Some (kept_value askedChannel)) "" false false ""] /\
  onGetModificationStatus 1 (fun _ => 5) (fun _ _ g => g =? 5) rawHead (fun _ _ => (None, false)) x sig
    {[50 := askedDrive]} = Some response' /\
  onModificationStatusResponse (fun _ _ g => g =? 5) rawHead response' =
    [mkStatusCall 1 9 (Some (mkTrafficInfo 50 ∅)) "" false true ""].
Proof.
  destruct (status_answered 7 1 (fun _ => 5) (fun _ => 5) (fun _ _ g => g =? 5) rawHead) with
    (E := nat) (endpoint := 0%nat) (driveKey := 50) (hash := 9) (channels := {[9 := askedChannel]} : gmap Z DownloadChannelInfo)
    (drives := {[50 := askedDrive]} : gmap Z ModifyInfos) (status := fun _ _ : Z => (@None string, false))
    as (x & sig & _ & (r & E1 & E2) & (r' & E3 & E4)); try (by split); try (by intros).
  exists x, sig, r, r'. split; [exact E1|]. split; [exact E2|]. split; [exact E3|exact E4].
Defined.

(** The error for an unknown channel, as the client means it, is never reported. *)
Example unknown_channel_is_a_bad_signature :
  let x := be_bytes 32 7 ++ be_bytes 32 50 ++ be_bytes 32 9 in
  match onGetChannelStatus 1 (fun _ => 5) (fun _ _ g => g =? 5) rawHead x (be_bytes 64 5) ∅ with
  | Some response =>
      sr_notFound response = true /\
      onChannelStatusResponse (fun _ _ g => g =? 5) rawHead response = Ret [statusError 1 9 "invalid sign"]
  | None => False
  end.
Proof. vm_compute. split; reflexivity. Qed.
