(* ===== verification/Endpoints.v ===== *)
(** * The addresses of replicators

    [EndpointsManager] ([include/drive/EndpointsManager.h]): the addresses of the
    replicators that a peer knows, and the address under which others see it; and what
    a replicator does with a handshake, a question about the address of the asker and
    the answer to it ([src/drive/Replicator.cpp]).

    A message is the bytes of its archive ([StatusQueries.Archived]).  The code copies
    addresses between an object of Boost and an array of bytes; [EndpointLayout] says
    that the copy is faithful. *)

From S2P Require Import Prelude RcptMessage DownloadChannels StatusQueries.

(** ** Addresses *)

Inductive Address := V4 (a : Z) | V6 (a scope : Z).
Record Endpoint := mkEndpoint { ep_address : Address; ep_port : Z }.

#[export] Instance address_eq_dec : EqDecision Address.
Proof. solve_decision. Defined.
#[export] Instance endpoint_eq_dec : EqDecision Endpoint.
Proof. solve_decision. Defined.

(** [isValid]: not the address that stands for all of them. *)
Definition isValid (ep : Endpoint) : bool :=
  match ep_address ep with
  | V4 a => negb (a =? 0)
  | V6 a scope => negb ((a =? 0) && (scope =? 0))
  end.

(** The bytes of an address object. *)
Class EndpointLayout := {
  endpointBytes : Endpoint -> list Z;
  bytesEndpoint : list Z -> Endpoint;
  bytesEndpoint_bytes ep : bytesEndpoint (endpointBytes ep) = ep }.

(** ** Messages *)

Record ReplicatorInfo := mkReplicatorInfo { ri_endpoint : Endpoint; ri_publicKey : Z }.

Record ExternalEndpointRequest := mkRequest { eq_requestTo : Z; eq_challenge : Z }.

Record ExternalEndpointResponse := mkResponse {
  er_requestTo : Z;
  er_challenge : Z;
  er_endpoint : list Z;
  er_signature : Z }.

Record DhtHandshake := mkHandshake {
  hs_fromPublicKey : Z;
  hs_toPublicKey : Z;
  hs_endpoint : list Z;
  hs_signature : Z }.

(** What is signed: a number of 32 bytes and an address. *)
Definition signedEndpoint (n : Z) (ep : list Z) : list Z := be_bytes 32 n ++ ep.

Section Signatures.
  Context (verify : Z -> list Z -> Z -> bool).

Definition verifyResponse (r : ExternalEndpointResponse) : bool :=
  verify (er_requestTo r) (signedEndpoint (er_challenge r) (er_endpoint r)) (er_signature r).

Definition verifyHandshake (h : DhtHandshake) : bool :=
  verify (hs_fromPublicKey h) (signedEndpoint (hs_toPublicKey h) (hs_endpoint h)) (hs_signature h).

End Signatures.

(** ** The state *)

Record EndpointInformation := mkEndpointInformation { ei_endpoint : option Endpoint; ei_timer : TimerState }.

(** What the weak pointer [m_session] leads to.  A session whose owner has stopped
    sends, but starts no timers. *)
Inductive SessionState := NoSession | SessionStopped | SessionRunning.

#[export] Instance session_state_eq_dec : EqDecision SessionState.
Proof. solve_decision. Defined.

Record EndpointsManager := mkManager {
  em_endpointsMap : gmap Z EndpointInformation;
  em_unknownEndpointsMap : gmap Z Endpoint;
  em_session : SessionState;
  em_myEndpointUpdateTimer : TimerState;
  em_myExternalEndpoint : option Endpoint;
  em_myExternalEndpointRequest : option ExternalEndpointRequest;
  em_bootstraps : list ReplicatorInfo;
  em_endpointHandler : bool }.

Definition set_endpointsMap v m := mkManager v (em_unknownEndpointsMap m) (em_session m) (em_myEndpointUpdateTimer m)
  (em_myExternalEndpoint m) (em_myExternalEndpointRequest m) (em_bootstraps m) (em_endpointHandler m).
Definition set_unknownEndpointsMap v m := mkManager (em_endpointsMap m) v (em_session m) (em_myEndpointUpdateTimer m)
  (em_myExternalEndpoint m) (em_myExternalEndpointRequest m) (em_bootstraps m) (em_endpointHandler m).
Definition set_session v m := mkManager (em_endpointsMap m) (em_unknownEndpointsMap m) v (em_myEndpointUpdateTimer m)
  (em_myExternalEndpoint m) (em_myExternalEndpointRequest m) (em_bootstraps m) (em_endpointHandler m).
Definition set_myEndpointUpdateTimer v m := mkManager (em_endpointsMap m) (em_unknownEndpointsMap m) (em_session m) v
  (em_myExternalEndpoint m) (em_myExternalEndpointRequest m) (em_bootstraps m) (em_endpointHandler m).
Definition set_myExternalEndpoint v m := mkManager (em_endpointsMap m) (em_unknownEndpointsMap m) (em_session m)
  (em_myEndpointUpdateTimer m) v (em_myExternalEndpointRequest m) (em_bootstraps m) (em_endpointHandler m).
Definition set_myExternalEndpointRequest v m := mkManager (em_endpointsMap m) (em_unknownEndpointsMap m) (em_session m)
  (em_myEndpointUpdateTimer m) (em_myExternalEndpoint m) v (em_bootstraps m) (em_endpointHandler m).
Definition setEndpointHandler m := mkManager (em_endpointsMap m) (em_unknownEndpointsMap m) (em_session m)
  (em_myEndpointUpdateTimer m) (em_myExternalEndpoint m) (em_myExternalEndpointRequest m) (em_bootstraps m) true.

(** What the manager does to the outside. *)
Inductive EmOutput :=
  | FindAddress (key : Z)
  | SendMessage (query : string) (to : Endpoint) (message : list Z)
  | CallEndpointHandler (key : Z) (ep : Endpoint)
  | AnnounceMyIp (ep : Endpoint).

(** [Session::startTimer]. *)
Definition startTimer (s : SessionState) : TimerState :=
  match s with SessionRunning => Pending | _ => NoTimer end.

(** ** The operations *)

Section Manager.
  Context (ownKey listeningPort : Z) (sign : list Z -> Z) (verify : Z -> list Z -> Z -> bool).
  Context `{EndpointLayout}.
  Context `{Archived ExternalEndpointRequest} `{Archived ExternalEndpointResponse} `{Archived DhtHandshake}.

(** The constructor. *)
Definition endpointsManager (bootstraps : list ReplicatorInfo) : EndpointsManager :=
  mkManager
    (foldl (fun m b => <[ri_publicKey b := mkEndpointInformation (Some (ri_endpoint b)) NoTimer]> m) ∅ bootstraps)
    ∅ NoSession NoTimer None None
    (List.filter (fun b => negb (ownKey =? ri_publicKey b)) bootstraps) false.

Definition requestEndpoint (key : Z) (m : EndpointsManager) : list EmOutput :=
  match em_session m with NoSession => [] | _ => [FindAddress key] end.

Definition addEndpointQuery (key : Z) (shouldRequestEndpoint : bool) (m : EndpointsManager)
    : list EmOutput * EndpointsManager :=
  let known := em_endpointsMap m !! key in
  if match known with Some i => bool_decide (ei_endpoint i = None) && shouldRequestEndpoint | None => false end
  then (requestEndpoint key m, m)
  else match em_unknownEndpointsMap m !! key with
       | Some ep =>
           let timer := from_option ei_timer NoTimer known in
           ([], set_unknownEndpointsMap (delete key (em_unknownEndpointsMap m))
                  (set_endpointsMap (<[key := mkEndpointInformation (Some ep) timer]> (em_endpointsMap m)) m))
       | None =>
           let m := set_endpointsMap (<[key := mkEndpointInformation None NoTimer]> (em_endpointsMap m)) m in
           (if shouldRequestEndpoint then requestEndpoint key m else [], m)
       end.

Fixpoint addEndpointQueries (keys : list Z) (shouldRequestEndpoint : bool) (m : EndpointsManager)
    : list EmOutput * EndpointsManager :=
  match keys with
  | [] => ([], m)
  | key :: keys =>
      let '(out, m) := addEndpointQuery key shouldRequestEndpoint m in
      let '(out', m) := addEndpointQueries keys shouldRequestEndpoint m in
      (out ++ out', m)
  end.

(** [m_endpointsMap\[key\].m_timer = ...], which makes an entry when there is none. *)
Definition retryLater (key : Z) (m : EndpointsManager) : EndpointsManager :=
  match em_session m with
  | NoSession => m
  | s =>
      let ep := (em_endpointsMap m !! key) ≫= ei_endpoint in
      set_endpointsMap (<[key := mkEndpointInformation ep (startTimer s)]> (em_endpointsMap m)) m
  end.

Definition onEndpointDiscovered (key : Z) (endpoint : option Endpoint) (m : EndpointsManager)
    : list EmOutput * EndpointsManager :=
  match endpoint with
  | Some ep =>
      if negb (isValid ep) then ([], retryLater key m)
      else match em_endpointsMap m !! key with
           | Some i =>
               let out := if em_endpointHandler m && bool_decide (ei_endpoint i <> Some ep)
                          then [CallEndpointHandler key ep] else [] in
               (out, set_endpointsMap (<[key := mkEndpointInformation (Some ep) NoTimer]> (em_endpointsMap m)) m)
           | None => ([], set_unknownEndpointsMap (<[key := ep]> (em_unknownEndpointsMap m)) m)
           end
  | None => ([], retryLater key m)
  end.

Definition getEndpoint (key : Z) (m : EndpointsManager) : option Endpoint :=
  i ← em_endpointsMap m !! key;
  ep ← ei_endpoint i;
  if isValid ep then Some ep else None.

Definition sendHandshake (to : Z) (m : EndpointsManager) : Outcome (list EmOutput) :=
  match em_myExternalEndpoint m with
  | None => Stop AssertFailure
  | Some mine =>
      Ret (if to =? ownKey then []
           else match getEndpoint to m with
                | None => []
                | Some ep =>
                    let bytes := endpointBytes mine in
                    let handshake := mkHandshake ownKey to bytes (sign (signedEndpoint to bytes)) in
                    match em_session m with
                    | NoSession => []
                    | _ => [SendMessage "handshake" ep (encode handshake)]
                    end
                end)
  end.

(** The loop over the known replicators. *)
Fixpoint sendHandshakes (keys : list Z) (m : EndpointsManager) : Outcome (list EmOutput) :=
  match keys with
  | [] => Ret []
  | key :: keys =>
      out ← sendHandshake key m;
      out' ← sendHandshakes keys m;
      Ret (out ++ out')
  end.

(** The log of a bad answer prints the open request, also when there is none. *)
Definition onMyEndpointResponse (r : ExternalEndpointResponse) (m : EndpointsManager)
    : Outcome (list EmOutput * EndpointsManager) :=
  if bool_decide (em_session m = NoSession) then Ret ([], m) else
  match em_myExternalEndpointRequest m with
  | None => Stop UndefinedBehaviour
  | Some req =>
      if negb ((eq_challenge req =? er_challenge r) && (eq_requestTo req =? er_requestTo r)) then Ret ([], m) else
      if negb (verifyResponse verify r) then Ret ([], m) else
      let ep := bytesEndpoint (er_endpoint r) in
      if negb (isValid ep) then Ret ([], m) else
      if ownKey =? er_requestTo r then Ret ([], m) else
      if negb (listeningPort =? ep_port ep) then Ret ([], m) else
      let ipChanged := bool_decide (em_myExternalEndpoint m <> Some ep) in
      let m := set_myExternalEndpoint (Some ep) m in
      out ← (if ipChanged then sendHandshakes (sorted_keys (em_endpointsMap m)) m else Ret []);
      Ret (out ++ [AnnounceMyIp ep], set_myExternalEndpointRequest None m)
  end.

(** [onMyEndpointTimerTick]; [rand] and [challenge] are what the random source gives. *)
Definition onMyEndpointTimerTick (rand : nat) (challenge : Z) (m : EndpointsManager)
    : list EmOutput * EndpointsManager :=
  match em_bootstraps m !! (rand `mod` length (em_bootstraps m))%nat with
  | None => ([], m)
  | Some b =>
      let request := mkRequest (ri_publicKey b) challenge in
      let m := set_myExternalEndpointRequest (Some request) m in
      match em_session m with
      | NoSession => ([], m)
      | s => ([SendMessage "endpoint_request" (ri_endpoint b) (encode request)],
              set_myEndpointUpdateTimer (startTimer s) m)
      end
  end.

Definition start (session : SessionState) (rand : nat) (challenge : Z) (m : EndpointsManager)
    : list EmOutput * EndpointsManager :=
  let m := set_session session m in
  match em_bootstraps m with [] => ([], m) | _ => onMyEndpointTimerTick rand challenge m end.

(** [stop]: the timers are cancelled. *)
Definition stopTimers (m : EndpointsManager) : EndpointsManager :=
  set_endpointsMap ((fun i => mkEndpointInformation (ei_endpoint i) NoTimer) <$> em_endpointsMap m)
    (set_myEndpointUpdateTimer NoTimer m).

(** The timer of a key expires: [requestEndpoint]. *)
Definition onKeyTimer (key : Z) (m : EndpointsManager) : option (list EmOutput * EndpointsManager) :=
  match em_endpointsMap m !! key with
  | Some (mkEndpointInformation ep Pending) =>
      Some (requestEndpoint key m, set_endpointsMap (<[key := mkEndpointInformation ep Fired]> (em_endpointsMap m)) m)
  | _ => None
  end.

(** ** A replicator and the messages about addresses *)

Definition processHandshake (info : DhtHandshake) (source : Endpoint) (m : EndpointsManager)
    : list EmOutput * EndpointsManager :=
  if negb (hs_toPublicKey info =? ownKey) then ([], m)
  else if negb (verifyHandshake verify info) then ([], m)
  else onEndpointDiscovered (hs_fromPublicKey info) (Some source) m.

Definition processEndpointRequest (request : ExternalEndpointRequest) (source : Endpoint) : list EmOutput :=
  if ownKey =? eq_requestTo request
  then let bytes := endpointBytes source in
       let signature := sign (signedEndpoint (eq_challenge request) bytes) in
       [SendMessage "endpoint_response" source
          (encode (mkResponse (eq_requestTo request) (eq_challenge request) bytes signature))]
  else [].

(** [onMessageReceived], the three queries about addresses.  An archive that cannot be
    read throws, and the exception is caught. *)
Definition onEndpointMessage (query : string) (message : list Z) (source : Endpoint) (m : EndpointsManager)
    : Outcome (list EmOutput * EndpointsManager) :=
  if decide (query = "handshake"%string) then
    Ret (match @decode DhtHandshake _ message with
         | Some (info, _) => processHandshake info source m
         | None => ([], m)
         end)
  else if decide (query = "endpoint_request"%string) then
    Ret (match @decode ExternalEndpointRequest _ message with
         | Some (request, _) => (processEndpointRequest request source, m)
         | None => ([], m)
         end)
  else if decide (query = "endpoint_response"%string) then
    match @decode ExternalEndpointResponse _ message with
    | Some (response, _) => onMyEndpointResponse response m
    | None => Ret ([], m)
    end
  else Ret ([], m).

End Manager.

(** ** Messages to a replicator *)

(** [sendMessage] and [sendSignedMessage] of a replicator: where the message goes, its
    bytes and the signature. *)
Definition sendMessage (isDestructing : bool) (query : string) (replicatorKey : Z) (message : list Z)
    (m : EndpointsManager) : option (Endpoint * list Z) :=
  if isDestructing then None else ep ← getEndpoint replicatorKey m; Some (ep, message).

Definition sendSignedMessage (sign : list Z -> Z) (isDestructing : bool) (query : string) (replicatorKey : Z)
    (message : list Z) (m : EndpointsManager) : option (Endpoint * list Z * Z) :=
  if isDestructing then None else ep ← getEndpoint replicatorKey m; Some (ep, message, sign message).
