(* ===== verification/EndpointsSpec.v ===== *)
(** * The addresses that a peer uses come from those whose they are

    The runs of a replicator's [EndpointsManager], and what its addresses go back to;
    and the exchange in which a replicator learns its own address and the others learn
    it from the replicator. *)

From S2P Require Import Prelude RcptMessage DownloadChannels StatusQueries Endpoints.

(** ** Runs *)

Inductive EmEvent :=
  | Started (s : SessionState) (rand : nat) (challenge : Z)
  | Queried (key : Z) (shouldRequestEndpoint : bool)
  | Found (key : Z) (ep : Endpoint)                              (* an item of the DHT *)
  | Received (query : string) (message : list Z) (source : Endpoint)
  | MyTimer (rand : nat) (challenge : Z)
  | KeyTimer (key : Z)
  | SessionChanged (s : SessionState)
  | TimersStopped.

Section Run.
  Context (ownKey listeningPort : Z) (sign : list Z -> Z) (verify : Z -> list Z -> Z -> bool).
  Context `{EndpointLayout}.
  Context `{Archived ExternalEndpointRequest} `{Archived ExternalEndpointResponse} `{Archived DhtHandshake}.

(** An expiry of a timer that is not pending changes nothing. *)
Definition emStep (ev : EmEvent) (m : EndpointsManager) : Outcome (list EmOutput * EndpointsManager) :=
  match ev with
  | Started s rand challenge => Ret (start s rand challenge m)
  | Queried key should => Ret (addEndpointQuery key should m)
  | Found key ep => Ret (onEndpointDiscovered key (Some ep) m)
  | Received query message source => onEndpointMessage ownKey listeningPort sign verify query message source m
  | MyTimer rand challenge =>
      Ret (match em_myEndpointUpdateTimer m with
           | Pending => onMyEndpointTimerTick rand challenge m
           | _ => ([], m)
           end)
  | KeyTimer key => Ret (default ([], m) (onKeyTimer key m))
  | SessionChanged s => Ret ([], set_session s m)
  | TimersStopped => Ret ([], stopTimers m)
  end.

Inductive emReaches (bootstraps : list ReplicatorInfo) : list EmEvent -> list EmOutput -> EndpointsManager -> Prop :=
  | reaches_new : emReaches bootstraps [] [] (endpointsManager ownKey bootstraps)
  | reaches_step evs out m ev out' m' :
      emReaches bootstraps evs out m -> emStep ev m = Ret (out', m') ->
      emReaches bootstraps (evs ++ [ev]) (out ++ out') m'.

(** ** Where an address comes from *)

(** Who said that [ep] is the address of [key]: the configuration, the DHT, or a
    handshake to this replicator that [key] signed and that came from [ep]. *)
Definition told (bootstraps : list ReplicatorInfo) (evs : list EmEvent) (key : Z) (ep : Endpoint) : Prop :=
  mkReplicatorInfo ep key ∈ bootstraps \/
  Found key ep ∈ evs \/
  exists message info rest, Received "handshake" message ep ∈ evs /\
    @decode DhtHandshake _ message = Some (info, rest) /\ hs_fromPublicKey info = key /\
    hs_toPublicKey info = ownKey /\ verifyHandshake verify info = true.

Definition others (bootstraps : list ReplicatorInfo) : list ReplicatorInfo :=
  List.filter (fun b => negb (ownKey =? ri_publicKey b)) bootstraps.

(** A question with this challenge went to [b]. *)
Definition asked (bootstraps : list ReplicatorInfo) (evs : list EmEvent) (b : ReplicatorInfo) (challenge : Z) : Prop :=
  exists rand, others bootstraps !! (rand `mod` length (others bootstraps))%nat = Some b /\
    ((exists s, Started s rand challenge ∈ evs) \/ MyTimer rand challenge ∈ evs).

(** [ep] is the answer that another bootstrap node signed to a question it was asked
    before. *)
Definition confirmed (bootstraps : list ReplicatorInfo) (evs : list EmEvent) (ep : Endpoint) : Prop :=
  isValid ep = true /\ ep_port ep = listeningPort /\
  exists before after message source rest b r,
    evs = before ++ Received "endpoint_response" message source :: after /\
    @decode ExternalEndpointResponse _ message = Some (r, rest) /\ bytesEndpoint (er_endpoint r) = ep /\
    b ∈ bootstraps /\ ri_publicKey b <> ownKey /\ er_requestTo r = ri_publicKey b /\
    verifyResponse verify r = true /\ asked bootstraps before b (er_challenge r).

(** A handshake that goes to a known address and gives an address of its own. *)
Definition honest_output (bootstraps : list ReplicatorInfo) (evs : list EmEvent) (o : EmOutput) : Prop :=
  match o with
  | SendMessage query to message =>
      query = "handshake"%string -> exists key mine, isValid to = true /\ told bootstraps evs key to /\
        confirmed bootstraps evs mine /\ key <> ownKey /\
        message = encode (mkHandshake ownKey key (endpointBytes mine) (sign (signedEndpoint key (endpointBytes mine))))
  | AnnounceMyIp ep => confirmed bootstraps evs ep
  | _ => True
  end.

(** Later events add to what was told. *)
Lemma told_more bs evs evs' key ep : told bs evs key ep -> told bs (evs ++ evs') key ep.
Proof.
  intros [Hb|[Hf|(msg & info & rest & Hr & Hi)]]; [by left|right; left; set_solver|].
  right. right. exists msg, info, rest. split; [set_solver|done].
Qed.

Lemma asked_more bs evs evs' b c : asked bs evs b c -> asked bs (evs ++ evs') b c.
Proof. intros (rand & Hb & [[s Hs]|Hm]); exists rand; (split; [done|]); set_solver. Qed.

Lemma confirmed_more bs evs evs' ep : confirmed bs evs ep -> confirmed bs (evs ++ evs') ep.
Proof.
  intros (Hv & Hp & before & after & msg & source & rest & b & r & -> & Hrest).
  split; [done|]. split; [done|]. exists before, (after ++ evs'), msg, source, rest, b, r.
  split; [by rewrite <- app_assoc|done].
Qed.

Lemma honest_more bs evs evs' o : honest_output bs evs o -> honest_output bs (evs ++ evs') o.
Proof.
  destruct o as [|query to msg| |ep]; cbn; [done| |done|apply confirmed_more].
  intros Hh Hq. destruct (Hh Hq) as (key & mine & Hv & Ht & Hc & Hm).
  exists key, mine. split; [done|]. split; [by apply told_more|]. split; [by apply confirmed_more|done].
Qed.

(** ** The invariant *)

Record em_inv (bs : list ReplicatorInfo) (evs : list EmEvent) (m : EndpointsManager) : Prop := {
  emi_bootstraps : em_bootstraps m = others bs;
  emi_known key ep t : em_endpointsMap m !! key = Some (mkEndpointInformation (Some ep) t) -> told bs evs key ep;
  emi_unknown key ep : em_unknownEndpointsMap m !! key = Some ep -> told bs evs key ep;
  emi_request r : em_myExternalEndpointRequest m = Some r ->
    exists b, b ∈ em_bootstraps m /\ eq_requestTo r = ri_publicKey b /\ asked bs evs b (eq_challenge r);
  emi_mine ep : em_myExternalEndpoint m = Some ep -> confirmed bs evs ep }.

Lemma em_inv_new bs : em_inv bs [] (endpointsManager ownKey bs).
Proof.
  split; cbn; [done| |intros ? ?; by rewrite lookup_empty|done|done].
  intros key ep t. assert (forall l (m : gmap Z EndpointInformation), (m !! key = Some (mkEndpointInformation (Some ep) t) -> told bs [] key ep) ->
    (forall b, b ∈ l -> b ∈ bs) ->
    foldl (fun m b => <[ri_publicKey b := mkEndpointInformation (Some (ri_endpoint b)) NoTimer]> m) m l !! key =
      Some (mkEndpointInformation (Some ep) t) -> told bs [] key ep) as Hind.
  { induction l as [|b l IH]; intros m Hm Hl; cbn; [done|]. apply IH; [|set_solver].
    destruct (decide (ri_publicKey b = key)) as [<-|Hne]; [|by rewrite lookup_insert_ne].
    rewrite lookup_insert_eq. intros [= <- <-]. left. destruct b. cbn. apply Hl. set_solver. }
  apply Hind; [by rewrite lookup_empty|done].
Qed.

Lemma em_inv_more bs evs evs' m : em_inv bs evs m -> em_inv bs (evs ++ evs') m.
Proof.
  intros [Hb Hk Hu Hr Hm]. split; [done| | | |].
  - intros key ep t Hl. by eapply told_more, Hk.
  - intros key ep Hl. by apply told_more, Hu.
  - intros r Hl. destruct (Hr r Hl) as (b & Hin & He & Ha). exists b. eauto using asked_more.
  - intros ep Hl. by apply confirmed_more, Hm.
Qed.

(** Replacing what is known of one key. *)
Lemma em_inv_insert bs evs m key i :
  em_inv bs evs m -> (forall ep, ei_endpoint i = Some ep -> told bs evs key ep) ->
  em_inv bs evs (set_endpointsMap (<[key := i]> (em_endpointsMap m)) m).
Proof.
  intros [Hb Hk Hu Hr Hm] Hi. split; cbn; [done| |done|done|done].
  intros key' ep t. destruct (decide (key = key')) as [<-|Hne].
  - rewrite lookup_insert_eq. intros [= ->]. by apply Hi.
  - rewrite lookup_insert_ne by done. apply Hk.
Qed.

Lemma em_inv_unknown bs evs m u :
  em_inv bs evs m -> (forall key ep, u !! key = Some ep -> told bs evs key ep) ->
  em_inv bs evs (set_unknownEndpointsMap u m).
Proof. intros [Hb Hk Hu Hr Hm] Hi. by split. Qed.

Lemma em_inv_session bs evs m s : em_inv bs evs m -> em_inv bs evs (set_session s m).
Proof. intros [Hb Hk Hu Hr Hm]. by split. Qed.

Lemma em_inv_timer bs evs m t : em_inv bs evs m -> em_inv bs evs (set_myEndpointUpdateTimer t m).
Proof. intros [Hb Hk Hu Hr Hm]. by split. Qed.

Lemma ei_told bs evs m key ep : em_inv bs evs m -> (em_endpointsMap m !! key) ≫= ei_endpoint = Some ep -> told bs evs key ep.
Proof. intros Hinv E. destruct (em_endpointsMap m !! key) as [[e t]|] eqn:El; cbn in E; [subst e|done]. by eapply emi_known. Qed.

Lemma getEndpoint_told bs evs m key ep :
  em_inv bs evs m -> getEndpoint key m = Some ep -> isValid ep = true /\ told bs evs key ep.
Proof.
  unfold getEndpoint. intros Hinv E. destruct (em_endpointsMap m !! key) as [[[e|] t]|] eqn:El; cbn in E; try done.
  destruct (isValid e) eqn:Ev; [|done]. injection E as <-. split; [done|]. by eapply emi_known.
Qed.

(** ** Preservation *)

Lemma em_inv_query bs evs m key should out m' :
  em_inv bs evs m -> addEndpointQuery key should m = (out, m') ->
  em_inv bs evs m' /\ Forall (honest_output bs evs) out.
Proof.
  intros Hinv E. unfold addEndpointQuery in E.
  assert (Forall (honest_output bs evs) (requestEndpoint key m)) as Hreq
    by (unfold requestEndpoint; destruct (em_session m); by repeat constructor).
  match type of E with (if ?b then _ else _) = _ => destruct b end; [by injection E as <- <-|].
  destruct (em_unknownEndpointsMap m !! key) as [ep|] eqn:Eu; injection E as <- <-.
  - split; [|done]. apply em_inv_unknown.
    + apply em_inv_insert; [done|]. cbn. intros ? [= <-]. by eapply emi_unknown.
    + intros key' ep' Hl. apply lookup_delete_Some in Hl as [_ Hl]. by eapply emi_unknown.
  - split; [by apply em_inv_insert|]. by destruct should.
Qed.

Lemma em_inv_retry bs evs m key : em_inv bs evs m -> em_inv bs evs (retryLater key m).
Proof.
  intros Hinv. unfold retryLater. destruct (em_session m) eqn:Es; [done| |];
    (apply em_inv_insert; [done|]; cbn; intros ep He; by eapply ei_told).
Qed.

Lemma em_inv_discovered bs evs m key ep out m' :
  em_inv bs evs m -> told bs evs key ep -> onEndpointDiscovered key (Some ep) m = (out, m') ->
  em_inv bs evs m' /\ Forall (honest_output bs evs) out.
Proof.
  intros Hinv Ht E. unfold onEndpointDiscovered in E.
  destruct (isValid ep); cbn [negb] in E; [|injection E as <- <-; split; [by apply em_inv_retry|done]].
  destruct (em_endpointsMap m !! key) as [i|] eqn:El; injection E as <- <-.
  - split; [apply em_inv_insert; [done|]; cbn; by intros ? [= <-]|]. destruct (_ && _); by repeat constructor.
  - split; [|done]. apply em_inv_unknown; [done|]. intros key' ep'.
    destruct (decide (key = key')) as [<-|Hne]; [rewrite lookup_insert_eq; by intros [= <-]|].
    rewrite lookup_insert_ne by done. by apply (emi_unknown _ _ _ Hinv).
Qed.

Lemma em_inv_tick bs evs m rand challenge out m' :
  em_inv bs evs m -> (exists s, Started s rand challenge ∈ evs) \/ MyTimer rand challenge ∈ evs ->
  onMyEndpointTimerTick rand challenge m = (out, m') ->
  em_inv bs evs m' /\ Forall (honest_output bs evs) out.
Proof.
  intros Hinv Hev E. unfold onMyEndpointTimerTick in E.
  destruct (em_bootstraps m !! _) as [b|] eqn:Eb; [|by injection E as <- <-].
  assert (em_inv bs evs (set_myExternalEndpointRequest (Some (mkRequest (ri_publicKey b) challenge)) m)) as Hi.
  { destruct Hinv as [Hb Hk Hu Hr Hm]. split; cbn; [done|done|done| |done].
    intros r [= <-]. exists b. split; [by eapply list_elem_of_lookup_2|]. split; [done|].
    exists rand. rewrite <- Hb. done. }
  cbn [em_session set_myExternalEndpointRequest] in E.
  destruct (em_session m); injection E as <- <-; (split; [by try apply em_inv_timer|]);
    repeat constructor; cbn; by intros.
Qed.

(** The handshakes of a loop over known keys. *)
Lemma sendHandshake_honest bs evs m key out :
  em_inv bs evs m -> sendHandshake ownKey sign key m = Ret out -> Forall (honest_output bs evs) out.
Proof.
  intros Hinv E. unfold sendHandshake in E. destruct (em_myExternalEndpoint m) as [mine|] eqn:Em; [|done].
  injection E as <-. destruct (key =? ownKey) eqn:Ek; [done|].
  destruct (getEndpoint key m) as [ep|] eqn:Eg; [|done].
  destruct (getEndpoint_told _ _ _ _ _ Hinv Eg) as [Hv Ht].
  assert (Forall (honest_output bs evs) [SendMessage "handshake" ep
    (encode (mkHandshake ownKey key (endpointBytes mine) (sign (signedEndpoint key (endpointBytes mine)))))]) as Hf.
  { repeat constructor. cbn. intros _. exists key, mine. split; [done|]. split; [done|].
    split; [by eapply emi_mine|]. split; [by apply Z.eqb_neq|done]. }
  by destruct (em_session m).
Qed.

Lemma sendHandshakes_honest bs evs m keys out :
  em_inv bs evs m -> sendHandshakes ownKey sign keys m = Ret out -> Forall (honest_output bs evs) out.
Proof.
  intros Hinv. revert out. induction keys as [|key keys IH]; intros out E; cbn in E; [by injection E as <-|].
  apply bind_ret_inv in E as (out1 & E1 & E). apply bind_ret_inv in E as (out2 & E2 & E). injection E as <-.
  apply Forall_app. split; [by eapply sendHandshake_honest|by apply IH].
Qed.

Lemma em_inv_response bs evs m message source r rest out m' :
  em_inv bs evs m -> @decode ExternalEndpointResponse _ message = Some (r, rest) ->
  onMyEndpointResponse ownKey listeningPort sign verify r m = Ret (out, m') ->
  em_inv bs (evs ++ [Received "endpoint_response" message source]) m' /\
  Forall (honest_output bs (evs ++ [Received "endpoint_response" message source])) out.
Proof.
  intros Hinv Ed E. unfold onMyEndpointResponse in E.
  set (evs' := evs ++ _). assert (em_inv bs evs' m) as Hinv' by by apply em_inv_more.
  case_bool_decide; [by injection E as <- <-|].
  destruct (em_myExternalEndpointRequest m) as [req|] eqn:Eq; [|done].
  destruct ((_ =? _) && _) eqn:Ec; cbn [negb] in E; [|by injection E as <- <-].
  apply andb_prop in Ec as [Ec%Z.eqb_eq Et%Z.eqb_eq].
  destruct (verifyResponse verify r) eqn:Ev; cbn [negb] in E; [|by injection E as <- <-].
  set (ep := bytesEndpoint (er_endpoint r)) in *.
  destruct (isValid ep) eqn:Evalid; cbn [negb] in E; [|by injection E as <- <-].
  destruct (ownKey =? er_requestTo r) eqn:Eo; [by injection E as <- <-|].
  destruct (listeningPort =? ep_port ep) eqn:Ep; cbn [negb] in E; [|by injection E as <- <-].
  apply bind_ret_inv in E as (hands & Eh & E). injection E as <- <-.
  assert (confirmed bs evs' ep) as Hc.
  { split; [done|]. split; [by symmetry; apply Z.eqb_eq|].
    destruct (emi_request _ _ _ Hinv req Eq) as (b & Hb & Hto & Ha).
    exists evs, [], message, source, rest, b, r. rewrite (emi_bootstraps _ _ _ Hinv) in Hb.
    apply list_elem_of_In, filter_In in Hb as [Hb Hne]. apply list_elem_of_In in Hb.
    apply negb_true_iff, Z.eqb_neq in Hne.
    split; [done|]. split; [done|]. split; [done|]. split; [done|]. split; [done|]. split; [congruence|].
    split; [done|]. by rewrite <- Ec. }
  assert (em_inv bs evs' (set_myExternalEndpoint (Some ep) m)) as Hset.
  { destruct Hinv' as [Hb Hk Hu Hr Hm]. split; cbn; [done|done|done|done|]. by intros ? [= <-]. }
  split.
  - destruct Hset as [Hb Hk Hu Hr Hm]. by split.
  - apply Forall_app. split; [|by apply Forall_singleton].
    destruct (bool_decide _); [by eapply sendHandshakes_honest|by injection Eh as <-].
Qed.

Lemma em_inv_message bs evs m query message source out m' :
  em_inv bs evs m -> onEndpointMessage ownKey listeningPort sign verify query message source m = Ret (out, m') ->
  em_inv bs (evs ++ [Received query message source]) m' /\
  Forall (honest_output bs (evs ++ [Received query message source])) out.
Proof.
  intros Hinv E. unfold onEndpointMessage in E.
  assert (em_inv bs (evs ++ [Received query message source]) m) as Hinv' by by apply em_inv_more.
  case_decide as Hq; [subst query|case_decide as Hq2; [subst query|case_decide as Hq3; [subst query|by injection E as <- <-]]].
  - destruct (decode message) as [[info rest]|] eqn:Ed; [|by injection E as <- <-].
    unfold processHandshake in E. destruct (hs_toPublicKey info =? ownKey) eqn:Et; cbn [negb] in E; [|by injection E as <- <-].
    destruct (verifyHandshake verify info) eqn:Ev; cbn [negb] in E; [|by injection E as <- <-].
    injection E as E. eapply em_inv_discovered in E; [done|done|].
    right. right. exists message, info, rest. split; [set_solver|]. split; [done|]. split; [done|].
    split; [by apply Z.eqb_eq|done].
  - destruct (decode message) as [[request rest]|]; injection E as <- <-; (split; [done|]); [|done].
    unfold processEndpointRequest. destruct (_ =? _); [|done]. by repeat constructor.
  - destruct (decode message) as [[r rest]|] eqn:Ed; [|by injection E as <- <-].
    by eapply em_inv_response.
Qed.

Lemma em_inv_stopped bs evs m : em_inv bs evs m -> em_inv bs evs (stopTimers m).
Proof.
  intros [Hb Hk Hu Hr Hm]. split; cbn; [done| |done|done|done].
  intros key ep t Hl. apply lookup_fmap_Some in Hl as ([e t'] & [= -> <-] & Hl). by eapply Hk.
Qed.

Lemma em_inv_step bs evs m ev out m' :
  em_inv bs evs m -> emStep ev m = Ret (out, m') ->
  em_inv bs (evs ++ [ev]) m' /\ Forall (honest_output bs (evs ++ [ev])) out.
Proof.
  intros Hinv E. assert (em_inv bs (evs ++ [ev]) m) as Hinv' by by apply em_inv_more.
  destruct ev as [s rand c|key should|key ep|query message source|rand c|key|s|]; cbn in E.
  - injection E as E. unfold start in E.
    assert (em_inv bs (evs ++ [Started s rand c]) (set_session s m)) as Hs by by apply em_inv_session.
    cbn [em_bootstraps set_session] in E. destruct (em_bootstraps m); [by injection E as <- <-|].
    eapply em_inv_tick; [done| |done]. left. exists s. set_solver.
  - injection E as E. by eapply em_inv_query.
  - injection E as E. eapply em_inv_discovered; [done| |done]. right. left. set_solver.
  - by eapply em_inv_message.
  - injection E as E. destruct (em_myEndpointUpdateTimer m); try by injection E as <- <-.
    eapply em_inv_tick; [done| |done]. right. set_solver.
  - injection E as E. unfold onKeyTimer in E.
    destruct (em_endpointsMap m !! key) as [[ep [| |]]|] eqn:El; cbn in E; injection E as <- <-; try done.
    split; [|unfold requestEndpoint; destruct (em_session m); by repeat constructor].
    apply em_inv_insert; [done|]. cbn. intros e ->. by eapply emi_known.
  - injection E as <- <-. split; [by apply em_inv_session|done].
  - injection E as <- <-. split; [by apply em_inv_stopped|done].
Qed.

Lemma em_inv_reaches bs evs out m :
  emReaches bs evs out m -> em_inv bs evs m /\ Forall (honest_output bs evs) out.
Proof.
  induction 1 as [|evs out m ev out' m' _ [IH1 IH2] E]; [split; [apply em_inv_new|done]|].
  destruct (em_inv_step _ _ _ _ _ _ IH1 E) as [Hi Ho]. split; [done|]. apply Forall_app. split; [|done].
  eapply Forall_impl; [done|]. intros o. apply honest_more.
Qed.

(** C37: whatever a replicator received, in any order: an address that it uses is a real
    one and is from the configuration, from the DHT, or the source of a handshake that
    the other signed for it; the address it takes for its own, announces and signs in
    its handshakes is one that another bootstrap node signed together with a challenge
    of a question that went to this node before, and has the port it listens on; and a
    handshake goes to such an address of the other. *)
Theorem endpoints_authentic bs evs out m :
  emReaches bs evs out m ->
  (forall key ep, getEndpoint key m = Some ep -> isValid ep = true /\ told bs evs key ep) /\
  (forall ep, em_myExternalEndpoint m = Some ep -> confirmed bs evs ep) /\
  Forall (honest_output bs evs) out.
Proof.
  intros Hr. destruct (em_inv_reaches _ _ _ _ Hr) as [Hinv Hout]. split; [|split; [|done]].
  - intros key ep. by apply getEndpoint_told.
  - intros ep. by apply (emi_mine _ _ _ Hinv).
Qed.

(** ** What can stop a replicator *)

Lemma sendHandshakes_returns m mine keys :
  em_myExternalEndpoint m = Some mine -> em_session m <> NoSession ->
  exists out, sendHandshakes ownKey sign keys m = Ret out /\
    forall key ep, key ∈ keys -> key <> ownKey -> getEndpoint key m = Some ep ->
      SendMessage "handshake" ep
        (encode (mkHandshake ownKey key (endpointBytes mine) (sign (signedEndpoint key (endpointBytes mine))))) ∈ out.
Proof.
  intros Hm Hs. induction keys as [|key keys (out & E & Hout)]; [exists []; split; [done|set_solver]|].
  assert (exists out1, sendHandshake ownKey sign key m = Ret out1 /\
    forall ep, key <> ownKey -> getEndpoint key m = Some ep -> SendMessage "handshake" ep
      (encode (mkHandshake ownKey key (endpointBytes mine) (sign (signedEndpoint key (endpointBytes mine))))) ∈ out1)
    as (out1 & E1 & Hout1).
  { unfold sendHandshake. rewrite Hm. eexists. split; [done|]. intros ep Hne ->.
    apply Z.eqb_neq in Hne as ->. destruct (em_session m); [done| |]; set_solver. }
  exists (out1 ++ out). cbn. rewrite E1. cbn. rewrite E. split; [done|].
  intros key' ep [->|Hin]%elem_of_cons Hne Hg; apply elem_of_app; [left|right]; eauto.
Qed.

(** Only an answer that no question waits for. *)
Lemma endpoint_step_stops ev m f :
  emStep ev m = Stop f ->
  f = UndefinedBehaviour /\ em_myExternalEndpointRequest m = None /\
  exists message source, ev = Received "endpoint_response" message source.
Proof.
  destruct ev as [| | |query message source| | | |]; cbn; try done. unfold onEndpointMessage.
  case_decide; [done|]. case_decide; [done|]. case_decide as Hq; [subst query|done].
  destruct (decode message) as [[r rest]|]; [|done]. unfold onMyEndpointResponse.
  case_bool_decide as Hs; [done|]. destruct (em_myExternalEndpointRequest m); [|intros [= <-]; eauto].
  repeat (destruct (negb _); [done|]). destruct (_ =? _); [done|]. destruct (negb _); [done|].
  destruct (bool_decide _); [|done].
  match goal with |- (sendHandshakes _ _ ?ks ?m' ≫= _) = _ -> _ =>
    destruct (sendHandshakes_returns m' (bytesEndpoint (er_endpoint r)) ks) as (out & -> & _) end; done.
Qed.

End Run.

(** ** A replicator learns its address *)

Section Exchange.
  Context (ka kb port : Z) (signA signB : list Z -> Z) (verify : Z -> list Z -> Z -> bool).
  Context `{EndpointLayout}.
  Context `{Archived ExternalEndpointRequest} `{Archived ExternalEndpointResponse} `{Archived DhtHandshake}.
  Hypothesis (ka_key : is_key ka) (kb_key : is_key kb) (ka_kb : kb <> ka).
  Hypothesis (signA_verify : forall data, verify ka data (signA data) = true).
  Hypothesis (signB_verify : forall data, verify kb data (signB data) = true).
  Hypothesis (signA_sig : forall data, is_sig (signA data)) (signB_sig : forall data, is_sig (signB data)).

  (** Archives keep numbers of their width and the bytes of addresses. *)
  Hypothesis (kept_request : forall to c, is_key to -> is_key c -> kept_value (mkRequest to c) = mkRequest to c).
  Hypothesis (kept_response : forall to c ep s, is_key to -> is_key c -> is_sig s ->
    kept_value (mkResponse to c (endpointBytes ep) s) = mkResponse to c (endpointBytes ep) s).
  Hypothesis (kept_handshake : forall from to ep s, is_key from -> is_key to -> is_sig s ->
    kept_value (mkHandshake from to (endpointBytes ep) s) = mkHandshake from to (endpointBytes ep) s).

Lemma decode_whole {A} `{Archived A} a : kept_value a = a -> @decode A _ (encode a) = Some (a, []).
Proof. intros Hk. rewrite <- (app_nil_r (encode a)), decode_encode. by rewrite Hk. Qed.

(** A handshake of [ka] from [ep] reaches [key]. *)
Lemma handshake_accepted key portC signC mine ep mc :
  is_key key -> isValid ep = true ->
  exists out mc',
    onEndpointMessage key portC signC verify "handshake"
      (encode (mkHandshake ka key (endpointBytes mine) (signA (signedEndpoint key (endpointBytes mine))))) ep mc =
      Ret (out, mc') /\
    (is_Some (em_endpointsMap mc !! ka) -> getEndpoint ka mc' = Some ep) /\
    (em_endpointsMap mc !! ka = None ->
       forall should, getEndpoint ka (addEndpointQuery ka should mc').2 = Some ep).
Proof.
  intros Hkey Hv. unfold onEndpointMessage. rewrite decide_True by done.
  rewrite decode_whole by by apply kept_handshake.
  unfold processHandshake, verifyHandshake. cbn [hs_toPublicKey hs_fromPublicKey hs_endpoint hs_signature].
  rewrite Z.eqb_refl, signA_verify. cbn [negb]. unfold onEndpointDiscovered. rewrite Hv. cbn [negb].
  destruct (em_endpointsMap mc !! ka) as [i|] eqn:El; do 2 eexists; (split; [done|]); split.
  - intros _. unfold getEndpoint. cbn. rewrite lookup_insert_eq. cbn. by rewrite Hv.
  - intros [=].
  - intros [? [=]].
  - intros _ should. unfold addEndpointQuery. cbn. rewrite El, lookup_insert_eq. unfold getEndpoint. cbn.
    rewrite lookup_insert_eq. cbn. by rewrite Hv.
Qed.

(** C38: a replicator that asks another bootstrap node for its address gets an answer,
    takes it, announces it, and sends a handshake to every replicator whose address it
    knows, if the address is new; each of them, whatever it knew, then sends to this
    address, as soon as it has asked for it. *)
Theorem endpoint_exchange a rand challenge b e :
  em_session a <> NoSession -> em_bootstraps a !! (rand `mod` length (em_bootstraps a))%nat = Some b ->
  ri_publicKey b = kb -> is_key challenge -> isValid e = true -> ep_port e = port ->
  exists x y out a1 a2,
    onMyEndpointTimerTick rand challenge a = ([SendMessage "endpoint_request" (ri_endpoint b) x], a1) /\
    (forall portB mb, onEndpointMessage kb portB signB verify "endpoint_request" x e mb =
                        Ret ([SendMessage "endpoint_response" e y], mb)) /\
    (forall source, onEndpointMessage ka port signA verify "endpoint_response" y source a1 = Ret (out, a2)) /\
    em_myExternalEndpoint a2 = Some e /\ em_myExternalEndpointRequest a2 = None /\ AnnounceMyIp e ∈ out /\
    forall key ep, em_myExternalEndpoint a <> Some e -> is_key key -> key <> ka -> getEndpoint key a = Some ep ->
      exists z, SendMessage "handshake" ep z ∈ out /\
        forall portC signC mc, exists outC mc',
          onEndpointMessage key portC signC verify "handshake" z e mc = Ret (outC, mc') /\
          (is_Some (em_endpointsMap mc !! ka) -> getEndpoint ka mc' = Some e) /\
          (em_endpointsMap mc !! ka = None -> forall should, getEndpoint ka (addEndpointQuery ka should mc').2 = Some e).
Proof.
  intros Hs Hb Hkb Hc Hv Hp.
  set (a1 := set_myEndpointUpdateTimer (startTimer (em_session a))
               (set_myExternalEndpointRequest (Some (mkRequest kb challenge)) a)).
  set (r := mkResponse kb challenge (endpointBytes e) (signB (signedEndpoint challenge (endpointBytes e)))).
  set (a3 := set_myExternalEndpoint (Some e) a1).
  destruct (sendHandshakes_returns ka signA verify a3 e (sorted_keys (em_endpointsMap a3))) as (hands & Eh & Hhands); [done..|].
  set (new := bool_decide (em_myExternalEndpoint a <> Some e)).
  exists (encode (mkRequest kb challenge)), (encode r), ((if new then hands else []) ++ [AnnounceMyIp e]), a1,
    (set_myExternalEndpointRequest None a3).
  split; [|split; [|split; [|split; [done|split; [done|split; [set_solver|]]]]]].
  - unfold onMyEndpointTimerTick. rewrite Hb, Hkb. cbn. subst a1. by destruct (em_session a).
  - intros portB mb. unfold onEndpointMessage. rewrite decide_False, decide_True by done.
    rewrite decode_whole by by apply kept_request.
    unfold processEndpointRequest. cbn [eq_requestTo eq_challenge]. by rewrite Z.eqb_refl.
  - intros source. unfold onEndpointMessage. rewrite !decide_False, decide_True by done.
    rewrite decode_whole by (by apply kept_response). unfold onMyEndpointResponse.
    rewrite bool_decide_false by done. cbn [em_myExternalEndpointRequest a1 set_myEndpointUpdateTimer set_myExternalEndpointRequest].
    cbn [eq_challenge eq_requestTo er_challenge er_requestTo er_endpoint r]. rewrite !Z.eqb_refl. cbn [andb negb].
    unfold verifyResponse. cbn [er_requestTo er_challenge er_endpoint er_signature r].
    rewrite signB_verify. cbn [negb]. rewrite bytesEndpoint_bytes, Hv. cbn [negb].
    assert (ka =? kb = false) as -> by (apply Z.eqb_neq; congruence). rewrite Hp, Z.eqb_refl. cbn [negb].
    change (em_myExternalEndpoint a1) with (em_myExternalEndpoint a). fold new a3. destruct new; [|done].
    by rewrite Eh.
  - intros key ep Hnew Hkey Hne Hg. exists (encode (mkHandshake ka key (endpointBytes e)
      (signA (signedEndpoint key (endpointBytes e))))). split.
    + subst new. rewrite bool_decide_true by done. apply elem_of_app. left. apply Hhands; [|done|done].
      apply elem_of_sorted_keys. change (em_endpointsMap a3) with (em_endpointsMap a).
      unfold getEndpoint in Hg. destruct (em_endpointsMap a !! key); [done|by discriminate].
    + intros portC signC mc. by apply handshake_accepted.
Qed.

End Exchange.

(** ** Concrete runs *)

(** A layout and archives that keep everything. *)
Definition plainBytes (ep : Endpoint) : list Z :=
  match ep_address ep with V4 a => [4; a; ep_port ep] | V6 a scope => [6; a; scope; ep_port ep] end.
Definition plainEndpoint (bytes : list Z) : Endpoint :=
  match bytes with
  | [4; a; port] => mkEndpoint (V4 a) port
  | [6; a; scope; port] => mkEndpoint (V6 a scope) port
  | _ => mkEndpoint (V4 0) 0
  end.

Definition plainLayout : EndpointLayout.
Proof. refine {| endpointBytes := plainBytes; bytesEndpoint := plainEndpoint |}. by intros [[a|a scope] port]. Defined.

Definition plainRequest : Archived ExternalEndpointRequest.
Proof.
  refine {| kept_value r := r; encode r := [eq_requestTo r; eq_challenge r];
            decode bytes := match bytes with to :: c :: rest => Some (mkRequest to c, rest) | _ => None end |}.
  - by intros [to c] rest.
  - intros [|to [|c bytes]] a rest; intros [=]; subst; cbn; lia.
Defined.

(** Two numbers, a list with its length, and a number. *)
Definition encodeFour (a b : Z) (l : list Z) (s : Z) : list Z := a :: b :: s :: Z.of_nat (length l) :: l.
Definition decodeFour (bytes : list Z) : option (Z * Z * list Z * Z * list Z) :=
  match bytes with
  | a :: b :: s :: n :: rest =>
      if (Z.to_nat n <=? length rest)%nat then Some (a, b, take (Z.to_nat n) rest, s, drop (Z.to_nat n) rest) else None
  | _ => None
  end.

Lemma decodeFour_encode a b l s rest : decodeFour (encodeFour a b l s ++ rest) = Some (a, b, l, s, rest).
Proof.
  cbn [encodeFour app decodeFour]. rewrite Nat2Z.id, length_app.
  assert (length l <=? length l + length rest = true)%nat as -> by (apply Nat.leb_le; lia).
  by rewrite take_app_length, drop_app_length.
Qed.

Lemma decodeFour_shorter bytes a rest : decodeFour bytes = Some (a, rest) -> (length rest < length bytes)%nat.
Proof.
  destruct bytes as [|x [|y [|s [|n bytes]]]]; try done. cbn [decodeFour]. destruct (_ <=? _)%nat; [|done].
  intros [= _ <-]. rewrite length_drop. cbn. lia.
Qed.

Definition plainResponse : Archived ExternalEndpointResponse.
Proof.
  refine {| kept_value r := r; encode r := encodeFour (er_requestTo r) (er_challenge r) (er_endpoint r) (er_signature r);
            decode bytes := '(a, b, l, s, rest) ← decodeFour bytes; Some (mkResponse a b l s, rest) |}.
  - intros [a b l s] rest. by rewrite decodeFour_encode.
  - intros bytes r rest. destruct (decodeFour bytes) as [[[[[a b] l] s] rest']|] eqn:E; [|done].
    cbn. intros [= _ <-]. by apply decodeFour_shorter in E.
Defined.

Definition plainHandshake : Archived DhtHandshake.
Proof.
  refine {| kept_value h := h; encode h := encodeFour (hs_fromPublicKey h) (hs_toPublicKey h) (hs_endpoint h) (hs_signature h);
            decode bytes := '(a, b, l, s, rest) ← decodeFour bytes; Some (mkHandshake a b l s, rest) |}.
  - intros [a b l s] rest. by rewrite decodeFour_encode.
  - intros bytes r rest. destruct (decodeFour bytes) as [[[[[a b] l] s] rest']|] eqn:E; [|done].
    cbn. intros [= _ <-]. by apply decodeFour_shorter in E.
Defined.

#[local] Existing Instances plainLayout plainRequest plainResponse plainHandshake.

(** Replicator 1 listens on 7001 and knows the bootstrap node 2; a signature is 5. *)
Definition five (data : list Z) : Z := 5.
Definition isFive (key : Z) (data : list Z) (s : Z) : bool := s =? 5.
Definition node2 : ReplicatorInfo := mkReplicatorInfo (mkEndpoint (V4 22) 7002) 2.
Definition seen1 : Endpoint := mkEndpoint (V4 11) 7001.
Definition answer2 : list Z := encode (mkResponse 2 77 (endpointBytes seen1) 5).
Definition events1 : list EmEvent :=
  [Started SessionRunning 3 77; Received "endpoint_response" answer2 (ri_endpoint node2)].

Lemma endpoints_authentic_witness : exists out m,
  emReaches 1 7001 five isFive [node2] events1 out m /\ em_myExternalEndpoint m = Some seen1 /\
  confirmed 1 7001 isFive [node2] events1 seen1.
Proof.
  assert (exists out m, emReaches 1 7001 five isFive [node2] events1 out m /\ em_myExternalEndpoint m = Some seen1)
    as (out & m & Hr & Hm).
  { do 2 eexists. split.
    - unfold events1. change [?a; ?b] with (([] ++ [a]) ++ [b]).
      eapply reaches_step; [eapply reaches_step; [apply reaches_new|]|]; [vm_compute; reflexivity..].
    - reflexivity. }
  exists out, m. split; [done|]. split; [done|]. by apply (endpoints_authentic 1 7001 five isFive [node2] events1 out m).
Defined.

(** Replicator 1 also knows replicator 3, which does not know replicator 1. *)
Definition asker1 : EndpointsManager :=
  set_session SessionRunning
    (endpointsManager 1 [node2; mkReplicatorInfo (mkEndpoint (V4 33) 7003) 3]).

Lemma endpoint_exchange_witness : exists x y out a1 a2,
  onMyEndpointTimerTick 4 77 asker1 = ([SendMessage "endpoint_request" (ri_endpoint node2) x], a1) /\
  onEndpointMessage 2 7002 five isFive "endpoint_request" x seen1 (endpointsManager 2 []) =
    Ret ([SendMessage "endpoint_response" seen1 y], endpointsManager 2 []) /\
  onEndpointMessage 1 7001 five isFive "endpoint_response" y (ri_endpoint node2) a1 = Ret (out, a2) /\
  AnnounceMyIp seen1 ∈ out /\
  exists z, SendMessage "handshake" (mkEndpoint (V4 33) 7003) z ∈ out /\
    exists outC mc', onEndpointMessage 3 7003 five isFive "handshake" z seen1 (endpointsManager 3 []) = Ret (outC, mc') /\
      getEndpoint 1 (addEndpointQuery 1 true mc').2 = Some seen1.
Proof.
  destruct (endpoint_exchange 1 2 7001 five five isFive) with (a := asker1) (rand := 4%nat) (challenge := 77)
    (b := node2) (e := seen1) as (x & y & out & a1 & a2 & E1 & E2 & E3 & _ & _ & Ha & Hh); try done; try (by split).
  exists x, y, out, a1, a2. split; [done|]. split; [apply E2|]. split; [apply E3|]. split; [done|].
  destruct (Hh 3 (mkEndpoint (V4 33) 7003)) as (z & Hz & Hc); [done|by split|done|reflexivity|].
  exists z. split; [done|]. destruct (Hc 7003 five (endpointsManager 3 [])) as (outC & mc' & E4 & _ & Hq).
  exists outC, mc'. split; [exact E4|]. by apply Hq.
Defined.

(** ** What the code does not do *)

(** A question about a replicator whose address is known forgets it, as long as the DHT
    has not answered: the bootstrap node cannot be reached. *)
Example known_address_is_forgotten :
  getEndpoint 2 asker1 = Some (ri_endpoint node2) /\
  let '(out, m) := addEndpointQueries [2; 3] true asker1 in
  out = [FindAddress 2; FindAddress 3] /\ sendMessage false "opinion" 2 [] m = None.
Proof. vm_compute. repeat split; reflexivity. Qed.

(** A second copy of an answer finds no open question, and the log reads one. *)
Example repeated_answer_reads_nothing : exists m,
  onEndpointMessage 1 7001 five isFive "endpoint_response" answer2 (ri_endpoint node2)
    (onMyEndpointTimerTick 4 77 asker1).2 = Ret m /\
  onEndpointMessage 1 7001 five isFive "endpoint_response" answer2 (ri_endpoint node2) m.2 = Stop UndefinedBehaviour.
Proof. eexists. vm_compute. split; reflexivity. Qed.

(** A handshake counts for the address that it comes from, not for the one it signs:
    whoever has seen it can repeat it from elsewhere. *)
Example handshake_from_elsewhere :
  let elsewhere := mkEndpoint (V4 66) 6666 in
  let handshake := mkHandshake 3 1 (endpointBytes (mkEndpoint (V4 33) 7003)) 5 in
  match onEndpointMessage 1 7001 five isFive "handshake" (encode handshake) elsewhere asker1 with
  | Ret (_, m) => getEndpoint 3 m = Some elsewhere
  | Stop _ => False
  end.
Proof. reflexivity. Qed.
