(* ===== verification/TorrentSession.v ===== *)
(** * The session with libtorrent

    [DefaultSession] ([src/drive/Session.cpp]): the data it keeps with each torrent,
    the downloads and their notifications, the removal of torrents, the alerts, and the
    items and messages it passes to the DHT.

    libtorrent is outside: what it answers is an argument, what it is asked for an
    output, and its callbacks are operations.  A handle is a number that is never used
    again; the data of a torrent, which the code allocates and deletes itself, is kept
    under the handle.  A use of deleted data is [UndefinedBehaviour]. *)

From stdpp Require Import pretty.
From S2P Require Import Prelude RcptMessage Playlist DownloadChannels StatusQueries Endpoints.
#[global] Open Scope Z_scope.

(** ** Data *)

Inductive DownloadType := fs_tree | file_from_drive | client_data | missing_files | stream_data.

#[export] Instance download_type_eq_dec : EqDecision DownloadType.
Proof. solve_decision. Defined.

Inductive DownloadCode := download_complete | dn_failed.

(** [DownloadContext]; [dc_notification] is the function that is told. *)
Record DownloadContext := mkContext {
  dc_downloadType : DownloadType;
  dc_notification : Z;
  dc_infoHash : Z;
  dc_downloadLimit : Z;
  dc_saveAs : string;
  dc_doNotDeleteTorrent : bool }.

Inductive FinishStatus := TORRENT_ADDED | TORRENT_FINISHED | TORRENT_FLUSHED.

#[export] Instance finish_status_eq_dec : EqDecision FinishStatus.
Proof. solve_decision. Defined.

(** [RemoveNotifyer]: the number of the removal, and the function to be called when
    the last torrent that shares it is deleted. *)
Record RemoveNotifyer := mkNotifyer { rn_removal : nat; rn_notifyer : Z }.

#[export] Instance remove_notifyer_eq_dec : EqDecision RemoveNotifyer.
Proof. solve_decision. Defined.

Record LtClientData := mkClientData {
  m_removeNotifyer : option RemoveNotifyer;
  m_saveFolder : string;
  m_saveTorrentFilename : string;
  m_dnContexts : list DownloadContext;
  m_uploadedDataSize : Z;
  m_invalidMetadata : bool;
  m_isRemoved : bool;
  m_finishStatus : FinishStatus }.

Definition newClientData : LtClientData := mkClientData None "" "" [] 0 false false TORRENT_ADDED.
Definition set_removeNotifyer v d := mkClientData v (m_saveFolder d) (m_saveTorrentFilename d) (m_dnContexts d)
  (m_uploadedDataSize d) (m_invalidMetadata d) (m_isRemoved d) (m_finishStatus d).
Definition set_dnContexts v d := mkClientData (m_removeNotifyer d) (m_saveFolder d) (m_saveTorrentFilename d) v
  (m_uploadedDataSize d) (m_invalidMetadata d) (m_isRemoved d) (m_finishStatus d).
Definition set_uploadedDataSize v d := mkClientData (m_removeNotifyer d) (m_saveFolder d) (m_saveTorrentFilename d)
  (m_dnContexts d) v (m_invalidMetadata d) (m_isRemoved d) (m_finishStatus d).
Definition set_invalidMetadata v d := mkClientData (m_removeNotifyer d) (m_saveFolder d) (m_saveTorrentFilename d)
  (m_dnContexts d) (m_uploadedDataSize d) v (m_isRemoved d) (m_finishStatus d).
Definition set_isRemoved v d := mkClientData (m_removeNotifyer d) (m_saveFolder d) (m_saveTorrentFilename d)
  (m_dnContexts d) (m_uploadedDataSize d) (m_invalidMetadata d) v (m_finishStatus d).
Definition set_finishStatus v d := mkClientData (m_removeNotifyer d) (m_saveFolder d) (m_saveTorrentFilename d)
  (m_dnContexts d) (m_uploadedDataSize d) (m_invalidMetadata d) (m_isRemoved d) v.

(** What is posted to the thread of the session. *)
Inductive Posted :=
  | PostedEnd (n : RemoveNotifyer)
  | PostedNotification (h : nat) (context : DownloadContext).

Record DefaultSession := mkSession {
  ts_torrents : gmap nat LtClientData;   (* the data of the torrents, by handle *)
  ts_removals : nat;                      (* the calls of removeTorrentsFromSession *)
  ts_posted : list Posted;
  ts_background : list nat;               (* torrent files to be saved *)
  ts_isReplicator : bool;                 (* m_replicator is alive *)
  ts_limiter : bool;                      (* m_downloadLimiter is alive *)
  ts_stopping : bool;
  ts_torrentDeletedHandler : bool }.

Definition set_torrents v s := mkSession v (ts_removals s) (ts_posted s) (ts_background s) (ts_isReplicator s)
  (ts_limiter s) (ts_stopping s) (ts_torrentDeletedHandler s).
Definition set_removals v s := mkSession (ts_torrents s) v (ts_posted s) (ts_background s) (ts_isReplicator s)
  (ts_limiter s) (ts_stopping s) (ts_torrentDeletedHandler s).
Definition set_posted v s := mkSession (ts_torrents s) (ts_removals s) v (ts_background s) (ts_isReplicator s)
  (ts_limiter s) (ts_stopping s) (ts_torrentDeletedHandler s).
Definition set_background v s := mkSession (ts_torrents s) (ts_removals s) (ts_posted s) v (ts_isReplicator s)
  (ts_limiter s) (ts_stopping s) (ts_torrentDeletedHandler s).

(** The data of a torrent changes. *)
Definition set_data (h : nat) (d : LtClientData) (s : DefaultSession) : DefaultSession :=
  set_torrents (<[h := d]> (ts_torrents s)) s.

Inductive RemoveFlag := delete_files | delete_partfile.
Inductive SiriusFlags := ReplicatorIsReceiver | ClientIsReceiver | GivenFlags (f : Z).

(** What the session does to the outside. *)
Inductive TsOutput :=
  | AddTorrent (infoHash : Z) (savePath : string) (flags : SiriusFlags) (driveKey channelId modifyTx : option Z)
  | RemoveTorrent (h : nat) (flag : RemoveFlag)
  | ConnectPeer (h : nat) (ep : Endpoint)
  | SaveTorrentFile (h : nat) (filename : string)
  | Notify (context : DownloadContext) (code : DownloadCode) (downloaded : Z) (error : string)
  | EndNotification (n : RemoveNotifyer)
  | DirectRequest (query : string) (to : Endpoint) (x : list Z) (sign : option Z)
  | GetItem (key : Z)
  | PutItem (item : string)
  | LimiterDiscovered (key : Z) (ep : Endpoint)
  | CallTorrentDeleted (h : nat)
  | LimiterResponse (query : string) (response : list Z)
  | ListenAlert.

Notation Result := (Outcome (list TsOutput * DefaultSession)).

(** ** Adding torrents *)

(** What libtorrent answers to a new torrent: a handle -- of the torrent that is there
    already, when there is one with this hash -- or an error.  The data that was
    allocated is used by a new torrent only. *)
Definition addedTorrent (h : nat) (d : LtClientData) (s : DefaultSession) : DefaultSession :=
  match ts_torrents s !! h with Some _ => s | None => set_data h d s end.

Definition connectPeers (h : nat) (peers : list Endpoint) : list TsOutput := map (ConnectPeer h) peers.

(** [addTorrentFileToSession]; [info] is the hash of the torrent file and its total
    size.  With an error of libtorrent the handle is not valid and its use throws. *)
Definition addTorrentFileToSession (info : option (Z * Z)) (folder : string) (flags : Z)
    (driveKey channelId modifyTx : option Z) (peers : list Endpoint) (wantsTotalSize : bool) (added : option nat)
    (s : DefaultSession) : Outcome (option nat * option Z * list TsOutput * DefaultSession) :=
  match info with
  | None => Ret (None, None, [], s)
  | Some (infoHash, totalSize) =>
      let out := [AddTorrent infoHash folder (GivenFlags flags) driveKey channelId modifyTx] in
      match added with
      | None => if bool_decide (peers <> []) || wantsTotalSize then Stop ThrownException else Ret (None, None, out, s)
      | Some h => Ret (Some h, if wantsTotalSize then Some totalSize else None, out ++ connectPeers h peers,
                       addedTorrent h newClientData s)
      end
  end.

(** [operator/] of paths, for a name: a slash is added unless there is one. *)
Definition path_append (folder name : string) : string :=
  match String.get (String.length folder - 1) folder with
  | None => name
  | Some c => if Ascii.eqb c "/" then folder +:+ name else folder +:+ "/" +:+ name
  end.

(** The context as it is kept: the tree of a drive has its name in the folder. *)
Definition storedContext (saveFolder : string) (context : DownloadContext) : DownloadContext :=
  match dc_downloadType context with
  | fs_tree => mkContext fs_tree (dc_notification context) (dc_infoHash context) (dc_downloadLimit context)
                 (path_append saveFolder "FsTree.bin") (dc_doNotDeleteTorrent context)
  | _ => context
  end.

(** [download]; [hints] are the addresses that the limiter knows for [keysHints]. *)
Definition download (context : DownloadContext) (saveFolder saveTorrentFilePath : string)
    (hints : list (option Endpoint)) (endpointsHints : list Endpoint) (driveKey channelId modifyTx : option Z)
    (added : option nat) (s : DefaultSession) : Outcome (nat * list TsOutput * DefaultSession) :=
  let flags := match dc_downloadType context with
               | client_data | missing_files => ReplicatorIsReceiver
               | _ => ClientIsReceiver
               end in
  match added with
  | None => Stop ThrownException
  | Some h =>
      let d := mkClientData None saveFolder saveTorrentFilePath [] 0 false false TORRENT_ADDED in
      let s := addedTorrent h d s in
      let peers := (if ts_limiter s then omap id hints else []) ++ endpointsHints in
      let context := storedContext saveFolder context in
      match ts_torrents s !! h with
      | None => Stop AssertFailure
      | Some d =>
          Ret (h, AddTorrent (dc_infoHash context) saveFolder flags driveKey channelId modifyTx :: connectPeers h peers,
               set_data h (set_dnContexts (m_dnContexts d ++ [context]) d) s)
      end
  end.

(** [connectTorentsToEndpoint]; [torrents] are the valid handles of libtorrent. *)
Definition connectTorentsToEndpoint (ep : Endpoint) (torrents : list nat) : list TsOutput :=
  map (fun h => ConnectPeer h ep) torrents.

(** ** Removing torrents *)

Section Removal.
  (** The state that libtorrent says a torrent has; none when the handle is not valid. *)
  Context (status : nat -> option Z).

Definition finished (h : nat) : bool := match status h with Some st => 2 <? st | None => false end.

(** The first loop: which torrents wait, and the mark of all valid ones. *)
Fixpoint markRemoved (torrents : list nat) (s : DefaultSession) : Outcome DefaultSession :=
  match torrents with
  | [] => Ret s
  | h :: torrents =>
      match status h with
      | None => markRemoved torrents s
      | Some _ => match ts_torrents s !! h with
                  | None => Stop UndefinedBehaviour
                  | Some d => markRemoved torrents (set_data h (set_isRemoved true d) s)
                  end
      end
  end.

(** The second loop: the finished torrents share the notifyer. *)
Fixpoint shareNotifyer (n : RemoveNotifyer) (torrents : list nat) (s : DefaultSession) : Outcome DefaultSession :=
  match torrents with
  | [] => Ret s
  | h :: torrents =>
      if finished h
      then match ts_torrents s !! h with
           | None => Stop AssertFailure
           | Some d => guard_assert (bool_decide (m_removeNotifyer d = None))
                         (shareNotifyer n torrents (set_data h (set_removeNotifyer (Some n) d) s))
           end
      else shareNotifyer n torrents s
  end.

Definition removeTorrentsFromSession (torrents : list nat) (endNotification : Z) (removeFiles : bool)
    (s : DefaultSession) : Result :=
  let n := mkNotifyer (ts_removals s) endNotification in
  let flag := if removeFiles then delete_files else delete_partfile in
  s ← markRemoved torrents s;
  if existsb finished torrents
  then s ← shareNotifyer n torrents s;
       Ret (map (fun h => RemoveTorrent h flag) (List.filter finished torrents),
            set_removals (S (ts_removals s)) s)
  else Ret (map (fun h => RemoveTorrent h delete_partfile) torrents,
            set_removals (S (ts_removals s)) (set_posted (ts_posted s ++ [PostedEnd n]) s)).

End Removal.

(** ** Torrents that are finished or deleted *)

(** Whether the data of a torrent still holds this notifyer. *)
Definition waits (rn : RemoveNotifyer) (d : LtClientData) : bool := bool_decide (m_removeNotifyer d = Some rn).

(** [delete userdata]: the last owner of a notifyer calls it. *)
Definition deleteUserdata (h : nat) (d : LtClientData) (s : DefaultSession) : list TsOutput * DefaultSession :=
  let left := delete h (ts_torrents s) in
  (match m_removeNotifyer d with
   | Some rn => if existsb (fun p => waits rn p.2) (map_to_list left) then [] else [EndNotification rn]
   | None => []
   end, set_torrents left s).

Definition onTorrentDeleted (h : nat) (s : DefaultSession) : list TsOutput * DefaultSession :=
  let called := if ts_torrentDeletedHandler s then [CallTorrentDeleted h] else [] in
  if ts_stopping s then (called, s) else
  match ts_torrents s !! h with
  | None => (called, s)
  | Some d =>
      let told := if m_invalidMetadata d then []
                  else map (fun context => Notify context download_complete (m_uploadedDataSize d) "")
                         (List.filter (fun context => negb (dc_doNotDeleteTorrent context)) (m_dnContexts d)) in
      let '(out, s) := deleteUserdata h d s in
      (called ++ told ++ out, s)
  end.

(** [saveTorrentFile]. *)
Definition saveTorrentFile (h : nat) (s : DefaultSession) : Result :=
  match ts_torrents s !! h with
  | None => Stop UndefinedBehaviour
  | Some d =>
      match m_dnContexts d with
      | [] => Stop UndefinedBehaviour
      | context :: _ =>
          Ret ([SaveTorrentFile h (m_saveTorrentFilename d)],
               if dc_doNotDeleteTorrent context
               then set_posted (ts_posted s ++ [PostedNotification h context]) s else s)
      end
  end.

(** [onTorrentFinished], when the files of a torrent are on the disk. *)
Definition onCacheFlushed (h : nat) (s : DefaultSession) : Result :=
  match ts_torrents s !! h with
  | None => Ret ([], s)
  | Some d =>
      if m_isRemoved d then Ret ([], s) else
      guard_assert (bool_decide (m_finishStatus d = TORRENT_FINISHED))
        (let s := set_data h (set_finishStatus TORRENT_FLUSHED d) s in
         match m_dnContexts d with
         | [] => Ret ([], s)
         | context :: _ =>
             if dc_doNotDeleteTorrent context
             then if decide (m_saveTorrentFilename d = "")
                  then Ret ([Notify context download_complete (m_uploadedDataSize d) ""], s)
                  else if ts_isReplicator s
                       then Ret ([], set_background (ts_background s ++ [h]) s)
                       else saveTorrentFile h s
             else Ret ([RemoveTorrent h delete_partfile], s)
         end)
  end.

(** The background thread saves the next torrent file. *)
Definition runBackground (s : DefaultSession) : Result :=
  match ts_background s with
  | [] => Ret ([], s)
  | h :: hs => saveTorrentFile h (set_background hs s)
  end.

(** The thread of the session runs what was posted first. *)
Definition runPosted (s : DefaultSession) : Result :=
  match ts_posted s with
  | [] => Ret ([], s)
  | PostedEnd n :: posted => Ret ([EndNotification n], set_posted posted s)
  | PostedNotification h context :: posted =>
      match ts_torrents s !! h with
      | None => Stop UndefinedBehaviour
      | Some d => Ret ([Notify context download_complete (m_uploadedDataSize d) ""], set_posted posted s)
      end
  end.

(** ** The DHT *)

(** [boost::split] at one character. *)
Fixpoint splitAt (c : Ascii.ascii) (acc s : string) : list string :=
  match s with
  | EmptyString => [acc]
  | String c' s => if Ascii.eqb c' c then acc :: splitAt c "" s else splitAt c (acc +:+ String c' "") s
  end.

Section Dht.
  (** Boost: an address as text. *)
  Context (printAddress : Address -> string) (makeAddress : string -> option Address).

(** [announceMyIp]; the signature of the item is the limiter's. *)
Definition announceMyIp (ep : Endpoint) (s : DefaultSession) : list TsOutput :=
  if negb (isValid ep) then []
  else if ts_limiter s then [PutItem (printAddress (ep_address ep) +:+ "?" +:+ number (ep_port ep))] else [].

(** [processEndpointItem]; [item] is none when the item is not a string, and
    [std::stoi] throws when there is no number. *)
Definition processEndpointItem (key seq : Z) (item : option string) (s : DefaultSession) : Outcome (list TsOutput) :=
  if seq <? 0 then Ret [] else
  if negb (ts_limiter s) then Ret [] else
  match item with
  | None => Stop ThrownException
  | Some response =>
      match splitAt "?" "" response with
      | [address; port] =>
          match makeAddress address with
          | None => Ret []
          | Some addr => match stoi port with
                         | None => Stop ThrownException
                         | Some n => Ret [LimiterDiscovered key (mkEndpoint addr (n mod 65536))]
                         end
          end
      | _ => Ret []
      end
  end.

(** ** Alerts *)

Inductive Alert :=
  | listen_failed_alert
  | dht_mutable_item_alert (salt : string) (key seq : Z) (item : option string)
  | metadata_received_alert (h : nat) (totalSize pieceLength : Z)
  | dht_direct_response_alert (query : option string) (response : list Z)
  | torrent_finished_alert (h : nat)
  | other_alert.

  Context (automatic_piece_size : Z -> Z) (limiterThrows : string -> list Z -> bool).

Definition m_maxTotalSize : Z := 256 * 1024 * 1024 * 1024.

(** A conversion to [int64_t]. *)
Definition to_i64 (z : Z) : Z := if z <? 9223372036854775808 then z else z - two64.

(** What is wrong with the metadata of a torrent. *)
Definition metadataError (d : LtClientData) (totalSize pieceLength : Z) : option string :=
  if m_maxTotalSize <? totalSize then Some "Max Total Size Exceeded"%string
  else if negb (automatic_piece_size totalSize =? pieceLength) then Some "Invalid Piece Size"%string
  else let limit := match m_dnContexts d with [] => 0 | context :: _ => to_i64 (dc_downloadLimit context) end in
       if negb (limit =? 0) && (limit <? totalSize) then Some "Limit Is Exceeded"%string else None.

(** A metadata alert of a valid handle.  The size is noted unless one of the first two checks fails. *)
Definition onMetadataReceived (h : nat) (totalSize pieceLength : Z) (s : DefaultSession) : Result :=
  match ts_torrents s !! h with
  | None => Ret ([], s)
  | Some d =>
      let noted := (totalSize <=? m_maxTotalSize) && (automatic_piece_size totalSize =? pieceLength) in
      let d' := if noted then set_uploadedDataSize totalSize d else d in
      match metadataError d totalSize pieceLength with
      | None => Ret ([], set_data h d' s)
      | Some errorText =>
          match m_dnContexts d' with
          | [context] => Ret ([RemoveTorrent h delete_files; Notify context dn_failed (m_uploadedDataSize d') errorText],
                              set_data h (set_invalidMetadata true d') s)
          | _ => Stop AssertFailure
          end
      end
  end.

Definition onTorrentFinishedAlert (h : nat) (s : DefaultSession) : Result :=
  match ts_torrents s !! h with
  | None => Stop AssertFailure
  | Some d => guard_assert (bool_decide (m_finishStatus d = TORRENT_ADDED))
                (Ret ([], set_data h (set_finishStatus TORRENT_FINISHED d) s))
  end.

(** The queries whose answers go to the limiter. *)
Definition answeredQueries : list string :=
  ["get_dn_rcpts"; "get-chunks-info"; "get-playlist-hash"; "get_channel_status"; "get_modification_status";
   "get_stream_status"]%string.

Definition onDirectResponse (query : option string) (response : list Z) (s : DefaultSession) : Result :=
  if ts_stopping s then Ret ([], s) else
  match query with
  | Some query =>
      if existsb (String.eqb query) answeredQueries && ts_limiter s
      then if limiterThrows query response then Stop ThrownException else Ret ([LimiterResponse query response], s)
      else Ret ([], s)
  | None => Ret ([], s)
  end.

Definition onAlert (a : Alert) (s : DefaultSession) : Result :=
  match a with
  | listen_failed_alert => Ret ([ListenAlert], s)
  | dht_mutable_item_alert salt key seq item =>
      if decide (salt = "epdbg"%string)
      then out ← processEndpointItem key seq item s; Ret (out, s)
      else Ret ([], s)
  | metadata_received_alert h totalSize pieceLength => onMetadataReceived h totalSize pieceLength s
  | dht_direct_response_alert query response => onDirectResponse query response s
  | torrent_finished_alert h => onTorrentFinishedAlert h s
  | other_alert => Ret ([], s)
  end.

(** The loop over the alerts: an exception ends it, and is caught. *)
Fixpoint alertLoop (alerts : list Alert) (s : DefaultSession) : Result :=
  match alerts with
  | [] => Ret ([], s)
  | a :: alerts =>
      match onAlert a s with
      | Stop ThrownException => Ret ([], s)
      | Stop f => Stop f
      | Ret (out, s) => '(out', s) ← alertLoop alerts s; Ret (out ++ out', s)
      end
  end.

Definition alertHandler (alerts : list Alert) (s : DefaultSession) : Result :=
  if ts_stopping s then Ret ([], s) else alertLoop alerts s.

End Dht.

Definition findAddress (key : Z) : list TsOutput := [GetItem key].

(** [sendMessage]; with a signature when it is given. *)
Definition sendDirect (query : string) (to : Endpoint) (message : list Z) (signature : option Z) : list TsOutput :=
  [DirectRequest query to message signature].

Definition setTorrentDeletedHandler (s : DefaultSession) : DefaultSession :=
  mkSession (ts_torrents s) (ts_removals s) (ts_posted s) (ts_background s) (ts_isReplicator s) (ts_limiter s)
    (ts_stopping s) true.

Definition endSession (s : DefaultSession) : DefaultSession :=
  mkSession (ts_torrents s) (ts_removals s) (ts_posted s) (ts_background s) (ts_isReplicator s) (ts_limiter s) true
    (ts_torrentDeletedHandler s).

(** [DhtRequestPlugin::on_dht_request]: what the handler, if there is one, answers; an
    exception is caught. *)
Definition pluginRequest (query : string) (handler : option (Outcome bool)) : Outcome bool :=
  if existsb (String.eqb query) ["get_peers"; "announce_peer"]%string then Ret false else
  match handler with
  | None => Ret false
  | Some (Stop ThrownException) => Ret false
  | Some r => r
  end.

(** [extractListeningPort]. *)
Definition extractListeningPort (addressAndPort : string) : Outcome Z :=
  match splitAt ":" "" addressAndPort with
  | _ :: port :: _ => match stoi port with Some n => Ret n | None => Stop ThrownException end
  | _ => Ret 0
  end.
