(* ===== verification/TorrentSessionSpec.v ===== *)
(** * Removals and downloads are reported once

    The runs of a session: what is outside calls it, and libtorrent calls back.  Every
    removal of torrents is reported once, after its torrents are deleted, and every
    download at most once, complete only when it is on the disk or deleted. *)

From stdpp Require Import pretty.
From S2P Require Import Prelude RcptMessage Playlist DownloadChannels StatusQueries Endpoints TorrentSession.
#[global] Open Scope Z_scope.

(** ** Runs *)

Inductive TsEvent :=
  | FileAdded (info : option (Z * Z)) (folder : string) (flags : Z) (driveKey channelId modifyTx : option Z)
      (peers : list Endpoint) (wantsTotalSize : bool) (added : option nat)
  | Downloaded (context : DownloadContext) (folder torrentFile : string) (hints : list (option Endpoint))
      (peers : list Endpoint) (driveKey channelId modifyTx : option Z) (added : option nat)
  | Removed (status : nat -> option Z) (torrents : list nat) (endNotification : Z) (removeFiles : bool)
  | Deleted (h : nat)
  | Flushed (h : nat)
  | Alerts (l : list Alert)
  | PostedRuns
  | BackgroundRuns
  | SessionEnds.

Section Runs.
  Context (makeAddress : string -> option Address).
  Context (automatic_piece_size : Z -> Z) (limiterThrows : string -> list Z -> bool).

Definition tsStep (ev : TsEvent) (s : DefaultSession) : Result :=
  match ev with
  | FileAdded info folder flags dk ci mt peers wants added =>
      '(_, _, out, s) ← addTorrentFileToSession info folder flags dk ci mt peers wants added s; Ret (out, s)
  | Downloaded context folder torrentFile hints peers dk ci mt added =>
      '(_, out, s) ← download context folder torrentFile hints peers dk ci mt added s; Ret (out, s)
  | Removed status torrents endNotification removeFiles =>
      removeTorrentsFromSession status torrents endNotification removeFiles s
  | Deleted h => Ret (onTorrentDeleted h s)
  | Flushed h => onCacheFlushed h s
  | Alerts l => alertHandler makeAddress automatic_piece_size limiterThrows l s
  | PostedRuns => runPosted s
  | BackgroundRuns => runBackground s
  | SessionEnds => Ret ([], endSession s)
  end.

Definition newSession (isReplicator handler : bool) : DefaultSession :=
  mkSession ∅ 0 [] [] isReplicator true false handler.

Inductive tsReaches (isReplicator handler : bool) : list TsEvent -> list TsOutput -> DefaultSession -> Prop :=
  | ts_new : tsReaches isReplicator handler [] [] (newSession isReplicator handler)
  | ts_step evs outs s ev out s' :
      tsReaches isReplicator handler evs outs s -> tsStep ev s = Ret (out, s') ->
      tsReaches isReplicator handler (evs ++ [ev]) (outs ++ out) s'.

(** ** Removals *)

(** The notifyer that the data of a torrent holds. *)
Definition notifyer_of (s : DefaultSession) (h : nat) : option RemoveNotifyer := ts_torrents s !! h ≫= m_removeNotifyer.
Definition owned (s : DefaultSession) (rn : RemoveNotifyer) : Prop := exists h, notifyer_of s h = Some rn.

(** How often a removal was reported, and is about to be. *)
Definition is_end (rn : RemoveNotifyer) (o : TsOutput) : bool :=
  match o with EndNotification rn' => bool_decide (rn' = rn) | _ => false end.
Definition is_posted_end (rn : RemoveNotifyer) (p : Posted) : bool :=
  match p with PostedEnd rn' => bool_decide (rn' = rn) | _ => false end.
Definition ended (rn : RemoveNotifyer) (outs : list TsOutput) : nat := length (List.filter (is_end rn) outs).
Definition ending (rn : RemoveNotifyer) (s : DefaultSession) : nat := length (List.filter (is_posted_end rn) (ts_posted s)).

(** The functions that were passed to the removals, in order. *)
Definition removals (evs : list TsEvent) : list Z :=
  omap (fun ev => match ev with Removed _ _ f _ => Some f | _ => None end) evs.

Lemma ended_app rn o1 o2 : ended rn (o1 ++ o2) = (ended rn o1 + ended rn o2)%nat.
Proof. unfold ended. by rewrite List.filter_app, length_app. Qed.

(** A step that has nothing to do with removals. *)
Record quiet (s : DefaultSession) (out : list TsOutput) (s' : DefaultSession) : Prop := {
  q_notifyers h : notifyer_of s' h = notifyer_of s h;
  q_removals : ts_removals s' = ts_removals s;
  q_ended rn : (ended rn out + ending rn s' = ending rn s)%nat }.

Lemma quiet_refl s : quiet s [] s.
Proof. by split. Qed.

Lemma quiet_trans s1 o1 s2 o2 s3 : quiet s1 o1 s2 -> quiet s2 o2 s3 -> quiet s1 (o1 ++ o2) s3.
Proof.
  intros [A1 B1 C1] [A2 B2 C2]. split; [intros h; by rewrite A2|congruence|].
  intros rn. rewrite ended_app. specialize (C1 rn). specialize (C2 rn). lia.
Qed.

(** Outputs other than ends, and new data without a notifyer. *)
Lemma quiet_data s out h d d0 :
  (forall rn, ended rn out = 0%nat) -> ts_torrents s !! h = Some d0 -> m_removeNotifyer d = m_removeNotifyer d0 ->
  quiet s out (set_data h d s).
Proof.
  intros Ho Hl Hd. split; [|done|intros rn; by rewrite Ho].
  intros h'. unfold notifyer_of. cbn. destruct (decide (h = h')) as [<-|Hne].
  - rewrite lookup_insert_eq, Hl. cbn. by rewrite Hd.
  - by rewrite lookup_insert_ne.
Qed.

Lemma quiet_out s out : (forall rn, ended rn out = 0%nat) -> quiet s out s.
Proof. intros Ho. split; [done|done|]. intros rn. by rewrite Ho. Qed.

Lemma quiet_added h d s : m_removeNotifyer d = None -> quiet s [] (addedTorrent h d s).
Proof.
  intros Hd. unfold addedTorrent. destruct (ts_torrents s !! h) eqn:E; [apply quiet_refl|].
  split; [|done|done]. intros h'. unfold notifyer_of. cbn. destruct (decide (h = h')) as [<-|Hne].
  - by rewrite lookup_insert_eq, E.
  - by rewrite lookup_insert_ne.
Qed.

Lemma ended_connect rn h peers : ended rn (connectPeers h peers) = 0%nat.
Proof. unfold ended, connectPeers. by induction peers. Qed.

Lemma saveTorrentFile_quiet h s out s' : saveTorrentFile h s = Ret (out, s') -> quiet s out s'.
Proof.
  unfold saveTorrentFile. destruct (ts_torrents s !! h) as [d|]; [|done].
  destruct (m_dnContexts d) as [|context l]; [done|]. intros [= <- <-].
  destruct (dc_doNotDeleteTorrent context); [|by apply quiet_out].
  split; [done|done|]. intros rn. unfold ending. cbn. by rewrite List.filter_app, length_app, Nat.add_0_r.
Qed.

Lemma onAlert_quiet a s out s' :
  onAlert makeAddress automatic_piece_size limiterThrows a s = Ret (out, s') -> quiet s out s'.
Proof.
  destruct a as [|salt key seq item|h totalSize pieceLength|query response|h|]; cbn.
  - intros [= <- <-]. by apply quiet_out.
  - case_decide; [|intros [= <- <-]; apply quiet_refl].
    unfold processEndpointItem. intros E. apply bind_ret_inv in E as (o & E & E'). injection E' as <- <-.
    apply quiet_out. intros rn. destruct (seq <? 0); [by injection E as <-|].
    destruct (ts_limiter s); cbn in E; [|by injection E as <-].
    destruct item as [item|]; [|done]. repeat case_match; try done; by injection E as <-.
  - unfold onMetadataReceived. destruct (ts_torrents s !! h) as [d|] eqn:El; [|intros [= <- <-]; apply quiet_refl].
    destruct (metadataError _ _ _ _).
    + destruct (m_dnContexts _) as [|context [|]]; [done| |done]. intros [= <- <-].
      apply (quiet_data _ _ _ _ d); [done|done|]. by destruct (_ && _).
    + intros [= <- <-]. apply (quiet_data _ _ _ _ d); [done|done|]. by destruct (_ && _).
  - unfold onDirectResponse. destruct (ts_stopping s); [intros [= <- <-]; apply quiet_refl|].
    destruct query as [query|]; [|intros [= <- <-]; apply quiet_refl].
    destruct (_ && _); [|intros [= <- <-]; apply quiet_refl].
    destruct (limiterThrows _ _); [done|]. intros [= <- <-]. by apply quiet_out.
  - unfold onTorrentFinishedAlert. destruct (ts_torrents s !! h) as [d|] eqn:El; [|done].
    intros E. apply guard_assert_inv in E as [_ E]. injection E as <- <-. by apply (quiet_data _ _ _ _ d).
  - intros [= <- <-]. apply quiet_refl.
Qed.

Lemma alertLoop_quiet l s out s' :
  alertLoop makeAddress automatic_piece_size limiterThrows l s = Ret (out, s') -> quiet s out s'.
Proof.
  revert s out. induction l as [|a l IH]; intros s out; cbn; [intros [= <- <-]; apply quiet_refl|].
  destruct (onAlert _ _ _ a s) as [[o1 s1]|f] eqn:E.
  - intros E'. apply bind_ret_inv in E' as ([o2 s2] & E2 & E'). injection E' as <- <-.
    eapply quiet_trans; [by apply onAlert_quiet in E|by apply IH].
  - destruct f; try done. intros [= <- <-]. apply quiet_refl.
Qed.

Definition is_removal (ev : TsEvent) : bool :=
  match ev with Removed _ _ _ _ | Deleted _ | PostedRuns | SessionEnds => true | _ => false end.

Lemma tsStep_quiet ev s out s' : is_removal ev = false -> tsStep ev s = Ret (out, s') -> quiet s out s'.
Proof.
  destruct ev as [info folder flags dk ci mt peers wants added|context folder file hints peers dk ci mt added
    |status torrents f rf|h|h|l| | |]; try done; intros _; cbn.
  - unfold addTorrentFileToSession. destruct info as [[infoHash size]|]; [|intros [= <- <-]; apply quiet_refl].
    destruct added as [h|]; cbn.
    + intros [= <- <-]. change (?o :: ?l) with ([o] ++ l). rewrite <- (app_nil_r (_ ++ _)).
      eapply quiet_trans; [|by apply quiet_added]. apply quiet_out. intros rn. apply ended_connect.
    + destruct (_ || _); [done|]. intros [= <- <-]. by apply quiet_out.
  - unfold download. destruct added as [h|]; [|done].
    set (d0 := mkClientData None folder file [] 0 false false TORRENT_ADDED).
    destruct (ts_torrents (addedTorrent h d0 s) !! h) as [d|] eqn:El; [|done]. cbn. intros [= <- <-].
    rewrite <- (app_nil_l (_ :: _)). eapply quiet_trans; [by apply (quiet_added h d0)|].
    apply (quiet_data _ _ _ _ d); [|done|done]. intros rn. apply ended_connect.
  - unfold onCacheFlushed. destruct (ts_torrents s !! h) as [d|] eqn:El; [|intros [= <- <-]; apply quiet_refl].
    destruct (m_isRemoved d); [intros [= <- <-]; apply quiet_refl|].
    intros E. apply guard_assert_inv in E as [_ E].
    assert (quiet s [] (set_data h (set_finishStatus TORRENT_FLUSHED d) s)) as Hq by by apply (quiet_data _ _ _ _ d).
    destruct (m_dnContexts d) as [|context l]; [by injection E as <- <-|].
    destruct (dc_doNotDeleteTorrent context).
    + case_decide; [injection E as <- <-; by apply (quiet_data _ _ _ _ d)|].
      cbn [ts_isReplicator set_data set_torrents] in E.
      destruct (ts_isReplicator s); [injection E as <- <-; destruct Hq as [A B C]; by split|].
      apply saveTorrentFile_quiet in E. rewrite <- (app_nil_l out). by eapply quiet_trans.
    + injection E as <- <-. by apply (quiet_data _ _ _ _ d).
  - unfold alertHandler. destruct (ts_stopping s); [intros [= <- <-]; apply quiet_refl|apply alertLoop_quiet].
  - unfold runBackground. destruct (ts_background s) as [|h hs]; [intros [= <- <-]; apply quiet_refl|].
    intros E. apply saveTorrentFile_quiet in E as [A B C]. by split.
Qed.

Lemma markRemoved_quiet status torrents s s' : markRemoved status torrents s = Ret s' -> quiet s [] s'.
Proof.
  revert s. induction torrents as [|h torrents IH]; intros s; cbn; [intros [= <-]; apply quiet_refl|].
  destruct (status h); [|apply IH]. destruct (ts_torrents s !! h) as [d|] eqn:El; [|done].
  intros E. apply IH in E. rewrite <- (app_nil_r []). eapply quiet_trans; [|done]. by apply (quiet_data _ _ _ _ d).
Qed.

(** Sharing the notifyer: the finished torrents had none, and have it. *)
Lemma shareNotifyer_owned status n torrents s s' :
  shareNotifyer status n torrents s = Ret s' ->
  ts_removals s' = ts_removals s /\ ts_posted s' = ts_posted s /\
  forall h, (notifyer_of s' h = notifyer_of s h /\ (h ∈ torrents -> finished status h = true -> notifyer_of s h = Some n)) \/
            (notifyer_of s h = None /\ notifyer_of s' h = Some n /\ h ∈ torrents /\ finished status h = true).
Proof.
  revert s. induction torrents as [|h torrents IH]; intros s; cbn.
  { intros [= <-]. split; [done|]. split; [done|]. intros h. left. split; [done|]. intros Hin. by apply elem_of_nil in Hin. }
  destruct (finished status h) eqn:Ef.
  - destruct (ts_torrents s !! h) as [d|] eqn:El; [|done]. intros E. apply guard_assert_inv in E as [Hd E].
    apply bool_decide_eq_true in Hd. apply IH in E as (Hr & Hp & Hn). split; [done|]. split; [done|].
    intros h'. specialize (Hn h'). destruct (decide (h' = h)) as [->|Hne].
    + assert (notifyer_of s h = None) as Hnone by (unfold notifyer_of; by rewrite El).
      assert (notifyer_of (set_data h (set_removeNotifyer (Some n) d) s) h = Some n) as Hsome
        by (unfold notifyer_of; cbn; by rewrite lookup_insert_eq).
      rewrite Hsome in Hn. right. split; [done|]. split; [|split; [set_solver|done]].
      destruct Hn as [[Hn _]|[Hn _]]; [done|by discriminate].
    + assert (notifyer_of (set_data h (set_removeNotifyer (Some n) d) s) h' = notifyer_of s h') as Heq
        by (unfold notifyer_of; cbn; by rewrite lookup_insert_ne). rewrite Heq in Hn.
      destruct Hn as [[Hn Hin]|(Hn & Hn' & Hin & Hf)]; [left|right]; (split; [done|]).
      * intros [->|Hin']%elem_of_cons; [done|]. by apply Hin.
      * split; [done|]. split; [set_solver|done].
  - intros E. apply IH in E as (Hr & Hp & Hn). split; [done|]. split; [done|].
    intros h'. destruct (Hn h') as [[He Hin]|(He & He' & Hin & Hf)]; [left|right]; (split; [done|]).
    + intros [->|Hin']%elem_of_cons; [congruence|by apply Hin].
    + split; [done|]. split; [set_solver|done].
Qed.

(** The account of the removals. *)
Record removal_inv (fs : list Z) (outs : list TsOutput) (s : DefaultSession) : Prop := {
  ri_count : ts_removals s = length fs;
  ri_owned rn : owned s rn -> fs !! rn_removal rn = Some (rn_notifyer rn);
  ri_tally rn : fs !! rn_removal rn = Some (rn_notifyer rn) ->
    (owned s rn /\ (ended rn outs + ending rn s)%nat = 0%nat) \/
    (~ owned s rn /\ (ended rn outs + ending rn s)%nat = 1%nat);
  ri_none rn : fs !! rn_removal rn <> Some (rn_notifyer rn) -> (ended rn outs + ending rn s)%nat = 0%nat }.

Lemma removal_inv_quiet fs outs s out s' : removal_inv fs outs s -> quiet s out s' -> removal_inv fs (outs ++ out) s'.
Proof.
  intros [Hc Ho Ht Hn] [A B C].
  assert (forall rn, owned s' rn <-> owned s rn) as Hown by (intros rn; unfold owned; by setoid_rewrite A).
  split; [congruence| | |].
  - intros rn Hrn. by apply Ho, Hown.
  - intros rn Hrn. rewrite Hown, ended_app. specialize (C rn).
    destruct (Ht rn Hrn) as [[? ?]|[? ?]]; [left|right]; (split; [done|lia]).
  - intros rn Hrn. rewrite ended_app. specialize (C rn). specialize (Hn rn Hrn). lia.
Qed.

Lemma waits_elem rn (left : gmap nat LtClientData) :
  existsb (fun p => waits rn p.2) (map_to_list left) = true <->
  exists h d, left !! h = Some d /\ m_removeNotifyer d = Some rn.
Proof.
  rewrite existsb_exists. split.
  - intros ([h d] & Hin & Hw). apply list_elem_of_In, elem_of_map_to_list in Hin. apply bool_decide_eq_true in Hw. eauto.
  - intros (h & d & Hl & Hd). exists (h, d). split; [by apply list_elem_of_In, elem_of_map_to_list|].
    by apply bool_decide_eq_true.
Qed.

Lemma ended_told rn d (P : DownloadContext -> bool) :
  ended rn (map (fun context => Notify context download_complete (m_uploadedDataSize d) "") (List.filter P (m_dnContexts d))) = 0%nat.
Proof. unfold ended. by induction (List.filter P (m_dnContexts d)). Qed.

Lemma notifyer_of_delete h s h' :
  notifyer_of (set_torrents (delete h (ts_torrents s)) s) h' = if decide (h = h') then None else notifyer_of s h'.
Proof. unfold notifyer_of. cbn. case_decide as E; [subst; by rewrite lookup_delete_eq|by rewrite lookup_delete_ne]. Qed.

(** A deletion: either it is quiet, or it takes a notifyer from its torrent, and is
    the end of the removal when no other torrent has it. *)
Lemma deleted_cases h s out s' :
  onTorrentDeleted h s = (out, s') ->
  quiet s out s' \/
  exists rn, notifyer_of s h = Some rn /\ ts_removals s' = ts_removals s /\ ts_posted s' = ts_posted s /\
    (forall h', notifyer_of s' h' = if decide (h = h') then None else notifyer_of s h') /\
    (forall rn', rn' <> rn -> ended rn' out = 0%nat) /\
    ((owned s' rn /\ ended rn out = 0%nat) \/ (~ owned s' rn /\ ended rn out = 1%nat)).
Proof.
  unfold onTorrentDeleted. set (called := if ts_torrentDeletedHandler s then _ else _).
  assert (forall rn, ended rn called = 0%nat) as Hcalled by (intros rn; unfold called; by destruct (ts_torrentDeletedHandler s)).
  destruct (ts_stopping s); [intros [= <- <-]; left; by apply quiet_out|].
  destruct (ts_torrents s !! h) as [d|] eqn:El; [|intros [= <- <-]; left; by apply quiet_out].
  set (told := if m_invalidMetadata d then _ else _).
  assert (forall rn, ended rn told = 0%nat) as Htold
    by (intros rn; unfold told; destruct (m_invalidMetadata d); [done|apply ended_told]).
  cbn. destruct (m_removeNotifyer d) as [rn|] eqn:Ed; intros [= <- <-].
  - right. exists rn. split; [unfold notifyer_of; by rewrite El|]. split; [done|]. split; [done|].
    split; [intros h'; apply notifyer_of_delete|].
    assert (owned (set_torrents (delete h (ts_torrents s)) s) rn <->
      exists h' d', delete h (ts_torrents s) !! h' = Some d' /\ m_removeNotifyer d' = Some rn) as Hown.
    { unfold owned, notifyer_of. cbn. split.
      - intros (h' & Hn). destruct (_ !! h') as [d'|] eqn:E'; cbn in Hn; [eauto|done].
      - intros (h' & d' & Hl & Hd). exists h'. by rewrite Hl. }
    rewrite Hown, <- waits_elem. split.
    + intros rn' Hne. rewrite !ended_app, Hcalled, Htold. destruct (existsb _ _); [done|].
      unfold ended. cbn. by rewrite bool_decide_false by congruence.
    + rewrite !ended_app, Hcalled, Htold. destruct (existsb _ _); [by left|right]. split; [done|].
      unfold ended. cbn. by rewrite bool_decide_true.
  - left. split; [|done|].
    + intros h'. rewrite notifyer_of_delete. case_decide as E; [|done]. subst. unfold notifyer_of. by rewrite El.
    + intros rn. by rewrite !ended_app, Hcalled, Htold.
Qed.

Lemma removal_inv_deleted fs outs s h out s' :
  removal_inv fs outs s -> onTorrentDeleted h s = (out, s') -> removal_inv fs (outs ++ out) s'.
Proof.
  intros Hinv E. apply deleted_cases in E as [Hq|(rn & Hrn & Hr & Hp & Hof & Hother & Hend)];
    [by eapply removal_inv_quiet|].
  assert (owned s rn) as Hown by by exists h.
  assert (forall rn', owned s' rn' -> owned s rn') as Hless.
  { intros rn' [h' Hh']. rewrite Hof in Hh'. case_decide; [done|]. by exists h'. }
  assert (forall rn', rn' <> rn -> owned s rn' -> owned s' rn') as Hmore.
  { intros rn' Hne [h' Hh']. exists h'. rewrite Hof, decide_False; [done|]. intros ->. congruence. }
  assert (forall rn', ending rn' s' = ending rn' s) as Hending by (intros rn'; unfold ending; by rewrite Hp).
  destruct Hinv as [Hc Ho Ht Hn]. pose proof (Ho rn Hown) as Hfs.
  split; [congruence|by intros rn' Hrn'; apply Ho, Hless| |].
  - intros rn' Hrn'. rewrite ended_app, Hending. destruct (decide (rn' = rn)) as [->|Hne].
    + destruct (Ht rn Hfs) as [[_ Hz]|[Hno _]]; [|done]. destruct Hend as [[? ?]|[? ?]]; [left|right]; (split; [done|lia]).
    + rewrite (Hother rn' Hne). destruct (Ht rn' Hrn') as [[? ?]|[? ?]]; [left|right]; (split; [|lia]); [by apply Hmore|].
      intros Hx. by apply Hless in Hx.
  - intros rn' Hrn'. rewrite ended_app, Hending, Hother; [specialize (Hn rn' Hrn'); lia|]. by intros ->.
Qed.

(** The notifyer of the next removal. *)
Definition next_notifyer (fs : list Z) (f : Z) : RemoveNotifyer := mkNotifyer (length fs) f.

Lemma snoc_notifyer fs f rn :
  (fs ++ [f]) !! rn_removal rn = Some (rn_notifyer rn) <->
  fs !! rn_removal rn = Some (rn_notifyer rn) \/ rn = next_notifyer fs f.
Proof.
  rewrite lookup_snoc_Some. split.
  - intros [[_ ?]|[E1 E2]]; [by left|right]. destruct rn. cbn in E1, E2. by subst.
  - intros [Hl| ->]; [left|right; done]. split; [by apply lookup_lt_Some in Hl|done].
Qed.

Lemma next_fresh fs outs s f :
  removal_inv fs outs s ->
  ~ owned s (next_notifyer fs f) /\ (ended (next_notifyer fs f) outs + ending (next_notifyer fs f) s)%nat = 0%nat.
Proof.
  intros [Hc Ho Ht Hn]. assert (fs !! length fs <> Some f) as Hx by (intros Hx; apply lookup_lt_Some in Hx; lia).
  split; [intros Hy; by apply Ho in Hy|by apply Hn].
Qed.

Lemma ended_removes rn flag l : ended rn (map (fun h => RemoveTorrent h flag) l) = 0%nat.
Proof. unfold ended. by induction l. Qed.

Lemma removal_inv_shared fs outs s f status torrents flag l s' k :
  removal_inv fs outs s -> shareNotifyer status (next_notifyer fs f) torrents s = Ret s' ->
  existsb (finished status) torrents = true -> k = S (length fs) ->
  removal_inv (fs ++ [f]) (outs ++ map (fun h => RemoveTorrent h flag) l) (set_removals k s') /\
  forall h, h ∈ torrents -> finished status h = true ->
    notifyer_of (set_removals k s') h = Some (next_notifyer fs f).
Proof.
  intros Hinv E Ex ->. destruct (next_fresh _ _ _ f Hinv) as [Hfresh Hzero]. destruct Hinv as [Hc Ho Ht Hn].
  set (n := next_notifyer fs f) in *. apply shareNotifyer_owned in E as (Hr & Hp & Hof).
  assert (forall h, h ∈ torrents -> finished status h = true -> notifyer_of s' h = Some n) as Hall.
  { intros h Hin Hf. destruct (Hof h) as [[-> Hsome]|(_ & Hs & _)]; [by apply Hsome|done]. }
  assert (owned s' n) as Hn2.
  { apply existsb_exists in Ex as (h0 & Hin0 & Hf0). exists h0. by apply Hall; [apply list_elem_of_In|]. }
  assert (forall rn, rn <> n -> owned s' rn <-> owned s rn) as Hsame.
  { intros rn Hne. unfold owned. split; intros [h Hh]; exists h; destruct (Hof h) as [[He _]|(He & He' & _)]; congruence. }
  assert (forall rn, ending rn (set_removals (S (length fs)) s') = ending rn s) as Hend
    by (intros rn; unfold ending; cbn; by rewrite Hp).
  split; [|done]. split.
  - cbn. rewrite length_app. cbn. lia.
  - intros rn Hrn. apply snoc_notifyer. destruct (decide (rn = n)) as [->|Hne]; [by right|left; by apply Ho, Hsame].
  - intros rn Hrn. rewrite ended_app, ended_removes, Hend. change (owned (set_removals _ s') rn) with (owned s' rn).
    destruct (decide (rn = n)) as [->|Hne]; [left; split; [done|lia]|]. rewrite (Hsame rn Hne).
    apply snoc_notifyer in Hrn as [Hrn|]; [|done]. destruct (Ht rn Hrn) as [[? ?]|[? ?]]; [left|right]; (split; [done|lia]).
  - intros rn Hrn. rewrite ended_app, ended_removes, Hend. rewrite snoc_notifyer in Hrn.
    assert (fs !! rn_removal rn <> Some (rn_notifyer rn)) as Hx by tauto. specialize (Hn rn Hx). lia.
Qed.

Lemma removal_inv_posted fs outs s f flag l k :
  removal_inv fs outs s -> k = S (length fs) ->
  removal_inv (fs ++ [f]) (outs ++ map (fun h => RemoveTorrent h flag) l)
    (set_removals k (set_posted (ts_posted s ++ [PostedEnd (next_notifyer fs f)]) s)).
Proof.
  intros Hinv ->. destruct (next_fresh _ _ _ f Hinv) as [Hfresh Hzero]. destruct Hinv as [Hc Ho Ht Hn].
  set (n := next_notifyer fs f) in *. set (s2 := set_removals _ _).
  assert (forall rn, owned s2 rn <-> owned s rn) as Hsame by done.
  assert (forall rn, ending rn s2 = (ending rn s + if decide (n = rn) then 1 else 0)%nat) as Hend.
  { intros rn. unfold ending. cbn. rewrite List.filter_app, length_app. cbn. by case_bool_decide; case_decide. }
  split.
  - cbn. rewrite length_app. cbn. lia.
  - intros rn Hrn. apply snoc_notifyer. left. by apply Ho.
  - intros rn Hrn. rewrite ended_app, ended_removes, Hsame, Hend. destruct (decide (rn = n)) as [->|Hne].
    + right. split; [done|]. rewrite decide_True by done. lia.
    + rewrite decide_False by done. apply snoc_notifyer in Hrn as [Hrn|]; [|done].
      destruct (Ht rn Hrn) as [[? ?]|[? ?]]; [left|right]; (split; [done|lia]).
  - intros rn Hrn. rewrite ended_app, ended_removes, Hend. rewrite snoc_notifyer in Hrn. rewrite decide_False by naive_solver.
    assert (fs !! rn_removal rn <> Some (rn_notifyer rn)) as Hx by tauto. specialize (Hn rn Hx). lia.
Qed.

Lemma removal_inv_removed fs outs s status torrents f rf out s' :
  removal_inv fs outs s -> removeTorrentsFromSession status torrents f rf s = Ret (out, s') ->
  removal_inv (fs ++ [f]) (outs ++ out) s' /\
  forall h, h ∈ torrents -> finished status h = true -> notifyer_of s' h = Some (next_notifyer fs f).
Proof.
  intros Hinv E. unfold removeTorrentsFromSession in E. apply bind_ret_inv in E as (s1 & E1 & E).
  apply markRemoved_quiet in E1. pose proof (ri_count _ _ _ Hinv) as Hc.
  apply (removal_inv_quiet _ _ _ _ _ Hinv) in E1. rewrite app_nil_r in E1. clear Hinv. rewrite Hc in E.
  fold (next_notifyer fs f) in E. destruct (existsb (finished status) torrents) eqn:Ex.
  - apply bind_ret_inv in E as (s2 & E2 & E). injection E as <- <-.
    eapply removal_inv_shared; [done|done|done|]. apply shareNotifyer_owned in E2 as (Hr & _).
    by rewrite Hr, (ri_count _ _ _ E1).
  - injection E as <- <-. split; [apply removal_inv_posted; [done|by rewrite (ri_count _ _ _ E1)]|].
    intros h Hin Hf. assert (existsb (finished status) torrents = true) as Hy; [|congruence].
    apply existsb_exists. exists h. split; [by apply list_elem_of_In|done].
Qed.

Lemma removal_inv_postedRun fs outs s out s' :
  removal_inv fs outs s -> runPosted s = Ret (out, s') -> removal_inv fs (outs ++ out) s'.
Proof.
  intros Hinv E. apply (removal_inv_quiet _ _ s); [done|]. unfold runPosted in E.
  destruct (ts_posted s) as [|[n|h context] posted] eqn:Ep; [injection E as <- <-; apply quiet_refl| |].
  - injection E as <- <-. split; [done|done|]. intros rn. unfold ending, ended. cbn. rewrite Ep. cbn.
    by destruct (bool_decide (n = rn)).
  - destruct (ts_torrents s !! h) as [d|]; [|done]. injection E as <- <-.
    split; [done|done|]. intros rn. unfold ending, ended. cbn. by rewrite Ep.
Qed.

Lemma removals_snoc evs ev : removals (evs ++ [ev]) = removals evs ++ match ev with Removed _ _ f _ => [f] | _ => [] end.
Proof. unfold removals. rewrite omap_app. by destruct ev. Qed.

Lemma removal_inv_step evs outs s ev out s' :
  removal_inv (removals evs) outs s -> tsStep ev s = Ret (out, s') -> removal_inv (removals (evs ++ [ev])) (outs ++ out) s'.
Proof.
  intros Hinv E. rewrite removals_snoc.
  destruct (is_removal ev) eqn:Er.
  - destruct ev; try done; cbn in E; rewrite ?app_nil_r.
    + by eapply removal_inv_removed.
    + injection E as E. by eapply removal_inv_deleted.
    + by eapply removal_inv_postedRun.
    + injection E as <- <-. by eapply removal_inv_quiet; [|split].
  - pose proof (tsStep_quiet _ _ _ _ Er E) as Hq. destruct ev; try done; rewrite app_nil_r; by eapply removal_inv_quiet.
Qed.

(** A notifyer stays with its torrent until this is deleted. *)
Lemma notifyer_stays ev s out s' h rn :
  tsStep ev s = Ret (out, s') -> notifyer_of s h = Some rn -> notifyer_of s' h = Some rn \/ ev = Deleted h.
Proof.
  intros E Hn. destruct (is_removal ev) eqn:Er; [|left; by rewrite (q_notifyers _ _ _ (tsStep_quiet _ _ _ _ Er E))].
  destruct ev as [| |status torrents f rf|h'|h'|l| | |]; try done; cbn in E.
  - left. unfold removeTorrentsFromSession in E. apply bind_ret_inv in E as (s1 & E1 & E).
    apply markRemoved_quiet in E1. rewrite <- (q_notifyers _ _ _ E1) in Hn. destruct (existsb _ _).
    + apply bind_ret_inv in E as (s2 & E2 & E). injection E as <- <-.
      apply shareNotifyer_owned in E2 as (_ & _ & Hof). destruct (Hof h) as [[He _]|(He & _)]; [|congruence].
      by rewrite <- Hn.
    + by injection E as <- <-.
  - injection E as E. apply deleted_cases in E as [Hq|(rn' & _ & _ & _ & Hof & _)]; [left; by rewrite (q_notifyers _ _ _ Hq)|].
    rewrite Hof. destruct (decide (h' = h)) as [->|Hne]; [by right|by left].
  - left. unfold runPosted in E. destruct (ts_posted s) as [|[n|h' context] posted]; [by injection E as <- <-..|].
    destruct (ts_torrents s !! h'); [by injection E as <- <-|done].
  - injection E as <- <-. by left.
Qed.

(** C36: a removal of torrents is reported exactly once, and never before its finished
    torrents are deleted.  In every run that did not stop, each of them still waits, or
    was deleted after the call; and the function of this call was either called once,
    and nothing waits for it or is about to call it, or not yet, and a torrent waits or
    the call is posted. *)
Theorem removal_reported_once isReplicator handler before status torrents f rf after outs s :
  tsReaches isReplicator handler (before ++ Removed status torrents f rf :: after) outs s ->
  let rn := mkNotifyer (length (removals before)) f in
  (forall h, h ∈ torrents -> finished status h = true -> notifyer_of s h = Some rn \/ Deleted h ∈ after) /\
  (ended rn outs = 1%nat /\ ~ owned s rn /\ ending rn s = 0%nat \/
   ended rn outs = 0%nat /\ (owned s rn /\ ending rn s = 0%nat \/ ~ owned s rn /\ ending rn s = 1%nat)).
Proof.
  intros Hr rn.
  assert (forall evs outs s, tsReaches isReplicator handler evs outs s -> removal_inv (removals evs) outs s) as Hinv.
  { induction 1; [|by eapply removal_inv_step]. split; cbn; try done. intros rn' [h Hh]. unfold notifyer_of in Hh.
    cbn in Hh. by rewrite lookup_empty in Hh. }
  split.
  - remember (before ++ Removed status torrents f rf :: after) as evs eqn:He. revert after He.
    induction Hr as [|evs outs s ev out s' Hr IH E]; intros after He; [by destruct before|].
    destruct after as [|ev' after _] using rev_ind.
    + apply app_inj_tail in He as [-> ->]. intros h Hin Hf. left. cbn in E.
      eapply removal_inv_removed in E as [_ E]; [by apply E|by apply Hinv].
    + rewrite app_comm_cons, app_assoc in He. apply app_inj_tail in He as [-> ->]. intros h Hin Hf.
      destruct (IH after eq_refl h Hin Hf) as [Hn|Hd]; [|right; set_solver].
      destruct (notifyer_stays _ _ _ _ _ _ E Hn) as [?| ->]; [by left|right; set_solver].
  - apply Hinv in Hr. assert (removals (before ++ Removed status torrents f rf :: after) !! rn_removal rn = Some (rn_notifyer rn)) as Hl.
    { unfold removals. rewrite omap_app. cbn. by rewrite lookup_app_r, Nat.sub_diag by done. }
    destruct (ri_tally _ _ _ Hr rn Hl) as [[Ho Hz]|[Ho Hz]]; [right; split; [lia|left; split; [done|lia]]|].
    destruct (ended rn outs) eqn:Ee; [right; split; [done|right; split; [done|lia]]|left; split; [lia|split; [done|lia]]].
Qed.

(** ** Downloads *)

(** The contexts that were added to torrents, in order. *)
Definition downloads (evs : list TsEvent) : list (nat * DownloadContext) :=
  omap (fun ev => match ev with
                  | Downloaded context folder _ _ _ _ _ _ (Some h) => Some (h, storedContext folder context)
                  | _ => None
                  end) evs.
Definition ids (l : list (nat * DownloadContext)) : list Z := map (fun p => dc_notification p.2) l.

(** The handles that libtorrent has given. *)
Definition handles (evs : list TsEvent) : list nat :=
  omap (fun ev => match ev with
                  | FileAdded _ _ _ _ _ _ _ _ added | Downloaded _ _ _ _ _ _ _ _ added => added
                  | _ => None
                  end) evs.

(** How often a notification was called, and is going to be. *)
Definition is_told (i : Z) (o : TsOutput) : bool :=
  match o with Notify c _ _ _ => bool_decide (dc_notification c = i) | _ => false end.
Definition is_posted (i : Z) (p : Posted) : bool :=
  match p with PostedNotification _ c => bool_decide (dc_notification c = i) | _ => false end.
Definition front (s : DefaultSession) (h : nat) : option DownloadContext :=
  d ← ts_torrents s !! h; head (m_dnContexts d).
Definition is_saving (s : DefaultSession) (i : Z) (h : nat) : bool :=
  match front s h with Some c => bool_decide (dc_notification c = i) | None => false end.

Definition told (i : Z) (outs : list TsOutput) : nat := length (List.filter (is_told i) outs).
Definition queued (i : Z) (s : DefaultSession) : nat :=
  (length (List.filter (is_posted i) (ts_posted s)) + length (List.filter (is_saving s i) (ts_background s)))%nat.
Definition load (i : Z) (outs : list TsOutput) (s : DefaultSession) : nat := (told i outs + queued i s)%nat.

(** What libtorrent keeps to: a handle is new or that of a torrent that is there; the
    metadata of a torrent is reported before it is finished, and not after it was
    refused; a torrent with refused metadata is never on the disk.  And every download
    has a notification of its own. *)
Definition alert_ok (a : Alert) (s : DefaultSession) : Prop :=
  match a with
  | metadata_received_alert h _ _ => forall d, ts_torrents s !! h = Some d ->
      m_finishStatus d = TORRENT_ADDED /\ m_invalidMetadata d = false
  | _ => True
  end.

Fixpoint alerts_ok (l : list Alert) (s : DefaultSession) : Prop :=
  match l with
  | [] => True
  | a :: l => alert_ok a s /\
      forall out s', onAlert makeAddress automatic_piece_size limiterThrows a s = Ret (out, s') -> alerts_ok l s'
  end.

Definition handle_ok (evs : list TsEvent) (s : DefaultSession) (added : option nat) : Prop :=
  forall h, added = Some h -> ts_torrents s !! h = None -> h ∉ handles evs.

Definition event_ok (evs : list TsEvent) (s : DefaultSession) (ev : TsEvent) : Prop :=
  match ev with
  | FileAdded _ _ _ _ _ _ _ _ added => handle_ok evs s added
  | Downloaded context _ _ _ _ _ _ _ added =>
      handle_ok evs s added /\ dc_notification context ∉ ids (downloads evs)
  | Flushed h => forall d, ts_torrents s !! h = Some d -> m_invalidMetadata d = false
  | Alerts l => alerts_ok l s
  | _ => True
  end.

Inductive tsLawful (isReplicator handler : bool) : list TsEvent -> list TsOutput -> DefaultSession -> Prop :=
  | lawful_new : tsLawful isReplicator handler [] [] (newSession isReplicator handler)
  | lawful_step evs outs s ev out s' :
      tsLawful isReplicator handler evs outs s -> event_ok evs s ev -> tsStep ev s = Ret (out, s') ->
      tsLawful isReplicator handler (evs ++ [ev]) (outs ++ out) s'.

(** What a notification of a completed download goes back to. *)
Definition justified (evs : list TsEvent) (o : TsOutput) : Prop :=
  match o with
  | Notify c download_complete _ _ => exists h, (h, c) ∈ downloads evs /\
      if dc_doNotDeleteTorrent c then Flushed h ∈ evs else Deleted h ∈ evs
  | Notify c dn_failed _ _ => exists h, (h, c) ∈ downloads evs
  | _ => True
  end.

(** The account of the downloads, after the events [evs]. *)
Record download_inv (evs : list TsEvent) (outs : list TsOutput) (s : DefaultSession) : Prop := {
  di_ids : NoDup (ids (downloads evs));
  di_handles h d : ts_torrents s !! h = Some d -> h ∈ handles evs;
  di_stored h d c : ts_torrents s !! h = Some d -> c ∈ m_dnContexts d -> (h, c) ∈ downloads evs;
  di_distinct h d : ts_torrents s !! h = Some d -> NoDup (map dc_notification (m_dnContexts d));
  di_once i : (load i outs s <= 1)%nat;
  di_tail h d c : ts_torrents s !! h = Some d -> c ∈ tail (m_dnContexts d) -> load (dc_notification c) outs s = 0%nat;
  di_front h d c : ts_torrents s !! h = Some d -> head (m_dnContexts d) = Some c -> m_invalidMetadata d = false ->
    (dc_doNotDeleteTorrent c = true -> m_finishStatus d <> TORRENT_FLUSHED) -> load (dc_notification c) outs s = 0%nat;
  di_unknown i : i ∉ ids (downloads evs) -> load i outs s = 0%nat;
  di_posted h c : PostedNotification h c ∈ ts_posted s ->
    (h, c) ∈ downloads evs /\ dc_doNotDeleteTorrent c = true /\ Flushed h ∈ evs;
  di_background h : h ∈ ts_background s -> Flushed h ∈ evs /\ h ∈ handles evs /\
    forall d, ts_torrents s !! h = Some d -> m_dnContexts d <> [];
  di_justified : Forall (justified evs) outs }.

(** *** Counting *)

Lemma told_app i o1 o2 : told i (o1 ++ o2) = (told i o1 + told i o2)%nat.
Proof. unfold told. by rewrite List.filter_app, length_app. Qed.

Lemma load_app i outs out s : load i (outs ++ out) s = (load i outs s + told i out)%nat.
Proof. unfold load. rewrite told_app. lia. Qed.

Lemma load_front i outs s s' :
  ts_posted s' = ts_posted s -> ts_background s' = ts_background s ->
  (forall h, h ∈ ts_background s -> front s' h = front s h) -> load i outs s' = load i outs s.
Proof.
  intros Hp Hb Hf. unfold load, queued. rewrite Hp, Hb. do 3 f_equal.
  revert Hf. generalize (ts_background s). induction l as [|h l IH]; intros Hf; [done|]. cbn.
  unfold is_saving. rewrite (Hf h) by set_solver. fold (is_saving s i h). fold (is_saving s' i).
  rewrite IH by set_solver. done.
Qed.

Lemma ids_unique evs h1 c1 h2 c2 :
  NoDup (ids (downloads evs)) -> (h1, c1) ∈ downloads evs -> (h2, c2) ∈ downloads evs ->
  dc_notification c1 = dc_notification c2 -> h1 = h2 /\ c1 = c2.
Proof.
  intros Hnd H1 H2 He. apply list_elem_of_lookup in H1 as (i & H1), H2 as (j & H2).
  assert (i = j) as ->.
  { eapply (NoDup_lookup (ids (downloads evs))); [done| |].
    - unfold ids. by rewrite list_lookup_fmap, H1.
    - unfold ids. rewrite list_lookup_fmap, H2. cbn. by rewrite He. }
  rewrite H1 in H2. by injection H2.
Qed.

(** *** Steps that keep the account *)

Lemma justified_more evs evs' o : evs ⊆ evs' -> downloads evs ⊆ downloads evs' -> justified evs o -> justified evs' o.
Proof.
  intros He Hd. destruct o as [| | | |c [] ? ?| | | | | | | |]; try done; cbn.
  - intros (h & Hin & Hj). exists h. split; [by apply Hd|]. destruct (dc_doNotDeleteTorrent c); by apply He.
  - intros (h & Hin). exists h. by apply Hd.
Qed.

Lemma di_more evs evs' outs s :
  download_inv evs outs s -> evs ⊆ evs' -> downloads evs' = downloads evs -> handles evs ⊆ handles evs' ->
  download_inv evs' outs s.
Proof.
  intros [Hi Hh Hs Hd Ho Ht Hf Hu Hp Hb Hj] He Hdl Hhd. split; rewrite ?Hdl; try done.
  - intros h d Hl. by eapply Hhd, Hh.
  - intros h c Hin. destruct (Hp h c Hin) as (? & ? & ?). split; [done|]. split; [done|by apply He].
  - intros h Hin. destruct (Hb h Hin) as (? & ? & ?). split; [by apply He|]. split; [by apply Hhd|done].
  - eapply Forall_impl; [done|]. intros o. apply justified_more; [done|by rewrite Hdl].
Qed.

(** The data of a torrent changes, but not its contexts. *)
Lemma di_data evs outs s out h d d0 :
  download_inv evs outs s -> ts_torrents s !! h = Some d0 -> m_dnContexts d = m_dnContexts d0 ->
  (m_invalidMetadata d = false -> m_invalidMetadata d0 = false) ->
  (m_finishStatus d0 = TORRENT_FLUSHED -> m_finishStatus d = TORRENT_FLUSHED) ->
  (forall i, told i out = 0%nat) -> Forall (justified evs) out ->
  download_inv evs (outs ++ out) (set_data h d s) /\
  forall i, load i (outs ++ out) (set_data h d s) = load i outs s.
Proof.
  intros [Hi Hh Hs Hd Ho Ht Hf Hu Hp Hb Hj] Hl Hc Hinv Hst Hout Hjout.
  assert (forall i, load i (outs ++ out) (set_data h d s) = load i outs s) as Hload.
  { intros i. rewrite load_app, Hout, Nat.add_0_r. apply load_front; [done|done|]. intros h' _. unfold front. cbn.
    destruct (decide (h = h')) as [<-|Hne]; [by rewrite lookup_insert_eq, Hl; cbn; rewrite Hc|by rewrite lookup_insert_ne]. }
  split; [|done].
  assert (forall h' d', ts_torrents (set_data h d s) !! h' = Some d' ->
    exists d1, ts_torrents s !! h' = Some d1 /\ m_dnContexts d' = m_dnContexts d1 /\
      (m_invalidMetadata d' = false -> m_invalidMetadata d1 = false) /\
      (m_finishStatus d1 = TORRENT_FLUSHED -> m_finishStatus d' = TORRENT_FLUSHED)) as Hold.
  { cbn. intros h' d'. destruct (decide (h = h')) as [<-|Hne]; [rewrite lookup_insert_eq; intros [= <-]; by exists d0|].
    rewrite lookup_insert_ne by done. intros Hl'. by exists d'. }
  split; try done.
  - intros h' d' (d1 & Hl1 & _)%Hold. by eapply Hh.
  - intros h' d' c (d1 & Hl1 & -> & _)%Hold. by eapply Hs.
  - intros h' d' (d1 & Hl1 & -> & _)%Hold. by eapply Hd.
  - intros i. by rewrite Hload.
  - intros h' d' c (d1 & Hl1 & -> & _)%Hold. rewrite Hload. by eapply Ht.
  - intros h' d' c (d1 & Hl1 & -> & Hi1 & Hs1)%Hold. rewrite Hload. intros Hhd Hv Hn. eapply Hf; [done|done|by apply Hi1|].
    intros Hdnd Hfl. by apply Hn, Hs1.
  - intros i. rewrite Hload. by apply Hu.
  - intros h' Hin. destruct (Hb h' Hin) as (? & ? & Hne). split; [done|]. split; [done|].
    intros d' (d1 & Hl1 & -> & _)%Hold. by apply Hne.
  - apply Forall_app. by split.
Qed.

(** The outputs and queues change, but not the torrents, and no notification is added. *)
Lemma di_transfer evs outs s out s' :
  download_inv evs outs s -> ts_torrents s' = ts_torrents s -> (forall i, load i (outs ++ out) s' <= load i outs s)%nat ->
  (forall h c, PostedNotification h c ∈ ts_posted s' -> PostedNotification h c ∈ ts_posted s \/
     (h, c) ∈ downloads evs /\ dc_doNotDeleteTorrent c = true /\ Flushed h ∈ evs) ->
  ts_background s' ⊆ ts_background s -> Forall (justified evs) out -> download_inv evs (outs ++ out) s'.
Proof.
  intros [Hi Hh Hs Hd Ho Ht Hf Hu Hp Hb Hj] Htor Hload Hposted Hback Hout. split; rewrite ?Htor; try done.
  - intros i. specialize (Hload i). specialize (Ho i). lia.
  - intros h d c Hl Hc. specialize (Hload (dc_notification c)). specialize (Ht h d c Hl Hc). lia.
  - intros h d c Hl Hc Hv Hn. specialize (Hload (dc_notification c)). specialize (Hf h d c Hl Hc Hv Hn). lia.
  - intros i Hnot. specialize (Hload i). specialize (Hu i Hnot). lia.
  - intros h c Hin. destruct (Hposted h c Hin) as [?|?]; [by apply Hp|done].
  - intros h Hin. apply Hb. by apply Hback.
  - apply Forall_app. by split.
Qed.

(** One notification, of the first context of a torrent, is called or queued. *)
Lemma di_charge evs outs s out s' h d c :
  download_inv evs outs s -> ts_torrents s' = ts_torrents s -> ts_torrents s !! h = Some d ->
  head (m_dnContexts d) = Some c -> load (dc_notification c) outs s = 0%nat ->
  m_invalidMetadata d = true \/ dc_doNotDeleteTorrent c = true /\ m_finishStatus d = TORRENT_FLUSHED ->
  (forall i, load i (outs ++ out) s' <= load i outs s + if decide (i = dc_notification c) then 1 else 0)%nat ->
  (forall h c, PostedNotification h c ∈ ts_posted s' -> PostedNotification h c ∈ ts_posted s \/
     (h, c) ∈ downloads evs /\ dc_doNotDeleteTorrent c = true /\ Flushed h ∈ evs) ->
  (forall h', h' ∈ ts_background s' -> h' ∈ ts_background s \/ h' = h /\ Flushed h ∈ evs) ->
  Forall (justified evs) out -> download_inv evs (outs ++ out) s'.
Proof.
  intros [Hi Hh Hs Hd Ho Ht Hf Hu Hp Hb Hj] Htor Hl Hc Hzero Hflag Hload Hposted Hback Hout.
  assert (c ∈ m_dnContexts d) as Hcin by (destruct (m_dnContexts d); [done|injection Hc as ->; set_solver]).
  pose proof (Hs h d c Hl Hcin) as Hdown.
  assert (forall h' d' c', ts_torrents s !! h' = Some d' -> c' ∈ m_dnContexts d' ->
    dc_notification c' = dc_notification c -> h' = h /\ d' = d /\ c' = c) as Huniq.
  { intros h' d' c' Hl' Hc' He. destruct (ids_unique evs h' c' h c) as [-> ->]; [done|by eapply Hs|done|done|].
    split; [done|]. split; [congruence|done]. }
  split; rewrite ?Htor; try done.
  - intros i. specialize (Hload i). specialize (Ho i). case_decide as E; [subst; lia|lia].
  - intros h' d' c' Hl' Hc'. specialize (Hload (dc_notification c')). specialize (Ht h' d' c' Hl' Hc').
    case_decide as E; [|lia]. exfalso.
    assert (c' ∈ m_dnContexts d') as Hin by (destruct (m_dnContexts d'); [done|set_solver]).
    destruct (Huniq _ _ _ Hl' Hin E) as (-> & -> & ->). specialize (Hd h d Hl).
    destruct (m_dnContexts d) as [|c1 cs]; [done|]. injection Hc as ->. cbn in Hc', Hd.
    apply NoDup_cons in Hd as [Hd _]. apply Hd, list_elem_of_fmap. eauto.
  - intros h' d' c' Hl' Hc' Hv Hn. specialize (Hload (dc_notification c')). specialize (Hf h' d' c' Hl' Hc' Hv Hn).
    case_decide as E; [|lia]. exfalso.
    assert (c' ∈ m_dnContexts d') as Hin by (destruct (m_dnContexts d'); [done|injection Hc' as ->; set_solver]).
    destruct (Huniq _ _ _ Hl' Hin E) as (-> & -> & ->). destruct Hflag as [?|[Hdnd Hfl]]; [congruence|by apply Hn].
  - intros i Hnot. specialize (Hload i). specialize (Hu i Hnot). case_decide as E; [|lia]. exfalso. apply Hnot. subst i.
    unfold ids. apply list_elem_of_fmap. by exists (h, c).
  - intros h' c' Hin. destruct (Hposted h' c' Hin) as [?|?]; [by apply Hp|done].
  - intros h' Hin. destruct (Hback h' Hin) as [?|[-> ?]]; [by apply Hb|]. split; [done|]. split; [by eapply Hh|].
    intros d' Hl' He. assert (d' = d) as -> by congruence. by rewrite He in Hc.
  - apply Forall_app. by split.
Qed.

Lemma di_quiet evs outs s out :
  download_inv evs outs s -> (forall i, told i out = 0%nat) -> Forall (justified evs) out -> download_inv evs (outs ++ out) s.
Proof. intros Hinv Ht Hj. eapply di_transfer; try done; [|by left]. intros i. rewrite load_app, Ht. lia. Qed.

(** Telling the first context of a torrent whose data says so. *)
Lemma di_tell evs outs s h d c code size err :
  download_inv evs outs s -> ts_torrents s !! h = Some d -> head (m_dnContexts d) = Some c ->
  load (dc_notification c) outs s = 0%nat ->
  m_invalidMetadata d = true \/ dc_doNotDeleteTorrent c = true /\ m_finishStatus d = TORRENT_FLUSHED ->
  justified evs (Notify c code size err) -> download_inv evs (outs ++ [Notify c code size err]) s.
Proof.
  intros Hinv Hl Hc Hz Hflag Hj. eapply (di_charge _ _ _ _ s h d c); try done; try (by left); try (by apply Forall_singleton).
  intros i. rewrite load_app. unfold told. cbn. case_bool_decide; case_decide; cbn; lia.
Qed.

Lemma di_metadata evs outs s h totalSize pieceLength out s' :
  download_inv evs outs s -> alert_ok (metadata_received_alert h totalSize pieceLength) s ->
  onMetadataReceived automatic_piece_size h totalSize pieceLength s = Ret (out, s') -> download_inv evs (outs ++ out) s'.
Proof.
  intros Hinv Hok E. unfold onMetadataReceived in E.
  destruct (ts_torrents s !! h) as [d|] eqn:El; [|injection E as <- <-; by rewrite app_nil_r].
  destruct (Hok d El) as [Hst Hv]. set (noted := _ && _) in E.
  assert (forall b, m_dnContexts (if b : bool then set_uploadedDataSize totalSize d else d) = m_dnContexts d) as Hcs by by intros [].
  assert (forall b, m_finishStatus (if b : bool then set_uploadedDataSize totalSize d else d) = m_finishStatus d) as Hfs by by intros [].
  destruct (metadataError _ _ _ _) as [errorText|].
  - rewrite Hcs in E. destruct (m_dnContexts d) as [|c [|]] eqn:Ec; [done| |done]. injection E as <- <-.
    set (d' := set_invalidMetadata true _) in *.
    assert (m_dnContexts d' = m_dnContexts d) as Hc' by (cbn; by rewrite Hcs).
    destruct (di_data evs outs s [RemoveTorrent h delete_files] h d' d) as [Hi Hload];
      [done|done|done|done|intros Hfl; congruence|done|by apply Forall_singleton|].
    change (outs ++ [RemoveTorrent h delete_files; ?o]) with (outs ++ ([RemoveTorrent h delete_files] ++ [o])).
    rewrite app_assoc. eapply di_tell; [done|cbn; by rewrite lookup_insert_eq|by rewrite Hc', Ec| |by left|].
    + rewrite Hload. eapply (di_front _ _ _ Hinv); [done|by rewrite Ec|done|congruence].
    + exists h. eapply (di_stored _ _ _ Hinv); [done|]. rewrite Ec. set_solver.
  - injection E as <- <-. eapply (di_data evs outs s [] h _ d); [done|done|apply Hcs|done|by rewrite Hfs|done|done].
Qed.

Lemma di_alert evs outs s a out s' :
  download_inv evs outs s -> alert_ok a s ->
  onAlert makeAddress automatic_piece_size limiterThrows a s = Ret (out, s') -> download_inv evs (outs ++ out) s'.
Proof.
  intros Hinv Hok E. destruct a as [|salt key seq item|h totalSize pieceLength|query response|h|]; cbn in E.
  - injection E as <- <-. apply di_quiet; [done|done|by apply Forall_singleton].
  - case_decide; [|injection E as <- <-; by rewrite app_nil_r].
    apply bind_ret_inv in E as (o & E & E'). injection E' as <- <-. unfold processEndpointItem in E.
    assert (o = [] \/ exists k ep, o = [LimiterDiscovered k ep]) as [->|(k & ep & ->)];
      [|by rewrite app_nil_r|by apply di_quiet; [..|apply Forall_singleton]].
    destruct (seq <? 0); [injection E as <-; by left|]. destruct (ts_limiter s); cbn in E; [|injection E as <-; by left].
    destruct item as [item|]; [|done]. repeat case_match; try done; injection E as <-; eauto.
  - by eapply di_metadata.
  - unfold onDirectResponse in E. destruct (ts_stopping s); [injection E as <- <-; by rewrite app_nil_r|].
    destruct query as [query|]; [|injection E as <- <-; by rewrite app_nil_r].
    destruct (_ && _); [|injection E as <- <-; by rewrite app_nil_r].
    destruct (limiterThrows _ _); [done|]. injection E as <- <-. by apply di_quiet; [..|apply Forall_singleton].
  - unfold onTorrentFinishedAlert in E. destruct (ts_torrents s !! h) as [d|] eqn:El; [|done].
    apply guard_assert_inv in E as [Hst E]. apply bool_decide_eq_true in Hst. injection E as <- <-.
    eapply (di_data evs outs s [] h _ d); [done|done|done|done|intros Hfl; congruence|done|done].
  - injection E as <- <-. by rewrite app_nil_r.
Qed.

Lemma di_alerts evs outs s l out s' :
  download_inv evs outs s -> alerts_ok l s ->
  alertLoop makeAddress automatic_piece_size limiterThrows l s = Ret (out, s') -> download_inv evs (outs ++ out) s'.
Proof.
  revert outs s out. induction l as [|a l IH]; intros outs s out Hinv Hok E; cbn in E;
    [injection E as <- <-; by rewrite app_nil_r|].
  destruct Hok as [Ha Hl]. destruct (onAlert _ _ _ a s) as [[o1 s1]|f] eqn:Ea.
  - apply bind_ret_inv in E as ([o2 s2] & E2 & E). injection E as <- <-. rewrite app_assoc.
    eapply IH; [by eapply di_alert|by eapply Hl|done].
  - destruct f; try done. injection E as <- <-. by rewrite app_nil_r.
Qed.

(** Saving the torrent file of [h] queues the notification of its first context. *)
Lemma saveTorrentFile_inv h s out s' :
  saveTorrentFile h s = Ret (out, s') ->
  exists d c, ts_torrents s !! h = Some d /\ head (m_dnContexts d) = Some c /\
    out = [SaveTorrentFile h (m_saveTorrentFilename d)] /\
    s' = if dc_doNotDeleteTorrent c then set_posted (ts_posted s ++ [PostedNotification h c]) s else s.
Proof.
  unfold saveTorrentFile. destruct (ts_torrents s !! h) as [d|]; [|done].
  destruct (m_dnContexts d) as [|c l] eqn:Ec; [done|]. intros [= <- <-]. exists d, c. by rewrite Ec.
Qed.

Lemma queued_posted i s p : queued i (set_posted (ts_posted s ++ [p]) s) = (queued i s + if is_posted i p then 1 else 0)%nat.
Proof. unfold queued. cbn. rewrite List.filter_app, length_app. cbn. destruct (is_posted i p); cbn; unfold is_saving, front; cbn; lia. Qed.

Lemma queued_background i s h :
  queued i (set_background (ts_background s ++ [h]) s) = (queued i s + if is_saving s i h then 1 else 0)%nat.
Proof.
  unfold queued. cbn [ts_posted ts_background set_background]. rewrite List.filter_app, length_app.
  change (is_saving (set_background _ s) i) with (is_saving s i). cbn. destruct (is_saving s i h); cbn; lia.
Qed.

Lemma di_saved evs outs s h d c out s' :
  download_inv evs outs s -> ts_torrents s !! h = Some d -> head (m_dnContexts d) = Some c ->
  load (dc_notification c) outs s = 0%nat -> dc_doNotDeleteTorrent c = true -> m_finishStatus d = TORRENT_FLUSHED ->
  Flushed h ∈ evs -> saveTorrentFile h s = Ret (out, s') -> download_inv evs (outs ++ out) s'.
Proof.
  intros Hinv Hl Hc Hz Hdnd Hfl Hev E. apply saveTorrentFile_inv in E as (d1 & c1 & Hl1 & Hc1 & -> & ->).
  assert (d1 = d) as -> by congruence. assert (c1 = c) as -> by congruence. rewrite Hdnd.
  assert ((h, c) ∈ downloads evs) as Hdown.
  { eapply (di_stored _ _ _ Hinv); [done|]. destruct (m_dnContexts d); [done|]. injection Hc as ->. set_solver. }
  eapply (di_charge _ _ _ _ _ h d c); [done|done|done|done|done|by right| | |by left|by apply Forall_singleton].
  - intros i. rewrite load_app. unfold load. rewrite queued_posted. unfold told at 2. cbn.
    case_bool_decide; case_decide; cbn; lia.
  - cbn. intros h' c' [?|Hin]%elem_of_app; [by left|right]. apply list_elem_of_singleton in Hin. by injection Hin as -> ->.
Qed.

Lemma di_flushed evs outs s h out s' :
  download_inv evs outs s -> (forall d, ts_torrents s !! h = Some d -> m_invalidMetadata d = false) ->
  Flushed h ∈ evs -> onCacheFlushed h s = Ret (out, s') -> download_inv evs (outs ++ out) s'.
Proof.
  intros Hinv Hok Hev E. unfold onCacheFlushed in E.
  destruct (ts_torrents s !! h) as [d|] eqn:El; [|injection E as <- <-; by rewrite app_nil_r].
  destruct (m_isRemoved d); [injection E as <- <-; by rewrite app_nil_r|].
  apply guard_assert_inv in E as [Hst E]. apply bool_decide_eq_true in Hst.
  set (d' := set_finishStatus TORRENT_FLUSHED d) in *. set (s1 := set_data h d' s) in *.
  destruct (di_data evs outs s [] h d' d) as [Hi Hload]; [done|done|done|done|done|done|done|].
  rewrite app_nil_r in Hi, Hload. fold s1 in Hi, Hload.
  assert (ts_torrents s1 !! h = Some d') as El1 by (cbn; by rewrite lookup_insert_eq).
  destruct (m_dnContexts d) as [|c l] eqn:Ec; [injection E as <- <-; by rewrite app_nil_r|].
  assert (head (m_dnContexts d') = Some c) as Hc by (cbn; by rewrite Ec).
  assert (load (dc_notification c) outs s1 = 0%nat) as Hz.
  { rewrite Hload. eapply (di_front _ _ _ Hinv); [done|by rewrite Ec|by apply Hok|]. by rewrite Hst. }
  assert ((h, c) ∈ downloads evs) as Hdown by (eapply (di_stored _ _ _ Hinv); [done|rewrite Ec; set_solver]).
  destruct (dc_doNotDeleteTorrent c) eqn:Edn.
  - case_decide.
    + injection E as <- <-. eapply di_tell; [done|done|done|done|by right|]. exists h. by rewrite Edn.
    + cbn [ts_isReplicator s1 set_data set_torrents] in E. destruct (ts_isReplicator s); [|by eapply (di_saved _ _ s1)].
      injection E as <- <-. eapply (di_charge _ _ s1 _ _ h d' c); [done|done|done|done|done|by right| |by left| |done].
      * intros i. rewrite app_nil_r. unfold load.
        match goal with |- context [queued i (set_background ?b ?t)] => change (set_background b t) with
          (set_background (ts_background s1 ++ [h]) s1) end.
        rewrite queued_background. unfold is_saving, front. rewrite El1. cbn.
        rewrite Ec. cbn. case_bool_decide; case_decide; cbn; lia.
      * cbn. intros h' [?|Hin]%elem_of_app; [by left|right]. by apply list_elem_of_singleton in Hin.
  - injection E as <- <-. by apply di_quiet; [..|apply Forall_singleton].
Qed.

Lemma di_backgroundRun evs outs s out s' :
  download_inv evs outs s -> runBackground s = Ret (out, s') -> download_inv evs (outs ++ out) s'.
Proof.
  intros Hinv E. unfold runBackground in E. destruct (ts_background s) as [|h hs] eqn:Eb;
    [injection E as <- <-; by rewrite app_nil_r|].
  apply saveTorrentFile_inv in E as (d & c & Hl & Hc & -> & ->). cbn in Hl.
  assert ((h, c) ∈ downloads evs) as Hdown.
  { eapply (di_stored _ _ _ Hinv); [done|]. destruct (m_dnContexts d); [done|]. injection Hc as ->. set_solver. }
  assert (Flushed h ∈ evs) as Hev by (apply (di_background _ _ _ Hinv); rewrite Eb; set_solver).
  assert (forall i, queued i (set_background hs s) + (if bool_decide (dc_notification c = i) then 1 else 0) = queued i s)%nat as Hq.
  { intros i. unfold queued. cbn [ts_posted ts_background set_background]. rewrite Eb.
    change (is_saving (set_background hs s) i) with (is_saving s i). cbn [List.filter].
    assert (is_saving s i h = bool_decide (dc_notification c = i)) as -> by (unfold is_saving, front; rewrite Hl; cbn; by rewrite Hc).
    case_bool_decide; cbn; lia. }
  apply (di_transfer _ _ s); [done|by destruct (dc_doNotDeleteTorrent c)| | | |by apply Forall_singleton].
  - intros i. specialize (Hq i). rewrite load_app. unfold load. unfold told at 2. cbn [List.filter is_told length].
    destruct (dc_doNotDeleteTorrent c); [|lia].
    change (ts_posted s) with (ts_posted (set_background hs s)). rewrite queued_posted. cbn [is_posted]. lia.
  - intros h' c' Hin. destruct (dc_doNotDeleteTorrent c) eqn:Edn; [|by left]. cbn in Hin.
    apply elem_of_app in Hin as [?|Hin]; [by left|right]. apply list_elem_of_singleton in Hin. by injection Hin as -> ->.
  - destruct (dc_doNotDeleteTorrent c); cbn; rewrite Eb; set_solver.
Qed.

Lemma di_postedRun evs outs s out s' :
  download_inv evs outs s -> runPosted s = Ret (out, s') -> download_inv evs (outs ++ out) s'.
Proof.
  intros Hinv E. unfold runPosted in E. destruct (ts_posted s) as [|p posted] eqn:Ep;
    [injection E as <- <-; by rewrite app_nil_r|].
  assert (forall i, queued i (set_posted posted s) + (if is_posted i p then 1 else 0) = queued i s)%nat as Hq.
  { intros i. unfold queued. cbn [ts_posted ts_background set_posted]. rewrite Ep.
    change (is_saving (set_posted posted s) i) with (is_saving s i). cbn [List.filter]. destruct (is_posted i p); cbn; lia. }
  assert (forall h c, PostedNotification h c ∈ posted -> PostedNotification h c ∈ ts_posted s) as Hsub
    by (intros h c ?; rewrite Ep; set_solver).
  destruct p as [n|h c].
  - injection E as <- <-. apply (di_transfer _ _ s); [done|done| |by left; apply Hsub|done|by apply Forall_singleton].
    intros i. specialize (Hq i). rewrite load_app. unfold load. unfold told at 2. cbn. cbn in Hq. lia.
  - destruct (ts_torrents s !! h) as [d|] eqn:El; [|done]. injection E as <- <-.
    destruct (di_posted _ _ _ Hinv h c) as (Hdown & Hdnd & Hfl); [rewrite Ep; set_solver|].
    apply (di_transfer _ _ s); [done|done| |by left; apply Hsub|done|].
    + intros i. specialize (Hq i). rewrite load_app. unfold load. unfold told at 2. cbn. cbn in Hq.
      destruct (bool_decide _); cbn; lia.
    + apply Forall_singleton. exists h. by rewrite Hdnd.
Qed.

(** *** Deleted torrents *)

Definition completes (d : LtClientData) : list TsOutput :=
  map (fun context => Notify context download_complete (m_uploadedDataSize d) "")
    (List.filter (fun context => negb (dc_doNotDeleteTorrent context)) (m_dnContexts d)).

(** Each context is told once. *)
Lemma told_completes i d :
  NoDup (map dc_notification (m_dnContexts d)) ->
  (told i (completes d) <= 1)%nat /\
  (told i (completes d) <> 0%nat ->
     exists c, c ∈ m_dnContexts d /\ dc_notification c = i /\ dc_doNotDeleteTorrent c = false).
Proof.
  unfold completes, told. induction (m_dnContexts d) as [|c l IH]; [by cbn; lia|]. cbn. intros [Hc Hl]%NoDup_cons.
  destruct (IH Hl) as [IH1 IH2].
  destruct (dc_doNotDeleteTorrent c) eqn:Ed; cbn.
  - split; [done|]. intros Hn. destruct (IH2 Hn) as (c' & ? & ? & ?). exists c'. set_solver.
  - case_bool_decide as Ei; cbn.
    + split; [|intros _; exists c; set_solver].
      destruct (length _) eqn:El; [done|]. destruct IH2 as (c' & Hin & He & _); [lia|]. exfalso. apply Hc.
      rewrite Ei, <- He. by apply list_elem_of_fmap_2.
    + split; [done|]. intros Hn. destruct (IH2 Hn) as (c' & ? & ? & ?). exists c'. set_solver.
Qed.

Lemma queued_delete i s h : (queued i (set_torrents (delete h (ts_torrents s)) s) <= queued i s)%nat.
Proof.
  unfold queued. cbn. apply Nat.add_le_mono_l. induction (ts_background s) as [|h' l IH]; [done|]. cbn.
  assert (is_saving (set_torrents (delete h (ts_torrents s)) s) i h' = true -> is_saving s i h' = true) as Himp.
  { unfold is_saving, front. cbn. destruct (decide (h = h')) as [<-|Hne]; [by rewrite lookup_delete_eq|by rewrite lookup_delete_ne]. }
  destruct (is_saving (set_torrents _ _) i h'); [rewrite Himp by done; cbn; lia|].
  destruct (is_saving s i h'); cbn; lia.
Qed.

(** The torrent goes, with each of its contexts told that was not. *)
Lemma di_gone evs outs s h d out :
  download_inv evs outs s -> ts_torrents s !! h = Some d -> Deleted h ∈ evs ->
  (forall i, told i out = if m_invalidMetadata d then 0%nat else told i (completes d)) -> Forall (justified evs) out ->
  download_inv evs (outs ++ out) (set_torrents (delete h (ts_torrents s)) s).
Proof.
  intros Hinv Hl Hev Hout Hj.
  assert (forall i, told i out <= 1 /\ (told i out <> 0 -> load i outs s = 0 /\
    exists c, c ∈ m_dnContexts d /\ dc_notification c = i))%nat as Htold.
  { intros i. rewrite Hout. destruct (m_invalidMetadata d) eqn:Ev; [lia|].
    destruct (told_completes i d (di_distinct _ _ _ Hinv h d Hl)) as [H1 H2]. split; [done|].
    intros Hn. destruct (H2 Hn) as (c & Hc & <- & Hdnd). split; [|by exists c].
    destruct (m_dnContexts d) as [|c0 cs] eqn:Ec; [by apply elem_of_nil in Hc|].
    apply elem_of_cons in Hc as [->|Hc]; [|eapply (di_tail _ _ _ Hinv); [done|by rewrite Ec]].
    eapply (di_front _ _ _ Hinv); [done|by rewrite Ec|done|congruence]. }
  assert (forall i, load i (outs ++ out) (set_torrents (delete h (ts_torrents s)) s) <= load i outs s + told i out)%nat as Hload.
  { intros i. rewrite load_app. unfold load. pose proof (queued_delete i s h). lia. }
  assert (forall h' d' c, delete h (ts_torrents s) !! h' = Some d' -> c ∈ m_dnContexts d' ->
    told (dc_notification c) out = 0%nat) as Hother.
  { intros h' d' c [Hne Hl']%lookup_delete_Some Hc. destruct (decide (told (dc_notification c) out = 0%nat)) as [|Hn]; [done|].
    destruct (proj2 (Htold _) Hn) as (_ & c' & Hc' & He).
    destruct (ids_unique evs h' c h c') as [-> _]; [apply Hinv|by eapply (di_stored _ _ _ Hinv)..|done|done]. }
  destruct Hinv as [Hi Hh Hs Hd Ho Ht Hf Hu Hp Hb Hjj]. split; cbn [ts_torrents set_torrents]; try done.
  - intros h' d' [_ Hl']%lookup_delete_Some. by eapply Hh.
  - intros h' d' c [_ Hl']%lookup_delete_Some. by eapply Hs.
  - intros h' d' [_ Hl']%lookup_delete_Some. by eapply Hd.
  - intros i. specialize (Hload i). specialize (Ho i). destruct (Htold i) as [H1 H2].
    destruct (decide (told i out = 0%nat)) as [|Hn]; [lia|]. destruct (H2 Hn) as [Hz _]. lia.
  - intros h' d' c Hl' Hc. specialize (Hload (dc_notification c)). rewrite (Hother h' d' c Hl') in Hload
      by (destruct (m_dnContexts d'); [done|set_solver]).
    apply lookup_delete_Some in Hl' as [_ Hl']. specialize (Ht h' d' c Hl' Hc). lia.
  - intros h' d' c Hl' Hc Hv Hn. specialize (Hload (dc_notification c)). rewrite (Hother h' d' c Hl') in Hload
      by (destruct (m_dnContexts d'); [done|injection Hc as ->; set_solver]).
    apply lookup_delete_Some in Hl' as [_ Hl']. specialize (Hf h' d' c Hl' Hc Hv Hn). lia.
  - intros i Hnot. specialize (Hload i). specialize (Hu i Hnot).
    destruct (decide (told i out = 0%nat)) as [|Hn]; [lia|]. destruct (proj2 (Htold i) Hn) as (_ & c & Hc & <-).
    exfalso. apply Hnot. apply list_elem_of_fmap. exists (h, c). split; [done|by eapply Hs].
  - intros h' Hin. destruct (Hb h' Hin) as (? & ? & Hne). split; [done|]. split; [done|].
    intros d' [_ Hl']%lookup_delete_Some. by apply Hne.
  - apply Forall_app. by split.
Qed.

Lemma di_deleted evs outs s h :
  download_inv evs outs s -> Deleted h ∈ evs ->
  download_inv evs (outs ++ (onTorrentDeleted h s).1) (onTorrentDeleted h s).2.
Proof.
  intros Hinv Hev. unfold onTorrentDeleted. set (called := if ts_torrentDeletedHandler s then _ else _).
  assert (forall i, told i called = 0%nat) as Hc by (intros i; unfold called; by destruct (ts_torrentDeletedHandler s)).
  assert (Forall (justified evs) called) as Hjc
    by (unfold called; destruct (ts_torrentDeletedHandler s); [by apply Forall_singleton|done]).
  destruct (ts_stopping s); [by apply di_quiet|].
  destruct (ts_torrents s !! h) as [d|] eqn:El; [|by apply di_quiet].
  fold (completes d). unfold deleteUserdata.
  set (ends := match m_removeNotifyer d with Some _ => _ | None => _ end). cbn [fst snd].
  assert (ends = [] \/ exists rn, ends = [EndNotification rn]) as Hends
    by (unfold ends; destruct (m_removeNotifyer d); [destruct (existsb _ _)|]; eauto).
  apply (di_gone _ _ _ _ d); [done|done|done| |].
  - intros i. rewrite !told_app, Hc.
    assert (told i ends = 0%nat) as -> by by destruct Hends as [->|[rn ->]].
    destruct (m_invalidMetadata d); cbn; lia.
  - apply Forall_app. split; [done|]. apply Forall_app. split.
    + destruct (m_invalidMetadata d); [done|]. unfold completes. apply Forall_map, Forall_forall.
      intros c Hin. apply list_elem_of_In, filter_In in Hin as [Hin Hdnd]. apply list_elem_of_In in Hin.
      exists h. split; [by eapply (di_stored _ _ _ Hinv)|]. by apply negb_true_iff in Hdnd as ->.
    + destruct Hends as [->|[rn ->]]; [done|by apply Forall_singleton].
Qed.

(** *** New torrents and downloads *)

Definition contexts_of (s : DefaultSession) (h : nat) : list DownloadContext :=
  from_option m_dnContexts [] (ts_torrents s !! h).

(** A torrent that is new, or has one more context. *)
Lemma di_put evs evs' outs s out h d new :
  download_inv evs outs s -> (ts_torrents s !! h = None -> h ∉ handles evs) ->
  evs ⊆ evs' -> handles evs ⊆ handles evs' -> h ∈ handles evs' ->
  downloads evs' = downloads evs ++ map (pair h) new -> NoDup (ids (downloads evs')) ->
  m_dnContexts d = contexts_of s h ++ new ->
  (forall d0, ts_torrents s !! h = Some d0 -> m_invalidMetadata d = m_invalidMetadata d0 /\ m_finishStatus d = m_finishStatus d0) ->
  (forall i, told i out = 0%nat) -> Forall (justified evs') out ->
  download_inv evs' (outs ++ out) (set_data h d s).
Proof.
  intros Hinv Hfresh Hevs Hhd Hhin Hdl Hnd Hcs Hsame Hout Hj.
  assert (h ∈ ts_background s -> contexts_of s h <> []) as Hback.
  { intros Hin. destruct (di_background _ _ _ Hinv h Hin) as (_ & Hin' & Hne). unfold contexts_of.
    destruct (ts_torrents s !! h) as [d0|] eqn:El; [by apply Hne|by apply Hfresh in Hin']. }
  assert (forall i, load i (outs ++ out) (set_data h d s) = load i outs s) as Hload.
  { intros i. rewrite load_app, Hout, Nat.add_0_r. apply load_front; [done|done|]. intros h' Hin. unfold front. cbn.
    destruct (decide (h = h')) as [<-|Hne]; [|by rewrite lookup_insert_ne]. rewrite lookup_insert_eq. cbn. rewrite Hcs.
    specialize (Hback Hin). unfold contexts_of in *. destruct (ts_torrents s !! h) as [d0|]; [|done]. cbn in *.
    by destruct (m_dnContexts d0). }
  assert (downloads evs ⊆ downloads evs') as Hmore by (rewrite Hdl; set_solver).
  assert (forall c, c ∈ contexts_of s h -> (h, c) ∈ downloads evs) as Hold.
  { intros c. unfold contexts_of. destruct (ts_torrents s !! h) as [d0|] eqn:El; cbn; [by eapply di_stored|set_solver]. }
  assert (forall c, c ∈ new -> dc_notification c ∉ ids (downloads evs)) as Hnew.
  { intros c Hc Hin. rewrite Hdl in Hnd. unfold ids in Hnd. rewrite map_app in Hnd. apply NoDup_app in Hnd as (_ & Hdis & _).
    apply (Hdis _ Hin). apply list_elem_of_fmap. exists (h, c). split; [done|]. apply list_elem_of_fmap. by exists c. }
  assert (NoDup (map dc_notification new)) as Hnn.
  { rewrite Hdl in Hnd. unfold ids in Hnd. rewrite map_app, map_map in Hnd. by apply NoDup_app in Hnd as (_ & _ & Hnd). }
  destruct Hinv as [Hi Hh Hs Hd Ho Ht Hf Hu Hp Hb Hjj].
  assert (forall c, c ∈ new -> load (dc_notification c) outs s = 0%nat) as Hz by (intros c Hc; by apply Hu, Hnew).
  split; try done.
  - cbn. intros h' d'. destruct (decide (h = h')) as [<-|Hne]; [done|]. rewrite lookup_insert_ne by done. intros Hl. eapply Hhd, Hh, Hl.
  - cbn. intros h' d' c. destruct (decide (h = h')) as [<-|Hne].
    + rewrite lookup_insert_eq. intros [= <-]. rewrite Hcs. intros [Hc|Hc]%elem_of_app; [by apply Hmore, Hold|].
      rewrite Hdl. apply elem_of_app. right. by apply list_elem_of_fmap_2.
    + rewrite lookup_insert_ne by done. intros Hl Hc. by eapply Hmore, Hs.
  - cbn. intros h' d'. destruct (decide (h = h')) as [<-|Hne]; [|rewrite lookup_insert_ne by done; apply Hd].
    rewrite lookup_insert_eq. intros [= <-]. rewrite Hcs, map_app. apply NoDup_app. split; [|split; [|done]].
    + unfold contexts_of. destruct (ts_torrents s !! h) as [d0|] eqn:El; [by eapply Hd|constructor].
    + intros i Hin1 Hin2. apply list_elem_of_fmap in Hin1 as (c1 & -> & Hc1), Hin2 as (c2 & He & Hc2).
      apply (Hnew c2 Hc2). rewrite <- He. apply list_elem_of_fmap. exists (h, c1). split; [done|by apply Hold].
  - intros i. by rewrite Hload.
  - cbn. intros h' d' c. rewrite Hload. destruct (decide (h = h')) as [<-|Hne]; [|rewrite lookup_insert_ne by done; apply Ht].
    rewrite lookup_insert_eq. intros [= <-]. rewrite Hcs. unfold contexts_of. destruct (ts_torrents s !! h) as [d0|] eqn:El; cbn.
    + destruct (m_dnContexts d0) as [|c0 cs] eqn:Ec; cbn.
      * intros Hc. apply Hz. destruct new; [done|set_solver].
      * intros [Hc|Hc]%elem_of_app; [|by apply Hz]. eapply Ht; [done|by rewrite Ec].
    + intros Hc. apply Hz. destruct new; [done|set_solver].
  - cbn. intros h' d' c. rewrite Hload. destruct (decide (h = h')) as [<-|Hne]; [|rewrite lookup_insert_ne by done; apply Hf].
    rewrite lookup_insert_eq. intros [= <-]. rewrite Hcs. unfold contexts_of. destruct (ts_torrents s !! h) as [d0|] eqn:El; cbn.
    + destruct (Hsame d0 eq_refl) as [-> ->]. destruct (m_dnContexts d0) as [|c0 cs] eqn:Ec; cbn.
      * intros Hc _ _. apply Hz. destruct new; [done|]. injection Hc as ->. set_solver.
      * intros [= <-]. eapply Hf; [done|by rewrite Ec].
    + intros Hc _ _. apply Hz. destruct new; [done|]. injection Hc as ->. set_solver.
  - intros i Hnot. rewrite Hload. apply Hu. intros Hin. apply Hnot. rewrite Hdl. unfold ids. rewrite map_app. set_solver.
  - intros h' c Hin. destruct (Hp h' c Hin) as (? & ? & ?). split; [by apply Hmore|]. split; [done|by apply Hevs].
  - intros h' Hin. destruct (Hb h' Hin) as (? & ? & Hne). split; [by apply Hevs|]. split; [by apply Hhd|].
    cbn. intros d'. destruct (decide (h = h')) as [<-|Hne']; [|rewrite lookup_insert_ne by done; apply Hne].
    rewrite lookup_insert_eq. intros [= <-]. rewrite Hcs. specialize (Hback Hin). by destruct (contexts_of s h).
  - apply Forall_app. split; [|done]. eapply Forall_impl; [done|]. intros o. by apply justified_more.
Qed.

Lemma told_connect i h peers : told i (connectPeers h peers) = 0%nat.
Proof. unfold told, connectPeers. by induction peers. Qed.

Lemma justified_connect evs h peers : Forall (justified evs) (connectPeers h peers).
Proof. unfold connectPeers. by apply Forall_map, Forall_forall. Qed.

Lemma downloads_snoc evs ev : downloads (evs ++ [ev]) = downloads evs ++ downloads [ev].
Proof. unfold downloads. apply omap_app. Qed.

Lemma handles_snoc evs ev : handles (evs ++ [ev]) = handles evs ++ handles [ev].
Proof. unfold handles. apply omap_app. Qed.

(** Events that add no download. *)
Lemma di_event evs outs s ev : download_inv evs outs s -> downloads [ev] = [] -> download_inv (evs ++ [ev]) outs s.
Proof.
  intros Hinv Hd. eapply di_more; [done|set_solver|by rewrite downloads_snoc, Hd, app_nil_r|rewrite handles_snoc; set_solver].
Qed.

Lemma di_fileAdded evs outs s info folder flags dk ci mt peers wants added r n out s' :
  let ev := FileAdded info folder flags dk ci mt peers wants added in
  download_inv evs outs s -> handle_ok evs s added ->
  addTorrentFileToSession info folder flags dk ci mt peers wants added s = Ret (r, n, out, s') ->
  download_inv (evs ++ [ev]) (outs ++ out) s'.
Proof.
  intros ev Hinv Hok E. pose proof (di_event evs outs s ev Hinv eq_refl) as Hinv'. unfold addTorrentFileToSession in E.
  destruct info as [[infoHash size]|]; [|injection E as <- <- <- <-; by rewrite app_nil_r].
  destruct added as [h|]; cbn in E.
  - injection E as <- <- <- <-. change (AddTorrent ?a ?b ?c ?d ?e ?f :: ?l) with ([AddTorrent a b c d e f] ++ l).
    unfold addedTorrent. destruct (ts_torrents s !! h) as [d|] eqn:El.
    + apply di_quiet; [done|intros i; apply told_connect|]. apply Forall_app. split; [by apply Forall_singleton|apply justified_connect].
    + eapply (di_put evs _ outs s _ h newClientData []); [done|by intros ?; eapply Hok|set_solver|..].
      * rewrite handles_snoc. set_solver.
      * rewrite handles_snoc. cbn. set_solver.
      * by rewrite downloads_snoc.
      * apply Hinv'.
      * unfold contexts_of. by rewrite El.
      * intros d0. by rewrite El.
      * intros i. apply told_connect.
      * apply Forall_app. split; [by apply Forall_singleton|apply justified_connect].
  - destruct (_ || _); [done|]. injection E as <- <- <- <-. by apply di_quiet; [..|apply Forall_singleton].
Qed.

Lemma di_downloaded evs outs s context folder file hints peers dk ci mt added h out s' :
  let ev := Downloaded context folder file hints peers dk ci mt added in
  download_inv evs outs s -> handle_ok evs s added -> dc_notification context ∉ ids (downloads evs) ->
  download context folder file hints peers dk ci mt added s = Ret (h, out, s') ->
  download_inv (evs ++ [ev]) (outs ++ out) s'.
Proof.
  intros ev Hinv Hok Hid E. unfold download in E. destruct added as [h'|]; [|done].
  set (d0 := mkClientData None folder file [] 0 false false TORRENT_ADDED) in E.
  destruct (ts_torrents (addedTorrent h' d0 s) !! h') as [d|] eqn:El; [|done]. injection E as -> <- <-.
  set (c := storedContext folder context) in *. set (d' := set_dnContexts (m_dnContexts d ++ [c]) d).
  assert (dc_notification c = dc_notification context) as Hc by (unfold c, storedContext; by destruct (dc_downloadType context)).
  assert (m_dnContexts d = contexts_of s h /\
    forall d1, ts_torrents s !! h = Some d1 -> d1 = d) as [Hcs Hsame].
  { unfold contexts_of, addedTorrent in *. destruct (ts_torrents s !! h) as [d1|] eqn:E1; cbn.
    - assert (d1 = d) as -> by congruence. split; [done|]. by intros ? [= <-].
    - cbn in El. rewrite lookup_insert_eq in El. injection El as <-. done. }
  assert (set_data h d' (addedTorrent h d0 s) = set_data h d' s) as ->.
  { unfold addedTorrent. destruct (ts_torrents s !! h); [done|]. unfold set_data, set_torrents. cbn.
    by rewrite insert_insert_eq. }
  assert (downloads (evs ++ [ev]) = downloads evs ++ map (pair h) [c]) as Hdl by (by rewrite downloads_snoc).
  eapply (di_put evs _ outs s _ h d' [c]); [done|by intros ?; eapply Hok|set_solver|..].
  - rewrite handles_snoc. set_solver.
  - rewrite handles_snoc. cbn. set_solver.
  - done.
  - rewrite Hdl. unfold ids. rewrite map_app. cbn. apply NoDup_app. split; [apply Hinv|]. split; [|apply NoDup_singleton].
    intros i Hin ->%list_elem_of_singleton. by rewrite Hc in Hin.
  - cbn. by rewrite Hcs.
  - intros d1 Hl1. by apply Hsame in Hl1 as ->.
  - intros i. apply told_connect.
  - constructor; [done|apply justified_connect].
Qed.

(** *** Removed torrents *)

Lemma di_marked evs outs status torrents s s' :
  download_inv evs outs s -> markRemoved status torrents s = Ret s' -> download_inv evs outs s'.
Proof.
  revert s. induction torrents as [|h torrents IH]; intros s Hinv; cbn; [by intros [= <-]|].
  destruct (status h); [|by apply IH]. destruct (ts_torrents s !! h) as [d|] eqn:El; [|done]. apply IH.
  rewrite <- (app_nil_r outs). by eapply (di_data evs outs s [] h _ d).
Qed.

Lemma di_shared evs outs status n torrents s s' :
  download_inv evs outs s -> shareNotifyer status n torrents s = Ret s' -> download_inv evs outs s'.
Proof.
  revert s. induction torrents as [|h torrents IH]; intros s Hinv; cbn; [by intros [= <-]|].
  destruct (finished status h); [|by apply IH]. destruct (ts_torrents s !! h) as [d|] eqn:El; [|done].
  intros E. apply guard_assert_inv in E as [_ E]. revert E. apply IH.
  rewrite <- (app_nil_r outs). by eapply (di_data evs outs s [] h _ d).
Qed.

Lemma di_removed evs outs s status torrents f rf out s' :
  download_inv evs outs s -> removeTorrentsFromSession status torrents f rf s = Ret (out, s') ->
  download_inv evs (outs ++ out) s'.
Proof.
  intros Hinv E. unfold removeTorrentsFromSession in E. apply bind_ret_inv in E as (s1 & E1 & E).
  apply (di_marked _ _ _ _ _ _ Hinv) in E1. clear Hinv.
  assert (forall i flag l, told i (map (fun h => RemoveTorrent h flag) l) = 0%nat) as Ht
    by (intros i flag l; unfold told; by induction l).
  assert (forall flag l, Forall (justified evs) (map (fun h => RemoveTorrent h flag) l)) as Hj
    by (intros flag l; by apply Forall_map, Forall_forall).
  destruct (existsb _ _).
  - apply bind_ret_inv in E as (s2 & E2 & E). injection E as <- <-. apply (di_shared _ _ _ _ _ _ _ E1) in E2.
    apply (di_transfer _ _ s2); [done|done| |by left|done|done]. intros i. rewrite load_app, Ht. unfold load, queued. cbn.
    change (is_saving (set_removals _ s2) i) with (is_saving s2 i). lia.
  - injection E as <- <-. apply (di_transfer _ _ s1); [done|done| | |done|done].
    + intros i. rewrite load_app, Ht. unfold load, queued. cbn. rewrite List.filter_app, length_app. cbn.
      change (is_saving (set_removals _ _) i) with (is_saving s1 i). lia.
    + cbn. intros h c [?|Hin]%elem_of_app; [by left|]. by apply list_elem_of_singleton in Hin.
Qed.

Lemma di_step evs outs s ev out s' :
  download_inv evs outs s -> event_ok evs s ev -> tsStep ev s = Ret (out, s') ->
  download_inv (evs ++ [ev]) (outs ++ out) s'.
Proof.
  intros Hinv Hok E. destruct ev as [info folder flags dk ci mt peers wants added|context folder file hints peers dk ci mt added
    |status torrents f rf|h|h|l| | |]; cbn in E.
  - apply bind_ret_inv in E as ([[[r n] o] s1] & E & E'). injection E' as <- <-. by eapply di_fileAdded.
  - apply bind_ret_inv in E as ([[h o] s1] & E & E'). injection E' as <- <-. destruct Hok as [Hok Hid]. by eapply di_downloaded.
  - eapply di_removed; [by apply di_event|done].
  - injection E as E. pose proof (di_deleted (evs ++ [Deleted h]) outs s h) as Hd. rewrite E in Hd.
    apply Hd; [by apply di_event|set_solver].
  - eapply di_flushed; [by apply di_event|done|set_solver|done].
  - unfold alertHandler in E. destruct (ts_stopping s).
    + injection E as <- <-. rewrite app_nil_r. by apply di_event.
    + eapply di_alerts; [by apply di_event|done|done].
  - eapply di_postedRun; [by apply di_event|done].
  - eapply di_backgroundRun; [by apply di_event|done].
  - injection E as <- <-. eapply di_transfer; [by apply di_event|done| |by left|done|done].
    intros i. rewrite app_nil_r. done.
Qed.

(** C35: each download is reported at most once -- as complete, or as failed -- and as
    complete only after its torrent was on the disk, when the torrent is to be kept, or
    was deleted, when it is not; whatever is queued by the two threads is counted. *)
Theorem download_told_once isReplicator handler evs outs s :
  tsLawful isReplicator handler evs outs s ->
  (forall i, (told i outs + queued i s <= 1)%nat) /\ Forall (justified evs) outs.
Proof.
  intros Hr. assert (download_inv evs outs s) as Hinv; [|split; apply Hinv].
  induction Hr as [|evs outs s ev out s' _ IH Hok E]; [|by eapply di_step].
  split; cbn; try done; try (by constructor); try (intros *; by rewrite lookup_empty); try (intros * Hin; by apply elem_of_nil in Hin).
Qed.

End Runs.

(** ** Addresses in the DHT *)

Fixpoint free_of (c : Ascii.ascii) (s : string) : Prop :=
  match s with EmptyString => True | String c' s => c' <> c /\ free_of c s end.

Lemma splitAt_free c acc s : free_of c s -> splitAt c acc s = [acc +:+ s].
Proof.
  revert acc. induction s as [|a s IH]; intros acc; cbn [free_of splitAt]; [by rewrite string_app_nil|].
  intros [Ha Hs]. destruct (Ascii.eqb_spec a c); [done|]. by rewrite IH, <- string_app_cons.
Qed.

Lemma splitAt_two c acc s t : free_of c s -> splitAt c acc (s +:+ String c t) = (acc +:+ s) :: splitAt c "" t.
Proof.
  revert acc. induction s as [|a s IH]; intros acc.
  - intros _. change ("" +:+ String c t) with (String c t). cbn [splitAt]. by rewrite Ascii.eqb_refl, string_app_nil.
  - intros [Ha Hs]. change (String a s +:+ String c t) with (String a (s +:+ String c t)). cbn [splitAt].
    destruct (Ascii.eqb_spec a c); [done|]. by rewrite IH, <- string_app_cons.
Qed.

Lemma pretty_N_char_free x : pretty_N_char x <> "?"%char.
Proof. unfold pretty_N_char. repeat case_match; discriminate. Qed.

Lemma number_free z : free_of "?" (number z).
Proof.
  unfold number, pretty, pretty_N. case_decide; [by split|]. generalize (Z.to_N z) as x.
  assert (free_of "?" "") as Hs by done. revert Hs. generalize ""%string as s. intros s Hs x. revert s Hs.
  induction (N.lt_wf_0 x) as [x _ IH]; intros s Hs.
  destruct (decide (x = 0)%N) as [->|Hx]; [by rewrite pretty_N_go_0|].
  rewrite pretty_N_go_step by lia. apply IH; [apply N.div_lt; lia|]. split; [apply pretty_N_char_free|done].
Qed.

(** What one session announces, the session of another hands to its limiter. *)
Lemma announced_address_found printAddress makeAddress ep key seq s s' :
  (forall a, makeAddress (printAddress a) = Some a /\ free_of "?" (printAddress a)) ->
  isValid ep = true -> 0 <= ep_port ep < 65536 -> ts_limiter s = true -> ts_limiter s' = true -> 0 <= seq ->
  exists item, announceMyIp printAddress ep s = [PutItem item] /\
    processEndpointItem makeAddress key seq (Some item) s' = Ret [LimiterDiscovered key ep].
Proof.
  intros Hboost Hv Hp Hs Hs' Hseq. destruct (Hboost (ep_address ep)) as [Hmake Hfree].
  unfold announceMyIp. rewrite Hv, Hs. eexists. split; [done|]. unfold processEndpointItem.
  destruct (Z.ltb_spec seq 0); [lia|]. rewrite Hs'. cbn [negb].
  change ("?" +:+ number (ep_port ep)) with (String "?" (number (ep_port ep))).
  rewrite splitAt_two, splitAt_free by (done || apply number_free).
  change ("" +:+ printAddress (ep_address ep)) with (printAddress (ep_address ep)).
  change ("" +:+ number (ep_port ep)) with (number (ep_port ep)). cbv beta iota. rewrite Hmake, stoi_number, Z.mod_small by lia. by destruct ep.
Qed.

(** ** Concrete runs *)

Definition anyAddress (s : string) : option Address := Some (V4 9).
Definition piece16 (size : Z) : Z := 16.
Definition noThrow (query : string) (response : list Z) : bool := false.
Definition kept : DownloadContext := mkContext missing_files 1 100 0 "" true.
Definition fetched : DownloadContext := mkContext file_from_drive 2 200 0 "" false.

Notation stepOf := (tsStep anyAddress piece16 noThrow).

(** Runs some events. *)
Fixpoint runOf (evs : list TsEvent) (s : DefaultSession) : Result :=
  match evs with
  | [] => Ret ([], s)
  | ev :: evs => '(out, s) ← stepOf ev s; '(out', s) ← runOf evs s; Ret (out ++ out', s)
  end.

Lemma runOf_reaches r b evs evs' outs s out s' :
  tsReaches anyAddress piece16 noThrow r b evs outs s -> runOf evs' s = Ret (out, s') ->
  tsReaches anyAddress piece16 noThrow r b (evs ++ evs') (outs ++ out) s'.
Proof.
  revert evs outs s out. induction evs' as [|ev evs' IH]; intros evs outs s out Hr E; cbn in E.
  - injection E as <- <-. by rewrite !app_nil_r.
  - apply bind_ret_inv in E as ([o1 s1] & E1 & E). apply bind_ret_inv in E as ([o2 s2] & E2 & E). injection E as <- <-.
    change (ev :: evs') with ([ev] ++ evs'). rewrite !app_assoc. eapply IH; [by eapply ts_step|done].
Qed.

Definition fetch (c : DownloadContext) (file : string) (h : nat) : TsEvent :=
  Downloaded c "/drive" file [] [] None None None (Some h).

(** Both downloads are complete, the second torrent is deleted for that, and the first
    is removed. *)
Definition events2 : list TsEvent :=
  [fetch kept "" 1; fetch fetched "" 2; Alerts [metadata_received_alert 1 50 16; torrent_finished_alert 1; torrent_finished_alert 2];
   Flushed 1; Flushed 2; Deleted 2].
Definition remove1 : TsEvent := Removed (fun h => if (h =? 1)%nat then Some 5 else None) [1%nat] 7 true.

Lemma removal_reported_once_witness : exists outs s,
  tsReaches anyAddress piece16 noThrow true false (events2 ++ [remove1; Deleted 1]) outs s /\
  ended (mkNotifyer 0 7) outs = 1%nat.
Proof.
  assert (exists outs s, tsReaches anyAddress piece16 noThrow true false (events2 ++ remove1 :: [Deleted 1]) outs s /\
    ~ owned s (mkNotifyer 0 7) /\ ending (mkNotifyer 0 7) s = 0%nat) as (outs & s & Hr & Ho & Hn).
  { do 2 eexists. split.
    - apply (runOf_reaches true false [] (events2 ++ remove1 :: [Deleted 1]) [] (newSession true false)); [apply ts_new|].
      vm_compute. reflexivity.
    - split; [|reflexivity]. intros [h Hh]. by vm_compute in Hh. }
  exists outs, s. split; [done|].
  destruct (removal_reported_once anyAddress piece16 noThrow true false events2
    (fun h => if (h =? 1)%nat then Some 5 else None) [1%nat] 7 true [Deleted 1%nat] outs s Hr) as [_ [[H _]|[_ [[H _]|[_ H]]]]];
    [done|by destruct Ho|].
  change (ending (mkNotifyer 0 7) s = 1%nat) in H. by rewrite Hn in H.
Defined.

Lemma runOf_lawful r b evs ev outs s out s' :
  tsLawful anyAddress piece16 noThrow r b evs outs s -> event_ok anyAddress piece16 noThrow evs s ev ->
  stepOf ev s = Ret (out, s') -> tsLawful anyAddress piece16 noThrow r b (evs ++ [ev]) (outs ++ out) s'.
Proof. intros Hr Hok E. by eapply lawful_step. Qed.

Lemma download_told_once_witness : exists outs s,
  tsLawful anyAddress piece16 noThrow false true
    [fetch kept "" 1; Alerts [metadata_received_alert 1 50 16; torrent_finished_alert 1]; Flushed 1] outs s /\
  Notify kept download_complete 50 "" ∈ outs /\ told 1 outs = 1%nat.
Proof.
  assert (exists outs s, tsLawful anyAddress piece16 noThrow false true
    [fetch kept "" 1; Alerts [metadata_received_alert 1 50 16; torrent_finished_alert 1]; Flushed 1] outs s /\
    Notify kept download_complete 50 "" ∈ outs /\ (1 <= told 1 outs)%nat) as (outs & s & Hr & Hin & Hn).
  { do 2 eexists. split; [|split].
    - change [fetch kept "" 1; ?a; ?b] with ((([] ++ [fetch kept "" 1]) ++ [a]) ++ [b]).
      eapply runOf_lawful; [eapply runOf_lawful; [eapply runOf_lawful; [apply lawful_new| |vm_compute; reflexivity]| |
        vm_compute; reflexivity]| |vm_compute; reflexivity].
      + split; [|by intros Hx; apply elem_of_nil in Hx]. intros h _ _ Hx. by apply elem_of_nil in Hx.
      + split; [|split; [done|done]]. intros d Hd. vm_compute in Hd. by injection Hd as <-.
      + intros d Hd. vm_compute in Hd. by injection Hd as <-.
    - cbn. set_solver.
    - vm_compute. lia. }
  exists outs, s. split; [done|]. split; [done|].
  destruct (download_told_once anyAddress piece16 noThrow false true _ _ _ Hr) as [Hle _]. specialize (Hle 1). lia.
Defined.

(** ** What the code does not do *)

(** The address of a replicator without a port ends the loop over the alerts: that a
    torrent is finished is not noted, and its flush fails an assertion. *)
Example bad_address_loses_alerts :
  runOf [fetch kept "" 1;
         Alerts [dht_mutable_item_alert "epdbg" 3 0 (Some "1.2.3.4?port"%string); torrent_finished_alert 1];
         Flushed 1] (newSession false false) = Stop AssertFailure.
Proof. reflexivity. Qed.

(** A download that is cancelled is reported complete. *)
Example cancelled_is_complete :
  match runOf [fetch fetched "" 2; Removed (fun _ => Some 1) [2%nat] 7 true; Deleted 2] (newSession false false) with
  | Ret (out, _) => last out = Some (Notify fetched download_complete 0 "")
  | Stop _ => False
  end.
Proof. reflexivity. Qed.

(** An unfinished torrent that is removed together with a finished one stays, and is
    never reported. *)
Example unfinished_stays :
  match runOf (events2 ++ [fetch fetched "" 3; Removed (fun h => if (h =? 1)%nat then Some 5 else Some 1) [1%nat; 3%nat] 7 true;
                           Deleted 1; Alerts [torrent_finished_alert 3]; Flushed 3]) (newSession false false) with
  | Ret (out, s) => RemoveTorrent 3 delete_files ∉ out /\ RemoveTorrent 3 delete_partfile ∉ out /\ is_Some (ts_torrents s !! 3%nat)
  | Stop _ => False
  end.
Proof. vm_compute. split; [|split; [|by eexists]]; intros H; repeat (apply elem_of_cons in H as [H|H]; [done|]); by apply elem_of_nil in H. Qed.

(** Two downloads of a file whose metadata is refused fail an assertion. *)
Example refused_for_two :
  runOf [fetch kept "" 1; fetch fetched "" 1; Alerts [metadata_received_alert 1 50 8]] (newSession false false) = Stop AssertFailure.
Proof. reflexivity. Qed.

(** The torrent file of a replicator is saved in the background from data that may have
    been deleted. *)
Example saved_after_deletion :
  runOf [fetch kept "/torrents/1" 1; Alerts [torrent_finished_alert 1]; Flushed 1; Deleted 1; BackgroundRuns]
    (newSession true false) = Stop UndefinedBehaviour.
Proof. reflexivity. Qed.
