(* ===== verification/DriveFiles.v ===== *)
(** * The files of a drive on the disk

    What the tasks of a drive do to its folders, one operation of the file system after
    the other, so that the process can die between any two of them, and the start that
    finds the disk as it was left: [InitializeDriveTask::initialize], and the ends of the
    modification, stream, synchronization and cancel tasks
    ([ModifyApprovalTaskBase.h], [StreamTask.cpp], [SynchronizationTaskBase.h],
    [CancelModificationTask.cpp]).

    libtorrent is outside: it writes a file that it downloads piece by piece, under the
    name that the file will keep, and the session saves the torrent file when all of it
    is on the disk. *)

From S2P Require Import Prelude FsTree DriveTasks.
#[global] Open Scope Z_scope.

(** ** The disk *)

Inductive Contents := Partial | Complete.

#[export] Instance contents_eq_dec : EqDecision Contents.
Proof. solve_decision. Defined.

(** A file with a tree: what [FsTree::deserialize] reads from it, or nothing. *)
Inductive TreeFile := Unreadable | TreeOf (tree : Folder).

(** The folders of a drive; a file is named by its hash. *)
Record DriveDisk := mkDisk {
  m_fsTreeFile : option TreeFile;
  m_fsTreeTorrent : bool;
  m_sandboxFsTreeFile : option TreeFile;
  m_sandboxFsTreeTorrent : bool;
  m_driveFolder : gmap Z Contents;
  m_torrentFolder : gset Z }.

Definition set_fsTreeFile v d :=
  mkDisk v (m_fsTreeTorrent d) (m_sandboxFsTreeFile d) (m_sandboxFsTreeTorrent d) (m_driveFolder d) (m_torrentFolder d).
Definition set_fsTreeTorrent v d :=
  mkDisk (m_fsTreeFile d) v (m_sandboxFsTreeFile d) (m_sandboxFsTreeTorrent d) (m_driveFolder d) (m_torrentFolder d).
Definition set_sandbox file torrent d :=
  mkDisk (m_fsTreeFile d) (m_fsTreeTorrent d) file torrent (m_driveFolder d) (m_torrentFolder d).
Definition set_driveFolder v d :=
  mkDisk (m_fsTreeFile d) (m_fsTreeTorrent d) (m_sandboxFsTreeFile d) (m_sandboxFsTreeTorrent d) v (m_torrentFolder d).
Definition set_torrentFolder v d :=
  mkDisk (m_fsTreeFile d) (m_fsTreeTorrent d) (m_sandboxFsTreeFile d) (m_sandboxFsTreeTorrent d) (m_driveFolder d) v.

(** One operation of the file system. *)
Inductive FileOp :=
  | MakeEmptyFile | MakeEmptyTorrent                  (* the empty file has the hash 0 *)
  | OpenFsTree | WriteFsTree (tree : Folder)          (* the two steps of doSerialize *)
  | CreateFsTreeTorrent
  | FirstPiece (h : Z) | LastPiece (h : Z) | SaveTorrent (h : Z)
  | RemoveDriveFile (h : Z) | RemoveTorrentFile (h : Z)
  | OpenSandboxTree | WriteSandboxTree (tree : Folder) | CreateSandboxTorrent
  | RemoveSandboxTree | CopyFsTree | RemoveSandboxTorrent | CopyFsTreeTorrent
  | MoveFsTree | MoveFsTreeTorrent
  | RemoveAllSandbox.

(** [fs::copy] throws when there is nothing to copy or something in the place; so does
    [moveFile], which renames, and copies when it cannot.  A tree that is not there to
    be moved is an error. *)
Definition runOp (op : FileOp) (d : DriveDisk) : Outcome DriveDisk :=
  match op with
  | MakeEmptyFile => Ret (set_driveFolder (<[0 := Complete]> (m_driveFolder d)) d)
  | MakeEmptyTorrent => Ret (set_torrentFolder ({[0]} ∪ m_torrentFolder d) d)
  | OpenFsTree => Ret (set_fsTreeFile (Some Unreadable) d)
  | WriteFsTree tree => Ret (set_fsTreeFile (Some (TreeOf tree)) d)
  | CreateFsTreeTorrent => Ret (set_fsTreeTorrent true d)
  | FirstPiece h =>
      Ret (match m_driveFolder d !! h with
           | Some _ => d
           | None => set_driveFolder (<[h := Partial]> (m_driveFolder d)) d
           end)
  | LastPiece h => Ret (set_driveFolder (<[h := Complete]> (m_driveFolder d)) d)
  | SaveTorrent h => Ret (set_torrentFolder ({[h]} ∪ m_torrentFolder d) d)
  | RemoveDriveFile h => Ret (set_driveFolder (delete h (m_driveFolder d)) d)
  | RemoveTorrentFile h => Ret (set_torrentFolder (m_torrentFolder d ∖ {[h]}) d)
  | OpenSandboxTree => Ret (set_sandbox (Some Unreadable) (m_sandboxFsTreeTorrent d) d)
  | WriteSandboxTree tree => Ret (set_sandbox (Some (TreeOf tree)) (m_sandboxFsTreeTorrent d) d)
  | CreateSandboxTorrent => Ret (set_sandbox (m_sandboxFsTreeFile d) true d)
  | RemoveSandboxTree => Ret (set_sandbox None (m_sandboxFsTreeTorrent d) d)
  | CopyFsTree =>
      match m_fsTreeFile d, m_sandboxFsTreeFile d with
      | Some tree, None => Ret (set_sandbox (Some tree) (m_sandboxFsTreeTorrent d) d)
      | _, _ => Stop ThrownException
      end
  | RemoveSandboxTorrent => Ret (set_sandbox (m_sandboxFsTreeFile d) false d)
  | CopyFsTreeTorrent =>
      if m_fsTreeTorrent d && negb (m_sandboxFsTreeTorrent d)
      then Ret (set_sandbox (m_sandboxFsTreeFile d) true d) else Stop ThrownException
  | MoveFsTree =>
      match m_sandboxFsTreeFile d with
      | Some tree => Ret (set_sandbox None (m_sandboxFsTreeTorrent d) (set_fsTreeFile (Some tree) d))
      | None => log_err (Stop ThrownException)
      end
  | MoveFsTreeTorrent =>
      if m_sandboxFsTreeTorrent d
      then Ret (set_sandbox (m_sandboxFsTreeFile d) false (set_fsTreeTorrent true d)) else log_err (Stop ThrownException)
  | RemoveAllSandbox => Ret (set_sandbox None false d)
  end.

Fixpoint runOps (ops : list FileOp) (d : DriveDisk) : Outcome DriveDisk :=
  match ops with
  | [] => Ret d
  | op :: ops => d ← runOp op d; runOps ops d
  end.

(** ** The start of a drive *)

(** What the drive knows while the process runs.  Of a handle, whether the file is
    used, and whether it is not a torrent of the session. *)
Record DriveMemory := mkMemory {
  m_fsTree : Folder;
  m_torrentHandleMap : TorrentHandleMap;
  m_invalidHandles : gset Z;
  m_sandboxFsTree : option Folder }.

(** [addFilesToSession]. *)
Fixpoint addFilesToSession (fd : Folder) (d : DriveDisk) (m : TorrentHandleMap) : Outcome TorrentHandleMap :=
  match fd with
  | MkFolder _ cs _ _ _ _ =>
      (fix go (cs : list (string * Child)) (m : TorrentHandleMap) : Outcome TorrentHandleMap :=
         match cs with
         | [] => Ret m
         | (_, inl sub) :: cs => m ← addFilesToSession sub d m; go cs m
         | (_, inr f) :: cs =>
             let h := file_hash f in
             if h =? 0 then go cs m
             else guard_assert (bool_decide (is_Some (m_driveFolder d !! h)))
                    (guard_assert (bool_decide (h ∈ m_torrentFolder d))
                       (go cs (match m !! h with Some _ => m | None => <[h := true]> m end)))
         end) cs m
  end.

(** [m_fsTree->name() = "/"]. *)
Definition rootNamed (fd : Folder) : Folder :=
  match fd with MkFolder _ cs b i m n => MkFolder "/" cs b i m n end.

(** The operations of [initialize]; [fresh] is the tree of the new drive object. *)
Definition initializeOps (fresh : Folder) (d : DriveDisk) : list FileOp :=
  (if decide (is_Some (m_driveFolder d !! 0)) then [] else [MakeEmptyFile]) ++
  (if decide (0 ∈ m_torrentFolder d) then [] else [MakeEmptyTorrent]) ++
  match m_fsTreeFile d with None => [OpenFsTree; WriteFsTree (rootNamed fresh)] | Some _ => [] end ++
  [CreateFsTreeTorrent].

(** [initialize]; a tree that cannot be read is an error. *)
Definition initialize (fresh : Folder) (d : DriveDisk) : Outcome (DriveDisk * DriveMemory) :=
  match m_fsTreeFile d with
  | Some Unreadable => Stop AssertFailure
  | file =>
      let tree := match file with Some (TreeOf tree) => tree | _ => rootNamed fresh end in
      d ← runOps (initializeOps fresh d) d;
      handles ← addFilesToSession tree d ∅;
      Ret (d, mkMemory tree handles ∅ None)
  end.

(** ** What the tasks do *)

(** A plan is the operations of the file system, in their order, and what the drive
    knows after them. *)
Abbreviation Plan := (Outcome (list FileOp * DriveMemory)).

(** A download of [session->download] into the folders of the drive. *)
Definition downloadOps (h : Z) : list FileOp := [FirstPiece h; LastPiece h; SaveTorrent h].

Definition set_handles (handles : TorrentHandleMap) (invalid : gset Z) (m : DriveMemory) : DriveMemory :=
  mkMemory (m_fsTree m) handles invalid (m_sandboxFsTree m).
Definition set_sandboxFsTree (tree : option Folder) (m : DriveMemory) : DriveMemory :=
  mkMemory (m_fsTree m) (m_torrentHandleMap m) (m_invalidHandles m) tree.

(** [downloadMissingFiles] of [ModifyDriveTask]: one file. *)
Definition downloadFile (h : Z) (m : DriveMemory) : Plan :=
  Ret (downloadOps h, set_handles (<[h := false]> (m_torrentHandleMap m)) (m_invalidHandles m ∖ {[h]}) m).

(** A download that ends early, before the first piece of the file ([n] is 0) or after it:
    it has failed, and the handle is erased, or the task was broken, and the handle stays.
    Either way the torrent is removed with its file. *)
Definition downloadEnds (h : Z) (n : nat) (failed : bool) (m : DriveMemory) : Plan :=
  Ret (take n [FirstPiece h] ++ [RemoveDriveFile h],
       if failed then set_handles (delete h (m_torrentHandleMap m)) (m_invalidHandles m ∖ {[h]}) m
       else set_handles (<[h := false]> (m_torrentHandleMap m)) ({[h]} ∪ m_invalidHandles m) m).

(** The files whose sizes [getSandboxDriveSizes] takes; [fs::file_size] throws. *)
Definition sizesFound (tree : Folder) (d : DriveDisk) : bool :=
  bool_decide (set_Forall (fun h => is_Some (m_driveFolder d !! h) /\ h ∈ m_torrentFolder d) (getUniqueFiles tree ∅)).

(** The end of [modifyFsTreeInSandbox]: the new tree is written, and measured. *)
Definition prepareTree (tree : Folder) (m : DriveMemory) (d : DriveDisk) : Plan :=
  if sizesFound tree d
  then Ret ([OpenSandboxTree; WriteSandboxTree tree; CreateSandboxTorrent], set_sandboxFsTree (Some tree) m)
  else Stop ThrownException.

(** [modifyIsCompletedWithError]: the new tree is the old one. *)
Definition keepTree (m : DriveMemory) : Plan :=
  Ret ([RemoveSandboxTree; CopyFsTree; RemoveSandboxTorrent; CopyFsTreeTorrent],
       set_sandboxFsTree (Some (m_fsTree m)) m).

(** The loop that removes the files that are not used. *)
Definition removals (unused : gset Z) : list FileOp :=
  flat_map (fun h => [RemoveDriveFile h; RemoveTorrentFile h]) (elements unused).

(** [startSynchronizingDriveWithSandbox], [continueSynchronizingDriveWithSandbox] and
    [modifyIsCompleted]. *)
Definition synchronizeDrive (m : DriveMemory) : Plan :=
  match m_sandboxFsTree m with
  | None => Stop UndefinedBehaviour
  | Some tree =>
      '(unused, handles) ← createUnusedFileList tree (m_torrentHandleMap m);
      Ret ([MoveFsTree; MoveFsTreeTorrent] ++ removals unused,
           mkMemory tree handles (m_invalidHandles m ∖ unused) None)
  end.

(** [onCumulativeUploadsDisapproved] and [clearDrive]. *)
Definition clearDrive (m : DriveMemory) : Plan :=
  '(unused, handles) ← createUnusedFileList (m_fsTree m) (m_torrentHandleMap m);
  Ret (removals unused, set_handles handles (m_invalidHandles m ∖ unused) m).

(** [finishTask]: the sandbox is cleared, and the task is gone. *)
Definition finishTask (m : DriveMemory) : Plan := Ret ([RemoveAllSandbox], set_sandboxFsTree None m).

(** A synchronization with a tree that has been downloaded: the files that the tree
    does not use are removed, those that are not there are downloaded, and the drive is
    updated. *)
Definition synchronizeWith (tree : Folder) (m : DriveMemory) (d : DriveDisk) : Plan :=
  '(filesToRemove, handles) ← createUnusedFileList tree (m_torrentHandleMap m);
  d1 ← runOps (removals filesToRemove) d;
  missing ← createCatchingUpFileList tree (dom (m_driveFolder d1)) ∅;
  let downloads := flat_map downloadOps (elements missing) in
  d2 ← runOps downloads d1;
  if sizesFound tree d2
  then
    let handles := foldl (fun m h => <[h := false]> m) handles (elements missing) in
    '(unused, handles) ← createUnusedFileList tree handles;
    Ret ([OpenSandboxTree; WriteSandboxTree tree; CreateSandboxTorrent] ++ removals filesToRemove ++ downloads ++
         [MoveFsTree; MoveFsTreeTorrent] ++ removals unused,
         mkMemory tree handles ((m_invalidHandles m ∖ filesToRemove ∖ missing) ∖ unused) None)
  else Stop ThrownException.

(** ** Histories *)

Inductive Activity :=
  | DownloadFile (h : Z)
  | DownloadEnds (h : Z) (n : nat) (failed : bool)
  | PrepareTree (tree : Folder)
  | KeepTree
  | SynchronizeDrive
  | ClearDrive
  | FinishTask
  | SynchronizeWith (tree : Folder).

Definition plan (a : Activity) (m : DriveMemory) (d : DriveDisk) : Plan :=
  match a with
  | DownloadFile h => downloadFile h m
  | DownloadEnds h n failed => downloadEnds h n failed m
  | PrepareTree tree => prepareTree tree m d
  | KeepTree => keepTree m
  | SynchronizeDrive => synchronizeDrive m
  | ClearDrive => clearDrive m
  | FinishTask => finishTask m
  | SynchronizeWith tree => synchronizeWith tree m d
  end.

(** The handles that are torrents of the session. *)
Definition validHandles (m : DriveMemory) : gset Z := dom (m_torrentHandleMap m) ∖ m_invalidHandles m.

(** What the tasks start: a file is downloaded when it has no valid handle (a modification
    even asserts that it has none at all), the files of a new tree are those of the old one
    and those that were downloaded, and a drive is updated when there is a new tree. *)
Definition starts (a : Activity) (m : DriveMemory) : bool :=
  match a with
  | DownloadFile h | DownloadEnds h _ _ => bool_decide (h <> 0 /\ h ∉ validHandles m /\ m_sandboxFsTree m = None)
  | PrepareTree tree => bool_decide (getUniqueFiles tree ∅ ⊆ {[0]} ∪ validHandles m)
  | SynchronizeDrive => bool_decide (is_Some (m_sandboxFsTree m))
  | ClearDrive | SynchronizeWith _ => bool_decide (m_sandboxFsTree m = None)
  | KeepTree | FinishTask => true
  end.

Inductive DriveEvent :=
  | Do (a : Activity)
  | DieIn (a : Activity) (n : nat)      (* the process dies after n operations of it *)
  | Start
  | DieInStart (n : nat).

Inductive Process := Running (m : DriveMemory) (d : DriveDisk) | Dead (d : DriveDisk).

Definition driveStep (fresh : Folder) (e : DriveEvent) (p : Process) : Outcome Process :=
  match e, p with
  | Do a, Running m d =>
      if starts a m then '(ops, m) ← plan a m d; d ← runOps ops d; Ret (Running m d) else Ret p
  | DieIn a n, Running m d =>
      if starts a m then '(ops, _) ← plan a m d; d ← runOps (take n ops) d; Ret (Dead d) else Ret p
  | Start, Dead d => '(d, m) ← initialize fresh d; Ret (Running m d)
  | DieInStart n, Dead d => d ← runOps (take n (initializeOps fresh d)) d; Ret (Dead d)
  | _, _ => Ret p
  end.

Fixpoint driveRun (fresh : Folder) (events : list DriveEvent) (p : Process) : Outcome Process :=
  match events with
  | [] => Ret p
  | e :: events => p ← driveStep fresh e p; driveRun fresh events p
  end.
