(* ===== verification/DriveFilesSpec.v ===== *)
(** * Properties of the files of a drive *)

From S2P Require Import Prelude FsTree FsTreeFacts FsTreeSpec FlatDrive DriveTasks DriveTasksSpec DriveFiles.
#[global] Open Scope Z_scope.

(** ** Sequences of operations *)

Lemma runOps_app a b d : runOps (a ++ b) d = runOps a d ≫= runOps b.
Proof. revert d. induction a as [|op a IH]; intros d; cbn; [done|]. destruct (runOp op d); cbn; [apply IH|done]. Qed.

(** A tree with its files: what a start needs. *)
Definition present (d : DriveDisk) (h : Z) : Prop := m_driveFolder d !! h = Some Complete /\ h ∈ m_torrentFolder d.
Definition Stored (tree : Folder) (d : DriveDisk) : Prop :=
  m_fsTreeFile d = Some (TreeOf tree) /\ forall h, h ∈ hashes tree -> h <> 0 -> present d h.

(** An operation that leaves the tree and these files alone, and one that cannot throw. *)
Definition harmless (kept : gset Z) (op : FileOp) : Prop :=
  match op with
  | RemoveDriveFile h | RemoveTorrentFile h => h ∉ kept
  | OpenFsTree | WriteFsTree _ | MoveFsTree => False
  | _ => True
  end.
Definition total (op : FileOp) : Prop :=
  match op with CopyFsTree | CopyFsTreeTorrent | MoveFsTree | MoveFsTreeTorrent => False | _ => True end.

(** A file with its torrent file, whatever there is of the file. *)
Definition there (d : DriveDisk) (h : Z) : Prop := is_Some (m_driveFolder d !! h) /\ h ∈ m_torrentFolder d.

Lemma runOp_file (P : Contents -> Prop) kept op d d' h c :
  P Complete -> harmless kept op -> runOp op d = Ret d' -> h ∈ kept -> m_driveFolder d !! h = Some c -> P c ->
  exists c', m_driveFolder d' !! h = Some c' /\ P c'.
Proof.
  intros HP Hop E Hh Hd Hc. destruct op; cbn in Hop, E; try done.
  all: repeat case_match; try discriminate; injection E as <-; cbn; try (by eauto).
  - destruct (decide (h = 0)) as [->|]; rewrite ?lookup_insert_eq, ?lookup_insert_ne by done; eauto.
  - rewrite lookup_insert_ne by (intros ->; congruence). eauto.
  - destruct (decide (h = h0)) as [->|]; rewrite ?lookup_insert_eq, ?lookup_insert_ne by done; eauto.
  - rewrite lookup_delete_ne by (intros ->; done). eauto.
Qed.

Lemma runOp_torrent kept op d d' h :
  harmless kept op -> runOp op d = Ret d' -> h ∈ kept -> h ∈ m_torrentFolder d -> h ∈ m_torrentFolder d'.
Proof.
  intros Hop E Hh Ht. destruct op; cbn in Hop, E; try done.
  all: repeat case_match; try discriminate; injection E as <-; cbn; set_solver.
Qed.

Lemma runOp_present kept op d d' h :
  harmless kept op -> runOp op d = Ret d' -> h ∈ kept -> present d h -> present d' h.
Proof.
  intros Hop E Hh [Hd Ht]. split; [|by eapply runOp_torrent].
  by destruct (runOp_file (eq Complete) kept op d d' h Complete) as (c & Hc & <-).
Qed.

Lemma runOp_there kept op d d' h :
  harmless kept op -> runOp op d = Ret d' -> h ∈ kept -> there d h -> there d' h.
Proof.
  intros Hop E Hh [[c Hd] Ht]. split; [|by eapply runOp_torrent].
  destruct (runOp_file (fun _ => True) kept op d d' h c) as (c' & Hc & _); [done..|by exists c'].
Qed.

Lemma runOp_tree kept op d d' : harmless kept op -> runOp op d = Ret d' -> m_fsTreeFile d' = m_fsTreeFile d.
Proof.
  intros Hop E. destruct op; cbn in Hop, E; try done; repeat case_match; try discriminate; by injection E as <-.
Qed.

Lemma runOp_treeTorrent kept op d d' :
  harmless kept op -> runOp op d = Ret d' -> m_fsTreeTorrent d = true -> m_fsTreeTorrent d' = true.
Proof.
  intros Hop E. destruct op; cbn in Hop, E; try done; repeat case_match; try discriminate; by injection E as <-.
Qed.

(** What every harmless operation keeps, a sequence of them keeps. *)
Lemma runOps_keeps (P : DriveDisk -> Prop) kept :
  (forall op d d', harmless kept op -> runOp op d = Ret d' -> P d -> P d') ->
  forall ops d d', Forall (harmless kept) ops -> runOps ops d = Ret d' -> P d -> P d'.
Proof.
  intros HP ops d d' Hops. revert d. induction Hops as [|op ops Hop _ IH]; intros d E Hd; cbn in E; [by injection E as <-|].
  apply bind_ret_inv in E as (d1 & E1 & E). eauto.
Qed.

Lemma runOps_stored tree kept ops d d' :
  Forall (harmless kept) ops -> hashes tree ⊆ {[0]} ∪ kept -> runOps ops d = Ret d' -> Stored tree d -> Stored tree d'.
Proof.
  intros Hops Hk. apply (runOps_keeps (Stored tree) kept); [|done].
  intros op d0 d0' Hop E [Ht Hf]. split; [by rewrite (runOp_tree _ _ _ _ Hop E)|].
  intros h Hh Hz. eapply runOp_present; eauto. set_solver.
Qed.

Lemma runOps_total ops d : Forall total ops -> exists d', runOps ops d = Ret d'.
Proof.
  intros Hops. revert d. induction Hops as [|op ops Hop _ IH]; intros d; cbn; [eauto|].
  destruct op; cbn in Hop |- *; try done; apply IH.
Qed.

Lemma In_take {A} (x : A) n l : In x (take n l) -> In x l.
Proof. intros H. rewrite <- (take_drop n l). apply in_or_app. by left. Qed.

Lemma Forall_take {A} (P : A -> Prop) n l : Forall P l -> Forall P (take n l).
Proof. rewrite !Forall_forall. intros H x Hx. apply H. apply list_elem_of_In in Hx. apply list_elem_of_In. by eapply In_take. Qed.

(** The removals touch nothing but the files they remove. *)
Lemma removals_harmless unused kept : unused ## kept -> Forall (harmless kept) (removals unused).
Proof.
  intros Hd. apply Forall_flat_map, Forall_forall. intros h Hh%elem_of_elements.
  constructor; [|constructor; [|constructor]]; cbn; set_solver.
Qed.

Lemma removals_total unused : Forall total (removals unused).
Proof. apply Forall_flat_map, Forall_forall. intros h _. repeat constructor. Qed.

(** ** The start *)

Lemma addFiles_ok tree d m :
  (forall h, h ∈ hashes tree -> h <> 0 -> present d h) ->
  exists m', addFilesToSession tree d m = Ret m' /\ dom m' = dom m ∪ (hashes tree ∖ {[0]}).
Proof.
  revert m. induction tree as [n cs b i mi st Hcs] using Folder_nested_ind.
  cbn [addFilesToSession].
  induction Hcs as [|[k c] cs Hc _ IH]; intros m Hp.
  - exists m. split; [done|]. unfold hashes. cbn. set_solver.
  - rewrite hashes_cons in Hp |- *. destruct c as [sub|f]; cbn in Hc.
    + destruct (Hc m) as (m1 & -> & Hm1); [set_solver|]. cbn. destruct (IH m1) as (m2 & -> & Hm2); [set_solver|].
      eexists. split; [done|]. rewrite Hm2, Hm1. set_solver.
    + destruct (Z.eqb_spec (file_hash f) 0) as [E|E].
      * destruct (IH m) as (m2 & -> & Hm2); [set_solver|]. eexists. split; [done|]. rewrite Hm2, E. set_solver.
      * destruct (Hp (file_hash f)) as [Hd Ht]; [set_solver|done|].
        rewrite (bool_decide_true (is_Some _)), (bool_decide_true (_ ∈ _)) by eauto. cbn.
        destruct (IH (match m !! file_hash f with Some _ => m | None => <[file_hash f := true]> m end))
          as (m2 & -> & Hm2); [set_solver|]. eexists. split; [done|]. rewrite Hm2.
        destruct (m !! file_hash f) eqn:Em.
        -- assert (file_hash f ∈ dom m) by (by apply elem_of_dom). set_solver.
        -- rewrite dom_insert_L. set_solver.
Qed.


(** A file of the tree that is missing stops the start. *)
Lemma addFiles_faults tree d m : (exists m', addFilesToSession tree d m = Ret m') \/ addFilesToSession tree d m = Stop AssertFailure.
Proof.
  revert m. induction tree as [n cs b i mi st Hcs] using Folder_nested_ind. cbn [addFilesToSession].
  induction Hcs as [|[k c] cs Hc _ IH]; intros m; [by left; exists m|]. destruct c as [sub|f]; cbn in Hc.
  - destruct (Hc m) as [[m' ->] | ->]; cbn; [apply IH|by right].
  - destruct (file_hash f =? 0); [apply IH|]. do 2 (case_bool_decide; cbn; [|by right]). apply IH.
Qed.

Lemma addFiles_missing tree d m h :
  h ∈ hashes tree -> h <> 0 -> m_driveFolder d !! h = None -> addFilesToSession tree d m = Stop AssertFailure.
Proof.
  intros Hh Hz Hd. revert m Hh. induction tree as [n cs b i mi st Hcs] using Folder_nested_ind.
  cbn [addFilesToSession].
  induction Hcs as [|[k c] cs Hc _ IH]; intros m Hh; [unfold hashes in Hh; cbn in Hh; set_solver|].
  rewrite hashes_cons in Hh. destruct c as [sub|f]; cbn in Hc.
  - destruct (decide (h ∈ hashes sub)); [by rewrite Hc|].
    destruct (addFiles_faults sub d m) as [[m' ->] | ->]; cbn; [apply IH; set_solver|done].
  - destruct (decide (h = file_hash f)) as [->|].
    + destruct (Z.eqb_spec (file_hash f) 0); [done|]. rewrite bool_decide_false; [done|]. rewrite Hd. by intros [? [=]].
    + destruct (file_hash f =? 0); [apply IH; set_solver|].
      do 2 (case_bool_decide; cbn; [|done]). apply IH. set_solver.
Qed.

(** ** The state of a drive that runs *)

(** The tree on the disk is the one in memory; every file of it has a torrent of the
    session, every such torrent its file; a new tree has its files too. *)
Record Good (m : DriveMemory) (d : DriveDisk) : Prop := mkGood {
  good_tree : m_fsTreeFile d = Some (TreeOf (m_fsTree m));
  good_torrent : m_fsTreeTorrent d = true;
  good_handles : m_torrentHandleMap m !! 0 = None;
  good_empty : there d 0;
  good_used : hashes (m_fsTree m) ⊆ {[0]} ∪ validHandles m;
  good_valid : forall h, h ∈ validHandles m -> present d h;
  good_sandbox : forall tree, m_sandboxFsTree m = Some tree ->
    m_sandboxFsTreeFile d = Some (TreeOf tree) /\ m_sandboxFsTreeTorrent d = true /\
    hashes tree ⊆ {[0]} ∪ validHandles m }.

Lemma good_stored m d : Good m d -> Stored (m_fsTree m) d.
Proof. intros G. split; [apply G|]. intros h Hh Hz. apply G. pose proof (good_used _ _ G). set_solver. Qed.

Lemma initializeOps_ok kept fresh d tree :
  m_fsTreeFile d = Some (TreeOf tree) ->
  Forall (harmless kept) (initializeOps fresh d) /\ Forall total (initializeOps fresh d).
Proof.
  intros Ht. unfold initializeOps. rewrite Ht. repeat case_decide; cbn; split; repeat constructor.
Qed.

(** A start from a disk with the tree and its files. *)
Lemma initialize_good fresh tree d :
  Stored tree d -> exists d' m, initialize fresh d = Ret (d', m) /\ m_fsTree m = tree /\ Good m d'.
Proof.
  intros Hs. pose proof (proj1 Hs) as Ht. destruct (initializeOps_ok (hashes tree) fresh d tree Ht) as [Hh Hto].
  unfold initialize. rewrite Ht. destruct (runOps_total _ d Hto) as [d' Ed]. rewrite Ed. cbn [mbind outcome_bind].
  assert (Stored tree d') as Hs' by (eapply runOps_stored; [exact Hh|set_solver|exact Ed|done]).
  destruct (addFiles_ok tree d' ∅ (proj2 Hs')) as (handles & -> & Hd). cbn.
  do 2 eexists. split_and!; [done..|]. rewrite dom_empty_L in Hd. assert (0 ∉ dom handles) as Hz by set_solver.
  assert (m_fsTreeTorrent d' = true /\ there d' 0) as (H1 & H2).
  { unfold there, initializeOps in *. rewrite Ht in Ed. repeat case_decide; cbn in Ed; injection Ed as <-; cbn;
      rewrite ?lookup_insert_eq; split_and!; try done; try set_solver; by eexists. }
  split; cbn; try done.
  - apply Hs'.
  - by apply not_elem_of_dom.
  - unfold validHandles. cbn. rewrite Hd. intros h Hh'. destruct (decide (h = 0)); set_solver.
  - unfold validHandles. cbn. intros h Hh'. apply Hs'; set_solver.
Qed.

(** ** What the tasks do *)

Lemma unique_hashes tree : getUniqueFiles tree ∅ = hashes tree.
Proof. rewrite getUniqueFiles_spec. apply union_empty_r_L. Qed.

(** Operations that leave the torrents of the session alone, and a new set of handles. *)
Lemma good_change m m' ops d :
  Good m d -> Forall (harmless ({[0]} ∪ (validHandles m ∩ validHandles m'))) ops -> Forall total ops ->
  m_fsTree m' = m_fsTree m -> m_sandboxFsTree m' = None -> m_torrentHandleMap m' !! 0 = None ->
  hashes (m_fsTree m) ∖ {[0]} ⊆ validHandles m' ->
  (forall d' h, runOps ops d = Ret d' -> h ∈ validHandles m' -> h ∉ validHandles m -> present d' h) ->
  exists d', runOps ops d = Ret d' /\ Good m' d'.
Proof.
  intros G Hh Hto Et Es Ez Hu Hnew. destruct (runOps_total ops d Hto) as [d' E]. exists d'. split; [done|].
  pose proof (runOps_keeps _ _ (fun op d d' Hop E H => eq_trans (runOp_tree _ op d d' Hop E) H) _ _ _ Hh E (good_tree _ _ G)).
  split; rewrite ?Et, ?Es; try done.
  - eapply (runOps_keeps (fun d => m_fsTreeTorrent d = true)); [|exact Hh|exact E|apply G]. intros. by eapply runOp_treeTorrent.
  - eapply (runOps_keeps (fun d => there d 0)); [|exact Hh|exact E|apply G]. intros. eapply runOp_there; eauto. set_solver.
  - intros h Hi. destruct (decide (h = 0)); set_solver.
  - intros h Hi. destruct (decide (h ∈ validHandles m)); [|by apply Hnew].
    eapply (runOps_keeps (fun d => present d h)); [|exact Hh|exact E|by apply G].
    intros. eapply runOp_present; eauto. set_solver.
Qed.

Lemma downloadFile_good h m d :
  Good m d -> h <> 0 -> m_sandboxFsTree m = None ->
  exists ops m' d', downloadFile h m = Ret (ops, m') /\ runOps ops d = Ret d' /\ Good m' d' /\
    m_fsTree m' = m_fsTree m /\ m_sandboxFsTree m' = None.
Proof.
  intros G H0 Hn. pose proof (good_used _ _ G). do 2 eexists.
  edestruct (good_change m (set_handles (<[h := false]> (m_torrentHandleMap m)) (m_invalidHandles m ∖ {[h]}) m)
    (downloadOps h) d G) as (d' & E & G'); [..|exists d'; split_and!; [done|exact E|exact G'|done..]].
  all: cbn; try done.
  - repeat constructor.
  - repeat constructor.
  - rewrite lookup_insert_ne by done. apply G.
  - unfold validHandles in *. cbn. rewrite dom_insert_L. intros x Hx. destruct (decide (x = h)); set_solver.
  - unfold validHandles. cbn. intros d' x E Hx Hx'. assert (x = h) as ->.
    { rewrite dom_insert_L in Hx. clear - Hx Hx'. destruct (decide (x = h)); set_solver. }
    injection E as E. subst d'. unfold present. cbn. rewrite lookup_insert_eq. split; [done|set_solver].
Qed.

Lemma downloadEnds_good h n failed m d :
  Good m d -> h <> 0 -> h ∉ validHandles m -> m_sandboxFsTree m = None ->
  exists ops m' d', downloadEnds h n failed m = Ret (ops, m') /\ runOps ops d = Ret d' /\ Good m' d' /\
    m_fsTree m' = m_fsTree m /\ m_sandboxFsTree m' = None.
Proof.
  intros G H0 Hh Hn. pose proof (good_used _ _ G). do 2 eexists.
  edestruct (good_change m (if failed then set_handles (delete h (m_torrentHandleMap m)) (m_invalidHandles m ∖ {[h]}) m
       else set_handles (<[h := false]> (m_torrentHandleMap m)) ({[h]} ∪ m_invalidHandles m) m)
     (take n [FirstPiece h] ++ [RemoveDriveFile h]) d G) as (d' & E & G');
    [..|exists d'; split_and!; [done|exact E|exact G'|by destruct failed..]].
  - apply Forall_app. split; [apply Forall_take|]; repeat constructor. cbn. set_solver.
  - apply Forall_app. split; [apply Forall_take|]; repeat constructor.
  - by destruct failed.
  - by destruct failed.
  - destruct failed; cbn; [rewrite lookup_delete_ne by done|rewrite lookup_insert_ne by done]; apply G.
  - unfold validHandles in *. destruct failed; cbn; [rewrite dom_delete_L|rewrite dom_insert_L];
      intros x Hx; destruct (decide (x = h)); set_solver.
  - unfold validHandles. intros d' x _. destruct failed; cbn; [rewrite dom_delete_L|rewrite dom_insert_L]; set_solver.
Qed.

(** The end of an update and of a cancellation: what the tree does not use goes. *)
Lemma unused_good m d :
  Good m d -> m_sandboxFsTree m = None ->
  exists unused handles d', createUnusedFileList (m_fsTree m) (m_torrentHandleMap m) = Ret (unused, handles) /\
    unused ## hashes (m_fsTree m) /\ runOps (removals unused) d = Ret d' /\
    Good (set_handles handles (m_invalidHandles m ∖ unused) m) d'.
Proof.
  intros G Hn. pose proof (good_used _ _ G) as Hu. unfold validHandles in Hu.
  destruct (createUnused_ok (m_fsTree m) (m_torrentHandleMap m)) as (unused & handles & E); [apply G|].
  pose proof (createUnused_inv _ _ _ _ E) as (Hun & Hd & Hz).
  edestruct (good_change m (set_handles handles (m_invalidHandles m ∖ unused) m) (removals unused) d G) as (d' & Er & G');
    [..|exists unused, handles, d'; split_and!; [exact E|set_solver|exact Er|exact G']]; unfold validHandles; cbn.
  - apply removals_harmless. intros h Hh Hk. subst unused. apply not_elem_of_dom in Hz.
    rewrite Hd in Hk. set_solver.
  - apply removals_total.
  - done.
  - done.
  - apply not_elem_of_dom. rewrite Hd. apply not_elem_of_dom in Hz. set_solver.
  - rewrite Hd. intros h Hh. specialize (Hu h). subst unused. set_solver.
  - rewrite Hd. intros d0 h _ Hh Hh'. subst unused. set_solver.
Qed.

Lemma clearDrive_good m d :
  Good m d -> m_sandboxFsTree m = None ->
  exists ops m' d', clearDrive m = Ret (ops, m') /\ runOps ops d = Ret d' /\ Good m' d' /\
    m_fsTree m' = m_fsTree m /\ m_sandboxFsTree m' = None.
Proof.
  intros G Hn. destruct (unused_good m d G Hn) as (unused & handles & d' & E & _ & Er & G').
  unfold clearDrive. rewrite E. cbn. by do 3 eexists.
Qed.

(** The tree is moved to its place. *)
Definition moved (tree : Folder) (m : DriveMemory) : DriveMemory :=
  mkMemory tree (m_torrentHandleMap m) (m_invalidHandles m) None.

Lemma move_good tree m d :
  Good m d -> m_sandboxFsTree m = Some tree ->
  exists d1 d2, runOp MoveFsTree d = Ret d1 /\ runOp MoveFsTreeTorrent d1 = Ret d2 /\
    Stored tree d1 /\ Good (moved tree m) d2.
Proof.
  intros G Hn. destruct (good_sandbox _ _ G tree Hn) as (Hf & Ht & Hu). cbn [runOp]. rewrite Hf. cbn. rewrite Ht.
  do 2 eexists. split_and!; [done..| |].
  - split; [done|]. intros h Hh Hz. apply (good_valid _ _ G). set_solver.
  - split; cbn; try done; apply G.
Qed.

Lemma synchronizeDrive_good tree m d :
  Good m d -> m_sandboxFsTree m = Some tree ->
  exists ops m' d', synchronizeDrive m = Ret (ops, m') /\ runOps ops d = Ret d' /\ Good m' d' /\
    m_fsTree m' = tree /\ m_sandboxFsTree m' = None.
Proof.
  intros G Hn. destruct (move_good tree m d G Hn) as (d1 & d2 & E1 & E2 & _ & G2).
  destruct (unused_good (moved tree m) d2 G2 eq_refl) as (unused & handles & d' & E & _ & Er & G').
  unfold synchronizeDrive. rewrite Hn. cbn [moved m_fsTree m_torrentHandleMap] in E. rewrite E. cbn -[removals runOp].
  do 3 eexists. split; [done|]. cbn -[removals runOp]. rewrite E1. cbn -[removals runOp]. by rewrite E2.
Qed.

(** The sandbox changes, and nothing else. *)
Lemma sandbox_good m d tree file torrent :
  Good m d ->
  (forall t, tree = Some t -> file = Some (TreeOf t) /\ torrent = true /\ hashes t ⊆ {[0]} ∪ validHandles m) ->
  Good (set_sandboxFsTree tree m) (set_sandbox file torrent d).
Proof. intros G Hs. split; cbn; try apply G. done. Qed.

Lemma prepareTree_good tree m d :
  Good m d -> hashes tree ⊆ {[0]} ∪ validHandles m ->
  exists ops m' d', prepareTree tree m d = Ret (ops, m') /\ runOps ops d = Ret d' /\ Good m' d' /\
    m_fsTree m' = m_fsTree m /\ m_sandboxFsTree m' = Some tree.
Proof.
  intros G Hu. unfold prepareTree, sizesFound. rewrite unique_hashes, bool_decide_true.
  - do 3 eexists. split; [done|]. split; [reflexivity|]. split; [|done].
    apply (sandbox_good m d (Some tree) (Some (TreeOf tree)) true G). by intros t [= ->].
  - intros h Hh. destruct (decide (h = 0)) as [->|Hz]; [apply G|].
    assert (h ∈ validHandles m) as [Hd Ht]%(good_valid _ _ G) by set_solver. split; [by exists Complete|done].
Qed.

Lemma keepTree_good m d :
  Good m d ->
  exists ops m' d', keepTree m = Ret (ops, m') /\ runOps ops d = Ret d' /\ Good m' d' /\
    m_fsTree m' = m_fsTree m /\ m_sandboxFsTree m' = Some (m_fsTree m).
Proof.
  intros G. do 3 eexists. split; [done|]. split; [|split; [|done]].
  - cbn. rewrite (good_tree _ _ G). cbn. rewrite (good_torrent _ _ G). reflexivity.
  - apply (sandbox_good m d (Some (m_fsTree m)) (Some (TreeOf (m_fsTree m))) true G). intros t [= <-].
    split_and!; [done..|apply G].
Qed.

Definition synchronizes (a : Activity) : bool := match a with SynchronizeWith _ => true | _ => false end.

(** The tree that an activity makes the new one. *)
Definition newTree (a : Activity) (m : DriveMemory) : option Folder :=
  match a with PrepareTree tree => Some tree | KeepTree => Some (m_fsTree m) | _ => None end.
Definition treeAfter (a : Activity) (m : DriveMemory) : Folder :=
  match a, m_sandboxFsTree m with SynchronizeDrive, Some tree => tree | _, _ => m_fsTree m end.

Lemma do_good a m d :
  Good m d -> starts a m = true -> synchronizes a = false ->
  exists ops m' d', plan a m d = Ret (ops, m') /\ runOps ops d = Ret d' /\ Good m' d' /\
    m_fsTree m' = treeAfter a m /\ m_sandboxFsTree m' = newTree a m.
Proof.
  intros G Hst Hns. unfold treeAfter. destruct a; cbn in Hst, Hns |- *; try discriminate.
  - apply bool_decide_eq_true in Hst as (? & ? & ?). by apply downloadFile_good.
  - apply bool_decide_eq_true in Hst as (? & ? & ?). by apply downloadEnds_good.
  - apply bool_decide_eq_true in Hst. rewrite unique_hashes in Hst. by apply prepareTree_good.
  - by apply keepTree_good.
  - apply bool_decide_eq_true in Hst as [tree Hn]. rewrite Hn. by apply synchronizeDrive_good.
  - apply bool_decide_eq_true in Hst. by apply clearDrive_good.
  - do 3 eexists. split; [done|]. split; [reflexivity|]. split; [|done].
    by apply (sandbox_good m d None None false G).
Qed.

(** ** A process that dies *)

Lemma take_harmless kept ops n d d' tree :
  Forall (harmless kept) ops -> hashes tree ⊆ {[0]} ∪ kept -> Stored tree d ->
  runOps (take n ops) d = Ret d' -> Stored tree d'.
Proof. intros Hh Hk Hs E. eapply (runOps_stored tree kept (take n ops)); [by apply Forall_take|done..]. Qed.

(** What ends well can be cut anywhere. *)
Lemma runOps_take n ops d d' : runOps ops d = Ret d' -> exists d1, runOps (take n ops) d = Ret d1.
Proof. rewrite <- (take_drop n ops) at 1. rewrite runOps_app. intros (d1 & E & _)%bind_ret_inv. by exists d1. Qed.

(** What a drive has on the disk when the process dies in an activity: the tree with
    its files; and in an update, the new tree as soon as the first operation is done. *)
Definition treeLeft (a : Activity) (n : nat) (m : DriveMemory) : Folder :=
  match n with O => m_fsTree m | S _ => treeAfter a m end.

Lemma harmless_die a n m d ops m' d' :
  Good m d -> plan a m d = Ret (ops, m') -> runOps ops d = Ret d' ->
  Forall (harmless (hashes (m_fsTree m) ∖ {[0]})) ops -> treeAfter a m = m_fsTree m ->
  exists ops m' d', plan a m d = Ret (ops, m') /\ runOps (take n ops) d = Ret d' /\ Stored (treeLeft a n m) d'.
Proof.
  intros G Ep Er Hh Ha. destruct (runOps_take n ops d d' Er) as [d1 E]. exists ops, m', d1. split_and!; [done..|].
  assert (treeLeft a n m = m_fsTree m) as -> by (by destruct n).
  eapply take_harmless; [exact Hh| |by apply good_stored|exact E].
  intros x Hx. destruct (decide (x = 0)); set_solver.
Qed.

Lemma die_left a n m d :
  Good m d -> starts a m = true -> synchronizes a = false ->
  exists ops m' d', plan a m d = Ret (ops, m') /\ runOps (take n ops) d = Ret d' /\ Stored (treeLeft a n m) d'.
Proof.
  intros G Hst Hns. pose proof (good_used _ _ G) as Hu.
  destruct (do_good a m d G Hst Hns) as (ops & m' & d' & Ep & Er & _ & Ht & _).
  destruct a; cbn in Hst, Hns; try discriminate.
  5: { apply bool_decide_eq_true in Hst as [tree Hn]. clear Ep Er.
    destruct (move_good tree m d G Hn) as (d1 & d2 & E1 & E2 & Hs1 & G2).
    destruct (unused_good (moved tree m) d2 G2 eq_refl) as (unused & handles & d3 & E & Hdis & Er & _).
    cbn [moved m_fsTree m_torrentHandleMap] in E, Hdis. cbn [plan]. unfold synchronizeDrive. rewrite Hn, E. cbn -[removals runOp].
    destruct n as [|[|n]]; [| |destruct (runOps_take n _ _ _ Er) as [d4 E4]]; do 3 eexists; (split; [done|]); cbn -[removals runOp].
    - split; [done|by apply good_stored].
    - rewrite E1. cbn. split; [done|]. unfold treeAfter. by rewrite Hn.
    - rewrite E1. cbn -[removals runOp]. rewrite E2. cbn -[removals runOp].
      rewrite E4. split; [done|].
      unfold treeAfter. rewrite Hn. eapply take_harmless; [by apply removals_harmless|set_solver|apply (good_stored _ _ G2)|exact E4]. }
  all: eapply harmless_die; [done..|try done|done]; cbn in Ep.
  - injection Ep as <- <-. repeat constructor.
  - injection Ep as <- <-. apply bool_decide_eq_true in Hst as (? & ? & ?).
    apply Forall_app. split; [apply Forall_take|]; repeat constructor. cbn. set_solver.
  - unfold prepareTree in Ep. destruct (sizesFound tree d); [|discriminate]. injection Ep as <- <-. repeat constructor.
  - injection Ep as <- <-. repeat constructor.
  - apply bool_decide_eq_true in Hst. destruct (unused_good m d G Hst) as (unused & handles & d3 & E & Hdis & _).
    unfold clearDrive in Ep. rewrite E in Ep. injection Ep as <- <-. apply removals_harmless. set_solver.
  - injection Ep as <- <-. repeat constructor.
Qed.

(** ** Histories *)

(** The trees that were prepared. *)
Definition prepared (events : list DriveEvent) : list Folder :=
  flat_map (fun e => match e with Do (PrepareTree tree) => [tree] | _ => [] end) events.

Definition asynchronous (e : DriveEvent) : bool :=
  match e with Do a | DieIn a _ => negb (synchronizes a) | _ => true end.

(** A process that runs is in a good state, one that is dead has left a tree with its
    files; the trees are known. *)
Definition Sound (known : list Folder) (p : Process) : Prop :=
  match p with
  | Running m d => Good m d /\ m_fsTree m ∈ known /\ (forall tree, m_sandboxFsTree m = Some tree -> tree ∈ known)
  | Dead d => exists tree, tree ∈ known /\ Stored tree d
  end.

Lemma treeAfter_known a m (known : list Folder) :
  m_fsTree m ∈ known -> (forall tree, m_sandboxFsTree m = Some tree -> tree ∈ known) -> treeAfter a m ∈ known.
Proof. intros H1 H2. unfold treeAfter. destruct a; try done. destruct (m_sandboxFsTree m); [by apply H2|done]. Qed.

Lemma driveStep_sound fresh e (known : list Folder) p :
  Sound known p -> asynchronous e = true ->
  exists p', driveStep fresh e p = Ret p' /\ Sound (known ++ prepared [e]) p'.
Proof.
  intros Hs Ha.
  assert (Sound (known ++ prepared [e]) p) as Hsame.
  { destruct p as [m d|d]; cbn in Hs |- *; [|set_solver]. destruct Hs as (G & H1 & H2). split_and!; [done|set_solver|].
    intros tree Ht. specialize (H2 tree Ht). set_solver. }
  destruct e as [a|a n| |n], p as [m d|d]; cbn [driveStep]; try (by eexists; split).
  - cbn in Ha. apply negb_true_iff in Ha. destruct (starts a m) eqn:Hst; [|by eexists; split].
    destruct Hs as (G & H1 & H2). destruct (do_good a m d G Hst Ha) as (ops & m' & d' & Ep & Er & G' & Ht & Hn).
    rewrite Ep. cbn. rewrite Er. cbn. eexists. split; [done|]. split_and!; [done|..].
    + rewrite Ht. apply elem_of_app. left. by apply treeAfter_known.
    + rewrite Hn. destruct a; cbn; try discriminate; intros t [= <-]; set_solver.
  - cbn in Ha. apply negb_true_iff in Ha. destruct (starts a m) eqn:Hst; [|by eexists; split].
    destruct Hs as (G & H1 & H2). destruct (die_left a n m d G Hst Ha) as (ops & m' & d' & Ep & Er & Hl).
    rewrite Ep. cbn. rewrite Er. cbn. eexists. split; [done|]. exists (treeLeft a n m). split; [|done].
    rewrite app_nil_r. destruct n; [done|by apply treeAfter_known].
  - destruct Hs as (tree & Hk & Hs). destruct (initialize_good fresh tree d Hs) as (d' & m & E & Ht & G). rewrite E. cbn.
    eexists. split; [done|]. split_and!; [done|rewrite Ht; set_solver|].
    intros t Hn. unfold initialize in E. exfalso. revert Hn. destruct (m_fsTreeFile d) as [[]|]; [discriminate|..];
      apply bind_ret_inv in E as (? & _ & E); apply bind_ret_inv in E as (? & _ & E); by injection E as _ <-.
  - destruct Hs as (tree & Hk & Hs). destruct (initializeOps_ok (hashes tree) fresh d tree (proj1 Hs)) as [Hh Hto].
    destruct (runOps_total _ d Hto) as [d' E]. destruct (runOps_take n _ _ _ E) as [d1 E1]. rewrite E1. cbn.
    eexists. split; [done|]. exists tree. split; [set_solver|]. eapply take_harmless; [exact Hh|set_solver|exact Hs|exact E1].
Qed.

Lemma driveRun_sound fresh events (known : list Folder) p :
  Sound known p -> Forall (fun e => asynchronous e = true) events ->
  exists p', driveRun fresh events p = Ret p' /\ Sound (known ++ prepared events) p'.
Proof.
  intros Hs Ha. revert known p Hs. induction Ha as [|e events He _ IH]; intros known p Hs; cbn [driveRun].
  - exists p. split; [done|]. by rewrite app_nil_r.
  - destruct (driveStep_sound fresh e known p Hs He) as (p1 & -> & Hs1). cbn [mbind outcome_bind].
    destruct (IH _ _ Hs1) as (p2 & -> & Hs2). exists p2. split; [done|].
    assert (known ++ prepared (e :: events) = (known ++ prepared [e]) ++ prepared events) as ->; [|done].
    unfold prepared. cbn. by rewrite app_nil_r, app_assoc.
Qed.

(** ** A synchronization *)

(** The operations on the two folders of files. *)
Definition quiet (op : FileOp) : Prop :=
  match op with
  | FirstPiece _ | LastPiece _ | SaveTorrent _ | RemoveDriveFile _ | RemoveTorrentFile _ => True
  | _ => False
  end.
Definition trees (d : DriveDisk) : option TreeFile * bool * option TreeFile * bool :=
  (m_fsTreeFile d, m_fsTreeTorrent d, m_sandboxFsTreeFile d, m_sandboxFsTreeTorrent d).

Lemma runOps_quiet ops d :
  Forall quiet ops -> exists d', runOps ops d = Ret d' /\ trees d' = trees d.
Proof.
  intros Hops. revert d. induction Hops as [|op ops Hop _ IH]; intros d; cbn; [by exists d|].
  destruct op; cbn in Hop; try done; cbn;
    match goal with |- context [runOps ops ?x] => destruct (IH x) as (d' & E & Ht) end; exists d'; (split; [done|]); rewrite Ht; try done.
  by destruct (m_driveFolder d !! h).
Qed.

Lemma removals_effect unused d :
  exists d', runOps (removals unused) d = Ret d' /\ trees d' = trees d /\
    (forall h, m_driveFolder d' !! h = if decide (h ∈ unused) then None else m_driveFolder d !! h) /\
    m_torrentFolder d' = m_torrentFolder d ∖ unused.
Proof.
  assert (forall l d, exists d', runOps (flat_map (fun h => [RemoveDriveFile h; RemoveTorrentFile h]) l) d = Ret d' /\
    trees d' = trees d /\ (forall h, m_driveFolder d' !! h = if decide (h ∈ l) then None else m_driveFolder d !! h) /\
    m_torrentFolder d' = m_torrentFolder d ∖ list_to_set l) as Hl.
  { clear d. intros l. induction l as [|x l IH]; intros d; cbn; [exists d; split_and!; [done..|set_solver]|].
    destruct (IH (set_torrentFolder (m_torrentFolder d ∖ {[x]}) (set_driveFolder (delete x (m_driveFolder d)) d)))
      as (d' & E & Ht & Hd & Htt). exists d'. split_and!; [done|by rewrite Ht| |rewrite Htt; cbn; set_solver].
    intros h. rewrite Hd. cbn. destruct (decide (h = x)) as [->|Hne].
    - rewrite lookup_delete_eq, (decide_True (P := x ∈ x :: l)) by set_solver. by case_decide.
    - rewrite lookup_delete_ne by done. destruct (decide (h ∈ l)); [by rewrite decide_True by set_solver|].
      by rewrite decide_False by set_solver. }
  destruct (Hl (elements unused) d) as (d' & E & Ht & Hd & Htt). exists d'. split_and!; [done..| |].
  - intros h. rewrite Hd. destruct (decide (h ∈ unused)); [rewrite decide_True by set_solver|rewrite decide_False by set_solver]; done.
  - by rewrite Htt, list_to_set_elements_L.
Qed.

Lemma downloads_effect files d :
  exists d', runOps (flat_map downloadOps (elements files)) d = Ret d' /\ trees d' = trees d /\
    (forall h, m_driveFolder d' !! h = if decide (h ∈ files) then Some Complete else m_driveFolder d !! h) /\
    m_torrentFolder d' = files ∪ m_torrentFolder d.
Proof.
  assert (forall l d, exists d', runOps (flat_map downloadOps l) d = Ret d' /\
    trees d' = trees d /\ (forall h, m_driveFolder d' !! h = if decide (h ∈ l) then Some Complete else m_driveFolder d !! h) /\
    m_torrentFolder d' = list_to_set l ∪ m_torrentFolder d) as Hl.
  { clear d. intros l. induction l as [|x l IH]; intros d; cbn; [exists d; split_and!; [done..|set_solver]|].
    destruct (runOps_quiet (downloadOps x) d) as (d1 & E1 & Ht1); [repeat constructor|]. cbn in E1. injection E1 as E1.
    rewrite E1. destruct (IH d1) as (d' & E & Ht & Hd & Htt).
    exists d'. split_and!; [done|by rewrite Ht| |rewrite Htt, <- E1; cbn; destruct (m_driveFolder d !! x); set_solver].
    intros h. rewrite Hd, <- E1. cbn. destruct (decide (h = x)) as [->|Hne].
    - rewrite (decide_True (P := x ∈ x :: l)) by set_solver. case_decide; [done|]. apply lookup_insert_eq.
    - rewrite lookup_insert_ne by done. destruct (decide (h ∈ l)); [by rewrite decide_True by set_solver|].
      rewrite decide_False by set_solver. destruct (m_driveFolder d !! x); [done|]. cbn. by rewrite lookup_insert_ne. }
  destruct (Hl (elements files) d) as (d' & E & Ht & Hd & Htt). exists d'. split_and!; [done..| |].
  - intros h. rewrite Hd. destruct (decide (h ∈ files)); [rewrite decide_True by set_solver|rewrite decide_False by set_solver]; done.
  - by rewrite Htt, list_to_set_elements_L.
Qed.

Lemma insertFiles_dom (l : list Z) (m : TorrentHandleMap) :
  dom (foldl (fun m h => <[h := false]> m) m l) = list_to_set l ∪ dom m.
Proof. revert m. induction l as [|x l IH]; intros m; cbn; [set_solver|]. rewrite IH, dom_insert_L. set_solver. Qed.

(** Nothing of the new tree lies on the disk that is not a torrent of the session. *)
Definition clean (tree : Folder) (m : DriveMemory) (d : DriveDisk) : Prop :=
  forall h, h ∈ hashes tree -> h <> 0 -> h ∈ validHandles m \/ m_driveFolder d !! h = None.

(** The plan of a synchronization, with its sets of files. *)
Lemma synchronizeWith_plan tree m d :
  Good m d -> clean tree m d ->
  exists handles, let gone := dom (m_torrentHandleMap m) ∖ hashes tree in
    let missing := hashes tree ∖ dom (m_driveFolder d) in
    dom handles = (dom (m_torrentHandleMap m) ∪ missing) ∩ hashes tree /\
    synchronizeWith tree m d =
      Ret ([OpenSandboxTree; WriteSandboxTree tree; CreateSandboxTorrent] ++ removals gone ++
           flat_map downloadOps (elements missing) ++ [MoveFsTree; MoveFsTreeTorrent] ++ removals ∅,
           mkMemory tree handles ((m_invalidHandles m ∖ gone ∖ missing) ∖ ∅) None).
Proof.
  intros G Hc. unfold synchronizeWith.
  destruct (createUnused_ok tree (m_torrentHandleMap m)) as (gone & handles1 & E); [apply G|].
  rewrite E. apply createUnused_inv in E as (Hgone & Hd1 & Hz). cbn -[removals createUnusedFileList].
  destruct (removals_effect gone d) as (d1 & -> & Ht1 & Hf1 & Htt1). cbn -[removals createUnusedFileList].
  apply not_elem_of_dom in Hz.
  assert (0 ∈ dom (m_driveFolder d1)) as H01.
  { apply elem_of_dom. rewrite Hf1, decide_False by set_solver. apply G. }
  rewrite catchingUpList_spec by done. cbn -[removals createUnusedFileList elements].
  assert (hashes tree ∖ dom (m_driveFolder d1) ∪ ∅ = hashes tree ∖ dom (m_driveFolder d)) as ->.
  { rewrite union_empty_r_L. apply set_eq. intros h. rewrite !elem_of_difference, !elem_of_dom, Hf1. subst gone.
    destruct (decide (h ∈ dom (m_torrentHandleMap m) ∖ hashes tree)); [set_solver|done]. }
  set (missing := hashes tree ∖ dom (m_driveFolder d)).
  assert (0 ∉ missing) as Hz2.
  { pose proof (proj1 (good_empty _ _ G)) as He. apply elem_of_dom in He. set_solver. }
  destruct (downloads_effect missing d1) as (d2 & -> & Ht2 & Hf2 & Htt2). cbn -[removals createUnusedFileList elements].
  assert (sizesFound tree d2 = true) as ->.
  { unfold sizesFound. rewrite unique_hashes. apply bool_decide_eq_true. intros h Hh. rewrite Hf2, Htt2, Htt1.
    destruct (decide (h ∈ missing)); [split; [by eexists|set_solver]|]. rewrite Hf1, decide_False by set_solver.
    destruct (decide (h = 0)) as [->|Hne].
    - destruct (good_empty _ _ G) as [H1 H2]. split; [done|set_solver].
    - destruct (Hc h Hh Hne) as [Hv|Hn]; [|apply not_elem_of_dom in Hn; set_solver].
      apply (good_valid _ _ G) in Hv as [-> H2]. split; [by eexists|set_solver]. }
  set (handles2 := foldl _ handles1 (elements missing)).
  assert (dom handles2 = missing ∪ dom handles1) as Hd2 by (unfold handles2; by rewrite insertFiles_dom, list_to_set_elements_L).
  destruct (createUnused_ok tree handles2) as (unused & handles3 & E3).
  { apply not_elem_of_dom. rewrite Hd2, Hd1. set_solver. }
  rewrite E3. apply createUnused_inv in E3 as (Hun & Hd3 & _). cbn -[removals elements].
  assert (unused = ∅) as -> by (rewrite Hun, Hd2, Hd1; set_solver).
  exists handles3. split; [|by subst gone]. rewrite Hd3, Hd2, Hd1. set_solver.
Qed.

(** The disk after the removals, and after the downloads. *)
Lemma synchronize_removed gone tree d :
  exists d', runOps ([OpenSandboxTree; WriteSandboxTree tree; CreateSandboxTorrent] ++ removals gone) d = Ret d' /\
    trees d' = (m_fsTreeFile d, m_fsTreeTorrent d, Some (TreeOf tree), true) /\
    (forall h, m_driveFolder d' !! h = if decide (h ∈ gone) then None else m_driveFolder d !! h) /\
    m_torrentFolder d' = m_torrentFolder d ∖ gone.
Proof.
  destruct (removals_effect gone (set_sandbox (Some (TreeOf tree)) true d)) as (d' & E & Ht & Hf & Htt).
  exists d'. split_and!; [|by rewrite Ht|done..]. rewrite runOps_app. exact E.
Qed.

Lemma synchronizeWith_good tree m d :
  Good m d -> clean tree m d ->
  exists ops m' d', synchronizeWith tree m d = Ret (ops, m') /\ runOps ops d = Ret d' /\ Good m' d' /\ m_fsTree m' = tree.
Proof.
  intros G Hc. destruct (synchronizeWith_plan tree m d G Hc) as (handles & Hd & E).
  set (gone := dom (m_torrentHandleMap m) ∖ hashes tree) in *.
  set (missing := hashes tree ∖ dom (m_driveFolder d)) in *.
  destruct (synchronize_removed gone tree d) as (d1 & E1 & Ht1 & Hf1 & Htt1).
  destruct (downloads_effect missing d1) as (d2 & E2 & Ht2 & Hf2 & Htt2). rewrite Ht1 in Ht2.
  unfold trees in Ht2. injection Ht2 as Ht2 Htt Hs2 Hst2.
  do 3 eexists. split; [exact E|]. split; [|split; [|done]].
  - rewrite app_assoc, runOps_app, E1. cbn -[removals elements]. rewrite runOps_app, E2. cbn -[removals elements].
    rewrite Hs2. cbn -[removals elements]. rewrite Hst2. reflexivity.
  - pose proof (good_handles _ _ G) as Hz. apply not_elem_of_dom in Hz. destruct (good_empty _ _ G) as [He Het].
    pose proof He as He'. apply elem_of_dom in He'.
    assert (0 ∉ missing) as Hzm by set_solver.
    assert (forall h, h ∈ hashes tree -> h <> 0 -> h ∈ missing \/ h ∈ validHandles m) as Hcase.
    { intros h Hh Hne. destruct (Hc h Hh Hne) as [?|Hn]; [by right|left]. apply not_elem_of_dom in Hn. set_solver. }
    unfold validHandles in *. split; unfold validHandles; cbn.
    + done.
    + done.
    + apply not_elem_of_dom. rewrite Hd. set_solver.
    + split; cbn; [rewrite Hf2, Hf1|rewrite Htt2, Htt1]; [by rewrite !decide_False by set_solver|set_solver].
    + rewrite Hd. intros h Hh. destruct (decide (h = 0)); [set_solver|]. destruct (Hcase h Hh n); set_solver.
    + rewrite Hd. intros h [[Hor Hh]%elem_of_intersection _]%elem_of_difference.
      assert (h <> 0) as Hne by (intros ->; apply elem_of_union in Hor as [?|?]; done).
      assert (h ∉ gone) as Hng by (unfold gone; rewrite elem_of_difference; by intros [_ ?]).
      unfold present. cbn. rewrite Hf2, Htt2, Htt1, Hf1, (decide_False (P := h ∈ gone)), elem_of_union, elem_of_difference by done.
      destruct (decide (h ∈ missing)); [split; [done|by left]|].
      destruct (Hcase h Hh Hne) as [?|[Hp Hq]%(good_valid _ _ G)]; [done|]. split; [done|by right].
    + done.
Qed.

(** The files that the new tree does not use are removed while the old tree is still
    the one on the disk. *)
Lemma synchronizeWith_cut tree m d h :
  Good m d -> clean tree m d -> h ∈ hashes (m_fsTree m) -> h <> 0 -> h ∉ hashes tree ->
  exists n ops m' d', synchronizeWith tree m d = Ret (ops, m') /\ runOps (take n ops) d = Ret d' /\
    forall fresh, initialize fresh d' = Stop AssertFailure.
Proof.
  intros G Hc Hh Hz Hn. destruct (synchronizeWith_plan tree m d G Hc) as (handles & _ & E).
  set (gone := dom (m_torrentHandleMap m) ∖ hashes tree) in *.
  destruct (synchronize_removed gone tree d) as (d1 & E1 & Ht1 & Hf1 & _).
  exists (length ([OpenSandboxTree; WriteSandboxTree tree; CreateSandboxTorrent] ++ removals gone)).
  do 3 eexists. split; [exact E|]. split.
  - rewrite app_assoc, take_app_length. exact E1.
  - intros fresh. unfold trees in Ht1. injection Ht1 as Ht1 _ _ _. rewrite (good_tree _ _ G) in Ht1.
    unfold initialize. rewrite Ht1. destruct (initializeOps_ok {[h]} fresh d1 _ Ht1) as [_ Hto].
    destruct (runOps_total _ d1 Hto) as [d2 E2]. rewrite E2. cbn -[addFilesToSession].
    erewrite addFiles_missing; [done|exact Hh|done|].
    assert (m_driveFolder d1 !! h = None) as Hd1.
    { rewrite Hf1, decide_True; [done|]. pose proof (good_used _ _ G). unfold validHandles in *. set_solver. }
    revert E2. unfold initializeOps. rewrite Ht1. repeat case_decide; cbn; intros [= <-]; cbn; by rewrite ?lookup_insert_ne by done.
Qed.

(** ** The properties *)

Definition reaches (fresh : Folder) (events : list DriveEvent) (d0 : DriveDisk) (m : DriveMemory) (d : DriveDisk) : Prop :=
  driveRun fresh events (Dead d0) = Ret (Running m d).

Lemma reached_good fresh events tree0 d0 m d :
  Stored tree0 d0 -> Forall (fun e => asynchronous e = true) events -> reaches fresh events d0 m d -> Good m d.
Proof.
  intros Hs Ha E. unfold reaches in E. destruct (driveRun_sound fresh events [tree0] (Dead d0)) as (p & E' & Hp); [|done|].
  - exists tree0. split; [set_solver|done].
  - rewrite E in E'. injection E' as <-. apply Hp.
Qed.


(** C8: an update is all or nothing: the process may die after any of its operations, and
    the next start has the old tree when none was done and the new tree otherwise, with
    all its files in the session. *)
Theorem update_all_or_nothing fresh events tree0 d0 m d tree :
  Stored tree0 d0 -> Forall (fun e => asynchronous e = true) events -> reaches fresh events d0 m d ->
  m_sandboxFsTree m = Some tree ->
  forall n, exists m' d', driveRun fresh [DieIn SynchronizeDrive n; Start] (Running m d) = Ret (Running m' d') /\
    m_fsTree m' = (match n with O => m_fsTree m | S _ => tree end) /\ hashes (m_fsTree m') ⊆ {[0]} ∪ validHandles m'.
Proof.
  intros Hs Ha Hr Hn n. pose proof (reached_good _ _ _ _ _ _ Hs Ha Hr) as G.
  assert (starts SynchronizeDrive m = true) as Hst by (cbn; rewrite Hn; done).
  destruct (die_left SynchronizeDrive n m d G Hst eq_refl) as (ops & m1 & d1 & Ep & Er & Hl).
  destruct (initialize_good fresh _ d1 Hl) as (d2 & m2 & Ei & Et & G2).
  exists m2, d2. split_and!; [|rewrite Et; unfold treeLeft, treeAfter; by rewrite Hn|apply G2].
  cbn [driveRun driveStep]. rewrite Hst, Ep. cbn -[initialize]. rewrite Er. cbn -[initialize]. by rewrite Ei.
Qed.

(** C27: a synchronization of a drive where each file of the new tree that lies on the
    disk is a torrent of the session ([clean]; what the death of a download left is not),
    and where no other new tree is prepared: when it comes to its end it gives the drive
    the new tree with all its files; but when the old tree has a file that the new one
    has not, the process can die in it at a moment after which the drive does not start
    any more. *)
Theorem synchronization_interrupted fresh events tree0 d0 m d tree h :
  Stored tree0 d0 -> Forall (fun e => asynchronous e = true) events -> reaches fresh events d0 m d ->
  m_sandboxFsTree m = None -> clean tree m d -> h ∈ hashes (m_fsTree m) -> h <> 0 -> h ∉ hashes tree ->
  (exists m' d', driveStep fresh (Do (SynchronizeWith tree)) (Running m d) = Ret (Running m' d') /\
     m_fsTree m' = tree /\ Stored tree d' /\ hashes tree ⊆ {[0]} ∪ validHandles m') /\
  (exists n d', driveStep fresh (DieIn (SynchronizeWith tree) n) (Running m d) = Ret (Dead d') /\
     driveStep fresh Start (Dead d') = Stop AssertFailure).
Proof.
  intros Hs Ha Hr Hn Hc Hh Hz Hnt. pose proof (reached_good _ _ _ _ _ _ Hs Ha Hr) as G.
  assert (starts (SynchronizeWith tree) m = true) as Hst by (cbn; by rewrite Hn).
  cbn [driveStep]. rewrite Hst. cbn [plan]. split.
  - destruct (synchronizeWith_good tree m d G Hc) as (ops & m' & d' & Ep & Er & G' & <-).
    exists m', d'. rewrite Ep. cbn. rewrite Er. split_and!; [done..|by apply good_stored|apply G'].
  - destruct (synchronizeWith_cut tree m d h G Hc Hh Hz Hnt) as (n & ops & m' & d' & Ep & Er & Ei).
    exists n, d'. rewrite Ep. cbn -[initialize]. rewrite Er. split; [done|]. by rewrite (Ei fresh).
Qed.

(** ** A drive with one file *)

Definition oneFile (h : Z) : Folder := MkFolder "/" [("a"%string, inr (mkFile "a" h 1 0 false None))] false 0 0 None.
Definition oneFileDisk (h : Z) : DriveDisk := mkDisk (Some (TreeOf (oneFile h))) true None false {[h := Complete]} {[h]}.

Lemma oneFile_stored h : Stored (oneFile h) (oneFileDisk h).
Proof.
  split; [done|]. intros x Hx _. assert (x = h) as -> by (unfold hashes in Hx; cbn in Hx; set_solver).
  unfold present. cbn. rewrite lookup_singleton_eq. split; [done|set_solver].
Qed.


(** What a history comes to. *)
Definition memoryOf (r : Outcome Process) : DriveMemory :=
  match r with Ret (Running m _) => m | _ => mkMemory (oneFile 0) ∅ ∅ None end.
Definition diskOf (r : Outcome Process) : DriveDisk :=
  match r with Ret (Running _ d) | Ret (Dead d) => d | _ => oneFileDisk 0 end.

Definition updateReady : list DriveEvent := [Start; Do (DownloadFile 7); Do (PrepareTree (oneFile 7))].

Lemma update_all_or_nothing_witness :
  let r := driveRun (oneFile 5) updateReady (Dead (oneFileDisk 5)) in
  exists m' d', driveRun (oneFile 5) [DieIn SynchronizeDrive 1; Start] (Running (memoryOf r) (diskOf r)) = Ret (Running m' d') /\
    m_fsTree m' = oneFile 7 /\ hashes (m_fsTree m') ⊆ {[0]} ∪ validHandles m'.
Proof.
  intros r. apply (update_all_or_nothing (oneFile 5) updateReady (oneFile 5) (oneFileDisk 5) (memoryOf r) (diskOf r) (oneFile 7))
    with (n := 1%nat).
  - apply oneFile_stored.
  - repeat (constructor; [done|]). constructor.
  - vm_compute. reflexivity.
  - vm_compute. reflexivity.
Defined.

Lemma synchronization_interrupted_witness :
  let r := driveRun (oneFile 5) [Start] (Dead (oneFileDisk 5)) in
  (exists m' d', driveStep (oneFile 5) (Do (SynchronizeWith (oneFile 7))) (Running (memoryOf r) (diskOf r)) = Ret (Running m' d') /\
     m_fsTree m' = oneFile 7 /\ Stored (oneFile 7) d' /\ hashes (oneFile 7) ⊆ {[0]} ∪ validHandles m') /\
  (exists n d', driveStep (oneFile 5) (DieIn (SynchronizeWith (oneFile 7)) n) (Running (memoryOf r) (diskOf r)) = Ret (Dead d') /\
     driveStep (oneFile 5) Start (Dead d') = Stop AssertFailure).
Proof.
  intros r. apply (synchronization_interrupted (oneFile 5) [Start] (oneFile 5) (oneFileDisk 5) (memoryOf r) (diskOf r) (oneFile 7) 5).
  - apply oneFile_stored.
  - repeat (constructor; [done|]). constructor.
  - vm_compute. reflexivity.
  - vm_compute. reflexivity.
  - intros h Hh _. right. assert (h = 7) as -> by (unfold hashes in Hh; cbn in Hh; set_solver). vm_compute. reflexivity.
  - apply (bool_decide_unpack _). vm_compute. exact I.
  - lia.
  - apply (bool_decide_unpack _). vm_compute. exact I.
Defined.

(** The process dies during the first start, while the first tree is written: the file
    that is left cannot be read, and no later start succeeds. *)
Example first_start_interrupted :
  driveRun (oneFile 0) [DieInStart 3; Start] (Dead (mkDisk None false None false ∅ ∅)) = Stop AssertFailure.
Proof. vm_compute. reflexivity. Qed.

(** The process dies when the first piece of a file is on the disk.  The file is taken for
    the whole file by a later synchronization, and measuring its torrent file throws. *)
Example partial_file_throws :
  driveRun (oneFile 5) [Start; DieIn (DownloadFile 7) 1; Start; Do (SynchronizeWith (oneFile 7))] (Dead (oneFileDisk 5))
  = Stop ThrownException.
Proof. vm_compute. reflexivity. Qed.

(** The same when the torrent file was there from an earlier removal that was cut: the
    drive then has a tree whose file is not complete. *)
Example partial_file_accepted :
  let events := [Start; DieIn (DownloadFile 7) 3; Start; Do (DownloadFile 7); DieIn ClearDrive 1; Start; DieIn (DownloadFile 7) 1;
                 Start; Do (SynchronizeWith (oneFile 7))] in
  m_driveFolder (diskOf (driveRun (oneFile 5) events (Dead (oneFileDisk 5)))) !! 7 = Some Partial.
Proof. vm_compute. reflexivity. Qed.

(** A whole file that was left on the disk is used by the new tree, and is not a torrent
    of the session. *)
Example file_left_not_served :
  let r := driveRun (oneFile 5) [Start; DieIn (DownloadFile 7) 3; Start; Do (SynchronizeWith (oneFile 7))] (Dead (oneFileDisk 5)) in
  m_fsTree (memoryOf r) = oneFile 7 /\ validHandles (memoryOf r) = ∅.
Proof. vm_compute. by split. Qed.

(** Nothing removes the files that a death has left and the tree does not use. *)
Example file_left_stays :
  m_driveFolder (diskOf (driveRun (oneFile 5) [Start; DieIn (DownloadFile 7) 3; Start; Do ClearDrive; Do FinishTask]
                           (Dead (oneFileDisk 5)))) !! 7 = Some Complete.
Proof. vm_compute. reflexivity. Qed.
