(* ===== verification/DriveCalls.v ===== *)
(** * Calls of the others to the drives of a replicator

    The calls of a supercontract, the questions of viewers and users about a drive, and
    the messages of a streamer, from the replicator ([src/drive/Replicator.cpp]) over
    the drive ([src/drive/FlatDrive.cpp]) to the task that the drive runs
    ([DriveTaskBase.h], [ManualModificationsTask.cpp], [StreamTask.cpp]); and what a
    viewer makes of the status of a stream ([src/drive/ViewerSession.cpp]).

    Which task a drive runs next is decided by its queue ([FlatDrive]) and an event
    here.  A virtual function that a task does not override answers as [DriveTaskBase]
    does. *)

From S2P Require Import Prelude RcptMessage OrderedMap FsPath FsStatistics FsTree FolderIterator FlatDrive ManualModifications Streaming.
#[global] Open Scope Z_scope.

(** ** The drives *)

(** The current task, as far as a call can see it. *)
Inductive CurrentTask :=
  | NoTask
  | ManualTask (s : ManualModifications)
  | StreamingTask (request : StreamRequest) (s : StreamData)
  | OtherTask (type : DriveTaskType).

Definition currentType (t : CurrentTask) : option DriveTaskType :=
  match t with
  | NoTask => None
  | ManualTask _ => Some MANUAL_MODIFICATION
  | StreamingTask _ _ => Some STREAM_REQUEST
  | OtherTask type => Some type
  end.

Record CalledDrive := mkCalledDrive {
  cd_task : CurrentTask;
  cd_fsTree : Folder;
  cd_nodes : StatStore;
  cd_streamMap : gset Z;
  cd_lastApprovedModification : Z }.

Definition set_currentTask (t : CurrentTask) (d : CalledDrive) : CalledDrive :=
  mkCalledDrive t (cd_fsTree d) (cd_nodes d) (cd_streamMap d) (cd_lastApprovedModification d).

Record CalledReplicator := mkCalledReplicator { rh_isDestructing : bool; rh_drives : gmap Z CalledDrive }.

Definition set_drive (k : Z) (d : CalledDrive) (h : CalledReplicator) : CalledReplicator :=
  mkCalledReplicator (rh_isDestructing h) (<[k := d]> (rh_drives h)).

(** ** The calls of a supercontract *)

Section Calls.
  (** Of every drive, by its key: the size, and the modification of its manual task. *)
  Context (m_maxSize : Z -> Z) (m_modificationIdentifier : Z -> Z).
  Context (session : bool) (m_maxOpenedStreams : Z).
  Context (calculateInfoHash : list Z -> Z) (torrentSize : list Z -> Z) (createTorrentFile : Folder -> Z).

Abbreviation taskStep k :=
  (manual_step (m_maxSize k) session m_maxOpenedStreams calculateInfoHash torrentSize createTorrentFile
     (m_modificationIdentifier k)).

(** A call at the drive: only a manual modification takes it, and a refused call is
    answered by the drive. *)
Definition driveCall (k : Z) (r : Request) (d : CalledDrive) : Outcome (list Response * CalledDrive) :=
  match cd_task d with
  | ManualTask s =>
      '(out, s) ← forward (m_maxSize k) m_maxOpenedStreams r s;
      Ret (out, set_currentTask (ManualTask s) d)
  | _ => Ret ([EmptyResponse], d)
  end.

(** A call at the replicator.  One that stops does not answer. *)
Definition replicatorCall (k : Z) (r : Request) (h : CalledReplicator) : Outcome (list Response * CalledReplicator) :=
  if rh_isDestructing h then Ret ([], h) else
  match rh_drives h !! k with
  | None => Ret ([EmptyResponse], h)
  | Some d => '(out, d) ← driveCall k r d; Ret (out, set_drive k d h)
  end.

(** Another event of a manual task: an interruption, or the turn of a thread. *)
Definition taskEvent (k : Z) (e : ManualEvent) (h : CalledReplicator) : Outcome (list Response * CalledReplicator) :=
  match rh_drives h !! k with
  | Some d =>
      match cd_task d with
      | ManualTask s => '(out, s) ← taskStep k e s; Ret (out, set_drive k (set_currentTask (ManualTask s) d) h)
      | _ => Ret ([], h)
      end
  | None => Ret ([], h)
  end.

(** The drive runs its next task; a manual one begins with a copy of the tree. *)
Inductive NextTask := NextManual (d : DriveState) (nodes : StatStore) | NextTask_ (t : CurrentTask).

Definition nextTask (k : Z) (next : NextTask) (h : CalledReplicator) : CalledReplicator :=
  match rh_drives h !! k with
  | Some d =>
      set_drive k (set_currentTask (match next with
                                    | NextManual state nodes => ManualTask (newManualModifications state nodes)
                                    | NextTask_ (ManualTask _) => NoTask
                                    | NextTask_ t => t
                                    end) d) h
  | None => h
  end.

(** A manual task is left only when it has told the drive to go on, and is destroyed
    then: what it still has to do uses it afterwards. *)
Definition isLeft (t : CurrentTask) : Outcome bool :=
  match t with
  | ManualTask s =>
      if m_runNextTask (mm_control s) then
        match m_jobs (mm_control s), m_continuations (mm_control s) with
        | [], [] => Ret true
        | _, _ => Stop UndefinedBehaviour
        end
      else Ret false
  | _ => Ret true
  end.

Definition changeTask (k : Z) (next : NextTask) (h : CalledReplicator) : Outcome (list Response * CalledReplicator) :=
  left ← from_option (isLeft ∘ cd_task) (Ret false) (rh_drives h !! k);
  Ret ([], if (left : bool) then nextTask k next h else h).

Inductive CallEvent :=
  | SupercontractCall (k : Z) (r : Request)
  | TaskEvent (k : Z) (e : ManualEvent)
  | TaskChanged (k : Z) (next : NextTask).

Definition callStep (e : CallEvent) (h : CalledReplicator) : Outcome (list Response * CalledReplicator) :=
  match e with
  | SupercontractCall k r => replicatorCall k r h
  | TaskEvent k e => taskEvent k e h
  | TaskChanged k next => changeTask k next h
  end.

Definition eventKey (e : CallEvent) : Z :=
  match e with SupercontractCall k _ | TaskEvent k _ | TaskChanged k _ => k end.

(** The answers, with the drive that was asked. *)
Fixpoint callRun (es : list CallEvent) (h : CalledReplicator) : Outcome (list (Z * Response) * CalledReplicator) :=
  match es with
  | [] => Ret ([], h)
  | e :: es =>
      '(out, h) ← callStep e h;
      '(out', h) ← callRun es h;
      Ret (map (pair (eventKey e)) out ++ out', h)
  end.

End Calls.

(** ** Questions about the drive itself *)

Record FileInfoResponse := mkFileInfo { fi_exists : bool; fi_fileHash : Z; fi_size : Z }.

Section Information.
  Context {A : Type}.

(** The answer is empty without the drive, and while it is initialized. *)
Definition askDrive (k : Z) (answer : CalledDrive -> Outcome A) (h : CalledReplicator) : Outcome (option (option A)) :=
  if rh_isDestructing h then Ret None else
  match rh_drives h !! k with
  | None => Ret (Some None)
  | Some d =>
      if decide (currentType (cd_task d) = Some DRIVE_INITIALIZATION) then Ret (Some None)
      else a ← answer d; Ret (Some (Some a))
  end.

End Information.

Definition getFileInfo (m_relativePath : string) (d : CalledDrive) : Outcome FileInfoResponse :=
  '(entry, _, _) ← getEntryPtr m_relativePath (cd_fsTree d) (cd_nodes d);
  Ret (match entry with
       | Some (inr f) => mkFileInfo true (file_hash f) (file_size f)
       | _ => mkFileInfo false 0 0
       end).

Definition getActualModificationId (d : CalledDrive) : Outcome Z := Ret (cd_lastApprovedModification d).
Definition getFilesystem (d : CalledDrive) : Outcome Folder := Ret (cd_fsTree d).

(** ** The messages about streams *)

Section Streams.
  Context (verify : Z -> Z * Z * Z * Z * Z -> Z -> bool) (session : bool).

(** ["chunk-info"] of a streamer. *)
Definition onChunkInfo (k : Z) (info : ChunkInfo) (h : CalledReplicator) : CalledReplicator :=
  match rh_drives h !! k with
  | Some d =>
      match cd_task d with
      | StreamingTask request s =>
          set_drive k (set_currentTask (StreamingTask request (acceptChunkInfoMessage verify request info s)) d) h
      | _ => h
      end
  | None => h
  end.

(** [asyncFinishStreamTxPublished]. *)
Definition onFinishStreamTx (k streamId finishDataInfoHash : Z) (h : CalledReplicator)
    : Outcome (list StreamOutput * CalledReplicator) :=
  if rh_isDestructing h then Ret ([], h) else
  match rh_drives h !! k with
  | Some d =>
      match cd_task d with
      | StreamingTask request s =>
          '(out, s) ← acceptFinishStreamTx request session streamId finishDataInfoHash s;
          Ret (out, set_drive k (set_currentTask (StreamingTask request s) d) h)
      | _ => Ret ([], h)
      end
  | None => Ret ([], h)
  end.

(** ["get-chunks-info"] of a viewer: without a stream the drive only knows whether the
    stream is saved. *)
Definition driveChunksInfo (streamId : Z) (chunkIndex : nat) (d : CalledDrive) : Outcome ChunksReply :=
  match cd_task d with
  | StreamingTask request s => acceptGetChunksInfoMessage request (cd_streamMap d) streamId chunkIndex s
  | _ => Ret (if decide (streamId ∈ cd_streamMap d) then StreamIsEnded else StreamIsNotStarted)
  end.

Definition onGetChunksInfo (k streamId : Z) (chunkIndex : nat) (h : CalledReplicator) : Outcome ChunksReply :=
  match rh_drives h !! k with Some d => driveChunksInfo streamId chunkIndex d | None => Ret NoChunksReply end.

(** ["get-playlist-hash"] of a viewer. *)
Definition onGetPlaylistHash (k streamId : Z) (h : CalledReplicator) : option (Z * Z) :=
  d ← rh_drives h !! k; acceptGetPlaylistHashRequest (cd_fsTree d) streamId.

End Streams.

(** ** The status of a stream *)

(** The archives of cereal: a byte for the order of the bytes, an array of bytes as its
    bytes, a [bool] as a byte, and a [std::optional] as whether it is empty, and its value. *)
Record StatusFormat := mkStatusFormat {
  openArchive : list Z -> option (list Z);
  newArchive : list Z;
  putKey : Z -> list Z;
  getKey : list Z -> option (Z * list Z);
  putBool : bool -> list Z;
  getBool : list Z -> option (bool * list Z);
  open_new bytes : openArchive (newArchive ++ bytes) = Some bytes;
  putKey_bytes key : putKey key = be_bytes 32 key;
  getKey_bytes bytes rest : length bytes = 32%nat -> getKey (bytes ++ rest) = Some (of_be bytes, rest);
  getKey_short bytes : (length bytes < 32)%nat -> getKey bytes = None;
  putBool_byte b : putBool b = [if b then 1 else 0];
  getBool_put b rest : getBool (putBool b ++ rest) = Some (b, rest) }.

Section Status.
  Context (fmt : StatusFormat).

Definition putOptional (o : option Z) : list Z :=
  match o with None => putBool fmt true | Some key => putBool fmt false ++ putKey fmt key end.

(** [getStreamId] of the task. *)
Definition getStreamId (t : CurrentTask) : option Z :=
  match t with StreamingTask request _ => Some (sq_streamId request) | _ => None end.

(** [getStreamStatus] of a drive. *)
Definition getStreamStatus (m_driveKey : Z) (t : CurrentTask) : list Z :=
  newArchive fmt ++ putKey fmt m_driveKey ++
  match t with
  | NoTask => putBool fmt false
  | _ => putBool fmt true ++ putOptional (getStreamId t)
  end.

(** [requestStreamStatus] of a viewer: to every replicator whose address is known. *)
Definition requestStreamStatus {E} (endpoints : list (option E)) (driveKey : Z) : list (E * list Z) :=
  omap (fun e => (fun e => (e, newArchive fmt ++ putKey fmt driveKey)) <$> e) endpoints.

(** ["get_stream_status"] at the replicator: no exception is caught here. *)
Definition onGetStreamStatus (bytes : list Z) (h : CalledReplicator) : Outcome (option (list Z)) :=
  match openArchive fmt bytes ≫= getKey fmt with
  | None => Stop ThrownException
  | Some (driveKey, _) =>
      Ret ((fun d => getStreamStatus driveKey (cd_task d)) <$> (rh_drives h !! driveKey))
  end.

(** [handleDhtResponse] of ["get_stream_status"] at the viewer: what its handler is
    called with; an exception is caught. *)
Definition onStreamStatus (hasHandler : bool) (ret : list Z) : option (Z * bool * Z) :=
  if negb hasHandler then None else
  bytes ← openArchive fmt ret;
  '(driveKey, bytes) ← getKey fmt bytes;
  '(isStreaming, bytes) ← getBool fmt bytes;
  '(streamId, _) ← getKey fmt bytes;
  Some (driveKey, isStreaming, streamId).

End Status.
