(* ===== verification/DriveCallsSpec.v ===== *)
(** * Properties of the calls to the drives of a replicator *)

From S2P Require Import Prelude RcptMessage OrderedMap FsPath FsStatistics FsTree FolderIterator FlatDrive ManualModifications ManualProtocol ManualModificationsSpec Streaming DriveCalls.
#[global] Open Scope Z_scope.

(** ** The calls of supercontracts *)

Section Calls.
  Context (m_maxSize : Z -> Z) (m_modificationIdentifier : Z -> Z) (m_maxOpenedStreams : Z).
  Context (calculateInfoHash : list Z -> Z) (torrentSize : list Z -> Z) (createTorrentFile : Folder -> Z).

Abbreviation hostStep :=
  (callStep m_maxSize m_modificationIdentifier true m_maxOpenedStreams calculateInfoHash torrentSize createTorrentFile).
Abbreviation hostRun :=
  (callRun m_maxSize m_modificationIdentifier true m_maxOpenedStreams calculateInfoHash torrentSize createTorrentFile).

(** The manual task of a drive. *)
Definition manualAt (k : Z) (h : CalledReplicator) : option ManualModifications :=
  match rh_drives h !! k with
  | Some d => match cd_task d with ManualTask s => Some s | _ => None end
  | None => None
  end.

Definition owedAt (k : Z) (h : CalledReplicator) : nat := from_option owed 0%nat (manualAt k h).

(** What the callers must respect: the protocol of a manual task, each for its drive. *)
Definition callPermitted (e : CallEvent) (h : CalledReplicator) : Prop :=
  match e with
  | SupercontractCall k r => match manualAt k h with Some s => permitted m_maxOpenedStreams (EvRequest r) s | None => True end
  | TaskEvent k (EvRequest _) => False
  | TaskEvent k _ | TaskChanged k _ => True
  end.

Fixpoint callsRespect (es : list CallEvent) (h : CalledReplicator) : Prop :=
  match es with
  | [] => True
  | e :: es => callPermitted e h /\ match hostStep e h with Ret (_, h) => callsRespect es h | Stop _ => True end
  end.

Definition isCall (k : Z) (e : CallEvent) : nat :=
  match e with SupercontractCall k' _ => if decide (k' = k) then 1 else 0 | _ => 0 end.
Definition callsTo (k : Z) (es : list CallEvent) : nat := list_sum (map (isCall k) es).
Definition answersOf (k : Z) (out : list (Z * Response)) : nat := length (filter (fun p => p.1 = k) out).

(** The replicator runs, and every manual task is in a state of its protocol. *)
Definition hostInv (h : CalledReplicator) : Prop :=
  rh_isDestructing h = false /\ forall k s, manualAt k h = Some s -> manual_inv s.

Lemma manualAt_set k k' d h :
  manualAt k (set_drive k' d h) =
  if decide (k = k') then match cd_task d with ManualTask s => Some s | _ => None end else manualAt k h.
Proof.
  unfold manualAt, set_drive. cbn. destruct (decide (k = k')) as [->|Hne]; [by rewrite lookup_insert_eq|].
  by rewrite lookup_insert_ne.
Qed.

Lemma hostInv_set k d h :
  hostInv h -> (forall s, cd_task d = ManualTask s -> manual_inv s) -> hostInv (set_drive k d h).
Proof.
  intros [Hd Hi] Hs. split; [done|]. intros k' s. rewrite manualAt_set. destruct (decide (k' = k)); [|apply Hi].
  destruct (cd_task d) eqn:E; try done. intros [= <-]. by apply Hs.
Qed.

(** One event of one drive: its answers, and nothing for the others. *)
Definition stepCounts (e : CallEvent) (h : CalledReplicator) (a : list Response * CalledReplicator) : Prop :=
  hostInv a.2 /\
  (length a.1 + owedAt (eventKey e) a.2 = owedAt (eventKey e) h + isCall (eventKey e) e)%nat /\
  forall k, k <> eventKey e -> rh_drives a.2 !! k = rh_drives h !! k.

Lemma others_set k' d h k : k <> k' -> rh_drives (set_drive k' d h) !! k = rh_drives h !! k.
Proof. intros Hne. unfold set_drive. cbn. by rewrite lookup_insert_ne. Qed.

(** A step of a manual task, at its drive. *)
Lemma manual_counts k d s e ev h :
  hostInv h -> rh_drives h !! k = Some d -> cd_task d = ManualTask s -> eventKey ev = k ->
  permitted m_maxOpenedStreams e s -> isCall k ev = match e with EvRequest _ => 1%nat | _ => 0%nat end ->
  ensures (stepCounts ev h)
    ('(out, s) ← manual_step (m_maxSize k) true m_maxOpenedStreams calculateInfoHash torrentSize createTorrentFile
        (m_modificationIdentifier k) e s;
     Ret (out, set_drive k (set_currentTask (ManualTask s) d) h)).
Proof.
  intros Hh Hd Ht Hk Hp Hc.
  assert (manualAt k h = Some s) as Hm by (unfold manualAt; by rewrite Hd, Ht).
  pose proof (step_ok (m_maxSize k) true m_maxOpenedStreams calculateInfoHash torrentSize createTorrentFile
                (m_modificationIdentifier k) e s eq_refl (proj2 Hh _ _ Hm) Hp) as Hs.
  eapply ensures_bind; [exact Hs|]. intros [out s'] [Hi Hl]. cbn in *. unfold stepCounts. cbn. split_and!.
  - apply hostInv_set; [done|]. cbn. by intros ? [= <-].
  - unfold owedAt. rewrite Hk, manualAt_set, decide_True, Hm, Hc by done. cbn. exact Hl.
  - intros k' Hne. apply others_set. by rewrite Hk in Hne.
Qed.

Lemma idle_counts e h out :
  hostInv h -> length out = isCall (eventKey e) e -> ensures (stepCounts e h) (Ret (out, h)).
Proof. intros Hh Hl. cbn. unfold stepCounts. cbn. split_and!; [done|lia|done]. Qed.

(** A manual task that is left owes nothing. *)
Lemma isLeft_owes k d h :
  rh_drives h !! k = Some d -> ensures (fun b => b = true -> owedAt k h = 0%nat) ((isLeft ∘ cd_task) d).
Proof.
  intros Hd. unfold owedAt, manualAt. rewrite Hd. cbn [compose]. unfold isLeft.
  destruct (cd_task d) as [|s|request s|type]; try done. destruct (m_runNextTask (mm_control s)); [|done].
  destruct (m_jobs (mm_control s)) eqn:Ej; [|exact I]. destruct (m_continuations (mm_control s)) eqn:Ek; [|exact I].
  intros _. cbn. unfold owed. rewrite !pend_split, Ej, Ek. done.
Qed.

Lemma callStep_counts e h : hostInv h -> callPermitted e h -> ensures (stepCounts e h) (hostStep e h).
Proof.
  intros Hh Hp. destruct e as [k r|k e|k next]; cbn [callStep].
  - unfold replicatorCall. rewrite (proj1 Hh). cbn [callPermitted] in Hp.
    destruct (rh_drives h !! k) as [d|] eqn:Hd; [|apply idle_counts; [done|cbn; by rewrite decide_True]].
    unfold driveCall. destruct (cd_task d) as [|s|request s|type] eqn:Ht.
    2: { assert (manualAt k h = Some s) as Hm by (unfold manualAt; by rewrite Hd, Ht). rewrite Hm in Hp.
         pose proof (manual_counts k d s (EvRequest r) (SupercontractCall k r) h Hh Hd Ht eq_refl Hp) as Hc.
         cbn [manual_step] in Hc. specialize (Hc ltac:(cbn; by rewrite decide_True)).
         destruct (forward _ _ r s) as [[out s']|]; [|done]. exact Hc. }
    all: cbn; unfold stepCounts; cbn; unfold owedAt; rewrite manualAt_set, !decide_True, Ht by done;
      assert (manualAt k h = None) as -> by (unfold manualAt; by rewrite Hd, Ht); split_and!; [|cbn; lia|intros; by apply others_set];
      apply hostInv_set; [done|]; intros ?; rewrite Ht; discriminate.
  - unfold taskEvent. destruct (rh_drives h !! k) as [d|] eqn:Hd; [|by apply idle_counts].
    destruct (cd_task d) as [|s|request s|type] eqn:Ht; try by apply idle_counts.
    destruct e as [r| | |]; [done|..]; by eapply manual_counts.
  - unfold changeTask, nextTask. destruct (rh_drives h !! k) as [d|] eqn:Hd; [|by apply idle_counts].
    cbn [from_option compose]. apply (ensures_bind (fun b => b = true -> owedAt k h = 0%nat)); [by apply isLeft_owes|].
    intros [|] Ho; [specialize (Ho eq_refl)|by apply idle_counts].
    cbn. unfold stepCounts. cbn. split_and!; [| |intros; by apply others_set].
    + apply hostInv_set; [done|]. intros s. destruct next as [state nodes|[]]; cbn; try discriminate.
      intros [= <-]. apply new_inv.
    + rewrite Ho. unfold owedAt. rewrite manualAt_set, decide_True by done.
      destruct next as [state nodes|[]]; cbn; done.
Qed.

Lemma answersOf_app k a b : answersOf k (a ++ b) = (answersOf k a + answersOf k b)%nat.
Proof. unfold answersOf. by rewrite filter_app, length_app. Qed.

Lemma answersOf_pair k k' (out : list Response) :
  answersOf k (map (pair k') out) = if decide (k' = k) then length out else 0%nat.
Proof.
  unfold answersOf. induction out as [|r out IH]; cbn [map]; [by destruct (decide _)|].
  rewrite filter_cons. cbn [fst]. destruct (decide (k' = k)); cbn [length]; by rewrite ?IH.
Qed.

Lemma isCall_other k e : k <> eventKey e -> isCall k e = 0%nat.
Proof. destruct e; cbn; try done. intros Hne. by rewrite decide_False. Qed.

Lemma callsTo_cons k e es : callsTo k (e :: es) = (isCall k e + callsTo k es)%nat.
Proof. done. Qed.

Lemma callRun_counts es : forall h,
  hostInv h -> callsRespect es h ->
  ensures (fun a => hostInv a.2 /\ forall k, (answersOf k a.1 + owedAt k a.2 = owedAt k h + callsTo k es)%nat) (hostRun es h).
Proof.
  induction es as [|e es IH]; intros h Hh Hr; cbn [callRun].
  - cbn. split; [done|]. intros k. unfold callsTo. cbn. lia.
  - destruct Hr as [Hp Hr]. pose proof (callStep_counts e h Hh Hp) as Hs.
    destruct (hostStep e h) as [[out h1]|]; [|done]. destruct Hs as (Hh1 & Hl & Ho). cbn in Hl, Ho.
    specialize (IH h1 Hh1 Hr). cbn [mbind outcome_bind]. destruct (hostRun es h1) as [[out' h2]|]; [|done].
    cbn [ensures fst snd mbind outcome_bind] in IH |- *. destruct IH as [Hh2 IH]. split; [done|]. intros k. rewrite answersOf_app, answersOf_pair. specialize (IH k).
    rewrite callsTo_cons. destruct (decide (eventKey e = k)) as [<-|Hne]; [lia|].
    rewrite isCall_other by done. assert (owedAt k h1 = owedAt k h) as E; [|lia].
    unfold owedAt, manualAt. by rewrite Ho.
Qed.

Lemma owedAt_one k h : hostInv h -> (owedAt k h <= 1)%nat.
Proof.
  intros [_ Hi]. unfold owedAt. destruct (manualAt k h) as [s|] eqn:E; cbn; [|lia].
  destruct (Hi k s E) as [[H1 _] _]. exact H1.
Qed.

(** A supercontract that calls drives of a replicator gets every answer, and the drives
    do not get into each other's way.  Whatever drives are called, and whatever tasks they
    have or take: of each drive, the answers are as many as the calls, but for the one
    that its manual modification may still owe; a drive that has no manual modification,
    and a drive that is not there, owe none; and an event of a drive leaves the others
    as they are. *)
Lemma supercontract_answered es h out h' :
  rh_isDestructing h = false -> (forall k, manualAt k h = None) -> callsRespect es h ->
  hostRun es h = Ret (out, h') ->
  (forall k, (answersOf k out + owedAt k h' = callsTo k es)%nat /\ (owedAt k h' <= 1)%nat /\
     (manualAt k h' = None -> answersOf k out = callsTo k es)) /\
  (forall k, k ∉ map eventKey es -> rh_drives h' !! k = rh_drives h !! k).
Proof.
  intros Hd Hn Hr E. assert (hostInv h) as Hh by (split; [done|]; intros k s; by rewrite Hn).
  split.
  - destruct (ensures_ret _ _ _ (callRun_counts es h Hh Hr) E) as [Hh' Hc]. cbn [fst snd] in Hh', Hc. intros k.
    specialize (Hc k). assert (owedAt k h = 0%nat) as Ho by (unfold owedAt; by rewrite Hn). rewrite Ho in Hc.
    split_and!; [lia|by apply owedAt_one|]. intros Hn'. unfold owedAt in Hc. rewrite Hn' in Hc. cbn [from_option] in Hc. lia.
  - intros k Hk. clear Hn. revert h Hd Hh Hr out E. induction es as [|e es IH]; intros h Hd Hh Hr out E; cbn [callRun] in E.
    + by injection E as _ <-.
    + destruct Hr as [Hp Hr]. pose proof (callStep_counts e h Hh Hp) as Hs.
      destruct (hostStep e h) as [[out1 h1]|]; [|discriminate]. destruct Hs as (Hh1 & _ & Ho). cbn in E, Hh1, Ho.
      apply bind_ret_inv in E as ([out2 h2] & E2 & E). injection E as _ <-. cbn in Hk.
      rewrite <- Ho by set_solver. eapply IH; [set_solver|apply Hh1|done..|exact E2].
Qed.

End Calls.

(** ** The status of a stream *)

Section Status.
  Context (fmt : StatusFormat).

Lemma of_be_zero l : of_be (0 :: l) = of_be l.
Proof.
  unfold of_be. cbn [rev]. induction (rev l) as [|b bs IH]; cbn; [done|]. by rewrite IH.
Qed.

(** An array that is read one byte too early. *)
Lemma of_be_shifted id : is_key id -> of_be (0 :: take 31 (be_bytes 32 id)) = id / 256.
Proof.
  intros Hk. assert (be_bytes 32 id = be_bytes 31 (id / 256) ++ [id mod 256]) as -> by reflexivity.
  rewrite take_app_length' by (by rewrite length_be_bytes). rewrite of_be_zero.
  apply of_be_bytes. unfold is_key in Hk. split; [apply Z.div_pos; lia|].
  apply Z.div_lt_upper_bound; lia.
Qed.

(** C32: what a viewer learns of the status of a stream when it asks a replicator of the
    drive, which answers what it asked.  While the drive has no task, or one that is no
    stream, the answer cannot be read and the viewer is told nothing.  During a stream
    the viewer is told that the drive streams, but with another stream: the optional
    identifier is read as an identifier, one byte too early. *)
Theorem stream_status_told {E} (endpoint : E) driveKey h d :
  is_key driveKey -> rh_drives h !! driveKey = Some d ->
  (forall request s, cd_task d = StreamingTask request s -> is_key (sq_streamId request)) ->
  exists bytes ret, requestStreamStatus fmt [Some endpoint] driveKey = [(endpoint, bytes)] /\
    onGetStreamStatus fmt bytes h = Ret (Some ret) /\
    onStreamStatus fmt true ret =
      match cd_task d with
      | StreamingTask request _ => Some (driveKey, true, sq_streamId request / 256)
      | _ => None
      end.
Proof.
  intros Hk Hd Ht. do 2 eexists. split; [reflexivity|]. split.
  - unfold onGetStreamStatus. rewrite open_new, putKey_bytes. cbn [mbind option_bind].
    rewrite <- (app_nil_r (be_bytes 32 driveKey)), getKey_bytes, of_be_bytes, Hd by (done || apply length_be_bytes). reflexivity.
  - unfold onStreamStatus, getStreamStatus. cbn [negb]. rewrite open_new. cbn [mbind option_bind].
    rewrite putKey_bytes, getKey_bytes, of_be_bytes by (done || apply length_be_bytes). cbn [mbind option_bind].
    destruct (cd_task d) as [|s|request s|type] eqn:Et; cbn [getStreamId putOptional].
    + rewrite <- (app_nil_r (putBool fmt false)), getBool_put. cbn. by rewrite getKey_short by (cbn; lia).
    + rewrite getBool_put. cbn. by rewrite getKey_short by (rewrite putBool_byte; cbn; lia).
    + rewrite getBool_put. cbn [mbind option_bind]. rewrite putBool_byte, putKey_bytes.
      assert ([0] ++ be_bytes 32 (sq_streamId request) =
              (0 :: take 31 (be_bytes 32 (sq_streamId request))) ++ drop 31 (be_bytes 32 (sq_streamId request))) as ->.
      { cbn [app]. by rewrite take_drop. }
      rewrite getKey_bytes; [cbn [mbind option_bind]; by rewrite of_be_shifted by (by eapply Ht)|].
      cbn [length]. by rewrite length_take, length_be_bytes.
    + rewrite getBool_put. cbn. by rewrite getKey_short by (rewrite putBool_byte; cbn; lia).
Qed.

End Status.

(** ** Witnesses *)

Definition idleDrive : CalledDrive := mkCalledDrive NoTask sampleTree sampleNodes ∅ 78.
Definition fourDrives : CalledReplicator := mkCalledReplicator false {[1 := idleDrive; 2 := idleDrive; 4 := idleDrive]}.

(** Two contracts, each with its drive, and calls to a drive without a manual
    modification and to a drive that is not there. *)
Definition twoContracts : list CallEvent :=
  [TaskChanged 1 (NextManual sampleDrive sampleNodes); TaskChanged 2 (NextManual sampleDrive sampleNodes);
   SupercontractCall 1 (InitiateSandboxModifications []); SupercontractCall 2 (InitiateSandboxModifications ["svc"]);
   SupercontractCall 1 (OpenFileRequest (500, 501) WRITE "a"); SupercontractCall 3 (PathExistRequest "a");
   SupercontractCall 4 (PathExistRequest "a"); TaskEvent 1 EvBackground; SupercontractCall 2 (PathExistRequest "a");
   TaskEvent 1 EvSession; SupercontractCall 1 (PathIsFileRequest "docs/readme"); TaskEvent 2 EvTerminate].

Lemma supercontract_answered_witness :
  exists out h', callRun (fun _ => 5000) (fun _ => 99) true 5 sumHash (fun c => Z.of_nat (length c)) (fun _ => 4242)
      twoContracts fourDrives = Ret (out, h') /\
    (answersOf 1 out + owedAt 1 h' = 3)%nat /\ rh_drives h' !! 4 = Some idleDrive.
Proof.
  destruct (callRun (fun _ => 5000) (fun _ => 99) true 5 sumHash (fun c => Z.of_nat (length c)) (fun _ => 4242)
              twoContracts fourDrives) as [[out h']|f] eqn:E; [|vm_compute in E; discriminate E].
  exists out, h'. split; [reflexivity|].
  assert (forall k, manualAt k fourDrives = None) as Hn.
  { intros k. unfold manualAt. destruct (rh_drives fourDrives !! k) as [d|] eqn:Ed; [|done].
    assert (cd_task d = NoTask) as ->; [|done]. revert Ed. unfold fourDrives. cbn [rh_drives].
    rewrite !lookup_insert, lookup_singleton. repeat case_decide; intros [= <-]; done. }
  destruct (supercontract_answered (fun _ => 5000) (fun _ => 99) 5 sumHash (fun c => Z.of_nat (length c)) (fun _ => 4242)
              twoContracts fourDrives out h' eq_refl Hn ltac:(vm_compute; repeat split) E) as [Ha Ho].
  split; [exact (proj1 (Ha 1))|]. vm_compute in E. injection E as <- <-. vm_compute. reflexivity.
Defined.

Definition rawOpen (bytes : list Z) : option (list Z) := match bytes with 1 :: bytes => Some bytes | _ => None end.
Definition rawGetKey (bytes : list Z) : option (Z * list Z) :=
  if (length bytes <? 32)%nat then None else Some (of_be (take 32 bytes), drop 32 bytes).
Definition rawGetBool (bytes : list Z) : option (bool * list Z) :=
  match bytes with [] => None | b :: bytes => Some (negb (b =? 0), bytes) end.

Lemma rawGetKey_bytes bytes rest : length bytes = 32%nat -> rawGetKey (bytes ++ rest) = Some (of_be bytes, rest).
Proof.
  intros Hl. unfold rawGetKey. rewrite length_app, Hl. destruct (Nat.ltb_spec (32 + length rest) 32); [lia|].
  by rewrite take_app_length', drop_app_length'.
Qed.

Lemma rawGetKey_short bytes : (length bytes < 32)%nat -> rawGetKey bytes = None.
Proof. intros Hl. unfold rawGetKey. by apply Nat.ltb_lt in Hl as ->. Qed.

Definition rawFormat : StatusFormat :=
  mkStatusFormat rawOpen [1] (be_bytes 32) rawGetKey (fun b => [if b then 1 else 0]) rawGetBool
    (fun _ => eq_refl) (fun _ => eq_refl) rawGetKey_bytes rawGetKey_short (fun _ => eq_refl)
    (fun b rest => match b with true => eq_refl | false => eq_refl end).

Definition streamingDrive : CalledDrive :=
  mkCalledDrive (StreamingTask (mkStreamRequest 1000 3 "live" 5000) (newStream ∅ sampleNodes)) sampleTree sampleNodes ∅ 78.

(** The drive 9 streams 1000; the viewer is told of the stream 3. *)
Lemma stream_status_told_witness :
  exists bytes ret, requestStreamStatus rawFormat [Some tt] 9 = [(tt, bytes)] /\
    onGetStreamStatus rawFormat bytes (mkCalledReplicator false {[9 := streamingDrive]}) = Ret (Some ret) /\
    onStreamStatus rawFormat true ret = Some (9, true, 3).
Proof.
  apply (stream_status_told rawFormat tt 9 (mkCalledReplicator false {[9 := streamingDrive]}) streamingDrive).
  - unfold is_key. lia.
  - reflexivity.
  - intros request s [= <- _]. unfold is_key. cbn. lia.
Defined.

(** A question that is too short throws out of the handler of the replicator. *)
Example short_question_throws :
  onGetStreamStatus rawFormat [1; 2; 3] (mkCalledReplicator false ∅) = Stop ThrownException.
Proof. reflexivity. Qed.

(** While a drive initializes, nobody is told of its files. *)
Example initializing_drive_is_silent :
  let h := mkCalledReplicator false {[1 := mkCalledDrive (OtherTask DRIVE_INITIALIZATION) sampleTree sampleNodes ∅ 78; 2 := idleDrive]} in
  askDrive 1 (getFileInfo "docs/readme") h = Ret (Some None) /\
  askDrive 2 (getFileInfo "docs/readme") h = Ret (Some (Some (mkFileInfo true 10 3))) /\
  askDrive 3 getFilesystem h = Ret (Some None).
Proof. vm_compute. repeat split. Qed.
