(* ===== verification/LimiterRestart.v ===== *)
(** * Download channels across restarts

    A replicator that is stopped saves its channels
    ([saveDownloadChannelMap], [src/drive/Replicator.cpp]; the archive of a channel is
    [DownloadChannelInfo::serialize], [include/drive/Replicator.h]), and one that starts
    loads them as a backup, of which [addChannelInfo] takes what it needs when the chain
    announces the channel again ([src/drive/DownloadLimiter.h]).  The bytes of the archive
    are cereal's: [encodeChannels] and [decodeChannels]. *)

From S2P Require Import Prelude RcptMessage DownloadChannels DownloadChannelsSpec RestartData.
#[global] Open Scope Z_scope.

(** What the archive of a channel keeps; [now] is the time of the load. *)
Definition archivedChannel (now : Z) (ch : DownloadChannelInfo) : DownloadChannelInfo :=
  mkChannel false (m_prepaidDownloadSize ch) (m_totalReceiptsSize ch) (m_sentClientMap ch)
    (m_replicatorUploadRequestMap ch) (m_driveKey ch) []
    (copyOpinionMapValue now <$> m_downloadOpinionMap ch) (m_clientReceiptMap ch) false.

Definition downloadChannelMapFile : string := "downloadChannelMap".

Section Restart.
  Context (encodeChannels : gmap Z DownloadChannelInfo -> list Z)
    (decodeChannels : Z -> list Z -> gmap Z DownloadChannelInfo * bool).

Definition saveDownloadChannelMap (s : DownloadLimiter) (fs : FileSystem) : FileSystem :=
  saveRestartData downloadChannelMapFile (encodeChannels (dl_dnChannelMap s)) fs.

(** The archive is read twice, into the same map; what was read before an exception stays. *)
Definition loadDownloadChannelMap (now : Z) (fs : FileSystem) (s : DownloadLimiter) : bool * DownloadLimiter :=
  match loadRestartData downloadChannelMapFile fs with
  | None => (false, s)
  | Some data =>
      let '(m, ok) := decodeChannels now data in (ok, set_backup m s)
  end.

(** [start]: the object is new, with the key and the limit of the configuration; the
    drives are added later. *)
Definition startLimiter (now publicKey receiptLimit : Z) (fs : FileSystem) : DownloadLimiter :=
  (loadDownloadChannelMap now fs (mkLimiter publicKey ∅ ∅ receiptLimit ∅ false false)).2.

(** [stopReplicator] and the next [start]. *)
Definition restart (now : Z) (fs : FileSystem) (s : DownloadLimiter) : FileSystem * DownloadLimiter :=
  let fs := saveDownloadChannelMap s fs in
  (fs, startLimiter now (dl_publicKey s) (dl_receiptLimit s) fs).

(** A process that dies does not save. *)
Definition restartAfterDeath (now : Z) (fs : FileSystem) (s : DownloadLimiter) : FileSystem * DownloadLimiter :=
  (fs, startLimiter now (dl_publicKey s) (dl_receiptLimit s) fs).

Context (verify : Z -> list Z -> Z -> bool).

(** The life of a replicator: calls and pieces ([session_step]), its drives, and restarts. *)
Inductive life_step (slack : Z) : FileSystem * DownloadLimiter -> FileSystem * DownloadLimiter -> Prop :=
  | life_session fs s s' : session_step verify slack s s' -> life_step slack (fs, s) (fs, s')
  | life_drives fs s drives : life_step slack (fs, s) (fs, set_drives drives s)
  | life_restart now fs s : life_step slack (fs, s) (restart now fs s).

End Restart.
