(* ===== verification/LimiterRestartSpec.v ===== *)
(** * Properties of the download channels across restarts *)

From S2P Require Import Prelude RcptMessage DownloadChannels DownloadChannelsSpec RestartData RestartDataSpec LimiterRestart.
#[global] Open Scope Z_scope.

(** ** What a channel keeps *)

(** The sizes of a channel are those of its uploads; what was sent is what was accepted, and the limit. *)
Definition safe_channel (our limit slack : Z) (ch : DownloadChannelInfo) : Prop :=
  channel_ok ch /\ served_channel our limit slack ch.

(** The channels, and those that are still only in the backup. *)
Definition safe (our limit slack : Z) (s : DownloadLimiter) : Prop :=
  dl_publicKey s = our /\ dl_receiptLimit s = limit /\
  map_Forall (fun _ => safe_channel our limit slack) (dl_dnChannelMap s) /\
  map_Forall (fun _ => safe_channel our limit slack) (dl_dnChannelMapBackup s).

Section Restart.
  Context (encodeChannels : gmap Z DownloadChannelInfo -> list Z)
    (decodeChannels : Z -> list Z -> gmap Z DownloadChannelInfo * bool).
  Context (verify : Z -> list Z -> Z -> bool).

Abbreviation restart := (restart encodeChannels decodeChannels).
Abbreviation life_step := (life_step encodeChannels decodeChannels verify).

Section Safe.
  Context (decode_encode : forall now m, decodeChannels now (encodeChannels m) = (archivedChannel now <$> m, true)).
  Context (our limit slack : Z).
  Context (Hlimit : 0 <= limit) (Hslack : 0 <= slack).

Notation Safe := (safe our limit slack).

Lemma safe_put id ch s : Safe s -> safe_channel our limit slack ch -> Safe (put_channel id ch s).
Proof. intros (H1 & H2 & H3 & H4) Hc. split_and!; [done..| |done]. by apply map_Forall_insert_2. Qed.

(** An edit outside of the sizes. *)
Lemma safe_edit id ch ch' s :
  Safe s -> dl_dnChannelMap s !! id = Some ch ->
  m_sentClientMap ch' = m_sentClientMap ch -> m_replicatorUploadRequestMap ch' = m_replicatorUploadRequestMap ch ->
  Safe (put_channel id ch' s).
Proof.
  intros Hs Hch E1 E2. apply safe_put; [done|]. destruct Hs as (_ & _ & H3 & _). destruct (H3 _ _ Hch) as [Ho Hv].
  split; [unfold channel_ok in *; by rewrite E2|]. intros peer. unfold accepted_receipt. rewrite E1, E2. apply Hv.
Qed.

Lemma safe_touch id ch k peer (info : UploadInfo) s :
  Safe s -> dl_dnChannelMap s !! id = Some ch -> m_replicatorUploadRequestMap ch !! k = Some info ->
  Safe (put_channel id (put_upload k (touch_client peer info) ch) s).
Proof.
  intros Hs Hch Hi. apply safe_put; [done|]. destruct Hs as (_ & _ & H3 & _). destruct (H3 _ _ Hch) as [Ho Hv]. split.
  - apply channel_ok_put; [done|]. apply touch_client_ok. by eapply Ho.
  - intros p. specialize (Hv p). cbn. rewrite accepted_put. case_decide; [subst|done].
    rewrite client_at_touch. unfold accepted_receipt in Hv. by rewrite Hi in Hv.
Qed.

(** A receipt lowers no accepted size, whatever the total of the channel is. *)
Lemma acceptUploadSize_safe msg ch :
  safe_channel our limit slack ch -> is_u64 (msg_downloadedSize msg) ->
  exists disc err ch', acceptUploadSize msg ch = Ret (disc, err, ch') /\ safe_channel our limit slack ch'.
Proof.
  intros [Hok Hv] Hs. rewrite acceptUploadSize_eq by done.
  destruct (fixed_upload_ok msg ch Hok) as (Hf & _ & HL).
  pose proof (fun c => fixed_upload_accepted msg ch c Hok) as Hmono.
  set (rk := msg_replicatorKey msg) in *. set (ck := msg_clientKey msg) in *. set (f := fixed_upload msg ch) in *.
  destruct (msg_downloadedSize msg <=? largest_receipt ch rk ck) eqn:HsL.
  - do 3 eexists. split; [done|]. split; [by apply channel_ok_put|]. intros p. specialize (Hv p). cbn.
    rewrite accepted_put. case_decide; [subst our; specialize (Hmono p); fold rk in Hmono; lia|done].
  - apply Z.leb_gt in HsL. set (over := _ <? _).
    destruct (new_sizes_ok over msg f Hf Hs) as (Hnok & _ & Hnacc); [rewrite HL; exact HsL|].
    do 3 eexists. split; [done|]. split.
    + apply (channel_ok_put rk _ ch); auto using insert_upload_ok.
    + intros p. specialize (Hv p). cbn. change (accepted_receipt (set_total _ ?c)) with (accepted_receipt c).
      rewrite accepted_put. case_decide; [subst our|done]. specialize (Hmono p). fold rk in Hmono.
      rewrite client_at_insert. case_decide; [subst p; fold ck in Hnacc; lia|lia].
Qed.

Lemma acceptReceiptImpl_safe rands msg s r :
  acceptReceiptImpl verify rands msg s = Ret r -> is_receipt msg -> Safe s -> Safe (rr_state r).
Proof.
  intros E [Hb _] Hs. unfold acceptReceiptImpl in E. destruct (dl_isDestructing s); [by injection E as <-|].
  destruct (dl_dnChannelMap s !! _) as [ch|] eqn:Hch; [|by injection E as <-].
  destruct (m_sentClientMap ch !! _) as [z|]; [|by injection E as <-].
  destruct (negb _); [by injection E as <-|].
  destruct (acceptUploadSize_safe msg ch) as (d & e & ch' & Eu & Hc); [exact (proj1 (proj2 (proj2 Hs)) _ _ Hch)|by apply msg_downloadedSize_range|].
  rewrite Eu in E. cbn [mbind outcome_bind] in E. destruct (saveReceipt _ _) as [receipts fwd].
  injection E as <-. by apply safe_put.
Qed.

Lemma checkDownloadLimit_safe peer id s r e s' :
  checkDownloadLimit peer id s = (r, e, s') -> Safe s -> Safe s'.
Proof.
  unfold checkDownloadLimit, lastAcceptedReceiptSize. intros E Hs. split_cases; try done.
  all: by eapply safe_touch.
Qed.

Lemma insertChannelInfo_safe id size drive shard clients sync now s :
  Safe s -> Safe (insertChannelInfo id size drive shard clients sync now s).
Proof.
  intros Hs. unfold insertChannelInfo. destruct (dl_dnChannelMapBackup s !! id) as [b|] eqn:Eb.
  - assert (safe_channel our limit slack b) as Hb by (exact (proj2 (proj2 (proj2 Hs)) _ _ Eb)).
    match goal with |- Safe (set_backup ?m (put_channel ?i ?c ?s)) =>
      assert (Safe (put_channel i c s)) as (H1 & H2 & H3 & H4) by (apply safe_put; [done|exact Hb]) end.
    split_and!; [done..|]. by apply map_Forall_delete.
  - apply safe_put; [done|]. split.
    + intros k i. cbn. intros Hi. apply (fresh_uploads (dl_publicKey s) shard ∅ (map_Forall_empty _)) in Hi as ->.
      apply map_Forall_empty.
    + intros peer. cbn. set (m := foldl _ _ clients). assert (default 0 (m !! peer) = 0) as ->.
      { destruct (m !! peer) as [n|] eqn:E; [|done]. cbn. revert E. apply (fresh_sent clients ∅ (map_Forall_empty _) peer n). }
      unfold accepted_receipt. cbn [m_replicatorUploadRequestMap]. set (u := foldl _ _ shard).
      destruct (u !! our) as [i|] eqn:E.
      * apply (fresh_uploads (dl_publicKey s) shard ∅ (map_Forall_empty _)) in E as ->.
        rewrite client_at_empty. cbn. lia.
      * rewrite client_at_empty. cbn. lia.
Qed.

Lemma limiter_call_safe s s' : limiter_call verify s s' -> Safe s -> Safe s'.
Proof.
  intros [] Hs.
  - by eapply checkDownloadLimit_safe.
  - match goal with H : addChannelInfo _ _ _ _ _ _ _ _ = _ |- _ => apply addChannelInfo_cases in H as [->|[_ ->]] end; [done|].
    by apply insertChannelInfo_safe.
  - match goal with H : increaseChannelSize _ _ _ = _ |- _ =>
      apply increaseChannelSize_cases in H as [->|(ch & Hch & ->)] end; [done|]. by eapply safe_edit.
  - unfold removeChannelInfo. split_cases; try done. destruct Hs as (H1 & H2 & H3 & H4).
    split_and!; [done..| |done]. by apply map_Forall_delete.
  - match goal with H : setChanelShard _ _ _ = _ |- _ => apply setChanelShard_cases in H as (ch & Hch & ->) end.
    by eapply safe_edit.
  - unfold onPieceRequestReceivedFromReplicator in *. split_cases; exact Hs.
  - unfold onPieceReceived. split_cases; exact Hs.
  - unfold acceptReceipt in *. split_cases; try done.
    eapply acceptReceiptImpl_safe; [done|apply mkRcptMessage_is_receipt|done].
  - unfold onRcptQuery, acceptReceiptFromAnotherReplicator in *.
    destruct (isValidSize packet) eqn:Hv; cbn [negb] in *; split_cases; try done.
    inv_ret. split_cases; try done. inv_ret. by eapply acceptReceiptImpl_safe.
Qed.

(** What the check guarantees about the channel it leaves. *)
Lemma checked_channel peer id s e s' :
  checkDownloadLimit peer id s = (true, e, s') -> Safe s ->
  exists ch, dl_dnChannelMap s' !! id = Some ch /\
    default 0 (m_sentClientMap ch !! peer) <= accepted_receipt ch our peer + limit.
Proof.
  unfold checkDownloadLimit, lastAcceptedReceiptSize. intros E (<- & <- & Hc & _). split_cases.
  - eexists. split; [apply lookup_insert_eq|].
    change (set_uploads (<[?k := ?i]> (m_replicatorUploadRequestMap ?c)) ?c) with (put_upload k i c).
    rewrite accepted_put, decide_True, client_at_touch by done. cbn.
    match goal with H : (_ <? _) = false |- _ => apply Z.ltb_ge in H as Hle end.
    etransitivity; [exact Hle|]. apply u64_le.
    match goal with H : dl_dnChannelMap _ !! _ = Some _, H' : m_replicatorUploadRequestMap _ !! _ = Some _ |- _ =>
      pose proof (client_at_ok peer _ (proj1 (Hc _ _ H) _ _ H')) as [Hu _] end. unfold is_u64 in Hu. lia.
  - eexists. split; [eassumption|].
    match goal with H : (_ <? _) = false |- _ => apply Z.ltb_ge in H as Hle end.
    etransitivity; [exact Hle|]. etransitivity; [by apply u64_le|].
    unfold accepted_receipt. by simplify_map_eq.
Qed.

Lemma session_step_safe s s' : session_step verify slack s s' -> Safe s -> Safe s'.
Proof.
  intros [? ? Hcall|s1 id peer size e s2 Hcheck Hsize] Hs; [by eapply limiter_call_safe|].
  destruct (checked_channel _ _ _ _ _ Hcheck Hs) as (ch & Hch & Hle).
  apply (checkDownloadLimit_safe _ _ _ _ _ _ Hcheck) in Hs.
  unfold onPieceSent. rewrite Hch. split_cases; try done. apply safe_put; [done|].
  destruct Hs as (_ & _ & Hc & _). destruct (Hc _ _ Hch) as [Hok Hv]. split; [done|]. intros p. cbn.
  specialize (Hv p). change (accepted_receipt (set_sent _ ?c)) with (accepted_receipt c).
  destruct (decide (p = peer)) as [->|Hne]; simplify_map_eq; [|exact Hv].
  unfold u64_add. match goal with |- context [u64 ?z] => pose proof (u64_le z) end. lia.
Qed.

(** The archive keeps the sizes. *)
Lemma restart_safe now fs s : Safe s -> Safe (restart now fs s).2.
Proof.
  intros (H1 & H2 & H3 & H4). unfold restart, startLimiter, loadDownloadChannelMap, saveDownloadChannelMap, loadRestartData.
  cbn [snd]. rewrite (proj1 (saved_lookup _ _ _)), decode_encode. cbn. split_and!; [done..|].
  intros id ch. cbn. rewrite lookup_fmap. intros (ch0 & Hch & ->)%fmap_Some. exact (H3 _ _ Hch).
Qed.

Lemma life_safe x y : rtc (life_step slack) x y -> Safe x.2 -> Safe y.2.
Proof.
  induction 1 as [|x1 x2 x3 Hstep _ IH]; intros Hs; [done|]. apply IH. destruct Hstep; cbn [snd] in *.
  - by eapply session_step_safe.
  - exact Hs.
  - by apply restart_safe.
Qed.

End Safe.

(** C19: a client is never sent more than it paid for, but for a bounded credit, however
    often the replicator is stopped and started.  If the session sends a piece only
    after [checkDownloadLimit] allowed it, then in every state that is reached from the
    first start, by calls, pieces and restarts in any order, the replicator has counted
    for every client of every channel at most the size of the last receipt it accepted
    from that client, plus the receipt limit and one piece; and so in the channels that
    it has saved and not yet taken up again. *)
Theorem sent_within_limit_restarts slack fs0 s0 fs s :
  (forall now m, decodeChannels now (encodeChannels m) = (archivedChannel now <$> m, true)) ->
  fresh s0 -> 0 <= dl_receiptLimit s0 -> 0 <= slack -> rtc (life_step slack) (fs0, s0) (fs, s) ->
  forall id ch peer, dl_dnChannelMap s !! id = Some ch \/ dl_dnChannelMapBackup s !! id = Some ch ->
    default 0 (m_sentClientMap ch !! peer) <=
      accepted_receipt ch (dl_publicKey s0) peer + dl_receiptLimit s0 + slack.
Proof.
  intros Hde [E1 E2] Hl Hslack Hsteps id ch peer Hch.
  destruct (life_safe Hde (dl_publicKey s0) (dl_receiptLimit s0) slack Hl Hslack _ _ Hsteps) as (_ & _ & H3 & H4).
  - split_and!; [done..| |]; cbn; rewrite ?E1, ?E2; apply map_Forall_empty.
  - destruct Hch as [Hch|Hch]; [by apply (H3 _ _ Hch)|by apply (H4 _ _ Hch)].
Qed.

(** A restart changes no answer: when the chain has announced the channel again, a client
    is refused or not as before. *)
Lemma restarted_checks_alike now fs s id ch peer size drive shard clients now' :
  (forall now m, decodeChannels now (encodeChannels m) = (archivedChannel now <$> m, true)) ->
  dl_isDestructing s = false -> dl_sessionIsEnding s = false ->
  dl_dnChannelMap s !! id = Some ch -> m_isSynchronizing ch = false ->
  exists s', addChannelInfo id size drive shard clients false now' (restart now fs s).2 = Ret s' /\
    (checkDownloadLimit peer id s').1 = (checkDownloadLimit peer id s).1.
Proof.
  intros Hde Hd He Hch Hsync.
  unfold restart, startLimiter, loadDownloadChannelMap, saveDownloadChannelMap, loadRestartData.
  cbn [snd]. rewrite (proj1 (saved_lookup _ _ _)), Hde. unfold addChannelInfo. cbn [dl_isDestructing set_backup snd].
  cbn [dl_dnChannelMap set_backup]. rewrite lookup_empty. eexists. split; [done|]. unfold insertChannelInfo.
  cbn [dl_dnChannelMapBackup set_backup]. rewrite lookup_fmap, Hch. cbn [fmap option_fmap option_map].
  unfold checkDownloadLimit. rewrite Hd, He, Hch, Hsync. cbn. rewrite lookup_insert_eq. cbn.
  by destruct (m_replicatorUploadRequestMap ch !! dl_publicKey s); cbn; destruct (_ <? _).
Qed.

End Restart.

(** ** Witnesses *)

#[export] Instance ReceiptSizes_eq_dec : EqDecision ReceiptSizes.
Proof. solve_decision. Defined.
#[export] Instance DownloadOpinion_eq_dec : EqDecision DownloadOpinion.
Proof. solve_decision. Defined.
#[export] Instance DownloadOpinionMapValue_eq_dec : EqDecision DownloadOpinionMapValue.
Proof. solve_decision. Defined.
#[export] Instance DownloadChannelInfo_eq_dec : EqDecision DownloadChannelInfo.
Proof. solve_decision. Defined.
#[export] Instance ReceiptSizes_countable : Countable ReceiptSizes.
Proof.
  refine (inj_countable' (fun r => (m_acceptedSize r, m_notAcceptedSize r)) (fun x => mkReceiptSizes x.1 x.2) _).
  by intros [].
Defined.
#[export] Instance DownloadOpinion_countable : Countable DownloadOpinion.
Proof.
  refine (inj_countable' (fun o => (do_replicatorKey o, do_downloadLayout o, do_signature o))
            (fun x => mkDownloadOpinion x.1.1 x.1.2 x.2) _).
  by intros [].
Defined.
#[export] Instance DownloadOpinionMapValue_countable : Countable DownloadOpinionMapValue.
Proof.
  refine (inj_countable' (fun o => (om_eventHash o, om_downloadChannelId o, om_opinions o, om_modifyApproveTransactionSent o,
                                    om_approveTransactionReceived o, om_timer o, om_opinionShareTimer o, om_creationTime o))
            (fun '(a, b, c, d, e, f, g, h) => mkOpinionMapValue a b c d e f g h) _).
  by intros [].
Defined.
#[export] Instance DownloadChannelInfo_countable : Countable DownloadChannelInfo.
Proof.
  refine (inj_countable' (fun c => (m_isSynchronizing c, m_prepaidDownloadSize c, m_totalReceiptsSize c, m_sentClientMap c,
              m_replicatorUploadRequestMap c, m_driveKey c, m_dnReplicatorShard c, m_downloadOpinionMap c,
              m_clientReceiptMap c, m_isClosed c))
            (fun '(a, b, c, d, e, f, g, h, i, j) => mkChannel a b c d e f g h i j) _).
  by intros [].
Defined.

Definition channelsEncode (m : gmap Z DownloadChannelInfo) : list Z := [Z.pos (encode m)].
Definition channelsDecode (now : Z) (data : list Z) : gmap Z DownloadChannelInfo * bool :=
  match data with
  | [Z.pos p] => match decode p with Some m => (archivedChannel now <$> m, true) | None => (∅, false) end
  | _ => (∅, false)
  end.

Lemma channelsDecode_encode now m : channelsDecode now (channelsEncode m) = (archivedChannel now <$> m, true).
Proof. unfold channelsDecode, channelsEncode. by rewrite decode_encode. Qed.

(** A piece was sent; then the replicator is stopped, started, and the channel announced. *)
Definition pieceSent : DownloadLimiter := onPieceSent 9 7 16384 (checkDownloadLimit 7 9 sampleAdd).2.
Definition announce : DownloadLimiter -> DownloadLimiter := insertChannelInfo 9 100 50 [1; 2; 3] [7] false 0.

Lemma restarted_state now fs s :
  (restart channelsEncode channelsDecode now fs s).2 =
  mkLimiter (dl_publicKey s) ∅ (archivedChannel now <$> dl_dnChannelMap s) (dl_receiptLimit s) ∅ false false.
Proof.
  unfold restart, startLimiter, loadDownloadChannelMap, saveDownloadChannelMap, loadRestartData.
  cbn [snd]. by rewrite (proj1 (saved_lookup _ _ _)), channelsDecode_encode.
Qed.

Lemma sent_within_limit_restarts_witness : exists fs s ch,
  rtc (life_step channelsEncode channelsDecode (fun _ _ _ => true) 16384) (∅, freshLimiter) (fs, s) /\
  dl_dnChannelMap s !! 9 = Some ch /\ m_sentClientMap ch !! 7 = Some 16384 /\
  default 0 (m_sentClientMap ch !! 7) <= accepted_receipt ch 1 7 + 1000 + 16384.
Proof.
  destruct (restart channelsEncode channelsDecode 5 ∅ pieceSent) as [fs s] eqn:Er.
  pose proof (restarted_state 5 ∅ pieceSent) as Hs. rewrite Er in Hs. cbn [snd] in Hs.
  assert (rtc (life_step channelsEncode channelsDecode (fun _ _ _ => true) 16384) (∅, freshLimiter) (fs, announce s)) as Hr.
  { eapply rtc_l; [eapply life_session, session_call, (call_add _ freshLimiter 9 100 50 [1; 2; 3] [7] false 0 sampleAdd eq_refl)|].
    eapply rtc_l.
    { eapply life_session, (session_serve _ _ sampleAdd 9 7 16384 (Some no_error) (checkDownloadLimit 7 9 sampleAdd).2);
        [vm_compute; reflexivity|lia]. }
    eapply rtc_l; [apply (life_restart _ _ _ _ 5)|]. fold pieceSent. rewrite Er.
    apply rtc_once, life_session, session_call, (call_add _ s 9 100 50 [1; 2; 3] [7] false 0).
    unfold addChannelInfo. subst s. by cbn [dl_isDestructing dl_dnChannelMap]. }
  destruct (dl_dnChannelMap (announce s) !! 9) as [ch|] eqn:Ech; [|subst s; vm_compute in Ech; discriminate Ech].
  exists fs, (announce s), ch. split; [exact Hr|]. split; [exact Ech|]. split.
  - subst s. vm_compute in Ech. injection Ech as <-. vm_compute. reflexivity.
  - apply (sent_within_limit_restarts channelsEncode channelsDecode (fun _ _ _ => true) 16384 ∅ freshLimiter fs (announce s)
             channelsDecode_encode) with (id := 9); [split; reflexivity|cbn; lia|lia|exact Hr|left; exact Ech].
Defined.

(** Before the restart the client is refused until it signs another receipt, and after it
    too.  Two restarts without an announcement in between lose the channel: what is only
    in the backup is not saved.  A process that dies saves nothing.  In both cases the
    client gets the credit again. *)
Example credit_after_restarts :
  let refused s := (checkDownloadLimit 7 9 s).1 = (false, Some sirius_receipt_size_too_small) in
  let '(fs, once) := restart channelsEncode channelsDecode 5 ∅ pieceSent in
  let '(_, twice) := restart channelsEncode channelsDecode 6 fs once in
  let '(_, died) := restartAfterDeath channelsDecode 5 ∅ pieceSent in
  refused pieceSent /\ refused (announce once) /\
  (checkDownloadLimit 7 9 (announce twice)).1 = (true, Some no_error) /\
  (checkDownloadLimit 7 9 (announce died)).1 = (true, Some no_error).
Proof.
  cbv zeta. destruct (restart channelsEncode channelsDecode 5 ∅ pieceSent) as [fs once] eqn:E1.
  pose proof (restarted_state 5 ∅ pieceSent) as H1. rewrite E1 in H1. cbn [snd] in H1.
  destruct (restart channelsEncode channelsDecode 6 fs once) as [fs2 twice] eqn:E2.
  pose proof (restarted_state 6 fs once) as H2. rewrite E2 in H2. cbn [snd] in H2. clear E1 E2. subst.
  destruct (restartAfterDeath channelsDecode 5 ∅ pieceSent) as [fs3 died] eqn:E3. vm_compute in E3. injection E3 as <- <-.
  vm_compute. repeat split.
Qed.
