(* ===== verification/Messenger.v ===== *)
(** * The messenger

    Other programs send and receive messages of the network through a replicator
    ([messenger-server/src]): each opens a stream of gRPC, subscribes to tags and sends
    messages, and the replicator hands it every message that comes with one of its tags
    ([src/drive/Replicator.cpp]).

    gRPC completes what it was asked for: a new stream, a read, a write.  A completion
    is posted to the session thread ([StartRPCTag], [ReadRPCTag], [WriteRPCTag]); it is an
    event here.  The shared and weak pointers are followed where they matter: a
    [StreamContextKeeper] lives as long as it is in [m_connections], and the readers and
    writers hold it weakly.  The reader and the writer of a stream are named by the
    number of the stream; a writer, once made, is held by whoever may still call it. *)

From S2P Require Import Prelude RcptMessage OrderedMap FlatDrive Endpoints Replicator.
#[global] Open Scope Z_scope.

Record InputMessage := mkInputMessage { im_tag : string; im_data : list Z }.

#[export] Instance input_message_eq_dec : EqDecision InputMessage.
Proof. solve_decision. Defined.

(** What a client says; a message of gRPC may have neither. *)
Inductive ClientMessage :=
  | Subscribe (tag : string)
  | Output (receiver : list Z) (tag : string) (content : list Z)
  | NoClientMessage.

Record MessageWriter := mkWriter { mw_messages : list InputMessage; mw_writeIsRunning : bool }.

(** The replicator and the server together. *)
Record MessengerHost := mkHost {
  mh_isDestructing : bool;
  mh_endpoints : EndpointsManager;
  mh_messageSubscribers : gmap string nat;
  mh_server : bool;                    (* the server is not destroyed *)
  mh_connectionsCreated : nat;
  mh_connections : gmap nat bool;      (* [m_connectionManagerStopped] *)
  mh_reading : gset nat;               (* the readers that wait for gRPC *)
  mh_writers : gmap nat MessageWriter }.

Inductive MessengerOut :=
  | AcceptStream                        (* [RequestCommunicate] *)
  | ReadStream (id : nat)
  | WriteStream (id : nat) (message : InputMessage)
  | FinishStream (id : nat)
  | SentTo (query : string) (to : Endpoint) (message : list Z).

Notation MessengerResult := (Outcome (list MessengerOut * MessengerHost)).

Definition set_subscribers (v : gmap string nat) (h : MessengerHost) : MessengerHost :=
  mkHost (mh_isDestructing h) (mh_endpoints h) v (mh_server h) (mh_connectionsCreated h) (mh_connections h)
    (mh_reading h) (mh_writers h).
Definition set_connections (v : gmap nat bool) (h : MessengerHost) : MessengerHost :=
  mkHost (mh_isDestructing h) (mh_endpoints h) (mh_messageSubscribers h) (mh_server h) (mh_connectionsCreated h) v
    (mh_reading h) (mh_writers h).
Definition set_reading (v : gset nat) (h : MessengerHost) : MessengerHost :=
  mkHost (mh_isDestructing h) (mh_endpoints h) (mh_messageSubscribers h) (mh_server h) (mh_connectionsCreated h)
    (mh_connections h) v (mh_writers h).
Definition set_writers (v : gmap nat MessageWriter) (h : MessengerHost) : MessengerHost :=
  mkHost (mh_isDestructing h) (mh_endpoints h) (mh_messageSubscribers h) (mh_server h) (mh_connectionsCreated h)
    (mh_connections h) (mh_reading h) v.
Definition set_endpoints (v : EndpointsManager) (h : MessengerHost) : MessengerHost :=
  mkHost (mh_isDestructing h) v (mh_messageSubscribers h) (mh_server h) (mh_connectionsCreated h)
    (mh_connections h) (mh_reading h) (mh_writers h).
Definition put_writer (id : nat) (w : MessageWriter) (h : MessengerHost) : MessengerHost :=
  set_writers (<[id := w]> (mh_writers h)) h.

(** ** The streams *)

(** The keeper of a stream can be locked, and its server is not being destroyed. *)
Definition working (id : nat) (h : MessengerHost) : bool :=
  match mh_connections h !! id with Some stopped => negb stopped | None => false end.

(** [onConnectionBroken]: the keeper is destroyed, and finishes its stream. *)
Definition onConnectionBroken (id : nat) (h : MessengerHost) : list MessengerOut * MessengerHost :=
  (if working id h then [FinishStream id] else [], set_connections (delete id (mh_connections h)) h).

(** [onConnectionBrokenDetected] of a keeper that was locked. *)
Definition onConnectionBrokenDetected (id : nat) (h : MessengerHost) : list MessengerOut * MessengerHost :=
  match mh_connections h !! id with
  | Some true => onConnectionBroken id h
  | _ => ([], h)
  end.

(** [MessageReader::read]. *)
Definition read (id : nat) (h : MessengerHost) : list MessengerOut * MessengerHost :=
  if working id h then ([ReadStream id], set_reading ({[id]} ∪ mh_reading h) h) else ([], h).

(** [MessageWriter::write]; there is no first message of an empty queue. *)
Definition write (id : nat) (w : MessageWriter) (h : MessengerHost) : MessengerResult :=
  if working id h then
    match mw_messages w with
    | [] => Stop UndefinedBehaviour
    | message :: rest => Ret ([WriteStream id message], put_writer id (mkWriter rest true) h)
    end
  else Ret ([], put_writer id w h).

(** [MessageWriter::onMessageReceived]: whether the message is taken. *)
Definition writerReceives (id : nat) (message : InputMessage) (h : MessengerHost)
    : Outcome (bool * list MessengerOut * MessengerHost) :=
  match mh_connections h !! id, mh_writers h !! id with
  | None, _ => Ret (false, [], h)
  | Some _, None => Stop UndefinedBehaviour
  | Some _, Some w =>
      let w := mkWriter (mw_messages w ++ [message]) (mw_writeIsRunning w) in
      if mw_writeIsRunning w then Ret (true, [], put_writer id w h)
      else '(out, h) ← write id w h; Ret (true, out, h)
  end.

(** [MessageWriter::onWritten]. *)
Definition onWritten (id : nat) (ok : bool) (h : MessengerHost) : MessengerResult :=
  match mh_writers h !! id with
  | None => Stop UndefinedBehaviour
  | Some w =>
      let w := mkWriter (mw_messages w) false in
      if ok then
        match mw_messages w with
        | [] => Ret ([], put_writer id w h)
        | _ => write id w h
        end
      else if working id h then Ret (onConnectionBrokenDetected id (put_writer id w h))
      else Ret ([], put_writer id w h)
  end.

(** ** The replicator *)

(** [subscribe]. *)
Definition subscribe (tag : string) (id : nat) (h : MessengerHost) : MessengerHost :=
  set_subscribers (<[tag := id]> (mh_messageSubscribers h)) h.

(** [sendMessage] of the messenger: the key is read from the bytes of the receiver,
    whatever their number. *)
Definition sendOutputMessage (receiver : list Z) (tag : string) (content : list Z) (h : MessengerHost)
    : Outcome (list MessengerOut) :=
  if (length receiver <? 32)%nat then Stop UndefinedBehaviour
  else Ret (match sendMessage (mh_isDestructing h) tag (of_be (take 32 receiver)) content (mh_endpoints h) with
            | Some (to, message) => [SentTo tag to message]
            | None => []
            end).

(** The queries that [on_dht_request] passes to [onMessageReceived], and that this
    handles itself. *)
Definition supportedQueries : list string :=
  ["opinion"; "dn_opinion"; "code_verify"; "verify_opinion"; "handshake"; "endpoint_request"; "endpoint_response"; "chunk-info"]%string.

(** A query that a client has subscribed to: [onMessageReceived] for any other query. *)
Definition subscriberMessage (query : string) (message : list Z) (h : MessengerHost) : MessengerResult :=
  match mh_messageSubscribers h !! query with
  | None => Ret ([], h)
  | Some id =>
      '(enqueued, out, h) ← writerReceives id (mkInputMessage query message) h;
      Ret (out, if (enqueued : bool) then h else set_subscribers (delete query (mh_messageSubscribers h)) h)
  end.

(** [on_dht_request], as far as the subscribers are concerned: whether it passes the
    message to one. *)
Definition isSubscribed (query : string) (h : MessengerHost) : bool :=
  negb (mh_isDestructing h) && bool_decide (query ∉ supportedQueries) &&
  bool_decide (is_Some (mh_messageSubscribers h !! query)).

Definition messengerQuery (query : string) (message : list Z) (h : MessengerHost) : MessengerResult :=
  if isSubscribed query h then subscriberMessage query message h else Ret ([], h).

(** [MessageReader::onRead]; the reader asks again while its stream works. *)
Definition onRead (id : nat) (message : option ClientMessage) (h : MessengerHost) : MessengerResult :=
  let h := set_reading (mh_reading h ∖ {[id]}) h in
  match message with
  | None => if working id h then Ret (onConnectionBrokenDetected id h) else Ret ([], h)
  | Some (Subscribe tag) =>
      let h := match mh_writers h !! id with Some _ => h | None => put_writer id (mkWriter [] false) h end in
      Ret (read id (subscribe tag id h))
  | Some (Output receiver tag content) =>
      out ← sendOutputMessage receiver tag content h;
      let '(asked, h) := read id h in Ret (out ++ asked, h)
  | Some NoClientMessage => Ret (read id h)
  end.

(** ** The server *)

(** [StartRPCTag::process] and [onConnectionEstablished]. *)
Definition onStarted (ok : bool) (h : MessengerHost) : list MessengerOut * MessengerHost :=
  if ok && mh_server h then
    let id := mh_connectionsCreated h in
    let h := mkHost (mh_isDestructing h) (mh_endpoints h) (mh_messageSubscribers h) true (S id)
               (<[id := false]> (mh_connections h)) (mh_reading h) (mh_writers h) in
    let '(asked, h) := read id h in (asked ++ [AcceptStream], h)
  else ([], h).

(** [stop] of the replicator destroys the server: the keepers are told to stop, so that
    they do not finish their streams. *)
Definition stopMessenger (h : MessengerHost) : MessengerHost :=
  mkHost true (mh_endpoints h) (mh_messageSubscribers h) false (mh_connectionsCreated h) ∅ (mh_reading h) (mh_writers h).

(** A new replicator, after [run] of its server. *)
Definition newMessenger (endpoints : EndpointsManager) : MessengerHost :=
  mkHost false endpoints ∅ true 0 ∅ ∅ ∅.

Inductive MessengerEvent :=
  | EvStarted (ok : bool)
  | EvRead (id : nat) (message : option ClientMessage)
  | EvWritten (id : nat) (ok : bool)
  | EvQuery (query : string) (message : list Z)
  | EvEndpoints (endpoints : EndpointsManager)     (* the addresses have changed *)
  | EvStop.

Definition messenger_step (e : MessengerEvent) (h : MessengerHost) : MessengerResult :=
  match e with
  | EvStarted ok => Ret (onStarted ok h)
  | EvRead id message => onRead id message h
  | EvWritten id ok => onWritten id ok h
  | EvQuery query message => messengerQuery query message h
  | EvEndpoints endpoints => Ret ([], set_endpoints endpoints h)
  | EvStop => Ret ([], stopMessenger h)
  end.

Fixpoint messenger_run (es : list MessengerEvent) (h : MessengerHost) : MessengerResult :=
  match es with
  | [] => Ret ([], h)
  | e :: es =>
      '(out, h) ← messenger_step e h;
      '(out', h) ← messenger_run es h;
      Ret (out ++ out', h)
  end.

(** ** The queries of the network *)

Section Queries.
  Context {T : Type} `{DriveTask T}.
  Context (sg : Signatures) (ar : Archives) (verifyCodeTimerDelay : Z).

(** [on_dht_request] with subscribers: they come before every query but the supported ones. *)
Definition on_dht_request_subscribed (ms : Z) (rands : list nat) (query : string) (x sign : list Z)
    (h : MessengerHost) (r : DefaultReplicator T)
    : Outcome (Response * list MessengerOut * list ReplicatorOutput * MessengerHost * DefaultReplicator T) :=
  if isSubscribed query h then
    '(out, h) ← subscriberMessage query x h; Ret (Ok, out, [], h, r)
  else
    '(response, out, r) ← on_dht_request sg ar verifyCodeTimerDelay ms rands query x sign r;
    Ret (response, [], out, h, r).

End Queries.
