(* ===== verification/MessengerSpec.v ===== *)
(** * Properties of the messenger *)

From S2P Require Import Prelude RcptMessage OrderedMap FlatDrive Endpoints Replicator Messenger.
#[global] Open Scope Z_scope.

(** ** Topics, the abstract messenger *)

(** Who has subscribed to what, last, and what everybody is sent. *)
Record Topics := mkTopics { tp_open : bool; tp_topics : gmap string nat; tp_inbox : list (nat * InputMessage) }.

Definition noTopics : Topics := mkTopics true ∅ [].

(** Whom a message of the network is for. *)
Definition addressed (e : MessengerEvent) (isOpen : bool) (topics : gmap string nat) : list (nat * InputMessage) :=
  match e with
  | EvQuery query message =>
      if isOpen && bool_decide (query ∉ supportedQueries) then
        match topics !! query with Some id => [(id, mkInputMessage query message)] | None => [] end
      else []
  | _ => []
  end.

Definition topic_step (t : Topics) (e : MessengerEvent) : Topics :=
  mkTopics (match e with EvStop => false | _ => tp_open t end)
    (match e with EvRead id (Some (Subscribe tag)) => <[tag := id]> (tp_topics t) | _ => tp_topics t end)
    (tp_inbox t ++ addressed e (tp_open t) (tp_topics t)).

Definition to_client (id : nat) (p : nat * InputMessage) : option InputMessage :=
  if decide (p.1 = id) then Some p.2 else None.
Definition inboxOf (id : nat) (l : list (nat * InputMessage)) : list InputMessage := omap (to_client id) l.

(** ** What the messenger does *)

Definition write_to (id : nat) (o : MessengerOut) : option InputMessage :=
  match o with WriteStream id' m => if decide (id' = id) then Some m else None | _ => None end.
Definition writesTo (id : nat) (out : list MessengerOut) : list InputMessage := omap (write_to id) out.

Definition waiting (id : nat) (h : MessengerHost) : list InputMessage := from_option mw_messages [] (mh_writers h !! id).
Definition writing (id : nat) (h : MessengerHost) : bool := from_option mw_writeIsRunning false (mh_writers h !! id).

(** gRPC completes what was asked for, and a client that sends names a receiver. *)
Definition permitted (e : MessengerEvent) (h : MessengerHost) : Prop :=
  match e with
  | EvRead id message =>
      id ∈ mh_reading h /\ match message with Some (Output receiver _ _) => (32 <= length receiver)%nat | _ => True end
  | EvWritten id _ => writing id h = true
  | _ => True
  end.

Fixpoint respects (es : list MessengerEvent) (h : MessengerHost) : Prop :=
  match es with
  | [] => True
  | e :: es => permitted e h /\ match messenger_step e h with Ret (_, h) => respects es h | Stop _ => True end
  end.

Definition completion (id : nat) (e : MessengerEvent) : nat :=
  match e with EvWritten id' _ => if decide (id' = id) then 1 else 0 | _ => 0 end.
Definition completions (id : nat) (es : list MessengerEvent) : nat := list_sum (map (completion id) es).

(** ** The invariant *)

Record messenger_inv (h : MessengerHost) : Prop := {
  mi_server : mh_server h = negb (mh_isDestructing h);
  mi_connections id : mh_connections h !! id =
    if decide (mh_isDestructing h = false /\ (id < mh_connectionsCreated h)%nat) then Some false else None;
  mi_reading id : id ∈ mh_reading h -> (id < mh_connectionsCreated h)%nat;
  mi_writers id : is_Some (mh_writers h !! id) -> (id < mh_connectionsCreated h)%nat;
  mi_subscribers tag id : mh_messageSubscribers h !! tag = Some id -> is_Some (mh_writers h !! id) }.

Lemma inv_working id h :
  messenger_inv h -> working id h = negb (mh_isDestructing h) && bool_decide (id < mh_connectionsCreated h)%nat.
Proof.
  intros Hi. unfold working. rewrite (mi_connections h Hi). case_decide as Hd.
  - destruct Hd as [-> Hl]. by rewrite bool_decide_eq_true_2.
  - destruct (mh_isDestructing h); [done|]. rewrite bool_decide_eq_false_2; [done|naive_solver].
Qed.

Lemma writer_put id w h k : mh_writers (put_writer id w h) !! k = if decide (k = id) then Some w else mh_writers h !! k.
Proof. cbn. case_decide as Hk; [subst; by rewrite lookup_insert_eq|by rewrite lookup_insert_ne]. Qed.

Lemma inv_put id w h : messenger_inv h -> (id < mh_connectionsCreated h)%nat -> messenger_inv (put_writer id w h).
Proof.
  intros [H1 H2 H3 H4 H5] Hl. split; [done..| |].
  - intros k. rewrite writer_put. destruct (decide (k = id)) as [->|Hk]; [intros _; exact Hl|apply H4].
  - intros tag k Ht. rewrite writer_put. destruct (decide (k = id)); [done|exact (H5 _ _ Ht)].
Qed.

Lemma waiting_put id w h k : waiting k (put_writer id w h) = if decide (k = id) then mw_messages w else waiting k h.
Proof. unfold waiting. rewrite writer_put. by case_decide. Qed.

Lemma writing_put id w h k : writing k (put_writer id w h) = if decide (k = id) then mw_writeIsRunning w else writing k h.
Proof. unfold writing. rewrite writer_put. by case_decide. Qed.

Lemma writesTo_map k id messages : writesTo k (map (WriteStream id) messages) = if decide (k = id) then messages else [].
Proof.
  unfold writesTo. induction messages as [|m l IH]; cbn; [by case_decide|]. rewrite IH.
  destruct (decide (k = id)) as [->|Hne]; [by rewrite decide_True|by rewrite decide_False].
Qed.

(** A writer is changed: it writes what [messages] it has in their order, at most one at
    a time, and stops only when there is none or its stream does not work. *)
Definition advanced (id : nat) (messages : list InputMessage) (was : bool) (h : MessengerHost)
    (out : list MessengerOut) (h' : MessengerHost) : Prop :=
  exists w written, h' = put_writer id w h /\ out = map (WriteStream id) written /\
    written ++ mw_messages w = messages /\ (length written + Nat.b2n was = Nat.b2n (mw_writeIsRunning w))%nat /\
    (working id h = true -> mw_writeIsRunning w = false -> mw_messages w = []).

Lemma write_advances id w h :
  mw_messages w <> [] -> mw_writeIsRunning w = false ->
  exists out h', write id w h = Ret (out, h') /\ advanced id (mw_messages w) false h out h'.
Proof.
  intros Hm Hr. unfold write, advanced. destruct (working id h) eqn:Hw.
  - destruct (mw_messages w) as [|m rest]; [done|]. do 2 eexists. split; [done|]. by exists (mkWriter rest true), [m].
  - do 2 eexists. split; [done|]. exists w, []. rewrite Hr. by split_and!.
Qed.

Lemma receives_advances id message h :
  is_Some (mh_connections h !! id) -> is_Some (mh_writers h !! id) ->
  exists out h', writerReceives id message h = Ret (true, out, h') /\
    advanced id (waiting id h ++ [message]) (writing id h) h out h'.
Proof.
  intros [stopped Hc] [w Hw]. unfold writerReceives, waiting, writing. rewrite Hc, Hw. cbn.
  destruct (mw_writeIsRunning w) eqn:Hr; cbn.
  - do 2 eexists. split; [done|]. by exists (mkWriter (mw_messages w ++ [message]) true), [].
  - destruct (write_advances id (mkWriter (mw_messages w ++ [message]) false) h) as (out & h' & E & Ha);
      [by destruct (mw_messages w)|done|].
    rewrite E. cbn. do 2 eexists. split; [done|]. exact Ha.
Qed.

Lemma written_advances id ok h :
  writing id h = true ->
  exists out h', onWritten id ok h = Ret (out, h') /\
    if (ok : bool) then advanced id (waiting id h) false h out h'
    else out = [] /\ h' = put_writer id (mkWriter (waiting id h) false) h.
Proof.
  intros Hr. unfold onWritten, waiting, writing in *. destruct (mh_writers h !! id) as [w|] eqn:Hw; [|done]. cbn in *.
  destruct ok.
  - destruct (mw_messages w) as [|m rest] eqn:Hm.
    + do 2 eexists. split; [done|]. by exists (mkWriter [] false), [].
    + apply (write_advances id (mkWriter (m :: rest) false) h); done.
  - do 2 eexists. split; [|split; reflexivity]. destruct (working id h) eqn:Hk; [|done].
    unfold onConnectionBrokenDetected. unfold working in Hk. cbn. by destruct (mh_connections h !! id) as [[]|].
Qed.

(** ** One event *)

(** What an event does to the streams, and to the abstract messenger. *)
Record stepped (e : MessengerEvent) (h : MessengerHost) (out : list MessengerOut) (h' : MessengerHost) : Prop := {
  st_inv : messenger_inv h';
  st_destructing : mh_isDestructing h' = match e with EvStop => true | _ => mh_isDestructing h end;
  st_created : (mh_connectionsCreated h <= mh_connectionsCreated h')%nat;
  st_finish k : FinishStream k ∉ out;
  st_topics : mh_messageSubscribers h' =
    match e with EvRead id (Some (Subscribe tag)) => <[tag := id]> (mh_messageSubscribers h) | _ => mh_messageSubscribers h end;
  st_messages k : writesTo k out ++ waiting k h' =
    waiting k h ++ inboxOf k (addressed e (negb (mh_isDestructing h)) (mh_messageSubscribers h));
  st_one k : (length (writesTo k out) + Nat.b2n (writing k h) = Nat.b2n (writing k h') + completion k e)%nat;
  st_busy k : mh_isDestructing h' = false -> e <> EvWritten k false ->
    (writing k h = false -> waiting k h = []) -> writing k h' = false -> waiting k h' = [] }.

(** An event that leaves the writers as they are. *)
Lemma quiet_step e h out h' :
  messenger_inv h' ->
  mh_isDestructing h' = match e with EvStop => true | _ => mh_isDestructing h end ->
  (mh_connectionsCreated h <= mh_connectionsCreated h')%nat ->
  mh_messageSubscribers h' =
    match e with EvRead id (Some (Subscribe tag)) => <[tag := id]> (mh_messageSubscribers h) | _ => mh_messageSubscribers h end ->
  (forall k, waiting k h' = waiting k h /\ writing k h' = writing k h /\ completion k e = 0%nat /\ writesTo k out = [] /\ FinishStream k ∉ out) ->
  addressed e (negb (mh_isDestructing h)) (mh_messageSubscribers h) = [] ->
  stepped e h out h'.
Proof.
  intros Hi Hd Hc Ht Hw Ha. split; try done.
  - intros k. apply Hw.
  - intros k. destruct (Hw k) as (E1 & _ & _ & E2 & _). rewrite E1, E2, Ha. cbn. by rewrite app_nil_r.
  - intros k. destruct (Hw k) as (_ & E1 & E2 & E3 & _). rewrite E1, E2, E3. cbn. lia.
  - intros k _ _. destruct (Hw k) as (E1 & E2 & _). by rewrite E1, E2.
Qed.

Lemma idle_step e h h' :
  messenger_inv h' ->
  mh_isDestructing h' = match e with EvStop => true | _ => mh_isDestructing h end ->
  (mh_connectionsCreated h <= mh_connectionsCreated h')%nat ->
  mh_messageSubscribers h' =
    match e with EvRead id (Some (Subscribe tag)) => <[tag := id]> (mh_messageSubscribers h) | _ => mh_messageSubscribers h end ->
  (forall k, waiting k h' = waiting k h /\ writing k h' = writing k h /\ completion k e = 0%nat) ->
  addressed e (negb (mh_isDestructing h)) (mh_messageSubscribers h) = [] ->
  stepped e h [] h'.
Proof.
  intros Hi Hd Hc Ht Hw Ha. apply quiet_step; try done. intros k. destruct (Hw k) as (E1 & E2 & E3).
  split_and!; try done. apply not_elem_of_nil.
Qed.

(** An event that changes one writer. *)
Lemma advanced_step e id messages was h out h' :
  messenger_inv h -> (id < mh_connectionsCreated h)%nat ->
  match e with EvQuery _ _ | EvWritten _ true => True | _ => False end ->
  advanced id messages was h out h' ->
  messages = waiting id h ++ inboxOf id (addressed e (negb (mh_isDestructing h)) (mh_messageSubscribers h)) ->
  (forall k, k <> id -> inboxOf k (addressed e (negb (mh_isDestructing h)) (mh_messageSubscribers h)) = [] /\ completion k e = 0%nat) ->
  (Nat.b2n (writing id h) = Nat.b2n was + completion id e)%nat ->
  stepped e h out h'.
Proof.
  intros Hi Hl He (w & written & -> & -> & Hm & Hn & Hb) Em Ho Hc. split.
  - by apply inv_put.
  - by destruct e.
  - done.
  - intros k Hk. apply list_elem_of_In, in_map_iff in Hk as (m & [=] & _).
  - by destruct e.
  - intros k. rewrite writesTo_map, waiting_put. destruct (decide (k = id)) as [->|Hne]; [by rewrite Hm|].
    by rewrite (proj1 (Ho k Hne)), app_nil_r.
  - intros k. rewrite writesTo_map, writing_put. destruct (decide (k = id)) as [->|Hne]; [lia|].
    rewrite (proj2 (Ho k Hne)). cbn. lia.
  - intros k Hd _. rewrite writing_put, waiting_put. destruct (decide (k = id)) as [->|Hne]; [|done].
    intros _. apply Hb. rewrite inv_working by done. cbn in Hd. rewrite Hd. cbn. by apply bool_decide_eq_true.
Qed.

Lemma read_inv id h : messenger_inv h -> (id < mh_connectionsCreated h)%nat -> messenger_inv (read id h).2.
Proof.
  intros [H1 H2 H3 H4 H5] Hl. unfold read. destruct (working id h); split; try done.
  cbn. intros k. rewrite elem_of_union, elem_of_singleton. intros [->|Hk]; auto.
Qed.

Lemma read_step e id h h0 pre post :
  messenger_inv h0 -> (id < mh_connectionsCreated h0)%nat ->
  mh_isDestructing h0 = mh_isDestructing h -> (mh_connectionsCreated h <= mh_connectionsCreated h0)%nat ->
  mh_messageSubscribers h0 =
    match e with EvRead id (Some (Subscribe tag)) => <[tag := id]> (mh_messageSubscribers h) | _ => mh_messageSubscribers h end ->
  (forall k, waiting k h0 = waiting k h /\ writing k h0 = writing k h /\ writesTo k pre = [] /\ writesTo k post = [] /\
     FinishStream k ∉ pre /\ FinishStream k ∉ post) ->
  match e with EvRead _ _ | EvStarted _ => True | _ => False end ->
  stepped e h (pre ++ (read id h0).1 ++ post) (read id h0).2.
Proof.
  intros Hi Hl Hd Hc Ht Hw He.
  assert (forall (f : MessengerHost -> Prop), f h0 -> f (set_reading ({[id]} ∪ mh_reading h0) h0) -> f (read id h0).2) as Hr.
  { intros f. unfold read. by destruct (working id h0). }
  apply quiet_step.
  - by apply read_inv.
  - apply (Hr (fun x => mh_isDestructing x = _)); cbn; rewrite Hd; by destruct e.
  - by apply (Hr (fun x => (_ <= mh_connectionsCreated x)%nat)).
  - by apply (Hr (fun x => mh_messageSubscribers x = _)).
  - intros k. destruct (Hw k) as (E1 & E2 & E3 & E4 & E5 & E6). split_and!.
    + by apply (Hr (fun x => waiting k x = _)).
    + by apply (Hr (fun x => writing k x = _)).
    + by destruct e.
    + unfold writesTo in *. rewrite !omap_app, E3, E4. unfold read. by destruct (working id h0).
    + rewrite !not_elem_of_app. split_and!; [done| |done]. unfold read.
      destruct (working id h0); cbn; rewrite ?elem_of_cons; by intros [|?%elem_of_nil] || by intros ?%elem_of_nil.
  - by destruct e.
Qed.

Lemma reading_inv s h : messenger_inv h -> s ⊆ mh_reading h -> messenger_inv (set_reading s h).
Proof. intros [H1 H2 H3 H4 H5] Hs. split; try done. cbn. intros k Hk. by apply H3, Hs. Qed.

Lemma started_ok ok h : messenger_inv h -> stepped (EvStarted ok) h (onStarted ok h).1 (onStarted ok h).2.
Proof.
  intros Hi. unfold onStarted. destruct (ok && mh_server h) eqn:E; [|by apply idle_step].
  apply andb_true_iff in E as [_ Hs]. set (h1 := mkHost _ _ _ _ _ _ _ _).
  rewrite (surjective_pairing (read _ h1)). cbn [fst snd].
  change ((read (mh_connectionsCreated h) h1).1 ++ [AcceptStream])
    with ([] ++ (read (mh_connectionsCreated h) h1).1 ++ [AcceptStream]).
  apply read_step; try done; cbn; [|lia|lia|].
  - pose proof (mi_server h Hi) as Hd. rewrite Hs in Hd. symmetry in Hd. apply negb_true_iff in Hd.
    destruct Hi as [H1 H2 H3 H4 H5]. split; cbn.
    + by rewrite Hd.
    + intros k. destruct (decide (k = mh_connectionsCreated h)) as [->|Hne].
      * rewrite lookup_insert_eq, decide_True; [done|]. split; [done|lia].
      * rewrite lookup_insert_ne, H2 by done. apply decide_ext. split; intros []; split; (done || lia).
    + intros k Hk%H3. lia.
    + intros k Hk%H4. lia.
    + exact H5.
  - intros k. split_and!; try done; set_solver.
Qed.

Lemma sent_quiet receiver tag content h out k :
  sendOutputMessage receiver tag content h = Ret out -> writesTo k out = [] /\ FinishStream k ∉ out.
Proof.
  unfold sendOutputMessage. destruct (_ <? _)%nat; [done|]. intros [= <-].
  destruct (sendMessage _ _ _ _ _) as [[to message]|]; cbn; (split; [done|]); rewrite ?elem_of_cons.
  - by intros [|?%elem_of_nil].
  - by intros ?%elem_of_nil.
Qed.

Lemma read_ok id message h :
  messenger_inv h -> permitted (EvRead id message) h ->
  exists out h', onRead id message h = Ret (out, h') /\ stepped (EvRead id message) h out h'.
Proof.
  intros Hi [Hr Hp]. pose proof (mi_reading h Hi id Hr) as Hl.
  assert (messenger_inv (set_reading (mh_reading h ∖ {[id]}) h)) as Hi1 by (apply reading_inv; [done|set_solver]).
  unfold onRead. destruct message as [[tag|receiver tag content|]|].
  - set (h1 := match mh_writers _ !! id with Some _ => _ | None => _ end). do 2 eexists.
    split; [apply f_equal, surjective_pairing|].
    change (?a, _).1 with a. rewrite <- (app_nil_r (read id (subscribe tag id h1)).1).
    assert (messenger_inv h1 /\ is_Some (mh_writers h1 !! id) /\ mh_connectionsCreated h1 = mh_connectionsCreated h /\
      mh_isDestructing h1 = mh_isDestructing h /\ mh_messageSubscribers h1 = mh_messageSubscribers h /\
      forall k, waiting k h1 = waiting k h /\ writing k h1 = writing k h) as (H1 & H2 & H3 & H4 & H5 & H6).
    { unfold h1. destruct (mh_writers _ !! id) eqn:Ew; [by split_and!|]. split_and!; try done.
      - by apply inv_put.
      - rewrite writer_put, decide_True by done. by eexists.
      - intros k. rewrite waiting_put, writing_put. cbn in Ew. unfold waiting, writing. cbn.
        destruct (decide (k = id)) as [->|]; [by rewrite Ew|done]. }
    apply (read_step _ id h (subscribe tag id h1) [] []); try done; cbn; rewrite ?H3, ?H5; try done.
    + destruct H1 as [I1 I2 I3 I4 I5]. split; try done. cbn. intros tag' k.
      destruct (decide (tag' = tag)) as [->|]; [rewrite lookup_insert_eq; by intros [= <-]|].
      rewrite lookup_insert_ne by done. apply I5.
    + intros k. destruct (H6 k) as [E1 E2]. split_and!; try done; set_solver.
  - destruct (sendOutputMessage receiver tag content _) as [out|] eqn:Es.
    + cbn [mbind outcome_bind]. set (h1 := set_reading _ h) in *. rewrite (surjective_pairing (read id h1)).
      do 2 eexists. split; [done|]. rewrite <- (app_nil_r (read id h1).1).
      apply (read_step _ id h h1 out []); try done. intros k. destruct (sent_quiet _ _ _ _ _ k Es).
      split_and!; try done; set_solver.
    + unfold sendOutputMessage in Es. destruct (Nat.ltb_spec (length receiver) 32); [lia|done].
  - do 2 eexists. split; [apply f_equal, surjective_pairing|].
    change (?a, _).1 with a. rewrite <- (app_nil_r (read id _).1).
    apply (read_step _ id h (set_reading _ h) [] []); try done. intros k. split_and!; try done; set_solver.
  - set (h1 := set_reading _ h) in *. exists [], h1. split; [|by apply idle_step].
    destruct (working id h1) eqn:Hw; [|done]. unfold onConnectionBrokenDetected. unfold working in Hw.
    by destruct (mh_connections h1 !! id) as [[]|].
Qed.

Lemma query_ok query message h :
  messenger_inv h -> exists out h', messengerQuery query message h = Ret (out, h') /\ stepped (EvQuery query message) h out h'.
Proof.
  intros Hi. unfold messengerQuery, isSubscribed. set (e := EvQuery query message).
  assert (forall (b : bool), b = negb (mh_isDestructing h) && bool_decide (query ∉ supportedQueries) &&
    bool_decide (is_Some (mh_messageSubscribers h !! query)) -> addressed e (negb (mh_isDestructing h)) (mh_messageSubscribers h) =
      if b then from_option (fun id => [(id, mkInputMessage query message)]) [] (mh_messageSubscribers h !! query) else []) as Ha.
  { intros b ->. unfold addressed, e. destruct (_ && bool_decide (query ∉ _)); [|done].
    by destruct (mh_messageSubscribers h !! query). }
  specialize (Ha _ eq_refl). destruct (_ && _ && _) eqn:Eb.
  - apply andb_true_iff in Eb as [Eb Es]. apply andb_true_iff in Eb as [Eb _]. apply negb_true_iff in Eb.
    apply bool_decide_eq_true in Es as [id Es]. unfold subscriberMessage. rewrite Es in Ha |- *. cbn [from_option] in Ha.
    pose proof (mi_subscribers h Hi _ _ Es) as Hw. pose proof (mi_writers h Hi _ Hw) as Hl.
    destruct (receives_advances id (mkInputMessage query message) h) as (out & h' & E & Hadv); [|done|].
    { rewrite (mi_connections h Hi), decide_True by done. by eexists. }
    rewrite E. cbn [mbind outcome_bind]. do 2 eexists. split; [done|].
    eapply (advanced_step e id); [done|done|exact I|exact Hadv| | |].
    + rewrite Ha. cbn. unfold to_client. cbn. by rewrite decide_True.
    + intros k Hne. rewrite Ha. cbn. unfold to_client. cbn. by rewrite decide_False.
    + cbn. lia.
  - exists [], h. split; [done|]. by apply idle_step.
Qed.

Lemma written_ok id ok h :
  messenger_inv h -> writing id h = true ->
  exists out h', onWritten id ok h = Ret (out, h') /\ stepped (EvWritten id ok) h out h'.
Proof.
  intros Hi Hr. destruct (written_advances id ok h Hr) as (out & h' & E & Ha). exists out, h'. split; [done|].
  assert (is_Some (mh_writers h !! id)) as Hw.
  { unfold writing in Hr. destruct (mh_writers h !! id); [by eexists|done]. }
  pose proof (mi_writers h Hi _ Hw) as Hl. destruct ok.
  - eapply (advanced_step _ id); [done|done|exact I|exact Ha| | |].
    + cbn. by rewrite app_nil_r.
    + intros k Hne. cbn. by rewrite decide_False.
    + cbn. rewrite Hr, decide_True by done. done.
  - destruct Ha as [-> ->]. split; try done.
    + by apply inv_put.
    + set_solver.
    + intros k. rewrite waiting_put. cbn. rewrite app_nil_r. by destruct (decide (k = id)) as [->|].
    + intros k. rewrite writing_put. cbn. destruct (decide (id = k)) as [->|Hne].
      * rewrite decide_True by done. by rewrite Hr.
      * rewrite decide_False by done. lia.
    + intros k _ Hne. rewrite writing_put, waiting_put. destruct (decide (k = id)) as [->|]; [by destruct Hne|done].
Qed.

Lemma messenger_step_ok e h :
  messenger_inv h -> permitted e h -> exists out h', messenger_step e h = Ret (out, h') /\ stepped e h out h'.
Proof.
  intros Hi Hp. destruct e as [ok|id message|id ok|query message|endpoints|]; cbn [messenger_step].
  - do 2 eexists. split; [apply f_equal, surjective_pairing|]. by apply started_ok.
  - by apply read_ok.
  - by apply written_ok.
  - by apply query_ok.
  - do 2 eexists. split; [done|]. by apply idle_step; try done; destruct Hi.
  - do 2 eexists. split; [done|]. apply idle_step; try done.
    destruct Hi as [H1 H2 H3 H4 H5]. by split.
Qed.

(** ** Runs *)

Lemma inboxOf_app k a b : inboxOf k (a ++ b) = inboxOf k a ++ inboxOf k b.
Proof. apply omap_app. Qed.

Lemma writesTo_app k a b : writesTo k (a ++ b) = writesTo k a ++ writesTo k b.
Proof. apply omap_app. Qed.

(** The state of the messenger that the abstract one knows. *)
Definition simulates (h : MessengerHost) (t : Topics) : Prop :=
  tp_open t = negb (mh_isDestructing h) /\ tp_topics t = mh_messageSubscribers h.

Lemma simulates_step e h t out h' :
  simulates h t -> stepped e h out h' ->
  simulates h' (topic_step t e) /\
  tp_inbox (topic_step t e) = tp_inbox t ++ addressed e (negb (mh_isDestructing h)) (mh_messageSubscribers h).
Proof.
  intros [Eo Et] Hs. unfold topic_step, simulates. cbn. rewrite Eo, Et, (st_destructing _ _ _ _ Hs), (st_topics _ _ _ _ Hs).
  by destruct e.
Qed.

Record ran (es : list MessengerEvent) (h : MessengerHost) (t : Topics) (out : list MessengerOut) (h' : MessengerHost) : Prop := {
  rn_inv : messenger_inv h';
  rn_simulates : simulates h' (foldl topic_step t es);
  rn_messages k : exists new, tp_inbox (foldl topic_step t es) = tp_inbox t ++ new /\
    writesTo k out ++ waiting k h' = waiting k h ++ inboxOf k new;
  rn_one k : (length (writesTo k out) + Nat.b2n (writing k h) = Nat.b2n (writing k h') + completions k es)%nat;
  rn_finish k : FinishStream k ∉ out;
  rn_created : (mh_connectionsCreated h <= mh_connectionsCreated h')%nat;
  rn_stopped : mh_isDestructing h' = false -> mh_isDestructing h = false;
  rn_busy k : mh_isDestructing h' = false -> EvWritten k false ∉ es ->
    (writing k h = false -> waiting k h = []) -> writing k h' = false -> waiting k h' = [] }.

Lemma messenger_run_ok es : forall h t, messenger_inv h -> simulates h t -> respects es h ->
  exists out h', messenger_run es h = Ret (out, h') /\ ran es h t out h'.
Proof.
  induction es as [|e es IH]; intros h t Hi Ht Hr; cbn [messenger_run].
  - do 2 eexists. split; [done|]. split; try done.
    + intros k. exists []. by rewrite !app_nil_r.
    + intros k. apply not_elem_of_nil.
  - destruct Hr as [Hp Hr]. destruct (messenger_step_ok e h Hi Hp) as (out & h1 & E & Hs). rewrite E in Hr |- *.
    destruct (simulates_step _ _ _ _ _ Ht Hs) as [Ht1 Hb].
    destruct (IH h1 (topic_step t e) (st_inv _ _ _ _ Hs) Ht1 Hr) as (out' & h2 & E' & Hn).
    cbn [mbind outcome_bind]. rewrite E'. do 2 eexists. split; [done|]. split; cbn [foldl].
    + apply Hn.
    + apply Hn.
    + intros k. destruct (rn_messages _ _ _ _ _ Hn k) as (new & En & Em). eexists. rewrite En, Hb, <- app_assoc.
      split; [done|]. by rewrite writesTo_app, <- app_assoc, Em, app_assoc, (st_messages _ _ _ _ Hs), inboxOf_app, app_assoc.
    + intros k. rewrite writesTo_app, length_app. pose proof (st_one _ _ _ _ Hs k). pose proof (rn_one _ _ _ _ _ Hn k).
      change (completions k (e :: es)) with (completion k e + completions k es)%nat. lia.
    + intros k. rewrite not_elem_of_app. split; [apply Hs|apply Hn].
    + pose proof (st_created _ _ _ _ Hs). pose proof (rn_created _ _ _ _ _ Hn). lia.
    + intros Hd%(rn_stopped _ _ _ _ _ Hn). rewrite (st_destructing _ _ _ _ Hs) in Hd. by destruct e.
    + intros k Hd Hf Hw. rewrite not_elem_of_cons in Hf. destruct Hf as [Hf1 Hf2].
      apply (rn_busy _ _ _ _ _ Hn k Hd Hf2). apply (st_busy _ _ _ _ Hs k); [by apply (rn_stopped _ _ _ _ _ Hn)|congruence|done].
Qed.

Lemma new_messenger_inv endpoints : messenger_inv (newMessenger endpoints).
Proof.
  split; try done. intros id. cbn. rewrite lookup_empty. by intros [].
Qed.

(** C29: the messenger is what a publisher with topics is, for clients that name the
    receivers of their messages by at least 32 bytes and events of gRPC and of the
    replicator that come when they can ([respects]).  Whatever the clients and the
    network do then, no assertion fails and no memory is misused; what is written to a client
    and what waits for it are, in order, the messages that came with a tag to which it
    was the last to subscribe, each once, but those that a replicator keeps for itself;
    there is at most one write at a time.  While no write to a client has failed and
    the replicator runs, messages wait only behind a write: when gRPC has completed
    every write, the client has been sent all its messages. *)
Theorem messenger_publishes endpoints es :
  respects es (newMessenger endpoints) ->
  exists out h, messenger_run es (newMessenger endpoints) = Ret (out, h) /\
    let t := foldl topic_step noTopics es in
    mh_messageSubscribers h = tp_topics t /\
    forall k, writesTo k out ++ waiting k h = inboxOf k (tp_inbox t) /\
      length (writesTo k out) = (completions k es + if writing k h then 1 else 0)%nat /\
      (mh_isDestructing h = false -> EvWritten k false ∉ es ->
       completions k es = length (writesTo k out) -> writesTo k out = inboxOf k (tp_inbox t)).
Proof.
  intros Hr. destruct (messenger_run_ok es (newMessenger endpoints) noTopics (new_messenger_inv _) (conj eq_refl eq_refl) Hr) as (out & h & E & Hn).
  exists out, h. split; [done|]. split; [symmetry; apply Hn|]. intros k.
  destruct (rn_messages _ _ _ _ _ Hn k) as (new & En & Em). rewrite En. cbn [app tp_inbox noTopics].
  pose proof (rn_one _ _ _ _ _ Hn k) as Hone. change (waiting k (newMessenger endpoints)) with (@nil InputMessage) in Em. change (writing k (newMessenger endpoints)) with false in Hone. cbn [app Nat.b2n] in Em, Hone.
  split_and!; [exact Em|destruct (writing k h); cbn in Hone; lia|].
  intros Hd Hf Hc. rewrite <- Em. rewrite (rn_busy _ _ _ _ _ Hn k Hd Hf); [by rewrite app_nil_r|done|].
  destruct (writing k h); [cbn in Hone; lia|done].
Qed.

(** C30: a stream that is broken stays.  Whatever reads and writes fail, while the
    replicator runs every stream that was ever opened is still kept and none was
    finished: the messages for its tags are taken and written to it until another client
    subscribes to them. *)
Theorem broken_streams_stay endpoints es out h :
  respects es (newMessenger endpoints) -> messenger_run es (newMessenger endpoints) = Ret (out, h) ->
  mh_isDestructing h = false ->
  (forall id, (id < mh_connectionsCreated h)%nat -> mh_connections h !! id = Some false) /\
  (forall id, FinishStream id ∉ out) /\
  forall query message id, mh_messageSubscribers h !! query = Some id -> query ∉ supportedQueries ->
    exists sent h', messengerQuery query message h = Ret (sent, h') /\ mh_messageSubscribers h' = mh_messageSubscribers h /\
      writesTo id sent ++ waiting id h' = waiting id h ++ [mkInputMessage query message].
Proof.
  intros Hr E Hd. destruct (messenger_run_ok es (newMessenger endpoints) noTopics (new_messenger_inv _) (conj eq_refl eq_refl) Hr) as (out' & h' & E' & Hn).
  rewrite E in E'. injection E' as <- <-. pose proof (rn_inv _ _ _ _ _ Hn) as Hi. split_and!.
  - intros id Hl. by rewrite (mi_connections h Hi), decide_True.
  - apply Hn.
  - intros query message id Hs Hq. destruct (query_ok query message h Hi) as (sent & h' & Eq & Hst).
    exists sent, h'. split; [done|]. split; [apply (st_topics _ _ _ _ Hst)|].
    rewrite (st_messages _ _ _ _ Hst id). cbn. rewrite Hd, bool_decide_eq_true_2, Hs by done. cbn.
    unfold to_client. cbn. by rewrite decide_True.
Qed.

(** ** Witnesses *)

#[export] Instance permitted_dec e h : Decision (permitted e h).
Proof.
  destruct e as [ok|id [[tag|receiver tag content|]|]|id ok|query message|endpoints|]; cbn; apply _.
Defined.

#[export] Instance respects_dec es : forall h, Decision (respects es h).
Proof.
  induction es as [|e es IH]; intros h; cbn; [apply _|].
  apply and_dec; [apply _|]. destruct (messenger_step e h) as [[out h']|]; [apply IH|apply _].
Defined.

Definition noEndpoints : EndpointsManager := mkManager ∅ ∅ NoSession NoTimer None None [] false.

(** Two clients; the second leaves, and its messages are still written to it. *)
Definition twoClients : list MessengerEvent :=
  [EvStarted true; EvStarted true; EvRead 0 (Some (Subscribe "a")); EvRead 1 (Some (Subscribe "b"));
   EvQuery "a" [1]; EvQuery "a" [2]; EvQuery "opinion" [9]; EvQuery "b" [3]; EvWritten 0 true; EvRead 1 None;
   EvWritten 1 false; EvQuery "b" [4]; EvQuery "b" [5]; EvRead 0 (Some (Output (be_bytes 32 7) "a" [6])); EvWritten 0 true].

Lemma twoClients_respects : respects twoClients (newMessenger noEndpoints).
Proof. apply (bool_decide_unpack _). vm_compute. exact I. Qed.

Lemma messenger_publishes_witness : exists out h,
  messenger_run twoClients (newMessenger noEndpoints) = Ret (out, h) /\
  writesTo 0 out = [mkInputMessage "a" [1]; mkInputMessage "a" [2]] /\
  writesTo 1 out ++ waiting 1 h = [mkInputMessage "b" [3]; mkInputMessage "b" [4]; mkInputMessage "b" [5]].
Proof.
  destruct (messenger_publishes noEndpoints twoClients twoClients_respects) as (out & h & E & _ & Hm).
  exists out, h. split; [exact E|]. split.
  - destruct (Hm 0%nat) as (_ & _ & Hall). rewrite Hall; [vm_compute; reflexivity| | |].
    + vm_compute in E. injection E as _ <-. reflexivity.
    + intros Hin%list_elem_of_In. cbn in Hin. repeat (destruct Hin as [Hin|Hin]; [discriminate Hin|]). exact Hin.
    + vm_compute in E. injection E as <- _. reflexivity.
  - rewrite (proj1 (Hm 1%nat)). vm_compute. reflexivity.
Defined.

Lemma broken_streams_stay_witness : exists out h,
  messenger_run twoClients (newMessenger noEndpoints) = Ret (out, h) /\
  mh_connections h !! 1%nat = Some false /\ FinishStream 1 ∉ out.
Proof.
  destruct (messenger_run twoClients (newMessenger noEndpoints)) as [[out h]|f] eqn:E; [|vm_compute in E; discriminate E].
  exists out, h. split; [reflexivity|].
  assert (mh_isDestructing h = false) as Hd by (vm_compute in E; injection E as _ <-; reflexivity).
  destruct (broken_streams_stay noEndpoints twoClients out h twoClients_respects E Hd) as (Hc & Hf & _).
  split; [|apply Hf]. apply Hc. vm_compute in E. injection E as _ <-. cbn. lia.
Defined.

(** A client that gives fewer bytes than a key has. *)
Example short_receiver :
  messenger_run [EvStarted true; EvRead 0 (Some (Output [7] "a" []))] (newMessenger noEndpoints) = Stop UndefinedBehaviour.
Proof. vm_compute. reflexivity. Qed.

(** A client that subscribes to the receipts gets them instead of the replicator, which
    does not account for them and answers as if it had. *)
Example receipts_captured {T} `{DriveTask T} sg ar delay ms rands packet sign (r : DefaultReplicator T) :
  exists h h', messenger_run [EvStarted true; EvRead 0 (Some (Subscribe "rcpt"))] (newMessenger noEndpoints) =
      Ret ([ReadStream 0; AcceptStream; ReadStream 0], h) /\
    on_dht_request_subscribed sg ar delay ms rands "rcpt" packet sign h r =
      Ret (Ok, [WriteStream 0 (mkInputMessage "rcpt" packet)], [], h', r).
Proof. do 2 eexists. split; [vm_compute; reflexivity|]. vm_compute. reflexivity. Qed.
