(* ===== verification/SupercontractServer.v ===== *)
(** * The server of the supercontracts

    A supercontract calls the drives of a replicator over gRPC ([supercontract-server/src]).
    For every kind of call there is a class of contexts that all do the same: a context
    waits for a call, makes a request of its message, passes it to the replicator with a
    callback, and finishes the call with what the callback is given.  [requestOf] and
    [messageOf] are the parts in which they differ.

    A manual modification answers a request before the next one of its supercontract, so
    that the context that waits for a drive is the one whose call came last.  A call that
    is completed by gRPC is an event, and so are those of the drives ([DriveCalls]).
    [InitiateModifications] and [SynchronizeStorage], which the queue of the drive answers,
    are not here. *)

From S2P Require Import Prelude RcptMessage OrderedMap FsPath FsStatistics FsTree FolderIterator FlatDrive ManualModifications Streaming DriveCalls.
#[global] Open Scope Z_scope.

(** ** Messages *)

(** The tree of a drive, as it is sent. *)
Inductive RpcEntry :=
  | RpcFile (name : string)
  | RpcFolder (name : string) (children : list RpcEntry).

(** [processFolder], [processFile]. *)
Fixpoint processFolder (fd : Folder) : RpcEntry :=
  match fd with
  | MkFolder name cs _ _ _ _ =>
      RpcFolder name (map (fun c => match c.2 with inl sub => processFolder sub | inr f => RpcFile (file_name f) end) cs)
  end.

(** The answer of a call: a field that is not set has the default of its type. *)
Inductive RpcMessage :=
  | NoFields                                            (* InitSandboxResponse, ApplyStorageModificationsResponse *)
  | Success (success : bool)                            (* a response that has nothing else *)
  | SuccessId (success : bool) (id : Z)                 (* OpenFileResponse, DirectoryIteratorCreateResponse *)
  | SuccessBuffer (success : bool) (buffer : list Z)    (* ReadFileResponse *)
  | SuccessSize (success : bool) (size : Z)             (* FileSizeResponse *)
  | SuccessEntry (success : bool) (name : string) (depth : Z)   (* DirectoryIteratorNextResponse *)
  | Flag (value : bool)                                 (* PathExistResponse, IsFileResponse, DirectoryIteratorHasNextResponse *)
  | StorageHash (hash : Z)                              (* EvaluateStorageHashResponse *)
  | FileInfo (exists_ : bool) (hash size : Z)           (* FileInfoResponse; the path is the file of the hash *)
  | ModificationId (id : Z)                             (* ActualModificationIdResponse *)
  | FilesystemTree (tree : RpcEntry).                   (* FilesystemResponse *)

(** [onCallExecuted] of the contexts, from a response; [None] is [CANCELLED]. *)
Definition messageOf (r : Response) : option RpcMessage :=
  match r with
  | InitiateSandboxModificationsResponse | ApplyStorageModificationsResponse => Some NoFields
  | OpenFileResponse fileId => Some (SuccessId (bool_decide (is_Some fileId)) (default 0 fileId))
  | ReadFileResponse (Some buffer) => Some (SuccessBuffer true buffer)
  | ReadFileResponse None => Some (SuccessBuffer false [])
  | WriteFileResponse success | FlushResponse success | CloseFileResponse success
  | RemoveFilesystemEntryResponse success | CreateDirectoriesResponse success
  | FolderIteratorDestroyResponse success | MoveFilesystemEntryResponse success
  | ApplySandboxModificationsResponse success => Some (Success success)
  | PathExistResponse b | PathIsFileResponse b | FolderIteratorHasNextResponse b => Some (Flag b)
  | FileSizeResponse size => Some (SuccessSize false (default 0 size))      (* only the size is set *)
  | FolderIteratorCreateResponse id => Some (SuccessId (bool_decide (is_Some id)) (default 0 id))
  | FolderIteratorNextResponse (Some v) => Some (SuccessEntry true (iv_name v) (iv_depth v))
  | FolderIteratorNextResponse None => Some (SuccessEntry false "" 0)
  | EvaluateStorageHashResponse state => Some (StorageHash state)
  | EmptyResponse => None
  end.

(** What is called. *)
Inductive RpcCall :=
  | CallRequest (request : Request)
  | GetFileInfo (relativePath : string)
  | GetActualModificationId
  | GetFilesystem.

(** ** The server *)

Record StorageServer := mkServer {
  sv_host : CalledReplicator;
  sv_serviceIsActive : bool;
  sv_contexts : nat;                    (* the calls that were accepted *)
  sv_waiting : gmap Z nat;              (* whose callback a drive has *)
  sv_responseAlreadyGiven : gset nat }.

Definition set_host (v : CalledReplicator) (s : StorageServer) : StorageServer :=
  mkServer v (sv_serviceIsActive s) (sv_contexts s) (sv_waiting s) (sv_responseAlreadyGiven s).
Definition set_waiting (v : gmap Z nat) (s : StorageServer) : StorageServer :=
  mkServer (sv_host s) (sv_serviceIsActive s) (sv_contexts s) v (sv_responseAlreadyGiven s).

Inductive RpcOut :=
  | Finish (id : nat) (message : option RpcMessage)
  | Register.                           (* a context for the next call of the kind *)

(** [onCallExecuted]. *)
Definition onCallExecuted (id : nat) (message : option RpcMessage) (s : StorageServer) : list RpcOut * StorageServer :=
  if negb (sv_serviceIsActive s) then ([], s)
  else if decide (id ∈ sv_responseAlreadyGiven s) then ([], s)
  else ([Finish id message],
        mkServer (sv_host s) true (sv_contexts s) (sv_waiting s) ({[id]} ∪ sv_responseAlreadyGiven s)).

Fixpoint onCallsExecuted (id : nat) (answers : list Response) (s : StorageServer) : list RpcOut * StorageServer :=
  match answers with
  | [] => ([], s)
  | a :: answers =>
      let '(out, s) := onCallExecuted id (messageOf a) s in
      let '(out', s) := onCallsExecuted id answers s in (out ++ out', s)
  end.

Section Server.
  Context (m_maxSize : Z -> Z) (m_modificationIdentifier : Z -> Z) (m_maxOpenedStreams : Z).
  Context (calculateInfoHash : list Z -> Z) (torrentSize : list Z -> Z) (createTorrentFile : Folder -> Z).

Abbreviation hostStep :=
  (callStep m_maxSize m_modificationIdentifier true m_maxOpenedStreams calculateInfoHash torrentSize createTorrentFile).

(** The drive answers the context that waits for it. *)
Definition driveAnswers (k : Z) (answers : list Response) (s : StorageServer) : list RpcOut * StorageServer :=
  match answers, sv_waiting s !! k with
  | _ :: _, Some id => onCallsExecuted id answers (set_waiting (delete k (sv_waiting s)) s)
  | _, _ => ([], s)
  end.

(** A question about a drive is answered at once, or never when the replicator stops. *)
Definition askedDrive {A} (k : Z) (id : nat) (answer : CalledDrive -> Outcome A) (message : A -> RpcMessage)
    (s : StorageServer) : Outcome (list RpcOut * StorageServer) :=
  a ← askDrive k answer (sv_host s);
  Ret (match a with
       | None => ([], s)
       | Some a => onCallExecuted id (message <$> a) s
       end).

(** [processRequest] of the contexts: the key of the drive is read from the bytes of the
    message, whatever their number. *)
Definition processRequest (id : nat) (drive_key : list Z) (call : RpcCall) (s : StorageServer)
    : Outcome (list RpcOut * StorageServer) :=
  if negb (sv_serviceIsActive s) then Ret ([], s)
  else if (length drive_key <? 32)%nat then Stop UndefinedBehaviour
  else
    let k := of_be (take 32 drive_key) in
    match call with
    | CallRequest request =>
        '(answers, h) ← hostStep (SupercontractCall k request) (sv_host s);
        Ret (driveAnswers k answers (set_waiting (<[k := id]> (sv_waiting s)) (set_host h s)))
    | GetFileInfo path => askedDrive k id (getFileInfo path) (fun i => FileInfo (fi_exists i) (fi_fileHash i) (fi_size i)) s
    | GetActualModificationId => askedDrive k id getActualModificationId ModificationId s
    | GetFilesystem => askedDrive k id getFilesystem (fun fd => FilesystemTree (processFolder fd)) s
    end.

(** [AcceptRequestRPCTag::process]: the request is posted to the replicator, and the next
    call awaited.  The posted requests are handled in the order of the calls. *)
Definition acceptRequest (drive_key : list Z) (call : RpcCall) (s : StorageServer)
    : Outcome (list RpcOut * StorageServer) :=
  let id := sv_contexts s in
  '(out, s') ← processRequest id drive_key call
    (mkServer (sv_host s) (sv_serviceIsActive s) (S id) (sv_waiting s) (sv_responseAlreadyGiven s));
  Ret ((if sv_serviceIsActive s then [Register] else []) ++ out, s').

(** The drives go on. *)
Definition driveEvent (e : CallEvent) (s : StorageServer) : Outcome (list RpcOut * StorageServer) :=
  '(answers, h) ← hostStep e (sv_host s);
  Ret (driveAnswers (eventKey e) answers (set_host h s)).

Inductive ServerEvent :=
  | EvAccepted (drive_key : list Z) (call : RpcCall)
  | EvTask (k : Z) (e : ManualEvent)
  | EvTaskChanged (k : Z) (next : NextTask)
  | EvDestroyed.                        (* [~StorageServer] *)

Definition server_step (e : ServerEvent) (s : StorageServer) : Outcome (list RpcOut * StorageServer) :=
  match e with
  | EvAccepted drive_key call => acceptRequest drive_key call s
  | EvTask k e => driveEvent (TaskEvent k e) s
  | EvTaskChanged k next => driveEvent (TaskChanged k next) s
  | EvDestroyed => Ret ([], mkServer (sv_host s) false (sv_contexts s) (sv_waiting s) (sv_responseAlreadyGiven s))
  end.

Fixpoint server_run (es : list ServerEvent) (s : StorageServer) : Outcome (list RpcOut * StorageServer) :=
  match es with
  | [] => Ret ([], s)
  | e :: es =>
      '(out, s) ← server_step e s;
      '(out', s) ← server_run es s;
      Ret (out ++ out', s)
  end.

End Server.

Definition newServer (h : CalledReplicator) : StorageServer := mkServer h true 0 ∅ ∅.
