(* ===== verification/SupercontractServerSpec.v ===== *)
(** * Properties of the server of the supercontracts *)

From S2P Require Import Prelude RcptMessage OrderedMap FsPath FsStatistics FsTree FolderIterator FlatDrive ManualModifications ManualProtocol ManualModificationsSpec Streaming DriveCalls DriveCallsSpec SupercontractServer.
#[global] Open Scope Z_scope.

(** How often a call is finished. *)
Definition finishes_ (id : nat) (o : RpcOut) : nat := match o with Finish id' _ => if decide (id' = id) then 1 else 0 | Register => 0 end.
Definition finishes (id : nat) (out : list RpcOut) : nat := list_sum (map (finishes_ id) out).

Lemma finishes_app id a b : finishes id (a ++ b) = (finishes id a + finishes id b)%nat.
Proof. unfold finishes. by rewrite map_app, list_sum_app. Qed.

(** ** A server that is being destroyed *)

Lemma executed_inactive id answers s :
  sv_serviceIsActive s = false -> onCallsExecuted id answers s = ([], s).
Proof. intros Ha. induction answers as [|a l IH]; cbn; [done|]. unfold onCallExecuted. rewrite Ha. cbn. by rewrite IH. Qed.

Lemma answers_inactive k answers s :
  sv_serviceIsActive s = false -> (driveAnswers k answers s).1 = [] /\ sv_serviceIsActive (driveAnswers k answers s).2 = false.
Proof.
  intros Ha. unfold driveAnswers. destruct answers; [done|]. destruct (sv_waiting s !! k); [|done].
  by rewrite executed_inactive.
Qed.

Section Server.
  Context (m_maxSize : Z -> Z) (m_modificationIdentifier : Z -> Z) (m_maxOpenedStreams : Z).
  Context (calculateInfoHash : list Z -> Z) (torrentSize : list Z -> Z) (createTorrentFile : Folder -> Z).

Abbreviation hostStep :=
  (callStep m_maxSize m_modificationIdentifier true m_maxOpenedStreams calculateInfoHash torrentSize createTorrentFile).
Abbreviation step :=
  (server_step m_maxSize m_modificationIdentifier m_maxOpenedStreams calculateInfoHash torrentSize createTorrentFile).
Abbreviation run :=
  (server_run m_maxSize m_modificationIdentifier m_maxOpenedStreams calculateInfoHash torrentSize createTorrentFile).

(** Whose drive a message names. *)
Definition named (drive_key : list Z) : Z := of_be (take 32 drive_key).

(** The callers give whole keys and respect the protocol of their drive. *)
Definition serverPermitted (e : ServerEvent) (s : StorageServer) : Prop :=
  match e with
  | EvAccepted drive_key (CallRequest r) =>
      (32 <= length drive_key)%nat /\ callPermitted m_maxOpenedStreams (SupercontractCall (named drive_key) r) (sv_host s)
  | EvAccepted drive_key _ => (32 <= length drive_key)%nat
  | EvTask k e => callPermitted m_maxOpenedStreams (TaskEvent k e) (sv_host s)
  | EvTaskChanged k next => callPermitted m_maxOpenedStreams (TaskChanged k next) (sv_host s)
  | EvDestroyed => True
  end.

Fixpoint serverRespects (es : list ServerEvent) (s : StorageServer) : Prop :=
  match es with
  | [] => True
  | e :: es => serverPermitted e s /\ match step e s with Ret (_, s) => serverRespects es s | Stop _ => True end
  end.

Lemma step_inactive e s a :
  sv_serviceIsActive s = false -> step e s = Ret a -> (forall id, finishes id a.1 = 0%nat) /\ sv_serviceIsActive a.2 = false.
Proof.
  intros Ha. destruct e as [drive_key call|k e|k next|]; cbn [server_step].
  - unfold acceptRequest, processRequest. cbn. rewrite Ha. cbn. by intros [= <-].
  - unfold driveEvent. intros (a0 & _ & E)%bind_ret_inv. destruct a0 as [answers h]. injection E as <-.
    destruct (answers_inactive k answers (set_host h s) Ha) as [-> ->]. done.
  - unfold driveEvent. intros (a0 & _ & E)%bind_ret_inv. destruct a0 as [answers h]. injection E as <-.
    destruct (answers_inactive k answers (set_host h s) Ha) as [-> ->]. done.
  - by intros [= <-].
Qed.

(** ** A server that works *)

(** Who waits, who was answered. *)
Record contexts_ok (s : StorageServer) : Prop := {
  co_waiting k id : sv_waiting s !! k = Some id -> (id < sv_contexts s)%nat /\ id ∉ sv_responseAlreadyGiven s;
  co_one k k' id : sv_waiting s !! k = Some id -> sv_waiting s !! k' = Some id -> k = k';
  co_given id : id ∈ sv_responseAlreadyGiven s -> (id < sv_contexts s)%nat;
  co_open id : (id < sv_contexts s)%nat -> id ∉ sv_responseAlreadyGiven s -> exists k, sv_waiting s !! k = Some id }.

Definition waits (k : Z) (s : StorageServer) : nat := if sv_waiting s !! k then 1 else 0.

(** A context waits for a drive exactly when it owes an answer. *)
Record server_inv (s : StorageServer) : Prop := {
  si_host : hostInv (sv_host s);
  si_active : sv_serviceIsActive s = true;
  si_contexts : contexts_ok s;
  si_owed k : owedAt k (sv_host s) = waits k s }.

(** Every finished call is marked, once. *)
Definition answered (id : nat) (s : StorageServer) : nat := if decide (id ∈ sv_responseAlreadyGiven s) then 1 else 0.
Definition served_step (s : StorageServer) (a : list RpcOut * StorageServer) : Prop :=
  server_inv a.2 /\ forall id, (finishes id a.1 + answered id s = answered id a.2)%nat.

Lemma executed_given id message s :
  sv_serviceIsActive s = true -> id ∉ sv_responseAlreadyGiven s ->
  onCallExecuted id message s =
    ([Finish id message], mkServer (sv_host s) true (sv_contexts s) (sv_waiting s) ({[id]} ∪ sv_responseAlreadyGiven s)).
Proof. intros Ha Hn. unfold onCallExecuted. rewrite Ha. cbn. by rewrite decide_False. Qed.

Lemma finish_counts id message (given : gset nat) k :
  id ∉ given ->
  (finishes k [Finish id message] + (if decide (k ∈ given) then 1 else 0) =
   if decide (k ∈ ({[id]} ∪ given)) then 1 else 0)%nat.
Proof.
  intros Hn. unfold finishes. cbn. destruct (decide (id = k)) as [->|Hne].
  - rewrite (decide_False (P := k ∈ given)), decide_True by (done || set_solver). done.
  - rewrite (decide_ext (k ∈ ({[id]} ∪ given)) (k ∈ given)); [done|]. set_solver.
Qed.

(** The context of a drive is answered. *)
Lemma answers_ok k answers s :
  contexts_ok s -> hostInv (sv_host s) -> sv_serviceIsActive s = true ->
  (forall k', k' <> k -> owedAt k' (sv_host s) = waits k' s) ->
  (length answers + owedAt k (sv_host s) = waits k s)%nat ->
  served_step s (driveAnswers k answers s).
Proof.
  intros Hc Hh Ha Ho Hl. unfold driveAnswers. destruct answers as [|a [|a' l]].
  - split; [|done]. cbn in *. split; [done..|]. intros k'. destruct (decide (k' = k)) as [->|Hne]; [done|by apply Ho].
  - unfold waits in Hl. destruct (sv_waiting s !! k) as [id|] eqn:Hw; [|cbn in Hl; lia].
    destruct (co_waiting s Hc k id Hw) as [Hid Hng]. cbn [onCallsExecuted]. rewrite executed_given by done. cbn.
    split; [|intros k'; by apply finish_counts]. cbn. cbn in Hl. split; try done; cbn.
    + destruct Hc as [C1 C2 C3 C4]. split; cbn.
      * intros k' id' Hw'. destruct (decide (k' = k)) as [->|Hne]; [by rewrite lookup_delete_eq in Hw'|].
        rewrite lookup_delete_ne in Hw' by done. destruct (C1 _ _ Hw') as [H1 H2]. split; [done|].
        assert (id' <> id) by (intros ->; by apply Hne, (C2 _ _ id)). set_solver.
      * intros k1 k2 id' H1 H2. apply lookup_delete_Some in H1 as [_ H1], H2 as [_ H2]. by eapply C2.
      * intros id' [->%elem_of_singleton|Hg]%elem_of_union; [done|by apply C3].
      * intros id' Hl' Hg. destruct (C4 id' Hl') as [k' Hk']; [set_solver|]. exists k'.
        rewrite lookup_delete_ne; [done|]. intros <-. rewrite Hw in Hk'. injection Hk' as ->. set_solver.
    + intros k'. unfold waits. cbn. destruct (decide (k' = k)) as [->|Hne].
      * rewrite lookup_delete_eq. lia.
      * rewrite lookup_delete_ne by done. by apply Ho.
  - unfold waits in Hl. destruct (sv_waiting s !! k); cbn in Hl; lia.
Qed.

Lemma event_ok e s :
  server_inv s -> callPermitted m_maxOpenedStreams e (sv_host s) -> isCall (eventKey e) e = 0%nat ->
  ensures (served_step s)
    (driveEvent m_maxSize m_modificationIdentifier m_maxOpenedStreams calculateInfoHash torrentSize createTorrentFile e s).
Proof.
  intros [Hh Ha Hc Ho] Hp He. unfold driveEvent.
  pose proof (callStep_counts m_maxSize m_modificationIdentifier m_maxOpenedStreams calculateInfoHash torrentSize
                createTorrentFile e (sv_host s) Hh Hp) as Hs.
  eapply ensures_bind; [exact Hs|]. intros [answers h] (Hh' & Hl & Hk). cbn [ensures fst snd] in *.
  apply (answers_ok (eventKey e) answers (set_host h s)); try done; cbn.
  - by destruct Hc.
  - intros k Hne. unfold owedAt, manualAt. rewrite Hk by done. apply Ho.
  - rewrite Hl, He, Ho. unfold waits. cbn. lia.
Qed.

Lemma called_ok drive_key r s :
  server_inv s -> serverPermitted (EvAccepted drive_key (CallRequest r)) s ->
  ensures (served_step s) (step (EvAccepted drive_key (CallRequest r)) s).
Proof.
  intros [Hh Ha Hc Ho] [Hl Hp]. cbn [server_step]. unfold acceptRequest, processRequest.
  cbn [sv_contexts sv_host sv_serviceIsActive sv_waiting sv_responseAlreadyGiven]. rewrite Ha. cbn [negb].
  destruct (Nat.ltb_spec (length drive_key) 32) as [?|_]; [lia|]. fold (named drive_key). set (k := named drive_key) in *.
  assert (sv_waiting s !! k = None) as Hw.
  { assert (owedAt k (sv_host s) = 0%nat) as E.
    { unfold owedAt. destruct (manualAt k (sv_host s)) as [m|] eqn:Em; [|done]. cbn.
      cbn in Hp. rewrite Em in Hp. apply Hp. }
    rewrite Ho in E. unfold waits in E. by destruct (sv_waiting s !! k). }
  pose proof (callStep_counts m_maxSize m_modificationIdentifier m_maxOpenedStreams calculateInfoHash torrentSize
                createTorrentFile (SupercontractCall k r) (sv_host s) Hh Hp) as Hs.
  cbn [callStep] in Hs |- *. destruct (replicatorCall _ _ k r (sv_host s)) as [[answers h]|]; [|done].
  destruct Hs as (Hh' & Hn & Hk). cbn [mbind outcome_bind fst snd eventKey] in *. set (s1 := set_waiting _ _).
  assert (served_step s1 (driveAnswers k answers s1)) as [Hi Hf].
  { apply answers_ok; try done; cbn.
    - destruct Hc as [C1 C2 C3 C4]. split; cbn.
      + intros k' id. destruct (decide (k' = k)) as [->|Hne].
        * rewrite lookup_insert_eq. intros [= <-]. split; [lia|]. intros Hg%C3. lia.
        * rewrite lookup_insert_ne by done. intros [H1 H2]%C1. split; [lia|done].
      + intros k1 k2 id. destruct (decide (k1 = k)) as [->|H1], (decide (k2 = k)) as [->|H2];
          rewrite ?lookup_insert_eq, ?lookup_insert_ne by done; [done|..].
        * intros [= <-] [H3 _]%C1. lia.
        * intros [H3 _]%C1 [= <-]. lia.
        * apply C2.
      + intros id Hg%C3. lia.
      + intros id Hid Hg. destruct (decide (id = sv_contexts s)) as [->|Hne]; [exists k; apply lookup_insert_eq|].
        destruct (C4 id ltac:(lia) Hg) as [k' Hk']. exists k'. rewrite lookup_insert_ne; [done|]. intros <-. by rewrite Hw in Hk'.
    - intros k' Hne. unfold owedAt, manualAt, waits. cbn. rewrite Hk, lookup_insert_ne by done. apply Ho.
    - rewrite Hn, Ho. unfold waits. cbn. rewrite Hw, lookup_insert_eq, decide_True by done. done. }
  rewrite (surjective_pairing (driveAnswers k answers s1)). cbn. split; [exact Hi|].
  intros id. exact (Hf id).
Qed.

(** A question is answered at once. *)
Lemma asked_ok {A} (answer : CalledDrive -> Outcome A) (message : A -> RpcMessage) drive_key call s :
  server_inv s -> (32 <= length drive_key)%nat ->
  (forall id s, sv_serviceIsActive s = true -> processRequest m_maxSize m_modificationIdentifier m_maxOpenedStreams
      calculateInfoHash torrentSize createTorrentFile id drive_key call s = askedDrive (named drive_key) id answer message s) ->
  ensures (served_step s) (step (EvAccepted drive_key call) s).
Proof.
  intros [Hh Ha Hc Ho] Hl E. cbn [server_step]. unfold acceptRequest. rewrite E by done. unfold askedDrive. cbn [sv_host].
  set (s1 := mkServer _ _ _ _ _).
  assert (forall m, served_step s (let '(out, s2) := onCallExecuted (sv_contexts s) m s1 in
            ((if sv_serviceIsActive s then [Register] else []) ++ out, s2))) as Hd.
  { intros m. rewrite executed_given; [|done|intros Hg; apply (co_given s Hc) in Hg; lia]. cbn. split.
    - split; try done; cbn.
      destruct Hc as [C1 C2 C3 C4]. split; cbn; [|exact C2| |].
      + intros k id [H1 H2]%C1. split; [lia|]. assert (id <> sv_contexts s) by lia. set_solver.
      + intros id [->%elem_of_singleton|Hg%C3]%elem_of_union; lia.
      + intros id Hid Hg. apply C4; [|set_solver]. assert (id <> sv_contexts s) by set_solver. lia.
    - intros id. cbn [fst snd]. rewrite Ha.
      rewrite finishes_app. pose proof (finish_counts (sv_contexts s) m (sv_responseAlreadyGiven s) id) as Hf.
      unfold answered. cbn [sv_responseAlreadyGiven]. rewrite <- Hf; [change (finishes id [Register]) with 0%nat; lia|]. intros Hg%(co_given s Hc). lia. }
  assert (forall m, ensures (served_step s) ('(out, s2) ← Ret (onCallExecuted (sv_contexts s) m s1);
            Ret ((if sv_serviceIsActive s then [Register] else []) ++ out, s2))) as He.
  { intros m. specialize (Hd m). cbn [mbind outcome_bind]. by destruct (onCallExecuted _ m s1). }
  unfold askDrive. rewrite (proj1 Hh). destruct (rh_drives (sv_host s) !! named drive_key) as [d|]; [|exact (He None)].
  destruct (decide _); [exact (He None)|]. destruct (answer d) as [a|]; [|done]. exact (He (Some (message a))).
Qed.

Lemma server_step_ok e s :
  server_inv s -> serverPermitted e s ->
  ensures (fun a => (forall id, (finishes id a.1 + answered id s = answered id a.2)%nat) /\
    (server_inv a.2 \/ sv_serviceIsActive a.2 = false)) (step e s).
Proof.
  intros Hi Hp.
  assert (ensures (served_step s) (step e s) \/ e = EvDestroyed) as [Hs| ->]; [|..].
  2: { eapply ensures_mono; [|exact Hs]. intros a [H1 H2]. split; [exact H2|by left]. }
  2: { cbn. split; [done|by right]. }
  destruct e as [drive_key [r|path| |]|k e|k next|]; [left..|by right].
  - by apply called_ok.
  - apply (asked_ok (getFileInfo path) (fun i => FileInfo (fi_exists i) (fi_fileHash i) (fi_size i))); [done|exact Hp|]. intros id s' Ha. unfold processRequest. rewrite Ha. cbn [negb].
    destruct (Nat.ltb_spec (length drive_key) 32); [cbn in Hp; lia|done].
  - apply (asked_ok getActualModificationId ModificationId); [done|exact Hp|]. intros id s' Ha. unfold processRequest. rewrite Ha. cbn [negb].
    destruct (Nat.ltb_spec (length drive_key) 32); [cbn in Hp; lia|done].
  - apply (asked_ok getFilesystem (fun fd => FilesystemTree (processFolder fd))); [done|exact Hp|]. intros id s' Ha. unfold processRequest. rewrite Ha. cbn [negb].
    destruct (Nat.ltb_spec (length drive_key) 32); [cbn in Hp; lia|done].
  - by apply event_ok.
  - by apply event_ok.
Qed.

(** At most once; and as marked, while the server works. *)
Definition counted (s : StorageServer) (a : list RpcOut * StorageServer) : Prop :=
  (forall id, (finishes id a.1 + answered id s <= 1)%nat) /\
  (sv_serviceIsActive a.2 = true ->
   server_inv a.2 /\ forall id, (finishes id a.1 + answered id s)%nat = answered id a.2).

Lemma answered_le id s : (answered id s <= 1)%nat.
Proof. unfold answered. case_decide; lia. Qed.

(** Nothing is finished any more. *)
Lemma run_inactive es : forall s a,
  sv_serviceIsActive s = false -> run es s = Ret a -> (forall id, finishes id a.1 = 0%nat) /\ sv_serviceIsActive a.2 = false.
Proof.
  induction es as [|e es IH]; intros s a Ha E; cbn [server_run] in E; [by injection E as <-|].
  apply bind_ret_inv in E as ([out s1] & E1 & E). apply bind_ret_inv in E as ([out' s2] & E2 & E). injection E as <-.
  destruct (step_inactive _ _ _ Ha E1) as [H1 H2]. destruct (IH _ _ H2 E2) as [H3 H4]. cbn [fst snd] in *. split; [|done].
  intros id. by rewrite finishes_app, H1, H3.
Qed.

Lemma server_run_ok es : forall s, server_inv s -> serverRespects es s -> ensures (counted s) (run es s).
Proof.
  induction es as [|e es IH]; intros s Hi Hr; cbn [server_run].
  - cbn. split; [intros id; apply answered_le|done].
  - destruct Hr as [Hp Hr]. pose proof (server_step_ok e s Hi Hp) as Hs.
    destruct (step e s) as [[out s1]|]; [|done]. destruct Hs as [Hf Hi1]. cbn [mbind outcome_bind fst snd] in *.
    destruct (run es s1) as [[out' s2]|] eqn:E; [|done]. cbn [mbind outcome_bind ensures].
    unfold counted. cbn [fst snd].
    destruct Hi1 as [Hi1|Ha].
    + specialize (IH s1 Hi1 Hr). rewrite E in IH. destruct IH as [H1 H2]. cbn [fst snd] in *. split.
      * intros id. rewrite finishes_app. specialize (Hf id). specialize (H1 id). lia.
      * intros Ha. destruct (H2 Ha) as [H3 H4]. split; [done|]. intros id. rewrite finishes_app.
        specialize (Hf id). specialize (H4 id). lia.
    + destruct (run_inactive es s1 _ Ha E) as [H1 H2]. cbn [fst snd] in *. split; [|by rewrite H2].
      intros id. rewrite finishes_app, H1. specialize (Hf id). pose proof (answered_le id s1). lia.
Qed.

(** C28: the calls of supercontracts over gRPC to the sandbox of a drive and the questions
    about a drive (all calls but [InitiateModifications] and [SynchronizeStorage]) are
    finished, once.  Of callers that give keys of at least 32 bytes and respect the
    protocol of a manual modification ([serverRespects]: one call at a time for each
    drive, none to a task that has finished, no file too many, a storage is applied when
    its hash was evaluated), in a run in which no assertion fails: whatever drives are
    called and whatever tasks they have or take, no call is finished twice, and while the
    server is not destroyed, every call that was accepted is finished, but for the one,
    of each drive, that its manual modification still has to answer. *)
Theorem rpc_calls_finished es h out s :
  rh_isDestructing h = false -> (forall k, manualAt k h = None) -> serverRespects es (newServer h) ->
  run es (newServer h) = Ret (out, s) ->
  (forall id, (finishes id out <= 1)%nat) /\
  (sv_serviceIsActive s = true -> forall id, (id < sv_contexts s)%nat ->
     finishes id out = 1%nat \/
     finishes id out = 0%nat /\ exists k, sv_waiting s !! k = Some id /\ owedAt k (sv_host s) = 1%nat).
Proof.
  intros Hd Hn Hr E.
  assert (server_inv (newServer h)) as Hi.
  { split; try done.
    - split; [done|]. intros k m. by rewrite Hn.
    - split; cbn; try done; intros id; first [lia|set_solver].
    - intros k. unfold owedAt, waits. rewrite Hn. done. }
  pose proof (server_run_ok es _ Hi Hr) as Hs. rewrite E in Hs. destruct Hs as [H1 H2]. cbn [fst snd] in *. split.
  - intros id. specialize (H1 id). lia.
  - intros Ha id Hl. destruct (H2 Ha) as [Hi' H3]. specialize (H3 id).
    change (answered id (newServer h)) with 0%nat in H3. unfold answered in H3. case_decide as Hg; [left; lia|].
    right. split; [lia|]. destruct (co_open s (si_contexts s Hi') id Hl Hg) as [k Hk]. exists k. split; [done|].
    rewrite (si_owed s Hi'). unfold waits. by rewrite Hk.
Qed.

End Server.

(** ** Witnesses *)

Abbreviation sampleServerRun :=
  (server_run (fun _ => 5000) (fun _ => 99) 5 sumHash (fun c => Z.of_nat (length c)) (fun _ => 4242)).

(** A contract with its drive, a question, and calls to drives without a manual
    modification or that are not there. *)
Definition rpcCalls : list ServerEvent :=
  [EvTaskChanged 1 (NextManual sampleDrive sampleNodes);
   EvAccepted (be_bytes 32 1) (CallRequest (InitiateSandboxModifications []));
   EvAccepted (be_bytes 32 2) (CallRequest (PathExistRequest "a"));
   EvAccepted (be_bytes 32 3) (CallRequest (PathExistRequest "a"));
   EvAccepted (be_bytes 32 1) (CallRequest (OpenFileRequest (500, 501) WRITE "a"));
   EvAccepted (be_bytes 32 2) (GetFileInfo "docs/readme");
   EvTask 1 EvBackground; EvTask 1 EvSession;
   EvAccepted (be_bytes 32 1) (CallRequest (FileSizeRequest "docs/readme"))].

Lemma fourDrives_idle k : manualAt k fourDrives = None.
Proof.
  unfold manualAt. destruct (rh_drives fourDrives !! k) as [d|] eqn:Ed; [|done].
  assert (cd_task d = NoTask) as ->; [|done]. revert Ed. unfold fourDrives. cbn [rh_drives].
  rewrite !lookup_insert, lookup_singleton. repeat case_decide; intros [= <-]; done.
Qed.

Lemma rpc_calls_finished_witness : exists out s,
  sampleServerRun rpcCalls (newServer fourDrives) = Ret (out, s) /\
  (forall id, (id < 5)%nat -> finishes id out = 1%nat) /\ sv_waiting s !! 1 = Some 5%nat.
Proof.
  destruct (sampleServerRun rpcCalls (newServer fourDrives)) as [[out s]|f] eqn:E; [|vm_compute in E; discriminate E].
  exists out, s. split; [reflexivity|].
  assert (serverRespects (fun _ => 5000) (fun _ => 99) 5 sumHash (fun c => Z.of_nat (length c)) (fun _ => 4242)
            rpcCalls (newServer fourDrives)) as Hr by (vm_compute; repeat split; try lia).
  destruct (rpc_calls_finished (fun _ => 5000) (fun _ => 99) 5 sumHash (fun c => Z.of_nat (length c)) (fun _ => 4242)
              rpcCalls fourDrives out s eq_refl fourDrives_idle Hr E) as [H1 H2].
  assert (sv_serviceIsActive s = true /\ sv_contexts s = 6%nat /\ sv_waiting s = {[1 := 5%nat]}) as (Ha & Hc & Hw).
  { vm_compute in E. injection E as _ <-. vm_compute. repeat split. }
  split; [|rewrite Hw; reflexivity]. intros id Hid. destruct (H2 Ha id ltac:(lia)) as [Hf|(_ & k & Hk & _)]; [exact Hf|].
  rewrite Hw in Hk. apply lookup_singleton_Some in Hk as [_ <-]. lia.
Defined.

(** What these calls are told.  The size of a file comes without the mark of success. *)
Example rpc_answers :
  match sampleServerRun rpcCalls (newServer fourDrives) with
  | Ret (out, s) =>
      out = [Register; Finish 0 (Some NoFields); Register; Finish 1 None; Register; Finish 2 None; Register; Register;
             Finish 4 (Some (FileInfo true 10 3)); Finish 3 (Some (SuccessId true 0)); Register] /\
      match sampleServerRun [EvTask 1 EvBackground; EvTask 1 EvSession] s with
      | Ret (out, _) => out = [Finish 5 (Some (SuccessSize false 3))]
      | Stop _ => False
      end
  | Stop _ => False
  end.
Proof. vm_compute. split; reflexivity. Qed.
